(* ===== verification/_CoqProject ===== *)
-Q . S2P
Prelude.v
Bytes.v
Text.v
Contracts.v
ConfigProfile.v
Authorization.v
CommandAuthorization.v
TranscriptFacts.v
ConfigTheorems.v
SemanticFacts.v
SignedAuthority.v
Sql.v
Journal.v
Telemetry.v
JournalFacts.v
JournalTheorems.v
TelemetryTheorems.v
Executor.v
ExecutorTheorems.v
CrashRecovery.v
Trust.v
TrustTheorems.v
Transport.v
EventTheorems.v
FenceTheorems.v
StrictWire.v
StrictWireTheorems.v
EffectRecords.v
EffectStore.v
EffectFacts.v
EffectMachine.v
EffectTheorems.v
ArtifactTheorems.v
DesiredTheorems.v
EffectMac.v
EffectLiveness.v
EffectWitnesses.v
Attestation.v
AttestationTheorems.v
Concurrency.v
Files.v
Utf8.v
UpgradeRecords.v
Upgrader.v
UpgradeRunner.v
UpgradeFacts.v
UpgradeProofs.v
RunnerProofs.v
UpgradeText.v
UpgradeTheorems.v
UpgradeWitnesses.v
PrivdProtocol.v
PrivdAuthority.v
Privd.v
PrivdFacts.v
PrivdProofs.v
PrivdTheorems.v
PrivdWitnesses.v
AdapterText.v
AdapterTextFacts.v
UserFileTheorems.v
CandidateTheorems.v
HostFiles.v
Adapter.v
AdapterLogic.v
AdapterProofs.v
ConfigApplyProofs.v
UserOperationProofs.v
AdapterTheorems.v
AdapterWitnesses.v
AgentClient.v
AgentSession.v
AgentRun.v
ExecutorOutcomes.v
AgentLogic.v
AgentProofs.v
AgentRunProofs.v
AgentTheorems.v
AgentWitnesses.v
LocalBinding.v
