(* ===== verification/Prelude.v ===== *)
(** Verification of the node side of ocservia: the Rust workspace under
    [rust/crates].

    * The program

    A Controller manages ocserv VPN nodes.  On each node an unprivileged Agent
    receives commands over a transport daemon, checks that the Controller
    signed them for this node and this session, records them in a SQLite
    journal, and lets a privileged daemon (privd) perform the effect.  Commands
    are delivered at least once and the Agent may crash at any point; the
    journal is what makes an effect happen at most once and its outcome
    recoverable.  Beside the Controller the transport daemon holds the sessions
    of many nodes: it decides which endpoints may connect, which Controller
    instance owns a node (its fence), and lets commands and operations through
    only under the registered owner's term.

    * Files

    - [Prelude]: results with the [?] notation, the hint database and the
      tactics [split_guards], [stable_guards] and [invert_ok], generic lemmas.
    - [Bytes]: byte strings, big-endian integers, length-prefixed framing and
      its injectivity; [Text]: decimal numbers, splitting, IP addresses, as the
      Rust standard library parses and prints them.
    - [Contracts]: the messages and enumerations of the generated contract
      ([contracts/src/generated/..]) and the read-only session allowlist
      ([contracts/src/session.rs]).
    - [ConfigProfile]: [contracts/src/config_profile.rs] and
      [contracts/src/agent_upgrade.rs]; [ConfigTheorems]: their properties.
    - [Authorization], [CommandAuthorization]:
      [command-authorization/src/lib.rs], split into claims with their
      canonical transcripts, and the command claims, semantic hashes and
      keyring.  [TranscriptFacts] (injectivity of the transcripts),
      [SemanticFacts] (injectivity of the semantic preimage) and
      [SignedAuthority] (the properties) are about them.
    - [Sql]: a connection whose statements may fail, and transactions;
      [Journal], [Telemetry]: [command-journal/src/lib.rs];
      [JournalFacts], [JournalTheorems], [TelemetryTheorems]: its invariant and
      properties.
    - [Executor]: command validation and [CommandExecutor] of
      [agent/src/lib.rs]; [ExecutorTheorems],
      [CrashRecovery]: its properties.
    - [Trust]: the trust budget, the attempt windows and the identity policy of
      [transportd/src/lib.rs]; [TrustTheorems]: their properties.
    - [Transport]: the events, the telemetry buckets, the registry of sessions,
      tokens and fences, and the handlers of [transportd/src/lib.rs];
      [EventTheorems], [FenceTheorems]: their properties.
    - [StrictWire]: [contracts/src/strict_wire.rs] with the schema of the
      contract and the protobuf wire format; [StrictWireTheorems]: its
      properties.
    - [EffectRecords], [EffectStore]: the effect store of
      [ocserv-adapter/src/lib.rs] (authorized effects, desired revisions,
      artifacts); [EffectMachine] is its abstract lifecycle, and
      [EffectTheorems], [ArtifactTheorems], [DesiredTheorems], [EffectMac],
      [EffectLiveness] with the files of facts they use are about it.
    - [Attestation]: [privd-attestation/src/lib.rs]; [AttestationTheorems]: its
      properties.
    - [Concurrency]: programs of atomic steps, rely and guarantee, pools of
      processes, triples; [Files]: the file system; [Utf8]: text as the Rust standard
      library checks and trims it.
    - [UpgradeRecords], [Upgrader], [UpgradeRunner]: [upgrader/src/lib.rs],
      split into the durable records, the scheduler and the runner.
      [UpgradeFacts] is the protocol both follow and its program logic,
      [UpgradeProofs] and [RunnerProofs] the proofs that they follow it,
      [UpgradeText] the text of the records, [UpgradeTheorems] the properties.
      Files named [..Witnesses] hold concrete runs.
    - [PrivdProtocol]: [agent-protocol/src/lib.rs]; [PrivdAuthority]:
      [validate_request] of [privd/src/lib.rs] and what it calls; [Privd]: the
      rest of the daemon, from the connection to the receipt.  [PrivdFacts] is
      what its handlers keep true together, [PrivdProofs] the proof that each
      does, [PrivdTheorems] the properties.
    - [AdapterText]: the texts [ocserv-adapter/src/lib.rs] reads and writes
      (candidates, the user file, the output of ocserv's tools), with
      [AdapterTextFacts], [UserFileTheorems] and [CandidateTheorems];
      [HostFiles], [Adapter]: its operations on the files of
      the host, with those of [complete_config.rs].  [AdapterLogic] is what concurrent operations keep true
      together, [AdapterProofs], [ConfigApplyProofs] and [UserOperationProofs]
      the proofs that each does, [AdapterTheorems] the properties.
    - [AgentClient]: the messages of a session, the client of privd, backoff
      and host reads of [agent/src/lib.rs]; [AgentSession],
      [AgentRun]: [agent/src/main.rs], split into what a session may do, how a
      command is carried out and the streams the Controller opens, and
      telemetry, session, supervisor and process.  [ExecutorOutcomes] is how
      commands get their outcomes, [AgentLogic] what the Agents of a node keep
      true together, [AgentProofs] and [AgentRunProofs] the proofs that each
      part of the program does, [AgentTheorems] the properties.
    - [LocalBinding]: [command-authorization/src/local_binding.rs], the record
      that names a node's authority, and its property.

    * Correspondence

    A Rust function is a Rocq function of the same name; a [Result] is
    [result], and the [?] operator is the [let?] notation.  Integers are [Z];
    where a width matters the model says so: conversions ([u32_try_from]),
    saturating arithmetic ([i64_saturating_sub]), and the encodings, which are
    injective on values of their width only.  Strings and byte vectors are
    lists of bytes.  A protobuf enumeration field is an integer, decoded as
    prost's [try_from] does.

    The journal is the record [Db] of its tables, with the constraints
    [Journal::open] declares as boolean checks.  A journal operation has type
    [Sql Db A]: it runs against a connection that holds the database and a
    schedule of statement failures, so that a theorem over all connections
    covers every point at which storage can fail.  A transaction restores the
    database on error.  The executor's methods have type [Exec A], journal
    calls with their [map_err]; the crash points of the source are the
    argument of [execute].

    The daemon's shared state is the record [Shared].  A handler is a function
    of it; where a handler releases its locks between two parts, the parts are
    definitions of their own, and [transport_step] of [FenceTheorems] lets the
    parts of different handlers and tasks interleave in any order.  A part that
    runs under the lock of the registry is one step: the other locks it takes
    inside guard state that the rest of the part does not read again.  A
    registration token, an [Arc] compared by address, is a number never given
    out twice.  Instants are nanoseconds; a handler takes as arguments each
    clock reading it makes.

    The upgrade store is the record [Disk], a tree of inodes and advisory
    locks.  An upgrader function is a program of type [Up A]: each system call
    is one step, sees a [Choice] (whether it fails, what the clock and the
    UUID generator give) and may interleave with the calls of any other
    process; a process may end at any step, which frees its locks.

    The privileged daemon runs in the record [World]: the effect store, the
    state of the host, the upgrade store, and a record of what was judged,
    called, performed and sent, which no definition reads.  A handler is a
    program over it.  Each method of the effect store is one step, as it runs
    under the store's lock; the upgrade store and the adapter take many steps,
    and an adapter operation may be abandoned at any of them when the
    request's deadline elapses.

    An adapter operation is a program over the files of the host and its own
    handles: each system call is one step that may fail or store a part of its
    data.  A child process runs as one step, after which a caller that gave up
    waiting may find its work done or not.

    The Agents of a node run in the record [AgentWorld]: the journal they
    share, the fence floor each keeps in memory, and a record of what was
    activated, looked at, read from the clock, asked, answered, reported and
    streamed, which no definition reads.  A method of the journal or the executor is one step, and
    so is a read or write of a message; its pick says whether it fails and what
    was read.  The reads of a snapshot, which the code overlaps, are taken in
    the order in which it starts them.

    Parameters.  Ed25519 verification, SHA-256 and hex encoding are the class
    [Crypto], with two laws: a digest has 32 bytes and hex encoding is
    injective.  The encoded size of an envelope, the UUID checks and the target
    architecture are the class [Platform], without laws; the identities and
    times of events, the version of a UUID and the valid endpoint identities
    are the class [Entropy] of [Transport], also without laws.  Prost's decoder
    is the class [Prost], Ed25519 signing the class [Signer], the text of UUIDs
    and hex the class [RecordText] with its round trips, and the user, the
    error texts and the child processes of a node the class [Host].  The
    operations of the ocserv adapter are the class [AdapterOps] (they keep the
    records of authorized effects, and those that report change nothing), and
    prost's encoding of responses the class [ResponseWire]; prost's codecs of
    the Agent's messages and [serde_json] are the class [AgentWire], without
    laws.  That the Controller's
    keys sign only its own statements is the hypothesis [unforged].  No theorem
    assumes that SHA-256 is injective: where a digest stands for its preimage,
    the alternative in the conclusion names the two different strings with one
    digest, computed from the very inputs ([collides]).  Concrete instances
    witness every hypothesis.

    Fuel.  The one unbounded loop of the journal, telemetry eviction, has one
    turn per buffered row plus one; [enqueue_telemetry_total] shows that it
    always finishes.  The daemon's retention loop has one turn per retained
    event plus one, since each turn but the last drops an event.  An artifact
    stream has one turn per requested byte plus one, since each turn but the
    last sends a byte; [artifact_stream_exact] shows that more change nothing.
    The loops of an Agent's session and of its supervisor run until the process
    ends: they take a number of turns, and the theorems hold for every number.
    Other loops are structural.

    * What the theorems show

    - Authority ([SignedAuthority]): the signed bytes determine the statement
      across all five signed kinds; an accepted command, session grant,
      artifact grant, or fenced operation was signed as exactly that, for this
      node and endpoint, within its validity; the signed digest determines the
      command, except for the framing of PKCS#12 exports
      ([p12_boundary_unbound]); the keyring holds exactly the given keys.
    - Journal ([JournalTheorems]): every reachable database is well formed;
      terminal commands are final; acceptance and attested completion are
      exact and atomic under every failure; the fence floor only rises.
    - Telemetry ([TelemetryTheorems]): eviction order, budget and necessity,
      conservation of batches, termination, delivery order.
    - Executor ([ExecutorTheorems], [CrashRecovery]): only authorized commands
      are worked on; refused ones leave no trace; history is never rewritten;
      an external effect is authorized once, and again only on recorded proof
      of absence; observation alone never concludes; a synthetic command is
      executed exactly once from every crash point, over storage that works,
      except that one of the legacy protocol which had not run is not retried.
    - Trust ([TrustTheorems]): the identity policy is sound and a revocation
      final under updates; no class of trust work exceeds its rate in any
      window of a minute, and none can spend another's budget.
    - Events ([EventTheorems]): telemetry never displaces a control event, and
      retention stays within its bounds; a node's telemetry stays within burst
      and refill; the security allowance of a forgotten bucket
      ([idle_bucket_regains_security]).
    - Fencing ([FenceTheorems]): a node's owner term only moves forward in any
      interleaving; commands and operations pass only under the registered
      term, bound to it by the Controller's signature, neither expired and the
      owner's lease running ([in_force]), so that a superseded owner cannot
      dispatch; a removal defeats the registrations under way.
    - Wire ([StrictWireTheorems]): the strict decoder accepts exactly the
      canonical fields of the schema, which [schema] takes from the protocol's
      message definitions and not from the decoder's table, and always finishes.
    - Effect store ([EffectTheorems] and the files after it): it refines the
      lifecycle of [EffectMachine]; an authorized effect is performed at most
      once per authorized delivery, and a completed one only replayed; leases
      are exclusive until the call that ends them ([lease_kept]) and consumed
      artifacts final; the desired revision of a kind and key only rises; the
      stored stamps determine the record.
    - Attestation ([AttestationTheorems]): evidence that verifies was signed by
      privd's key for exactly that outcome, and signed evidence verifies.
    - Upgrades ([UpgradeTheorems]): in every interleaving of privd handlers,
      runners and reports, failing or dying anywhere, at most one operation is
      unfinished, a committed intent and a final outcome never change, and a
      final state is backed by a result for its own intent; records read back
      as written.  They assume that probes for existence do not fail
      ([reliable]), since the code takes a failed probe for absence: the run
      [failed_probe_resets_operation] resets a finished operation; and that the
      programs started stay out of the operations directory
      ([children_outside]).
    - Privileged daemon ([PrivdTheorems]): in every interleaving of its
      handlers, each privileged operation stems from a command the Controller
      signed for this node, unexpired and bound to a running owner term, and is
      the operation its payload stands for; the adapter is called at most once
      per command and delivery mode; an answer to an execution is an error or
      carries a receipt for exactly its result; a request without a signature
      changes nothing.  [future_acceptance_unattested]: a result that can never
      be attested.
    - Adapter ([AdapterTheorems] and the files on texts):
      whatever fails, is abandoned or dies, the managed files are always whole;
      an apply reports what is on disk, and a complete one puts in place what
      the candidate says without touching the startup bindings; a change of a group is all or nothing;
      the user file is bounded, and rewriting it changes the group asked for
      and nothing else; a plan checks what the apply publishes and discloses no
      secret.
    - Agent ([AgentTheorems]): in every interleaving of
      the steps of any number of Agent processes over one journal, what an
      Agent asks of privd was bound by the Controller to the owner term it
      holds, the newest at its last look and in force at the clock reading that
      followed; terms only move forward; reported
      outcomes are the journal's and never contradict each other; every settled
      command has its recorded execution or the receipt of an answer to an
      authorized request; a session may do what was signed for it; an artifact
      stream delivers exactly the announced bytes.
    - Local binding ([LocalBinding]): a binding is taken up exactly when root
      alone could have written the selector and it holds the canonical text of
      that binding, and left out only when a name does not exist.
    - Contracts ([ConfigTheorems]): accepted configurations are canonical and
      complete; target versions are exactly Semantic Versioning 2.0.0.

    * Not modelled

    Opening and migrating the SQLite file, the key file loader, the parsing of
    the Agent's command line, enrollment and rebinding, and the identity
    store are file and system access around library calls.  Of the
    adapter, the files of certificates and artifacts are left out, and so is
    the loss of what the disk had not yet stored when the power fails.  Of the Agent, the
    relays and the iroh endpoint are left out, and the reads that only serve
    log lines; a session may expire at any time once it has an expiry.  The
    handshake of the transport daemon is iroh's.  The Go control plane, the
    console and deployment are other programs. *)

From stdpp Require Import base list gmap numbers.
From Stdlib Require Import ZArith Lia Bool.

(** * Results

    Rust's [Result<A, E>], with the [?] operator as a binding notation. *)

Declare Scope rust_scope.
Delimit Scope rust_scope with rust.
Open Scope rust_scope.

Inductive result (E A : Type) : Type :=
| Ok (a : A)
| Err (e : E).

Arguments Ok {E A} a.
Arguments Err {E A} e.

(** [let? x := m in k] is [let x = m?; k]: an error of [m] is returned. *)
Notation "'let?' x ':=' m 'in' k" :=
  (match m with Ok x => k | Err error => Err error end)
  (at level 10, x pattern, m at level 100, k at level 200,
   format "'let?'  x  ':='  m  'in' '//' k") : rust_scope.

(** [Result::map_err]. *)
Definition map_err {E F A} (f : E -> F) (m : result E A) : result F A :=
  match m with
  | Ok a => Ok a
  | Err e => Err (f e)
  end.

(** [Option::ok_or]. *)
Definition ok_or {E A} (o : option A) (e : E) : result E A :=
  match o with
  | Some a => Ok a
  | None => Err e
  end.

Definition is_ok {E A} (m : result E A) : bool :=
  match m with
  | Ok _ => true
  | Err _ => false
  end.

(** * Machine integers *)

Definition u32_max : Z := 2 ^ 32 - 1.
Definition u64_max : Z := 2 ^ 64 - 1.
Definition i64_max : Z := 2 ^ 63 - 1.
Definition i64_min : Z := - 2 ^ 63.

Definition in_u32 (z : Z) : Prop := (0 <= z < 2 ^ 32)%Z.
Definition in_u64 (z : Z) : Prop := (0 <= z < 2 ^ 64)%Z.
Definition in_i32 (z : Z) : Prop := (- 2 ^ 31 <= z < 2 ^ 31)%Z.
Definition in_i64 (z : Z) : Prop := (- 2 ^ 63 <= z < 2 ^ 63)%Z.

#[export] Instance in_u32_dec z : Decision (in_u32 z).
Proof. unfold in_u32. apply _. Defined.
#[export] Instance in_u64_dec z : Decision (in_u64 z).
Proof. unfold in_u64. apply _. Defined.
#[export] Instance in_i32_dec z : Decision (in_i32 z).
Proof. unfold in_i32. apply _. Defined.
#[export] Instance in_i64_dec z : Decision (in_i64 z).
Proof. unfold in_i64. apply _. Defined.

(** [i64::saturating_add] and [i64::saturating_sub]. *)
Definition i64_saturating (z : Z) : Z := Z.max i64_min (Z.min i64_max z).
Definition i64_saturating_add (a b : Z) : Z := i64_saturating (a + b).
Definition i64_saturating_sub (a b : Z) : Z := i64_saturating (a - b).

(** [i64::checked_add]. *)
Definition i64_checked_add (a b : Z) : option Z :=
  if bool_decide (in_i64 (a + b)) then Some (a + b)%Z else None.

(** [u32::try_from] on a signed or wider integer. *)
Definition u32_try_from (z : Z) : option Z :=
  if bool_decide (in_u32 z) then Some z else None.

(** * Automation *)

Create HintDb ocservia discriminated.

(** [invert_ok H] unfolds the early returns of a computation that returned
    [Ok], leaving one equation per guard and per [?]. *)
Ltac invert_ok H :=
  repeat
    (cbn beta iota zeta in H;
     match type of H with
     | Err _ = Ok _ => discriminate H
     | (if ?b then _ else _) = Ok _ =>
         let E := fresh "Hguard" in
         destruct b eqn:E; try discriminate H
     | match ?m with _ => _ end = Ok _ =>
         let E := fresh "Hstep" in
         destruct m eqn:E; try discriminate H
     | Ok _ = Ok _ => injection H as H
     end).

(** Turns the falsity of a disjunction of refusal conditions into the list of
    conditions that hold. *)
Ltac split_guards :=
  cbn beta in *;
  repeat
    match goal with
    | H : (_ || _)%bool = false |- _ =>
        apply orb_false_iff in H; destruct H
    | H : negb _ = false |- _ => apply negb_false_iff in H
    | H : (_ && _)%bool = true |- _ =>
        apply andb_true_iff in H; destruct H
    | H : bool_decide _ = true |- _ => apply bool_decide_eq_true in H
    | H : bool_decide _ = false |- _ => apply bool_decide_eq_false in H
    end.

(** Reads refused inequalities as equalities. *)
Ltac stabilise := repeat match goal with G : ~ (_ <> _) |- _ => apply dec_stable in G end.

Ltac stable_guards := split_guards; stabilise.

Lemma map_err_ok {E F A} (g : E -> F) (m : result E A) a : map_err g m = Ok a -> m = Ok a.
Proof. destruct m; [|done]. by intros [= ->]. Qed.

Lemma ok_or_Some {E A} (o : option A) (e : E) a : ok_or o e = Ok a -> o = Some a.
Proof. destruct o; [|done]. by intros [= ->]. Qed.
