(* ===== verification/Bytes.v ===== *)
(** Byte strings, the machine-integer encodings written by
    [to_be_bytes]/[from_be_bytes], Rust's byte-wise string order, and the
    prefix-decoding lemmas every canonical transcript of the repository relies
    on.  Rust's [Vec<u8>], [&[u8]], [String] and [&str] are all [bytes]: a
    Rust string is its UTF-8 byte sequence, [len] counts bytes and [Ord]
    compares bytes. *)

From stdpp Require Import base list numbers countable strings.
From Stdlib Require Import ZArith Lia Bool Strings.Byte.
From S2P Require Import Prelude.

Abbreviation byte := Byte.byte.
Abbreviation bytes := (list Byte.byte).

Declare Scope bytes_scope.
Delimit Scope bytes_scope with bytes.

(** A Rust string literal. *)
Definition str (s : string) : bytes := String.list_byte_of_string s.

#[export] Instance byte_eq_dec : EqDecision byte := Byte.byte_eq_dec.

#[export] Program Instance byte_countable : Countable byte :=
  inj_countable Byte.to_N (fun n => Byte.of_N n) _.
Next Obligation. intros b. apply Byte.of_to_N. Qed.

(** * Bytes as numbers *)

Definition byte_val (b : byte) : Z := Z.of_N (Byte.to_N b).

(** Truncating conversion of an integer to [u8] ([as u8]). *)
Definition byte_of (z : Z) : byte :=
  match Byte.of_N (Z.to_N (z mod 256)) with
  | Some b => b
  | None => x00
  end.

Lemma byte_val_range b : (0 <= byte_val b < 256)%Z.
Proof. unfold byte_val. pose proof (Byte.to_N_bounded b). lia. Qed.

Lemma byte_val_of z : byte_val (byte_of z) = (z mod 256)%Z.
Proof.
  unfold byte_of, byte_val.
  pose proof (Z.mod_pos_bound z 256 ltac:(lia)).
  destruct (Byte.of_N (Z.to_N (z mod 256))) as [b|] eqn:E.
  - apply Byte.to_of_N in E. rewrite E. lia.
  - apply Byte.of_N_None_iff in E. lia.
Qed.

#[export] Instance byte_val_inj : Inj (=) (=) byte_val.
Proof.
  intros a b E. unfold byte_val in E. apply N2Z.inj in E.
  pose proof (Byte.of_to_N a) as Ha. pose proof (Byte.of_to_N b) as Hb. congruence.
Qed.

Lemma byte_of_val b : byte_of (byte_val b) = b.
Proof.
  apply (inj byte_val). rewrite byte_val_of.
  apply Z.mod_small, byte_val_range.
Qed.

(** * Big-endian integers *)

(** [be n z] is [z.to_be_bytes()] for an [8 * n]-bit integer; a negative [z]
    is written in two's complement because every byte is taken modulo 256. *)
Fixpoint be (n : nat) (z : Z) : bytes :=
  match n with
  | O => []
  | S m => byte_of (z / 2 ^ (8 * Z.of_nat m)) :: be m z
  end.

(** [from_be_bytes] read as an unsigned integer. *)
Fixpoint be_value (l : bytes) : Z :=
  match l with
  | [] => 0
  | b :: r => byte_val b * 2 ^ (8 * Z.of_nat (length r)) + be_value r
  end.

Lemma length_be n z : length (be n z) = n.
Proof. induction n; simpl; congruence. Qed.

Lemma be_value_be n z : be_value (be n z) = (z mod 2 ^ (8 * Z.of_nat n))%Z.
Proof.
  induction n as [|n IH]; simpl be; simpl be_value.
  - by rewrite Z.mul_0_r, Z.pow_0_r, Z.mod_1_r.
  - rewrite length_be, byte_val_of, IH.
    replace (8 * Z.of_nat (S n))%Z with (8 * Z.of_nat n + 8)%Z by lia.
    rewrite Z.pow_add_r by lia. change (2 ^ 8)%Z with 256%Z.
    rewrite Z.rem_mul_r by lia. lia.
Qed.

Lemma be_value_range l : (0 <= be_value l < 2 ^ (8 * Z.of_nat (length l)))%Z.
Proof.
  induction l as [|b l IH]; simpl be_value; simpl length; [done|].
  pose proof (byte_val_range b).
  replace (8 * Z.of_nat (S (length l)))%Z with (8 * Z.of_nat (length l) + 8)%Z by lia.
  rewrite Z.pow_add_r by lia. change (2 ^ 8)%Z with 256%Z. nia.
Qed.

Lemma be_mod_eq n z1 z2 :
  be n z1 = be n z2 -> (z1 mod 2 ^ (8 * Z.of_nat n) = z2 mod 2 ^ (8 * Z.of_nat n))%Z.
Proof. intros E%(f_equal be_value). by rewrite !be_value_be in E. Qed.

Lemma be_u32_inj z1 z2 : in_u32 z1 -> in_u32 z2 -> be 4 z1 = be 4 z2 -> z1 = z2.
Proof.
  unfold in_u32. intros H1 H2 E%be_mod_eq. change (8 * Z.of_nat 4)%Z with 32%Z in E.
  by rewrite !Z.mod_small in E.
Qed.

Lemma be_u64_inj z1 z2 : in_u64 z1 -> in_u64 z2 -> be 8 z1 = be 8 z2 -> z1 = z2.
Proof.
  unfold in_u64. intros H1 H2 E%be_mod_eq. change (8 * Z.of_nat 8)%Z with 64%Z in E.
  by rewrite !Z.mod_small in E.
Qed.

Lemma be_i64_inj z1 z2 : in_i64 z1 -> in_i64 z2 -> be 8 z1 = be 8 z2 -> z1 = z2.
Proof.
  unfold in_i64. intros H1 H2 E%be_mod_eq. change (8 * Z.of_nat 8)%Z with 64%Z in E.
  assert (((z1 - z2) mod 2 ^ 64)%Z = 0%Z) as D.
  { rewrite Zminus_mod, E, Z.sub_diag. reflexivity. }
  apply Z.mod_divide in D as [k D]; [|done]. change (2 ^ 64)%Z with 18446744073709551616%Z in D.
  change (2 ^ 63)%Z with 9223372036854775808%Z in *. lia.
Qed.

(** * Rust's string and slice order *)

(** [Ord] on [str] and [[u8]]: lexicographic on bytes, a proper prefix being
    smaller. *)
Fixpoint bytes_compare (a b : bytes) : comparison :=
  match a, b with
  | [], [] => Eq
  | [], _ :: _ => Lt
  | _ :: _, [] => Gt
  | x :: a', y :: b' =>
      match Z.compare (byte_val x) (byte_val y) with
      | Eq => bytes_compare a' b'
      | c => c
      end
  end.

Definition bytes_ltb (a b : bytes) : bool :=
  match bytes_compare a b with Lt => true | _ => false end.
Definition bytes_leb (a b : bytes) : bool :=
  match bytes_compare a b with Gt => false | _ => true end.

Definition bytes_lt (a b : bytes) : Prop := bytes_compare a b = Lt.

Lemma bytes_compare_refl a : bytes_compare a a = Eq.
Proof. induction a; simpl; [done|]. by rewrite Z.compare_refl. Qed.

Lemma bytes_compare_eq a b : bytes_compare a b = Eq <-> a = b.
Proof.
  split; [|intros ->; apply bytes_compare_refl].
  revert b; induction a as [|x a IH]; intros [|y b]; simpl; try done.
  destruct (Z.compare_spec (byte_val x) (byte_val y)) as [E| |]; try done.
  intros H. apply (inj byte_val) in E. f_equal; auto.
Qed.

Lemma bytes_compare_antisym a b : bytes_compare b a = CompOpp (bytes_compare a b).
Proof.
  revert b; induction a as [|x a IH]; intros [|y b]; simpl; try done.
  rewrite (Z.compare_antisym (byte_val x)). destruct (byte_val x ?= byte_val y)%Z; simpl; auto.
Qed.

#[export] Instance bytes_lt_trans : Transitive bytes_lt.
Proof.
  unfold bytes_lt. intros a b c; revert b c.
  induction a as [|x a IH]; intros [|y b] [|z c]; simpl; try done.
  destruct (Z.compare_spec (byte_val x) (byte_val y)) as [E1|E1|E1];
    destruct (Z.compare_spec (byte_val y) (byte_val z)) as [E2|E2|E2]; try done; intros H1 H2.
  - apply (inj byte_val) in E1 as ->, E2 as ->. rewrite Z.compare_refl. eauto.
  - apply (inj byte_val) in E1 as ->. by rewrite (proj2 (Z.compare_lt_iff _ _)).
  - apply (inj byte_val) in E2 as ->. by rewrite (proj2 (Z.compare_lt_iff _ _)).
  - by rewrite (proj2 (Z.compare_lt_iff _ _)) by lia.
Qed.

#[export] Instance bytes_lt_irrefl : Irreflexive bytes_lt.
Proof. intros a. unfold complement, bytes_lt. by rewrite bytes_compare_refl. Qed.

Lemma bytes_ltb_lt a b : bytes_ltb a b = true <-> bytes_lt a b.
Proof. unfold bytes_ltb, bytes_lt. by destruct (bytes_compare a b). Qed.

Lemma bytes_leb_nlt a b : bytes_leb a b = false <-> bytes_lt b a.
Proof.
  unfold bytes_leb, bytes_lt. rewrite (bytes_compare_antisym a b).
  by destruct (bytes_compare a b).
Qed.

Lemma bytes_leb_spec a b : bytes_leb a b = true <-> bytes_lt a b \/ a = b.
Proof.
  unfold bytes_leb, bytes_lt. rewrite <- bytes_compare_eq.
  destruct (bytes_compare a b); intuition congruence.
Qed.

(** On big-endian integers of one width the byte order is the numeric order. *)
Lemma bytes_compare_be_value a b :
  length a = length b -> bytes_compare a b = Z.compare (be_value a) (be_value b).
Proof.
  revert b; induction a as [|x a IH]; intros [|y b] L; simpl in *; try done.
  injection L as L. rewrite (IH b L), L.
  pose proof (be_value_range a) as Ra. pose proof (be_value_range b) as Rb.
  rewrite L in Ra.
  set (w := (2 ^ (8 * Z.of_nat (length b)))%Z) in *.
  destruct (Z.compare_spec (byte_val x) (byte_val y)) as [E|E|E].
  - rewrite E. destruct (Z.compare_spec (be_value a) (be_value b));
      symmetry; [apply Z.compare_eq_iff|apply Z.compare_lt_iff|apply Z.compare_gt_iff]; lia.
  - symmetry. apply Z.compare_lt_iff. nia.
  - symmetry. apply Z.compare_gt_iff. nia.
Qed.

Lemma bytes_compare_be n z1 z2 :
  (0 <= z1 < 2 ^ (8 * Z.of_nat n))%Z -> (0 <= z2 < 2 ^ (8 * Z.of_nat n))%Z ->
  bytes_compare (be n z1) (be n z2) = Z.compare z1 z2.
Proof.
  intros H1 H2. rewrite bytes_compare_be_value by (by rewrite !length_be).
  by rewrite !be_value_be, !Z.mod_small.
Qed.

(** * Lengths *)

(** Rust's [len()], as an integer. *)
Definition len {A} (l : list A) : Z := Z.of_nat (length l).

Definition is_empty {A} (l : list A) : bool :=
  match l with [] => true | _ => false end.

Lemma len_nonneg {A} (l : list A) : (0 <= len l)%Z.
Proof. unfold len. lia. Qed.

Lemma len_app {A} (l k : list A) : len (l ++ k) = (len l + len k)%Z.
Proof. unfold len. rewrite length_app. lia. Qed.

Lemma is_empty_false {A} (l : list A) : is_empty l = false <-> l <> [].
Proof. by destruct l. Qed.

(** * Prefix codes

    [PrefixCode D enc] says that [enc] is uniquely decodable in front of any
    suffix, on the values of [D].  A canonical transcript is a concatenation
    of such codes, so that its bytes determine every field. *)

Class PrefixCode {A} (D : A -> Prop) (enc : A -> bytes) : Prop :=
  prefix_code a1 a2 r1 r2 :
    D a1 -> D a2 -> enc a1 ++ r1 = enc a2 ++ r2 -> a1 = a2 /\ r1 = r2.

(** A code of constant width that is injective is a prefix code. *)
Lemma prefix_code_fixed_width {A} (D : A -> Prop) (enc : A -> bytes) (n : nat) :
  (forall a, D a -> length (enc a) = n) ->
  (forall a1 a2, D a1 -> D a2 -> enc a1 = enc a2 -> a1 = a2) ->
  PrefixCode D enc.
Proof.
  intros L I a1 a2 r1 r2 D1 D2 E.
  apply app_inj_1 in E as [E ->]; [by auto|]. by rewrite !L.
Qed.

#[export] Instance be_u32_code : PrefixCode in_u32 (be 4).
Proof. apply (prefix_code_fixed_width _ _ 4); [intros; apply length_be|apply be_u32_inj]. Qed.

#[export] Instance be_u64_code : PrefixCode in_u64 (be 8).
Proof. apply (prefix_code_fixed_width _ _ 8); [intros; apply length_be|apply be_u64_inj]. Qed.

#[export] Instance be_i64_code : PrefixCode in_i64 (be 8).
Proof. apply (prefix_code_fixed_width _ _ 8); [intros; apply length_be|apply be_i64_inj]. Qed.

(** A fixed-size array [[u8; n]] written raw. *)
Definition array (n : nat) (b : bytes) : Prop := length b = n.

#[export] Instance array_dec n b : Decision (array n b).
Proof. unfold array. apply _. Defined.

#[export] Instance array_code n : PrefixCode (array n) (fun b => b).
Proof. by apply (prefix_code_fixed_width _ _ n). Qed.

(** A byte string preceded by its length as a big-endian [u32]. *)
Definition lp (b : bytes) : bytes := be 4 (len b) ++ b.

Definition fits_u32 {A} (b : list A) : Prop := (len b <= u32_max)%Z.

#[export] Instance lp_code : PrefixCode fits_u32 lp.
Proof.
  intros a1 a2 r1 r2 D1 D2. unfold lp. rewrite <- !app_assoc. intros E.
  unfold fits_u32, u32_max in *. pose proof (len_nonneg a1). pose proof (len_nonneg a2).
  apply (prefix_code (PrefixCode := be_u32_code)) in E as [E1 E2]; [|unfold in_u32; lia..].
  apply app_inj_1 in E2 as [-> ->]; [done|]. unfold len in E1. lia.
Qed.

(** A sequence of length-prefixed strings of a known count. *)
Definition lps (l : list bytes) : bytes := concat (lp <$> l).

Lemma lps_code l1 l2 r1 r2 :
  length l1 = length l2 -> Forall fits_u32 l1 -> Forall fits_u32 l2 ->
  lps l1 ++ r1 = lps l2 ++ r2 -> l1 = l2 /\ r1 = r2.
Proof.
  intros L F1; revert l2 L. unfold lps.
  induction F1 as [|x l1 Hx F1 IH]; intros [|y l2] L F2; simpl in *; try done.
  rewrite <- !app_assoc. intros E. inversion F2; subst.
  apply (prefix_code (PrefixCode := lp_code)) in E as [-> E]; [|done..].
  apply IH in E as [-> ->]; [done|lia|done].
Qed.

(** The count followed by the strings. *)
Definition counted_lps (l : list bytes) : bytes := be 4 (len l) ++ lps l.

Definition counted_ok (l : list bytes) : Prop := fits_u32 l /\ Forall fits_u32 l.

#[export] Instance counted_lps_code : PrefixCode counted_ok counted_lps.
Proof.
  intros a1 a2 r1 r2 [D1 F1] [D2 F2]. unfold counted_lps. rewrite <- !app_assoc. intros E.
  unfold fits_u32, u32_max in D1, D2. pose proof (len_nonneg a1). pose proof (len_nonneg a2).
  apply (prefix_code (PrefixCode := be_u32_code)) in E as [E1 E2]; [|unfold in_u32; lia..].
  apply lps_code in E2; [done| |done|done]. unfold len in E1. lia.
Qed.

(** A presence byte, then the raw array when it is present. *)
Definition optional_bytes (o : option bytes) : bytes :=
  match o with
  | Some v => x01 :: v
  | None => [x00]
  end.

Definition optional_array (n : nat) (o : option bytes) : Prop :=
  match o with Some v => array n v | None => True end.

#[export] Instance optional_code n : PrefixCode (optional_array n) optional_bytes.
Proof.
  intros [v1|] [v2|] r1 r2 D1 D2 E; simpl in E; try discriminate E; injection E as E; [|done].
  apply (prefix_code (PrefixCode := array_code n)) in E as [-> ->]; done.
Qed.

(** [peel (code x y r s) H] removes one encoded field from both sides of
    [H : enc x ++ r = enc y ++ s] and identifies the field values; the ranges
    of [x] and [y] are among the hypotheses. *)
Ltac peel code H :=
  let E := fresh "Efield" in let H' := fresh "Hrest" in
  destruct (code ltac:(first [assumption|split; assumption])
                 ltac:(first [assumption|split; assumption]) H) as [E H'];
  clear H; rename H' into H.

(** Distinct, mutually prefix-free domain separators separate transcripts:
    neither separator is a prefix of the other. *)
Fixpoint diverge (a b : bytes) : bool :=
  match a, b with
  | x :: a', y :: b' => if bool_decide (x = y) then diverge a' b' else true
  | _, _ => false
  end.

Lemma diverge_app a b r1 r2 : diverge a b = true -> a ++ r1 <> b ++ r2.
Proof.
  revert b; induction a as [|x a IH]; intros [|y b]; simpl; try done.
  case_bool_decide as E; [|congruence]. intros D H. injection H as _ H. by apply (IH b).
Qed.

(** * Characters *)

Definition is_ascii_digit (b : byte) : bool :=
  (48 <=? byte_val b)%Z && (byte_val b <=? 57)%Z.
Definition is_ascii_lowercase (b : byte) : bool :=
  (97 <=? byte_val b)%Z && (byte_val b <=? 122)%Z.
Definition is_ascii_uppercase (b : byte) : bool :=
  (65 <=? byte_val b)%Z && (byte_val b <=? 90)%Z.
Definition is_ascii_alphanumeric (b : byte) : bool :=
  is_ascii_digit b || is_ascii_lowercase b || is_ascii_uppercase b.
Definition is_ascii_hexdigit (b : byte) : bool :=
  is_ascii_digit b || ((97 <=? byte_val b)%Z && (byte_val b <=? 102)%Z)
  || ((65 <=? byte_val b)%Z && (byte_val b <=? 70)%Z).
Definition is_ascii (b : byte) : bool := (byte_val b <? 128)%Z.

(** [value.bytes().enumerate().all(f)] for a predicate that distinguishes
    only the first position. *)
Definition all_bytes_first (first rest : byte -> bool) (l : bytes) : bool :=
  match l with
  | [] => true
  | b :: r => first b && forallb rest r
  end.

(** [str::trim().is_empty()]: every character has the Unicode [White_Space]
    property.  The characters above U+007F with that property are U+0085,
    U+00A0, U+1680, U+2000..U+200A, U+2028, U+2029, U+202F, U+205F and
    U+3000, written here as their UTF-8 sequences. *)
Fixpoint trim_is_empty (l : bytes) : bool :=
  match l with
  | [] => true
  | x20 :: r | x09 :: r | x0a :: r | x0b :: r | x0c :: r | x0d :: r => trim_is_empty r
  | xc2 :: x85 :: r | xc2 :: xa0 :: r => trim_is_empty r
  | xe1 :: x9a :: x80 :: r => trim_is_empty r
  | xe2 :: x80 :: b :: r =>
      if ((128 <=? byte_val b)%Z && (byte_val b <=? 138)%Z)
         || bool_decide (b = xa8) || bool_decide (b = xa9) || bool_decide (b = xaf)
      then trim_is_empty r else false
  | xe2 :: x81 :: x9f :: r => trim_is_empty r
  | xe3 :: x80 :: x80 :: r => trim_is_empty r
  | _ => false
  end.

Arguments be _ _ : simpl never.
Arguments be_value _ : simpl never.
Arguments str _ : simpl never.
