(* ===== verification/Text.v ===== *)
(** The text operations of the Rust standard library that the contracts use:
    decimal integers ([str::parse], [to_string]), splitting, and
    [Ipv4Addr]'s parser and printer, with their round trips. *)

From stdpp Require Import base list numbers countable strings.
From Stdlib Require Import ZArith Lia Bool Strings.Byte.
From S2P Require Import Prelude Bytes.

Local Open Scope Z_scope.

(** * Decimal integers *)

Definition digit_value (b : byte) : Z := byte_val b - 48.
Definition digit_byte (d : Z) : byte := byte_of (48 + d).

(** The accumulation of [from_str_radix(_, 10)] for an unsigned type with the
    given maximum: an overflow or a non-digit is an error. *)
Fixpoint parse_digits (max acc : Z) (s : bytes) : option Z :=
  match s with
  | [] => Some acc
  | b :: r =>
      if is_ascii_digit b then
        let acc' := acc * 10 + digit_value b in
        if acc' >? max then None else parse_digits max acc' r
      else None
  end.

(** [str::parse::<u32>()], [str::parse::<u64>()]: one leading [+] is allowed. *)
Definition parse_unsigned (max : Z) (s : bytes) : option Z :=
  match s with
  | [] => None
  | [x2b] => None
  | x2b :: r => parse_digits max 0 r
  | _ => parse_digits max 0 s
  end.

Definition parse_u64 : bytes -> option Z := parse_unsigned u64_max.
Definition parse_u32 : bytes -> option Z := parse_unsigned u32_max.

(** [to_string()] of an unsigned integer; twenty digits hold every [u64]. *)
Fixpoint decimal (fuel : nat) (z : Z) : bytes :=
  match fuel with
  | O => []
  | S fuel' =>
      if z <? 10 then [digit_byte z]
      else decimal fuel' (z / 10) ++ [digit_byte (z mod 10)]
  end.

Definition to_string (z : Z) : bytes := decimal 20 z.

Lemma digit_byte_val d : 0 <= d < 10 -> byte_val (digit_byte d) = 48 + d.
Proof. intros H. unfold digit_byte. rewrite byte_val_of. apply Z.mod_small. lia. Qed.

Lemma digit_byte_digit d : 0 <= d < 10 -> is_ascii_digit (digit_byte d) = true.
Proof. intros H. unfold is_ascii_digit. rewrite digit_byte_val by done. lia. Qed.

Lemma digit_byte_value d : 0 <= d < 10 -> digit_value (digit_byte d) = d.
Proof. intros H. unfold digit_value. rewrite digit_byte_val by done. lia. Qed.

Lemma parse_digits_app max acc s1 s2 :
  parse_digits max acc (s1 ++ s2) =
  match parse_digits max acc s1 with Some v => parse_digits max v s2 | None => None end.
Proof.
  revert acc. induction s1 as [|b s1 IH]; intros acc; simpl; [done|].
  destruct (is_ascii_digit b); [|done]. destruct (_ >? _); [done|apply IH].
Qed.

Lemma parse_digits_decimal fuel max z :
  0 <= z <= max -> z < 10 ^ Z.of_nat fuel -> parse_digits max 0 (decimal fuel z) = Some z.
Proof.
  revert z. induction fuel as [|fuel IH]; intros z Hz Hf; simpl; [simpl in Hf; f_equal; lia|].
  assert (10 ^ Z.of_nat (S fuel) = 10 * 10 ^ Z.of_nat fuel) as Hpow
    by (rewrite Nat2Z.inj_succ, Z.pow_succ_r; lia).
  destruct (Z.ltb_spec z 10); simpl.
  - rewrite digit_byte_digit, digit_byte_value by lia.
    change (0 * 10 + z) with z. destruct (Z.gtb_spec z max); [lia|done].
  - pose proof (Z.div_mod z 10 ltac:(lia)). pose proof (Z.mod_pos_bound z 10 ltac:(lia)).
    rewrite parse_digits_app, IH by (try apply Z.div_lt_upper_bound; lia).
    simpl. rewrite digit_byte_digit, digit_byte_value by lia.
    destruct (Z.gtb_spec (z / 10 * 10 + z mod 10) max); [lia|]. f_equal. lia.
Qed.

Lemma decimal_head fuel z : 0 <= z -> fuel <> O ->
  exists d r, 0 <= d < 10 /\ decimal fuel z = digit_byte d :: r.
Proof.
  revert z. induction fuel as [|fuel IH]; intros z Hz Hf; [done|]. simpl.
  destruct (Z.ltb_spec z 10); [by exists z, []|].
  destruct fuel as [|fuel].
  - exists (z mod 10), []. split; [apply Z.mod_pos_bound; lia|done].
  - destruct (IH (z / 10)) as (d & r & Hd & ->); [by apply Z.div_pos|done|]. by exists d, (r ++ [digit_byte (z mod 10)]).
Qed.

(** Printing then parsing an integer of the type gives it back. *)
Lemma parse_unsigned_to_string max z :
  0 <= z <= max -> max < 10 ^ 20 -> parse_unsigned max (to_string z) = Some z.
Proof.
  intros Hz Hm. unfold to_string.
  assert (parse_digits max 0 (decimal 20 z) = Some z) as Hp
    by (apply parse_digits_decimal; [lia|change (10 ^ Z.of_nat 20) with (10 ^ 20); lia]).
  destruct (decimal_head 20 z) as (d & r & Hd & E); [lia|done|]. rewrite E in *.
  assert (digit_byte d <> x2b) as Hne.
  { intros Eb. apply (f_equal byte_val) in Eb. rewrite digit_byte_val in Eb by done.
    change (byte_val x2b) with 43 in Eb. lia. }
  unfold parse_unsigned. by destruct (digit_byte d).
Qed.

Lemma to_string_inj z1 z2 : in_u64 z1 -> in_u64 z2 -> to_string z1 = to_string z2 -> z1 = z2.
Proof.
  intros H1 H2 E. unfold in_u64 in *.
  pose proof (parse_unsigned_to_string u64_max z1) as P1.
  pose proof (parse_unsigned_to_string u64_max z2) as P2. rewrite E in P1.
  unfold u64_max in *. rewrite P1 in P2 by lia. by injection (P2 ltac:(lia) ltac:(lia)) as ->.
Qed.

(** * Splitting *)

(** [str::split(c)] for an ASCII character. *)
Fixpoint split_on (c : byte) (s : bytes) : list bytes :=
  match s with
  | [] => [[]]
  | b :: r =>
      if bool_decide (b = c) then [] :: split_on c r
      else match split_on c r with
           | [] => [[b]]
           | part :: rest => (b :: part) :: rest
           end
  end.

(** [str::split_once(c)]: around the first occurrence. *)
Fixpoint split_once (c : byte) (s : bytes) : option (bytes * bytes) :=
  match s with
  | [] => None
  | b :: r =>
      if bool_decide (b = c) then Some ([], r)
      else match split_once c r with
           | Some (before, after) => Some (b :: before, after)
           | None => None
           end
  end.

(** [str::contains] of an ASCII character, and of two in a row. *)
Definition contains (c : byte) (s : bytes) : bool := existsb (fun b => bool_decide (b = c)) s.

Fixpoint contains_twice (c : byte) (s : bytes) : bool :=
  match s with
  | b :: ((d :: _) as r) => (bool_decide (b = c) && bool_decide (d = c)) || contains_twice c r
  | _ => false
  end.

Lemma split_once_Some c s before after :
  split_once c s = Some (before, after) -> s = before ++ c :: after /\ c ∉ before.
Proof.
  revert before. induction s as [|b s IH]; intros before; simpl; [done|].
  case_bool_decide as E.
  - intros [= <- <-]. subst. split; [done|]. apply not_elem_of_nil.
  - destruct (split_once c s) as [[x y]|]; [|done]. intros [= <- <-].
    destruct (IH x eq_refl) as [-> Hn]. split; [done|]. by apply not_elem_of_cons.
Qed.

Lemma split_once_None c s : split_once c s = None <-> c ∉ s.
Proof.
  induction s as [|b s IH]; simpl; [split; [intros _; apply not_elem_of_nil|done]|].
  rewrite not_elem_of_cons. case_bool_decide as E; [split; [done|intros [? _]; congruence]|].
  destruct (split_once c s) as [[x y]|]; [|split; [intros _; split; [congruence|by apply IH]|done]].
  split; [done|]. intros [_ H]. by apply IH in H.
Qed.

Lemma split_once_app c before after :
  c ∉ before -> split_once c (before ++ c :: after) = Some (before, after).
Proof.
  induction before as [|b before IH]; simpl; intros H; [by rewrite bool_decide_true|].
  apply not_elem_of_cons in H as [H1 H2]. by rewrite bool_decide_false, IH by congruence.
Qed.

(** Joining the parts gives the string back, and no part holds the
    separator. *)
Fixpoint join (c : byte) (parts : list bytes) : bytes :=
  match parts with
  | [] => []
  | [part] => part
  | part :: rest => part ++ c :: join c rest
  end.

Lemma split_on_nonempty c s : split_on c s <> [].
Proof. destruct s; simpl; [done|]. case_bool_decide; [done|]. by destruct (split_on c s). Qed.

Lemma join_split_on c s : join c (split_on c s) = s.
Proof.
  induction s as [|b s IH]; [done|]. simpl. case_bool_decide as E.
  - subst. simpl. pose proof (split_on_nonempty c s). destruct (split_on c s) eqn:Es; [done|].
    by rewrite IH.
  - pose proof (split_on_nonempty c s). destruct (split_on c s) as [|p [|q rest]] eqn:Es; [done|..];
      simpl in *; by rewrite IH.
Qed.

Lemma split_on_parts c s : Forall (fun part => c ∉ part) (split_on c s).
Proof.
  induction s as [|b s IH]; simpl; [by repeat constructor; apply not_elem_of_nil|].
  case_bool_decide as E; [constructor; [apply not_elem_of_nil|done]|].
  pose proof (split_on_nonempty c s); destruct (split_on c s) as [|p rest]; [done|].
  inversion_clear IH. constructor; [|done]. apply not_elem_of_cons. split; [congruence|done].
Qed.

Lemma split_on_free c part : c ∉ part -> split_on c part = [part].
Proof.
  induction part as [|b part IH]; [done|]. simpl. intros [H1 H2]%not_elem_of_cons.
  rewrite bool_decide_false, IH by congruence. done.
Qed.

Lemma split_on_app c part tail :
  c ∉ part -> split_on c (part ++ c :: tail) = part :: split_on c tail.
Proof.
  induction part as [|b part IH]; simpl; intros H; [by rewrite bool_decide_true|].
  apply not_elem_of_cons in H as [H1 H2]. rewrite bool_decide_false, IH by congruence. done.
Qed.

Lemma split_on_join c parts :
  parts <> [] -> Forall (fun part => c ∉ part) parts -> split_on c (join c parts) = parts.
Proof.
  intros Hne F. revert Hne. induction F as [|part rest Hp F IH]; [done|]. intros _.
  destruct rest as [|q rest]; [by apply split_on_free|].
  change (join c (part :: q :: rest)) with (part ++ c :: join c (q :: rest)).
  rewrite split_on_app by done. by rewrite IH.
Qed.

(** * [Ipv4Addr] *)

Record Ipv4Addr := mkIpv4Addr { octet0 : Z; octet1 : Z; octet2 : Z; octet3 : Z }.

(** [Parser::read_number(10, Some(3), false)]: the longest run of digits, at
    most three, no zero prefix, no [u8] overflow. *)
Fixpoint read_digits (acc : Z) (count : nat) (s : bytes) : option (Z * nat * bytes) :=
  match s with
  | b :: r =>
      if is_ascii_digit b then
        let acc' := acc * 10 + digit_value b in
        if (acc' >? 255) || (3 <? S count)%nat then None else read_digits acc' (S count) r
      else Some (acc, count, s)
  | [] => Some (acc, count, s)
  end.

Definition read_octet (s : bytes) : option (Z * bytes) :=
  match read_digits 0 0 s with
  | Some (value, count, rest) =>
      if (count =? 0)%nat then None
      else if (match s with x30 :: _ => true | _ => false end) && (1 <? count)%nat then None
      else Some (value, rest)
  | None => None
  end.

Definition read_dot (s : bytes) : option bytes :=
  match s with x2e :: r => Some r | _ => None end.

(** [read_ipv4_addr]: four octets separated by dots, leaving the rest. *)
Definition read_ipv4_addr (s : bytes) : option (Ipv4Addr * bytes) :=
  match read_octet s with None => None | Some (a, s) =>
  match read_dot s with None => None | Some s =>
  match read_octet s with None => None | Some (b, s) =>
  match read_dot s with None => None | Some s =>
  match read_octet s with None => None | Some (c, s) =>
  match read_dot s with None => None | Some s =>
  match read_octet s with None => None | Some (d, s) => Some (mkIpv4Addr a b c d, s)
  end end end end end end end.

(** [str::parse::<Ipv4Addr>()] *)
Definition parse_ipv4 (s : bytes) : option Ipv4Addr :=
  if len s >? 15 then None
  else match read_ipv4_addr s with
       | Some (a, rest) => if is_empty rest then Some a else None
       | None => None
       end.

(** [Display] *)
Definition ipv4_to_string (a : Ipv4Addr) : bytes :=
  to_string (octet0 a) ++ [x2e] ++ to_string (octet1 a) ++ [x2e]
  ++ to_string (octet2 a) ++ [x2e] ++ to_string (octet3 a).

(** [u32::from] *)
Definition ipv4_value (a : Ipv4Addr) : Z :=
  octet0 a * 2 ^ 24 + octet1 a * 2 ^ 16 + octet2 a * 2 ^ 8 + octet3 a.

Definition is_unspecified (a : Ipv4Addr) : bool := ipv4_value a =? 0.
Definition is_multicast (a : Ipv4Addr) : bool := (224 <=? octet0 a) && (octet0 a <=? 239).

(** * [IpAddr] *)

Definition hex_value (b : byte) : option Z :=
  if is_ascii_digit b then Some (byte_val b - 48)
  else if (97 <=? byte_val b) && (byte_val b <=? 102) then Some (byte_val b - 87)
  else if (65 <=? byte_val b) && (byte_val b <=? 70) then Some (byte_val b - 55)
  else None.

(** [read_number(16, Some(4), true)] into a [u16]. *)
Fixpoint read_hex (acc : Z) (count : nat) (s : bytes) : option (Z * nat * bytes) :=
  match s with
  | b :: r =>
      match hex_value b with
      | Some d => if (4 <? S count)%nat then None else read_hex (acc * 16 + d) (S count) r
      | None => Some (acc, count, s)
      end
  | [] => Some (acc, count, s)
  end.

Definition read_group (s : bytes) : option (Z * bytes) :=
  match read_hex 0 0 s with
  | Some (value, count, rest) => if (count =? 0)%nat then None else Some (value, rest)
  | None => None
  end.

(** [read_separator(':', index, inner)] *)
Definition read_separator {A} (index : nat) (inner : bytes -> option (A * bytes)) (s : bytes)
    : option (A * bytes) :=
  match index with
  | O => inner s
  | S _ => match s with x3a :: r => inner r | _ => None end
  end.

(** The closure [read_groups]: the groups read, whether they end in an
    embedded IPv4 address, and the rest.  [left] is the number of slots left. *)
Fixpoint read_groups (left index : nat) (groups : list Z) (s : bytes) : list Z * bool * bytes :=
  match left with
  | O => (groups, false, s)
  | S left' =>
      let embedded :=
        match left' with
        | O => None
        | S _ => read_separator index read_ipv4_addr s
        end in
      match embedded with
      | Some (a, rest) =>
          (groups ++ [octet0 a * 256 + octet1 a; octet2 a * 256 + octet3 a], true, rest)
      | None =>
          match read_separator index read_group s with
          | Some (g, rest) => read_groups left' (S index) (groups ++ [g]) rest
          | None => (groups, false, s)
          end
      end
  end.

Definition read_ipv6_addr (s : bytes) : option (list Z * bytes) :=
  let '(head, head_ipv4, s) := read_groups 8 0 [] s in
  if (length head =? 8)%nat then Some (head, s)
  else if (head_ipv4 : bool) then None
  else
    match s with
    | x3a :: x3a :: s =>
        let limit := (8 - (length head + 1))%nat in
        let '(tail, _, s) := read_groups limit 0 [] s in
        Some (head ++ repeat 0 (8 - length head - length tail) ++ tail, s)
    | _ => None
    end.

Inductive IpAddr := V4 (a : Ipv4Addr) | V6 (segments : list Z).

(** [str::parse::<IpAddr>()] *)
Definition parse_ip (s : bytes) : option IpAddr :=
  match (match read_ipv4_addr s with
         | Some (a, rest) => Some (V4 a, rest)
         | None =>
             match read_ipv6_addr s with Some (g, rest) => Some (V6 g, rest) | None => None end
         end) with
  | Some (a, rest) => if is_empty rest then Some a else None
  | None => None
  end.

(** [{:x}] of a [u16]: four digits suffice. *)
Definition hex_digit (d : Z) : byte := byte_of (if d <? 10 then 48 + d else 87 + d).

Fixpoint hex_string (fuel : nat) (z : Z) : bytes :=
  match fuel with
  | O => []
  | S fuel' =>
      if z <? 16 then [hex_digit z] else hex_string fuel' (z / 16) ++ [hex_digit (z mod 16)]
  end.

Definition fmt_segments (l : list Z) : bytes := join x3a (hex_string 4 <$> l).

(** The first longest run of zero segments: its start and length. *)
Fixpoint longest_zeroes (i : nat) (l : list Z) (start length_ : nat) (best : nat * nat) : nat * nat :=
  match l with
  | [] => best
  | x :: r =>
      if x =? 0 then
        let current := if (length_ =? 0)%nat then (i, 1%nat) else (start, S length_) in
        longest_zeroes (S i) r (fst current) (snd current)
          (if (snd best <? snd current)%nat then current else best)
      else longest_zeroes (S i) r 0 0 best
  end.

(** [Display] of [Ipv6Addr] *)
Definition ipv6_to_string (s : list Z) : bytes :=
  match s with
  | [0; 0; 0; 0; 0; 65535; ab; cd] =>
      str "::ffff:" ++ ipv4_to_string (mkIpv4Addr (ab / 256) (ab mod 256) (cd / 256) (cd mod 256))
  | _ =>
      let '(start, n) := longest_zeroes 0 s 0 0 (0%nat, 0%nat) in
      if (1 <? n)%nat
      then fmt_segments (take start s) ++ str "::" ++ fmt_segments (drop (start + n) s)
      else fmt_segments s
  end.

Definition ip_to_string (a : IpAddr) : bytes :=
  match a with V4 a => ipv4_to_string a | V6 s => ipv6_to_string s end.

Example ip_samples :
  (fun s => option_map ip_to_string (parse_ip (str s))) <$>
    ["2001:db8::1"; "::"; "::1"; "2001:0DB8:0:0:1:0:0:1"; "::ffff:10.0.0.1"; "10.0.0.1";
     "1::2::3"; "1:2:3:4:5:6:7:8"; "1:2:3:4:5:6:1.2.3.4"; "010.0.0.1"; "12345::"]%string
  = [Some (str "2001:db8::1"); Some (str "::"); Some (str "::1"); Some (str "2001:db8::1:0:0:1");
     Some (str "::ffff:10.0.0.1"); Some (str "10.0.0.1"); None; Some (str "1:2:3:4:5:6:7:8");
     Some (str "1:2:3:4:5:6:102:304"); None; None].
Proof. by vm_compute. Qed.
