(* ===== verification/Contracts.v ===== *)
(** The wire data of [rust/crates/contracts]: the Protobuf messages of
    [ocserv.platform.agent.v1] that the node side verifies, signs or executes,
    with their enumerations, and the session capability policy of
    [session.rs].  A message is a record of its decoded fields; [i32]
    enumeration fields stay integers and are converted with [try_from], as the
    generated Rust does. *)

From stdpp Require Import base list numbers countable strings.
From Stdlib Require Import ZArith Lia Bool.
From S2P Require Import Prelude Bytes.

Local Open Scope Z_scope.

(** * Timestamps ([prost_types::Timestamp]) *)

Record Timestamp := mkTimestamp { ts_seconds : Z; ts_nanos : Z }.

#[export] Instance Timestamp_eq_dec : EqDecision Timestamp.
Proof. solve_decision. Defined.

Definition wf_timestamp (t : Timestamp) : Prop :=
  in_i64 (ts_seconds t) /\ in_i32 (ts_nanos t).

(** * Enumerations *)

Inductive SemanticPayloadHashVersion := HashUnspecified | HashV1 | HashV2.
Inductive CommandDeliveryMode :=
| DeliveryUnspecified | ExecuteOrReplay | ReconcileOnly | RetryIfEffectAbsent.
Inductive CommandAuthorizationVersion := AuthUnspecified | AuthV1.
Inductive SessionGrantVersion := SessionGrantUnspecified | SessionGrantVersionV1.
Inductive ArtifactGrantVersion := ArtifactGrantUnspecified | ArtifactGrantVersionV1.
Inductive FenceSignatureVersion := FenceSignatureUnspecified | Ed25519V1.
Inductive FenceOperationKind :=
| OperationUnspecified | OperationCommand | OperationArtifact | OperationConnectionClose
| OperationStateUpdate.
Inductive SealedSecretVersion := SecretUnspecified | SecretV1.
Inductive SealedSecretPurpose := PurposeUnspecified | UserPassword | CertificateP12Password.

#[export] Instance SemanticPayloadHashVersion_eq_dec : EqDecision SemanticPayloadHashVersion.
Proof. solve_decision. Defined.
#[export] Instance CommandDeliveryMode_eq_dec : EqDecision CommandDeliveryMode.
Proof. solve_decision. Defined.
#[export] Instance CommandAuthorizationVersion_eq_dec : EqDecision CommandAuthorizationVersion.
Proof. solve_decision. Defined.
#[export] Instance SessionGrantVersion_eq_dec : EqDecision SessionGrantVersion.
Proof. solve_decision. Defined.
#[export] Instance ArtifactGrantVersion_eq_dec : EqDecision ArtifactGrantVersion.
Proof. solve_decision. Defined.
#[export] Instance FenceSignatureVersion_eq_dec : EqDecision FenceSignatureVersion.
Proof. solve_decision. Defined.
#[export] Instance FenceOperationKind_eq_dec : EqDecision FenceOperationKind.
Proof. solve_decision. Defined.
#[export] Instance SealedSecretVersion_eq_dec : EqDecision SealedSecretVersion.
Proof. solve_decision. Defined.
#[export] Instance SealedSecretPurpose_eq_dec : EqDecision SealedSecretPurpose.
Proof. solve_decision. Defined.

Definition SemanticPayloadHashVersion_try_from (v : Z) : option SemanticPayloadHashVersion :=
  match v with
  | 0 => Some HashUnspecified | 1 => Some HashV1 | 2 => Some HashV2 | _ => None
  end.
Definition CommandDeliveryMode_try_from (v : Z) : option CommandDeliveryMode :=
  match v with
  | 0 => Some DeliveryUnspecified | 1 => Some ExecuteOrReplay
  | 2 => Some ReconcileOnly | 3 => Some RetryIfEffectAbsent | _ => None
  end.
Definition CommandAuthorizationVersion_try_from (v : Z) : option CommandAuthorizationVersion :=
  match v with 0 => Some AuthUnspecified | 1 => Some AuthV1 | _ => None end.
Definition SessionGrantVersion_try_from (v : Z) : option SessionGrantVersion :=
  match v with
  | 0 => Some SessionGrantUnspecified | 1 => Some SessionGrantVersionV1 | _ => None
  end.
Definition ArtifactGrantVersion_try_from (v : Z) : option ArtifactGrantVersion :=
  match v with
  | 0 => Some ArtifactGrantUnspecified | 1 => Some ArtifactGrantVersionV1 | _ => None
  end.
Definition FenceSignatureVersion_try_from (v : Z) : option FenceSignatureVersion :=
  match v with 0 => Some FenceSignatureUnspecified | 1 => Some Ed25519V1 | _ => None end.
Definition FenceOperationKind_try_from (v : Z) : option FenceOperationKind :=
  match v with
  | 0 => Some OperationUnspecified | 1 => Some OperationCommand | 2 => Some OperationArtifact
  | 3 => Some OperationConnectionClose | 4 => Some OperationStateUpdate | _ => None
  end.
Definition SealedSecretVersion_try_from (v : Z) : option SealedSecretVersion :=
  match v with 0 => Some SecretUnspecified | 1 => Some SecretV1 | _ => None end.
Definition SealedSecretPurpose_try_from (v : Z) : option SealedSecretPurpose :=
  match v with
  | 0 => Some PurposeUnspecified | 1 => Some UserPassword
  | 2 => Some CertificateP12Password | _ => None
  end.

(** [i32::from] of the enumerations. *)
Definition SemanticPayloadHashVersion_value (v : SemanticPayloadHashVersion) : Z :=
  match v with HashUnspecified => 0 | HashV1 => 1 | HashV2 => 2 end.
Definition FenceOperationKind_value (k : FenceOperationKind) : Z :=
  match k with
  | OperationUnspecified => 0 | OperationCommand => 1 | OperationArtifact => 2
  | OperationConnectionClose => 3 | OperationStateUpdate => 4
  end.

Definition CommandDeliveryMode_value (v : CommandDeliveryMode) : Z :=
  match v with
  | DeliveryUnspecified => 0 | ExecuteOrReplay => 1 | ReconcileOnly => 2
  | RetryIfEffectAbsent => 3
  end.

(** [.try_from(v).unwrap_or(default)] *)
Definition unwrap_or {A} (o : option A) (d : A) : A :=
  match o with Some a => a | None => d end.

(** * Messages *)

Record SealedSecretV1 := mkSealedSecretV1 {
  ss_version : Z; ss_purpose : Z; ss_key_id : bytes; ss_ciphertext : bytes }.

Record SessionGrantV1 := mkSessionGrantV1 {
  sg_version : Z; sg_key_id : bytes; sg_protocol_major : Z; sg_protocol_minor : Z;
  sg_node_id : bytes; sg_endpoint_id : bytes; sg_authorization_revision : Z;
  sg_negotiated_capabilities : list bytes; sg_issued_at : option Timestamp;
  sg_expires_at : option Timestamp; sg_signature : bytes }.

Record ConnectionFenceV2 := mkConnectionFenceV2 {
  cf_signature_version : Z; cf_key_id : bytes; cf_fence_id : bytes; cf_node_id : bytes;
  cf_endpoint_id : bytes; cf_owner_instance_id : bytes; cf_owner_incarnation : Z;
  cf_owner_epoch : Z; cf_connection_id : bytes; cf_authorization_revision : Z;
  cf_capabilities : list bytes; cf_lease_until : option Timestamp;
  cf_issued_at : option Timestamp; cf_expires_at : option Timestamp; cf_signature : bytes }.

Record FenceBindingV2 := mkFenceBindingV2 {
  fb_signature_version : Z; fb_key_id : bytes; fb_operation_kind : Z; fb_operation_id : bytes;
  fb_fence_id : bytes; fb_node_id : bytes; fb_endpoint_id : bytes;
  fb_owner_instance_id : bytes; fb_owner_incarnation : Z; fb_owner_epoch : Z;
  fb_connection_id : bytes; fb_authorization_revision : Z; fb_capability : bytes;
  fb_issued_at : option Timestamp; fb_expires_at : option Timestamp; fb_signature : bytes }.

Record ArtifactGrantV1 := mkArtifactGrantV1 {
  ag_version : Z; ag_key_id : bytes; ag_node_id : bytes; ag_artifact_id : bytes;
  ag_certificate_id : bytes; ag_certificate_version : Z; ag_operation_id : bytes;
  ag_authorized_subject : bytes; ag_purpose : bytes; ag_max_bytes : Z;
  ag_issued_at : option Timestamp; ag_expires_at : option Timestamp; ag_grant_id : bytes;
  ag_signature : bytes }.

Record CommandAuthorizationProof := mkCommandAuthorizationProof {
  cap_version : Z; cap_key_id : bytes; cap_signature : bytes }.

(** Session mutations share one shape ([SessionDisconnect], [SessionTerminate]),
    as do the secret-carrying ([UserCreate], [UserPasswordRotate]) and the
    plain ([UserDisable], [UserEnable]) user mutations. *)
Record SessionMutation := mkSessionMutation { sm_session_id : bytes; sm_boot_id : bytes }.
Record UserSecret := mkUserSecret {
  us_username : bytes; us_sealed_password : bytes; us_secret_key_id : bytes;
  us_desired_revision : Z; us_sealed_password_v1 : option SealedSecretV1 }.
Record UserToggle := mkUserToggle { ut_username : bytes; ut_desired_revision : Z }.
Record GroupApply := mkGroupApply {
  ga_group_name : bytes; ga_members : list bytes; ga_desired_revision : Z }.
Record ConfigPlan := mkConfigPlan {
  cp_candidate : bytes; cp_candidate_hash : bytes; cp_expected_revision : Z }.
Record ConfigApply := mkConfigApply {
  ca_candidate_hash : bytes; ca_candidate : bytes; ca_expected_current_hash : bytes;
  ca_desired_revision : Z }.

Record NodeLocalTlsReference := mkNodeLocalTlsReference {
  tls_secret_ref_id : bytes; tls_version : bytes; tls_certificate_sha256 : bytes;
  tls_spki_sha256 : bytes; tls_ca_sha256 : bytes }.

#[export] Instance NodeLocalTlsReference_eq_dec : EqDecision NodeLocalTlsReference.
Proof. solve_decision. Defined.

Inductive DirectiveValue :=
| Literal (value : bytes)
| Tls (reference : NodeLocalTlsReference).

Record CompleteConfigDirective := mkCompleteConfigDirective {
  ccd_name : bytes; ccd_value : option DirectiveValue }.
Record CompleteConfigCandidate := mkCompleteConfigCandidate {
  ccc_node_id : bytes; ccc_expected_revision : Z;
  ccc_directives : list CompleteConfigDirective }.
Record CompleteConfigPlan := mkCompleteConfigPlan {
  ccp_candidate : option CompleteConfigCandidate; ccp_candidate_hash : bytes }.
Record CompleteConfigApply := mkCompleteConfigApply {
  cca_candidate : option CompleteConfigCandidate; cca_candidate_hash : bytes;
  cca_expected_current_hash : bytes; cca_materialized_hash : bytes;
  cca_desired_revision : Z; cca_plan_id : bytes; cca_plan_expires_at : option Timestamp }.

Record CertificateCsr := mkCertificateCsr {
  csr_certificate_id : bytes; csr_common_name : bytes; csr_dns_names : list bytes;
  csr_key_bits : Z }.
Record CertificateP12 := mkCertificateP12 {
  p12_certificate_id : bytes; p12_certificate_chain_pem : bytes; p12_sealed_password : bytes;
  p12_secret_key_id : bytes; p12_artifact_id : bytes;
  p12_sealed_password_v1 : option SealedSecretV1; p12_certificate_version : Z;
  p12_artifact_expires_at : option Timestamp }.
Record CertificateRevoke := mkCertificateRevoke {
  rev_certificate_id : bytes; rev_reason : bytes; rev_certificate_version : Z }.
Record AgentUpgrade := mkAgentUpgrade {
  au_target_version : bytes; au_package_sha256 : bytes; au_architecture : bytes }.
Record SimulationProbe := mkSimulationProbe {
  probe_heartbeat_count : Z; probe_delay_millis : Z; probe_duplicate_event : bool;
  probe_return_error : bool; probe_disconnect_after : bool }.

(** [command_envelope::Payload] *)
Inductive Payload :=
| PSessionDisconnect (p : SessionMutation)
| PUserCreate (p : UserSecret)
| PUserDisable (p : UserToggle)
| PConfigPlan (p : ConfigPlan)
| PConfigApply (p : ConfigApply)
| PServiceReload
| PSimulationProbe (p : SimulationProbe)
| PSyntheticNoop
| PSyntheticEcho (message : bytes)
| PSessionTerminate (p : SessionMutation)
| PIpBanRemove (ip : bytes)
| PUserPasswordRotate (p : UserSecret)
| PGroupApply (p : GroupApply)
| PUserEnable (p : UserToggle)
| PCertificateCsr (p : CertificateCsr)
| PCertificateP12 (p : CertificateP12)
| PCertificateRevoke (p : CertificateRevoke)
| PAgentUpgrade (p : AgentUpgrade)
| PCompleteConfigPlan (p : CompleteConfigPlan)
| PCompleteConfigApply (p : CompleteConfigApply).

Record CommandEnvelope := mkCommandEnvelope {
  env_protocol_version : bytes; env_message_id : bytes; env_command_id : bytes;
  env_idempotency_key : bytes; env_node_id : bytes; env_sequence : Z;
  env_issued_at : option Timestamp; env_expires_at : option Timestamp;
  env_expected_revision : Z; env_traceparent : bytes; env_actor_id : bytes;
  env_reason : bytes; env_delivery_mode : Z; env_semantic_payload_hash_version : Z;
  env_semantic_payload_sha256 : bytes; env_operation_id : bytes; env_action : bytes;
  env_required_capability : bytes; env_approval_id : bytes;
  env_approval_request_sha256 : bytes;
  env_authorization : option CommandAuthorizationProof;
  env_connection_fence : option ConnectionFenceV2; env_fence_binding : option FenceBindingV2;
  env_payload : option Payload }.

(** * Session capability policy ([session.rs]) *)

Definition READ_ONLY_SESSION_CAPABILITIES : list bytes :=
  [str "ocserv.config_fingerprint.read"; str "ocserv.ip_bans.read";
   str "ocserv.sessions.read"; str "ocserv.status.read"; str "ocserv.version.read"].

(** [slice::binary_search] on a sorted slice, as a halving search between two
    bounds; the fuel bounds the number of halvings. *)
Fixpoint binary_search_between (fuel : nat) (l : list bytes) (lo hi : nat) (x : bytes) : bool :=
  match fuel with
  | O => false
  | S fuel' =>
      if (hi <=? lo)%nat then false
      else
        let mid := (lo + (hi - lo) / 2)%nat in
        match l !! mid with
        | None => false
        | Some y =>
            match bytes_compare y x with
            | Eq => true
            | Lt => binary_search_between fuel' l (S mid) hi x
            | Gt => binary_search_between fuel' l lo mid x
            end
        end
  end.

Definition is_read_only_session_capability (capability : bytes) : bool :=
  binary_search_between (S (length READ_ONLY_SESSION_CAPABILITIES))
    READ_ONLY_SESSION_CAPABILITIES 0 (length READ_ONLY_SESSION_CAPABILITIES) capability.

(** The halving search finds exactly the members of a strictly sorted slice. *)
Definition strictly_sorted (l : list bytes) : Prop :=
  forall i j x y, (i < j)%nat -> l !! i = Some x -> l !! j = Some y -> bytes_lt x y.

Lemma binary_search_between_spec l x fuel lo hi :
  strictly_sorted l -> (hi <= length l)%nat -> (hi - lo < fuel)%nat ->
  binary_search_between fuel l lo hi x = true <->
  exists i, (lo <= i < hi)%nat /\ l !! i = Some x.
Proof.
  intros Hsorted; revert lo hi. induction fuel as [|fuel IH]; intros lo hi Hhi Hfuel; [lia|].
  cbn [binary_search_between]. cbv zeta. destruct (Nat.leb_spec hi lo); [split; [done|intros (i & ? & _); lia]|].
  assert ((hi - lo) / 2 < hi - lo)%nat by (apply Nat.div_lt; lia).
  set (mid := (lo + (hi - lo) / 2)%nat) in *.
  destruct (lookup_lt_is_Some_2 l mid) as [y Hy]; [lia|]. rewrite Hy.
  destruct (bytes_compare y x) eqn:C.
  - apply bytes_compare_eq in C as ->. split; [|done]. intros _. exists mid. split; [lia|done].
  - rewrite IH by lia. split; intros (i & Hi & Hx); exists i; split; try done; [lia|].
    destruct (decide (i <= mid)%nat) as [Hle|]; [|lia]. exfalso.
    destruct (decide (i = mid)) as [->|].
    + rewrite Hy in Hx. injection Hx as ->. by apply (irreflexivity bytes_lt x).
    + apply (irreflexivity bytes_lt x). transitivity y; [eapply (Hsorted i mid); eauto; lia|done].
  - rewrite IH by lia. split; intros (i & Hi & Hx); exists i; split; try done; [lia|].
    assert (bytes_lt x y) as Hlt
      by (unfold bytes_lt; rewrite bytes_compare_antisym, C; done).
    destruct (decide (mid <= i)%nat) as [Hle|]; [|lia]. exfalso.
    destruct (decide (i = mid)) as [->|].
    + rewrite Hy in Hx. injection Hx as ->. by apply (irreflexivity bytes_lt x).
    + apply (irreflexivity bytes_lt x). transitivity y; [done|eapply (Hsorted mid i); eauto; lia].
Qed.

Lemma read_only_capabilities_sorted : strictly_sorted READ_ONLY_SESSION_CAPABILITIES.
Proof.
  intros i j x y Hij Hi Hj.
  repeat (destruct i as [|i]; [|]; simpl in Hi; try discriminate Hi);
  repeat (destruct j as [|j]; [|]; simpl in Hj; try discriminate Hj); try lia;
  injection Hi as <-; injection Hj as <-; vm_compute; reflexivity.
Qed.
