(* ===== verification/ConfigProfile.v ===== *)
(** The finite complete-config profile of
    [rust/crates/contracts/src/config_profile.rs]: the directive grammar and
    the canonical transcript whose digest identifies a candidate, and the
    release identity grammar of [agent_upgrade.rs]. *)

From stdpp Require Import base list numbers countable strings.
From Stdlib Require Import ZArith Lia Bool Strings.Byte.
From S2P Require Import Prelude Bytes Text Contracts.

Local Open Scope Z_scope.

Definition PLAN_CAPABILITY : bytes := str "ocserv.config.complete.plan".
Definition APPLY_CAPABILITY : bytes := str "ocserv.config.complete.apply".

Definition REQUIRED : list bytes :=
  [str "auth"; str "cookie-timeout"; str "device"; str "dns"; str "ipv4-network";
   str "max-clients"; str "max-same-clients"; str "server-cert"; str "server-key";
   str "socket-file"; str "tcp-port"; str "udp-port"].

Inductive InvalidProfile := invalidProfile.

(** * Directive values *)

Definition label_byte (b : byte) : bool :=
  is_ascii_alphanumeric b || bool_decide (b = x2e) || bool_decide (b = x5f)
  || bool_decide (b = x2d).

Definition label (value : bytes) (max : Z) : bool :=
  negb (is_empty value) && (len value <=? max) && negb (contains_twice x2e value)
  && all_bytes_first is_ascii_alphanumeric label_byte value.

Definition network (value : bytes) : bool :=
  match split_once x2f value with
  | None => false
  | Some (address, bits) =>
      match parse_ipv4 address with
      | None => false
      | Some address =>
          match parse_u32 bits with
          | None => false
          | Some bits =>
              (1 <=? bits) && (bits <=? 30)
              && bool_decide (ipv4_to_string address ++ [x2f] ++ to_string bits = value)
              && (Z.land (ipv4_value address) (Z.shiftl 1 (32 - bits) - 1) =? 0)
          end
      end
  end.

Definition is_count_directive (name : bytes) : bool :=
  bool_decide (name = str "tcp-port") || bool_decide (name = str "udp-port")
  || bool_decide (name = str "max-clients") || bool_decide (name = str "max-same-clients")
  || bool_decide (name = str "cookie-timeout").

Definition literal (name value : bytes) : bool :=
  if bool_decide (name = str "auth") then
    bool_decide (value = str "plain[passwd=/etc/ocserv/ocpasswd]")
  else if bool_decide (name = str "socket-file") then
    bool_decide (value = str "/run/ocserv.socket")
  else if bool_decide (name = str "device") then label value 15 && negb (contains x2e value)
  else if bool_decide (name = str "ipv4-network") then network value
  else if bool_decide (name = str "route") then
    bool_decide (value = str "default") || network value
  else if bool_decide (name = str "dns") then
    match parse_ipv4 value with
    | Some ip =>
        bool_decide (ipv4_to_string ip = value) && negb (is_unspecified ip)
        && negb (is_multicast ip)
    | None => false
    end
  else if is_count_directive name then
    match parse_u32 value with
    | None => false
    | Some number =>
        if bool_decide (to_string number <> value) then false
        else if bool_decide (name = str "cookie-timeout")
        then (60 <=? number) && (number <=? 86400)
        else (number <=? 65535) && ((0 <? number) || bool_decide (name = str "udp-port"))
    end
  else false.

(** * The canonical transcript *)

Definition append_length (out value : bytes) : result InvalidProfile bytes :=
  let? length := ok_or (u32_try_from (len value)) invalidProfile in
  Ok (out ++ be 4 length ++ value).

(** The loop's mutable variables. *)
Record Walk := mkWalk {
  walk_out : bytes; walk_previous : bytes; walk_server_ref : option NodeLocalTlsReference;
  walk_max_clients : Z; walk_max_same : Z }.

Definition tls_directive (name : bytes) : bool :=
  bool_decide (name = str "server-cert") || bool_decide (name = str "server-key")
  || bool_decide (name = str "ca-cert").

Definition all_zero (b : bytes) : bool := forallb (fun x => bool_decide (x = x00)) b.

Definition step_directive (w : Walk) (directive : CompleteConfigDirective)
    : result InvalidProfile Walk :=
  let name := ccd_name directive in
  if bytes_leb name (walk_previous w) then Err invalidProfile
  else
  let? out := append_length (walk_out w) name in
  let? value := ok_or (ccd_value directive) invalidProfile in
  match value with
  | Literal value =>
      if negb (literal name value) then Err invalidProfile
      else
      let out := out ++ [x00] in
      let? out := append_length out value in
      let? max_clients :=
        (if bool_decide (name = str "max-clients")
         then ok_or (parse_u32 value) invalidProfile else Ok (walk_max_clients w)) in
      let? max_same :=
        (if bool_decide (name = str "max-same-clients")
         then ok_or (parse_u32 value) invalidProfile else Ok (walk_max_same w)) in
      Ok (mkWalk out name (walk_server_ref w) max_clients max_same)
  | Tls reference =>
      if negb (tls_directive name)
         || negb (len (tls_secret_ref_id reference) =? 16)
         || all_zero (tls_secret_ref_id reference)
         || negb (label (tls_version reference) 64)
         || negb (len (tls_certificate_sha256 reference) =? 32)
         || negb (len (tls_spki_sha256 reference) =? 32)
         || negb ((len (tls_ca_sha256 reference) =? 0) || (len (tls_ca_sha256 reference) =? 32))
         || (bool_decide (name = str "ca-cert") && negb (len (tls_ca_sha256 reference) =? 32))
         || match walk_server_ref w with
            | Some current => bool_decide (current <> reference)
            | None => false
            end
      then Err invalidProfile
      else
      let out := out ++ [x01] ++ tls_secret_ref_id reference in
      let? out := append_length out (tls_version reference) in
      let out := out ++ tls_certificate_sha256 reference ++ tls_spki_sha256 reference in
      let? out := append_length out (tls_ca_sha256 reference) in
      Ok (mkWalk out name (Some reference) (walk_max_clients w) (walk_max_same w))
  end.

Fixpoint walk_directives (w : Walk) (directives : list CompleteConfigDirective)
    : result InvalidProfile Walk :=
  match directives with
  | [] => Ok w
  | directive :: rest => let? w := step_directive w directive in walk_directives w rest
  end.

Definition CONFIG_DOMAIN : bytes := str "ocservia.complete-config.v1" ++ [x00].

Definition canonical (candidate : CompleteConfigCandidate) : result InvalidProfile bytes :=
  let count := len (ccc_directives candidate) in
  if negb (len (ccc_node_id candidate) =? 16)
     || all_zero (ccc_node_id candidate)
     || (ccc_expected_revision candidate >? i64_max)
     || negb ((len REQUIRED <=? count) && (count <=? len REQUIRED + 2))
  then Err invalidProfile
  else
  let out := CONFIG_DOMAIN ++ ccc_node_id candidate ++ be 8 (ccc_expected_revision candidate) in
  let? count := ok_or (u32_try_from count) invalidProfile in
  let out := out ++ be 4 count in
  let? w := walk_directives (mkWalk out [] None 0 0) (ccc_directives candidate) in
  if (walk_max_same w >? walk_max_clients w)
     || existsb (fun name =>
          negb (existsb (fun d => bool_decide (ccd_name d = name)) (ccc_directives candidate)))
          REQUIRED
  then Err invalidProfile
  else Ok (walk_out w).

(** * Release identities ([agent_upgrade.rs]) *)

Definition AGENT_UPGRADE_CAPABILITY : bytes := str "ocserv.agent.upgrade.v2".
Definition AGENT_UPGRADE_CAPABILITIES : list bytes :=
  [AGENT_UPGRADE_CAPABILITY; str "ocserv.agent.upgrade.v1"].
Definition AGENT_UPGRADE_ARCHITECTURES : list bytes := [str "amd64"; str "arm64"].
Definition MAX_TARGET_VERSION_BYTES : Z := 128.

Definition supported_capability (value : bytes) : option bytes :=
  List.find (fun capability => bool_decide (capability = value)) AGENT_UPGRADE_CAPABILITIES.

Definition valid_architecture (architecture : bytes) : bool :=
  existsb (fun a => bool_decide (a = architecture)) AGENT_UPGRADE_ARCHITECTURES.

Definition starts_with_zero (value : bytes) : bool :=
  match value with x30 :: _ => true | _ => false end.

Definition valid_number (value : bytes) : bool :=
  negb (is_empty value || ((len value >? 1) && starts_with_zero value)
        || negb (forallb is_ascii_digit value)).

Definition valid_identifier (prerelease : bool) (identifier : bytes) : bool :=
  if is_empty identifier then false
  else if forallb is_ascii_digit identifier then negb prerelease || valid_number identifier
  else forallb (fun b => is_ascii_alphanumeric b || bool_decide (b = x2d)) identifier.

Definition valid_identifier_list (value : bytes) (prerelease : bool) : bool :=
  if is_empty value then false else forallb (valid_identifier prerelease) (split_on x2e value).

Definition valid_target_version (version : bytes) : bool :=
  if (len version <? 5) || (len version >? MAX_TARGET_VERSION_BYTES) then false
  else
  let '(core, build_ok) :=
    match split_once x2b version with
    | Some (core, build) => (core, valid_identifier_list build false)
    | None => (version, true)
    end in
  if negb build_ok then false
  else
  let '(core, prerelease_ok) :=
    match split_once x2d core with
    | Some (core, prerelease) => (core, valid_identifier_list prerelease true)
    | None => (core, true)
    end in
  if negb prerelease_ok then false
  else
  match split_on x2e core with
  | [major; minor; patch] => valid_number major && valid_number minor && valid_number patch
  | _ => false
  end.
