(* ===== verification/Authorization.v ===== *)
(** The Controller-signed authority of [rust/crates/command-authorization]:
    the independent claims of commands, session grants, artifact grants,
    connection fences and fence bindings, their canonical signed bytes, and
    the pinned keyring's constants and error codes.  Ed25519, SHA-256 and the
    hex encoding are third-party code and appear as the operations of the
    class [Crypto]. *)

From stdpp Require Import base list gmap numbers countable strings.
From Stdlib Require Import ZArith Lia Bool Strings.Byte.
From S2P Require Import Prelude Bytes Contracts.

Local Open Scope Z_scope.

(** * Third-party cryptography *)

(** [ed25519_dalek], [sha2] and [hex]: a signature is parsed from a slice and
    checked against a message under a key; a digest has 32 bytes; the hex
    encoding is injective. *)
Class Crypto := {
  VerifyingKey : Type;
  Signature : Type;
  key_as_bytes : VerifyingKey -> bytes;
  signature_from_slice : bytes -> option Signature;
  verify_strict : VerifyingKey -> bytes -> Signature -> bool;
  sha256 : bytes -> bytes;
  hex_encode : bytes -> bytes;
  sha256_length b : length (sha256 b) = 32%nat;
  hex_encode_inj b1 b2 : hex_encode b1 = hex_encode b2 -> b1 = b2 }.

(** * Constants *)

Definition COMMAND_PROTOCOL_VERSION : bytes := str "1.2".
Definition LEGACY_COMMAND_PROTOCOL_VERSION : bytes := str "1.1".
Definition DOMAIN_SEPARATOR : bytes := str "ocservia/controller-command/v1" ++ [x00].
Definition SESSION_GRANT_DOMAIN_SEPARATOR : bytes :=
  str "ocservia/controller-session-grant/v1" ++ [x00].
Definition ARTIFACT_GRANT_DOMAIN_SEPARATOR : bytes := str "ocservia/artifact-grant/v1" ++ [x00].
Definition CONNECTION_FENCE_V2_DOMAIN_SEPARATOR : bytes :=
  str "ocservia/connection-fence/v2" ++ [x00].
Definition FENCE_BINDING_V2_DOMAIN_SEPARATOR : bytes := str "ocservia/fence-binding/v2" ++ [x00].
Definition STATE_UPDATE_OPERATION_DOMAIN : bytes :=
  str "ocservia/state-update-operation/v1" ++ [x00].
Definition KEY_ID_PREFIX : bytes := str "ed25519-sha256:".
Definition MAX_FUTURE_SKEW_SECONDS : Z := 300.
Definition FENCE_SIGNATURE_VERSION_ED25519_V1 : Z := 1.
Definition NANOS_PER_SECOND : Z := 1000000000.

(** * Claims *)

Record CommandAuthorizationV1 := mkCommandAuthorizationV1 {
  cl_authorization_version : Z; cl_key_id : bytes; cl_protocol_version : bytes;
  cl_command_id : bytes; cl_idempotency_key : bytes; cl_node_id : bytes;
  cl_operation_id : bytes; cl_actor_identity : bytes; cl_action : bytes;
  cl_required_capability : bytes; cl_approval_id : option bytes;
  cl_approval_request_sha256 : option bytes; cl_expected_revision : Z;
  cl_semantic_hash_version : Z; cl_semantic_payload_sha256 : bytes; cl_payload_kind : Z;
  cl_delivery_mode : Z; cl_issued_at_seconds : Z; cl_issued_at_nanos : Z;
  cl_expires_at_seconds : Z; cl_expires_at_nanos : Z }.

Record SessionGrantClaimsV1 := mkSessionGrantClaimsV1 {
  sgc_version : Z; sgc_key_id : bytes; sgc_protocol_major : Z; sgc_protocol_minor : Z;
  sgc_node_id : bytes; sgc_endpoint_id : bytes; sgc_authorization_revision : Z;
  sgc_negotiated_capabilities : list bytes; sgc_issued_at_seconds : Z;
  sgc_issued_at_nanos : Z; sgc_expires_at_seconds : Z; sgc_expires_at_nanos : Z }.

Record ArtifactGrantClaimsV1 := mkArtifactGrantClaimsV1 {
  agc_version : Z; agc_key_id : bytes; agc_node_id : bytes; agc_artifact_id : bytes;
  agc_certificate_id : bytes; agc_certificate_version : Z; agc_operation_id : bytes;
  agc_authorized_subject : bytes; agc_purpose : bytes; agc_max_bytes : Z;
  agc_issued_at_seconds : Z; agc_issued_at_nanos : Z; agc_expires_at_seconds : Z;
  agc_expires_at_nanos : Z; agc_grant_id : bytes }.

Record VerifiedSessionGrant := mkVerifiedSessionGrant {
  vsg_authorization_revision : Z; vsg_negotiated_capabilities : list bytes;
  vsg_expires_at_seconds : Z }.

Record ConnectionFenceClaimsV2 := mkConnectionFenceClaimsV2 {
  cfc_signature_version : Z; cfc_key_id : bytes; cfc_fence_id : bytes; cfc_node_id : bytes;
  cfc_endpoint_id : bytes; cfc_owner_instance_id : bytes; cfc_owner_incarnation : Z;
  cfc_owner_epoch : Z; cfc_connection_id : bytes; cfc_authorization_revision : Z;
  cfc_capabilities : list bytes; cfc_lease_until_seconds : Z; cfc_lease_until_nanos : Z;
  cfc_issued_at_seconds : Z; cfc_issued_at_nanos : Z; cfc_expires_at_seconds : Z;
  cfc_expires_at_nanos : Z }.

Record FenceBindingClaimsV2 := mkFenceBindingClaimsV2 {
  fbc_signature_version : Z; fbc_key_id : bytes; fbc_operation_kind : Z;
  fbc_operation_id : bytes; fbc_fence_id : bytes; fbc_node_id : bytes;
  fbc_endpoint_id : bytes; fbc_owner_instance_id : bytes; fbc_owner_incarnation : Z;
  fbc_owner_epoch : Z; fbc_connection_id : bytes; fbc_authorization_revision : Z;
  fbc_capability : bytes; fbc_issued_at_seconds : Z; fbc_issued_at_nanos : Z;
  fbc_expires_at_seconds : Z; fbc_expires_at_nanos : Z }.

Record VerifiedConnectionFenceV2 := mkVerifiedConnectionFenceV2 {
  vcf_fence_id : bytes; vcf_owner_instance_id : bytes; vcf_owner_incarnation : Z;
  vcf_owner_epoch : Z; vcf_connection_id : bytes; vcf_authorization_revision : Z;
  vcf_capabilities : list bytes; vcf_lease_until_seconds : Z; vcf_lease_until_nanos : Z;
  vcf_expires_at_seconds : Z; vcf_expires_at_nanos : Z }.

(** * Errors *)

Inductive AuthorizationError :=
| Missing
| UnsupportedVersion
| UnknownKey
| SignatureMalformed
| SignatureInvalid
| ClaimsInvalid (code : bytes)
| PayloadUnsupported.

#[export] Instance AuthorizationError_eq_dec : EqDecision AuthorizationError.
Proof. solve_decision. Defined.

(** [AuthorizationError::code] *)
Definition AuthorizationError_code (e : AuthorizationError) : bytes :=
  match e with
  | Missing => str "command_authorization_missing"
  | UnsupportedVersion => str "command_authorization_version_unsupported"
  | UnknownKey => str "command_authorization_key_unknown"
  | SignatureMalformed => str "command_authorization_signature_malformed"
  | SignatureInvalid => str "command_authorization_signature_invalid"
  | ClaimsInvalid code => code
  | PayloadUnsupported => str "command_authorization_payload_unsupported"
  end.

(** [invalid_claim] *)
Definition invalid_claim (code : String.string) : AuthorizationError := ClaimsInvalid (str code).

Definition Auth (A : Type) : Type := result AuthorizationError A.

(** * Field helpers *)

(** [append_string]: [target.extend(len as u32 BE); target.extend(value)] *)
Definition append_string (target value : bytes) : Auth bytes :=
  let? length := ok_or (u32_try_from (len value))
    (invalid_claim "command_authorization_string_too_large") in
  Ok (target ++ be 4 length ++ value).

(** The loop [for value in values { append_string(target, value)? }]. *)
Fixpoint append_strings (target : bytes) (values : list bytes) : Auth bytes :=
  match values with
  | [] => Ok target
  | value :: rest => let? target := append_string target value in append_strings target rest
  end.

Definition append_optional (target : bytes) (value : option bytes) : bytes :=
  match value with
  | Some value => target ++ [x01] ++ value
  | None => target ++ [x00]
  end.

Definition fixed (n : nat) (value : bytes) (code : String.string) : Auth bytes :=
  if bool_decide (length value = n) then Ok value else Err (invalid_claim code).

Definition optional_fixed (n : nat) (value : bytes) (code : String.string) : Auth (option bytes) :=
  if is_empty value then Ok None
  else let? value := fixed n value code in Ok (Some value).

Definition timestamp_nanos (value : Z) : Auth Z :=
  let? value := ok_or (u32_try_from value) (invalid_claim "command_authorization_time_invalid") in
  if value >=? NANOS_PER_SECOND then Err (invalid_claim "command_authorization_time_invalid")
  else Ok value.

Definition signature_version_value (value : Z) : option Z :=
  match FenceSignatureVersion_try_from value with
  | Some Ed25519V1 => Some FENCE_SIGNATURE_VERSION_ED25519_V1
  | _ => None
  end.

Definition fence_operation_kind_value (value : Z) : Auth Z :=
  match FenceOperationKind_try_from value with
  | Some OperationCommand => Ok 1
  | Some OperationArtifact => Ok 2
  | Some OperationConnectionClose => Ok 3
  | Some OperationStateUpdate => Ok 4
  | _ => Err (invalid_claim "fence_binding_operation_kind_invalid")
  end.

(** * Instants *)

Definition deadline_strictly_after (until_seconds until_nanos from_seconds from_nanos : Z) : bool :=
  (until_seconds >? from_seconds)
  || ((until_seconds =? from_seconds) && (until_nanos >? from_nanos)).

Definition deadline_not_after (until_seconds until_nanos limit_seconds limit_nanos : Z) : bool :=
  (until_seconds <? limit_seconds)
  || ((until_seconds =? limit_seconds) && (until_nanos <=? limit_nanos)).

(** [(a, b) <= (c, d)] on Rust tuples is lexicographic. *)
Definition pair_leb (a b c d : Z) : bool := (a <? c) || ((a =? c) && (b <=? d)).

Definition timestamp_expired (expires_at_seconds expires_at_nanos now_seconds now_nanos : Z) : bool :=
  pair_leb expires_at_seconds expires_at_nanos now_seconds now_nanos.

Definition timestamp_exceeds_future_skew
    (issued_at_seconds issued_at_nanos now_seconds now_nanos : Z) : bool :=
  match i64_checked_add now_seconds MAX_FUTURE_SKEW_SECONDS with
  | Some limit_seconds => negb (pair_leb issued_at_seconds issued_at_nanos limit_seconds now_nanos)
  | None => false
  end.

Definition lease_expired (fence : VerifiedConnectionFenceV2) (now_seconds now_nanos : Z) : bool :=
  pair_leb (vcf_lease_until_seconds fence) (vcf_lease_until_nanos fence) now_seconds now_nanos.

(** [expires < issued || (expires == issued && expires_nanos <= issued_nanos)] *)
Definition time_order_invalid (expires expires_nanos issued issued_nanos : Z) : bool :=
  (expires <? issued) || ((expires =? issued) && (expires_nanos <=? issued_nanos)).

Definition matches_fence (binding : FenceBindingClaimsV2) (fence : VerifiedConnectionFenceV2) : bool :=
  bool_decide (fbc_fence_id binding = vcf_fence_id fence)
  && bool_decide (fbc_owner_instance_id binding = vcf_owner_instance_id fence)
  && (fbc_owner_incarnation binding =? vcf_owner_incarnation fence)
  && (fbc_owner_epoch binding =? vcf_owner_epoch fence)
  && bool_decide (fbc_connection_id binding = vcf_connection_id fence)
  && (fbc_authorization_revision binding =? vcf_authorization_revision fence).

(** * Artifact grants *)

Definition artifact_grant_claims_v1 (grant : ArtifactGrantV1) : Auth ArtifactGrantClaimsV1 :=
  let? issued_at := ok_or (ag_issued_at grant)
    (invalid_claim "artifact_grant_issued_at_missing") in
  let? expires_at := ok_or (ag_expires_at grant)
    (invalid_claim "artifact_grant_expires_at_missing") in
  let? version := ok_or (u32_try_from (ag_version grant)) UnsupportedVersion in
  let? node_id := fixed 16 (ag_node_id grant) "artifact_grant_node_invalid" in
  let? artifact_id := fixed 16 (ag_artifact_id grant) "artifact_grant_artifact_invalid" in
  let? certificate_id := fixed 16 (ag_certificate_id grant) "artifact_grant_certificate_invalid" in
  let? operation_id := fixed 16 (ag_operation_id grant) "artifact_grant_operation_invalid" in
  let? issued_at_nanos := timestamp_nanos (ts_nanos issued_at) in
  let? expires_at_nanos := timestamp_nanos (ts_nanos expires_at) in
  let? grant_id := fixed 16 (ag_grant_id grant) "artifact_grant_id_invalid" in
  Ok (mkArtifactGrantClaimsV1 version (ag_key_id grant) node_id artifact_id certificate_id
        (ag_certificate_version grant) operation_id (ag_authorized_subject grant)
        (ag_purpose grant) (ag_max_bytes grant) (ts_seconds issued_at) issued_at_nanos
        (ts_seconds expires_at) expires_at_nanos grant_id).

Definition canonical_artifact_grant_v1 (claims : ArtifactGrantClaimsV1) : Auth bytes :=
  if negb (agc_version claims =? 1)
     || is_empty (agc_key_id claims)
     || (len (agc_key_id claims) >? 128)
     || (agc_certificate_version claims =? 0)
     || is_empty (agc_authorized_subject claims)
     || (len (agc_authorized_subject claims) >? 256)
     || bool_decide (agc_purpose claims <> str "certificate_p12")
     || (agc_max_bytes claims =? 0)
     || (agc_max_bytes claims >? 64 * 1024 * 1024)
     || time_order_invalid (agc_expires_at_seconds claims) (agc_expires_at_nanos claims)
          (agc_issued_at_seconds claims) (agc_issued_at_nanos claims)
  then Err (invalid_claim "artifact_grant_claims_invalid")
  else
  let encoded := ARTIFACT_GRANT_DOMAIN_SEPARATOR ++ be 4 (agc_version claims) in
  let? encoded := append_string encoded (agc_key_id claims) in
  let encoded := encoded ++ agc_node_id claims ++ agc_artifact_id claims
    ++ agc_certificate_id claims ++ be 8 (agc_certificate_version claims)
    ++ agc_operation_id claims in
  let? encoded := append_string encoded (agc_authorized_subject claims) in
  let? encoded := append_string encoded (agc_purpose claims) in
  Ok (encoded ++ be 8 (agc_max_bytes claims)
        ++ be 8 (agc_issued_at_seconds claims) ++ be 4 (agc_issued_at_nanos claims)
        ++ be 8 (agc_expires_at_seconds claims) ++ be 4 (agc_expires_at_nanos claims)
        ++ agc_grant_id claims).

(** * Session grants *)

Definition session_grant_claims_v1 (grant : SessionGrantV1) : Auth SessionGrantClaimsV1 :=
  let? issued_at := ok_or (sg_issued_at grant)
    (invalid_claim "session_grant_issued_at_missing") in
  let? expires_at := ok_or (sg_expires_at grant)
    (invalid_claim "session_grant_expires_at_missing") in
  let? version := ok_or (u32_try_from (sg_version grant)) UnsupportedVersion in
  let? node_id := fixed 16 (sg_node_id grant) "session_grant_node_invalid" in
  let? endpoint_id := fixed 32 (sg_endpoint_id grant) "session_grant_endpoint_invalid" in
  let? issued_at_nanos := timestamp_nanos (ts_nanos issued_at) in
  let? expires_at_nanos := timestamp_nanos (ts_nanos expires_at) in
  Ok (mkSessionGrantClaimsV1 version (sg_key_id grant) (sg_protocol_major grant)
        (sg_protocol_minor grant) node_id endpoint_id (sg_authorization_revision grant)
        (sg_negotiated_capabilities grant) (ts_seconds issued_at) issued_at_nanos
        (ts_seconds expires_at) expires_at_nanos).

(** The capability loop of the session grant and the connection fence: every
    name non-empty, at most 128 bytes and strictly above the previous one. *)
Fixpoint capabilities_invalid (previous : option bytes) (capabilities : list bytes) : bool :=
  match capabilities with
  | [] => false
  | capability :: rest =>
      is_empty capability
      || (len capability >? 128)
      || match previous with Some value => bytes_leb capability value | None => false end
      || capabilities_invalid (Some capability) rest
  end.

Definition canonical_session_grant_v1 (claims : SessionGrantClaimsV1) : Auth bytes :=
  if negb (sgc_version claims =? 1)
     || is_empty (sgc_key_id claims)
     || (sgc_protocol_major claims =? 0)
     || (sgc_authorization_revision claims =? 0)
     || (len (sgc_negotiated_capabilities claims) >? 128)
     || time_order_invalid (sgc_expires_at_seconds claims) (sgc_expires_at_nanos claims)
          (sgc_issued_at_seconds claims) (sgc_issued_at_nanos claims)
  then Err (invalid_claim "session_grant_claims_invalid")
  else if capabilities_invalid None (sgc_negotiated_capabilities claims)
  then Err (invalid_claim "session_grant_capabilities_invalid")
  else
  let encoded := SESSION_GRANT_DOMAIN_SEPARATOR ++ be 4 (sgc_version claims) in
  let? encoded := append_string encoded (sgc_key_id claims) in
  let encoded := encoded ++ be 4 (sgc_protocol_major claims) ++ be 4 (sgc_protocol_minor claims)
    ++ sgc_node_id claims ++ sgc_endpoint_id claims ++ be 8 (sgc_authorization_revision claims) in
  let? count := ok_or (u32_try_from (len (sgc_negotiated_capabilities claims)))
    (invalid_claim "session_grant_capabilities_invalid") in
  let encoded := encoded ++ be 4 count in
  let? encoded := append_strings encoded (sgc_negotiated_capabilities claims) in
  Ok (encoded ++ be 8 (sgc_issued_at_seconds claims) ++ be 4 (sgc_issued_at_nanos claims)
        ++ be 8 (sgc_expires_at_seconds claims) ++ be 4 (sgc_expires_at_nanos claims)).

(** * Connection fences *)

Definition connection_fence_claims_v2 (fence : ConnectionFenceV2) : Auth ConnectionFenceClaimsV2 :=
  if bool_decide (signature_version_value (cf_signature_version fence)
                  <> Some FENCE_SIGNATURE_VERSION_ED25519_V1)
  then Err UnsupportedVersion
  else
  let? lease_until := ok_or (cf_lease_until fence)
    (invalid_claim "connection_fence_lease_until_missing") in
  let? issued_at := ok_or (cf_issued_at fence)
    (invalid_claim "connection_fence_issued_at_missing") in
  let? expires_at := ok_or (cf_expires_at fence)
    (invalid_claim "connection_fence_expires_at_missing") in
  let? fence_id := fixed 16 (cf_fence_id fence) "connection_fence_fence_id_invalid" in
  let? node_id := fixed 16 (cf_node_id fence) "connection_fence_node_invalid" in
  let? endpoint_id := fixed 32 (cf_endpoint_id fence) "connection_fence_endpoint_invalid" in
  let? owner_instance_id := fixed 16 (cf_owner_instance_id fence)
    "connection_fence_owner_instance_invalid" in
  let? connection_id := fixed 16 (cf_connection_id fence) "connection_fence_connection_invalid" in
  let? lease_until_nanos := timestamp_nanos (ts_nanos lease_until) in
  let? issued_at_nanos := timestamp_nanos (ts_nanos issued_at) in
  let? expires_at_nanos := timestamp_nanos (ts_nanos expires_at) in
  Ok (mkConnectionFenceClaimsV2 FENCE_SIGNATURE_VERSION_ED25519_V1 (cf_key_id fence) fence_id
        node_id endpoint_id owner_instance_id (cf_owner_incarnation fence) (cf_owner_epoch fence)
        connection_id (cf_authorization_revision fence) (cf_capabilities fence)
        (ts_seconds lease_until) lease_until_nanos (ts_seconds issued_at) issued_at_nanos
        (ts_seconds expires_at) expires_at_nanos).

Definition canonical_connection_fence_v2 (claims : ConnectionFenceClaimsV2) : Auth bytes :=
  if negb (cfc_signature_version claims =? FENCE_SIGNATURE_VERSION_ED25519_V1)
     || is_empty (cfc_key_id claims)
     || (len (cfc_key_id claims) >? 128)
     || (cfc_owner_epoch claims =? 0)
     || (cfc_authorization_revision claims =? 0)
     || (len (cfc_capabilities claims) >? 128)
     || (cfc_lease_until_nanos claims >=? NANOS_PER_SECOND)
     || (cfc_issued_at_nanos claims >=? NANOS_PER_SECOND)
     || (cfc_expires_at_nanos claims >=? NANOS_PER_SECOND)
     || negb (deadline_strictly_after (cfc_lease_until_seconds claims)
                (cfc_lease_until_nanos claims) (cfc_issued_at_seconds claims)
                (cfc_issued_at_nanos claims))
     || negb (deadline_not_after (cfc_lease_until_seconds claims) (cfc_lease_until_nanos claims)
                (cfc_expires_at_seconds claims) (cfc_expires_at_nanos claims))
     || time_order_invalid (cfc_expires_at_seconds claims) (cfc_expires_at_nanos claims)
          (cfc_issued_at_seconds claims) (cfc_issued_at_nanos claims)
  then Err (invalid_claim "connection_fence_claims_invalid")
  else if capabilities_invalid None (cfc_capabilities claims)
  then Err (invalid_claim "connection_fence_capabilities_invalid")
  else
  let encoded := CONNECTION_FENCE_V2_DOMAIN_SEPARATOR ++ be 4 (cfc_signature_version claims) in
  let? encoded := append_string encoded (cfc_key_id claims) in
  let encoded := encoded ++ cfc_fence_id claims ++ cfc_node_id claims ++ cfc_endpoint_id claims
    ++ cfc_owner_instance_id claims ++ be 8 (cfc_owner_incarnation claims)
    ++ be 8 (cfc_owner_epoch claims) ++ cfc_connection_id claims
    ++ be 8 (cfc_authorization_revision claims) in
  let? count := ok_or (u32_try_from (len (cfc_capabilities claims)))
    (invalid_claim "connection_fence_capabilities_invalid") in
  let encoded := encoded ++ be 4 count in
  let? encoded := append_strings encoded (cfc_capabilities claims) in
  Ok (encoded ++ be 8 (cfc_lease_until_seconds claims) ++ be 4 (cfc_lease_until_nanos claims)
        ++ be 8 (cfc_issued_at_seconds claims) ++ be 4 (cfc_issued_at_nanos claims)
        ++ be 8 (cfc_expires_at_seconds claims) ++ be 4 (cfc_expires_at_nanos claims)).

(** * Fence bindings *)

Definition fence_binding_claims_v2 (binding : FenceBindingV2) : Auth FenceBindingClaimsV2 :=
  if bool_decide (signature_version_value (fb_signature_version binding)
                  <> Some FENCE_SIGNATURE_VERSION_ED25519_V1)
  then Err UnsupportedVersion
  else
  let? issued_at := ok_or (fb_issued_at binding)
    (invalid_claim "fence_binding_issued_at_missing") in
  let? expires_at := ok_or (fb_expires_at binding)
    (invalid_claim "fence_binding_expires_at_missing") in
  let? operation_kind := fence_operation_kind_value (fb_operation_kind binding) in
  let? operation_id := fixed 16 (fb_operation_id binding) "fence_binding_operation_invalid" in
  let? fence_id := fixed 16 (fb_fence_id binding) "fence_binding_fence_id_invalid" in
  let? node_id := fixed 16 (fb_node_id binding) "fence_binding_node_invalid" in
  let? endpoint_id := fixed 32 (fb_endpoint_id binding) "fence_binding_endpoint_invalid" in
  let? owner_instance_id := fixed 16 (fb_owner_instance_id binding)
    "fence_binding_owner_instance_invalid" in
  let? connection_id := fixed 16 (fb_connection_id binding) "fence_binding_connection_invalid" in
  let? issued_at_nanos := timestamp_nanos (ts_nanos issued_at) in
  let? expires_at_nanos := timestamp_nanos (ts_nanos expires_at) in
  Ok (mkFenceBindingClaimsV2 FENCE_SIGNATURE_VERSION_ED25519_V1 (fb_key_id binding)
        operation_kind operation_id fence_id node_id endpoint_id owner_instance_id
        (fb_owner_incarnation binding) (fb_owner_epoch binding) connection_id
        (fb_authorization_revision binding) (fb_capability binding) (ts_seconds issued_at)
        issued_at_nanos (ts_seconds expires_at) expires_at_nanos).

Definition canonical_fence_binding_v2 (claims : FenceBindingClaimsV2) : Auth bytes :=
  if negb (fbc_signature_version claims =? FENCE_SIGNATURE_VERSION_ED25519_V1)
     || is_empty (fbc_key_id claims)
     || (len (fbc_key_id claims) >? 128)
     || (fbc_operation_kind claims =? 0)
     || (fbc_operation_kind claims >? 4)
     || (fbc_owner_epoch claims =? 0)
     || (fbc_authorization_revision claims =? 0)
     || is_empty (fbc_capability claims)
     || (len (fbc_capability claims) >? 128)
     || (fbc_issued_at_nanos claims >=? NANOS_PER_SECOND)
     || (fbc_expires_at_nanos claims >=? NANOS_PER_SECOND)
     || time_order_invalid (fbc_expires_at_seconds claims) (fbc_expires_at_nanos claims)
          (fbc_issued_at_seconds claims) (fbc_issued_at_nanos claims)
  then Err (invalid_claim "fence_binding_claims_invalid")
  else
  let encoded := FENCE_BINDING_V2_DOMAIN_SEPARATOR ++ be 4 (fbc_signature_version claims) in
  let? encoded := append_string encoded (fbc_key_id claims) in
  let encoded := encoded ++ be 4 (fbc_operation_kind claims) ++ fbc_operation_id claims
    ++ fbc_fence_id claims ++ fbc_node_id claims ++ fbc_endpoint_id claims
    ++ fbc_owner_instance_id claims ++ be 8 (fbc_owner_incarnation claims)
    ++ be 8 (fbc_owner_epoch claims) ++ fbc_connection_id claims
    ++ be 8 (fbc_authorization_revision claims) in
  let? encoded := append_string encoded (fbc_capability claims) in
  Ok (encoded ++ be 8 (fbc_issued_at_seconds claims) ++ be 4 (fbc_issued_at_nanos claims)
        ++ be 8 (fbc_expires_at_seconds claims) ++ be 4 (fbc_expires_at_nanos claims)).
