(* ===== verification/CommandAuthorization.v ===== *)
(** Command authorization of [rust/crates/command-authorization/src/lib.rs]:
    the command claims and their canonical bytes, the semantic payload hash,
    and the verification methods of the pinned keyring. *)

From stdpp Require Import base list gmap numbers countable strings.
From Stdlib Require Import ZArith Lia Bool Strings.Byte.
From S2P Require Import Prelude Bytes Text Contracts ConfigProfile Authorization.

Local Open Scope Z_scope.

(** * Command claims *)

(** The payload kind, action and capability a payload stands for. *)
Definition payload_authorization (envelope : CommandEnvelope) : Auth (Z * bytes * bytes) :=
  match env_payload envelope with
  | Some (PSessionDisconnect _) =>
      Ok (100, str "session.disconnect", str "ocserv.session.disconnect")
  | Some (PUserCreate _) => Ok (101, str "user.create", str "ocserv.users.write")
  | Some (PUserDisable _) => Ok (102, str "user.disable", str "ocserv.users.write")
  | Some (PConfigPlan _) => Ok (103, str "config.plan", str "ocserv.config.plan")
  | Some (PConfigApply _) => Ok (104, str "config.apply", str "ocserv.config.apply")
  | Some (PCompleteConfigPlan _) => Ok (129, str "config.plan", PLAN_CAPABILITY)
  | Some (PCompleteConfigApply _) => Ok (130, str "config.apply", APPLY_CAPABILITY)
  | Some PServiceReload => Ok (105, str "service.reload", str "ocserv.service.reload")
  | Some PSyntheticNoop => Ok (107, str "operation.create", str "synthetic.noop")
  | Some (PSyntheticEcho _) => Ok (108, str "operation.create", str "synthetic.echo")
  | Some (PSessionTerminate _) =>
      Ok (112, str "session.terminate", str "ocserv.session.terminate")
  | Some (PIpBanRemove _) => Ok (113, str "ip_ban.remove", str "ocserv.ip_ban.remove")
  | Some (PUserPasswordRotate _) =>
      Ok (114, str "user.password.rotate", str "ocserv.users.write")
  | Some (PGroupApply _) => Ok (115, str "group.apply", str "ocserv.groups.write")
  | Some (PUserEnable _) => Ok (116, str "user.enable", str "ocserv.users.write")
  | Some (PCertificateCsr _) => Ok (117, str "certificate.issue", str "ocserv.certificate.issue")
  | Some (PCertificateP12 _) =>
      Ok (118, str "certificate.private_key.export", str "ocserv.certificate.issue")
  | Some (PCertificateRevoke _) =>
      Ok (119, str "certificate.revoke", str "ocserv.certificate.revoke")
  | Some (PAgentUpgrade _) =>
      let? capability := ok_or (supported_capability (env_required_capability envelope))
        PayloadUnsupported in
      Ok (128, str "agent.upgrade", capability)
  | _ => Err PayloadUnsupported
  end.

Definition claims_from_envelope_v1 (envelope : CommandEnvelope) : Auth CommandAuthorizationV1 :=
  let? proof := ok_or (env_authorization envelope) Missing in
  if bool_decide (unwrap_or (CommandAuthorizationVersion_try_from (cap_version proof))
                    AuthUnspecified <> AuthV1)
  then Err UnsupportedVersion
  else if bool_decide (env_protocol_version envelope <> COMMAND_PROTOCOL_VERSION)
          && bool_decide (env_protocol_version envelope <> LEGACY_COMMAND_PROTOCOL_VERSION)
  then Err (invalid_claim "command_protocol_version_unsupported")
  else
  let? (payload_kind, action, capability) := payload_authorization envelope in
  if bool_decide (env_action envelope <> action)
  then Err (invalid_claim "command_authorization_action_mismatch")
  else if bool_decide (env_required_capability envelope <> capability)
  then Err (invalid_claim "command_authorization_capability_mismatch")
  else if trim_is_empty (env_actor_id envelope)
          || (len (env_actor_id envelope) >? 256)
          || is_empty (cap_key_id proof)
          || (len (cap_key_id proof) >? 128)
  then Err (invalid_claim "command_authorization_identity_invalid")
  else
  let? issued_at := ok_or (env_issued_at envelope)
    (invalid_claim "command_authorization_issued_at_missing") in
  let? expires_at := ok_or (env_expires_at envelope)
    (invalid_claim "command_authorization_expires_at_missing") in
  let? issued_at_nanos := timestamp_nanos (ts_nanos issued_at) in
  let? expires_at_nanos := timestamp_nanos (ts_nanos expires_at) in
  if time_order_invalid (ts_seconds expires_at) expires_at_nanos (ts_seconds issued_at)
       issued_at_nanos
  then Err (invalid_claim "command_authorization_time_order_invalid")
  else if match unwrap_or (SemanticPayloadHashVersion_try_from
                             (env_semantic_payload_hash_version envelope)) HashUnspecified with
          | HashV1 | HashV2 => false
          | HashUnspecified => true
          end
  then Err (invalid_claim "semantic_hash_version_unsupported")
  else if env_delivery_mode envelope =? 0
  then Err (invalid_claim "delivery_mode_invalid")
  else
  let? approval_id := optional_fixed 16 (env_approval_id envelope) "approval_id_invalid" in
  let? approval_request_sha256 :=
    optional_fixed 32 (env_approval_request_sha256 envelope) "approval_request_hash_invalid" in
  if bool_decide (is_Some approval_request_sha256) && bool_decide (approval_id = None)
  then Err (invalid_claim "approval_request_hash_without_id")
  else
  let? command_id := fixed 16 (env_command_id envelope) "command_id_invalid" in
  let? idempotency_key := fixed 16 (env_idempotency_key envelope) "idempotency_key_invalid" in
  let? node_id := fixed 16 (env_node_id envelope) "node_id_invalid" in
  let? operation_id := fixed 16 (env_operation_id envelope) "operation_id_invalid" in
  let? semantic_hash_version := ok_or (u32_try_from (env_semantic_payload_hash_version envelope))
    (invalid_claim "semantic_hash_version_invalid") in
  let? semantic_payload_sha256 :=
    fixed 32 (env_semantic_payload_sha256 envelope) "semantic_payload_hash_missing" in
  let? delivery_mode := ok_or (u32_try_from (env_delivery_mode envelope))
    (invalid_claim "delivery_mode_invalid") in
  Ok (mkCommandAuthorizationV1 1 (cap_key_id proof) (env_protocol_version envelope)
        command_id idempotency_key node_id operation_id (env_actor_id envelope)
        (env_action envelope) (env_required_capability envelope) approval_id
        approval_request_sha256 (env_expected_revision envelope) semantic_hash_version
        semantic_payload_sha256 payload_kind delivery_mode (ts_seconds issued_at)
        issued_at_nanos (ts_seconds expires_at) expires_at_nanos).

Definition canonical_v1 (claims : CommandAuthorizationV1) : Auth bytes :=
  if negb (cl_authorization_version claims =? 1)
     || is_empty (cl_key_id claims)
     || is_empty (cl_protocol_version claims)
     || is_empty (cl_actor_identity claims)
     || is_empty (cl_action claims)
     || is_empty (cl_required_capability claims)
     || (cl_semantic_hash_version claims =? 0)
     || (cl_payload_kind claims =? 0)
     || (cl_delivery_mode claims =? 0)
     || (cl_issued_at_nanos claims >=? NANOS_PER_SECOND)
     || (cl_expires_at_nanos claims >=? NANOS_PER_SECOND)
     || time_order_invalid (cl_expires_at_seconds claims) (cl_expires_at_nanos claims)
          (cl_issued_at_seconds claims) (cl_issued_at_nanos claims)
     || (bool_decide (is_Some (cl_approval_request_sha256 claims))
         && bool_decide (cl_approval_id claims = None))
  then Err (invalid_claim "command_authorization_claims_invalid")
  else
  let encoded := DOMAIN_SEPARATOR ++ be 4 (cl_authorization_version claims) in
  let? encoded := append_string encoded (cl_key_id claims) in
  let? encoded := append_string encoded (cl_protocol_version claims) in
  let encoded := encoded ++ cl_command_id claims ++ cl_idempotency_key claims
    ++ cl_node_id claims ++ cl_operation_id claims in
  let? encoded := append_string encoded (cl_actor_identity claims) in
  let? encoded := append_string encoded (cl_action claims) in
  let? encoded := append_string encoded (cl_required_capability claims) in
  let encoded := append_optional encoded (cl_approval_id claims) in
  let encoded := append_optional encoded (cl_approval_request_sha256 claims) in
  Ok (encoded ++ be 8 (cl_expected_revision claims) ++ be 4 (cl_semantic_hash_version claims)
        ++ cl_semantic_payload_sha256 claims ++ be 4 (cl_payload_kind claims)
        ++ be 4 (cl_delivery_mode claims)
        ++ be 8 (cl_issued_at_seconds claims) ++ be 4 (cl_issued_at_nanos claims)
        ++ be 8 (cl_expires_at_seconds claims) ++ be 4 (cl_expires_at_nanos claims)).

(** * Semantic payload transcripts *)

Definition append_semantic_bytes (target value : bytes) : Auth bytes :=
  let? length := ok_or (u32_try_from (len value)) (invalid_claim "payload_size_invalid") in
  Ok (target ++ be 4 length ++ value).

Fixpoint append_semantic_values (target : bytes) (values : list bytes) : Auth bytes :=
  match values with
  | [] => Ok target
  | value :: rest =>
      let? target := append_semantic_bytes target value in append_semantic_values target rest
  end.

Definition name_byte (b : byte) : bool :=
  is_ascii_alphanumeric b || bool_decide (b = x5f) || bool_decide (b = x2e)
  || bool_decide (b = x2d).

Definition validate_semantic_name (value : bytes) : Auth unit :=
  if is_empty value || (len value >? 64)
     || negb (all_bytes_first is_ascii_alphanumeric name_byte value)
  then Err (invalid_claim "name_invalid")
  else Ok tt.

Definition validate_semantic_revision (value : Z) : Auth unit :=
  if value =? 0 then Err (invalid_claim "revision_invalid") else Ok tt.

(** The member loop of [canonical_named_payload]. *)
Fixpoint append_names (out : bytes) (values : list bytes) : Auth bytes :=
  match values with
  | [] => Ok out
  | value :: rest =>
      let? _ := validate_semantic_name value in
      let? out := append_semantic_bytes out value in
      append_names out rest
  end.

Definition canonical_named_payload (name : bytes) (values : list bytes) (revision : Z) : Auth bytes :=
  let? _ := validate_semantic_name name in
  let? _ := validate_semantic_revision revision in
  let? out := append_semantic_bytes [] name in
  let? out := append_names out values in
  Ok (out ++ be 4 0 ++ be 8 revision).

Definition canonical_sealed_secret (secret : SealedSecretV1) (expected_purpose : SealedSecretPurpose)
    : Auth bytes :=
  if bool_decide (SealedSecretVersion_try_from (ss_version secret) <> Some SecretV1)
     || bool_decide (SealedSecretPurpose_try_from (ss_purpose secret) <> Some expected_purpose)
     || is_empty (ss_key_id secret)
     || (len (ss_key_id secret) >? 128)
     || (len (ss_ciphertext secret) <? 32)
     || (len (ss_ciphertext secret) >? 16 * 1024)
  then Err (invalid_claim "sealed_secret_invalid")
  else
  let? version := ok_or (u32_try_from (ss_version secret))
    (invalid_claim "sealed_secret_invalid") in
  let? purpose := ok_or (u32_try_from (ss_purpose secret))
    (invalid_claim "sealed_secret_invalid") in
  Ok (be 4 version ++ be 4 purpose ++ ss_ciphertext secret).

Definition canonical_secret_payload (name : bytes) (secret : option SealedSecretV1)
    (legacy_ciphertext legacy_key_id : bytes) (revision : Z) : Auth bytes :=
  let? _ := validate_semantic_name name in
  let? _ := validate_semantic_revision revision in
  if negb (is_empty legacy_ciphertext) || negb (is_empty legacy_key_id)
  then Err (invalid_claim "sealed_secret_invalid")
  else
  let? secret := ok_or secret (invalid_claim "sealed_secret_missing") in
  let? secret_bytes := canonical_sealed_secret secret UserPassword in
  let? out := append_semantic_bytes [] name in
  let? out := append_semantic_bytes out (ss_key_id secret) in
  let? out := append_semantic_bytes out secret_bytes in
  Ok (out ++ be 8 revision).

Definition canonical_strings_and_bytes (values : list bytes) (b : bytes) (revision : Z) : Auth bytes :=
  let? out := append_semantic_values [] values in
  let? out := append_semantic_bytes out b in
  Ok (out ++ be 8 revision).

Definition canonical_session_payload (session_id boot_id : bytes) : Auth bytes :=
  let? parsed := ok_or (parse_u64 session_id) (invalid_claim "session_id_invalid") in
  if (parsed =? 0) || bool_decide (to_string parsed <> session_id) || is_empty boot_id
     || (len boot_id >? 64)
  then Err (invalid_claim "session_id_invalid")
  else
  let? out := append_semantic_bytes [] session_id in
  append_semantic_bytes out boot_id.

Section Verification.
Context `{Crypto}.

Definition candidate_canonical (candidate : CompleteConfigCandidate) : Auth bytes :=
  map_err (fun _ => invalid_claim "complete_config_invalid") (canonical candidate).

(** The [(payload_kind, canonical_payload)] of [canonical_semantic_payload_hash]. *)
Definition semantic_payload (envelope : CommandEnvelope) (version : SemanticPayloadHashVersion)
    : Auth (Z * bytes) :=
  match env_payload envelope with
  | Some PSyntheticNoop => Ok (107, [])
  | Some (PSyntheticEcho message) =>
      let? out := append_semantic_bytes [] message in Ok (108, out)
  | Some (PSessionDisconnect payload) =>
      let? out := canonical_session_payload (sm_session_id payload) (sm_boot_id payload) in
      Ok (100, out)
  | Some PServiceReload => Ok (105, [])
  | Some (PConfigPlan payload) =>
      if negb (len (cp_candidate_hash payload) =? 32)
      then Err (invalid_claim "candidate_hash_invalid")
      else
        Ok (103, cp_candidate_hash payload
                 ++ (if bool_decide (version = HashV2)
                     then be 8 (cp_expected_revision payload) else []))
  | Some (PConfigApply payload) =>
      if negb (len (ca_candidate_hash payload) =? 32)
         || negb (len (ca_expected_current_hash payload) =? 32)
         || (ca_desired_revision payload =? 0)
      then Err (invalid_claim "config_apply_invalid")
      else Ok (104, ca_candidate_hash payload ++ ca_expected_current_hash payload
                    ++ be 8 (ca_desired_revision payload))
  | Some (PCompleteConfigPlan payload) =>
      let? candidate := ok_or (ccp_candidate payload) (invalid_claim "complete_config_missing") in
      let? canonical := candidate_canonical candidate in
      if bool_decide (version <> HashV2)
         || bool_decide (ccc_node_id candidate <> env_node_id envelope)
         || bool_decide (sha256 canonical <> ccp_candidate_hash payload)
      then Err (invalid_claim "complete_config_identity_invalid")
      else Ok (129, ccp_candidate_hash payload)
  | Some (PCompleteConfigApply payload) =>
      let? candidate := ok_or (cca_candidate payload) (invalid_claim "complete_config_missing") in
      let? canonical := candidate_canonical candidate in
      let? expiry := ok_or (cca_plan_expires_at payload)
        (invalid_claim "complete_config_expiry_missing") in
      if bool_decide (version <> HashV2)
         || bool_decide (ccc_node_id candidate <> env_node_id envelope)
         || bool_decide (sha256 canonical <> cca_candidate_hash payload)
         || negb (len (cca_materialized_hash payload) =? 32)
         || negb (len (cca_expected_current_hash payload) =? 32)
         || (cca_desired_revision payload <=? ccc_expected_revision candidate)
         || negb (len (cca_plan_id payload) =? 16)
         || negb ((-62135596800 <=? ts_seconds expiry) && (ts_seconds expiry <=? 253402300799))
         || negb ((0 <=? ts_nanos expiry) && (ts_nanos expiry <? NANOS_PER_SECOND))
         || negb (len (env_approval_id envelope) =? 16)
         || negb (len (env_approval_request_sha256 envelope) =? 32)
      then Err (invalid_claim "complete_config_identity_invalid")
      else
        Ok (130, cca_candidate_hash payload ++ cca_materialized_hash payload
                 ++ cca_expected_current_hash payload ++ be 8 (cca_desired_revision payload)
                 ++ cca_plan_id payload ++ be 8 (ts_seconds expiry) ++ be 4 (ts_nanos expiry)
                 ++ env_approval_id envelope ++ env_approval_request_sha256 envelope)
  | Some (PCertificateCsr payload) =>
      if negb (len (csr_certificate_id payload) =? 16)
         || is_empty (csr_common_name payload)
         || (len (csr_dns_names payload) >? 32)
         || negb ((csr_key_bits payload =? 2048) || (csr_key_bits payload =? 3072)
                  || (csr_key_bits payload =? 4096))
      then Err (invalid_claim "certificate_csr_invalid")
      else
      let? out := canonical_strings_and_bytes (csr_common_name payload :: csr_dns_names payload)
        (csr_certificate_id payload) (csr_key_bits payload) in
      Ok (117, out)
  | Some (PCertificateP12 payload) =>
      let? secret := ok_or (p12_sealed_password_v1 payload)
        (invalid_claim "certificate_p12_secret_missing") in
      let? expires := ok_or (p12_artifact_expires_at payload)
        (invalid_claim "certificate_p12_expiry_missing") in
      if negb (len (p12_certificate_id payload) =? 16)
         || negb (len (p12_artifact_id payload) =? 16)
         || (len (p12_certificate_chain_pem payload) <? 64)
         || (len (p12_certificate_chain_pem payload) >? 256 * 1024)
         || negb (is_empty (p12_sealed_password payload))
         || negb (is_empty (p12_secret_key_id payload))
         || (p12_certificate_version payload =? 0)
         || negb ((0 <=? ts_nanos expires) && (ts_nanos expires <=? 999999999))
      then Err (invalid_claim "certificate_p12_invalid")
      else
      let? secret_bytes := canonical_sealed_secret secret CertificateP12Password in
      let? expires_nanos := ok_or (u32_try_from (ts_nanos expires))
        (invalid_claim "certificate_p12_expiry_invalid") in
      let data := p12_certificate_id payload ++ p12_artifact_id payload
        ++ p12_certificate_chain_pem payload ++ secret_bytes
        ++ be 8 (ts_seconds expires) ++ be 4 expires_nanos in
      let? out := canonical_strings_and_bytes [ss_key_id secret] data
        (p12_certificate_version payload) in
      Ok (118, out)
  | Some (PCertificateRevoke payload) =>
      if negb (len (rev_certificate_id payload) =? 16)
         || is_empty (rev_reason payload)
         || (len (rev_reason payload) >? 128)
         || (rev_certificate_version payload =? 0)
      then Err (invalid_claim "certificate_revoke_invalid")
      else
      let? out := canonical_strings_and_bytes [rev_reason payload] (rev_certificate_id payload)
        (rev_certificate_version payload) in
      Ok (119, out)
  | Some (PAgentUpgrade payload) =>
      if negb (valid_target_version (au_target_version payload))
         || negb (len (au_package_sha256 payload) =? 32)
         || negb (valid_architecture (au_architecture payload))
      then Err (invalid_claim "agent_upgrade_invalid")
      else
      let? out := canonical_strings_and_bytes
        [au_target_version payload; au_architecture payload] (au_package_sha256 payload) 0 in
      Ok (128, out)
  | Some (PSessionTerminate payload) =>
      let? out := canonical_session_payload (sm_session_id payload) (sm_boot_id payload) in
      Ok (112, out)
  | Some (PIpBanRemove ip) =>
      let? out := append_semantic_bytes [] ip in Ok (113, out)
  | Some (PUserCreate payload) =>
      let? out := canonical_secret_payload (us_username payload) (us_sealed_password_v1 payload)
        (us_sealed_password payload) (us_secret_key_id payload) (us_desired_revision payload) in
      Ok (101, out)
  | Some (PUserDisable payload) =>
      let? out := canonical_named_payload (ut_username payload) [] (ut_desired_revision payload) in
      Ok (102, out)
  | Some (PUserPasswordRotate payload) =>
      let? out := canonical_secret_payload (us_username payload) (us_sealed_password_v1 payload)
        (us_sealed_password payload) (us_secret_key_id payload) (us_desired_revision payload) in
      Ok (114, out)
  | Some (PGroupApply payload) =>
      let? out := canonical_named_payload (ga_group_name payload) (ga_members payload)
        (ga_desired_revision payload) in
      Ok (115, out)
  | Some (PUserEnable payload) =>
      let? out := canonical_named_payload (ut_username payload) [] (ut_desired_revision payload) in
      Ok (116, out)
  | _ => Err PayloadUnsupported
  end.

(** The bytes [canonical_semantic_payload_hash] feeds to SHA-256. *)
Definition semantic_preimage (envelope : CommandEnvelope) (version : SemanticPayloadHashVersion)
    : Auth bytes :=
  let? (payload_kind, canonical_payload) := semantic_payload envelope version in
  let? domain :=
    match version with
    | HashV1 => Ok (str "ocservia.command.semantic-hash.v1" ++ [x00])
    | HashV2 => Ok (str "ocservia.command.semantic-hash.v2" ++ [x00])
    | HashUnspecified => Err (invalid_claim "semantic_hash_version_unsupported")
    end in
  Ok (domain ++ env_node_id envelope ++ be 8 (env_expected_revision envelope)
      ++ be 4 payload_kind ++ canonical_payload).

Definition canonical_semantic_payload_hash (envelope : CommandEnvelope)
    (version : SemanticPayloadHashVersion) : Auth bytes :=
  let? preimage := semantic_preimage envelope version in Ok (sha256 preimage).

Definition semantic_payload_hash_v1 (envelope : CommandEnvelope) : Auth bytes :=
  canonical_semantic_payload_hash envelope HashV1.

Definition semantic_payload_hash_v2 (envelope : CommandEnvelope) : Auth bytes :=
  canonical_semantic_payload_hash envelope HashV2.

Definition verify_semantic_payload_hash (envelope : CommandEnvelope) : Auth bytes :=
  let version := unwrap_or (SemanticPayloadHashVersion_try_from
    (env_semantic_payload_hash_version envelope)) HashUnspecified in
  let? recomputed :=
    match version with
    | HashV1 => semantic_payload_hash_v1 envelope
    | HashV2 => semantic_payload_hash_v2 envelope
    | HashUnspecified => Err (invalid_claim "semantic_hash_version_unsupported")
    end in
  let? expected := fixed 32 (env_semantic_payload_sha256 envelope)
    "semantic_payload_hash_missing" in
  if bool_decide (recomputed <> expected)
  then Err (invalid_claim "semantic_payload_hash_mismatch")
  else Ok recomputed.

(** * State-update operation identities *)

Definition state_update_transcript (node_id endpoint_id : bytes) (state revision : Z)
    (reason : bytes) : bytes :=
  STATE_UPDATE_OPERATION_DOMAIN ++ node_id ++ endpoint_id ++ be 4 state ++ be 8 revision
  ++ be 4 (unwrap_or (u32_try_from (len reason)) u32_max) ++ reason.

Definition state_update_operation_id (node_id endpoint_id : bytes) (state revision : Z)
    (reason : bytes) : bytes :=
  take 16 (sha256 (state_update_transcript node_id endpoint_id state revision reason)).

(** * The pinned keyring *)

Definition verification_key_id (key : VerifyingKey) : bytes :=
  KEY_ID_PREFIX ++ hex_encode (sha256 (key_as_bytes key)).

(** [HashMap<String, VerifyingKey>] *)
Record ControllerCommandKeyring := mkKeyring { keys : gmap bytes VerifyingKey }.

Fixpoint insert_keys (values : gmap bytes VerifyingKey) (new_keys : list VerifyingKey)
    : Auth (gmap bytes VerifyingKey) :=
  match new_keys with
  | [] => Ok values
  | key :: rest =>
      let key_id := verification_key_id key in
      if bool_decide (is_Some (values !! key_id))
      then Err (invalid_claim "command_authorization_key_duplicate")
      else if (8 <? size (<[key_id := key]> values))%nat
      then Err (invalid_claim "command_authorization_key_count_invalid")
      else insert_keys (<[key_id := key]> values) rest
  end.

(** [ControllerCommandKeyring::new] *)
Definition keyring_new (new_keys : list VerifyingKey) : Auth ControllerCommandKeyring :=
  let? values := insert_keys ∅ new_keys in
  if bool_decide (values = ∅) then Err (invalid_claim "command_authorization_key_missing")
  else Ok (mkKeyring values).

(** The common tail of the verification methods: parse the signature and
    check it over the canonical bytes. *)
Definition check_signature (key : VerifyingKey) (canonical signature : bytes) : Auth unit :=
  let? signature := ok_or (signature_from_slice signature) SignatureMalformed in
  if verify_strict key canonical signature then Ok tt else Err SignatureInvalid.

Section Methods.
Context (self : ControllerCommandKeyring).

Definition verify_claims (envelope : CommandEnvelope) : Auth CommandAuthorizationV1 :=
  let? proof := ok_or (env_authorization envelope) Missing in
  if bool_decide (unwrap_or (CommandAuthorizationVersion_try_from (cap_version proof))
                    AuthUnspecified <> AuthV1)
  then Err UnsupportedVersion
  else
  let? key := ok_or (keys self !! cap_key_id proof) UnknownKey in
  let? claims := claims_from_envelope_v1 envelope in
  let? canonical := canonical_v1 claims in
  let? _ := check_signature key canonical (cap_signature proof) in
  Ok claims.

Definition verify (envelope : CommandEnvelope) : Auth unit :=
  let? _ := verify_claims envelope in Ok tt.

Definition verify_command (envelope : CommandEnvelope) (expected_node_id : bytes)
    (now_unix_seconds : Z) : Auth CommandAuthorizationV1 :=
  let? claims := verify_claims envelope in
  if bool_decide (cl_node_id claims <> expected_node_id)
  then Err (invalid_claim "node_id_mismatch")
  else if cl_expected_revision claims =? 0
  then Err (invalid_claim "revision_invalid")
  else if (cl_expires_at_seconds claims <=? now_unix_seconds)
          && negb (env_delivery_mode envelope =? CommandDeliveryMode_value ReconcileOnly)
  then Err (invalid_claim "command_expired")
  else if cl_issued_at_seconds claims
          >? i64_saturating_add now_unix_seconds MAX_FUTURE_SKEW_SECONDS
  then Err (invalid_claim "clock_skew")
  else
  let? _ := verify_semantic_payload_hash envelope in
  Ok claims.

Definition verify_session_grant (grant : SessionGrantV1) (expected_node_id expected_endpoint_id : bytes)
    (now_unix_seconds : Z) : Auth VerifiedSessionGrant :=
  if bool_decide (unwrap_or (SessionGrantVersion_try_from (sg_version grant))
                    SessionGrantUnspecified <> SessionGrantVersionV1)
  then Err UnsupportedVersion
  else
  let? key := ok_or (keys self !! sg_key_id grant) UnknownKey in
  let? claims := session_grant_claims_v1 grant in
  if bool_decide (sgc_node_id claims <> expected_node_id)
  then Err (invalid_claim "session_grant_node_mismatch")
  else if bool_decide (sgc_endpoint_id claims <> expected_endpoint_id)
  then Err (invalid_claim "session_grant_endpoint_mismatch")
  else if sgc_expires_at_seconds claims <=? now_unix_seconds
  then Err (invalid_claim "session_grant_expired")
  else if sgc_issued_at_seconds claims
          >? i64_saturating_add now_unix_seconds MAX_FUTURE_SKEW_SECONDS
  then Err (invalid_claim "session_grant_clock_skew")
  else
  let? canonical := canonical_session_grant_v1 claims in
  let? _ := check_signature key canonical (sg_signature grant) in
  Ok (mkVerifiedSessionGrant (sgc_authorization_revision claims)
        (sgc_negotiated_capabilities claims) (sgc_expires_at_seconds claims)).

Definition verify_connection_fence_v2_at (fence : ConnectionFenceV2)
    (expected_node_id expected_endpoint_id : bytes) (now_unix_seconds now_unix_nanos : Z)
    : Auth VerifiedConnectionFenceV2 :=
  if now_unix_nanos >=? NANOS_PER_SECOND
  then Err (invalid_claim "connection_fence_clock_skew")
  else
  let? claims := connection_fence_claims_v2 fence in
  let? key := ok_or (keys self !! cfc_key_id claims) UnknownKey in
  if bool_decide (cfc_node_id claims <> expected_node_id)
  then Err (invalid_claim "connection_fence_node_mismatch")
  else if bool_decide (cfc_endpoint_id claims <> expected_endpoint_id)
  then Err (invalid_claim "connection_fence_endpoint_mismatch")
  else if timestamp_expired (cfc_expires_at_seconds claims) (cfc_expires_at_nanos claims)
            now_unix_seconds now_unix_nanos
  then Err (invalid_claim "connection_fence_expired")
  else if timestamp_exceeds_future_skew (cfc_issued_at_seconds claims)
            (cfc_issued_at_nanos claims) now_unix_seconds now_unix_nanos
  then Err (invalid_claim "connection_fence_clock_skew")
  else
  let? canonical := canonical_connection_fence_v2 claims in
  let? _ := check_signature key canonical (cf_signature fence) in
  Ok (mkVerifiedConnectionFenceV2 (cfc_fence_id claims) (cfc_owner_instance_id claims)
        (cfc_owner_incarnation claims) (cfc_owner_epoch claims) (cfc_connection_id claims)
        (cfc_authorization_revision claims) (cfc_capabilities claims)
        (cfc_lease_until_seconds claims) (cfc_lease_until_nanos claims)
        (cfc_expires_at_seconds claims) (cfc_expires_at_nanos claims)).

Definition verify_connection_fence_v2 (fence : ConnectionFenceV2)
    (expected_node_id expected_endpoint_id : bytes) (now_unix_seconds : Z)
    : Auth VerifiedConnectionFenceV2 :=
  verify_connection_fence_v2_at fence expected_node_id expected_endpoint_id now_unix_seconds 0.

Definition verify_fence_binding_v2_at (binding : FenceBindingV2)
    (expected_node_id expected_endpoint_id : bytes) (now_unix_seconds now_unix_nanos : Z)
    : Auth FenceBindingClaimsV2 :=
  if now_unix_nanos >=? NANOS_PER_SECOND
  then Err (invalid_claim "fence_binding_clock_skew")
  else
  let? claims := fence_binding_claims_v2 binding in
  let? key := ok_or (keys self !! fbc_key_id claims) UnknownKey in
  if bool_decide (fbc_node_id claims <> expected_node_id)
  then Err (invalid_claim "fence_binding_node_mismatch")
  else if bool_decide (fbc_endpoint_id claims <> expected_endpoint_id)
  then Err (invalid_claim "fence_binding_endpoint_mismatch")
  else if timestamp_expired (fbc_expires_at_seconds claims) (fbc_expires_at_nanos claims)
            now_unix_seconds now_unix_nanos
  then Err (invalid_claim "fence_binding_expired")
  else if timestamp_exceeds_future_skew (fbc_issued_at_seconds claims)
            (fbc_issued_at_nanos claims) now_unix_seconds now_unix_nanos
  then Err (invalid_claim "fence_binding_clock_skew")
  else
  let? canonical := canonical_fence_binding_v2 claims in
  let? _ := check_signature key canonical (fb_signature binding) in
  Ok claims.

Definition verify_fence_binding_v2 (binding : FenceBindingV2)
    (expected_node_id expected_endpoint_id : bytes) (now_unix_seconds : Z)
    : Auth FenceBindingClaimsV2 :=
  verify_fence_binding_v2_at binding expected_node_id expected_endpoint_id now_unix_seconds 0.

Definition verify_artifact_grant_inner (grant : ArtifactGrantV1)
    (expected_node_id expected_artifact_id expected_purpose : bytes)
    (expected_max_bytes now_unix_seconds : Z) (require_unexpired : bool)
    : Auth ArtifactGrantClaimsV1 :=
  if bool_decide (unwrap_or (ArtifactGrantVersion_try_from (ag_version grant))
                    ArtifactGrantUnspecified <> ArtifactGrantVersionV1)
  then Err UnsupportedVersion
  else
  let? key := ok_or (keys self !! ag_key_id grant) UnknownKey in
  let? claims := artifact_grant_claims_v1 grant in
  if bool_decide (agc_node_id claims <> expected_node_id)
  then Err (invalid_claim "artifact_grant_node_mismatch")
  else if bool_decide (agc_artifact_id claims <> expected_artifact_id)
  then Err (invalid_claim "artifact_grant_artifact_mismatch")
  else if bool_decide (agc_purpose claims <> expected_purpose)
          || negb (agc_max_bytes claims =? expected_max_bytes)
  then Err (invalid_claim "artifact_grant_request_mismatch")
  else if require_unexpired && (agc_expires_at_seconds claims <=? now_unix_seconds)
  then Err (invalid_claim "artifact_grant_expired")
  else if agc_issued_at_seconds claims
          >? i64_saturating_add now_unix_seconds MAX_FUTURE_SKEW_SECONDS
  then Err (invalid_claim "artifact_grant_clock_skew")
  else
  let? canonical := canonical_artifact_grant_v1 claims in
  let? _ := check_signature key canonical (ag_signature grant) in
  Ok claims.

Definition verify_artifact_grant (grant : ArtifactGrantV1)
    (expected_node_id expected_artifact_id expected_purpose : bytes)
    (expected_max_bytes now_unix_seconds : Z) : Auth ArtifactGrantClaimsV1 :=
  verify_artifact_grant_inner grant expected_node_id expected_artifact_id expected_purpose
    expected_max_bytes now_unix_seconds true.

Definition verify_artifact_grant_for_confirmation (grant : ArtifactGrantV1)
    (expected_node_id expected_artifact_id expected_purpose : bytes)
    (expected_max_bytes now_unix_seconds : Z) : Auth ArtifactGrantClaimsV1 :=
  verify_artifact_grant_inner grant expected_node_id expected_artifact_id expected_purpose
    expected_max_bytes now_unix_seconds false.

End Methods.

(** * Verification key files *)

(** [verification_key_metadata_allowed] *)
Definition verification_key_metadata_allowed (uid gid mode expected_owner expected_group : Z)
    : bool :=
  ((uid =? expected_owner) && ((mode =? 256) || (mode =? 384)))
  || ((uid =? 0) && (gid =? expected_group) && ((mode =? 288) || (mode =? 416))).

End Verification.
