(* ===== verification/TranscriptFacts.v ===== *)
(** The canonical transcripts of the signed authorities as flat
    concatenations of prefix codes, and their injectivity. *)

From stdpp Require Import base list gmap numbers countable strings.
From Stdlib Require Import ZArith Lia Bool Strings.Byte.
From S2P Require Import Prelude Bytes Text Contracts ConfigProfile Authorization.
From S2P Require Import CommandAuthorization.

Local Open Scope Z_scope.

(** * Appending *)

Lemma u32_try_from_len {A E} (l : list A) (e : E) n :
  ok_or (u32_try_from (len l)) e = Ok n -> n = len l /\ fits_u32 l.
Proof.
  unfold u32_try_from, fits_u32, u32_max. case_bool_decide as D; [|done].
  intros [= <-]. unfold in_u32 in D. split; [done|lia].
Qed.

Lemma append_string_ok t v t' : append_string t v = Ok t' -> t' = t ++ lp v /\ fits_u32 v.
Proof.
  unfold append_string. destruct (ok_or _ _) as [n|] eqn:E; [|done]. intros [= <-].
  apply u32_try_from_len in E as [-> F]. by split.
Qed.

Lemma append_semantic_bytes_ok t v t' :
  append_semantic_bytes t v = Ok t' -> t' = t ++ lp v /\ fits_u32 v.
Proof.
  unfold append_semantic_bytes. destruct (ok_or _ _) as [n|] eqn:E; [|done]. intros [= <-].
  apply u32_try_from_len in E as [-> F]. by split.
Qed.

Lemma append_length_ok t v t' : append_length t v = Ok t' -> t' = t ++ lp v /\ fits_u32 v.
Proof.
  unfold append_length. destruct (ok_or _ _) as [n|] eqn:E; [|done]. intros [= <-].
  apply u32_try_from_len in E as [-> F]. by split.
Qed.

Lemma append_strings_ok t vs t' :
  append_strings t vs = Ok t' -> t' = t ++ lps vs /\ Forall fits_u32 vs.
Proof.
  revert t. induction vs as [|v vs IH]; intros t; simpl.
  - intros [= <-]. unfold lps. simpl. rewrite app_nil_r. split; [done|constructor].
  - destruct (append_string t v) as [t1|] eqn:E; [|done]. intros H%IH.
    apply append_string_ok in E as [-> F]. destruct H as [-> Fs]. split; [|by constructor].
    unfold lps. simpl. by rewrite <- app_assoc.
Qed.

Lemma append_semantic_values_ok t vs t' :
  append_semantic_values t vs = Ok t' -> t' = t ++ lps vs /\ Forall fits_u32 vs.
Proof.
  revert t. induction vs as [|v vs IH]; intros t; simpl.
  - intros [= <-]. unfold lps. simpl. rewrite app_nil_r. split; [done|constructor].
  - destruct (append_semantic_bytes t v) as [t1|] eqn:E; [|done]. intros H%IH.
    apply append_semantic_bytes_ok in E as [-> F]. destruct H as [-> Fs]. split; [|by constructor].
    unfold lps. simpl. by rewrite <- app_assoc.
Qed.

Lemma append_optional_eq t o : append_optional t o = t ++ optional_bytes o.
Proof. by destruct o. Qed.

(** [flatten H] turns [H : canonical_x claims = Ok e] into the flat transcript,
    collecting the length bounds of the strings on the way. *)
Ltac flatten H :=
  invert_ok H;
  repeat match goal with
  | E : append_string _ _ = Ok _ |- _ =>
      let F := fresh "Hfits" in apply append_string_ok in E as [-> F]
  | E : append_semantic_bytes _ _ = Ok _ |- _ =>
      let F := fresh "Hfits" in apply append_semantic_bytes_ok in E as [-> F]
  | E : append_length _ _ = Ok _ |- _ =>
      let F := fresh "Hfits" in apply append_length_ok in E as [-> F]
  | E : append_strings _ _ = Ok _ |- _ =>
      let F := fresh "Hfits" in apply append_strings_ok in E as [-> F]
  | E : append_semantic_values _ _ = Ok _ |- _ =>
      let F := fresh "Hfits" in apply append_semantic_values_ok in E as [-> F]
  | E : ok_or (u32_try_from (len _)) _ = Ok _ |- _ =>
      let F := fresh "Hcount" in apply u32_try_from_len in E as [-> F]
  end;
  rewrite ?append_optional_eq in H; rewrite <- ?app_assoc in H.

(** Removes the equal fields of two flat transcripts one by one. *)
Ltac peel_fields H :=
  repeat
    lazymatch type of H with
    | be 4 ?x ++ ?r = be 4 ?y ++ ?s => peel (be_u32_code x y r s) H
    | be 8 ?x ++ ?r = be 8 ?y ++ ?s =>
        first [peel (be_u64_code x y r s) H | peel (be_i64_code x y r s) H]
    | lp ?x ++ ?r = lp ?y ++ ?s => peel (lp_code x y r s) H
    | counted_lps ?x ++ ?r = counted_lps ?y ++ ?s => peel (counted_lps_code x y r s) H
    | optional_bytes ?x ++ ?r = optional_bytes ?y ++ ?s =>
        first [peel (optional_code 16 x y r s) H | peel (optional_code 32 x y r s) H]
    | ?x ++ ?r = ?y ++ ?s =>
        first [peel (array_code 16 x y r s) H | peel (array_code 32 x y r s) H]
    end.

(** * The Rust types of the claims *)

Definition wf_time (seconds nanos : Z) : Prop := in_i64 seconds /\ in_u32 nanos.

Record wf_command_claims (c : CommandAuthorizationV1) : Prop := {
  wcc_version : in_u32 (cl_authorization_version c);
  wcc_command : array 16 (cl_command_id c);
  wcc_key : array 16 (cl_idempotency_key c);
  wcc_node : array 16 (cl_node_id c);
  wcc_operation : array 16 (cl_operation_id c);
  wcc_approval : optional_array 16 (cl_approval_id c);
  wcc_request : optional_array 32 (cl_approval_request_sha256 c);
  wcc_revision : in_u64 (cl_expected_revision c);
  wcc_hash_version : in_u32 (cl_semantic_hash_version c);
  wcc_hash : array 32 (cl_semantic_payload_sha256 c);
  wcc_kind : in_u32 (cl_payload_kind c);
  wcc_mode : in_u32 (cl_delivery_mode c);
  wcc_issued : wf_time (cl_issued_at_seconds c) (cl_issued_at_nanos c);
  wcc_expires : wf_time (cl_expires_at_seconds c) (cl_expires_at_nanos c) }.

Record wf_session_claims (c : SessionGrantClaimsV1) : Prop := {
  wsc_version : in_u32 (sgc_version c);
  wsc_major : in_u32 (sgc_protocol_major c);
  wsc_minor : in_u32 (sgc_protocol_minor c);
  wsc_node : array 16 (sgc_node_id c);
  wsc_endpoint : array 32 (sgc_endpoint_id c);
  wsc_revision : in_u64 (sgc_authorization_revision c);
  wsc_issued : wf_time (sgc_issued_at_seconds c) (sgc_issued_at_nanos c);
  wsc_expires : wf_time (sgc_expires_at_seconds c) (sgc_expires_at_nanos c) }.

Record wf_artifact_claims (c : ArtifactGrantClaimsV1) : Prop := {
  wac_version : in_u32 (agc_version c);
  wac_node : array 16 (agc_node_id c);
  wac_artifact : array 16 (agc_artifact_id c);
  wac_certificate : array 16 (agc_certificate_id c);
  wac_certificate_version : in_u64 (agc_certificate_version c);
  wac_operation : array 16 (agc_operation_id c);
  wac_max : in_u64 (agc_max_bytes c);
  wac_issued : wf_time (agc_issued_at_seconds c) (agc_issued_at_nanos c);
  wac_expires : wf_time (agc_expires_at_seconds c) (agc_expires_at_nanos c);
  wac_grant : array 16 (agc_grant_id c) }.

Record wf_fence_claims (c : ConnectionFenceClaimsV2) : Prop := {
  wfc_version : in_u32 (cfc_signature_version c);
  wfc_fence : array 16 (cfc_fence_id c);
  wfc_node : array 16 (cfc_node_id c);
  wfc_endpoint : array 32 (cfc_endpoint_id c);
  wfc_owner : array 16 (cfc_owner_instance_id c);
  wfc_incarnation : in_u64 (cfc_owner_incarnation c);
  wfc_epoch : in_u64 (cfc_owner_epoch c);
  wfc_connection : array 16 (cfc_connection_id c);
  wfc_revision : in_u64 (cfc_authorization_revision c);
  wfc_lease : wf_time (cfc_lease_until_seconds c) (cfc_lease_until_nanos c);
  wfc_issued : wf_time (cfc_issued_at_seconds c) (cfc_issued_at_nanos c);
  wfc_expires : wf_time (cfc_expires_at_seconds c) (cfc_expires_at_nanos c) }.

Record wf_binding_claims (c : FenceBindingClaimsV2) : Prop := {
  wbc_version : in_u32 (fbc_signature_version c);
  wbc_kind : in_u32 (fbc_operation_kind c);
  wbc_operation : array 16 (fbc_operation_id c);
  wbc_fence : array 16 (fbc_fence_id c);
  wbc_node : array 16 (fbc_node_id c);
  wbc_endpoint : array 32 (fbc_endpoint_id c);
  wbc_owner : array 16 (fbc_owner_instance_id c);
  wbc_incarnation : in_u64 (fbc_owner_incarnation c);
  wbc_epoch : in_u64 (fbc_owner_epoch c);
  wbc_connection : array 16 (fbc_connection_id c);
  wbc_revision : in_u64 (fbc_authorization_revision c);
  wbc_issued : wf_time (fbc_issued_at_seconds c) (fbc_issued_at_nanos c);
  wbc_expires : wf_time (fbc_expires_at_seconds c) (fbc_expires_at_nanos c) }.

(** * Injectivity of each transcript *)

Lemma counted_lps_eq l r : be 4 (len l) ++ lps l ++ r = counted_lps l ++ r.
Proof. unfold counted_lps. by rewrite <- app_assoc. Qed.

#[local] Opaque be lp lps counted_lps optional_bytes.

(** [same_fields H1 H2] proves two records equal from their flat transcripts
    with the same bytes. *)
Ltac same_fields H1 H2 :=
  repeat match goal with G : _ = false |- _ => clear G end;
  unfold wf_time in *; destruct_and?;
  rewrite <- H1 in H2; clear H1;
  apply (f_equal (fun x => x ++ [])) in H2; rewrite <- ?app_assoc in H2;
  repeat match type of H2 with
  | context [be 4 (len ?l) ++ lps ?l ++ ?r] => rewrite (counted_lps_eq l r) in H2
  end;
  apply app_inv_head in H2; peel_fields H2.

Lemma canonical_v1_inj c1 c2 b :
  wf_command_claims c1 -> wf_command_claims c2 ->
  canonical_v1 c1 = Ok b -> canonical_v1 c2 = Ok b -> c1 = c2.
Proof.
  intros [] [] H1 H2. unfold canonical_v1 in *. flatten H1. flatten H2. same_fields H1 H2.
  destruct c1, c2; simpl in *; subst; reflexivity.
Qed.

Lemma canonical_session_grant_v1_inj c1 c2 b :
  wf_session_claims c1 -> wf_session_claims c2 ->
  canonical_session_grant_v1 c1 = Ok b -> canonical_session_grant_v1 c2 = Ok b -> c1 = c2.
Proof.
  intros [] [] H1 H2. unfold canonical_session_grant_v1 in *. flatten H1. flatten H2.
  same_fields H1 H2. destruct c1, c2; simpl in *; subst; reflexivity.
Qed.

Lemma canonical_artifact_grant_v1_inj c1 c2 b :
  wf_artifact_claims c1 -> wf_artifact_claims c2 ->
  canonical_artifact_grant_v1 c1 = Ok b -> canonical_artifact_grant_v1 c2 = Ok b -> c1 = c2.
Proof.
  intros [] [] H1 H2. unfold canonical_artifact_grant_v1 in *. flatten H1. flatten H2.
  same_fields H1 H2. destruct c1, c2; simpl in *; subst; reflexivity.
Qed.

Lemma canonical_connection_fence_v2_inj c1 c2 b :
  wf_fence_claims c1 -> wf_fence_claims c2 ->
  canonical_connection_fence_v2 c1 = Ok b -> canonical_connection_fence_v2 c2 = Ok b -> c1 = c2.
Proof.
  intros [] [] H1 H2. unfold canonical_connection_fence_v2 in *. flatten H1. flatten H2.
  same_fields H1 H2. destruct c1, c2; simpl in *; subst; reflexivity.
Qed.

Lemma canonical_fence_binding_v2_inj c1 c2 b :
  wf_binding_claims c1 -> wf_binding_claims c2 ->
  canonical_fence_binding_v2 c1 = Ok b -> canonical_fence_binding_v2 c2 = Ok b -> c1 = c2.
Proof.
  intros [] [] H1 H2. unfold canonical_fence_binding_v2 in *. flatten H1. flatten H2.
  same_fields H1 H2. destruct c1, c2; simpl in *; subst; reflexivity.
Qed.

(** * Projections produce well-typed claims *)

Lemma fixed_ok n v code a : fixed n v code = Ok a -> a = v /\ array n a.
Proof. unfold fixed. case_bool_decide; [|done]. by intros [= <-]. Qed.

Lemma optional_fixed_ok n v code o :
  optional_fixed n v code = Ok o ->
  optional_array n o /\ ((v = [] /\ o = None) \/ o = Some v).
Proof.
  unfold optional_fixed. destruct (is_empty v) eqn:Ev.
  - intros [= <-]. split; [done|left]. by destruct v.
  - destruct (fixed n v code) as [a|] eqn:E; [|done]. intros [= <-].
    apply fixed_ok in E as [-> A]. auto.
Qed.

Lemma u32_try_from_ok {E} z (e : E) n : ok_or (u32_try_from z) e = Ok n -> n = z /\ in_u32 n.
Proof. unfold u32_try_from. case_bool_decide; [|done]. by intros [= <-]. Qed.

Lemma timestamp_nanos_ok z n : timestamp_nanos z = Ok n -> n = z /\ 0 <= n < NANOS_PER_SECOND.
Proof.
  unfold timestamp_nanos. destruct (ok_or _ _) as [v|] eqn:E; [|done].
  apply u32_try_from_ok in E as [-> E]. destruct (Z.geb_spec z NANOS_PER_SECOND); [done|].
  intros [= <-]. unfold in_u32 in E. lia.
Qed.

Lemma nanos_u32 n : 0 <= n < NANOS_PER_SECOND -> in_u32 n.
Proof. unfold in_u32, NANOS_PER_SECOND. lia. Qed.

#[export] Hint Resolve nanos_u32 : ocservia.

Definition opt_wf_timestamp (o : option Timestamp) : Prop :=
  match o with Some t => wf_timestamp t | None => True end.

(** Replaces the field helpers by what they establish. *)
Ltac project :=
  repeat match goal with
  | E : fixed _ _ _ = Ok _ |- _ =>
      let A := fresh "Harray" in apply fixed_ok in E as [-> A]
  | E : optional_fixed _ _ _ = Ok _ |- _ =>
      let A := fresh "Hoptional" in let V := fresh "Hvalue" in
      apply optional_fixed_ok in E as [A V]
  | E : timestamp_nanos _ = Ok _ |- _ =>
      let A := fresh "Hnanos" in apply timestamp_nanos_ok in E as [-> A]
  | E : ok_or (u32_try_from _) _ = Ok _ |- _ =>
      let A := fresh "Hu32" in apply u32_try_from_ok in E as [-> A]
  | E : ok_or _ _ = Ok _ |- _ => apply ok_or_Some in E
  end.

(** Resolves the present timestamps. *)
Ltac timestamps :=
  repeat match goal with
  | E : ?o = Some ?t, W : opt_wf_timestamp ?o |- _ =>
      rewrite E in W; destruct W as [? _]
  end.

(** The Rust types of the carriers' fields. *)
Record wf_envelope (e : CommandEnvelope) : Prop := {
  we_revision : in_u64 (env_expected_revision e);
  we_issued : opt_wf_timestamp (env_issued_at e);
  we_expires : opt_wf_timestamp (env_expires_at e) }.

Record wf_session_grant (g : SessionGrantV1) : Prop := {
  wg_major : in_u32 (sg_protocol_major g);
  wg_minor : in_u32 (sg_protocol_minor g);
  wg_revision : in_u64 (sg_authorization_revision g);
  wg_issued : opt_wf_timestamp (sg_issued_at g);
  wg_expires : opt_wf_timestamp (sg_expires_at g) }.

Record wf_artifact_grant (g : ArtifactGrantV1) : Prop := {
  wa_version : in_u64 (ag_certificate_version g);
  wa_max : in_u64 (ag_max_bytes g);
  wa_issued : opt_wf_timestamp (ag_issued_at g);
  wa_expires : opt_wf_timestamp (ag_expires_at g) }.

Record wf_fence (f : ConnectionFenceV2) : Prop := {
  wf_incarnation : in_u64 (cf_owner_incarnation f);
  wf_epoch : in_u64 (cf_owner_epoch f);
  wf_auth_revision : in_u64 (cf_authorization_revision f);
  wf_lease : opt_wf_timestamp (cf_lease_until f);
  wf_issued : opt_wf_timestamp (cf_issued_at f);
  wf_expires : opt_wf_timestamp (cf_expires_at f) }.

Record wf_binding (f : FenceBindingV2) : Prop := {
  wb_incarnation : in_u64 (fb_owner_incarnation f);
  wb_epoch : in_u64 (fb_owner_epoch f);
  wb_revision : in_u64 (fb_authorization_revision f);
  wb_issued : opt_wf_timestamp (fb_issued_at f);
  wb_expires : opt_wf_timestamp (fb_expires_at f) }.

Lemma payload_authorization_kind e k a cap :
  payload_authorization e = Ok (k, a, cap) -> 100 <= k <= 130.
Proof.
  unfold payload_authorization. destruct (env_payload e) as [[]|]; try done;
    try (intros [= <- _ _]; lia).
  destruct (ok_or _ _); [|done]. intros [= <- _ _]. lia.
Qed.

Lemma claims_from_envelope_wf e c :
  wf_envelope e -> claims_from_envelope_v1 e = Ok c -> wf_command_claims c.
Proof.
  intros [Hr Hi He] H. unfold claims_from_envelope_v1 in H. invert_ok H.
  apply payload_authorization_kind in Hstep0. project. subst c.
  timestamps.
  split; simpl; try done; unfold wf_time; auto with ocservia; unfold in_u32; lia.
Qed.

Lemma session_grant_claims_wf g c :
  wf_session_grant g -> session_grant_claims_v1 g = Ok c -> wf_session_claims c.
Proof.
  intros [? ? ? Hi He] H. unfold session_grant_claims_v1 in H. invert_ok H. project. subst c.
  timestamps.
  split; simpl; try done; unfold wf_time; auto with ocservia.
Qed.

Lemma artifact_grant_claims_wf g c :
  wf_artifact_grant g -> artifact_grant_claims_v1 g = Ok c -> wf_artifact_claims c.
Proof.
  intros [? ? Hi He] H. unfold artifact_grant_claims_v1 in H. invert_ok H. project. subst c.
  timestamps.
  split; simpl; try done; unfold wf_time; auto with ocservia.
Qed.

Lemma connection_fence_claims_wf f c :
  wf_fence f -> connection_fence_claims_v2 f = Ok c -> wf_fence_claims c.
Proof.
  intros [? ? ? Hl Hi He] H. unfold connection_fence_claims_v2 in H. invert_ok H. project. subst c.
  timestamps.
  split; simpl; try done; unfold wf_time; auto with ocservia.
Qed.

Lemma operation_kind_u32 z k : fence_operation_kind_value z = Ok k -> in_u32 k.
Proof.
  unfold fence_operation_kind_value, in_u32.
  destruct (FenceOperationKind_try_from z) as [[]|]; try done; intros [= <-]; lia.
Qed.

Lemma fence_binding_claims_wf f c :
  wf_binding f -> fence_binding_claims_v2 f = Ok c -> wf_binding_claims c.
Proof.
  intros [? ? ? Hi He] H. unfold fence_binding_claims_v2 in H. invert_ok H.
  match goal with E : fence_operation_kind_value _ = Ok _ |- _ => apply operation_kind_u32 in E end.
  project. subst c. timestamps.
  split; simpl; try done; unfold wf_time; auto with ocservia.
Qed.
