(* ===== verification/ConfigTheorems.v ===== *)
(** What the complete-config profile and the release identity grammar
    guarantee: an accepted candidate is determined by its canonical
    transcript, is complete, sorted and internally consistent; a version is
    accepted exactly when it is a Semantic Versioning 2.0.0 version. *)

From stdpp Require Import base list gmap numbers countable strings.
From Stdlib Require Import ZArith Lia Bool Strings.Byte.
From S2P Require Import Prelude Bytes Text Contracts ConfigProfile Authorization.
From S2P Require Import CommandAuthorization TranscriptFacts.

Local Open Scope Z_scope.

(** * Directives as prefix codes *)

Definition enc_value (v : DirectiveValue) : bytes :=
  match v with
  | Literal value => [x00] ++ lp value
  | Tls r =>
      [x01] ++ tls_secret_ref_id r ++ lp (tls_version r) ++ tls_certificate_sha256 r
      ++ tls_spki_sha256 r ++ lp (tls_ca_sha256 r)
  end.

Definition value_ok (v : DirectiveValue) : Prop :=
  match v with
  | Literal value => fits_u32 value
  | Tls r =>
      array 16 (tls_secret_ref_id r) /\ fits_u32 (tls_version r)
      /\ array 32 (tls_certificate_sha256 r) /\ array 32 (tls_spki_sha256 r)
      /\ fits_u32 (tls_ca_sha256 r)
  end.

#[local] Opaque be lp lps.

Lemma cons_tail {A} (x y : A) l1 l2 : x :: l1 = y :: l2 -> l1 = l2.
Proof. by intros [= _ ->]. Qed.

#[export] Instance value_code : PrefixCode value_ok enc_value.
Proof.
  intros [v1|r1] [v2|r2] s1 s2 D1 D2 E; simpl in E; try discriminate E; apply cons_tail in E.
  - simpl in *. peel (lp_code v1 v2 s1 s2) E. by subst.
  - rewrite <- !app_assoc in E. simpl in D1, D2. destruct_and?. peel_fields E.
    destruct r1, r2; simpl in *. by subst.
Qed.

Definition enc_directive (nv : bytes * DirectiveValue) : bytes := lp (fst nv) ++ enc_value (snd nv).

Definition directive_ok (nv : bytes * DirectiveValue) : Prop :=
  fits_u32 (fst nv) /\ value_ok (snd nv).

#[export] Instance directive_code : PrefixCode directive_ok enc_directive.
Proof.
  intros [n1 v1] [n2 v2] s1 s2 [] [] E. unfold enc_directive in E. simpl in *.
  rewrite <- !app_assoc in E. peel (lp_code n1 n2 (enc_value v1 ++ s1) (enc_value v2 ++ s2)) E.
  peel (value_code v1 v2 s1 s2) E. by subst.
Qed.

Lemma directives_inj l1 l2 s1 s2 :
  length l1 = length l2 -> Forall directive_ok l1 -> Forall directive_ok l2 ->
  concat (enc_directive <$> l1) ++ s1 = concat (enc_directive <$> l2) ++ s2 -> l1 = l2.
Proof.
  intros L F1; revert l2 L. induction F1 as [|x l1 Hx F1 IH]; intros [|y l2] L F2; simpl in *;
    try done. rewrite <- !app_assoc. intros E. inversion F2; subst.
  apply (prefix_code (PrefixCode := directive_code)) in E as [-> E]; [|done..].
  f_equal. apply IH; [lia|done|done].
Qed.

(** * One step of the walk *)

(** What [step_directive] establishes of an accepted directive. *)
Record step_spec (w : Walk) (d : CompleteConfigDirective) (v : DirectiveValue) (w' : Walk) : Prop := {
  st_value : ccd_value d = Some v;
  st_order : bytes_lt (walk_previous w) (ccd_name d);
  st_previous : walk_previous w' = ccd_name d;
  st_out : walk_out w' = walk_out w ++ enc_directive (ccd_name d, v);
  st_ok : directive_ok (ccd_name d, v);
  st_literal l : v = Literal l -> literal (ccd_name d) l = true /\ walk_server_ref w' = walk_server_ref w;
  st_tls r : v = Tls r ->
    tls_directive (ccd_name d) = true /\ walk_server_ref w' = Some r
    /\ (forall r0, walk_server_ref w = Some r0 -> r0 = r);
  st_max : walk_max_clients w' =
    match v with
    | Literal l => if bool_decide (ccd_name d = str "max-clients")
                   then default 0 (parse_u32 l) else walk_max_clients w
    | Tls _ => walk_max_clients w
    end;
  st_same : walk_max_same w' =
    match v with
    | Literal l => if bool_decide (ccd_name d = str "max-same-clients")
                   then default 0 (parse_u32 l) else walk_max_same w
    | Tls _ => walk_max_same w
    end }.

Lemma parsed_or {E} (b : bool) (o : option Z) (e : E) current n :
  (if b then ok_or o e else Ok current) = Ok n -> n = if b then default 0 o else current.
Proof. destruct b; [|by intros [= <-]]. intros H%ok_or_Some. by rewrite H. Qed.

Lemma step_directive_ok w d w' :
  step_directive w d = Ok w' -> exists v, step_spec w d v w'.
Proof.
  unfold step_directive. intros H. destruct (bytes_leb _ _) eqn:Ho in H; [done|].
  apply bytes_leb_nlt in Ho.
  destruct (append_length (walk_out w) (ccd_name d)) as [out|] eqn:E1; [|done].
  apply append_length_ok in E1 as [-> F1].
  destruct (ok_or (ccd_value d) invalidProfile) as [v|] eqn:Ev; [|done]. apply ok_or_Some in Ev.
  exists v. destruct v as [value|r].
  - destruct (negb _) eqn:G in H; [done|]. split_guards.
    destruct (append_length _ value) as [out|] eqn:E2; [|done].
    apply append_length_ok in E2 as [-> F2].
    destruct (if bool_decide (ccd_name d = str "max-clients") then _ else _) as [mc|] eqn:E3; [|done].
    destruct (if bool_decide (ccd_name d = str "max-same-clients") then _ else _) as [ms|] eqn:E4;
      [|done]. injection H as <-.
    split; simpl; try done.
    + unfold enc_directive; simpl. by rewrite <- !app_assoc.
    + by intros l [= <-].
    + by apply parsed_or in E3.
    + by apply parsed_or in E4.
  - destruct (_ || _)%bool eqn:G in H; [done|]. split_guards.
    destruct (append_length _ (tls_version r)) as [out|] eqn:E2; [|done].
    apply append_length_ok in E2 as [-> F2].
    destruct (append_length _ (tls_ca_sha256 r)) as [out|] eqn:E3; [|done].
    apply append_length_ok in E3 as [-> F3]. injection H as <-.
    split; simpl; try done.
    + unfold enc_directive; simpl. by rewrite <- !app_assoc.
    + unfold directive_ok, array, len in *; simpl. split; [done|]. split_and!; try done; unfold array; lia.
    + intros r' [= <-]. split; [done|]. split; [done|]. intros r0 E. rewrite E in *.
      split_guards. by apply dec_stable.
Qed.

(** * The whole walk *)

(** The values of an accepted candidate, in order. *)
Definition valued (d : CompleteConfigDirective) : option (bytes * DirectiveValue) :=
  (fun v => (ccd_name d, v)) <$> ccd_value d.

Lemma walk_directives_out ds w w' :
  walk_directives w ds = Ok w' ->
  exists nvs, mapM valued ds = Some nvs /\ Forall directive_ok nvs
              /\ walk_out w' = walk_out w ++ concat (enc_directive <$> nvs).
Proof.
  revert w. induction ds as [|d ds IH]; intros w; simpl.
  - intros [= <-]. exists []. simpl. by rewrite app_nil_r.
  - destruct (step_directive w d) as [w1|] eqn:E; [|done].
    apply step_directive_ok in E as [v S]. intros (nvs & M & F & O)%IH.
    assert (valued d = Some (ccd_name d, v)) as Hv
      by (unfold valued; by rewrite (st_value _ _ _ _ S)).
    exists ((ccd_name d, v) :: nvs). split; [by rewrite Hv; simpl; rewrite M|]. split; [constructor; [apply S|done]|].
    rewrite O, (st_out _ _ _ _ S). simpl. by rewrite <- app_assoc.
Qed.

Lemma mapM_valued_inj ds1 ds2 nvs :
  mapM valued ds1 = Some nvs -> mapM valued ds2 = Some nvs -> ds1 = ds2.
Proof.
  rewrite !mapM_Some. intros F1; revert ds2. induction F1 as [|d1 nv ds1 nvs E1 F1 IH];
    intros ds2 F2; inversion F2 as [|d2 ? ds2' ? E2 F2']; subst; [done|].
  f_equal; [|by apply IH]. destruct d1 as [n1 [v1|]], d2 as [n2 [v2|]]; try done.
  unfold valued in *. simpl in *. congruence.
Qed.

(** Everything an accepting walk established of the directives. *)
Record profile (w0 : Walk) (ds : list CompleteConfigDirective) (w : Walk) : Prop := {
  pr_sorted i j x y : (i < j)%nat -> ds !! i = Some x -> ds !! j = Some y ->
    bytes_lt (ccd_name x) (ccd_name y);
  pr_above x : x ∈ ds -> bytes_lt (walk_previous w0) (ccd_name x);
  pr_literal x l : x ∈ ds -> ccd_value x = Some (Literal l) -> literal (ccd_name x) l = true;
  pr_tls x r : x ∈ ds -> ccd_value x = Some (Tls r) ->
    tls_directive (ccd_name x) = true /\ walk_server_ref w = Some r;
  pr_ref r : walk_server_ref w0 = Some r -> walk_server_ref w = Some r;
  pr_valued x : x ∈ ds -> is_Some (ccd_value x) }.

Lemma walk_directives_profile ds w w' : walk_directives w ds = Ok w' -> profile w ds w'.
Proof.
  revert w. induction ds as [|d ds IH]; intros w; simpl.
  - intros [= <-]. split; try done; intros; by match goal with H : _ ∈ [] |- _ => apply elem_of_nil in H end.
  - destruct (step_directive w d) as [w1|] eqn:E; [|done].
    apply step_directive_ok in E as [v S]. intros P%IH.
    pose proof (pr_above _ _ _ P) as Habove. rewrite (st_previous _ _ _ _ S) in Habove.
    assert (forall r, walk_server_ref w = Some r -> walk_server_ref w1 = Some r) as Href.
    { intros r Er. destruct v as [l|r'].
      - destruct (st_literal _ _ _ _ S l eq_refl) as [_ ->]. done.
      - destruct (st_tls _ _ _ _ S r' eq_refl) as (_ & -> & H0). by rewrite (H0 r Er). }
    split.
    + intros [|i] [|j] x y Hij Hx Hy; simpl in *; try lia.
      * injection Hx as <-. apply Habove. by eapply list_elem_of_lookup_2.
      * eapply (pr_sorted _ _ _ P i j); eauto. lia.
    + intros x [->|Hx]%elem_of_cons; [apply S|]. transitivity (ccd_name d); [apply S|auto].
    + intros x l [->|Hx]%elem_of_cons Hv; [|by eapply pr_literal].
      apply (st_literal _ _ _ _ S l). rewrite (st_value _ _ _ _ S) in Hv. by injection Hv.
    + intros x r [->|Hx]%elem_of_cons Hv; [|by eapply pr_tls].
      rewrite (st_value _ _ _ _ S) in Hv. injection Hv as ->.
      destruct (st_tls _ _ _ _ S r eq_refl) as (Ht & Hr & _). split; [done|]. by apply (pr_ref _ _ _ P).
    + intros r Er. apply (pr_ref _ _ _ P). auto.
    + intros x [->|Hx]%elem_of_cons; [rewrite (st_value _ _ _ _ S); eauto|by eapply pr_valued].
Qed.

Lemma canonical_ok c b :
  canonical c = Ok b ->
  exists w,
    walk_directives (mkWalk (CONFIG_DOMAIN ++ ccc_node_id c ++ be 8 (ccc_expected_revision c)
      ++ be 4 (len (ccc_directives c))) [] None 0 0) (ccc_directives c) = Ok w
    /\ b = walk_out w /\ array 16 (ccc_node_id c) /\ ccc_expected_revision c <= i64_max
    /\ fits_u32 (ccc_directives c) /\ walk_max_same w <= walk_max_clients w
    /\ forall name, name ∈ REQUIRED -> name ∈ ccd_name <$> ccc_directives c.
Proof.
  unfold canonical. intros H. destruct (_ || _)%bool eqn:G in H; [done|]. split_guards.
  destruct (ok_or _ _) as [n|] eqn:E; [|done]. apply u32_try_from_len in E as [-> F].
  rewrite <- !app_assoc in H.
  destruct (walk_directives _ _) as [w|] eqn:Ew; [|done]. exists w. split; [done|].
  destruct (_ || _)%bool eqn:G in H; [done|]. injection H as <-. split_guards.
  split; [done|]. split; [unfold array, len in *; lia|]. split; [lia|]. split; [done|].
  split; [lia|]. intros name Hn.
  match goal with H : existsb _ REQUIRED = false |- _ => rename H into Hreq end.
  apply not_true_iff_false in Hreq. rewrite existsb_exists in Hreq.
  destruct (existsb (fun d => bool_decide (ccd_name d = name)) (ccc_directives c)) eqn:Ex.
  - apply existsb_exists in Ex as (d & Hd & Ed%bool_decide_eq_true).
    apply list_elem_of_fmap. exists d. split; [done|]. by apply list_elem_of_In.
  - exfalso. apply Hreq. exists name. split; [by apply list_elem_of_In|]. by rewrite Ex.
Qed.

Lemma canonical_inj c1 c2 b :
  in_u64 (ccc_expected_revision c1) -> in_u64 (ccc_expected_revision c2) ->
  canonical c1 = Ok b -> canonical c2 = Ok b -> c1 = c2.
Proof.
  intros R1 R2 (w1 & W1 & -> & N1 & _ & F1 & _)%canonical_ok (w2 & W2 & E & N2 & _ & F2 & _)%canonical_ok.
  apply walk_directives_out in W1 as (l1 & M1 & D1 & O1).
  apply walk_directives_out in W2 as (l2 & M2 & D2 & O2).
  rewrite O1, O2 in E. cbn [walk_out] in E. rewrite <- !app_assoc in E. apply app_inv_head in E.
  unfold fits_u32, u32_max in *.
  assert (in_u32 (len (ccc_directives c1))) by (unfold in_u32; pose proof (len_nonneg (ccc_directives c1)); lia).
  assert (in_u32 (len (ccc_directives c2))) by (unfold in_u32; pose proof (len_nonneg (ccc_directives c2)); lia).
  peel_fields E.
  assert (l1 = l2) as <-.
  { pose proof (Forall2_length _ _ _ (proj1 (mapM_Some _ _ _) M1)).
    pose proof (Forall2_length _ _ _ (proj1 (mapM_Some _ _ _) M2)). unfold len in *.
    apply (directives_inj l1 l2 [] []); [lia|done|done|]. by rewrite !app_nil_r. }
  pose proof (mapM_valued_inj _ _ _ M1 M2). destruct c1, c2; simpl in *. by subst.
Qed.

(** * The client limits *)

Section Limit.
Variables (key : bytes) (limit : Walk -> Z).
Hypothesis step_limit : forall w d v w', step_spec w d v w' ->
  limit w' =
  match v with
  | Literal l => if bool_decide (ccd_name d = key) then default 0 (parse_u32 l) else limit w
  | Tls _ => limit w
  end.

Lemma walk_limit_unchanged ds w w' :
  walk_directives w ds = Ok w' -> (forall x, x ∈ ds -> ccd_name x <> key) -> limit w' = limit w.
Proof.
  revert w. induction ds as [|d ds IH]; intros w; simpl; [by intros [= <-]|].
  destruct (step_directive w d) as [w1|] eqn:E; [|done].
  apply step_directive_ok in E as [v S]. intros H Hne.
  rewrite (IH w1 H) by (intros; apply Hne; by apply elem_of_cons; right).
  rewrite (step_limit _ _ _ _ S). destruct v; [|done].
  rewrite bool_decide_false; [done|]. apply Hne. by apply elem_of_cons; left.
Qed.

Lemma walk_limit ds w w' x l :
  walk_directives w ds = Ok w' -> x ∈ ds -> ccd_name x = key -> ccd_value x = Some (Literal l) ->
  limit w' = default 0 (parse_u32 l).
Proof.
  revert w. induction ds as [|d ds IH]; intros w H Hx; [by apply elem_of_nil in Hx|].
  simpl in H. destruct (step_directive w d) as [w1|] eqn:E; [|done].
  apply step_directive_ok in E as [v S]. intros Hk Hv.
  apply elem_of_cons in Hx as [->|Hx]; [|by eapply IH].
  rewrite (walk_limit_unchanged ds w1 w' H).
  - rewrite (step_limit _ _ _ _ S). rewrite (st_value _ _ _ _ S) in Hv. injection Hv as ->.
    by rewrite bool_decide_true.
  - apply walk_directives_profile in H. intros y Hy Ey.
    apply (pr_above _ _ _ H) in Hy. rewrite (st_previous _ _ _ _ S), Ey, Hk in Hy.
    by apply (irreflexivity bytes_lt key).
Qed.
End Limit.

(** * Theorems: the profile *)

(** An accepted complete configuration is canonical and complete: its
    directive names are strictly increasing and contain every required one,
    every literal satisfies its directive's grammar, all TLS directives carry
    one and the same node-local reference, the per-user client limit does not
    exceed the total, and no other candidate has the same transcript. *)
Theorem complete_config_canonical c b :
  canonical c = Ok b -> in_u64 (ccc_expected_revision c) ->
  let ds := ccc_directives c in
  strictly_sorted (ccd_name <$> ds) /\ (forall name, name ∈ REQUIRED -> name ∈ ccd_name <$> ds)
  /\ (exists reference, forall d, d ∈ ds ->
        (exists l, ccd_value d = Some (Literal l) /\ literal (ccd_name d) l = true)
        \/ (ccd_value d = Some (Tls reference) /\ tls_directive (ccd_name d) = true))
  /\ (forall d1 d2 l1 l2, d1 ∈ ds -> d2 ∈ ds ->
        ccd_name d1 = str "max-same-clients" -> ccd_value d1 = Some (Literal l1) ->
        ccd_name d2 = str "max-clients" -> ccd_value d2 = Some (Literal l2) ->
        default 0 (parse_u32 l1) <= default 0 (parse_u32 l2))
  /\ forall c', in_u64 (ccc_expected_revision c') -> canonical c' = Ok b -> c' = c.
Proof.
  intros H R. pose proof H as (w & W & _ & _ & _ & _ & Hmax & Hreq)%canonical_ok.
  pose proof (walk_directives_profile _ _ _ W) as P. split.
  { intros i j x y Hij. rewrite !list_lookup_fmap, !fmap_Some.
    intros (dx & Hx & ->) (dy & Hy & ->). by eapply (pr_sorted _ _ _ P). }
  split; [done|]. split.
  { exists (default (mkNodeLocalTlsReference [] [] [] [] []) (walk_server_ref w)). intros d Hd.
    destruct (pr_valued _ _ _ P d Hd) as [[l|r] Ev].
    - left. exists l. split; [done|]. by eapply (pr_literal _ _ _ P).
    - right. destruct (pr_tls _ _ _ P d r Hd Ev) as [Ht ->]. done. }
  split.
  { intros d1 d2 l1 l2 H1 H2 N1 V1 N2 V2.
    rewrite <- (walk_limit (str "max-same-clients") walk_max_same st_same _ _ _ d1 l1 W H1 N1 V1).
    by rewrite <- (walk_limit (str "max-clients") walk_max_clients st_max _ _ _ d2 l2 W H2 N2 V2). }
  intros c' R' H'. by apply (canonical_inj c' c b).
Qed.

Definition sample_reference : NodeLocalTlsReference :=
  mkNodeLocalTlsReference (be 16 9) (str "v1") (be 32 1) (be 32 2) [].

Definition sample_directives : list CompleteConfigDirective :=
  let lit n v := mkCompleteConfigDirective (str n) (Some (Literal (str v))) in
  let tls n := mkCompleteConfigDirective (str n) (Some (Tls sample_reference)) in
  [lit "auth" "plain[passwd=/etc/ocserv/ocpasswd]"; lit "cookie-timeout" "300";
   lit "device" "vpns"; lit "dns" "10.0.0.53"; lit "ipv4-network" "10.10.0.0/16";
   lit "max-clients" "128"; lit "max-same-clients" "2"; tls "server-cert"; tls "server-key";
   lit "socket-file" "/run/ocserv.socket"; lit "tcp-port" "443"; lit "udp-port" "0"]%string.

Definition sample_candidate : CompleteConfigCandidate :=
  mkCompleteConfigCandidate (be 16 7) 4 sample_directives.

Definition sample_transcript : bytes :=
  match canonical sample_candidate with Ok b => b | Err _ => [] end.

Lemma complete_config_canonical_witness :
  canonical sample_candidate = Ok sample_transcript
  /\ strictly_sorted (ccd_name <$> sample_directives).
Proof.
  split; [by vm_compute|].
  apply (complete_config_canonical sample_candidate sample_transcript);
    [by vm_compute|unfold in_u64; simpl; lia].
Defined.

(** * Theorems: release identities *)

(** The grammar of Semantic Versioning 2.0.0. *)
Definition numeric_identifier (b : bytes) : Prop :=
  b <> [] /\ Forall (fun x => is_ascii_digit x = true) b /\ (b = [x30] \/ head b <> Some x30).

Definition identifier_chars (b : bytes) : Prop :=
  b <> [] /\ Forall (fun x => is_ascii_alphanumeric x = true \/ x = x2d) b.

Definition prerelease_identifier (b : bytes) : Prop :=
  identifier_chars b
  /\ (Forall (fun x => is_ascii_digit x = true) b -> numeric_identifier b).

Definition dotted (P : bytes -> Prop) (parts : list bytes) : Prop :=
  parts <> [] /\ Forall P parts.

Definition suffix (mark : byte) (parts : option (list bytes)) : bytes :=
  match parts with Some l => mark :: join x2e l | None => [] end.

Definition semantic_version (v : bytes) : Prop :=
  exists major minor patch prerelease build,
    numeric_identifier major /\ numeric_identifier minor /\ numeric_identifier patch
    /\ (forall l, prerelease = Some l -> dotted prerelease_identifier l)
    /\ (forall l, build = Some l -> dotted identifier_chars l)
    /\ v = join x2e [major; minor; patch] ++ suffix x2d prerelease ++ suffix x2b build.

Lemma forallb_digits b :
  forallb is_ascii_digit b = true <-> Forall (fun x => is_ascii_digit x = true) b.
Proof. rewrite forallb_forall, Forall_forall. setoid_rewrite list_elem_of_In. done. Qed.

Lemma valid_number_spec b : valid_number b = true <-> numeric_identifier b.
Proof.
  unfold valid_number, numeric_identifier. rewrite <- forallb_digits.
  rewrite negb_true_iff, !orb_false_iff, negb_false_iff, is_empty_false.
  destruct b as [|x [|y r]]; simpl; [intuition done| |].
  - destruct (decide (x = x30)) as [->|]; [intuition auto|].
    split; [intros [[? _] ?]; split; [done|]; split; [done|]; right; congruence|].
    intros (? & ? & _). intuition done.
  - assert ((len (x :: y :: r) >? 1) = true) as -> by (apply Z.gtb_lt; unfold len; cbn [length]; lia). simpl.
    split.
    + intros [[H1 H2] H3]. split; [done|]. split; [done|]. right. intros [= ->]. done.
    + intros (H1 & H3 & H4). split; [|done]. split; [done|]. destruct H4 as [|H4]; [done|].
      by destruct x.
Qed.

Lemma identifier_chars_spec b :
  b <> [] ->
  forallb (fun x => is_ascii_alphanumeric x || bool_decide (x = x2d)) b = true <-> identifier_chars b.
Proof.
  intros Hne. unfold identifier_chars. rewrite forallb_forall. split.
  - intros H. split; [done|]. apply Forall_forall. intros x Hx%list_elem_of_In.
    apply H, orb_true_iff in Hx as [?|?%bool_decide_eq_true]; auto.
  - intros [_ H] x Hx%list_elem_of_In. rewrite Forall_forall in H.
    destruct (H x Hx) as [-> | ->]; [done|]. by rewrite orb_true_r.
Qed.

Lemma digit_alphanumeric x : is_ascii_digit x = true -> is_ascii_alphanumeric x = true.
Proof. unfold is_ascii_alphanumeric. by intros ->. Qed.

Lemma valid_identifier_spec pre b :
  valid_identifier pre b = true <->
  if pre then prerelease_identifier b else identifier_chars b.
Proof.
  unfold valid_identifier, prerelease_identifier. destruct (is_empty b) eqn:Eb.
  { assert (b = []) as -> by (by destruct b). unfold identifier_chars.
    split; [done|]. destruct pre; [by intros [[? _] _]|by intros [? _]]. }
  apply is_empty_false in Eb. destruct (forallb is_ascii_digit b) eqn:D.
  - apply forallb_digits in D.
    assert (identifier_chars b).
    { split; [done|]. eapply Forall_impl; [done|]. simpl. auto using digit_alphanumeric. }
    destruct pre; simpl; [|intuition auto]. rewrite valid_number_spec. intuition auto.
  - rewrite identifier_chars_spec by done. destruct pre; [|done].
    split; [|intuition auto]. intros H. split; [done|]. intros F%forallb_digits. congruence.
Qed.

Lemma valid_identifier_list_spec value pre :
  valid_identifier_list value pre = true <->
  exists l, value = join x2e l
    /\ dotted (fun b => if pre then prerelease_identifier b else identifier_chars b) l.
Proof.
  unfold valid_identifier_list. destruct (is_empty value) eqn:Ev.
  - assert (value = []) as -> by (by destruct value). split; [done|].
    intros (l & E & Hne & F). destruct l as [|x l]; [done|].
    apply Forall_cons in F as [Hx _].
    assert (x <> []) by (destruct pre; [by destruct Hx as [[] _]|by destruct Hx]).
    destruct l, x; done.
  - rewrite forallb_forall. setoid_rewrite <- list_elem_of_In. setoid_rewrite valid_identifier_spec.
    rewrite <- Forall_forall. split.
    + intros F. exists (split_on x2e value). split; [by rewrite join_split_on|].
      split; [apply split_on_nonempty|done].
    + intros (l & -> & Hne & F). rewrite split_on_join; [done|done|].
      eapply Forall_impl; [done|]. intros b Hb.
      assert (identifier_chars b) as [_ Hc] by (destruct pre; [apply Hb|done]).
      intros Hin. rewrite Forall_forall in Hc. by destruct (Hc _ Hin).
Qed.

Lemma numeric_free x b : numeric_identifier b -> is_ascii_digit x = false -> x ∉ b.
Proof.
  intros (_ & F & _) Hx Hin. rewrite Forall_forall in F. apply F in Hin. congruence.
Qed.

Lemma join_free x parts :
  x <> x2e -> Forall (fun b => x ∉ b) parts -> x ∉ join x2e parts.
Proof.
  intros Hx F. induction F as [|b parts Hb F IH]; [apply not_elem_of_nil|].
  destruct parts as [|c parts]; [done|].
  change (join x2e (b :: c :: parts)) with (b ++ x2e :: join x2e (c :: parts)).
  rewrite elem_of_app, elem_of_cons. by intros [?|[?|?]].
Qed.

Lemma identifier_plus_free b : identifier_chars b -> x2b ∉ b.
Proof.
  intros [_ F] Hin. rewrite Forall_forall in F. by destruct (F _ Hin).
Qed.

Lemma suffix_plus_free pre :
  (forall l, pre = Some l -> dotted prerelease_identifier l) -> x2b ∉ suffix x2d pre.
Proof.
  intros H. destruct pre as [l|]; [|apply not_elem_of_nil]. simpl. apply not_elem_of_cons.
  split; [done|]. apply join_free; [done|]. destruct (H l eq_refl) as [_ F].
  eapply Forall_impl; [done|]. intros b [Hb _]. by apply identifier_plus_free.
Qed.

(** The two optional suffixes are found at their first mark. *)
Lemma split_suffix (mark : byte) (core : bytes) (parts : option (list bytes)) :
  mark ∉ core ->
  split_once mark (core ++ suffix mark parts) =
  match parts with Some l => Some (core, join x2e l) | None => None end.
Proof.
  intros H. destruct parts as [l|]; simpl; [by apply split_once_app|].
  rewrite app_nil_r. by apply split_once_None.
Qed.

(** Cutting an optional suffix off, as [valid_target_version] does twice. *)
Definition peel_suffix (mark : byte) (pre : bool) (s : bytes) : bytes * bool :=
  match split_once mark s with
  | Some (core, rest) => (core, valid_identifier_list rest pre)
  | None => (s, true)
  end.

Definition suffix_identifier (pre : bool) (b : bytes) : Prop :=
  if pre then prerelease_identifier b else identifier_chars b.

Lemma peel_suffix_sound mark pre s core :
  peel_suffix mark pre s = (core, true) ->
  exists parts, s = core ++ suffix mark parts
    /\ (forall l, parts = Some l -> dotted (suffix_identifier pre) l).
Proof.
  unfold peel_suffix. destruct (split_once mark s) as [[c rest]|] eqn:E.
  - intros [= <- V]. apply split_once_Some in E as [-> _].
    apply valid_identifier_list_spec in V as (l & -> & D). exists (Some l).
    split; [done|]. by intros l' [= <-].
  - intros [= <-]. exists None. by rewrite app_nil_r.
Qed.

Lemma peel_suffix_complete mark pre core parts :
  mark ∉ core -> (forall l, parts = Some l -> dotted (suffix_identifier pre) l) ->
  peel_suffix mark pre (core ++ suffix mark parts) = (core, true).
Proof.
  intros Hm Hp. unfold peel_suffix. rewrite split_suffix by done. destruct parts as [l|]; simpl.
  - f_equal. apply valid_identifier_list_spec. eauto.
  - by rewrite app_nil_r.
Qed.

Definition valid_core (core : bytes) : bool :=
  match split_on x2e core with
  | [major; minor; patch] => valid_number major && valid_number minor && valid_number patch
  | _ => false
  end.

Lemma valid_core_spec core :
  valid_core core = true <->
  exists x y z, numeric_identifier x /\ numeric_identifier y /\ numeric_identifier z
    /\ core = join x2e [x; y; z].
Proof.
  unfold valid_core. split.
  - destruct (split_on x2e core) as [|x [|y [|z [|]]]] eqn:Es; try done.
    rewrite !andb_true_iff, !valid_number_spec. intros [[Hx Hy] Hz]. exists x, y, z.
    repeat (split; [done|]). by rewrite <- Es, join_split_on.
  - intros (x & y & z & Hx & Hy & Hz & ->). rewrite split_on_join; [|done|].
    + apply valid_number_spec in Hx, Hy, Hz. by rewrite Hx, Hy, Hz.
    + repeat constructor; by apply numeric_free.
Qed.

Lemma valid_target_version_peel v :
  5 <= len v <= 128 ->
  valid_target_version v =
  let '(core, build_ok) := peel_suffix x2b false v in
  let '(core, prerelease_ok) := peel_suffix x2d true core in
  build_ok && prerelease_ok && valid_core core.
Proof.
  intros Hl. unfold valid_target_version, MAX_TARGET_VERSION_BYTES. fold (peel_suffix x2b false v).
  destruct (_ || _)%bool eqn:G; [lia|]. destruct (peel_suffix x2b false v) as [core ok].
  fold (peel_suffix x2d true core). destruct (peel_suffix x2d true core) as [c ok'].
  fold (valid_core c). by destruct ok, ok'.
Qed.

(** A target version is accepted exactly when it has 5 to 128 bytes and is
    a Semantic Versioning 2.0.0 version without prefix: three numbers without
    leading zeros, an optional dotted prerelease whose numeric identifiers
    have no leading zeros, and an optional dotted build. *)
Theorem valid_target_version_spec v :
  valid_target_version v = true <-> 5 <= len v <= 128 /\ semantic_version v.
Proof.
  destruct (decide (5 <= len v <= 128)) as [Hl|Hl].
  2: { unfold valid_target_version, MAX_TARGET_VERSION_BYTES.
       destruct (_ || _)%bool eqn:G; [split; [done|]; by intros [? _]|lia]. }
  rewrite valid_target_version_peel by done. split.
  - destruct (peel_suffix x2b false v) as [core ok] eqn:Eb.
    destruct (peel_suffix x2d true core) as [c ok'] eqn:Ep.
    rewrite !andb_true_iff, valid_core_spec. intros [[-> ->] (x & y & z & Hx & Hy & Hz & ->)].
    apply peel_suffix_sound in Eb as (build & -> & Hb).
    apply peel_suffix_sound in Ep as (pre & -> & Hp).
    split; [done|]. exists x, y, z, pre, build. repeat (split; [done|]). by rewrite <- app_assoc.
  - intros (_ & x & y & z & pre & build & Hx & Hy & Hz & Hp & Hb & ->).
    assert (forall m, m <> x2e -> is_ascii_digit m = false -> m ∉ join x2e [x; y; z]) as Hfree.
    { intros m Hm Hd. apply join_free; [done|]. repeat constructor; by apply numeric_free. }
    rewrite app_assoc, (peel_suffix_complete x2b) by
      (first [done | rewrite not_elem_of_app; split; [by apply Hfree|by apply suffix_plus_free]]).
    rewrite (peel_suffix_complete x2d) by (first [done | by apply Hfree]).
    simpl andb. apply valid_core_spec. eauto 10.
Qed.
