(* ===== verification/SemanticFacts.v ===== *)
(** The semantic payload transcripts of [canonical_semantic_payload_hash]
    determine the command they stand for. *)

From stdpp Require Import base list gmap numbers countable strings.
From Stdlib Require Import ZArith Lia Bool Strings.Byte.
From S2P Require Import Prelude Bytes Text Contracts ConfigProfile Authorization.
From S2P Require Import CommandAuthorization TranscriptFacts ConfigTheorems.

Local Open Scope Z_scope.

(** * Uncounted string sequences

    Several payloads write a sequence of strings without its count; the
    fixed-width end makes the sequence unique all the same. *)

Lemma lps_cons x l : lps (x :: l) = lp x ++ lps l.
Proof. reflexivity. Qed.

Lemma lps_app l1 l2 : lps (l1 ++ l2) = lps l1 ++ lps l2.
Proof. unfold lps. by rewrite fmap_app, concat_app. Qed.

Lemma lp_length b : (4 <= length (lp b))%nat.
Proof. unfold lp. rewrite length_app, length_be. lia. Qed.

#[local] Opaque be lp lps.

Lemma lps_end_inj l1 l2 s1 s2 :
  Forall fits_u32 l1 -> Forall fits_u32 l2 -> length s1 = length s2 ->
  lps l1 ++ s1 = lps l2 ++ s2 -> l1 = l2 /\ s1 = s2.
Proof.
  intros F1; revert l2. induction F1 as [|x l1 Hx F1 IH]; intros l2 F2 L E.
  - destruct F2 as [|y l2 Hy F2]; [done|]. exfalso. rewrite lps_cons in E.
    apply (f_equal length) in E. rewrite !length_app in E. pose proof (lp_length y).
    change (length (lps [])) with 0%nat in E. lia.
  - destruct F2 as [|y l2 Hy F2].
    + exfalso. rewrite lps_cons in E. apply (f_equal length) in E.
      rewrite !length_app in E. pose proof (lp_length x).
      change (length (lps [])) with 0%nat in E. lia.
    + rewrite !lps_cons, <- !app_assoc in E.
      peel (lp_code x y (lps l1 ++ s1) (lps l2 ++ s2)) E. subst.
      apply IH in E as [-> ->]; done.
Qed.

Lemma append_names_ok out vs out' :
  append_names out vs = Ok out' -> out' = out ++ lps vs /\ Forall fits_u32 vs.
Proof.
  revert out. induction vs as [|v vs IH]; intros out; simpl.
  - intros [= <-]. split; [by rewrite app_nil_r|constructor].
  - destruct (validate_semantic_name v); [|done].
    destruct (append_semantic_bytes out v) as [o|] eqn:E; [|done].
    apply append_semantic_bytes_ok in E as [-> F]. intros [-> Fs]%IH.
    rewrite lps_cons, <- app_assoc. split; [done|by constructor].
Qed.

Lemma canonical_named_payload_ok name vs r b :
  canonical_named_payload name vs r = Ok b ->
  b = lps (name :: vs) ++ be 4 0 ++ be 8 r /\ Forall fits_u32 (name :: vs).
Proof.
  unfold canonical_named_payload. intros H.
  destruct (validate_semantic_name name); [|done]. destruct (validate_semantic_revision r); [|done].
  destruct (append_semantic_bytes [] name) as [o|] eqn:E1; [|done].
  apply append_semantic_bytes_ok in E1 as [-> F]. rewrite app_nil_l in H.
  destruct (append_names _ vs) as [o|] eqn:E2; [|done]. apply append_names_ok in E2 as [-> Fs].
  injection H as <-. rewrite lps_cons, <- !app_assoc. split; [done|by constructor].
Qed.

Lemma canonical_strings_and_bytes_ok vs d r b :
  canonical_strings_and_bytes vs d r = Ok b ->
  b = lps (vs ++ [d]) ++ be 8 r /\ Forall fits_u32 (vs ++ [d]).
Proof.
  unfold canonical_strings_and_bytes. intros H.
  destruct (append_semantic_values [] vs) as [o|] eqn:E1; [|done].
  apply append_semantic_values_ok in E1 as [-> F]. rewrite app_nil_l in H.
  destruct (append_semantic_bytes _ d) as [o|] eqn:E2; [|done].
  apply append_semantic_bytes_ok in E2 as [-> Fd]. injection H as <-.
  rewrite lps_app, lps_cons. change (lps []) with (@nil byte). rewrite app_nil_r.
  split; [done|]. apply Forall_app_2; [done|by repeat constructor].
Qed.

Lemma canonical_named_payload_inj n1 n2 v1 v2 r1 r2 b :
  in_u64 r1 -> in_u64 r2 ->
  canonical_named_payload n1 v1 r1 = Ok b -> canonical_named_payload n2 v2 r2 = Ok b ->
  n1 = n2 /\ v1 = v2 /\ r1 = r2.
Proof.
  intros R1 R2 [-> F1]%canonical_named_payload_ok [E F2]%canonical_named_payload_ok.
  apply lps_end_inj in E as [[= -> ->] E]; [|done..|by rewrite !length_app, !length_be].
  apply app_inv_head in E. by apply be_u64_inj in E.
Qed.

Lemma canonical_strings_and_bytes_inj v1 v2 d1 d2 r1 r2 b :
  in_u64 r1 -> in_u64 r2 ->
  canonical_strings_and_bytes v1 d1 r1 = Ok b -> canonical_strings_and_bytes v2 d2 r2 = Ok b ->
  v1 = v2 /\ d1 = d2 /\ r1 = r2.
Proof.
  intros R1 R2 [-> F1]%canonical_strings_and_bytes_ok [E F2]%canonical_strings_and_bytes_ok.
  apply lps_end_inj in E as [E Er]; [|done..|by rewrite !length_be].
  apply app_inj_2 in E as [-> [= ->]]; [|done]. by apply be_u64_inj in Er.
Qed.

Lemma canonical_session_payload_ok s boot b :
  canonical_session_payload s boot = Ok b ->
  b = lp s ++ lp boot ++ [] /\ fits_u32 s /\ fits_u32 boot.
Proof.
  unfold canonical_session_payload. intros H.
  destruct (ok_or _ _); [|done]. destruct (_ || _)%bool; [done|].
  destruct (append_semantic_bytes [] s) as [o|] eqn:E; [|done].
  apply append_semantic_bytes_ok in E as [-> F], H as [-> F']. by rewrite app_nil_r.
Qed.

Lemma canonical_session_payload_inj s1 s2 b1 b2 b :
  canonical_session_payload s1 b1 = Ok b -> canonical_session_payload s2 b2 = Ok b ->
  s1 = s2 /\ b1 = b2.
Proof.
  intros (-> & ? & ?)%canonical_session_payload_ok (E & ? & ?)%canonical_session_payload_ok.
  by peel_fields E.
Qed.

(** * Sealed secrets *)

Lemma version_v1 z : SealedSecretVersion_try_from z = Some SecretV1 -> z = 1.
Proof. by destruct z as [|[]|]. Qed.

Lemma purpose_value z p :
  SealedSecretPurpose_try_from z = Some p ->
  z = match p with PurposeUnspecified => 0 | UserPassword => 1 | CertificateP12Password => 2 end.
Proof. destruct z as [|[[]|[]|]|]; try done; by intros [= <-]. Qed.

Definition purpose_tag (p : SealedSecretPurpose) : Z :=
  match p with PurposeUnspecified => 0 | UserPassword => 1 | CertificateP12Password => 2 end.

Lemma canonical_sealed_secret_ok s p b :
  canonical_sealed_secret s p = Ok b ->
  ss_version s = 1 /\ ss_purpose s = purpose_tag p
  /\ b = be 4 1 ++ be 4 (purpose_tag p) ++ ss_ciphertext s.
Proof.
  unfold canonical_sealed_secret. intros H. destruct (_ || _)%bool eqn:G in H; [done|]. split_guards.
  match goal with H : ~ (SealedSecretVersion_try_from _ <> _) |- _ =>
    apply dec_stable, version_v1 in H; rename H into Hv end.
  match goal with H : ~ (SealedSecretPurpose_try_from _ <> _) |- _ =>
    apply dec_stable, purpose_value in H; rename H into Hp end.
  rewrite Hv, Hp in H. split; [done|]. split; [done|].
  change (ok_or (u32_try_from 1) (invalid_claim "sealed_secret_invalid"))
    with (@Ok AuthorizationError Z 1) in H.
  by destruct p; injection H as <-.
Qed.

Lemma sealed_secret_inj s1 s2 p b :
  canonical_sealed_secret s1 p = Ok b -> canonical_sealed_secret s2 p = Ok b ->
  ss_key_id s1 = ss_key_id s2 -> s1 = s2.
Proof.
  intros (V1 & P1 & ->)%canonical_sealed_secret_ok (V2 & P2 & E)%canonical_sealed_secret_ok K.
  apply app_inv_head, app_inv_head in E. destruct s1, s2; simpl in *. by subst.
Qed.

Lemma canonical_secret_payload_inj n1 n2 s1 s2 c1 c2 k1 k2 r1 r2 b :
  in_u64 r1 -> in_u64 r2 ->
  canonical_secret_payload n1 s1 c1 k1 r1 = Ok b -> canonical_secret_payload n2 s2 c2 k2 r2 = Ok b ->
  n1 = n2 /\ s1 = s2 /\ c1 = c2 /\ k1 = k2 /\ r1 = r2.
Proof.
  unfold canonical_secret_payload. intros R1 R2 H1 H2. flatten H1. flatten H2. project. split_guards.
  destruct c1, c2, k1, k2; try done. simpl in H1, H2. subst b.
  rewrite <- (app_nil_r (be 8 r1)), <- (app_nil_r (be 8 r2)) in H2. symmetry in H2.
  peel_fields H2. subst. split; [done|]. split; [|done]. f_equal. by eapply sealed_secret_inj.
Qed.

(** * Payloads *)

(** The Rust types of the payload fields that enter the transcript. *)
Definition wf_payload (p : Payload) : Prop :=
  match p with
  | PUserCreate p | PUserPasswordRotate p => in_u64 (us_desired_revision p)
  | PUserDisable p | PUserEnable p => in_u64 (ut_desired_revision p)
  | PConfigPlan p => in_u64 (cp_expected_revision p)
  | PConfigApply p => in_u64 (ca_desired_revision p)
  | PGroupApply p => in_u64 (ga_desired_revision p)
  | PCertificateCsr p => in_u32 (csr_key_bits p)
  | PCertificateP12 p =>
      in_u64 (p12_certificate_version p) /\ opt_wf_timestamp (p12_artifact_expires_at p)
  | PCertificateRevoke p => in_u64 (rev_certificate_version p)
  | PCompleteConfigPlan p =>
      forall c, ccp_candidate p = Some c -> in_u64 (ccc_expected_revision c)
  | PCompleteConfigApply p =>
      (forall c, cca_candidate p = Some c -> in_u64 (ccc_expected_revision c))
      /\ in_u64 (cca_desired_revision p) /\ opt_wf_timestamp (cca_plan_expires_at p)
  | _ => True
  end.

(** The payload kind of the transcript. *)
Definition kind_of (p : Payload) : Z :=
  match p with
  | PSessionDisconnect _ => 100 | PUserCreate _ => 101 | PUserDisable _ => 102
  | PConfigPlan _ => 103 | PConfigApply _ => 104 | PServiceReload => 105
  | PSimulationProbe _ => 106 | PSyntheticNoop => 107 | PSyntheticEcho _ => 108
  | PSessionTerminate _ => 112 | PIpBanRemove _ => 113 | PUserPasswordRotate _ => 114
  | PGroupApply _ => 115 | PUserEnable _ => 116 | PCertificateCsr _ => 117
  | PCertificateP12 _ => 118 | PCertificateRevoke _ => 119 | PAgentUpgrade _ => 128
  | PCompleteConfigPlan _ => 129 | PCompleteConfigApply _ => 130
  end.

(** The framing of a PKCS#12 export: the chain, the version and purpose words
    and the ciphertext, written without the length of the chain. *)
Definition p12_frame (p : CertificateP12) : bytes :=
  p12_certificate_chain_pem p ++ be 4 1 ++ be 4 2
  ++ match p12_sealed_password_v1 p with Some s => ss_ciphertext s | None => [] end.

(** Two payloads that stand for the same command.  All are equal except where
    the transcript names content by its digest ([ConfigPlan], [ConfigApply]),
    where the first hash version leaves out the plan's revision, and the
    PKCS#12 export, whose chain and ciphertext are only determined together. *)
Definition same_command (v : SemanticPayloadHashVersion) (p1 p2 : Payload) : Prop :=
  match p1, p2 with
  | PConfigPlan a, PConfigPlan b =>
      cp_candidate_hash a = cp_candidate_hash b
      /\ (v = HashV2 -> cp_expected_revision a = cp_expected_revision b)
  | PConfigApply a, PConfigApply b =>
      ca_candidate_hash a = ca_candidate_hash b
      /\ ca_expected_current_hash a = ca_expected_current_hash b
      /\ ca_desired_revision a = ca_desired_revision b
  | PCertificateP12 a, PCertificateP12 b =>
      p12_certificate_id a = p12_certificate_id b /\ p12_artifact_id a = p12_artifact_id b
      /\ p12_certificate_version a = p12_certificate_version b
      /\ p12_artifact_expires_at a = p12_artifact_expires_at b
      /\ ss_key_id <$> p12_sealed_password_v1 a = ss_key_id <$> p12_sealed_password_v1 b
      /\ p12_frame a = p12_frame b
  | _, _ => p1 = p2
  end.

Lemma timestamp_eq t1 t2 : ts_seconds t1 = ts_seconds t2 -> ts_nanos t1 = ts_nanos t2 -> t1 = t2.
Proof. destruct t1, t2; simpl. by intros -> ->. Qed.

Section Payloads.
Context `{Crypto}.

Lemma semantic_payload_kind e v k b :
  semantic_payload e v = Ok (k, b) -> exists p, env_payload e = Some p /\ k = kind_of p.
Proof.
  unfold semantic_payload. destruct (env_payload e) as [p|]; [|done]. intros E. exists p.
  split; [done|]. destruct p; invert_ok E; by symmetry.
Qed.

(** Two different strings with one digest. *)
Definition collides (m1 m2 : bytes) : Prop := m1 <> m2 /\ sha256 m1 = sha256 m2.

(** The configuration candidate inside a payload, whose digest the transcript
    carries in place of it. *)
Definition candidate_of (p : Payload) : option CompleteConfigCandidate :=
  match p with
  | PCompleteConfigPlan p => ccp_candidate p
  | PCompleteConfigApply p => cca_candidate p
  | _ => None
  end.

(** The candidates of these two payloads are different and share a digest. *)
Definition candidates_collide (p1 p2 : Payload) : Prop :=
  exists c1 c2 b1 b2, candidate_of p1 = Some c1 /\ candidate_of p2 = Some c2
    /\ candidate_canonical c1 = Ok b1 /\ candidate_canonical c2 = Ok b2 /\ collides b1 b2.

Lemma candidate_inj c1 c2 b1 b2 :
  in_u64 (ccc_expected_revision c1) -> in_u64 (ccc_expected_revision c2) ->
  candidate_canonical c1 = Ok b1 -> candidate_canonical c2 = Ok b2 -> sha256 b1 = sha256 b2 ->
  c1 = c2 \/ collides b1 b2.
Proof.
  intros R1 R2 E1 E2 Eh. unfold candidate_canonical, map_err in *.
  destruct (canonical c1) as [x1|] eqn:C1; [|done]. destruct (canonical c2) as [x2|] eqn:C2; [|done].
  injection E1 as ->. injection E2 as ->.
  destruct (decide (b1 = b2)) as [->|Hne]; [left; by eapply canonical_inj|by right].
Qed.

Lemma len_array n b : (len b =? Z.of_nat n) = true -> array n b.
Proof. unfold len, array. lia. Qed.

Lemma p12_payload_inj e1 e2 v k b p1 p2 :
  env_payload e1 = Some (PCertificateP12 p1) -> env_payload e2 = Some (PCertificateP12 p2) ->
  wf_payload (PCertificateP12 p1) -> wf_payload (PCertificateP12 p2) ->
  semantic_payload e1 v = Ok (k, b) -> semantic_payload e2 v = Ok (k, b) ->
  same_command v (PCertificateP12 p1) (PCertificateP12 p2).
Proof.
  unfold semantic_payload. intros -> -> [V1 T1] [V2 T2] H1 H2. invert_ok H1. invert_ok H2.
  apply ok_or_Some in Hstep, Hstep0, Hstep4, Hstep5. split_guards.
  apply canonical_sealed_secret_ok in Hstep1 as (S1 & P1 & ->), Hstep6 as (S2 & P2 & ->).
  apply u32_try_from_ok in Hstep2 as [-> N1], Hstep7 as [-> N2].
  rewrite Hstep0 in T1. rewrite Hstep5 in T2. destruct T1 as [T1 _], T2 as [T2 _].
  subst.
  apply (canonical_strings_and_bytes_inj _ _ _ _ _ _ _ V1 V2 Hstep3) in Hstep8 as ([= Ek] & Ed & Ev).
  repeat match goal with G : (len _ =? 16) = true |- _ => apply (len_array 16) in G end.
  peel_fields Ed.
  rewrite !app_assoc in Ed. apply app_inj_2 in Ed as [Ed En]; [|by rewrite !length_be].
  apply app_inj_2 in Ed as [Ed Es]; [|by rewrite !length_be]. rewrite <- !app_assoc in Ed.
  apply be_u32_inj in En; [|done..]. apply be_i64_inj in Es; [|done..].
  unfold same_command, p12_frame. rewrite Hstep, Hstep0, Hstep4, Hstep5. simpl.
  split; [done|]. split; [done|]. split; [done|]. split; [|by rewrite Ek].
  f_equal. by apply timestamp_eq.
Qed.

Lemma complete_plan_inj e1 e2 v k b p1 p2 :
  env_payload e1 = Some (PCompleteConfigPlan p1) -> env_payload e2 = Some (PCompleteConfigPlan p2) ->
  wf_payload (PCompleteConfigPlan p1) -> wf_payload (PCompleteConfigPlan p2) ->
  semantic_payload e1 v = Ok (k, b) -> semantic_payload e2 v = Ok (k, b) ->
  p1 = p2 \/ candidates_collide (PCompleteConfigPlan p1) (PCompleteConfigPlan p2).
Proof.
  unfold semantic_payload. intros -> -> W1 W2 H1 H2. invert_ok H1. invert_ok H2.
  apply ok_or_Some in Hstep, Hstep1. split_guards. apply W1 in Hstep as R1. apply W2 in Hstep1 as R2.
  stabilise.
  destruct (candidate_inj _ _ _ _ R1 R2 Hstep0 Hstep2) as [E|]; [congruence| |right; by eexists _, _, _, _].
  left. destruct p1, p2; simpl in *. congruence.
Qed.

Lemma complete_apply_inj e1 e2 v k b p1 p2 :
  env_payload e1 = Some (PCompleteConfigApply p1) -> env_payload e2 = Some (PCompleteConfigApply p2) ->
  wf_payload (PCompleteConfigApply p1) -> wf_payload (PCompleteConfigApply p2) ->
  semantic_payload e1 v = Ok (k, b) -> semantic_payload e2 v = Ok (k, b) ->
  p1 = p2 \/ candidates_collide (PCompleteConfigApply p1) (PCompleteConfigApply p2).
Proof.
  unfold semantic_payload. intros -> -> (W1 & R1 & T1) (W2 & R2 & T2) H1 H2.
  invert_ok H1. invert_ok H2. apply ok_or_Some in Hstep, Hstep1, Hstep2, Hstep4. split_guards.
  rewrite Hstep1 in T1. rewrite Hstep4 in T2. destruct T1 as [T1 _], T2 as [T2 _].
  apply W1 in Hstep as C1. apply W2 in Hstep2 as C2.
  stabilise.
  repeat match goal with
  | G : (len _ =? 16) = true |- _ => apply (len_array 16) in G
  | G : (len _ =? 32) = true |- _ => apply (len_array 32) in G
  end.
  match goal with E1 : sha256 _ = cca_candidate_hash p1, E2 : sha256 _ = cca_candidate_hash p2 |- _ =>
    pose proof (f_equal length E1) as L1; pose proof (f_equal length E2) as L2;
    rewrite sha256_length in L1, L2; symmetry in L1, L2; rename E1 into D1, E2 into D2 end.
  change (array 32 (cca_candidate_hash p1)) in L1. change (array 32 (cca_candidate_hash p2)) in L2.
  assert (in_u32 (ts_nanos a1)) by (apply nanos_u32; lia).
  assert (in_u32 (ts_nanos a4)) by (apply nanos_u32; lia).
  match goal with E1 : _ ++ _ = b, E2 : _ ++ _ = b |- _ =>
    rewrite <- E2 in E1; apply (f_equal (fun x => x ++ [])) in E1;
    rewrite <- !app_assoc in E1; rename E1 into E end.
  peel_fields E.
  destruct (candidate_inj _ _ _ _ C1 C2 Hstep0 Hstep3) as [Ec|]; [congruence| |right; by eexists _, _, _, _].
  left. assert (a1 = a4) as Et by (by apply timestamp_eq).
  destruct p1, p2; simpl in *. congruence.
Qed.

Lemma session_mutation_inj p1 p2 b :
  canonical_session_payload (sm_session_id p1) (sm_boot_id p1) = Ok b ->
  canonical_session_payload (sm_session_id p2) (sm_boot_id p2) = Ok b -> p1 = p2.
Proof.
  intros H1 H2. destruct (canonical_session_payload_inj _ _ _ _ _ H1 H2).
  destruct p1, p2; simpl in *; congruence.
Qed.

Lemma user_secret_inj p1 p2 b :
  let enc p := canonical_secret_payload (us_username p) (us_sealed_password_v1 p)
                 (us_sealed_password p) (us_secret_key_id p) (us_desired_revision p) in
  in_u64 (us_desired_revision p1) -> in_u64 (us_desired_revision p2) ->
  enc p1 = Ok b -> enc p2 = Ok b -> p1 = p2.
Proof.
  intros enc R1 R2 H1 H2.
  destruct (canonical_secret_payload_inj _ _ _ _ _ _ _ _ _ _ _ R1 R2 H1 H2) as (? & ? & ? & ? & ?).
  destruct p1, p2; simpl in *; congruence.
Qed.

Lemma user_toggle_inj p1 p2 b :
  in_u64 (ut_desired_revision p1) -> in_u64 (ut_desired_revision p2) ->
  canonical_named_payload (ut_username p1) [] (ut_desired_revision p1) = Ok b ->
  canonical_named_payload (ut_username p2) [] (ut_desired_revision p2) = Ok b -> p1 = p2.
Proof.
  intros R1 R2 H1 H2. destruct (canonical_named_payload_inj _ _ _ _ _ _ _ R1 R2 H1 H2) as (? & _ & ?).
  destruct p1, p2; simpl in *; congruence.
Qed.

Lemma semantic_bytes_inj b1 b2 b :
  append_semantic_bytes [] b1 = Ok b -> append_semantic_bytes [] b2 = Ok b -> b1 = b2.
Proof.
  intros [-> F1]%append_semantic_bytes_ok [E F2]%append_semantic_bytes_ok. simpl in E.
  rewrite <- (app_nil_r (lp b1)), <- (app_nil_r (lp b2)) in E. by peel_fields E.
Qed.

Lemma config_plan_inj v p1 p2 b :
  in_u64 (cp_expected_revision p1) -> in_u64 (cp_expected_revision p2) ->
  (len (cp_candidate_hash p1) =? 32) = true -> (len (cp_candidate_hash p2) =? 32) = true ->
  let enc p := cp_candidate_hash p
    ++ (if bool_decide (v = HashV2) then be 8 (cp_expected_revision p) else []) in
  enc p1 = b -> enc p2 = b -> same_command v (PConfigPlan p1) (PConfigPlan p2).
Proof.
  intros R1 R2 L1%(len_array 32) L2%(len_array 32) enc <- E. unfold enc in E. symmetry in E.
  peel_fields E. split; [done|]. intros ->. rewrite bool_decide_true in E by done.
  by apply be_u64_inj in E.
Qed.

Lemma config_apply_inj v p1 p2 b :
  in_u64 (ca_desired_revision p1) -> in_u64 (ca_desired_revision p2) ->
  (len (ca_candidate_hash p1) =? 32) = true -> (len (ca_candidate_hash p2) =? 32) = true ->
  (len (ca_expected_current_hash p1) =? 32) = true ->
  (len (ca_expected_current_hash p2) =? 32) = true ->
  let enc p := ca_candidate_hash p ++ ca_expected_current_hash p ++ be 8 (ca_desired_revision p) in
  enc p1 = b -> enc p2 = b -> same_command v (PConfigApply p1) (PConfigApply p2).
Proof.
  intros R1 R2 L1%(len_array 32) L2%(len_array 32) L3%(len_array 32) L4%(len_array 32) enc <- E.
  unfold enc in E. symmetry in E. peel_fields E. apply be_u64_inj in E; done.
Qed.

Lemma csr_inj p1 p2 b :
  in_u32 (csr_key_bits p1) -> in_u32 (csr_key_bits p2) ->
  let enc p := canonical_strings_and_bytes (csr_common_name p :: csr_dns_names p)
                 (csr_certificate_id p) (csr_key_bits p) in
  enc p1 = Ok b -> enc p2 = Ok b -> p1 = p2.
Proof.
  intros R1 R2 enc H1 H2.
  assert (forall z, in_u32 z -> in_u64 z) as W by (unfold in_u32, in_u64; intros; lia).
  destruct (canonical_strings_and_bytes_inj _ _ _ _ _ _ _ (W _ R1) (W _ R2) H1 H2)
    as ([= ? ?] & ? & ?).
  destruct p1, p2; simpl in *; congruence.
Qed.

Lemma revoke_inj p1 p2 b :
  in_u64 (rev_certificate_version p1) -> in_u64 (rev_certificate_version p2) ->
  let enc p := canonical_strings_and_bytes [rev_reason p] (rev_certificate_id p)
                 (rev_certificate_version p) in
  enc p1 = Ok b -> enc p2 = Ok b -> p1 = p2.
Proof.
  intros R1 R2 enc H1 H2.
  destruct (canonical_strings_and_bytes_inj _ _ _ _ _ _ _ R1 R2 H1 H2) as ([= ?] & ? & ?).
  destruct p1, p2; simpl in *; congruence.
Qed.

Lemma upgrade_inj p1 p2 b :
  let enc p := canonical_strings_and_bytes [au_target_version p; au_architecture p]
                 (au_package_sha256 p) 0 in
  enc p1 = Ok b -> enc p2 = Ok b -> p1 = p2.
Proof.
  intros enc H1 H2. assert (in_u64 0) as W by (unfold in_u64; lia).
  destruct (canonical_strings_and_bytes_inj _ _ _ _ _ _ _ W W H1 H2) as ([= ? ?] & ? & _).
  destruct p1, p2; simpl in *; congruence.
Qed.

Lemma group_inj p1 p2 b :
  in_u64 (ga_desired_revision p1) -> in_u64 (ga_desired_revision p2) ->
  let enc p := canonical_named_payload (ga_group_name p) (ga_members p) (ga_desired_revision p) in
  enc p1 = Ok b -> enc p2 = Ok b -> p1 = p2.
Proof.
  intros R1 R2 enc H1 H2.
  destruct (canonical_named_payload_inj _ _ _ _ _ _ _ R1 R2 H1 H2) as (? & ? & ?).
  destruct p1, p2; simpl in *; congruence.
Qed.

(** Equal kinds and transcripts stand for the same command. *)
Lemma semantic_payload_inj e1 e2 v k b p1 p2 :
  env_payload e1 = Some p1 -> env_payload e2 = Some p2 -> wf_payload p1 -> wf_payload p2 ->
  semantic_payload e1 v = Ok (k, b) -> semantic_payload e2 v = Ok (k, b) ->
  same_command v p1 p2 \/ candidates_collide p1 p2.
Proof.
  intros P1 P2 W1 W2 H1 H2.
  destruct (semantic_payload_kind _ _ _ _ H1) as (q1 & Q1 & K1).
  destruct (semantic_payload_kind _ _ _ _ H2) as (q2 & Q2 & K2).
  assert (q1 = p1) as -> by congruence. assert (q2 = p2) as -> by congruence.
  rewrite K1 in K2. clear Q1 Q2 K1. destruct p1, p2; try discriminate K2; clear K2.
  16: { left. by eapply p12_payload_inj. }
  18: { destruct (complete_plan_inj _ _ _ _ _ _ _ P1 P2 W1 W2 H1 H2) as [->|]; auto. by left. }
  18: { destruct (complete_apply_inj _ _ _ _ _ _ _ P1 P2 W1 W2 H1 H2) as [->|]; auto. by left. }
  all: left; unfold semantic_payload in H1, H2; rewrite P1 in H1; rewrite P2 in H2;
    invert_ok H1; invert_ok H2; split_guards; subst; unfold wf_payload in W1, W2;
    try done; unfold same_command.
  all: eauto using f_equal, session_mutation_inj, user_secret_inj, user_toggle_inj,
    semantic_bytes_inj, csr_inj, revoke_inj, upgrade_inj, group_inj.
  - by eapply (config_plan_inj v p p0).
  - by eapply (config_apply_inj v p p0).
Qed.

(** * Preimages *)

Definition hash_domain (v : SemanticPayloadHashVersion) : bytes :=
  match v with
  | HashV1 => str "ocservia.command.semantic-hash.v1" ++ [x00]
  | HashV2 => str "ocservia.command.semantic-hash.v2" ++ [x00]
  | HashUnspecified => []
  end.

Lemma semantic_preimage_ok e v m :
  semantic_preimage e v = Ok m ->
  v <> HashUnspecified /\
  exists k b, semantic_payload e v = Ok (k, b) /\ 100 <= k <= 130
    /\ m = hash_domain v ++ env_node_id e ++ be 8 (env_expected_revision e) ++ be 4 k ++ b.
Proof.
  unfold semantic_preimage. destruct (semantic_payload e v) as [[k b]|] eqn:E; [|done].
  pose proof (semantic_payload_kind _ _ _ _ E) as (p & _ & Hk).
  destruct v; [done|..]; intros [= <-]; (split; [done|]); exists k, b;
    (split; [done|]); (split; [rewrite Hk; destruct p; simpl; lia|done]).
Qed.

(** The preimage determines the version, the node, the revision and the
    command, up to a collision of the digests of the two candidates. *)
Lemma semantic_preimage_inj e1 e2 v1 v2 m p1 p2 :
  array 16 (env_node_id e1) -> array 16 (env_node_id e2) ->
  in_u64 (env_expected_revision e1) -> in_u64 (env_expected_revision e2) ->
  env_payload e1 = Some p1 -> env_payload e2 = Some p2 -> wf_payload p1 -> wf_payload p2 ->
  semantic_preimage e1 v1 = Ok m -> semantic_preimage e2 v2 = Ok m ->
  v1 = v2 /\ env_node_id e1 = env_node_id e2 /\ env_expected_revision e1 = env_expected_revision e2
  /\ (same_command v1 p1 p2 \/ candidates_collide p1 p2).
Proof.
  intros N1 N2 R1 R2 P1 P2 W1 W2 (U1 & k1 & b1 & E1 & K1 & ->)%semantic_preimage_ok
    (U2 & k2 & b2 & E2 & K2 & E)%semantic_preimage_ok.
  assert (v1 = v2) as <-.
  { destruct v1, v2; try done; exfalso; revert E; by apply diverge_app. }
  apply app_inv_head in E. split; [done|].
  assert (in_u32 k1) by (unfold in_u32; lia). assert (in_u32 k2) by (unfold in_u32; lia).
  peel_fields E. subst. split; [done|]. split; [done|]. by eapply semantic_payload_inj.
Qed.
End Payloads.
