(* ===== verification/SignedAuthority.v ===== *)
(** End-to-end authority: what a node may conclude from a Controller
    signature.  The five signed transcripts are injective and disjoint, so
    that, when signatures are unforgeable, every accepted command, grant,
    fence and binding was signed as exactly that, and a signed command cannot
    be replayed with another payload. *)

From stdpp Require Import base list gmap numbers countable strings.
From Stdlib Require Import ZArith Lia Bool Strings.Byte.
From S2P Require Import Prelude Bytes Text Contracts ConfigProfile Authorization.
From S2P Require Import CommandAuthorization TranscriptFacts ConfigTheorems SemanticFacts.

Local Open Scope Z_scope.

(** * The signed statements *)

Inductive Statement :=
| SCommand (c : CommandAuthorizationV1)
| SSession (c : SessionGrantClaimsV1)
| SArtifact (c : ArtifactGrantClaimsV1)
| SFence (c : ConnectionFenceClaimsV2)
| SBinding (c : FenceBindingClaimsV2).

Definition statement_bytes (s : Statement) : Auth bytes :=
  match s with
  | SCommand c => canonical_v1 c
  | SSession c => canonical_session_grant_v1 c
  | SArtifact c => canonical_artifact_grant_v1 c
  | SFence c => canonical_connection_fence_v2 c
  | SBinding c => canonical_fence_binding_v2 c
  end.

Definition wf_statement (s : Statement) : Prop :=
  match s with
  | SCommand c => wf_command_claims c
  | SSession c => wf_session_claims c
  | SArtifact c => wf_artifact_claims c
  | SFence c => wf_fence_claims c
  | SBinding c => wf_binding_claims c
  end.

Definition statement_domain (s : Statement) : bytes :=
  match s with
  | SCommand _ => DOMAIN_SEPARATOR
  | SSession _ => SESSION_GRANT_DOMAIN_SEPARATOR
  | SArtifact _ => ARTIFACT_GRANT_DOMAIN_SEPARATOR
  | SFence _ => CONNECTION_FENCE_V2_DOMAIN_SEPARATOR
  | SBinding _ => FENCE_BINDING_V2_DOMAIN_SEPARATOR
  end.

#[local] Opaque be lp lps.

Lemma statement_bytes_domain s b :
  statement_bytes s = Ok b -> exists r, b = statement_domain s ++ r.
Proof.
  destruct s as [c|c|c|c|c]; simpl; intros E;
    [unfold canonical_v1 in E|unfold canonical_session_grant_v1 in E
    |unfold canonical_artifact_grant_v1 in E|unfold canonical_connection_fence_v2 in E
    |unfold canonical_fence_binding_v2 in E];
    flatten E; subst b; eexists; reflexivity.
Qed.

Lemma statement_bytes_inj s1 s2 b :
  wf_statement s1 -> wf_statement s2 ->
  statement_bytes s1 = Ok b -> statement_bytes s2 = Ok b -> s1 = s2.
Proof.
  intros W1 W2 H1 H2.
  destruct (decide (diverge (statement_domain s1) (statement_domain s2) = true)) as [D|D].
  { exfalso. apply statement_bytes_domain in H1 as [r1 ->], H2 as [r2 E].
    revert E. by apply diverge_app. }
  destruct s1, s2; simpl in D; try (exfalso; apply D; by vm_compute); simpl in *; f_equal.
  - by eapply canonical_v1_inj.
  - by eapply canonical_session_grant_v1_inj.
  - by eapply canonical_artifact_grant_v1_inj.
  - by eapply canonical_connection_fence_v2_inj.
  - by eapply canonical_fence_binding_v2_inj.
Qed.

(** C17. The bytes under a Controller signature determine what was signed: two
    statements of any of the five kinds with the same canonical bytes are the
    same statement, so that no proof of one kind verifies as another and no
    field can be moved across a boundary. *)
Theorem signed_bytes_determine_statement s1 s2 b :
  wf_statement s1 -> wf_statement s2 ->
  statement_bytes s1 = Ok b -> statement_bytes s2 = Ok b -> s1 = s2.
Proof. apply statement_bytes_inj. Qed.

Definition sample_fence : ConnectionFenceClaimsV2 :=
  mkConnectionFenceClaimsV2 1 (str "key") (be 16 1) (be 16 2) (be 32 3) (be 16 4) 5 6 (be 16 7) 8
    [str "a"; str "b"] 1010 0 1000 0 1020 0.

Definition sample_fence_bytes : bytes :=
  match canonical_connection_fence_v2 sample_fence with Ok b => b | Err _ => [] end.

Lemma sample_fence_wf : wf_fence_claims sample_fence.
Proof. split; unfold wf_time; simpl; repeat split; try done; unfold in_u32, in_u64, in_i64; simpl; lia. Qed.

Lemma signed_bytes_determine_statement_witness :
  statement_bytes (SFence sample_fence) = Ok sample_fence_bytes
  /\ SFence sample_fence = SFence sample_fence.
Proof.
  split; [by vm_compute|].
  apply (signed_bytes_determine_statement (SFence sample_fence) (SFence sample_fence)
    sample_fence_bytes); [apply sample_fence_wf|apply sample_fence_wf|by vm_compute|by vm_compute].
Defined.

Section Authority.
Context `{Crypto}.

(** Signatures are unforgeable: whatever verifies under a pinned key is the
    bytes of a statement the Controller signed. *)
Definition unforged (ring : ControllerCommandKeyring) (signed : Statement -> Prop) : Prop :=
  forall id key m s, keys ring !! id = Some key -> verify_strict key m s = true ->
    exists st, signed st /\ wf_statement st /\ statement_bytes st = Ok m.

Lemma check_signature_ok key m s u :
  check_signature key m s = Ok u -> exists sig, verify_strict key m sig = true.
Proof.
  unfold check_signature. destruct (ok_or _ _) as [sig|]; [|done].
  destruct (verify_strict key m sig) eqn:E; [|done]. eauto.
Qed.

Lemma check_signature_signed ring signed id key m s u st :
  unforged ring signed -> keys ring !! id = Some key -> check_signature key m s = Ok u ->
  wf_statement st -> statement_bytes st = Ok m -> signed st.
Proof.
  intros Hu Hk (sig & Hs)%check_signature_ok W E.
  destruct (Hu _ _ _ _ Hk Hs) as (st' & Hst & W' & E').
  by rewrite (statement_bytes_inj st st' m).
Qed.

(** * Commands *)

Lemma verify_claims_ok ring e c :
  verify_claims ring e = Ok c ->
  exists proof key m u, env_authorization e = Some proof /\ keys ring !! cap_key_id proof = Some key
    /\ claims_from_envelope_v1 e = Ok c /\ canonical_v1 c = Ok m
    /\ check_signature key m (cap_signature proof) = Ok u.
Proof.
  unfold verify_claims. intros E. invert_ok E. apply ok_or_Some in Hstep, Hstep0. subst.
  eauto 10.
Qed.

Lemma claims_of_envelope e c :
  claims_from_envelope_v1 e = Ok c ->
  cl_node_id c = env_node_id e /\ array 16 (env_node_id e)
  /\ cl_expected_revision c = env_expected_revision e
  /\ cl_semantic_hash_version c = env_semantic_payload_hash_version e
  /\ cl_semantic_payload_sha256 c = env_semantic_payload_sha256 e
  /\ cl_command_id c = env_command_id e /\ cl_idempotency_key c = env_idempotency_key e
  /\ cl_delivery_mode c = env_delivery_mode e.
Proof.
  unfold claims_from_envelope_v1. intros E. invert_ok E. project. subst c. done.
Qed.

Lemma verify_semantic_payload_hash_ok e h :
  verify_semantic_payload_hash e = Ok h ->
  exists v m,
    SemanticPayloadHashVersion_try_from (env_semantic_payload_hash_version e) = Some v
    /\ semantic_preimage e v = Ok m /\ h = sha256 m /\ h = env_semantic_payload_sha256 e.
Proof.
  unfold verify_semantic_payload_hash. intros E.
  destruct (SemanticPayloadHashVersion_try_from _) as [v|]; [|done]. simpl in E.
  exists v. unfold semantic_payload_hash_v1, semantic_payload_hash_v2, canonical_semantic_payload_hash in E.
  destruct v; [done|..]; destruct (semantic_preimage e _) as [m|] eqn:Em; try done;
    destruct (fixed 32 _ _) as [x|] eqn:Ex; try done; apply fixed_ok in Ex as [-> _];
    (destruct (bool_decide _) eqn:Eb; [done|]); apply bool_decide_eq_false, dec_stable in Eb;
    injection E as <-; by exists m.
Qed.

(** Everything [verify_command] checked. *)
Lemma verify_command_ok ring e node now c :
  verify_command ring e node now = Ok c ->
  verify_claims ring e = Ok c /\ cl_node_id c = node /\ cl_expected_revision c <> 0
  /\ (now < cl_expires_at_seconds c \/ env_delivery_mode e = 2)
  /\ cl_issued_at_seconds c <= i64_saturating_add now MAX_FUTURE_SKEW_SECONDS
  /\ exists h, verify_semantic_payload_hash e = Ok h.
Proof.
  unfold verify_command. intros E. destruct (verify_claims ring e) as [c'|] eqn:Ec; [|done].
  destruct (bool_decide _) eqn:G1 in E; [done|]. destruct (_ =? _) eqn:G2 in E; [done|].
  destruct (_ && _)%bool eqn:G3 in E; [done|]. destruct (_ >? _) eqn:G4 in E; [done|].
  destruct (verify_semantic_payload_hash e) as [h|] eqn:Eh; [|done]. injection E as <-.
  apply bool_decide_eq_false, dec_stable in G1. unfold CommandDeliveryMode_value in G3.
  split; [done|]. split; [done|]. split; [lia|]. split; [lia|]. split; [lia|eauto].
Qed.

(** The claims of an accepted command were signed, over the digest of the
    payload it arrived with. *)
Lemma verified_command_signed ring signed e node now c :
  unforged ring signed -> wf_envelope e -> verify_command ring e node now = Ok c ->
  signed (SCommand c)
  /\ exists v m,
       SemanticPayloadHashVersion_try_from (cl_semantic_hash_version c) = Some v
       /\ semantic_preimage e v = Ok m /\ cl_semantic_payload_sha256 c = sha256 m.
Proof.
  intros Hu We (Hc & _ & _ & _ & _ & h & Hh)%verify_command_ok.
  apply verify_claims_ok in Hc as (proof & key & m & u & Hp & Hk & Hcl & Hm & Hs).
  apply verify_semantic_payload_hash_ok in Hh as (v & pre & Hv & Hpre & -> & Hsha).
  pose proof (claims_of_envelope _ _ Hcl) as (_ & _ & _ & Ev & Es & _).
  split; [by eapply check_signature_signed; eauto; simpl; eauto using claims_from_envelope_wf|].
  exists v, pre. rewrite Ev, Es. done.
Qed.

(** C19. A command the node accepts was signed by the Controller as exactly
    these claims, for this node, is not yet expired unless it only
    reconciles, was not issued beyond the allowed clock skew, and carries the
    digest of the payload it arrived with. *)
Theorem verify_command_authentic ring signed e node now c :
  unforged ring signed -> wf_envelope e -> verify_command ring e node now = Ok c ->
  signed (SCommand c) /\ cl_node_id c = node /\ cl_expected_revision c <> 0
  /\ (now < cl_expires_at_seconds c \/ env_delivery_mode e = CommandDeliveryMode_value ReconcileOnly)
  /\ cl_issued_at_seconds c <= i64_saturating_add now MAX_FUTURE_SKEW_SECONDS
  /\ exists v m,
       SemanticPayloadHashVersion_try_from (cl_semantic_hash_version c) = Some v
       /\ semantic_preimage e v = Ok m /\ cl_semantic_payload_sha256 c = sha256 m.
Proof.
  intros Hu We Hv. destruct (verified_command_signed _ _ _ _ _ _ Hu We Hv) as [Hs Hh].
  apply verify_command_ok in Hv as (_ & Hn & Hr & Hx & Hi & _). done.
Qed.


(** * Fences and bindings *)

Lemma timestamp_not_expired s1 n1 s2 n2 :
  timestamp_expired s1 n1 s2 n2 = false -> s2 < s1 \/ (s2 = s1 /\ n2 < n1).
Proof. unfold timestamp_expired, pair_leb. lia. Qed.

Lemma canonical_fence_times c b :
  canonical_connection_fence_v2 c = Ok b ->
  let instant s n := s * NANOS_PER_SECOND + n in
  instant (cfc_issued_at_seconds c) (cfc_issued_at_nanos c)
    < instant (cfc_lease_until_seconds c) (cfc_lease_until_nanos c)
    <= instant (cfc_expires_at_seconds c) (cfc_expires_at_nanos c) \/
  cfc_lease_until_nanos c < 0 \/ cfc_issued_at_nanos c < 0 \/ cfc_expires_at_nanos c < 0.
Proof.
  unfold canonical_connection_fence_v2. intros E.
  destruct (_ || _)%bool eqn:G in E; [done|]. clear E.
  unfold deadline_strictly_after, deadline_not_after, NANOS_PER_SECOND in *. lia.
Qed.

Lemma verify_fence_ok ring f node endpoint s n vf :
  verify_connection_fence_v2_at ring f node endpoint s n = Ok vf ->
  exists c key m u, connection_fence_claims_v2 f = Ok c /\ keys ring !! cfc_key_id c = Some key
    /\ cfc_node_id c = node /\ cfc_endpoint_id c = endpoint
    /\ timestamp_expired (cfc_expires_at_seconds c) (cfc_expires_at_nanos c) s n = false
    /\ canonical_connection_fence_v2 c = Ok m /\ check_signature key m (cf_signature f) = Ok u
    /\ vf = mkVerifiedConnectionFenceV2 (cfc_fence_id c) (cfc_owner_instance_id c)
              (cfc_owner_incarnation c) (cfc_owner_epoch c) (cfc_connection_id c)
              (cfc_authorization_revision c) (cfc_capabilities c) (cfc_lease_until_seconds c)
              (cfc_lease_until_nanos c) (cfc_expires_at_seconds c) (cfc_expires_at_nanos c).
Proof.
  unfold verify_connection_fence_v2_at. intros E. invert_ok E. apply ok_or_Some in Hstep0.
  stable_guards.
  eexists _, _, _, _. by repeat (split; [done|]).
Qed.

Lemma verify_binding_ok ring f node endpoint s n c :
  verify_fence_binding_v2_at ring f node endpoint s n = Ok c ->
  exists key m u, fence_binding_claims_v2 f = Ok c /\ keys ring !! fbc_key_id c = Some key
    /\ fbc_node_id c = node /\ fbc_endpoint_id c = endpoint
    /\ timestamp_expired (fbc_expires_at_seconds c) (fbc_expires_at_nanos c) s n = false
    /\ canonical_fence_binding_v2 c = Ok m /\ check_signature key m (fb_signature f) = Ok u.
Proof.
  unfold verify_fence_binding_v2_at. intros E. invert_ok E. apply ok_or_Some in Hstep0. subst.
  stable_guards.
  eexists _, _, _. by repeat (split; [done|]).
Qed.

(** An operation admitted under a connection fence was bound to that very
    term by the Controller: an accepted fence and an accepted binding that
    match were both signed, for this node and endpoint, and name the same
    fence, owner, incarnation, epoch, connection and authorization revision;
    neither has expired, and the fence's lease ends after its issue and no
    later than the fence. *)
Theorem fenced_operation_authentic ring signed f b node endpoint s n vf c :
  unforged ring signed -> wf_fence f -> wf_binding b ->
  verify_connection_fence_v2_at ring f node endpoint s n = Ok vf ->
  verify_fence_binding_v2_at ring b node endpoint s n = Ok c ->
  matches_fence c vf = true ->
  exists fc, signed (SFence fc) /\ signed (SBinding c)
    /\ cfc_node_id fc = node /\ fbc_node_id c = node
    /\ cfc_endpoint_id fc = endpoint /\ fbc_endpoint_id c = endpoint
    /\ fbc_fence_id c = cfc_fence_id fc /\ fbc_owner_instance_id c = cfc_owner_instance_id fc
    /\ fbc_owner_incarnation c = cfc_owner_incarnation fc
    /\ fbc_owner_epoch c = cfc_owner_epoch fc /\ fbc_connection_id c = cfc_connection_id fc
    /\ fbc_authorization_revision c = cfc_authorization_revision fc
    /\ (s < cfc_expires_at_seconds fc \/ s = cfc_expires_at_seconds fc /\ n < cfc_expires_at_nanos fc)
    /\ (s < fbc_expires_at_seconds c \/ s = fbc_expires_at_seconds c /\ n < fbc_expires_at_nanos c)
    /\ let instant s n := s * NANOS_PER_SECOND + n in
       instant (cfc_issued_at_seconds fc) (cfc_issued_at_nanos fc)
         < instant (vcf_lease_until_seconds vf) (vcf_lease_until_nanos vf)
         <= instant (cfc_expires_at_seconds fc) (cfc_expires_at_nanos fc).
Proof.
  intros Hu Wf Wb (fc & k1 & m1 & u1 & F1 & K1 & Nf & Ef & Xf & M1 & S1 & ->)%verify_fence_ok
    (k2 & m2 & u2 & F2 & K2 & Nb & Eb & Xb & M2 & S2)%verify_binding_ok Hm.
  pose proof (connection_fence_claims_wf _ _ Wf F1) as W1.
  pose proof (fence_binding_claims_wf _ _ Wb F2) as W2.
  unfold matches_fence in Hm. simpl in Hm. split_guards.
  apply timestamp_not_expired in Xf, Xb. pose proof (canonical_fence_times _ _ M1) as T.
  exists fc.
  split; [exact (check_signature_signed _ _ _ _ _ _ _ (SFence fc) Hu K1 S1 W1 M1)|].
  split; [exact (check_signature_signed _ _ _ _ _ _ _ (SBinding c) Hu K2 S2 W2 M2)|].
  repeat (split; [first [done|lia]|]). simpl.
  destruct W1 as [_ _ _ _ _ _ _ _ _ [_ L1] [_ L2] [_ L3]]. unfold in_u32 in *. simpl in T. lia.
Qed.

(** * Session and artifact grants *)

(** A session grant the Agent accepts was signed for this node and this
    endpoint, is unexpired, and confers exactly the signed revision and
    capabilities, which are strictly sorted. *)
Theorem session_grant_authentic ring signed g node endpoint now vg :
  unforged ring signed -> wf_session_grant g ->
  verify_session_grant ring g node endpoint now = Ok vg ->
  exists c, signed (SSession c) /\ sgc_node_id c = node /\ sgc_endpoint_id c = endpoint
    /\ now < sgc_expires_at_seconds c /\ vsg_expires_at_seconds vg = sgc_expires_at_seconds c
    /\ vsg_authorization_revision vg = sgc_authorization_revision c
    /\ vsg_authorization_revision vg <> 0
    /\ vsg_negotiated_capabilities vg = sgc_negotiated_capabilities c
    /\ capabilities_invalid None (vsg_negotiated_capabilities vg) = false.
Proof.
  intros Hu W E. unfold verify_session_grant in E. invert_ok E. apply ok_or_Some in Hstep.
  stable_guards.
  subst vg. match goal with E : session_grant_claims_v1 g = Ok ?c |- _ => exists c; rename E into Ec end.
  match goal with E : canonical_session_grant_v1 _ = Ok _ |- _ => rename E into Em end.
  split.
  { eapply check_signature_signed; [done|done|done| |exact Em]. by eapply session_grant_claims_wf. }
  unfold canonical_session_grant_v1 in Em.
  destruct (_ || _)%bool eqn:G1 in Em; [done|]. split_guards.
  destruct (capabilities_invalid _ _) eqn:G2 in Em; [done|].
  repeat (split; [first [done|lia]|]). simpl. split; [lia|]. done.
Qed.

(** An artifact grant that authorizes a fetch was signed for this node,
    artifact, purpose and size and is unexpired; the read-only confirmation
    accepts the same signed grants without regard to expiry. *)
Theorem artifact_grant_authentic ring signed g node artifact purpose size now c :
  unforged ring signed -> wf_artifact_grant g ->
  verify_artifact_grant_for_confirmation ring g node artifact purpose size now = Ok c ->
  signed (SArtifact c) /\ agc_node_id c = node /\ agc_artifact_id c = artifact
  /\ agc_purpose c = purpose /\ agc_max_bytes c = size /\ 0 < size <= 64 * 1024 * 1024
  /\ verify_artifact_grant ring g node artifact purpose size now =
     (if agc_expires_at_seconds c <=? now then Err (invalid_claim "artifact_grant_expired") else Ok c).
Proof.
  intros Hu W E. unfold verify_artifact_grant_for_confirmation, verify_artifact_grant in *.
  pose proof E as E'. unfold verify_artifact_grant_inner in E. invert_ok E. subst.
  match goal with E : artifact_grant_claims_v1 g = Ok _ |- _ => rename E into Ec end.
  match goal with E : canonical_artifact_grant_v1 _ = Ok _ |- _ => rename E into Em end.
  match goal with E : check_signature _ _ _ = Ok _ |- _ => rename E into Es end.
  match goal with E : ok_or (keys ring !! _) _ = Ok _ |- _ => rename E into Ek end.
  assert (verify_artifact_grant_inner ring g node artifact purpose size now true =
    (if agc_expires_at_seconds c <=? now then Err (invalid_claim "artifact_grant_expired") else Ok c))
    as Hexp.
  { unfold verify_artifact_grant_inner. rewrite Hguard, Ek, Ec, Hguard0, Hguard1, Hguard2. simpl.
    destruct (_ <=? now); [done|]. by rewrite Hguard4, Em, Es. }
  apply ok_or_Some in Ek. split_guards.
  stabilise.
  split.
  { eapply check_signature_signed; [done|done|done| |exact Em]. by eapply artifact_grant_claims_wf. }
  unfold canonical_artifact_grant_v1 in Em. destruct (_ || _)%bool eqn:G1 in Em; [done|]. split_guards.
  pose proof (wac_max _ (artifact_grant_claims_wf _ _ W Ec)) as Hmax. unfold in_u64 in Hmax.
  repeat (split; [first [done|lia]|]). done.
Qed.

(** * The keyring *)

Definition ids (ks : list VerifyingKey) : list bytes := verification_key_id <$> ks.

Lemma insert_keys_ok ks vals vals' :
  insert_keys vals ks = Ok vals' -> (size vals <= 8)%nat ->
  NoDup (ids ks) /\ (size vals + length ks <= 8)%nat
  /\ (forall k, k ∈ ks -> vals !! verification_key_id k = None)
  /\ (forall id k, vals' !! id = Some k <->
        vals !! id = Some k \/ (k ∈ ks /\ verification_key_id k = id)).
Proof.
  revert vals. induction ks as [|k ks IH]; intros vals; simpl.
  - intros [= ->] Hs. split; [constructor|]. split; [lia|].
    split; [by intros k ?%elem_of_nil|]. intros id k. rewrite elem_of_nil. intuition.
  - intros E Hs. case_bool_decide as D; [done|]. apply eq_None_not_Some in D.
    destruct (Nat.ltb_spec 8 (size (<[verification_key_id k:=k]> vals))) as [|Hsz]; [done|].
    rewrite map_size_insert_None in Hsz by done.
    apply IH in E as (Nd & Hl & Hf & Hlook); [|by rewrite map_size_insert_None].
    rewrite map_size_insert_None in Hl by done.
    assert (forall k', k' ∈ ks ->
      verification_key_id k <> verification_key_id k' /\ vals !! verification_key_id k' = None) as Hdiff.
    { intros k' Hk'. apply Hf, lookup_insert_None in Hk'. by destruct Hk'. }
    split; [|split; [lia|split]].
    + unfold ids. simpl. apply NoDup_cons. split; [|done].
      intros (k' & Ek & Hk')%list_elem_of_fmap. by destruct (Hdiff k' Hk').
    + intros k' [->|Hk']%elem_of_cons; [done|by apply Hdiff].
    + intros id k'. rewrite Hlook, lookup_insert_Some, elem_of_cons. split.
      * intros [[[<- <-]|[_ ?]]|[? ?]]; auto.
      * intros [E|[[->|Hk'] <-]]; auto. left. right. split; [|done]. congruence.
Qed.

Lemma insert_keys_total ks vals :
  NoDup (ids ks) -> (size vals + length ks <= 8)%nat ->
  (forall k, k ∈ ks -> vals !! verification_key_id k = None) ->
  exists vals', insert_keys vals ks = Ok vals'.
Proof.
  revert vals. induction ks as [|k ks IH]; intros vals Nd Hl Hf; simpl; [eauto|].
  apply NoDup_cons in Nd as [Hk Nd]. simpl in Hl.
  assert (vals !! verification_key_id k = None) as Ek by (apply Hf, elem_of_cons; by left).
  rewrite Ek. rewrite bool_decide_false by (by intros [? ?]).
  destruct (Nat.ltb_spec 8 (size (<[verification_key_id k:=k]> vals))) as [Hs|_];
    rewrite ?map_size_insert_None in * by done; [lia|].
  apply IH; [done|rewrite map_size_insert_None by done; lia|].
  intros k' Hk'. apply lookup_insert_None. split; [apply Hf, elem_of_cons; by right|].
  intros E. apply Hk. apply list_elem_of_fmap. by exists k'.
Qed.

(** A keyring is built exactly from one to eight keys with distinct key
    identifiers, and then a key is found under an identifier exactly when it
    was given and has that identifier. *)
Theorem keyring_new_spec ks :
  ((exists ring, keyring_new ks = Ok ring) <-> (1 <= length ks <= 8)%nat /\ NoDup (ids ks)) /\
  forall ring, keyring_new ks = Ok ring ->
    forall id k, keys ring !! id = Some k <-> k ∈ ks /\ verification_key_id k = id.
Proof.
  unfold keyring_new. split.
  - split.
    + intros [ring E]. destruct (insert_keys ∅ ks) as [vals|] eqn:Ev; [|done].
      case_bool_decide as Hne; [done|]. apply insert_keys_ok in Ev as (Nd & Hl & _ & Hlook);
        [|rewrite map_size_empty; lia].
      rewrite map_size_empty in Hl. split; [|done]. split; [|lia].
      destruct ks; simpl; [|lia]. exfalso. apply Hne. apply map_eq. intros id.
      rewrite lookup_empty. apply eq_None_not_Some. intros [k Hk%Hlook].
      rewrite lookup_empty, elem_of_nil in Hk. destruct Hk as [|[]]; done.
    + intros [Hl Nd]. destruct (insert_keys_total ks ∅) as [vals Ev]; [done| |done|];
        [rewrite map_size_empty; lia|]. rewrite Ev. case_bool_decide as Hne; [|eauto].
      exfalso. apply insert_keys_ok in Ev as (_ & _ & _ & Hlook); [|rewrite map_size_empty; lia].
      destruct ks as [|k ks]; simpl in Hl; [lia|].
      assert (vals !! verification_key_id k = Some k) as E
        by (apply Hlook; right; split; [apply elem_of_cons; by left|done]).
      by rewrite Hne, lookup_empty in E.
  - intros ring E id k. destruct (insert_keys ∅ ks) as [vals|] eqn:Ev; [|done].
    case_bool_decide; [done|]. injection E as <-. simpl.
    apply insert_keys_ok in Ev as (_ & _ & _ & ->); [|rewrite map_size_empty; lia].
    rewrite lookup_empty. intuition congruence.
Qed.

(** * The framing of PKCS#12 exports *)

Definition p12_envelope (chain ciphertext : bytes) : CommandEnvelope :=
  mkCommandEnvelope [] [] [] [] (be 16 1) 0 None None 7 [] [] [] 1 2 [] [] [] [] [] [] None None None
    (Some (PCertificateP12 (mkCertificateP12 (be 16 2) chain [] [] (be 16 3)
      (Some (mkSealedSecretV1 1 2 (str "key") ciphertext)) 1 (Some (mkTimestamp 1000 0))))).

Definition p12_long_chain : bytes := repeat x41 64 ++ be 4 1 ++ be 4 2 ++ repeat x42 32.
Definition p12_short_chain : bytes := repeat x41 64.
Definition p12_short_ciphertext : bytes := repeat x43 32.
Definition p12_long_ciphertext : bytes := repeat x42 32 ++ be 4 1 ++ be 4 2 ++ repeat x43 32.

(** The semantic hash does not bind the boundary between the certificate
    chain and the sealed password of a PKCS#12 export: two valid exports with
    different chains and different ciphertexts have the same preimage. *)
Theorem p12_boundary_unbound :
  exists m,
    semantic_preimage (p12_envelope p12_long_chain p12_short_ciphertext) HashV2 = Ok m
    /\ semantic_preimage (p12_envelope p12_short_chain p12_long_ciphertext) HashV2 = Ok m
    /\ p12_long_chain <> p12_short_chain /\ p12_short_ciphertext <> p12_long_ciphertext.
Proof.
  eexists. split; [vm_compute; reflexivity|]. split; [vm_compute; reflexivity|].
  split; vm_compute; discriminate.
Qed.
End Authority.

(** * A concrete instance *)

(** A toy cryptography in which exactly the listed messages are signed: enough
    to exhibit accepted carriers. *)
Definition signing (messages : list bytes) : Crypto.
Proof.
  refine {| VerifyingKey := bytes; Signature := bytes; key_as_bytes := fun k => k;
    signature_from_slice := Some; verify_strict := fun _ m _ => bool_decide (m ∈ messages);
    sha256 := fun b => be 32 (be_value b); hex_encode := fun b => b |}.
  - intros b. apply length_be.
  - auto.
Defined.

Definition sample_envelope : CommandEnvelope :=
  mkCommandEnvelope (str "1.2") [] (be 16 1) (be 16 2) (be 16 3) 0
    (Some (mkTimestamp 1000 0)) (Some (mkTimestamp 1060 0)) 5 [] (str "operator") []
    1 2 (be 32 (be_value (str "ocservia.command.semantic-hash.v2" ++ [x00] ++ be 16 3 ++ be 8 5 ++ be 4 107)))
    (be 16 4) (str "operation.create") (str "synthetic.noop") [] []
    (Some (mkCommandAuthorizationProof 1 (str "key") [])) None None (Some PSyntheticNoop).

Definition sample_claims : CommandAuthorizationV1 :=
  match claims_from_envelope_v1 sample_envelope with
  | Ok c => c
  | Err _ => mkCommandAuthorizationV1 0 [] [] [] [] [] [] [] [] [] None None 0 0 [] 0 0 0 0 0 0
  end.

Definition sample_fence_carrier : ConnectionFenceV2 :=
  mkConnectionFenceV2 1 (str "key") (be 16 1) (be 16 2) (be 32 3) (be 16 4) 5 6 (be 16 7) 8
    [str "a"; str "b"] (Some (mkTimestamp 1010 0)) (Some (mkTimestamp 1000 0))
    (Some (mkTimestamp 1020 0)) [].

Definition sample_binding_carrier : FenceBindingV2 :=
  mkFenceBindingV2 1 (str "key") 1 (be 16 9) (be 16 1) (be 16 2) (be 32 3) (be 16 4) 5 6 (be 16 7) 8
    (str "a") (Some (mkTimestamp 1000 0)) (Some (mkTimestamp 1015 0)) [].

Definition sample_binding : FenceBindingClaimsV2 :=
  mkFenceBindingClaimsV2 1 (str "key") 1 (be 16 9) (be 16 1) (be 16 2) (be 32 3) (be 16 4) 5 6
    (be 16 7) 8 (str "a") 1000 0 1015 0.

Definition sample_session_carrier : SessionGrantV1 :=
  mkSessionGrantV1 1 (str "key") 1 2 (be 16 2) (be 32 3) 8 [str "a"; str "b"]
    (Some (mkTimestamp 1000 0)) (Some (mkTimestamp 1015 0)) [].

Definition sample_session : SessionGrantClaimsV1 :=
  mkSessionGrantClaimsV1 1 (str "key") 1 2 (be 16 2) (be 32 3) 8 [str "a"; str "b"] 1000 0 1015 0.

Definition sample_artifact_carrier : ArtifactGrantV1 :=
  mkArtifactGrantV1 1 (str "key") (be 16 2) (be 16 5) (be 16 6) 1 (be 16 7) (str "operator")
    (str "certificate_p12") 4096 (Some (mkTimestamp 1000 0)) (Some (mkTimestamp 1015 0))
    (be 16 8) [].

Definition sample_artifact : ArtifactGrantClaimsV1 :=
  mkArtifactGrantClaimsV1 1 (str "key") (be 16 2) (be 16 5) (be 16 6) 1 (be 16 7) (str "operator")
    (str "certificate_p12") 4096 1000 0 1015 0 (be 16 8).

Definition sample_statements : list Statement :=
  [SCommand sample_claims; SFence sample_fence; SBinding sample_binding; SSession sample_session;
   SArtifact sample_artifact].

Definition message_of (s : Statement) : bytes :=
  match statement_bytes s with Ok m => m | Err _ => [] end.

Definition sample_crypto : Crypto := signing (message_of <$> sample_statements).
Definition sample_ring : @ControllerCommandKeyring sample_crypto :=
  @mkKeyring sample_crypto {[ str "key" := str "pinned" ]}.

Ltac wf_sample :=
  repeat split; unfold in_u64, in_u32, in_i64, in_i32; simpl; try lia; try done.

Lemma sample_envelope_wf : wf_envelope sample_envelope.
Proof. wf_sample. Qed.

Lemma sample_statements_wf : Forall wf_statement sample_statements.
Proof.
  repeat constructor; try (by wf_sample).
  all: apply (claims_from_envelope_wf sample_envelope); [apply sample_envelope_wf|by vm_compute].
Qed.

Lemma sample_unforged :
  @unforged sample_crypto sample_ring (fun st => st ∈ sample_statements).
Proof.
  intros id key m s _ V. apply bool_decide_eq_true in V.
  apply list_elem_of_fmap in V as (st & -> & Hst). exists st. split; [done|]. split.
  - pose proof sample_statements_wf as F. rewrite Forall_forall in F. auto.
  - assert (Forall (fun st => statement_bytes st = Ok (message_of st)) sample_statements) as F
      by (repeat constructor).
    rewrite Forall_forall in F. auto.
Qed.

Lemma verify_command_authentic_witness :
  @verify_command sample_crypto sample_ring sample_envelope (be 16 3) 1001 = Ok sample_claims
  /\ SCommand sample_claims ∈ sample_statements.
Proof.
  split; [by vm_compute|].
  apply (@verify_command_authentic sample_crypto sample_ring (fun st => st ∈ sample_statements)
    sample_envelope (be 16 3) 1001 sample_claims);
    [apply sample_unforged|apply sample_envelope_wf|by vm_compute].
Defined.


Definition sample_verified_fence : VerifiedConnectionFenceV2 :=
  mkVerifiedConnectionFenceV2 (be 16 1) (be 16 4) 5 6 (be 16 7) 8 [str "a"; str "b"] 1010 0 1020 0.

Lemma fenced_operation_authentic_witness :
  exists fc, SFence fc ∈ sample_statements /\ SBinding sample_binding ∈ sample_statements
    /\ fbc_owner_epoch sample_binding = cfc_owner_epoch fc.
Proof.
  destruct (@fenced_operation_authentic sample_crypto sample_ring
    (fun st => st ∈ sample_statements) sample_fence_carrier sample_binding_carrier
    (be 16 2) (be 32 3) 1005 0 sample_verified_fence sample_binding) as (fc & H1 & H2 & H3);
    [apply sample_unforged|by wf_sample|by wf_sample|by vm_compute|by vm_compute|by vm_compute|].
  exists fc. split; [exact H1|]. split; [exact H2|]. tauto.
Defined.

Lemma session_grant_authentic_witness :
  exists c, SSession c ∈ sample_statements /\ sgc_node_id c = be 16 2.
Proof.
  destruct (@session_grant_authentic sample_crypto sample_ring
    (fun st => st ∈ sample_statements) sample_session_carrier (be 16 2) (be 32 3) 1005
    (mkVerifiedSessionGrant 8 [str "a"; str "b"] 1015)) as (c & H1 & H2 & _);
    [apply sample_unforged|by wf_sample|by vm_compute|].
  exists c. split; [exact H1|exact H2].
Defined.

Lemma artifact_grant_authentic_witness :
  SArtifact sample_artifact ∈ sample_statements
  /\ @verify_artifact_grant sample_crypto sample_ring sample_artifact_carrier (be 16 2) (be 16 5)
       (str "certificate_p12") 4096 2000 = Err (invalid_claim "artifact_grant_expired").
Proof.
  destruct (@artifact_grant_authentic sample_crypto sample_ring
    (fun st => st ∈ sample_statements) sample_artifact_carrier (be 16 2) (be 16 5)
    (str "certificate_p12") 4096 2000 sample_artifact) as (H1 & _ & _ & _ & _ & _ & H2);
    [apply sample_unforged|by wf_sample|by vm_compute|].
  split; [exact H1|exact H2].
Defined.
