(* ===== verification/Sql.v ===== *)
(** The SQLite connection as the Rust code uses it ([rusqlite]): a database
    value, statements that may fail, and transactions that roll back unless
    they commit.

    Every statement consults a fault schedule, the list of outcomes of the
    statements still to run: [true] makes the statement fail with
    [SqliteFailure] before it has any effect (a busy, full or failing disk),
    and an exhausted schedule means that no further failure happens.  A
    theorem for all schedules is therefore a theorem for a failure at every
    statement, [BEGIN] and [COMMIT] included. *)

From stdpp Require Import base list numbers.
From Stdlib Require Import ZArith Lia Bool.
From S2P Require Import Prelude.

(** The errors of [rusqlite::Error] that the code produces or tells apart. *)
Inductive SqlError :=
| InvalidQuery
| QueryReturnedNoRows
| FromSqlConversionFailure
| ConstraintViolation
| SqliteFailure.

#[export] Instance SqlError_eq_dec : EqDecision SqlError.
Proof. solve_decision. Defined.

Record Conn (D : Type) := mkConn { conn_db : D; conn_faults : list bool }.
Arguments mkConn {D} _ _.
Arguments conn_db {D} _.
Arguments conn_faults {D} _.

(** A computation over a connection that may fail with an error of [E]:
    rusqlite's own methods fail with [SqlError], the components built on them
    with their own error types. *)
Definition Run (D E A : Type) : Type := Conn D -> result E A * Conn D.

Abbreviation Sql D := (Run D SqlError).

Declare Scope sql_scope.
Delimit Scope sql_scope with sql.

Section Operations.
Context {D E : Type}.

Definition ret {A} (a : A) : Run D E A := fun c => (Ok a, c).

Definition throw {A} (e : E) : Run D E A := fun c => (Err e, c).

Definition bind {A B} (m : Run D E A) (k : A -> Run D E B) : Run D E B :=
  fun c =>
    match m c with
    | (Ok a, c') => k a c'
    | (Err e, c') => (Err e, c')
    end.

(** [?] on a plain result. *)
Definition lift {A} (r : result E A) : Run D E A := fun c => (r, c).

(** [map_err(inj)] on a database call. *)
Definition sql {A} (inj : SqlError -> E) (m : Sql D A) : Run D E A :=
  fun c => let '(r, c') := m c in (map_err inj r, c').

(** One statement: it fails before any effect when the schedule says so, or
    when its own evaluation fails (a violated constraint). *)
Definition stmt {A} (f : D -> result SqlError (A * D)) : Sql D A :=
  fun c =>
    match conn_faults c with
    | true :: rest => (Err SqliteFailure, mkConn (conn_db c) rest)
    | faults =>
        let c' := mkConn (conn_db c) (tail faults) in
        match f (conn_db c) with
        | Ok (a, d) => (Ok a, mkConn d (conn_faults c'))
        | Err e => (Err e, c')
        end
    end.

(** A query changes nothing. *)
Definition query {A} (f : D -> result SqlError A) : Sql D A :=
  stmt (fun d => match f d with Ok a => Ok (a, d) | Err e => Err e end).

(** [BEGIN], the body, [COMMIT]; dropping an uncommitted transaction rolls
    back, whether the body returned an error or [COMMIT] failed. *)
Definition transaction_with {A} (inj : SqlError -> E) (body : Run D E A) : Run D E A :=
  fun c =>
    match stmt (fun d => Ok (tt, d)) c with
    | (Err e, c') => (Err (inj e), c')
    | (Ok _, c') =>
        match bind body (fun a => bind (sql inj (stmt (fun d => Ok (tt, d)))) (fun _ => ret a)) c' with
        | (Ok a, c'') => (Ok a, c'')
        | (Err e, c'') => (Err e, mkConn (conn_db c) (conn_faults c''))
        end
    end.

End Operations.

(** A transaction whose errors are rusqlite's own. *)
Abbreviation transaction := (transaction_with (fun e : SqlError => e)).

Notation "x <- m ;; k" := (bind m (fun x => k))
  (at level 100, m at next level, right associativity) : sql_scope.
Notation "m ;;; k" := (bind m (fun _ => k))
  (at level 100, right associativity) : sql_scope.

(** * Atomicity *)

Lemma transaction_rollback {D X A} inj (m : Run D X A) c e c' :
  transaction_with inj m c = (Err e, c') -> conn_db c' = conn_db c.
Proof.
  unfold transaction_with, stmt.
  destruct (conn_faults c) as [|[] rest]; simpl; try (by intros [= _ <-]);
    destruct (bind m _ _) as [[a|e'] c'']; by intros [= _ <-].
Qed.

(** A transaction that returned [Ok] ran its body on the database it began
    with and published exactly the body's database. *)
Lemma transaction_commit {D X A} inj (m : Run D X A) c a c' :
  transaction_with inj m c = (Ok a, c') ->
  exists faults c2, m (mkConn (conn_db c) faults) = (Ok a, c2) /\ conn_db c' = conn_db c2.
Proof.
  assert (forall c1, match bind m (fun b => bind (sql inj (stmt (fun d => Ok (tt, d)))) (fun _ => ret b)) c1 with
      | (Ok b, c'') => (Ok b, c'')
      | (Err e, c'') => (Err e, mkConn (conn_db c) (conn_faults c''))
      end = (Ok a, c') ->
    exists c2, m c1 = (Ok a, c2) /\ conn_db c' = conn_db c2) as Hbody.
  { intros c1. unfold bind, sql, stmt, ret.
    destruct (m c1) as [[b|e] c2]; [|done].
    destruct (conn_faults c2) as [|[|] r2]; simpl; intros [= <- <-]; by exists c2. }
  unfold transaction_with. unfold stmt at 1.
  destruct (conn_faults c) as [|[|] rest]; simpl; intros H; try done;
    apply Hbody in H as (c2 & H & E); by eexists _, c2.
Qed.

(** * Successful runs, step by step *)

Lemma stmt_ok {D A} (f : D -> result SqlError (A * D)) c a c' :
  stmt f c = (Ok a, c') -> f (conn_db c) = Ok (a, conn_db c').
Proof.
  unfold stmt. destruct (conn_faults c) as [|[|] rest]; simpl; try done;
    destruct (f (conn_db c)) as [[b d]|]; try done; by intros [= <- <-].
Qed.

Lemma query_ok {D A} (f : D -> result SqlError A) c a c' :
  query f c = (Ok a, c') -> f (conn_db c) = Ok a /\ conn_db c' = conn_db c.
Proof.
  unfold query. intros H%stmt_ok. destruct (f (conn_db c)); [|done]. by injection H as <- <-.
Qed.

Lemma bind_ok {D X A B} (m : Run D X A) (k : A -> Run D X B) c b c' :
  bind m k c = (Ok b, c') -> exists a c1, m c = (Ok a, c1) /\ k a c1 = (Ok b, c').
Proof. unfold bind. destruct (m c) as [[a|e] c1]; [|done]. eauto. Qed.

Lemma ret_ok {D X A} (x : A) (c : Conn D) a c' : ret (E := X) x c = (Ok a, c') -> a = x /\ c' = c.
Proof. by intros [= <- <-]. Qed.

Lemma lift_ok {D X A} (r : result X A) (c : Conn D) a c' :
  lift r c = (Ok a, c') -> r = Ok a /\ c' = c.
Proof. by intros [= -> ->]. Qed.

Lemma sql_ok {D X A} (inj : SqlError -> X) (m : Sql D A) c a c' :
  sql inj m c = (Ok a, c') -> m c = (Ok a, c').
Proof. unfold sql. destruct (m c) as [[b|e] c1]; simpl; [|done]. by intros [= <- <-]. Qed.

(** [invert_sql H] unfolds a successful run into its successful steps. *)
Ltac invert_sql H :=
  cbn beta iota zeta in H;
  lazymatch type of H with
  | bind _ _ _ = (Ok _, _) =>
      let a := fresh "a" in let c := fresh "c" in
      let H1 := fresh "Hrun" in let H2 := fresh "Hrun" in
      apply bind_ok in H as (a & c & H1 & H2); invert_sql H1; invert_sql H2
  | sql _ _ _ = (Ok _, _) => apply sql_ok in H; invert_sql H
  | query _ _ = (Ok _, _) =>
      let H2 := fresh "Hdb" in apply query_ok in H as [H H2]
  | stmt _ _ = (Ok _, _) => apply stmt_ok in H
  | ret _ _ = (Ok _, _) =>
      let H2 := fresh "Hconn" in apply ret_ok in H as [H H2]
  | lift _ _ = (Ok _, _) =>
      let H2 := fresh "Hconn" in apply lift_ok in H as [H H2]
  | throw _ _ = (Ok _, _) => discriminate H
  | (if ?b then _ else _) _ = (Ok _, _) =>
      let E := fresh "Hguard" in destruct b eqn:E; invert_sql H
  | match ?x with _ => _ end _ = (Ok _, _) =>
      let E := fresh "Hcase" in destruct x eqn:E; invert_sql H
  | _ => idtac
  end.

(** * Evolution

    [evolves R m] says that every run of [m], with any fault schedule and any
    outcome, moves the database along the preorder [R].  Invariants and
    monotonicity statements are both of this form. *)

Section Evolution.
Context {D : Type} (R : D -> D -> Prop) `{!PreOrder R}.

Definition evolves {X A} (m : Run D X A) : Prop :=
  forall c, R (conn_db c) (conn_db (snd (m c))).

Lemma evolves_ret {X A} (a : A) : evolves (ret (E := X) a).
Proof. intros c. reflexivity. Qed.

Lemma evolves_throw {X A} (e : X) : evolves (throw (A := A) e).
Proof. intros c. reflexivity. Qed.

Lemma evolves_lift {X A} (r : result X A) : evolves (lift r).
Proof. intros c. reflexivity. Qed.

Lemma evolves_bind {X A B} (m : Run D X A) (k : A -> Run D X B) :
  evolves m -> (forall a, evolves (k a)) -> evolves (bind m k).
Proof.
  intros Hm Hk c. unfold bind. pose proof (Hm c) as H.
  destruct (m c) as [[a|e] c']; simpl in *; [|done].
  etransitivity; [exact H|apply Hk].
Qed.

Lemma evolves_stmt {A} (f : D -> result SqlError (A * D)) :
  (forall d a d', f d = Ok (a, d') -> R d d') -> evolves (stmt f).
Proof.
  intros Hf c. unfold stmt.
  destruct (conn_faults c) as [|[] rest]; simpl; try reflexivity;
    destruct (f (conn_db c)) as [[a d]|e] eqn:E; simpl; try reflexivity; eauto.
Qed.

Lemma evolves_query {A} (f : D -> result SqlError A) : evolves (query f).
Proof.
  apply evolves_stmt. intros d a d' E.
  destruct (f d); [|done]. injection E as _ <-. reflexivity.
Qed.


(** The weaker form about successful runs only; it is all a transaction
    needs, because a failed body is rolled back. *)
Definition evolves_ok {X A} (m : Run D X A) : Prop :=
  forall c a c', m c = (Ok a, c') -> R (conn_db c) (conn_db c').

Lemma evolves_ok_of {X A} (m : Run D X A) : evolves m -> evolves_ok m.
Proof. intros H c a c' E. specialize (H c). by rewrite E in H. Qed.

Lemma evolves_ok_bind {X A B} (m : Run D X A) (k : A -> Run D X B) :
  evolves_ok m -> (forall a, evolves_ok (k a)) -> evolves_ok (bind m k).
Proof.
  intros Hm Hk c b c'. unfold bind.
  destruct (m c) as [[a|e] c1] eqn:E; [|done]. intros H.
  etransitivity; [by eapply Hm|by eapply Hk].
Qed.

Lemma evolves_sql {X A} (inj : SqlError -> X) (m : Sql D A) :
  evolves m -> evolves (sql inj m).
Proof. intros Hm c. specialize (Hm c). unfold sql. by destruct (m c). Qed.

Lemma evolves_transaction_ok {X A} (inj : SqlError -> X) (m : Run D X A) :
  evolves_ok m -> evolves (transaction_with inj m).
Proof.
  intros Hm c. destruct (transaction_with inj m c) as [[a|e] c'] eqn:E; simpl.
  - apply transaction_commit in E as (faults & c2 & E & ->). by apply Hm in E.
  - by rewrite (transaction_rollback _ _ _ _ _ E).
Qed.
End Evolution.

(** An invariant is preserved when runs move along "the invariant carries
    over". *)
Definition carries {D} (I : D -> Prop) (d d' : D) : Prop := I d -> I d'.

#[export] Instance carries_preorder {D} (I : D -> Prop) : PreOrder (carries I).
Proof. split; unfold carries; [intros d; auto|intros d1 d2 d3; auto]. Qed.


(** [evolve] splits a computation along its binds, matches and conditionals
    and leaves its statements. *)
Ltac evolve :=
  repeat
    lazymatch goal with
    | |- evolves _ (ret _) => apply evolves_ret; apply _
    | |- evolves _ (throw _) => apply evolves_throw; apply _
    | |- evolves _ (lift _) => apply evolves_lift; apply _
    | |- evolves _ (query _) => apply evolves_query; apply _
    | |- evolves _ (sql _ _) => apply evolves_sql
    | |- evolves _ (transaction_with _ _) => apply evolves_transaction_ok; [apply _|]
    | |- evolves _ (bind _ _) => apply evolves_bind; [apply _| |intros ?]
    | |- evolves_ok _ (bind _ _) => apply evolves_ok_bind; [apply _| |intros ?]
    | |- evolves_ok _ (if ?b then _ else _) => destruct b eqn:?
    | |- evolves_ok _ (match ?x with _ => _ end) => destruct x eqn:?
    | |- evolves_ok _ (ret _) => apply evolves_ok_of
    | |- evolves_ok _ (throw _) => apply evolves_ok_of
    | |- evolves_ok _ (lift _) => apply evolves_ok_of
    | |- evolves_ok _ (sql _ _) => apply evolves_ok_of
    | |- evolves_ok _ (query _) => apply evolves_ok_of
    | |- evolves_ok _ (stmt _) => apply evolves_ok_of
    | |- evolves _ (if ?b then _ else _) => destruct b eqn:?
    | |- evolves _ (match ?x with _ => _ end) => destruct x eqn:?
    end.

(** * Fault-free runs *)

Definition exec {D X A} (m : Run D X A) (d : D) : result X A * D :=
  let '(r, c) := m (mkConn d []) in (r, conn_db c).

(** Fault-free runs never acquire faults. *)
Definition faultless {D X A} (m : Run D X A) : Prop :=
  forall d, conn_faults (snd (m (mkConn d []))) = [].

Lemma exec_ret {D X A} (a : A) (d : D) : exec (ret (E := X) a) d = (Ok a, d).
Proof. reflexivity. Qed.

Lemma exec_throw {D X A} (e : X) (d : D) : exec (throw (A := A) e) d = (Err e, d).
Proof. reflexivity. Qed.

Lemma exec_lift {D X A} (r : result X A) (d : D) : exec (lift r) d = (r, d).
Proof. reflexivity. Qed.

Lemma exec_stmt {D A} (f : D -> result SqlError (A * D)) d :
  exec (stmt f) d = match f d with Ok (a, d') => (Ok a, d') | Err e => (Err e, d) end.
Proof. unfold exec, stmt; simpl. by destruct (f d) as [[a d']|e]. Qed.

Lemma exec_query {D A} (f : D -> result SqlError A) d : exec (query f) d = (f d, d).
Proof. unfold query. rewrite exec_stmt. by destruct (f d). Qed.

(** The class of computations built from the operations above. *)
Class Faultless {D X A} (m : Run D X A) : Prop := is_faultless : faultless m.

#[export] Instance faultless_ret {D X A} (a : A) : Faultless (ret (D := D) (E := X) a).
Proof. done. Qed.
#[export] Instance faultless_throw {D X A} (e : X) : Faultless (throw (D := D) (A := A) e).
Proof. done. Qed.
#[export] Instance faultless_lift {D X A} (r : result X A) : Faultless (lift (D := D) r).
Proof. done. Qed.
#[export] Instance faultless_stmt {D A} (f : D -> result SqlError (A * D)) : Faultless (stmt f).
Proof. intros d. unfold stmt; simpl. by destruct (f d) as [[a d']|e]. Qed.
#[export] Instance faultless_query {D A} (f : D -> result SqlError A) : Faultless (query f).
Proof. apply _. Qed.

#[export] Instance faultless_bind {D X A B} (m : Run D X A) (k : A -> Run D X B) :
  Faultless m -> (forall a, Faultless (k a)) -> Faultless (bind m k).
Proof.
  intros Hm Hk d. unfold bind. pose proof (Hm d) as H.
  destruct (m (mkConn d [])) as [[a|e] [d' f']]; simpl in *; subst; [apply Hk|done].
Qed.

#[export] Instance faultless_sql {D X A} (inj : SqlError -> X) (m : Sql D A) :
  Faultless m -> Faultless (sql inj m).
Proof. intros Hm d. specialize (Hm d). unfold sql. by destruct (m (mkConn d [])). Qed.

#[export] Instance faultless_transaction {D X A} inj (m : Run D X A) :
  Faultless m -> Faultless (transaction_with inj m).
Proof.
  intros Hm d. unfold transaction_with; simpl.
  pose proof (faultless_bind m (fun a => bind (sql inj (stmt (fun d => Ok (tt, d)))) (fun _ => ret a))
    Hm ltac:(apply _) d) as H.
  destruct (bind m _ _) as [[a|e] c]; done.
Qed.

Lemma exec_bind {D X A B} (m : Run D X A) (k : A -> Run D X B) d `{!Faultless m} :
  exec (bind m k) d =
  match exec m d with
  | (Ok a, d') => exec (k a) d'
  | (Err e, d') => (Err e, d')
  end.
Proof.
  unfold exec, bind. pose proof (is_faultless (m := m) d) as H.
  destruct (m (mkConn d [])) as [[a|e] [d' f']]; simpl in *; subst; done.
Qed.

Lemma exec_sql {D X A} (inj : SqlError -> X) (m : Sql D A) d :
  exec (sql inj m) d = (map_err inj (fst (exec m d)), snd (exec m d)).
Proof. unfold exec, sql. by destruct (m (mkConn d [])). Qed.

Lemma exec_transaction {D X A} inj (m : Run D X A) d `{!Faultless m} :
  exec (transaction_with inj m) d =
  match exec m d with
  | (Ok a, d') => (Ok a, d')
  | (Err e, _) => (Err e, d)
  end.
Proof.
  unfold exec, transaction_with, bind; simpl. pose proof (is_faultless (m := m) d) as H.
  destruct (m (mkConn d [])) as [[a|e] [d' f']]; simpl in *; subst; done.
Qed.

(** Conditionals and matches are split. *)
#[export] Hint Extern 5 (Faultless (match ?x with _ => _ end)) => destruct x : typeclass_instances.

(** [run_sql] evaluates a fault-free run one operation at a time. *)
Ltac run_sql :=
  repeat
    first
      [ rewrite exec_ret | rewrite exec_throw | rewrite exec_lift | rewrite exec_query
      | rewrite exec_stmt | rewrite exec_sql | rewrite exec_bind by apply _
      | rewrite exec_transaction by apply _ ]; simpl.
