(* ===== verification/Journal.v ===== *)
(** The Agent's durable state, [rust/crates/command-journal/src/lib.rs]: the
    SQLite tables as finite maps with their [CHECK] constraints, one definition
    per SQL statement shape, and one definition per method of [Journal].

    A row keeps its columns as SQLite stores them (the state column is text),
    and [query_command] decodes them as the Rust code does, so that decoding
    failures are visible.  [length()] of a text column counts characters up to
    the first NUL, as in SQLite. *)

From stdpp Require Import base list gmap numbers countable strings sorting.
From Stdlib Require Import ZArith Lia Bool Strings.Byte.
From S2P Require Import Prelude Bytes Sql.

Local Open Scope Z_scope.
Local Open Scope sql_scope.

Definition OFFLINE_RECOVERY_RETENTION_SECONDS : Z := 300.
Definition OWNER_FENCE_EPOCH_FLOOR_KEY : bytes := str "owner_fence_epoch_floor".

(** * Command states *)

Inductive CommandState := Accepted | Running | Succeeded | Failed | Unknown.

#[export] Instance CommandState_eq_dec : EqDecision CommandState.
Proof. solve_decision. Defined.

Definition as_str (s : CommandState) : bytes :=
  match s with
  | Accepted => str "accepted"
  | Running => str "running"
  | Succeeded => str "succeeded"
  | Failed => str "failed"
  | Unknown => str "unknown"
  end.

Definition CommandState_parse (value : bytes) : result SqlError CommandState :=
  if bool_decide (value = str "accepted") then Ok Accepted
  else if bool_decide (value = str "running") then Ok Running
  else if bool_decide (value = str "succeeded") then Ok Succeeded
  else if bool_decide (value = str "failed") then Ok Failed
  else if bool_decide (value = str "unknown") then Ok Unknown
  else Err InvalidQuery.

(** * Rows and tables *)

Record CommandRow := mkCommandRow {
  row_idempotency_key : bytes; row_command_id : bytes; row_payload_sha256 : bytes;
  row_payload_hash_version : Z; row_state : bytes; row_result : option bytes;
  row_error_code : option bytes; row_privileged_result_proof : option bytes;
  row_accepted_at : Z; row_updated_at : Z }.

Record CommandRecord := mkCommandRecord {
  rec_idempotency_key : bytes; rec_command_id : bytes; rec_payload_sha256 : bytes;
  rec_payload_hash_version : Z; rec_state : CommandState; rec_result : option bytes;
  rec_error_code : option bytes; rec_privileged_result_proof : option bytes;
  rec_accepted_at : Z; rec_updated_at : Z }.

Inductive AcceptOutcome :=
| OutcomeAccepted (record : CommandRecord)
| OutcomeReplay (record : CommandRecord)
| OutcomePayloadConflict (record : CommandRecord)
| OutcomeIdentityConflict (record : CommandRecord).

Record SyntheticEffect := mkSyntheticEffect {
  eff_payload_sha256 : bytes; eff_result : bytes; eff_executed_at : Z }.

Record TelemetryRow := mkTelemetryRow {
  tel_batch_id : bytes; tel_priority : Z; tel_observed_at : Z; tel_expires_at : Z;
  tel_payload : bytes }.

#[export] Instance TelemetryRow_eq_dec : EqDecision TelemetryRow.
Proof. solve_decision. Defined.

Record AppliedResourceRevision := mkAppliedResourceRevision {
  res_type : bytes; res_key : bytes; res_revision : Z }.

(** The database.  [db_executions] is the single row of
    [synthetic_effect_counter]; the telemetry buffer is kept as the list of its
    rows, the order of which no statement depends on. *)
Record Db := mkDb {
  db_metadata : gmap bytes bytes;
  db_commands : gmap bytes CommandRow;
  db_effects : gmap bytes SyntheticEffect;
  db_executions : Z;
  db_telemetry : list TelemetryRow;
  db_drops : gmap Z Z;
  db_revisions : gmap (bytes * bytes) (Z * Z) }.

Definition set_metadata (m : gmap bytes bytes) (d : Db) : Db :=
  mkDb m (db_commands d) (db_effects d) (db_executions d) (db_telemetry d) (db_drops d)
    (db_revisions d).
Definition set_commands (m : gmap bytes CommandRow) (d : Db) : Db :=
  mkDb (db_metadata d) m (db_effects d) (db_executions d) (db_telemetry d) (db_drops d)
    (db_revisions d).
Definition set_effects (m : gmap bytes SyntheticEffect) (d : Db) : Db :=
  mkDb (db_metadata d) (db_commands d) m (db_executions d) (db_telemetry d) (db_drops d)
    (db_revisions d).
Definition set_executions (n : Z) (d : Db) : Db :=
  mkDb (db_metadata d) (db_commands d) (db_effects d) n (db_telemetry d) (db_drops d)
    (db_revisions d).
Definition set_telemetry (l : list TelemetryRow) (d : Db) : Db :=
  mkDb (db_metadata d) (db_commands d) (db_effects d) (db_executions d) l (db_drops d)
    (db_revisions d).
Definition set_drops (m : gmap Z Z) (d : Db) : Db :=
  mkDb (db_metadata d) (db_commands d) (db_effects d) (db_executions d) (db_telemetry d) m
    (db_revisions d).
Definition set_revisions (m : gmap (bytes * bytes) (Z * Z)) (d : Db) : Db :=
  mkDb (db_metadata d) (db_commands d) (db_effects d) (db_executions d) (db_telemetry d)
    (db_drops d) m.

(** The tables [Journal::open] creates in a new file. *)
Definition empty_db : Db := mkDb ∅ ∅ ∅ 0 [] ∅ ∅.

(** * Table constraints ([Journal::open]) *)

(** SQLite's [length()] of a text value: characters before the first NUL;
    UTF-8 continuation bytes do not start a character. *)
Fixpoint text_length (b : bytes) : Z :=
  match b with
  | [] => 0
  | c :: r =>
      if bool_decide (c = x00) then 0
      else (if (128 <=? byte_val c) && (byte_val c <? 192) then 0 else 1) + text_length r
  end.

Definition between (lo v hi : Z) : bool := (lo <=? v) && (v <=? hi).

Definition opt_all {A} (f : A -> bool) (o : option A) : bool :=
  match o with Some a => f a | None => true end.

Definition metadata_check (key value : bytes) : bool :=
  between 1 (text_length key) 64 && (len value <=? 1048576).

Definition known_state (s : bytes) : bool :=
  is_ok (CommandState_parse s).

Definition command_check (r : CommandRow) : bool :=
  (0 <=? row_payload_hash_version r)
  && known_state (row_state r)
  && opt_all (fun c => between 1 (text_length c) 128) (row_error_code r)
  && opt_all (fun p => between 1 (len p) 65536) (row_privileged_result_proof r)
  && (len (row_idempotency_key r) =? 16)
  && (len (row_command_id r) =? 16)
  && (len (row_payload_sha256 r) =? 32)
  && opt_all (fun v => len v <=? 1048576) (row_result r).

Definition effect_check (key : bytes) (e : SyntheticEffect) : bool :=
  (len key =? 16) && (len (eff_payload_sha256 e) =? 32) && (len (eff_result e) <=? 1048576).

Definition telemetry_check (r : TelemetryRow) : bool :=
  between 1 (tel_priority r) 4
  && (len (tel_batch_id r) =? 16)
  && between 1 (len (tel_payload r)) 524288
  && (tel_observed_at r <? tel_expires_at r).

Definition known_resource_type (t : bytes) : bool :=
  bool_decide (t = str "user") || bool_decide (t = str "group")
  || bool_decide (t = str "config").

Definition revision_check (rtype rkey : bytes) (revision : Z) : bool :=
  known_resource_type rtype && between 1 (text_length rkey) 64 && (0 <? revision).

(** * Statements *)

(** [INSERT INTO command_journal]: the primary key, the unique index on
    [command_id] and the checks. *)
Definition insert_command (r : CommandRow) (d : Db) : result SqlError (unit * Db) :=
  if bool_decide (is_Some (db_commands d !! row_idempotency_key r))
     || existsb (fun kr => bool_decide (row_command_id (snd kr) = row_command_id r))
          (map_to_list (db_commands d))
     || negb (command_check r)
  then Err ConstraintViolation
  else Ok (tt, set_commands (<[row_idempotency_key r := r]> (db_commands d)) d).

(** [UPDATE command_journal SET .. WHERE idempotency_key=? AND ..], returning
    the number of changed rows. *)
Definition update_command (key : bytes) (where_ : CommandRow -> bool)
    (set_ : CommandRow -> CommandRow) (d : Db) : result SqlError (Z * Db) :=
  match db_commands d !! key with
  | Some r =>
      if where_ r then
        if command_check (set_ r)
        then Ok (1, set_commands (<[key := set_ r]> (db_commands d)) d)
        else Err ConstraintViolation
      else Ok (0, d)
  | None => Ok (0, d)
  end.

(** [state=?2, result=?3, error_code=?4, updated_at=?5], leaving the proof. *)
Definition set_outcome (state : bytes) (result : option bytes) (code : option bytes) (now : Z)
    (r : CommandRow) : CommandRow :=
  mkCommandRow (row_idempotency_key r) (row_command_id r) (row_payload_sha256 r)
    (row_payload_hash_version r) state result code (row_privileged_result_proof r)
    (row_accepted_at r) now.

(** The same with [privileged_result_proof]. *)
Definition set_outcome_attested (state : bytes) (result : option bytes) (code : option bytes)
    (proof : bytes) (now : Z) (r : CommandRow) : CommandRow :=
  mkCommandRow (row_idempotency_key r) (row_command_id r) (row_payload_sha256 r)
    (row_payload_hash_version r) state result code (Some proof)
    (row_accepted_at r) now.

(** [INSERT INTO applied_resource_revisions .. ON CONFLICT DO UPDATE .. WHERE
    excluded.revision >= applied_resource_revisions.revision] *)
Definition upsert_revision (rtype rkey : bytes) (revision now : Z) (d : Db)
    : result SqlError (unit * Db) :=
  if negb (revision_check rtype rkey revision) then Err ConstraintViolation
  else
    match db_revisions d !! (rtype, rkey) with
    | Some (stored, _) =>
        if stored <=? revision
        then Ok (tt, set_revisions (<[(rtype, rkey) := (revision, now)]> (db_revisions d)) d)
        else Ok (tt, d)
    | None => Ok (tt, set_revisions (<[(rtype, rkey) := (revision, now)]> (db_revisions d)) d)
    end.

Definition insert_effect (key : bytes) (e : SyntheticEffect) (d : Db)
    : result SqlError (unit * Db) :=
  if bool_decide (is_Some (db_effects d !! key)) || negb (effect_check key e)
  then Err ConstraintViolation
  else Ok (tt, set_effects (<[key := e]> (db_effects d)) d).

(** [executions=executions+1]: SQLite turns an overflowing integer sum into a
    real, which a [STRICT] integer column refuses. *)
Definition count_execution (d : Db) : result SqlError (unit * Db) :=
  if db_executions d + 1 >? i64_max then Err ConstraintViolation
  else Ok (tt, set_executions (db_executions d + 1) d).

Definition upsert_metadata (key value : bytes) (d : Db) : result SqlError (unit * Db) :=
  if negb (metadata_check key value) then Err ConstraintViolation
  else Ok (tt, set_metadata (<[key := value]> (db_metadata d)) d).

(** * Queries *)

(** [fixed_blob::<N>] *)
Definition fixed_blob (n : nat) (value : bytes) : result SqlError bytes :=
  if bool_decide (length value = n) then Ok value else Err InvalidQuery.

(** The column decoding shared by [query_command] and [query_command_by_id]. *)
Definition decode_row (r : CommandRow) : result SqlError CommandRecord :=
  let? key := fixed_blob 16 (row_idempotency_key r) in
  let? command_id := fixed_blob 16 (row_command_id r) in
  let? payload_sha256 := fixed_blob 32 (row_payload_sha256 r) in
  if negb (bool_decide (in_i32 (row_payload_hash_version r))) then Err FromSqlConversionFailure
  else
  let? state := CommandState_parse (row_state r) in
  Ok (mkCommandRecord key command_id payload_sha256 (row_payload_hash_version r) state
        (row_result r) (row_error_code r) (row_privileged_result_proof r)
        (row_accepted_at r) (row_updated_at r)).

Definition decode_opt (o : option CommandRow) : result SqlError (option CommandRecord) :=
  match o with
  | None => Ok None
  | Some r => let? x := decode_row r in Ok (Some x)
  end.

Definition find_command (id : bytes) (d : Db) : option CommandRow :=
  snd <$> List.find (fun kr => bool_decide (row_command_id (snd kr) = id))
            (map_to_list (db_commands d)).

Definition query_command (key : bytes) : Sql Db (option CommandRecord) :=
  query (fun d => decode_opt (db_commands d !! key)).

Definition query_command_by_id (id : bytes) : Sql Db (option CommandRecord) :=
  query (fun d => decode_opt (find_command id d)).

Definition query_effect (key : bytes) : Sql Db (option SyntheticEffect) :=
  query (fun d =>
    match db_effects d !! key with
    | None => Ok None
    | Some e =>
        let? sha := fixed_blob 32 (eff_payload_sha256 e) in
        Ok (Some (mkSyntheticEffect sha (eff_result e) (eff_executed_at e)))
    end).

(** * Session grant evidence and authority binding *)

Definition record_verified_session_grant (grant : bytes) : Sql Db unit :=
  if is_empty grant || (len grant >? 65536) then throw InvalidQuery
  else stmt (upsert_metadata (str "verified_session_grant") grant).

Definition bind_authority (node controller : bytes) : Sql Db unit :=
  let binding := node ++ controller in
  transaction (
    stored <- query (fun d => Ok (db_metadata d !! str "controller_binding")) ;;
    match stored with
    | Some stored => if bool_decide (stored <> binding) then throw InvalidQuery else ret tt
    | None =>
        occupied <- query (fun d => Ok
          (negb (is_empty (map_to_list (db_commands d)))
           || negb (is_empty (map_to_list (db_metadata d)))
           || negb (is_empty (map_to_list (db_revisions d)))
           || negb (is_empty (map_to_list (db_effects d))))) ;;
        if occupied : bool then throw InvalidQuery
        else stmt (fun d =>
          if bool_decide (is_Some (db_metadata d !! str "controller_binding"))
          then Err ConstraintViolation
          else upsert_metadata (str "controller_binding") binding d)
    end).

(** [reject_retired_binding], run by [open]. *)
Definition reject_retired_binding : Sql Db unit :=
  retired <- query (fun d => Ok (bool_decide (is_Some (db_metadata d !! str "retired_binding")))) ;;
  if retired : bool then throw InvalidQuery else ret tt.

(** * Command journal *)

Definition accept_command (idempotency_key command_id payload_sha256 : bytes)
    (payload_hash_version now : Z) : Sql Db AcceptOutcome :=
  transaction (
    by_key <- query_command idempotency_key ;;
    by_command <- query_command_by_id command_id ;;
    match by_key, by_command with
    | None, None =>
        stmt (insert_command
          (mkCommandRow idempotency_key command_id payload_sha256 payload_hash_version
             (str "accepted") None None None now now)) ;;;
        inserted <- query_command idempotency_key ;;
        record <- lift (ok_or inserted QueryReturnedNoRows) ;;
        ret (OutcomeAccepted record)
    | Some by_key, Some by_command =>
        if bool_decide (rec_idempotency_key by_key = rec_idempotency_key by_command)
           && bool_decide (rec_command_id by_key = command_id)
        then
          if bool_decide (rec_payload_sha256 by_key = payload_sha256)
             && bool_decide (rec_payload_hash_version by_key = payload_hash_version)
          then ret (OutcomeReplay by_key)
          else ret (OutcomePayloadConflict by_key)
        else ret (OutcomeIdentityConflict by_key)
    | Some existing, None => ret (OutcomeIdentityConflict existing)
    | None, Some existing => ret (OutcomeIdentityConflict existing)
    end).

Definition command (idempotency_key : bytes) : Sql Db (option CommandRecord) :=
  query_command idempotency_key.

Definition command_by_id (command_id : bytes) : Sql Db (option CommandRecord) :=
  query_command_by_id command_id.

Definition outcome_fields_invalid (result error_code : option bytes) : bool :=
  negb (opt_all (fun v => len v <=? 1024 * 1024) result)
  || negb (opt_all (fun v => negb (is_empty v) && (len v <=? 128)) error_code).

(** The read-check-update-read sequence of both transitions; it is not a
    transaction, each statement commits on its own. *)
Definition transition (idempotency_key : bytes) (from : list CommandState)
    (set_ : CommandRow -> CommandRow) : Sql Db CommandRecord :=
  before <- command idempotency_key ;;
  current <- lift (ok_or before QueryReturnedNoRows) ;;
  if negb (bool_decide (rec_state current ∈ from)) then throw InvalidQuery
  else
    stmt (update_command idempotency_key
      (fun r => bool_decide (row_state r = as_str (rec_state current))) set_) ;;;
    after <- command idempotency_key ;;
    lift (ok_or after QueryReturnedNoRows).

Definition transition_command (idempotency_key : bytes) (from : list CommandState)
    (to : CommandState) (result error_code : option bytes) (now : Z) : Sql Db CommandRecord :=
  if is_empty from || outcome_fields_invalid result error_code then throw InvalidQuery
  else transition idempotency_key from (set_outcome (as_str to) result error_code now).

Definition transition_command_attested (idempotency_key : bytes) (from : list CommandState)
    (to : CommandState) (result error_code : option bytes) (proof : bytes) (now : Z)
    : Sql Db CommandRecord :=
  if is_empty from
     || negb (bool_decide (to = Succeeded) || bool_decide (to = Failed))
     || outcome_fields_invalid result error_code
     || is_empty proof || (len proof >? 65536)
  then throw InvalidQuery
  else transition idempotency_key from
         (set_outcome_attested (as_str to) result error_code proof now).

(** The guards and the transaction shared by the three revision-carrying
    completions; they differ in the states they accept and in the columns the
    final update sets. *)
Definition resource_invalid (resource : AppliedResourceRevision) (result : bytes) : bool :=
  negb (known_resource_type (res_type resource))
  || is_empty (res_key resource) || (len (res_key resource) >? 64)
  || (res_revision resource =? 0) || (res_revision resource >? i64_max)
  || (len result >? 1024 * 1024).

Definition complete_with_revision (idempotency_key command_id : bytes)
    (resource : AppliedResourceRevision) (states : list CommandState)
    (set_ : CommandRow -> CommandRow) (now : Z) : Sql Db CommandRecord :=
  transaction (
    found <- query_command idempotency_key ;;
    record <- lift (ok_or found QueryReturnedNoRows) ;;
    if bool_decide (rec_command_id record <> command_id)
       || negb (bool_decide (rec_state record ∈ states))
    then throw InvalidQuery
    else
      let revision := res_revision resource in
      stmt (upsert_revision (res_type resource) (res_key resource) revision now) ;;;
      stored <- query (fun d =>
        match db_revisions d !! (res_type resource, res_key resource) with
        | Some (stored, _) => Ok stored
        | None => Err QueryReturnedNoRows
        end) ;;
      if negb (stored =? revision) then throw InvalidQuery
      else
        updated <- stmt (update_command idempotency_key
          (fun r => bool_decide (row_command_id r = command_id)
                    && existsb (fun s => bool_decide (row_state r = as_str s)) states) set_) ;;
        if negb (updated =? 1) then throw InvalidQuery
        else
          completed <- query_command idempotency_key ;;
          lift (ok_or completed QueryReturnedNoRows)).

Definition complete_external_with_revision (idempotency_key command_id : bytes)
    (resource : AppliedResourceRevision) (result : bytes) (now : Z) : Sql Db CommandRecord :=
  if resource_invalid resource result then throw InvalidQuery
  else complete_with_revision idempotency_key command_id resource [Running]
         (set_outcome (str "succeeded") (Some result) None now) now.

Definition complete_external_with_revision_attested (idempotency_key command_id : bytes)
    (resource : AppliedResourceRevision) (result proof : bytes) (now : Z)
    : Sql Db CommandRecord :=
  if resource_invalid resource result || is_empty proof || (len proof >? 65536)
  then throw InvalidQuery
  else complete_with_revision idempotency_key command_id resource [Running]
         (set_outcome_attested (str "succeeded") (Some result) None proof now) now.

Definition reconcile_external_with_revision (idempotency_key command_id : bytes)
    (resource : AppliedResourceRevision) (result : bytes) (now : Z) : Sql Db CommandRecord :=
  if resource_invalid resource result then throw InvalidQuery
  else complete_with_revision idempotency_key command_id resource [Accepted; Running; Unknown]
         (set_outcome (str "succeeded") (Some result) None now) now.

Definition applied_revision (resource_type resource_key : bytes) : Sql Db (option Z) :=
  query (fun d =>
    match db_revisions d !! (resource_type, resource_key) with
    | Some (value, _) => if value <? 0 then Err InvalidQuery else Ok (Some value)
    | None => Ok None
    end).

(** [ORDER BY resource_key] *)
Definition key_le (a b : bytes * Z) : Prop := bytes_leb (fst a) (fst b) = true.

#[export] Instance key_le_dec a b : Decision (key_le a b).
Proof. unfold key_le. apply _. Defined.

Definition applied_revisions (resource_type : bytes) : Sql Db (list (bytes * Z)) :=
  if negb (known_resource_type resource_type) then throw InvalidQuery
  else query (fun d =>
    let rows := omap (fun '((t, k), (v, _)) =>
                  if bool_decide (t = resource_type) then Some (k, v) else None)
                  (map_to_list (db_revisions d)) in
    if existsb (fun kv => snd kv <? 0) rows then Err InvalidQuery
    else Ok (merge_sort key_le rows)).

(** * Synthetic effects *)

(** The effect row and its count, two statements of one transaction. *)
Definition record_effect (key : bytes) (e : SyntheticEffect) : Sql Db unit :=
  stmt (insert_effect key e) ;;;
  stmt count_execution.

Definition execute_synthetic_effect (idempotency_key payload_sha256 result : bytes) (now : Z)
    : Sql Db bool :=
  if len result >? 1024 * 1024 then throw InvalidQuery
  else
    transaction (
      found <- query_effect idempotency_key ;;
      match found with
      | Some existing =>
          if bool_decide (eff_payload_sha256 existing <> payload_sha256) then throw InvalidQuery
          else ret false
      | None =>
          record_effect idempotency_key (mkSyntheticEffect payload_sha256 result now) ;;;
          ret true
      end).

Definition execute_and_complete_synthetic
    (idempotency_key command_id payload_sha256 result : bytes) (now : Z)
    : Sql Db CommandRecord :=
  if len result >? 1024 * 1024 then throw InvalidQuery
  else
    transaction (
      found <- query_command idempotency_key ;;
      record <- lift (ok_or found QueryReturnedNoRows) ;;
      if bool_decide (rec_command_id record <> command_id)
         || bool_decide (rec_payload_sha256 record <> payload_sha256)
         || bool_decide (rec_state record <> Running)
      then throw InvalidQuery
      else
        effect <- query_effect idempotency_key ;;
        match effect with
        | Some existing =>
            if bool_decide (eff_payload_sha256 existing <> payload_sha256)
               || bool_decide (eff_result existing <> result)
            then throw InvalidQuery else ret tt
        | None =>
            record_effect idempotency_key (mkSyntheticEffect payload_sha256 result now)
        end ;;;
        updated <- stmt (update_command idempotency_key
          (fun r => bool_decide (row_command_id r = command_id)
                    && bool_decide (row_payload_sha256 r = payload_sha256)
                    && bool_decide (row_state r = str "running"))
          (set_outcome (str "succeeded") (Some result) None now)) ;;
        if negb (updated =? 1) then throw InvalidQuery
        else
          completed <- query_command idempotency_key ;;
          lift (ok_or completed QueryReturnedNoRows)).

Definition synthetic_effect (idempotency_key : bytes) : Sql Db (option SyntheticEffect) :=
  query_effect idempotency_key.

Definition synthetic_execution_count : Sql Db Z :=
  query (fun d => if db_executions d <? 0 then Err FromSqlConversionFailure
                  else Ok (db_executions d)).
