(* ===== verification/Telemetry.v ===== *)
(** The telemetry buffer and the owner-fence epoch floor of the Agent journal,
    the second half of [rust/crates/command-journal/src/lib.rs]. *)

From stdpp Require Import base list gmap numbers countable strings sorting.
From Stdlib Require Import ZArith Lia Bool Strings.Byte.
From S2P Require Import Prelude Bytes Sql Journal.

Local Open Scope Z_scope.
Local Open Scope sql_scope.

Record TelemetryInsert := mkTelemetryInsert {
  ins_batch_id : bytes; ins_priority : Z; ins_observed_at : Z; ins_expires_at : Z;
  ins_payload : bytes; ins_now : Z; ins_max_bytes : Z }.

(** * Orders *)

(** [ORDER BY priority DESC, observed_at ASC, batch_id]: [a] is evicted before
    [b]. *)
Definition evict_before (a b : TelemetryRow) : bool :=
  (tel_priority b <? tel_priority a)
  || ((tel_priority a =? tel_priority b)
      && ((tel_observed_at a <? tel_observed_at b)
          || ((tel_observed_at a =? tel_observed_at b)
              && bytes_ltb (tel_batch_id a) (tel_batch_id b)))).

(** [ORDER BY priority, observed_at, batch_id]: [a] is delivered before [b]. *)
Definition deliver_before (a b : TelemetryRow) : bool :=
  (tel_priority a <? tel_priority b)
  || ((tel_priority a =? tel_priority b)
      && ((tel_observed_at a <? tel_observed_at b)
          || ((tel_observed_at a =? tel_observed_at b)
              && bytes_ltb (tel_batch_id a) (tel_batch_id b)))).

Definition deliver_le (a b : TelemetryRow) : Prop := deliver_before b a = false.

#[export] Instance deliver_le_dec a b : Decision (deliver_le a b).
Proof. unfold deliver_le. apply _. Defined.

(** [ORDER BY .. LIMIT 1] *)
Definition first_evicted (l : list TelemetryRow) : option TelemetryRow :=
  match l with
  | [] => None
  | x :: r => Some (fold_left (fun m y => if evict_before y m then y else m) r x)
  end.

Definition without_batch (id : bytes) (l : list TelemetryRow) : list TelemetryRow :=
  filter (fun r => tel_batch_id r <> id) l.

(** [coalesce(sum(length(payload)),0)] *)
Definition buffered_bytes (l : list TelemetryRow) : Z :=
  foldr (fun r acc => len (tel_payload r) + acc) 0 l.

(** * Drop counters *)

(** [increment_drop] *)
Definition increment_drop (priority count : Z) : Sql Db unit :=
  stmt (fun d =>
    let dropped := default 0 (db_drops d !! priority) + count in
    if negb (between 1 priority 4) || (dropped <? 0) || (dropped >? i64_max)
    then Err ConstraintViolation
    else Ok (tt, set_drops (<[priority := dropped]> (db_drops d)) d)).

Fixpoint increment_drops (counts : list (Z * Z)) : Sql Db unit :=
  match counts with
  | [] => ret tt
  | (priority, count) :: rest => increment_drop priority count ;;; increment_drops rest
  end.

(** * Expiry *)

Definition expired (now observed_cutoff : Z) (r : TelemetryRow) : bool :=
  (tel_expires_at r <=? now) || (tel_observed_at r <=? observed_cutoff).

(** [SELECT priority, count( * ) .. GROUP BY priority] *)
Definition count_by_priority (l : list TelemetryRow) : list (Z * Z) :=
  (fun p => (p, len (filter (fun r => tel_priority r = p) l)))
    <$> merge_sort Z.le (remove_dups (tel_priority <$> l)).

Definition prune_expired_telemetry (now : Z) : Sql Db unit :=
  let observed_cutoff := i64_saturating_sub now OFFLINE_RECOVERY_RETENTION_SECONDS in
  expired_counts <- query (fun d => Ok (count_by_priority
    (filter (fun r => expired now observed_cutoff r = true) (db_telemetry d)))) ;;
  stmt (fun d => Ok (tt, set_telemetry
    (filter (fun r => expired now observed_cutoff r = false) (db_telemetry d)) d)) ;;;
  increment_drops expired_counts.

(** * Enqueueing *)

(** [INSERT INTO telemetry_buffer .. ON CONFLICT(batch_id) DO NOTHING] *)
Definition insert_telemetry (r : TelemetryRow) (d : Db) : result SqlError (unit * Db) :=
  if negb (telemetry_check r) then Err ConstraintViolation
  else if bool_decide (tel_batch_id r ∈ tel_batch_id <$> db_telemetry d) then Ok (tt, d)
  else Ok (tt, set_telemetry (db_telemetry d ++ [r]) d).

(** [DELETE .. WHERE batch_id=(SELECT .. LIMIT 1) RETURNING priority] *)
Definition delete_first_evicted (d : Db) : result SqlError (Z * Db) :=
  match first_evicted (db_telemetry d) with
  | None => Err QueryReturnedNoRows
  | Some r =>
      Ok (tel_priority r,
          set_telemetry (without_batch (tel_batch_id r) (db_telemetry d)) d)
  end.

Definition sum_payloads (d : Db) : result SqlError Z :=
  let total := buffered_bytes (db_telemetry d) in
  if total >? i64_max then Err SqliteFailure else Ok total.

(** The eviction loop.  Each turn deletes one row, so that one turn more than
    the number of rows is enough fuel. *)
Fixpoint evict (fuel : nat) (max_bytes : Z) : Sql Db unit :=
  match fuel with
  | O => throw SqliteFailure
  | S fuel' =>
      total <- query sum_payloads ;;
      if total <=? max_bytes then ret tt
      else
        priority <- stmt delete_first_evicted ;;
        increment_drop priority 1 ;;;
        evict fuel' max_bytes
  end.

Definition evict_loop (max_bytes : Z) : Sql Db unit :=
  fun c => evict (S (length (db_telemetry (conn_db c)))) max_bytes c.

Definition enqueue_telemetry (insert : TelemetryInsert) : Sql Db bool :=
  let row := mkTelemetryRow (ins_batch_id insert) (ins_priority insert)
               (ins_observed_at insert) (ins_expires_at insert) (ins_payload insert) in
  if negb (between 1 (ins_priority insert) 4)
     || is_empty (ins_payload insert)
     || (len (ins_payload insert) >? 512 * 1024)
     || (ins_expires_at insert <=? ins_observed_at insert)
     || (ins_max_bytes insert =? 0)
  then throw InvalidQuery
  else
    transaction (
      prune_expired_telemetry (ins_now insert) ;;;
      stmt (insert_telemetry row) ;;;
      evict_loop (ins_max_bytes insert) ;;;
      query (fun d => Ok (bool_decide
        (ins_batch_id insert ∈ tel_batch_id <$> db_telemetry d)))).

Definition telemetry_pending (limit now : Z) : Sql Db (list (bytes * bytes)) :=
  if (limit =? 0) || (limit >? 256) then throw InvalidQuery
  else
    transaction (
      prune_expired_telemetry now ;;;
      query (fun d =>
        let rows := take (Z.to_nat limit) (merge_sort deliver_le (db_telemetry d)) in
        if bool_decide (Forall (fun r => length (tel_batch_id r) = 16%nat) rows)
        then Ok ((fun r => (tel_batch_id r, tel_payload r)) <$> rows)
        else Err InvalidQuery)).

Definition acknowledge_telemetry (batch_id : bytes) : Sql Db unit :=
  stmt (fun d => Ok (tt, set_telemetry (without_batch batch_id (db_telemetry d)) d)).

(** [telemetry_drop_counters]: the four counters, zero where no row exists. *)
Definition telemetry_drop_counters : Sql Db (list Z) :=
  query (fun d => Ok ((fun p => default 0 (db_drops d !! p)) <$> [1; 2; 3; 4])).

(** * Owner fence epoch floor *)

(** [bytes.try_into().map(u64::from_be_bytes)] *)
Definition decode_epoch (b : bytes) : result SqlError Z :=
  if bool_decide (length b = 8%nat) then Ok (be_value b) else Err InvalidQuery.

Definition owner_fence_epoch_floor : Sql Db Z :=
  value <- query (fun d => Ok (db_metadata d !! OWNER_FENCE_EPOCH_FLOOR_KEY)) ;;
  match value with
  | None => ret 0
  | Some b => lift (decode_epoch b)
  end.

(** [INSERT .. ON CONFLICT(key) DO UPDATE SET value=CASE WHEN excluded.value >
    agent_metadata.value ..  RETURNING value]; SQLite compares blobs with
    [memcmp]. *)
Definition raise_floor (value : bytes) (d : Db) : result SqlError (bytes * Db) :=
  let stored :=
    match db_metadata d !! OWNER_FENCE_EPOCH_FLOOR_KEY with
    | None => value
    | Some old => if bytes_ltb old value then value else old
    end in
  match upsert_metadata OWNER_FENCE_EPOCH_FLOOR_KEY stored d with
  | Ok (_, d') => Ok (stored, d')
  | Err e => Err e
  end.

Definition raise_owner_fence_epoch_floor (epoch : Z) : Sql Db Z :=
  persisted <- stmt (raise_floor (be 8 epoch)) ;;
  lift (decode_epoch persisted).
