(* ===== verification/JournalFacts.v ===== *)
(** Invariants of the Agent journal: the table constraints together with the
    facts the code relies on ([wf_db]), and the order along which every
    operation moves the database ([advances]): terminal commands never change,
    recorded effects and revisions are never lost, the fence floor and the
    authority binding never regress.  Both hold for every operation under
    every fault schedule. *)

From stdpp Require Import base list gmap numbers countable strings sorting.
From Stdlib Require Import ZArith Lia Bool Strings.Byte.
From S2P Require Import Prelude Bytes Sql Journal Telemetry.

Local Open Scope Z_scope.

(** * State column *)

Lemma parse_as_str s : CommandState_parse (as_str s) = Ok s.
Proof. by destruct s. Qed.

Lemma parse_inv b s : CommandState_parse b = Ok s -> b = as_str s.
Proof.
  unfold CommandState_parse. intros H.
  repeat case_bool_decide; simplify_eq; done.
Qed.

#[export] Instance as_str_inj : Inj (=) (=) as_str.
Proof. intros [] [] H; vm_compute in H; congruence. Qed.

Definition terminal (s : CommandState) : Prop := s = Succeeded \/ s = Failed.

#[export] Instance terminal_dec s : Decision (terminal s).
Proof. unfold terminal. apply _. Defined.

Definition terminal_row (r : CommandRow) : Prop := exists s, terminal s /\ row_state r = as_str s.

(** * Rows *)

(** The columns no update writes. *)
Definition same_identity (r r' : CommandRow) : Prop :=
  row_idempotency_key r' = row_idempotency_key r /\ row_command_id r' = row_command_id r
  /\ row_payload_sha256 r' = row_payload_sha256 r
  /\ row_payload_hash_version r' = row_payload_hash_version r
  /\ row_accepted_at r' = row_accepted_at r.

#[export] Instance same_identity_preorder : PreOrder same_identity.
Proof. split; [intros r; by repeat split|]. unfold same_identity. intros r1 r2 r3. intuition congruence. Qed.

Lemma set_outcome_identity state res code now r :
  same_identity r (set_outcome state res code now r).
Proof. by repeat split. Qed.

Lemma set_outcome_attested_identity state res code proof now r :
  same_identity r (set_outcome_attested state res code proof now r).
Proof. by repeat split. Qed.

#[export] Hint Resolve set_outcome_identity set_outcome_attested_identity : ocservia.

(** [decode_row] copies every column and parses the state. *)
Definition record_of (r : CommandRow) (s : CommandState) : CommandRecord :=
  mkCommandRecord (row_idempotency_key r) (row_command_id r) (row_payload_sha256 r)
    (row_payload_hash_version r) s (row_result r) (row_error_code r)
    (row_privileged_result_proof r) (row_accepted_at r) (row_updated_at r).

Lemma fixed_blob_ok n v a : fixed_blob n v = Ok a -> a = v /\ length v = n.
Proof. unfold fixed_blob. case_bool_decide; intros [= ->]. done. Qed.

Lemma decode_row_inv r x :
  decode_row r = Ok x -> x = record_of r (rec_state x) /\ row_state r = as_str (rec_state x).
Proof.
  unfold decode_row. intros H.
  invert_ok H. apply fixed_blob_ok in Hstep as [-> _], Hstep0 as [-> _], Hstep1 as [-> _].
  subst x. split; [done|by apply parse_inv].
Qed.

Lemma decode_opt_None o : decode_opt o = Ok None -> o = None.
Proof. destruct o as [r|]; simpl; [|done]. by destruct (decode_row r). Qed.

Lemma decode_opt_Some o x :
  decode_opt o = Ok (Some x) ->
  exists r, o = Some r /\ x = record_of r (rec_state x) /\ row_state r = as_str (rec_state x).
Proof.
  destruct o as [r|]; simpl; [|done]. destruct (decode_row r) as [y|] eqn:E; [|done].
  intros [= <-]. exists r. split; [done|]. by apply decode_row_inv.
Qed.

Lemma ok_or_ok {E A} (o : option A) (e : E) a : ok_or o e = Ok a -> o = Some a.
Proof. destruct o; simpl; congruence. Qed.

Lemma insert_command_ok r d u d' :
  insert_command r d = Ok (u, d') ->
  db_commands d !! row_idempotency_key r = None /\ command_check r = true
  /\ d' = set_commands (<[row_idempotency_key r := r]> (db_commands d)) d.
Proof.
  unfold insert_command. intros H. destruct (_ || _)%bool eqn:G in H; [done|].
  injection H as _ <-. split_guards. split; [|done]. by apply eq_None_not_Some.
Qed.

(** Reads the facts out of the steps of a successful run. *)
Ltac journal_facts :=
  repeat
    match goal with
    | H : ok_or _ _ = Ok _ |- _ => apply ok_or_ok in H; subst
    | H : decode_opt _ = Ok None |- _ => apply decode_opt_None in H
    | H : decode_opt _ = Ok (Some _) |- _ =>
        let r := fresh "row" in let E := fresh "Erec" in let S := fresh "Estate" in
        apply decode_opt_Some in H as (r & H & E & S)
    | H : conn_db ?c = conn_db ?c' |- _ => rewrite H in *; clear H
    | H : ?c = ?c' :> Conn _ |- _ => subst c
    end.

Lemma command_check_state r :
  command_check r = true -> exists s, row_state r = as_str s.
Proof.
  unfold command_check, known_state. intros H. split_guards.
  destruct (CommandState_parse (row_state r)) as [s|] eqn:E; [|done].
  exists s. by apply parse_inv.
Qed.

Lemma decode_row_ok r s :
  command_check r = true -> in_i32 (row_payload_hash_version r) -> row_state r = as_str s ->
  decode_row r = Ok (record_of r s).
Proof.
  unfold command_check, len. intros H Hv Hs. split_guards.
  unfold decode_row, fixed_blob.
  rewrite !bool_decide_eq_true_2 by (done || lia). simpl.
  by rewrite Hs, parse_as_str.
Qed.

(** * Well-formed databases *)

Record wf_db (d : Db) : Prop := {
  wf_key k r : db_commands d !! k = Some r -> row_idempotency_key r = k;
  wf_check k r : db_commands d !! k = Some r -> command_check r = true;
  wf_version k r : db_commands d !! k = Some r -> in_i32 (row_payload_hash_version r);
  wf_unique k1 k2 r1 r2 :
    db_commands d !! k1 = Some r1 -> db_commands d !! k2 = Some r2 ->
    row_command_id r1 = row_command_id r2 -> k1 = k2;
  wf_effect k e : db_effects d !! k = Some e -> effect_check k e = true;
  wf_count : db_executions d = Z.of_nat (size (db_effects d));
  wf_revision t k v n :
    db_revisions d !! (t, k) = Some (v, n) -> revision_check t k v = true /\ v <= i64_max;
  wf_batches : NoDup (tel_batch_id <$> db_telemetry d);
  wf_telemetry : Forall (fun r => telemetry_check r = true) (db_telemetry d);
  wf_drops p n : db_drops d !! p = Some n -> 1 <= p <= 4 /\ 0 <= n <= i64_max;
  wf_metadata k v : db_metadata d !! k = Some v -> metadata_check k v = true;
  wf_floor b : db_metadata d !! OWNER_FENCE_EPOCH_FLOOR_KEY = Some b -> length b = 8%nat }.

Lemma wf_empty : wf_db empty_db.
Proof. split; try done. apply NoDup_nil_2. Qed.

(** On a well-formed database a lookup decodes. *)
Lemma decode_lookup d k :
  wf_db d ->
  decode_opt (db_commands d !! k) =
  Ok (match db_commands d !! k with
      | Some r => match CommandState_parse (row_state r) with
                  | Ok s => Some (record_of r s) | Err _ => None end
      | None => None
      end).
Proof.
  intros W. destruct (db_commands d !! k) as [r|] eqn:E; simpl; [|done].
  destruct (command_check_state r) as [s Hs]; [by eapply wf_check|].
  rewrite (decode_row_ok r s); [|by eapply wf_check|by eapply wf_version|done].
  by rewrite Hs, parse_as_str.
Qed.

Lemma find_command_Some d id r :
  find_command id d = Some r ->
  row_command_id r = id /\ exists k, db_commands d !! k = Some r.
Proof.
  unfold find_command. intros H.
  destruct (List.find _ _) as [[k r']|] eqn:F; simplify_eq/=.
  apply List.find_some in F as [F1 F2]. simpl in F2. apply bool_decide_eq_true in F2.
  split; [done|]. exists k. by apply elem_of_map_to_list, list_elem_of_In.
Qed.

Lemma find_command_None d id k r :
  find_command id d = None -> db_commands d !! k = Some r -> row_command_id r <> id.
Proof.
  unfold find_command. intros H Hk.
  destruct (List.find _ _) as [[k' r']|] eqn:F; simplify_eq/=.
  apply List.find_none with (x := (k, r)) in F; [by apply bool_decide_eq_false in F|].
  by apply list_elem_of_In, elem_of_map_to_list.
Qed.

(** With unique command identities, the search by identity is the lookup. *)
Lemma find_command_unique d id k r :
  wf_db d -> db_commands d !! k = Some r -> row_command_id r = id -> find_command id d = Some r.
Proof.
  intros W Hk Hid. destruct (find_command id d) as [r'|] eqn:F.
  - apply find_command_Some in F as (Hid' & k' & Hk').
    assert (k' = k) as -> by (eapply wf_unique; eauto; congruence). congruence.
  - by eapply find_command_None in F.
Qed.

Lemma find_command_key d id r :
  wf_db d -> find_command id d = Some r ->
  row_command_id r = id /\ db_commands d !! row_idempotency_key r = Some r.
Proof.
  intros W F. apply find_command_Some in F as (Hid & k & Hk).
  split; [done|]. by rewrite (wf_key d W k r Hk).
Qed.

Lemma decode_find d id :
  wf_db d ->
  decode_opt (find_command id d) =
  Ok (match find_command id d with
      | Some r => match CommandState_parse (row_state r) with
                  | Ok s => Some (record_of r s) | Err _ => None end
      | None => None
      end).
Proof.
  intros W. destruct (find_command id d) as [r|] eqn:E; [|done].
  apply find_command_key in E as [_ E]; [|done].
  pose proof (decode_lookup d (row_idempotency_key r) W) as H. by rewrite E in H.
Qed.

(** * Statements preserve well-formedness *)

Lemma insert_command_wf r d u d' :
  insert_command r d = Ok (u, d') -> in_i32 (row_payload_hash_version r) ->
  wf_db d -> wf_db d'.
Proof.
  unfold insert_command. intros H Hv W.
  destruct (_ || _)%bool eqn:G in H; [done|]. injection H as _ <-. split_guards.
  assert (forall k0 r0, db_commands d !! k0 = Some r0 -> row_command_id r0 <> row_command_id r)
    as Hnew.
  { intros k0 r0 Hk0 E.
    match goal with H : existsb _ _ = false |- _ => apply not_true_iff_false in H; apply H end.
    apply existsb_exists. exists (k0, r0). split; [|by apply bool_decide_eq_true].
    by apply list_elem_of_In, elem_of_map_to_list. }
  destruct W. split; simpl; try done.
  - intros k r0. rewrite lookup_insert_Some. intros [[<- <-]|[_ ?]]; eauto.
  - intros k r0. rewrite lookup_insert_Some. intros [[<- <-]|[_ ?]]; eauto.
  - intros k r0. rewrite lookup_insert_Some. intros [[<- <-]|[_ ?]]; eauto.
  - intros k1 k2 r1 r2. rewrite !lookup_insert_Some.
    intros [[<- <-]|[? ?]] [[<- <-]|[? ?]] E; try done; [| |eauto].
    + by destruct (Hnew k2 r2).
    + by destruct (Hnew k1 r1).
Qed.

Lemma update_command_inv key w s d n d' :
  update_command key w s d = Ok (n, d') ->
  (n = 0 /\ d' = d) \/
  exists r, db_commands d !! key = Some r /\ w r = true /\ command_check (s r) = true
            /\ n = 1 /\ d' = set_commands (<[key := s r]> (db_commands d)) d.
Proof.
  unfold update_command. intros H.
  destruct (db_commands d !! key) as [r|] eqn:E; [|by left; simplify_eq].
  destruct (w r) eqn:Ew; [|by left; simplify_eq].
  destruct (command_check (s r)) eqn:Ec; [|done]. right. exists r. by simplify_eq.
Qed.

Lemma update_command_wf key w s d n d' :
  update_command key w s d = Ok (n, d') -> (forall r, same_identity r (s r)) ->
  wf_db d -> wf_db d'.
Proof.
  intros H Hid W.
  apply update_command_inv in H as [[_ ->]|(r & Hr & _ & Hc & _ & ->)]; [done|].
  destruct (Hid r) as (Ik & Ii & Is & Iv & Ia).
  assert (forall k0 r0, <[key := s r]> (db_commands d) !! k0 = Some r0 ->
    exists r1, db_commands d !! k0 = Some r1 /\ row_command_id r0 = row_command_id r1) as Hold.
  { intros k0 r0. rewrite lookup_insert_Some. intros [[<- <-]|[_ ?]]; eauto. }
  destruct W. split; simpl; try done.
  - intros k r0. rewrite lookup_insert_Some. intros [[<- <-]|[_ ?]]; [|eauto].
    rewrite Ik. eauto.
  - intros k r0. rewrite lookup_insert_Some. intros [[<- <-]|[_ ?]]; eauto.
  - intros k r0. rewrite lookup_insert_Some. intros [[<- <-]|[_ ?]]; [|eauto].
    rewrite Iv. eauto.
  - intros k1 k2 r1 r2 H1 H2 E.
    apply Hold in H1 as (x1 & H1 & E1), H2 as (x2 & H2 & E2). eapply wf_unique0; eauto. congruence.
Qed.

Lemma upsert_revision_wf t k v now d u d' :
  upsert_revision t k v now d = Ok (u, d') -> v <= i64_max -> wf_db d -> wf_db d'.
Proof.
  unfold upsert_revision. intros H Hv W.
  destruct (negb _) eqn:G in H; [done|]. split_guards.
  assert (wf_db (set_revisions (<[(t, k) := (v, now)]> (db_revisions d)) d)) as W'.
  { destruct W. split; simpl; try done. intros t0 k0 v0 n0. rewrite lookup_insert_Some.
    intros [[E1 E2]|[_ ?]]; [|eauto]. by simplify_eq. }
  destruct (db_revisions d !! (t, k)) as [[stored ?]|]; [destruct (stored <=? v)|];
    by injection H as _ <-.
Qed.

(** A single statement moves along a preorder by a lemma about its function. *)
Ltac by_stmt lem :=
  apply evolves_stmt; [apply _|];
  let d := fresh "d" in let a := fresh "a" in let d' := fresh "d'" in
  let H := fresh "H" in intros d a d' H;
  hnf; intros; eapply lem; eauto with ocservia; try (simpl; done).

Lemma record_effect_wf key e : evolves_ok (carries wf_db) (record_effect key e).
Proof.
  unfold record_effect, evolves_ok. intros c u c' H W. revert H.
  assert (forall d1 d2 n u1, insert_effect key e (conn_db c) = Ok (u1, d1) ->
    count_execution d1 = Ok (n, d2) -> wf_db d2) as Hboth.
  { unfold insert_effect, count_execution. intros d1 d2 n u1 H1 H2.
    destruct (_ || _)%bool eqn:G in H1; [done|]. injection H1 as _ <-. simpl in H2.
    destruct (_ >? _) in H2; [done|]. injection H2 as _ <-. split_guards.
    destruct W. split; simpl; try done.
    - intros k e0. rewrite lookup_insert_Some. intros [[<- <-]|[_ ?]]; eauto.
    - rewrite map_size_insert_None by (by apply eq_None_not_Some). lia. }
  unfold bind, stmt.
  destruct (conn_faults c) as [|[|] [|[|] ?]]; simpl; try done;
    destruct (insert_effect key e (conn_db c)) as [[u1 d1]|] eqn:E1; simpl; try done;
    destruct (count_execution d1) as [[n d2]|] eqn:E2; simpl; try done;
    intros [= _ <-]; simpl; eauto.
Qed.

Lemma upsert_metadata_wf k v d u d' :
  upsert_metadata k v d = Ok (u, d') ->
  (k = OWNER_FENCE_EPOCH_FLOOR_KEY -> length v = 8%nat) -> wf_db d -> wf_db d'.
Proof.
  unfold upsert_metadata. intros H Hf W. destruct (negb _) eqn:G in H; [done|].
  injection H as _ <-. split_guards. destruct W. split; simpl; try done.
  - intros k0 v0. rewrite lookup_insert_Some. intros [[<- <-]|[_ ?]]; eauto.
  - intros b. rewrite lookup_insert_Some. intros [[? <-]|[_ ?]]; eauto.
Qed.

Lemma NoDup_fmap_filter {A B} (f : A -> B) (P : A -> Prop) `{!forall x, Decision (P x)} l :
  NoDup (f <$> l) -> NoDup (f <$> filter P l).
Proof.
  induction l as [|x l IH]; [done|]. rewrite fmap_cons, NoDup_cons. intros [Hx Hl].
  rewrite filter_cons. case_decide; [|auto]. rewrite fmap_cons. apply NoDup_cons. split; [|auto].
  intros (y & Ey & Hy)%list_elem_of_fmap. apply Hx. apply list_elem_of_fmap. exists y.
  split; [done|]. by apply list_elem_of_filter in Hy as [_ ?].
Qed.

Lemma set_telemetry_filter_wf (P : TelemetryRow -> Prop) `{!forall x, Decision (P x)} d :
  wf_db d -> wf_db (set_telemetry (filter P (db_telemetry d)) d).
Proof.
  intros []. split; simpl; try done.
  - by apply NoDup_fmap_filter.
  - apply Forall_forall. intros x [_ Hx]%list_elem_of_filter. revert x Hx. by apply Forall_forall.
Qed.

Lemma insert_telemetry_wf r d u d' :
  insert_telemetry r d = Ok (u, d') -> wf_db d -> wf_db d'.
Proof.
  unfold insert_telemetry. intros H W. destruct (negb _) eqn:G in H; [done|].
  split_guards. case_bool_decide as Hin; injection H as _ <-; [done|].
  destruct W. split; simpl; try done.
  - rewrite fmap_app. apply NoDup_app. split; [done|]. split; [|apply NoDup_singleton].
    intros x Hx Hr. apply list_elem_of_singleton in Hr. simpl in Hr. congruence.
  - apply Forall_app_2; [done|]. by apply Forall_singleton.
Qed.

Lemma increment_drop_wf p n : evolves (carries wf_db) (increment_drop p n).
Proof.
  apply evolves_stmt; [apply _|]. intros d u d' H W. cbv zeta in H.
  destruct (_ || _)%bool eqn:G in H; [done|]. injection H as _ <-. split_guards.
  unfold between in *. split_guards.
  destruct W. split; simpl; try done.
  intros p0 n0. rewrite lookup_insert_Some. intros [[<- <-]|[_ ?]]; [|eauto]. lia.
Qed.

Lemma increment_drops_wf l : evolves (carries wf_db) (increment_drops l).
Proof.
  induction l as [|[p n] l IH]; simpl; evolve; [apply increment_drop_wf|done].
Qed.

Lemma delete_first_evicted_wf d p d' :
  delete_first_evicted d = Ok (p, d') -> wf_db d -> wf_db d'.
Proof.
  unfold delete_first_evicted. destruct (first_evicted _) as [r|]; [|done].
  intros [= _ <-]. by apply set_telemetry_filter_wf.
Qed.

Lemma evict_wf fuel max_bytes : evolves (carries wf_db) (evict fuel max_bytes).
Proof.
  induction fuel as [|fuel IH]; simpl; evolve; [|apply increment_drop_wf|done].
  by_stmt delete_first_evicted_wf.
Qed.

Lemma prune_expired_telemetry_wf now : evolves (carries wf_db) (prune_expired_telemetry now).
Proof.
  unfold prune_expired_telemetry; evolve; [|apply increment_drops_wf].
  apply evolves_stmt; [apply _|]. intros d u d' [= _ <-] W. by apply set_telemetry_filter_wf.
Qed.

(** * Operations *)

(** Every method of [Journal] that can change the database, with the ranges
    its Rust argument types impose.  The [from] lists of the transitions are
    those of the callers: no terminal state. *)
Inductive JournalOp : forall A, Sql Db A -> Prop :=
| Op_record_grant grant : JournalOp unit (record_verified_session_grant grant)
| Op_bind_authority node controller : JournalOp unit (bind_authority node controller)
| Op_accept key id sha version now :
    in_i32 version -> JournalOp AcceptOutcome (accept_command key id sha version now)
| Op_transition key from to res code now :
    Forall (fun s => ~ terminal s) from ->
    JournalOp CommandRecord (transition_command key from to res code now)
| Op_transition_attested key from to res code proof now :
    Forall (fun s => ~ terminal s) from ->
    JournalOp CommandRecord (transition_command_attested key from to res code proof now)
| Op_complete key id resource res now :
    JournalOp CommandRecord (complete_external_with_revision key id resource res now)
| Op_complete_attested key id resource res proof now :
    JournalOp CommandRecord (complete_external_with_revision_attested key id resource res proof now)
| Op_reconcile key id resource res now :
    JournalOp CommandRecord (reconcile_external_with_revision key id resource res now)
| Op_execute_effect key sha res now :
    JournalOp bool (execute_synthetic_effect key sha res now)
| Op_execute_and_complete key id sha res now :
    JournalOp CommandRecord (execute_and_complete_synthetic key id sha res now)
| Op_enqueue insert : JournalOp bool (enqueue_telemetry insert)
| Op_pending limit now : JournalOp (list (bytes * bytes)) (telemetry_pending limit now)
| Op_acknowledge id : JournalOp unit (acknowledge_telemetry id)
| Op_raise_floor epoch : JournalOp Z (raise_owner_fence_epoch_floor epoch).

Lemma transition_wf key from s :
  (forall r, same_identity r (s r)) -> evolves (carries wf_db) (transition key from s).
Proof.
  intros Hid. unfold transition, command, query_command; evolve.
  by_stmt update_command_wf.
Qed.

Lemma complete_with_revision_wf key id resource states s now :
  (forall r, same_identity r (s r)) -> res_revision resource <= i64_max ->
  evolves (carries wf_db) (complete_with_revision key id resource states s now).
Proof.
  intros Hid Hmax. unfold complete_with_revision, query_command; evolve.
  - by_stmt upsert_revision_wf.
  - by_stmt update_command_wf.
Qed.

Lemma resource_invalid_false resource res :
  resource_invalid resource res = false ->
  known_resource_type (res_type resource) = true /\ res_key resource <> []
  /\ len (res_key resource) <= 64 /\ res_revision resource <> 0
  /\ res_revision resource <= i64_max /\ len res <= 1024 * 1024.
Proof.
  unfold resource_invalid. intros H. split_guards.
  repeat split; try done; try lia. by apply is_empty_false.
Qed.

Lemma raise_floor_wf v d b d' :
  raise_floor v d = Ok (b, d') -> length v = 8%nat -> wf_db d -> wf_db d'.
Proof.
  unfold raise_floor. destruct (upsert_metadata _ _ d) as [[u d1]|] eqn:E; [|done].
  intros [= _ <-] Hv W. eapply upsert_metadata_wf; eauto. intros _.
  destruct (db_metadata d !! _) as [old|] eqn:Eo; [|done].
  destruct (bytes_ltb old v); [done|by eapply wf_floor].
Qed.

Ltac wf_statement :=
  first [ solve [by_stmt insert_command_wf]
        | solve [by_stmt upsert_metadata_wf; intros E; vm_compute in E; discriminate E]
        | solve [by_stmt insert_telemetry_wf] | solve [by_stmt raise_floor_wf]
        | solve [by_stmt update_command_wf] ].

(** Every operation, under every fault schedule, preserves the invariant. *)
Lemma journal_op_wf A (m : Sql Db A) : JournalOp A m -> evolves (carries wf_db) m.
Proof.
  destruct 1.
  - unfold record_verified_session_grant; evolve; wf_statement.
  - unfold bind_authority; evolve. apply evolves_stmt; [apply _|]. intros d u d'.
    case_bool_decide; [done|]. intros E W. by eapply upsert_metadata_wf.
  - unfold accept_command, query_command, query_command_by_id; evolve; wf_statement.
  - unfold transition_command; evolve. apply transition_wf; auto with ocservia.
  - unfold transition_command_attested; evolve. apply transition_wf; auto with ocservia.
  - unfold complete_external_with_revision; evolve.
    apply resource_invalid_false in Heqb as (? & ? & ? & ? & ? & ?).
    apply complete_with_revision_wf; auto with ocservia.
  - unfold complete_external_with_revision_attested; evolve. split_guards.
    match goal with H : resource_invalid _ _ = false |- _ =>
      apply resource_invalid_false in H as (? & ? & ? & ? & ? & ?) end.
    apply complete_with_revision_wf; auto with ocservia.
  - unfold reconcile_external_with_revision; evolve.
    apply resource_invalid_false in Heqb as (? & ? & ? & ? & ? & ?).
    apply complete_with_revision_wf; auto with ocservia.
  - unfold execute_synthetic_effect, query_effect; evolve. apply record_effect_wf.
  - unfold execute_and_complete_synthetic, query_command, query_effect; evolve;
      first [apply record_effect_wf|wf_statement].
  - unfold enqueue_telemetry; evolve.
    + apply evolves_ok_of, prune_expired_telemetry_wf.
    + wf_statement.
    + apply evolves_ok_of. intros c. apply evict_wf.
  - unfold telemetry_pending; evolve. apply evolves_ok_of, prune_expired_telemetry_wf.
  - unfold acknowledge_telemetry. apply evolves_stmt; [apply _|].
    intros d u d' [= _ <-] W. by apply set_telemetry_filter_wf.
  - unfold raise_owner_fence_epoch_floor; evolve; wf_statement.
Qed.

(** * Progress *)

Definition BINDING_KEY : bytes := str "controller_binding".

Record advances (d d' : Db) : Prop := {
  adv_commands k r :
    db_commands d !! k = Some r ->
    exists r', db_commands d' !! k = Some r' /\ same_identity r r'
               /\ (terminal_row r -> r' = r);
  adv_effects k e : db_effects d !! k = Some e -> db_effects d' !! k = Some e;
  adv_revisions tk v n :
    db_revisions d !! tk = Some (v, n) ->
    exists v' n', db_revisions d' !! tk = Some (v', n') /\ v <= v';
  adv_floor b :
    db_metadata d !! OWNER_FENCE_EPOCH_FLOOR_KEY = Some b ->
    exists b', db_metadata d' !! OWNER_FENCE_EPOCH_FLOOR_KEY = Some b' /\ bytes_leb b b' = true;
  adv_binding b :
    db_metadata d !! BINDING_KEY = Some b -> db_metadata d' !! BINDING_KEY = Some b }.

#[export] Instance advances_preorder : PreOrder advances.
Proof.
  split.
  - intros d. split; eauto.
    + intros k r H. exists r. by repeat split.
    + intros tk v n H. exists v, n. split; [done|lia].
    + intros b H. exists b. split; [done|]. apply bytes_leb_spec. by right.
  - intros d1 d2 d3 [A1 A2 A3 A4 A5] [B1 B2 B3 B4 B5]. split; eauto.
    + intros k r H. destruct (A1 k r H) as (r' & H' & I' & T').
      destruct (B1 k r' H') as (r'' & H'' & I'' & T''). exists r''.
      split; [done|]. split; [by etransitivity|]. intros T. specialize (T' T) as ->. auto.
    + intros tk v n H. destruct (A3 _ _ _ H) as (v' & n' & H' & L').
      destruct (B3 _ _ _ H') as (v'' & n'' & H'' & L''). exists v'', n''. split; [done|lia].
    + intros b H. destruct (A4 _ H) as (b' & H' & L'). destruct (B4 _ H') as (b'' & H'' & L'').
      exists b''. split; [done|]. apply bytes_leb_spec in L', L''. apply bytes_leb_spec.
      destruct L' as [L'| ->], L'' as [L''| ->]; try (by left); [|by right].
      left. by transitivity b'.
Qed.

(** Statements that leave the four tables alone. *)
Lemma advances_frame d d' :
  db_commands d' = db_commands d -> db_effects d' = db_effects d ->
  db_revisions d' = db_revisions d -> db_metadata d' = db_metadata d -> advances d d'.
Proof.
  intros E1 E2 E3 E4. destruct (reflexivity (R := advances) d) as [A B C D E].
  split; rewrite ?E1, ?E2, ?E3, ?E4; auto.
Qed.

Lemma set_commands_advances m d :
  (forall k r, db_commands d !! k = Some r -> exists r', m !! k = Some r' /\ same_identity r r'
     /\ (terminal_row r -> r' = r)) ->
  advances d (set_commands m d).
Proof. intros H. destruct (reflexivity (R := advances) d). by split. Qed.

Lemma insert_command_advances r d u d' : insert_command r d = Ok (u, d') -> advances d d'.
Proof.
  unfold insert_command. destruct (_ || _)%bool eqn:G; [done|]. intros [= _ <-]. split_guards.
  apply set_commands_advances. intros k r0 Hk. exists r0. split; [|by repeat split].
  rewrite lookup_insert_ne; [done|]. intros <-.
  match goal with H : ~ is_Some _ |- _ => apply H; eauto end.
Qed.

Lemma update_command_advances key w s d n d' :
  update_command key w s d = Ok (n, d') ->
  (forall r, same_identity r (s r)) -> (forall r, w r = true -> ~ terminal_row r) ->
  advances d d'.
Proof.
  intros H Hid Hw.
  apply update_command_inv in H as [[_ ->]|(r & Hr & Ew & Hc & _ & ->)]; [reflexivity|].
  apply set_commands_advances. intros k r0 Hk.
  destruct (decide (key = k)) as [<-|Hne].
  - rewrite lookup_insert_eq. simplify_eq. exists (s r). split; [done|]. split; [done|].
    intros T. by destruct (Hw r Ew).
  - rewrite lookup_insert_ne by done. exists r0. by repeat split.
Qed.

Lemma upsert_revision_advances t k v now d u d' :
  upsert_revision t k v now d = Ok (u, d') -> advances d d'.
Proof.
  unfold upsert_revision. intros H. destruct (negb _) in H; [done|].
  assert ((forall v0 n0, db_revisions d !! (t, k) = Some (v0, n0) -> v0 <= v) ->
    advances d (set_revisions (<[(t, k) := (v, now)]> (db_revisions d)) d)) as Hset.
  { intros Hle. destruct (reflexivity (R := advances) d). split; simpl; auto.
    intros tk v0 n0 H0. destruct (decide ((t, k) = tk)) as [<-|].
    - rewrite lookup_insert_eq. exists v, now. split; [done|]. by eapply Hle.
    - rewrite lookup_insert_ne by done. eauto. }
  destruct (db_revisions d !! (t, k)) as [[stored ?]|] eqn:E.
  - destruct (Z.leb_spec stored v); injection H as _ <-; [|reflexivity].
    apply Hset. intros v0 n0 ?. simplify_eq. done.
  - injection H as _ <-. by apply Hset.
Qed.

Lemma record_effect_advances key e : evolves advances (record_effect key e).
Proof.
  unfold record_effect; evolve; apply evolves_stmt; try apply _; intros d u d'.
  - unfold insert_effect. destruct (_ || _)%bool eqn:G; [done|]. intros [= _ <-]. split_guards.
    destruct (reflexivity (R := advances) d). split; simpl; auto.
    intros k e0 He0. rewrite lookup_insert_ne; [done|]. intros <-.
    match goal with H : ~ is_Some _ |- _ => apply H; eauto end.
  - unfold count_execution. destruct (_ >? _); [done|]. intros [= _ <-]. by apply advances_frame.
Qed.

Lemma raise_floor_advances v d b d' : raise_floor v d = Ok (b, d') -> advances d d'.
Proof.
  unfold raise_floor, upsert_metadata. intros H.
  destruct (negb _) in H; [done|]. injection H as _ <-.
  destruct (reflexivity (R := advances) d). split; simpl; auto.
  - intros b0 H0. rewrite lookup_insert_eq. eexists. split; [done|]. rewrite H0.
    apply bytes_leb_spec. destruct (bytes_ltb b0 v) eqn:E; [|by right].
    left. by apply bytes_ltb_lt.
  - intros b0 H0. rewrite lookup_insert_ne by done. done.
Qed.

(** Writing another metadata key. *)
Lemma upsert_metadata_advances k v d u d' :
  upsert_metadata k v d = Ok (u, d') ->
  k <> OWNER_FENCE_EPOCH_FLOOR_KEY -> (db_metadata d !! BINDING_KEY = None \/ k <> BINDING_KEY) ->
  advances d d'.
Proof.
  unfold upsert_metadata. intros H Hf Hb. destruct (negb _) in H; [done|]. injection H as _ <-.
  destruct (reflexivity (R := advances) d). split; simpl; auto.
  - intros b H0. rewrite lookup_insert_ne by done. auto.
  - intros b H0. destruct Hb as [Hb|Hb]; [congruence|]. rewrite lookup_insert_ne by done. auto.
Qed.

Ltac frame_stmt :=
  apply evolves_stmt; [apply _|]; intros ? ? ? [= _ <-]; by apply advances_frame.

Lemma increment_drop_advances p n : evolves advances (increment_drop p n).
Proof.
  apply evolves_stmt; [apply _|]. intros d u d'. cbv zeta. destruct (_ || _)%bool; [done|].
  intros [= _ <-]. by apply advances_frame.
Qed.

Lemma increment_drops_advances l : evolves advances (increment_drops l).
Proof. induction l as [|[p n] l IH]; simpl; evolve; [apply increment_drop_advances|done]. Qed.

Lemma evict_advances fuel max_bytes : evolves advances (evict fuel max_bytes).
Proof.
  induction fuel as [|fuel IH]; simpl; evolve; [|apply increment_drop_advances|done].
  apply evolves_stmt; [apply _|]. intros d p d'. unfold delete_first_evicted.
  destruct (first_evicted _); [|done]. intros [= _ <-]. by apply advances_frame.
Qed.

Lemma insert_telemetry_advances r d u d' : insert_telemetry r d = Ok (u, d') -> advances d d'.
Proof.
  unfold insert_telemetry. destruct (telemetry_check r); simpl; [|done].
  case_bool_decide; intros H'; injection H' as _ <-; by apply advances_frame.
Qed.

Lemma prune_advances now : evolves advances (prune_expired_telemetry now).
Proof.
  unfold prune_expired_telemetry; evolve; [|apply increment_drops_advances]. frame_stmt.
Qed.

Lemma not_terminal_state from s r :
  Forall (fun s => ~ terminal s) from -> s ∈ from -> row_state r = as_str s -> ~ terminal_row r.
Proof.
  intros F Hs E (s' & T & E'). rewrite E in E'. apply (inj as_str) in E' as <-.
  by apply (proj1 (Forall_forall _ _) F s).
Qed.

Lemma transition_advances key from s :
  (forall r, same_identity r (s r)) -> Forall (fun s => ~ terminal s) from ->
  evolves advances (transition key from s).
Proof.
  intros Hid F. unfold transition, command, query_command; evolve.
  apply evolves_stmt; [apply _|]. intros d n d' H. split_guards.
  eapply update_command_advances; eauto. intros r Hr. split_guards. by eapply (not_terminal_state from (rec_state a0)).
Qed.

Lemma complete_with_revision_advances key id resource states s now :
  (forall r, same_identity r (s r)) -> Forall (fun s => ~ terminal s) states ->
  evolves advances (complete_with_revision key id resource states s now).
Proof.
  intros Hid F. unfold complete_with_revision, query_command; evolve.
  - by_stmt upsert_revision_advances.
  - apply evolves_stmt; [apply _|]. intros d n d' H.
    eapply update_command_advances; eauto. intros r Hr. split_guards.
    match goal with H : existsb _ _ = true |- _ => apply existsb_exists in H as (s0 & Hin & Hs) end.
    split_guards. eapply (not_terminal_state states s0); eauto. by apply list_elem_of_In.
Qed.

(** Every operation, under every fault schedule, advances the database. *)
Lemma journal_op_advances A (m : Sql Db A) : JournalOp A m -> evolves advances m.
Proof.
  assert (forall l, l = [Running] \/ l = [Accepted; Running; Unknown] ->
    Forall (fun s => ~ terminal s) l) as Hlive.
  { intros l [-> | ->]; repeat (apply Forall_cons; split); try apply Forall_nil_2;
      by intros [|]. }
  destruct 1.
  - unfold record_verified_session_grant; evolve.
    apply evolves_stmt; [apply _|]. intros d u d' H. by eapply upsert_metadata_advances; eauto.
  - unfold bind_authority; evolve. apply evolves_stmt; [apply _|]. intros d u d'.
    case_bool_decide as Hb; [done|]. intros H. eapply upsert_metadata_advances; eauto.
    left. by apply eq_None_not_Some.
  - unfold accept_command, query_command, query_command_by_id; evolve.
    by_stmt insert_command_advances.
  - unfold transition_command; evolve. apply transition_advances; auto with ocservia.
  - unfold transition_command_attested; evolve. apply transition_advances; auto with ocservia.
  - unfold complete_external_with_revision; evolve.
    apply complete_with_revision_advances; auto with ocservia.
  - unfold complete_external_with_revision_attested; evolve.
    apply complete_with_revision_advances; auto with ocservia.
  - unfold reconcile_external_with_revision; evolve.
    apply complete_with_revision_advances; auto with ocservia.
  - unfold execute_synthetic_effect, query_effect; evolve.
    apply evolves_ok_of, record_effect_advances.
  - unfold execute_and_complete_synthetic, query_command, query_effect; evolve;
      [apply evolves_ok_of, record_effect_advances..|].
    apply evolves_stmt; [apply _|]. intros d n d' H. eapply update_command_advances; eauto with ocservia.
    intros r Hr. split_guards. eapply (not_terminal_state [Running] Running); eauto. apply list_elem_of_singleton; done.
  - unfold enqueue_telemetry; evolve.
    + apply evolves_ok_of, prune_advances.
    + by_stmt insert_telemetry_advances.
    + apply evolves_ok_of. intros c. apply evict_advances.
  - unfold telemetry_pending; evolve. apply evolves_ok_of, prune_advances.
  - unfold acknowledge_telemetry. frame_stmt.
  - unfold raise_owner_fence_epoch_floor; evolve. by_stmt raise_floor_advances.
Qed.
