(* ===== verification/JournalTheorems.v ===== *)
(** What the journal guarantees: reachable databases are well formed, terminal
    commands are final, acceptance is atomic and idempotent, completions are
    atomic with their applied revision, and the fence floor is the running
    maximum of the accepted epochs. *)

From stdpp Require Import base list gmap numbers countable strings sorting.
From Stdlib Require Import ZArith Lia Bool Strings.Byte.
From S2P Require Import Prelude Bytes Sql Journal Telemetry JournalFacts.

Local Open Scope Z_scope.

(** * Reachable databases *)

(** The databases of a journal: those obtained from a new file by any sequence
    of operations, each under any fault schedule. *)
Inductive reachable : Db -> Prop :=
| reachable_empty : reachable empty_db
| reachable_op A (m : Sql Db A) faults d :
    reachable d -> JournalOp A m -> reachable (conn_db (snd (m (mkConn d faults)))).

(** Whatever operations run, in whatever order and whichever statements
    fail, the journal's tables satisfy their constraints, command identities
    are unique, and the execution counter equals the number of recorded
    effects. *)
Theorem reachable_wf d : reachable d -> wf_db d.
Proof.
  induction 1 as [|A m faults d _ IH H]; [apply wf_empty|].
  exact (journal_op_wf A m H (mkConn d faults) IH).
Qed.

Lemma reachable_wf_witness : wf_db (conn_db (snd (accept_command (be 16 1) (be 16 2) (be 32 3) 2 10
  (mkConn empty_db [false; true])))).
Proof.
  apply reachable_wf. apply (reachable_op _ (accept_command _ _ _ _ _)); [apply reachable_empty|].
  apply Op_accept. unfold in_i32. lia.
Defined.

(** A command that reached a terminal state is final: no operation, under
    any fault schedule, changes any column of its row. *)
Theorem terminal_command_final A (m : Sql Db A) c key r :
  JournalOp A m -> db_commands (conn_db c) !! key = Some r -> terminal_row r ->
  db_commands (conn_db (snd (m c))) !! key = Some r.
Proof.
  intros Hop Hr Ht.
  destruct (adv_commands _ _ (journal_op_advances A m Hop c) key r Hr) as (r' & Hr' & _ & E).
  by rewrite Hr', E.
Qed.

Definition sample_row : CommandRow :=
  mkCommandRow (be 16 1) (be 16 2) (be 32 3) 2 (str "succeeded") (Some []) None None 10 11.

Lemma terminal_command_final_witness :
  db_commands (conn_db (snd (transition_command (be 16 1) [Running; Unknown] Running None None 12
    (mkConn (set_commands {[be 16 1 := sample_row]} empty_db) [])))) !! be 16 1 = Some sample_row.
Proof.
  apply (terminal_command_final CommandRecord
    (transition_command (be 16 1) [Running; Unknown] Running None None 12)).
  - apply Op_transition. repeat (apply Forall_cons; split); try apply Forall_nil_2; by intros [|].
  - vm_compute. reflexivity.
  - exists Succeeded. split; [by left|reflexivity].
Defined.

(** * Acceptance *)

(** What [accept_command] answers, as a function of the two lookups. *)
Definition accept_answer (id sha : bytes) (version : Z) (by_key by_id : option CommandRecord)
    : option AcceptOutcome :=
  match by_key, by_id with
  | None, None => None
  | Some k, Some i =>
      if bool_decide (rec_idempotency_key k = rec_idempotency_key i)
         && bool_decide (rec_command_id k = id)
      then if bool_decide (rec_payload_sha256 k = sha)
              && bool_decide (rec_payload_hash_version k = version)
           then Some (OutcomeReplay k) else Some (OutcomePayloadConflict k)
      else Some (OutcomeIdentityConflict k)
  | Some k, None => Some (OutcomeIdentityConflict k)
  | None, Some i => Some (OutcomeIdentityConflict i)
  end.

Definition accepted_row (key id sha : bytes) (version now : Z) : CommandRow :=
  mkCommandRow key id sha version (str "accepted") None None None now now.

Lemma accepted_row_check key id sha version now :
  array 16 key -> array 16 id -> array 32 sha -> 0 <= version ->
  command_check (accepted_row key id sha version now) = true.
Proof.
  unfold array. intros H1 H2 H3 H4. unfold command_check, len; simpl.
  rewrite H1, H2, H3. replace (0 <=? version) with true by lia. reflexivity.
Qed.

Lemma insert_command_fresh r d :
  db_commands d !! row_idempotency_key r = None -> find_command (row_command_id r) d = None ->
  command_check r = true ->
  insert_command r d = Ok (tt, set_commands (<[row_idempotency_key r := r]> (db_commands d)) d).
Proof.
  intros Hk Hi Hc. unfold insert_command. rewrite Hk, Hc. simpl.
  destruct (existsb _ _) eqn:E; [|done].
  apply existsb_exists in E as ((k & r0) & Hin & E). apply bool_decide_eq_true in E.
  apply list_elem_of_In, elem_of_map_to_list in Hin.
  by destruct (find_command_None _ _ _ _ Hi Hin).
Qed.

Lemma accept_command_exec d key id sha version now :
  wf_db d -> array 16 key -> array 16 id -> array 32 sha -> 0 <= version < 2 ^ 31 ->
  exists by_key by_id,
    decode_opt (db_commands d !! key) = Ok by_key /\ decode_opt (find_command id d) = Ok by_id /\
    exec (accept_command key id sha version now) d =
    match accept_answer id sha version by_key by_id with
    | Some outcome => (Ok outcome, d)
    | None =>
        let r := accepted_row key id sha version now in
        (Ok (OutcomeAccepted (record_of r Accepted)),
         set_commands (<[key := r]> (db_commands d)) d)
    end.
Proof.
  intros W Hk Hi Hs Hv.
  pose proof (decode_lookup d key W) as Dk. pose proof (decode_find d id W) as Di.
  eexists _, _. split; [exact Dk|]. split; [exact Di|].
  unfold accept_command, query_command, query_command_by_id. run_sql. rewrite Dk. run_sql.
  rewrite Di. run_sql.
  assert (forall r, command_check r = true -> exists s, CommandState_parse (row_state r) = Ok s)
    as Hparse.
  { intros r Hr. destruct (command_check_state r Hr) as [s ->]. exists s. apply parse_as_str. }
  destruct (db_commands d !! key) as [rk|] eqn:Ek;
    destruct (find_command id d) as [ri|] eqn:Ei.
  3: { apply find_command_key in Ei as [Eid Ei]; [|done].
       destruct (Hparse ri) as [s ->]; [by eapply wf_check|]. simpl. by run_sql. }
  3: { run_sql. fold (accepted_row key id sha version now).
       rewrite insert_command_fresh by (try done; apply accepted_row_check; auto; lia).
       run_sql. rewrite lookup_insert_eq. simpl.
       rewrite (decode_row_ok (accepted_row key id sha version now) Accepted);
         [|apply accepted_row_check; auto; lia|unfold in_i32; simpl; lia|done].
       run_sql. done. }
  all: destruct (Hparse rk) as [s ->]; [by eapply wf_check|]; simpl.
  - apply find_command_key in Ei as [Eid Ei]; [|done].
    destruct (Hparse ri) as [s' ->]; [by eapply wf_check|]. simpl.
    repeat (destruct (bool_decide _); simpl; try by run_sql).
  - by run_sql.
Qed.

(** On a well-formed journal and without storage failures,
    [accept_command] answers exactly by the rows found under the idempotency
    key and under the command identity: it inserts an [accepted] row and
    reports [Accepted] when there is none, and otherwise changes nothing and
    reports a replay, a payload conflict or an identity conflict. *)
Theorem accept_command_spec d key id sha version now :
  wf_db d -> array 16 key -> array 16 id -> array 32 sha -> 0 <= version < 2 ^ 31 ->
  exists by_key by_id,
    decode_opt (db_commands d !! key) = Ok by_key /\ decode_opt (find_command id d) = Ok by_id /\
    exec (accept_command key id sha version now) d =
    match accept_answer id sha version by_key by_id with
    | Some outcome => (Ok outcome, d)
    | None =>
        let r := accepted_row key id sha version now in
        (Ok (OutcomeAccepted (record_of r Accepted)),
         set_commands (<[key := r]> (db_commands d)) d)
    end.
Proof. apply accept_command_exec. Qed.

Lemma accept_command_spec_witness :
  exists by_key by_id,
    decode_opt (db_commands empty_db !! be 16 1) = Ok by_key
    /\ decode_opt (find_command (be 16 2) empty_db) = Ok by_id /\
    exec (accept_command (be 16 1) (be 16 2) (be 32 3) 2 10) empty_db =
    match accept_answer (be 16 2) (be 32 3) 2 by_key by_id with
    | Some outcome => (Ok outcome, empty_db)
    | None =>
        let r := accepted_row (be 16 1) (be 16 2) (be 32 3) 2 10 in
        (Ok (OutcomeAccepted (record_of r Accepted)),
         set_commands (<[be 16 1 := r]> (db_commands empty_db)) empty_db)
    end.
Proof.
  apply (accept_command_spec empty_db (be 16 1) (be 16 2) (be 32 3) 2 10);
    [apply wf_empty|reflexivity..|lia].
Defined.

Lemma accept_command_run key id sha version now c :
  let '(r, c') := accept_command key id sha version now c in
  match r with
  | Ok (OutcomeAccepted record) =>
      let row := accepted_row key id sha version now in
      db_commands (conn_db c) !! key = None /\ find_command id (conn_db c) = None
      /\ conn_db c' = set_commands (<[key := row]> (db_commands (conn_db c))) (conn_db c)
      /\ record = record_of row Accepted
  | _ => conn_db c' = conn_db c
  end.
Proof.
  destruct (accept_command key id sha version now c) as [[o|e] c'] eqn:H;
    [|by apply transaction_rollback in H].
  apply transaction_commit in H as (faults & c2 & H & ->).
  unfold query_command, query_command_by_id in H.
  invert_sql H; subst; simpl in *; journal_facts; try congruence.
  match goal with H : insert_command _ _ = _ |- _ => apply insert_command_ok in H as (Hk & _ & E) end.
  match goal with H : conn_db ?c = set_commands _ _ |- _ => rewrite H in * end. simpl in *.
  split; [done|]. split; [done|]. split; [done|].
  match goal with H : <[key := _]> _ !! key = Some _ |- _ =>
    rewrite lookup_insert_eq in H; injection H as <- end.
  simpl in Estate. apply (inj as_str Accepted) in Estate as Es. by rewrite Erec, <- Es.
Qed.

(** Under every fault schedule [accept_command] is atomic: an error or a
    conflict leaves the journal unchanged, and [Accepted] is only answered
    when neither the key nor the command identity was known, with exactly the
    [accepted] row added. *)
Theorem accept_command_atomic key id sha version now c :
  let '(r, c') := accept_command key id sha version now c in
  match r with
  | Ok (OutcomeAccepted record) =>
      let row := accepted_row key id sha version now in
      db_commands (conn_db c) !! key = None /\ find_command id (conn_db c) = None
      /\ conn_db c' = set_commands (<[key := row]> (db_commands (conn_db c))) (conn_db c)
      /\ record = record_of row Accepted
  | _ => conn_db c' = conn_db c
  end.
Proof. apply accept_command_run. Qed.

(** * Completion with an applied revision *)

Lemma upsert_revision_ok t k v now d u d' :
  upsert_revision t k v now d = Ok (u, d') ->
  (d' = set_revisions (<[(t, k) := (v, now)]> (db_revisions d)) d
   /\ forall v0 n0, db_revisions d !! (t, k) = Some (v0, n0) -> v0 <= v)
  \/ (d' = d /\ exists v0 n0, db_revisions d !! (t, k) = Some (v0, n0) /\ v < v0).
Proof.
  unfold upsert_revision. intros H. destruct (negb _) in H; [done|].
  destruct (db_revisions d !! (t, k)) as [[stored n]|].
  - destruct (Z.leb_spec stored v); injection H as _ <-; [left|right].
    + split; [done|]. intros v0 n0 E. by simplify_eq.
    + split; [done|]. by exists stored, n.
  - injection H as _ <-. by left.
Qed.

Lemma complete_with_revision_ok key id resource states s now c record c' :
  (forall r, same_identity r (s r)) -> (forall r, row_state (s r) = as_str Succeeded) ->
  complete_with_revision key id resource states s now c = (Ok record, c') ->
  let tk := (res_type resource, res_key resource) in
  let d := conn_db c in
  exists row st,
    db_commands d !! key = Some row /\ row_command_id row = id
    /\ row_state row = as_str st /\ st ∈ states
    /\ record = record_of (s row) Succeeded
    /\ (forall v n, db_revisions d !! tk = Some (v, n) -> v <= res_revision resource)
    /\ conn_db c' =
       set_commands (<[key := s row]> (db_commands d))
         (set_revisions (<[tk := (res_revision resource, now)]> (db_revisions d)) d).
Proof.
  intros Hid Hst H tk d.
  apply transaction_commit in H as (faults & c2 & H & ->).
  unfold query_command in H. invert_sql H; subst; simpl in *; journal_facts; split_guards.
  match goal with H : upsert_revision _ _ _ _ _ = _ |- _ => apply upsert_revision_ok in H end.
  match goal with H : update_command _ _ _ _ = _ |- _ =>
    apply update_command_inv in H as [[-> _]|(r & Hr & Hw & _ & _ & Hset)]; [done|] end.
  match goal with H : _ \/ _ |- _ => destruct H as [[Hup Hle]|(Hup & v0 & n0 & Hv & Hlt)] end;
    rewrite Hup in *; simpl in *.
  - assert (rec_command_id a0 = row_command_id row0) as Eid by (by rewrite Erec0).
    assert (r = row0) as -> by congruence.
    match goal with H : db_commands (conn_db _) !! key = Some row |- _ =>
      rewrite Hset in H; simpl in H; rewrite lookup_insert_eq in H; injection H as <- end.
    rewrite Hst in Estate. apply (inj as_str Succeeded) in Estate.
    exists row0, (rec_state a0). split; [done|]. split; [rewrite <- Eid; by apply dec_stable|].
    repeat (split; [done|]). split; [by rewrite Erec, <- Estate|]. by rewrite Hset.
  - rewrite Hv in *. simplify_eq. lia.
Qed.

(** [complete_external_with_revision_attested] is atomic under every fault
    schedule: on error nothing is written; on success the command was running
    under this identity, its row becomes [succeeded] with exactly this result
    and receipt, and the resource's revision becomes exactly the applied one,
    which is no regression. *)
Theorem complete_attested_atomic key id resource res proof now c :
  let '(r, c') := complete_external_with_revision_attested key id resource res proof now c in
  let tk := (res_type resource, res_key resource) in
  let d := conn_db c in
  match r with
  | Err _ => conn_db c' = d
  | Ok record =>
      exists row,
        db_commands d !! key = Some row /\ row_command_id row = id
        /\ row_state row = as_str Running
        /\ let row' := set_outcome_attested (as_str Succeeded) (Some res) None proof now row in
           record = record_of row' Succeeded
           /\ (forall v n, db_revisions d !! tk = Some (v, n) -> v <= res_revision resource)
           /\ conn_db c' =
              set_commands (<[key := row']> (db_commands d))
                (set_revisions (<[tk := (res_revision resource, now)]> (db_revisions d)) d)
  end.
Proof.
  unfold complete_external_with_revision_attested.
  destruct (_ || _)%bool; [done|].
  destruct (complete_with_revision _ _ _ _ _ _ c) as [[record|e] c'] eqn:H;
    [|by apply transaction_rollback in H].
  apply complete_with_revision_ok in H as (row & st & H1 & H2 & H3 & H4 & H5 & H6 & H7);
    [|auto with ocservia|done].
  apply list_elem_of_singleton in H4 as ->. by exists row.
Qed.

(** * The fence epoch floor *)

(** The floor as the Agent reads it: zero until a fence was accepted. *)
Definition floor_of (d : Db) : Z :=
  match db_metadata d !! OWNER_FENCE_EPOCH_FLOOR_KEY with
  | Some b => be_value b
  | None => 0
  end.

Lemma owner_fence_epoch_floor_exec d :
  wf_db d -> exec owner_fence_epoch_floor d = (Ok (floor_of d), d).
Proof.
  intros W. unfold owner_fence_epoch_floor, floor_of. run_sql.
  destruct (db_metadata d !! _) as [b|] eqn:E; run_sql; [|done].
  unfold decode_epoch. by rewrite bool_decide_eq_true_2 by (by eapply wf_floor).
Qed.

(** Without storage failures, raising the floor to an epoch stores and
    returns the maximum of the epoch and the previous floor. *)
Theorem raise_owner_fence_epoch_floor_max d epoch :
  wf_db d -> in_u64 epoch ->
  exists d', exec (raise_owner_fence_epoch_floor epoch) d = (Ok (Z.max (floor_of d) epoch), d')
             /\ floor_of d' = Z.max (floor_of d) epoch.
Proof.
  intros W He. unfold raise_owner_fence_epoch_floor, raise_floor, floor_of. run_sql.
  set (stored := match db_metadata d !! OWNER_FENCE_EPOCH_FLOOR_KEY with
                 | Some old => if bytes_ltb old (be 8 epoch) then be 8 epoch else old
                 | None => be 8 epoch end).
  assert (length stored = 8%nat /\ be_value stored = Z.max (floor_of d) epoch) as [Hl Hv].
  { unfold stored, floor_of. unfold in_u64 in He.
    assert (be_value (be 8 epoch) = epoch) as Hbe
      by (rewrite be_value_be; change (8 * Z.of_nat 8) with 64; by rewrite Z.mod_small).
    destruct (db_metadata d !! _) as [old|] eqn:E;
      [|rewrite length_be; split; [done|]; rewrite Hbe; lia].
    apply wf_floor in E; [|done]. unfold bytes_ltb.
    rewrite bytes_compare_be_value, Hbe by (by rewrite length_be).
    destruct (Z.compare_spec (be_value old) epoch); rewrite ?length_be, ?Hbe; split; lia. }
  assert (metadata_check OWNER_FENCE_EPOCH_FLOOR_KEY stored = true) as Hc.
  { unfold metadata_check, len. rewrite Hl. reflexivity. }
  unfold upsert_metadata. rewrite Hc. simpl. run_sql.
  unfold decode_epoch. rewrite bool_decide_eq_true_2 by done. rewrite Hv. eexists. split; [done|]. simpl.
  by rewrite lookup_insert_eq.
Qed.

Lemma raise_owner_fence_epoch_floor_max_witness :
  exists d', exec (raise_owner_fence_epoch_floor 7) empty_db = (Ok (Z.max (floor_of empty_db) 7), d')
             /\ floor_of d' = Z.max (floor_of empty_db) 7.
Proof.
  apply (raise_owner_fence_epoch_floor_max empty_db 7); [apply wf_empty|unfold in_u64; lia].
Defined.

(** The fence floor of a journal never decreases: no operation, under any
    fault schedule, lowers it. *)
Theorem fence_floor_monotone A (m : Sql Db A) c :
  JournalOp A m -> wf_db (conn_db c) -> floor_of (conn_db c) <= floor_of (conn_db (snd (m c))).
Proof.
  intros Hop W.
  pose proof (journal_op_wf A m Hop c W) as W'. pose proof (journal_op_advances A m Hop c) as Adv.
  unfold floor_of at 1. destruct (db_metadata (conn_db c) !! _) as [b|] eqn:E.
  - destruct (adv_floor _ _ Adv b E) as (b' & E' & L). unfold floor_of. rewrite E'.
    apply (wf_floor _ W) in E. apply (wf_floor _ W') in E'.
    unfold bytes_leb in L. rewrite bytes_compare_be_value in L by congruence.
    destruct (Z.compare_spec (be_value b) (be_value b')); [lia|lia|done].
  - unfold floor_of. destruct (db_metadata (conn_db (snd (m c))) !! _) as [b'|]; [|lia].
    pose proof (be_value_range b'). lia.
Qed.

Lemma fence_floor_monotone_witness :
  floor_of empty_db <=
  floor_of (conn_db (snd (raise_owner_fence_epoch_floor 9 (mkConn empty_db [true])))).
Proof.
  apply (fence_floor_monotone Z (raise_owner_fence_epoch_floor 9) (mkConn empty_db [true]));
    [apply Op_raise_floor|apply wf_empty].
Defined.
