(* ===== verification/TelemetryTheorems.v ===== *)
(** What the telemetry buffer guarantees: it never exceeds its byte budget,
    eviction removes the least important and oldest batches first, every
    removed batch is counted, a fault-free enqueue terminates with an answer,
    and delivery is ordered, bounded and free of expired batches. *)

From stdpp Require Import base list gmap numbers countable strings sorting.
From Stdlib Require Import ZArith Lia Bool Strings.Byte.
From S2P Require Import Prelude Bytes Sql Journal Telemetry JournalFacts.

Local Open Scope Z_scope.

(** * The orders *)

Lemma evict_before_spec a b :
  evict_before a b = true <->
  tel_priority b < tel_priority a
  \/ (tel_priority a = tel_priority b
      /\ (tel_observed_at a < tel_observed_at b
          \/ (tel_observed_at a = tel_observed_at b
              /\ bytes_lt (tel_batch_id a) (tel_batch_id b)))).
Proof.
  unfold evict_before. rewrite <- bytes_ltb_lt. destruct (bytes_ltb _ _); lia.
Qed.

Lemma deliver_before_spec a b :
  deliver_before a b = true <->
  tel_priority a < tel_priority b
  \/ (tel_priority a = tel_priority b
      /\ (tel_observed_at a < tel_observed_at b
          \/ (tel_observed_at a = tel_observed_at b
              /\ bytes_lt (tel_batch_id a) (tel_batch_id b)))).
Proof.
  unfold deliver_before. rewrite <- bytes_ltb_lt. destruct (bytes_ltb _ _); lia.
Qed.

Lemma evict_before_trans a b c :
  evict_before a b = true -> evict_before b c = true -> evict_before a c = true.
Proof.
  rewrite !evict_before_spec.
  intros [?|(? & [?|(? & ?)])] [?|(? & [?|(? & ?)])]; try lia.
  right. split; [lia|]. right. split; [lia|]. by transitivity (tel_batch_id b).
Qed.

Lemma bytes_trichotomy a b : bytes_lt a b \/ a = b \/ bytes_lt b a.
Proof.
  unfold bytes_lt. rewrite (bytes_compare_antisym a b).
  destruct (bytes_compare a b) eqn:E; [|by left|by right; right].
  right; left. by apply bytes_compare_eq.
Qed.

Lemma evict_before_total a b :
  tel_batch_id a <> tel_batch_id b -> evict_before a b = true \/ evict_before b a = true.
Proof.
  intros Hne. rewrite !evict_before_spec.
  destruct (bytes_trichotomy (tel_batch_id a) (tel_batch_id b)) as [H|[H|H]]; [|done|];
  destruct (Z.lt_trichotomy (tel_priority a) (tel_priority b)) as [?|[?|?]]; try lia;
  destruct (Z.lt_trichotomy (tel_observed_at a) (tel_observed_at b)) as [?|[?|?]]; try lia;
  [left|right]; right; (split; [lia|]); right; (split; [lia|done]).
Qed.

#[export] Instance deliver_le_total : Total deliver_le.
Proof.
  intros a b. unfold deliver_le.
  destruct (deliver_before b a) eqn:E1, (deliver_before a b) eqn:E2; auto. exfalso.
  apply deliver_before_spec in E1, E2.
  destruct E1 as [?|(? & [?|(? & L1)])], E2 as [?|(? & [?|(? & L2)])]; try lia.
  apply (irreflexivity bytes_lt (tel_batch_id a)). by transitivity (tel_batch_id b).
Qed.

#[export] Instance deliver_le_trans : Transitive deliver_le.
Proof.
  intros a b c. unfold deliver_le. intros H1 H2. apply not_true_iff_false. intros H3.
  apply not_true_iff_false in H1, H2. rewrite deliver_before_spec in *.
  destruct H3 as [?|(? & [?|(? & L3)])]; try lia.
  destruct (bytes_trichotomy (tel_batch_id b) (tel_batch_id a)) as [L|[L|L]].
  - apply H1. right. split; [lia|]. destruct (decide (tel_observed_at b = tel_observed_at a)).
    + right. done.
    + left. lia.
  - apply H2. rewrite <- L in L3. right. split; [lia|].
    destruct (decide (tel_observed_at c = tel_observed_at b)); [by right|left; lia].
  - apply H2. assert (bytes_lt (tel_batch_id c) (tel_batch_id b)) by (by transitivity (tel_batch_id a)).
    right. split; [lia|]. destruct (decide (tel_observed_at c = tel_observed_at b)); [by right|left; lia].
Qed.

(** * The evicted row *)

Lemma fold_first_min r x :
  NoDup (tel_batch_id <$> x :: r) ->
  let m := fold_left (fun m y => if evict_before y m then y else m) r x in
  m ∈ x :: r /\ forall y, y ∈ x :: r -> tel_batch_id y <> tel_batch_id m -> evict_before m y = true.
Proof.
  revert x. induction r as [|z r IH]; intros x Hnd; simpl.
  - split; [set_solver|]. intros y Hy Hne. apply list_elem_of_singleton in Hy. congruence.
  - set (w := if evict_before z x then z else x).
    rewrite !fmap_cons, !NoDup_cons in Hnd. destruct Hnd as (Hx & Hz & Hr).
    assert (NoDup (tel_batch_id <$> w :: r)) as Hw.
    { rewrite fmap_cons, NoDup_cons. unfold w. destruct (evict_before z x); split; set_solver. }
    destruct (IH w Hw) as [Hin Hmin]. split.
    + unfold w in *. destruct (evict_before z x); set_solver.
    + set (m := fold_left _ r w) in *. intros y Hy Hne.
      assert (tel_batch_id z <> tel_batch_id x) as Hzx by set_solver.
      assert (forall u, (u = z \/ u = x) -> u <> w -> evict_before w u = true) as Hother.
      { intros u Hu Huw. unfold w in *. destruct (evict_before z x) eqn:E.
        - destruct Hu as [-> | ->]; congruence.
        - destruct Hu as [-> | ->]; [|congruence].
          by destruct (evict_before_total z x Hzx) as [?|?]; congruence. }
      destruct (decide (y ∈ w :: r)) as [Hyw|Hyw]; [by apply Hmin|].
      assert (y = z \/ y = x) as Hyzx.
      { apply elem_of_cons in Hy as [->|Hy]; [by right|]. apply elem_of_cons in Hy as [->|Hy];
          [by left|]. exfalso. apply Hyw. set_solver. }
      assert (y <> w) as Hyne by set_solver.
      destruct (decide (tel_batch_id w = tel_batch_id m)) as [Ew|Ew].
      * assert (w = m) as <-.
        { apply elem_of_cons in Hin as [->|Hin]; [done|]. exfalso.
          rewrite fmap_cons, NoDup_cons in Hw. destruct Hw as [Hw _]. apply Hw.
          rewrite Ew. apply list_elem_of_fmap. by exists m. }
        by apply Hother.
      * apply evict_before_trans with w; [apply Hmin; [set_solver|done]|by apply Hother].
Qed.

Lemma first_evicted_spec l m :
  NoDup (tel_batch_id <$> l) -> first_evicted l = Some m ->
  m ∈ l /\ forall y, y ∈ without_batch (tel_batch_id m) l -> evict_before m y = true.
Proof.
  destruct l as [|x r]; [done|]. intros Hnd [= <-].
  destruct (fold_first_min r x Hnd) as [H1 H2]. split; [done|].
  intros y [Hne Hy]%list_elem_of_filter. by apply H2.
Qed.

Lemma first_evicted_None l : first_evicted l = None -> l = [].
Proof. by destruct l. Qed.

Lemma NoDup_fmap_key {A B} (f : A -> B) l x y :
  NoDup (f <$> l) -> x ∈ l -> y ∈ l -> f x = f y -> x = y.
Proof.
  intros Hnd (i & Hi)%list_elem_of_lookup (j & Hj)%list_elem_of_lookup E.
  assert (i = j) as <-; [|congruence].
  eapply NoDup_lookup; [exact Hnd|rewrite list_lookup_fmap, Hi; reflexivity|].
  rewrite list_lookup_fmap, Hj. simpl. by rewrite E.
Qed.

(** Removing the row of one batch removes exactly that row. *)
Lemma without_batch_perm m l :
  NoDup (tel_batch_id <$> l) -> m ∈ l -> l ≡ₚ m :: without_batch (tel_batch_id m) l.
Proof.
  intros Hnd Hm. unfold without_batch. apply NoDup_Permutation.
  - by apply NoDup_fmap_1 in Hnd.
  - apply NoDup_cons. split; [by intros [? _]%list_elem_of_filter|].
    apply NoDup_filter. by apply NoDup_fmap_1 in Hnd.
  - intros x. rewrite elem_of_cons, list_elem_of_filter. split.
    + intros Hx. destruct (decide (tel_batch_id x = tel_batch_id m)) as [E|]; [left|by right].
      by apply (NoDup_fmap_key tel_batch_id l).
    + by intros [-> | [_ ?]].
Qed.

(** * Counting *)

Definition count_of (p : Z) (l : list TelemetryRow) : Z :=
  len (filter (fun r => tel_priority r = p) l).

Definition dropped (p : Z) (d : Db) : Z := default 0 (db_drops d !! p).

#[export] Instance buffered_bytes_perm : Proper ((≡ₚ) ==> (=)) buffered_bytes.
Proof. intros l1 l2 H. induction H; simpl; lia. Qed.

#[export] Instance count_of_perm p : Proper ((≡ₚ) ==> (=)) (count_of p).
Proof. intros l1 l2 H. unfold count_of, len. by rewrite H. Qed.

Lemma count_of_cons p r l :
  count_of p (r :: l) = (if bool_decide (tel_priority r = p) then 1 else 0) + count_of p l.
Proof.
  unfold count_of, len. rewrite filter_cons. case_decide; case_bool_decide; simpl; lia.
Qed.

Lemma count_of_app p l1 l2 : count_of p (l1 ++ l2) = count_of p l1 + count_of p l2.
Proof. unfold count_of, len. rewrite filter_app, length_app. lia. Qed.

Lemma buffered_bytes_nonneg l : 0 <= buffered_bytes l.
Proof. induction l as [|r l IH]; simpl; [lia|]. pose proof (len_nonneg (tel_payload r)). lia. Qed.

Lemma increment_drop_ok p n c u c' :
  increment_drop p n c = (Ok u, c') ->
  db_telemetry (conn_db c') = db_telemetry (conn_db c) /\
  forall q, dropped q (conn_db c') = dropped q (conn_db c) + (if bool_decide (p = q) then n else 0).
Proof.
  unfold increment_drop. intros H%stmt_ok. cbv zeta in H. destruct (_ || _)%bool; [done|].
  injection H as _ <-. split; [done|]. intros q. unfold dropped. simpl. case_bool_decide.
  - subst. by rewrite lookup_insert_eq.
  - rewrite lookup_insert_ne by done. lia.
Qed.

Definition counted (q : Z) (counts : list (Z * Z)) : Z :=
  foldr (fun pn acc => (if bool_decide (fst pn = q) then snd pn else 0) + acc) 0 counts.

Lemma increment_drops_ok counts c u c' :
  increment_drops counts c = (Ok u, c') ->
  db_telemetry (conn_db c') = db_telemetry (conn_db c) /\
  forall q, dropped q (conn_db c') = dropped q (conn_db c) + counted q counts.
Proof.
  revert c. induction counts as [|[p n] counts IH]; intros c H.
  - apply ret_ok in H as [_ ->]. split; [done|]. simpl. intros. lia.
  - apply bind_ok in H as (a & c1 & H1 & H2). apply increment_drop_ok in H1 as [E1 D1].
    apply IH in H2 as [E2 D2]. split; [congruence|]. intros q. rewrite D2, D1. unfold counted; simpl. lia.
Qed.

Lemma counted_keys q (f : Z -> Z) ks :
  NoDup ks -> counted q ((fun p => (p, f p)) <$> ks) = if bool_decide (q ∈ ks) then f q else 0.
Proof.
  induction 1 as [|k ks Hk Hnd IH]; [done|]. rewrite fmap_cons. simpl counted.
  change (foldr _ 0 _) with (counted q ((fun p => (p, f p)) <$> ks)). rewrite IH.
  destruct (decide (k = q)) as [->|Hne].
  - rewrite (bool_decide_true (q = q)), (bool_decide_true (q ∈ q :: ks)),
      (bool_decide_false (q ∈ ks)) by set_solver. lia.
  - rewrite (bool_decide_false (k = q)) by done.
    rewrite (bool_decide_ext (q ∈ k :: ks) (q ∈ ks)) by set_solver. lia.
Qed.

Lemma count_by_priority_counted q l : counted q (count_by_priority l) = count_of q l.
Proof.
  unfold count_by_priority. rewrite counted_keys.
  - case_bool_decide as Hq; [done|]. unfold count_of, len.
    destruct (filter _ l) as [|x r] eqn:E; [done|]. exfalso. apply Hq.
    rewrite merge_sort_Permutation, elem_of_remove_dups.
    assert (x ∈ filter (fun r => tel_priority r = q) l) as [Hp Hx]%list_elem_of_filter
      by (rewrite E; set_solver).
    apply list_elem_of_fmap. by exists x.
  - rewrite merge_sort_Permutation. apply NoDup_remove_dups.
Qed.

(** * The eviction loop *)

(** A successful eviction splits the buffer into the evicted and the kept
    rows; it stops as soon as the kept rows fit. *)
Record eviction (max_bytes : Z) (before evicted kept : list TelemetryRow) : Prop := {
  ev_split : before ≡ₚ evicted ++ kept;
  ev_order x y : x ∈ evicted -> y ∈ kept -> evict_before x y = true;
  ev_fits : buffered_bytes kept <= max_bytes;
  ev_needed x : last evicted = Some x -> max_bytes < len (tel_payload x) + buffered_bytes kept }.

Lemma evict_ok fuel max_bytes c u c' :
  evict fuel max_bytes c = (Ok u, c') -> NoDup (tel_batch_id <$> db_telemetry (conn_db c)) ->
  exists evicted,
    eviction max_bytes (db_telemetry (conn_db c)) evicted (db_telemetry (conn_db c')) /\
    forall q, dropped q (conn_db c') = dropped q (conn_db c) + count_of q evicted.
Proof.
  revert c. induction fuel as [|fuel IH]; intros c; [done|]. cbn [evict]. intros H Hnd.
  apply bind_ok in H as (total & c1 & H1 & H). apply query_ok in H1 as [H1 E1].
  unfold sum_payloads in H1. destruct (_ >? _) in H1; [done|]. injection H1 as <-.
  destruct (Z.leb_spec (buffered_bytes (db_telemetry (conn_db c))) max_bytes).
  - apply ret_ok in H as [_ ->]. exists []. rewrite E1.
    split; [split; [done|by intros x y ?%elem_of_nil|done|done]|].
    intros q. change (count_of q []) with 0. lia.
  - apply bind_ok in H as (p & c2 & H2 & H). apply stmt_ok in H2.
    unfold delete_first_evicted in H2. rewrite E1 in H2.
    destruct (first_evicted _) as [m|] eqn:Em; [|done]. injection H2 as <- E2.
    apply bind_ok in H as (u' & c3 & H3 & H). apply increment_drop_ok in H3 as [E3 D3].
    destruct (first_evicted_spec _ m Hnd Em) as [Hm Hmin].
    pose proof (without_batch_perm m _ Hnd Hm) as Hperm.
    assert (db_telemetry (conn_db c3) = without_batch (tel_batch_id m) (db_telemetry (conn_db c)))
      as Etel by (rewrite E3, <- E2; done).
    apply IH in H as (evicted & [Hs Ho Hf Hn] & D);
      [|rewrite Etel; by apply NoDup_fmap_filter].
    rewrite Etel in Hs. exists (m :: evicted). split; [split|].
    + by rewrite Hperm, Hs.
    + intros x y [->|Hx]%elem_of_cons Hy; [|eauto]. apply Hmin. rewrite Hs. set_solver.
    + done.
    + intros x. destruct evicted as [|e evicted]; [|by apply Hn]. intros [= <-].
      rewrite Hperm, Hs in H0. simpl in H0. lia.
    + intros q. rewrite D, D3, count_of_cons, <- E2. unfold dropped. simpl. lia.
Qed.

(** * Enqueueing *)

Definition telemetry_row (i : TelemetryInsert) : TelemetryRow :=
  mkTelemetryRow (ins_batch_id i) (ins_priority i) (ins_observed_at i) (ins_expires_at i)
    (ins_payload i).

(** The rows the pruning of [enqueue_telemetry] and [telemetry_pending] keeps. *)
Definition unexpired (now : Z) (l : list TelemetryRow) : list TelemetryRow :=
  filter (fun r =>
    expired now (i64_saturating_sub now OFFLINE_RECOVERY_RETENTION_SECONDS) r = false) l.

(** The rows the buffer holds when eviction starts. *)
Definition offered (i : TelemetryInsert) (l : list TelemetryRow) : list TelemetryRow :=
  let l := unexpired (ins_now i) l in
  if bool_decide (ins_batch_id i ∈ tel_batch_id <$> l) then l else l ++ [telemetry_row i].

Lemma count_of_filter_split p (f : TelemetryRow -> bool) l :
  count_of p l = count_of p (filter (fun r => f r = true) l)
                 + count_of p (filter (fun r => f r = false) l).
Proof.
  induction l as [|r l IH]; [done|]. rewrite !filter_cons, count_of_cons, IH.
  destruct (f r); simpl; rewrite count_of_cons; lia.
Qed.

Lemma prune_ok now c u c' :
  prune_expired_telemetry now c = (Ok u, c') ->
  db_telemetry (conn_db c') = unexpired now (db_telemetry (conn_db c)) /\
  forall q, dropped q (conn_db c') + count_of q (db_telemetry (conn_db c')) =
            dropped q (conn_db c) + count_of q (db_telemetry (conn_db c)).
Proof.
  unfold prune_expired_telemetry. intros H.
  apply bind_ok in H as (counts & c1 & H1 & H). apply query_ok in H1 as [[= <-] E1].
  apply bind_ok in H as (u' & c2 & H2 & H). apply stmt_ok in H2. injection H2 as _ E2.
  apply increment_drops_ok in H as [E3 D]. rewrite E1 in E2.
  rewrite <- E2 in E3. simpl in E3. rewrite E3. split; [done|]. intros q.
  rewrite D, count_by_priority_counted, <- E2.
  rewrite (count_of_filter_split q
    (expired now (i64_saturating_sub now OFFLINE_RECOVERY_RETENTION_SECONDS))
    (db_telemetry (conn_db c))). unfold dropped; simpl. lia.
Qed.

Lemma insert_telemetry_ok i d u d' :
  insert_telemetry (telemetry_row i) d = Ok (u, d') ->
  d' = set_telemetry (if bool_decide (ins_batch_id i ∈ tel_batch_id <$> db_telemetry d)
                      then db_telemetry d else db_telemetry d ++ [telemetry_row i]) d.
Proof.
  unfold insert_telemetry. destruct (negb _); [done|]. simpl.
  case_bool_decide; intros [= _ <-]; by destruct d.
Qed.

(** Everything a successful enqueue did. *)
Lemma enqueue_ok i c b c' :
  enqueue_telemetry i c = (Ok b, c') -> wf_db (conn_db c) ->
  let before := db_telemetry (conn_db c) in
  let after := db_telemetry (conn_db c') in
  b = bool_decide (ins_batch_id i ∈ tel_batch_id <$> after) /\
  exists evicted,
    eviction (ins_max_bytes i) (offered i before) evicted after /\
    forall q, dropped q (conn_db c') + count_of q after =
              dropped q (conn_db c) + count_of q before
              + (if bool_decide (ins_batch_id i ∈ tel_batch_id <$> unexpired (ins_now i) before)
                 then 0 else if bool_decide (ins_priority i = q) then 1 else 0).
Proof.
  unfold enqueue_telemetry. intros H W. cbv zeta in *. destruct (_ || _)%bool in H; [done|].
  apply transaction_commit in H as (faults & c2 & H & E). rewrite E. clear E.
  apply bind_ok in H as (u1 & c3 & H1 & H).
  assert (wf_db (conn_db c3)) as W3.
  { pose proof (prune_expired_telemetry_wf (ins_now i)) as Hw. apply evolves_ok_of in Hw.
    apply (Hw _ _ _ H1). done. }
  apply prune_ok in H1 as [E3 D3]. simpl in E3, D3.
  apply bind_ok in H as (u2 & c4 & H2 & H). apply stmt_ok in H2.
  pose proof (insert_telemetry_wf _ _ _ _ H2 W3) as W4. apply (insert_telemetry_ok i) in H2 as E4.
  apply bind_ok in H as (u3 & c5 & H3 & H). apply query_ok in H as [[= <-] E5]. rewrite E5.
  split; [done|]. apply evict_ok in H3 as (evicted & Hev & D5); [|apply W4].
  assert (db_telemetry (conn_db c4) = offered i (db_telemetry (conn_db c))) as Eo
    by (rewrite E4; simpl; by rewrite E3).
  rewrite Eo in Hev. exists evicted. split; [done|]. intros q.
  specialize (D3 q). rewrite E3 in D3. rewrite D5, E4. unfold dropped in *. simpl.
  rewrite <- D3. pose proof (count_of_app q evicted (db_telemetry (conn_db c5))) as Hc.
  rewrite <- (ev_split _ _ _ _ Hev) in Hc. unfold offered in Hc.
  case_bool_decide; [lia|]. rewrite count_of_app, count_of_cons in Hc.
  change (count_of q []) with 0 in Hc. simpl in Hc. case_bool_decide; lia.
Qed.

(** * Termination without storage failures *)

Lemma exec_run {D A} (m : Sql D A) d r d' :
  exec m d = (r, d') -> exists c', m (mkConn d []) = (r, c') /\ conn_db c' = d'.
Proof. unfold exec. destruct (m _) as [r' c']. intros [= <- <-]. eauto. Qed.

(** The counters can still count every buffered batch and [n] more. *)
Definition headroom (n : Z) (d : Db) : Prop :=
  forall q, dropped q d + count_of q (db_telemetry d) + n <= i64_max.

Lemma wf_dropped_nonneg d q : wf_db d -> 0 <= dropped q d.
Proof.
  intros W. unfold dropped. destruct (db_drops d !! q) as [n|] eqn:E; simpl; [|lia].
  apply (wf_drops _ W) in E. lia.
Qed.

#[export] Instance faultless_increment_drop p n : Faultless (increment_drop p n).
Proof. apply _. Qed.
#[export] Instance faultless_increment_drops l : Faultless (increment_drops l).
Proof. induction l as [|[p n] l IH]; simpl; apply _. Qed.
#[export] Instance faultless_prune now : Faultless (prune_expired_telemetry now).
Proof. apply _. Qed.
#[export] Instance faultless_evict fuel max_bytes : Faultless (evict fuel max_bytes).
Proof. induction fuel; simpl; apply _. Qed.
#[export] Instance faultless_evict_loop max_bytes : Faultless (evict_loop max_bytes).
Proof. intros d. apply faultless_evict. Qed.

Lemma increment_drop_exec p n d :
  1 <= p <= 4 -> 0 <= dropped p d + n <= i64_max ->
  exec (increment_drop p n) d = (Ok tt, set_drops (<[p := dropped p d + n]> (db_drops d)) d).
Proof.
  intros Hp Hn. unfold increment_drop. run_sql. unfold between, dropped in *.
  destruct (_ || _)%bool eqn:G; [|done]. exfalso. lia.
Qed.

Lemma counted_nonneg q counts :
  (forall p n, (p, n) ∈ counts -> 0 <= n) -> 0 <= counted q counts.
Proof.
  induction counts as [|[p n] counts IH]; intros Hpos; [done|]. unfold counted in *; simpl.
  pose proof (Hpos p n ltac:(set_solver)).
  assert (0 <= counted q counts) by (apply IH; intros p0 n0 Hpn; apply (Hpos p0 n0); set_solver).
  unfold counted in *. case_bool_decide; lia.
Qed.

Lemma increment_drops_exec counts d :
  wf_db d ->
  (forall p n, (p, n) ∈ counts -> 1 <= p <= 4 /\ 0 <= n) ->
  (forall q, dropped q d + counted q counts <= i64_max) ->
  exists d', exec (increment_drops counts) d = (Ok tt, d').
Proof.
  revert d. induction counts as [|[p n] counts IH]; intros d W Hpos Hle; simpl.
  - run_sql. eauto.
  - pose proof (Hpos p n ltac:(set_solver)) as [Hp Hn].
    pose proof (Hle p) as Hlep. unfold counted in Hlep. simpl in Hlep.
    rewrite bool_decide_true in Hlep by done. fold (counted p counts) in Hlep.
    assert (0 <= counted p counts) by (apply counted_nonneg; intros p0 n0 Hpn; apply (Hpos p0 n0); set_solver).
    pose proof (wf_dropped_nonneg d p W).
    rewrite exec_bind by apply _. rewrite increment_drop_exec by lia.
    assert (exec (increment_drop p n) d = (Ok tt, set_drops (<[p := dropped p d + n]> (db_drops d)) d))
      as Hx by (apply increment_drop_exec; lia).
    apply exec_run in Hx as (c' & Hx & Ec).
    apply IH; [|intros p0 n0 Hpn; apply Hpos; set_solver|].
    + rewrite <- Ec. pose proof (increment_drop_wf p n (mkConn d [])) as Hw. rewrite Hx in Hw. auto.
    + intros q. apply increment_drop_ok in Hx as [_ Hd]. rewrite <- Ec, Hd.
      specialize (Hle q). unfold counted in Hle. simpl in Hle. unfold counted. simpl in *. lia.
Qed.

Lemma evict_exec fuel max_bytes d :
  wf_db d -> headroom 0 d -> buffered_bytes (db_telemetry d) <= i64_max -> 0 <= max_bytes ->
  (length (db_telemetry d) < fuel)%nat ->
  exists d', exec (evict fuel max_bytes) d = (Ok tt, d').
Proof.
  revert d. induction fuel as [|fuel IH]; intros d W Hh Hb Hm Hf; [lia|]. cbn [evict].
  rewrite exec_bind by apply _. rewrite exec_query. unfold sum_payloads.
  destruct (Z.gtb_spec (buffered_bytes (db_telemetry d)) i64_max); [lia|].
  destruct (Z.leb_spec (buffered_bytes (db_telemetry d)) max_bytes); [run_sql; eauto|].
  rewrite exec_bind by apply _. rewrite exec_stmt. unfold delete_first_evicted.
  destruct (first_evicted _) as [m|] eqn:Em;
    [|apply first_evicted_None in Em; rewrite Em in *; simpl in *; lia].
  destruct (first_evicted_spec _ m (wf_batches _ W) Em) as [Hin _].
  pose proof (without_batch_perm m _ (wf_batches _ W) Hin) as Hperm.
  assert (telemetry_check m = true) as Hcheck
    by (pose proof (wf_telemetry _ W) as F; rewrite Forall_forall in F; auto).
  unfold telemetry_check, between in Hcheck. split_guards.
  set (d1 := set_telemetry (without_batch (tel_batch_id m) (db_telemetry d)) d).
  assert (wf_db d1) as W1 by (by apply set_telemetry_filter_wf).
  pose proof (Hh (tel_priority m)) as Hp. rewrite Hperm, count_of_cons in Hp.
  rewrite bool_decide_true in Hp by done.
  pose proof (wf_dropped_nonneg d (tel_priority m) W).
  assert (forall q l, 0 <= count_of q l) as Hnn by (intros; apply len_nonneg).
  pose proof (Hnn (tel_priority m) (without_batch (tel_batch_id m) (db_telemetry d))).
  rewrite exec_bind by apply _. 
  assert (exec (increment_drop (tel_priority m) 1) d1 = 
    (Ok tt, set_drops (<[tel_priority m := dropped (tel_priority m) d1 + 1]> (db_drops d1)) d1)) as Hx
    by (apply increment_drop_exec; change (dropped (tel_priority m) d1) with (dropped (tel_priority m) d); lia).
  rewrite Hx. apply exec_run in Hx as (c' & Hx & <-).
  pose proof (increment_drop_wf (tel_priority m) 1 (mkConn d1 [])) as Hw. rewrite Hx in Hw.
  apply increment_drop_ok in Hx as [Et Hd]. simpl in Et.
  apply IH; rewrite ?Et.
  - by apply Hw.
  - intros q. rewrite Et, Hd. specialize (Hh q). rewrite Hperm, count_of_cons in Hh.
    cbn [conn_db]. change (dropped q d1) with (dropped q d).
    change (db_telemetry d1) with (without_batch (tel_batch_id m) (db_telemetry d)). lia.
  - rewrite Hperm in Hb. simpl in Hb. pose proof (len_nonneg (tel_payload m)). unfold d1; simpl. lia.
  - done.
  - apply Permutation_length in Hperm. simpl in Hperm. unfold d1; simpl. lia.
Qed.

Lemma prune_exec now d :
  wf_db d -> headroom 0 d -> exists d', exec (prune_expired_telemetry now) d = (Ok tt, d').
Proof.
  intros W Hh. unfold prune_expired_telemetry.
  set (cutoff := i64_saturating_sub now _).
  rewrite exec_bind by apply _. rewrite exec_query.
  rewrite exec_bind by apply _. rewrite exec_stmt.
  apply increment_drops_exec.
  - by apply set_telemetry_filter_wf.
  - unfold count_by_priority. intros p n (p' & [= -> ->] & Hp)%list_elem_of_fmap.
    split; [|apply len_nonneg].
    rewrite merge_sort_Permutation, elem_of_remove_dups in Hp.
    apply list_elem_of_fmap in Hp as (r & -> & [_ Hr]%list_elem_of_filter).
    pose proof (wf_telemetry _ W) as F. rewrite Forall_forall in F. apply F in Hr.
    unfold telemetry_check, between in Hr. lia.
  - intros q. rewrite count_by_priority_counted. specialize (Hh q).
    rewrite (count_of_filter_split q (expired now cutoff)) in Hh.
    pose proof (len_nonneg (filter (fun r => tel_priority r = q)
      (filter (fun r => expired now cutoff r = false) (db_telemetry d)))) as Hn.
    fold (count_of q (filter (fun r => expired now cutoff r = false) (db_telemetry d))) in Hn.
    unfold dropped in *. simpl. lia.
Qed.

Lemma buffered_bytes_filter (f : TelemetryRow -> Prop) `{!forall x, Decision (f x)} l :
  buffered_bytes (filter f l) <= buffered_bytes l.
Proof.
  induction l as [|r l IH]; [done|]. rewrite filter_cons. simpl.
  pose proof (len_nonneg (tel_payload r)). case_decide; simpl; lia.
Qed.

Lemma buffered_bytes_app l1 l2 :
  buffered_bytes (l1 ++ l2) = buffered_bytes l1 + buffered_bytes l2.
Proof. induction l1 as [|r l1 IH]; simpl; lia. Qed.

(** A batch the guards of [enqueue_telemetry] and the table accept. *)
Definition valid_insert (i : TelemetryInsert) : bool :=
  telemetry_check (telemetry_row i) && (0 <? ins_max_bytes i).

(** * The theorems *)

(** Under every fault schedule, a successful enqueue leaves the buffer
    within its byte budget and reports truthfully whether the batch is
    retained.  The rows it evicted each precede every kept row in eviction
    order (less important first, then older), and eviction was necessary: with
    the last evicted batch the buffer would not fit. *)
Theorem enqueue_telemetry_evicts i c b c' :
  enqueue_telemetry i c = (Ok b, c') -> wf_db (conn_db c) ->
  let after := db_telemetry (conn_db c') in
  b = bool_decide (ins_batch_id i ∈ tel_batch_id <$> after) /\
  exists evicted,
    eviction (ins_max_bytes i) (offered i (db_telemetry (conn_db c))) evicted after.
Proof.
  intros H W. destruct (enqueue_ok i c b c' H W) as (Hb & evicted & Hev & _). eauto.
Qed.

Definition sample_insert (id priority size : Z) : TelemetryInsert :=
  mkTelemetryInsert (be 16 id) priority 100 1000 (be (Z.to_nat size) 0) 200 6.

Definition sample_db : Db :=
  set_telemetry [telemetry_row (sample_insert 1 1 3); telemetry_row (sample_insert 2 4 3)] empty_db.

Lemma sample_db_wf : wf_db sample_db.
Proof.
  split; try done; [|by repeat constructor].
  apply (bool_decide_unpack _). by vm_compute.
Qed.

Lemma enqueue_telemetry_evicts_witness :
  let c' := snd (enqueue_telemetry (sample_insert 3 2 3) (mkConn sample_db [false])) in
  let after := db_telemetry (conn_db c') in
  true = bool_decide (be 16 3 ∈ tel_batch_id <$> after) /\
  exists evicted,
    eviction 6 (offered (sample_insert 3 2 3) (db_telemetry sample_db)) evicted after.
Proof.
  apply (enqueue_telemetry_evicts (sample_insert 3 2 3) (mkConn sample_db [false]) true);
    [by vm_compute|apply sample_db_wf].
Defined.

(** No batch disappears uncounted: under every fault schedule, for each
    priority the buffered batches plus the persistent drop counter grow by
    exactly one when the enqueued batch was new, and stay equal otherwise. *)
Theorem telemetry_conservation i c b c' q :
  enqueue_telemetry i c = (Ok b, c') -> wf_db (conn_db c) ->
  let before := db_telemetry (conn_db c) in
  dropped q (conn_db c') + count_of q (db_telemetry (conn_db c')) =
  dropped q (conn_db c) + count_of q before
  + (if bool_decide (ins_batch_id i ∈ tel_batch_id <$> unexpired (ins_now i) before)
     then 0 else if bool_decide (ins_priority i = q) then 1 else 0).
Proof.
  intros H W. destruct (enqueue_ok i c b c' H W) as (_ & evicted & _ & Hd). apply Hd.
Qed.

Lemma telemetry_conservation_witness :
  let c' := snd (enqueue_telemetry (sample_insert 3 4 3) (mkConn sample_db [])) in
  dropped 4 (conn_db c') + count_of 4 (db_telemetry (conn_db c')) = 0 + 1 + 1.
Proof.
  apply (telemetry_conservation (sample_insert 3 4 3) (mkConn sample_db []) true _ 4);
    [by vm_compute|apply sample_db_wf].
Defined.

(** Without storage failures enqueueing a valid batch terminates with an
    answer: the eviction loop's fuel always suffices, as long as the drop
    counters and the total size stay within SQLite's 64-bit integers. *)
Theorem enqueue_telemetry_total i d :
  wf_db d -> valid_insert i = true -> headroom 1 d ->
  buffered_bytes (db_telemetry d) + len (ins_payload i) <= i64_max ->
  exists b d', exec (enqueue_telemetry i) d = (Ok b, d').
Proof.
  intros W Hi Hh Hb. unfold valid_insert in Hi. apply andb_true_iff in Hi as [Hi Hmax].
  unfold enqueue_telemetry. pose proof Hi as Hg. unfold telemetry_check, between in Hg.
  assert (ins_payload i <> []) as Hne
    by (intros E; unfold telemetry_row in Hg; simpl in Hg; rewrite E in Hg;
        unfold len in Hg; simpl in Hg; lia).
  apply is_empty_false in Hne. rewrite Hne. simpl in Hg.
  destruct (_ || _)%bool eqn:G; [exfalso; unfold between in G; lia|]. clear G.
  rewrite exec_transaction by apply _. rewrite exec_bind by apply _.
  destruct (prune_exec (ins_now i) d W) as [d1 Hp]; [intros q; specialize (Hh q); lia|].
  rewrite Hp. apply exec_run in Hp as (c1 & Hp & <-).
  pose proof (prune_expired_telemetry_wf (ins_now i) (mkConn d [])) as W1. rewrite Hp in W1.
  specialize (W1 W). simpl in W1. apply prune_ok in Hp as [E1 D1]. simpl in E1, D1.
  rewrite exec_bind by apply _. rewrite exec_stmt. fold (telemetry_row i).
  destruct (insert_telemetry (telemetry_row i) (conn_db c1)) as [[u d2]|e] eqn:Hins.
  2: { exfalso. unfold insert_telemetry in Hins. rewrite Hi in Hins. simpl in Hins.
       by case_bool_decide. }
  pose proof (insert_telemetry_wf _ _ _ _ Hins W1) as W2. apply insert_telemetry_ok in Hins as ->.
  rewrite exec_bind by apply _. rewrite E1 in *.
  pose proof (buffered_bytes_filter (fun r => expired (ins_now i)
    (i64_saturating_sub (ins_now i) OFFLINE_RECOVERY_RETENTION_SECONDS) r = false)
    (db_telemetry d)) as Hle. fold (unexpired (ins_now i) (db_telemetry d)) in Hle.
  pose proof (len_nonneg (ins_payload i)).
  match goal with |- context [exec (evict_loop ?m) ?d2] =>
    destruct (evict_exec (S (length (db_telemetry d2))) m d2) as [d3 H3] end.
  - done.
  - intros q. specialize (Hh q). specialize (D1 q). unfold dropped in *. simpl.
    case_bool_decide; [lia|]. rewrite count_of_app, count_of_cons.
    change (count_of q []) with 0. case_bool_decide; lia.
  - simpl. case_bool_decide; [lia|]. rewrite buffered_bytes_app. simpl. lia.
  - lia.
  - lia.
  - change (exec (evict_loop ?m) ?d2) with (exec (evict (S (length (db_telemetry d2))) m) d2).
    rewrite H3. rewrite exec_query. eauto.
Qed.

Lemma enqueue_telemetry_total_witness :
  exists b d', exec (enqueue_telemetry (sample_insert 3 2 3)) sample_db = (Ok b, d').
Proof.
  apply (enqueue_telemetry_total (sample_insert 3 2 3) sample_db);
    [apply sample_db_wf|by vm_compute| |by vm_compute].
  intros q. unfold dropped, sample_db. simpl. rewrite lookup_empty, !count_of_cons. simpl.
  change (count_of q []) with 0. do 2 case_bool_decide; unfold i64_max; lia.
Defined.

(** Delivery: the answer lists at most [limit] batches of the unexpired
    buffer, in delivery order (more important first, then older), and leaves
    out only batches that come later in that order; expired batches are gone
    from the buffer and counted. *)
Theorem telemetry_pending_ordered limit now c l c' :
  telemetry_pending limit now c = (Ok l, c') -> 0 <= limit ->
  let kept := unexpired now (db_telemetry (conn_db c)) in
  db_telemetry (conn_db c') = kept /\
  (forall q, dropped q (conn_db c') + count_of q kept =
             dropped q (conn_db c) + count_of q (db_telemetry (conn_db c))) /\
  exists rows later,
    l = (fun r => (tel_batch_id r, tel_payload r)) <$> rows /\
    kept ≡ₚ rows ++ later /\ StronglySorted deliver_le rows /\
    (forall x y, x ∈ rows -> y ∈ later -> deliver_le x y) /\
    len rows = Z.min limit (len kept) /\ 1 <= limit <= 256.
Proof.
  unfold telemetry_pending. intros H Hl. destruct (_ || _)%bool eqn:G in H; [done|].
  apply transaction_commit in H as (faults & c2 & H & E). rewrite E. clear E. cbv zeta.
  apply bind_ok in H as (u & c3 & H1 & H). apply prune_ok in H1 as [E1 D1]. simpl in E1, D1.
  apply query_ok in H as [H E2]. rewrite E2, <- E1. split; [done|]. split; [done|].
  case_bool_decide; [|done]. injection H as <-.
  set (sorted := merge_sort deliver_le (db_telemetry (conn_db c3))).
  assert (StronglySorted deliver_le sorted) as Hs
    by (apply (StronglySorted_merge_sort deliver_le)).
  assert (sorted ≡ₚ db_telemetry (conn_db c3)) as Hp by apply merge_sort_Permutation.
  exists (take (Z.to_nat limit) sorted), (drop (Z.to_nat limit) sorted).
  rewrite <- (take_drop (Z.to_nat limit) sorted) in Hs.
  split; [done|]. split; [by rewrite take_drop, Hp|].
  split; [by eapply StronglySorted_app_1_l|].
  split; [intros x y; by eapply StronglySorted_app_1_elem_of|].
  unfold len. rewrite length_take, Hp. lia.
Qed.

Lemma telemetry_pending_ordered_witness :
  let kept := unexpired 200 (db_telemetry sample_db) in
  let '(r, c') := telemetry_pending 1 200 (mkConn sample_db []) in
  r = Ok [(be 16 1, be 3 0)] /\ db_telemetry (conn_db c') = kept.
Proof.
  pose proof (telemetry_pending_ordered 1 200 (mkConn sample_db []) [(be 16 1, be 3 0)]
    (snd (telemetry_pending 1 200 (mkConn sample_db []))) ltac:(by vm_compute) ltac:(lia))
    as (H & _). split; [by vm_compute|exact H].
Defined.
