(* ===== verification/Executor.v ===== *)
(** The Agent's command executor, [rust/crates/agent/src/lib.rs]: command
    validation, and the methods of [CommandExecutor] over the journal.  The
    size of an encoded envelope (prost), the UUID checks (uuid) and the target
    architecture are the operations of the class [Platform]. *)

From stdpp Require Import base list gmap numbers countable strings.
From Stdlib Require Import ZArith Lia Bool Strings.Byte.
From S2P Require Import Prelude Bytes Text Contracts ConfigProfile Authorization.
From S2P Require Import CommandAuthorization Sql Journal.

Local Open Scope Z_scope.

Definition MAX_COMMAND_BYTES : Z := 1024 * 1024.
(** [ocservia_agent_protocol::MAX_MANAGED_RESOURCES] *)
Definition MAX_MANAGED_RESOURCES : Z := 384.

Class Platform := {
  encoded_len : CommandEnvelope -> Z;
  uuid_version : bytes -> Z;
  uuid_parses : bytes -> bool;
  ARCH : bytes }.

(** * Types *)

Inductive CrashPoint := AfterAccepted | BeforeSideEffect | AfterSideEffect | AfterResult.

#[export] Instance CrashPoint_eq_dec : EqDecision CrashPoint.
Proof. solve_decision. Defined.

Record CommandOutcome := mkCommandOutcome { out_record : CommandRecord; out_replayed : bool }.

Record ExternalCommand := mkExternalCommand {
  ext_key : bytes; ext_command_id : bytes; ext_accepted_at : Z }.

Inductive ExternalPreparation :=
| PrepareExecute (command : ExternalCommand)
| PrepareReplay (outcome : CommandOutcome).

Inductive ExternalEffectObservation :=
| AppliedExact | SupersededByNewerRevision | Absent | ObservationUnknown.

#[export] Instance ExternalEffectObservation_eq_dec : EqDecision ExternalEffectObservation.
Proof. solve_decision. Defined.

Inductive DesiredRevisionFence := FenceCurrent | FenceSuperseded | FenceGap.

Inductive CommandError :=
| Rejected (code : bytes)
| IdentityConflict
| PayloadConflict
| PreEffectJournalFailure (source : SqlError)
| OutcomeUnknown (code : bytes) (record : CommandRecord) (source : SqlError)
| InjectedCrash (point : CrashPoint).

Definition rejected (code : String.string) : CommandError := Rejected (str code).

Record ValidatedCommand := mkValidatedCommand {
  val_key : bytes; val_command_id : bytes; val_payload_hash : bytes;
  val_hash_version : SemanticPayloadHashVersion; val_result : bytes; val_external : bool }.

(** * The effect of a method: the journal threaded through, or an error *)

Definition Exec (A : Type) : Type := Conn Db -> result CommandError A * Conn Db.

Definition eret {A} (a : A) : Exec A := fun c => (Ok a, c).
Definition efail {A} (e : CommandError) : Exec A := fun c => (Err e, c).
Definition elift {A} (r : result CommandError A) : Exec A := fun c => (r, c).

Definition ebind {A B} (m : Exec A) (k : A -> Exec B) : Exec B :=
  fun c =>
    match m c with
    | (Ok a, c') => k a c'
    | (Err e, c') => (Err e, c')
    end.

(** A journal call with [map_err]. *)
Definition journal {A} (m : Sql Db A) (f : SqlError -> CommandError) : Exec A :=
  fun c =>
    match m c with
    | (Ok a, c') => (Ok a, c')
    | (Err e, c') => (Err (f e), c')
    end.

Declare Scope exec_scope.
Delimit Scope exec_scope with exec.
Notation "x <- m ;; k" := (ebind m (fun x => k))
  (at level 100, m at next level, right associativity) : exec_scope.
Notation "m ;;; k" := (ebind m (fun _ => k))
  (at level 100, right associativity) : exec_scope.
Local Open Scope exec_scope.

Definition pre_effect_failure : SqlError -> CommandError := PreEffectJournalFailure.

Definition inject (selected : option CrashPoint) (point : CrashPoint) : result CommandError unit :=
  if bool_decide (selected = Some point) then Err (InjectedCrash point) else Ok tt.

(** * Validation *)

Definition fixed_command (n : nat) (value : bytes) (code : String.string) : result CommandError bytes :=
  if bool_decide (length value = n) then Ok value else Err (rejected code).

Definition validate_name (value : bytes) : result CommandError unit :=
  if is_empty value || (len value >? 64)
     || negb (all_bytes_first is_ascii_alphanumeric name_byte value)
  then Err (rejected "name_invalid")
  else Ok tt.

Definition validate_revision (value : Z) : result CommandError unit :=
  if value =? 0 then Err (rejected "revision_invalid") else Ok tt.

Definition validate_typed_secret (secret : option SealedSecretV1) (purpose : SealedSecretPurpose)
    : result CommandError unit :=
  let? secret := ok_or secret (rejected "sealed_secret_invalid") in
  if bool_decide (SealedSecretVersion_try_from (ss_version secret) <> Some SecretV1)
     || bool_decide (SealedSecretPurpose_try_from (ss_purpose secret) <> Some purpose)
     || is_empty (ss_key_id secret)
     || (len (ss_key_id secret) >? 128)
     || (len (ss_ciphertext secret) <? 32)
     || (len (ss_ciphertext secret) >? 16 * 1024)
  then Err (rejected "sealed_secret_invalid")
  else Ok tt.

Definition validate_sealed_secret (secret : option SealedSecretV1) (legacy_secret legacy_key_id : bytes)
    (revision : Z) : result CommandError unit :=
  let? _ := validate_revision revision in
  if negb (is_empty legacy_secret) || negb (is_empty legacy_key_id)
  then Err (rejected "sealed_secret_invalid")
  else validate_typed_secret secret UserPassword.

(** The member loop of [GroupApply]: valid names, strictly increasing. *)
Fixpoint validate_members (previous : option bytes) (members : list bytes)
    : result CommandError unit :=
  match members with
  | [] => Ok tt
  | member :: rest =>
      let? _ := validate_name member in
      if match previous with Some value => bytes_leb member value | None => false end
      then Err (rejected "group_members_invalid")
      else validate_members (Some member) rest
  end.

Section Executor.
Context `{Crypto} `{Platform}.

Definition runtime_architecture : option bytes :=
  if bool_decide (ARCH = str "x86_64") then Some (str "amd64")
  else if bool_decide (ARCH = str "aarch64") then Some (str "arm64")
  else None.

Record CommandContext := mkCommandContext {
  ctx_node_id : bytes; ctx_authorization_revision : Z; ctx_capabilities : gset bytes;
  ctx_session_expires_at_unix_seconds : Z; ctx_command_keys : ControllerCommandKeyring;
  ctx_now_unix_seconds : Z; ctx_cancelled : bool }.

Definition reject_code (e : AuthorizationError) : CommandError := Rejected (AuthorizationError_code e).

Definition validate_agent_upgrade (payload : AgentUpgrade) : result CommandError unit :=
  if negb (valid_target_version (au_target_version payload))
  then Err (rejected "agent_upgrade_version_invalid")
  else if negb (len (au_package_sha256 payload) =? 32)
  then Err (rejected "agent_upgrade_digest_invalid")
  else if negb (valid_architecture (au_architecture payload))
  then Err (rejected "agent_upgrade_architecture_invalid")
  else if bool_decide (runtime_architecture <> Some (au_architecture payload))
  then Err (rejected "agent_upgrade_architecture_mismatch")
  else Ok tt.

Definition validate_session_payload (session_id boot_id : bytes) : result CommandError unit :=
  let? parsed := ok_or (parse_u64 session_id) (rejected "session_id_invalid") in
  if (parsed =? 0) || bool_decide (to_string parsed <> session_id)
  then Err (rejected "session_id_invalid")
  else if negb (uuid_parses boot_id) then Err (rejected "boot_id_invalid")
  else Ok tt.

Definition validate_payload (envelope : CommandEnvelope) : result CommandError (bytes * bytes * bool) :=
  match env_payload envelope with
  | Some PSyntheticNoop => Ok (str "synthetic.noop", str "noop:completed", false)
  | Some (PSyntheticEcho message) =>
      if len message >? 4096 then Err (rejected "payload_size_invalid")
      else Ok (str "synthetic.echo", message, false)
  | Some (PSessionDisconnect payload) =>
      let? _ := validate_session_payload (sm_session_id payload) (sm_boot_id payload) in
      Ok (str "ocserv.session.disconnect", [], true)
  | Some (PSessionTerminate payload) =>
      let? _ := validate_session_payload (sm_session_id payload) (sm_boot_id payload) in
      Ok (str "ocserv.session.terminate", [], true)
  | Some (PIpBanRemove ip) =>
      let? parsed := ok_or (parse_ip ip) (rejected "ip_invalid") in
      if bool_decide (ip_to_string parsed <> ip) then Err (rejected "ip_not_canonical")
      else Ok (str "ocserv.ip_ban.remove", [], true)
  | Some PServiceReload => Ok (str "ocserv.service.reload", [], true)
  | Some (PConfigPlan payload) =>
      if is_empty (cp_candidate payload) || (len (cp_candidate payload) >? 256 * 1024)
         || negb (len (cp_candidate_hash payload) =? 32)
         || bool_decide (sha256 (cp_candidate payload) <> cp_candidate_hash payload)
      then Err (rejected "config_candidate_invalid")
      else Ok (str "ocserv.config.plan", [], true)
  | Some (PConfigApply payload) =>
      if is_empty (ca_candidate payload) || (len (ca_candidate payload) >? 256 * 1024)
         || negb (len (ca_candidate_hash payload) =? 32)
         || negb (len (ca_expected_current_hash payload) =? 32)
         || (ca_desired_revision payload =? 0)
         || bool_decide (sha256 (ca_candidate payload) <> ca_candidate_hash payload)
      then Err (rejected "config_apply_invalid")
      else Ok (str "ocserv.config.apply", [], true)
  | Some (PCompleteConfigPlan _) =>
      let? _ := map_err reject_code (semantic_payload_hash_v2 envelope) in
      Ok (PLAN_CAPABILITY, [], true)
  | Some (PCompleteConfigApply _) =>
      let? _ := map_err reject_code (semantic_payload_hash_v2 envelope) in
      Ok (APPLY_CAPABILITY, [], true)
  | Some (PCertificateCsr payload) =>
      if negb (len (csr_certificate_id payload) =? 16) || is_empty (csr_common_name payload)
         || (len (csr_common_name payload) >? 253) || (len (csr_dns_names payload) >? 32)
         || negb ((csr_key_bits payload =? 2048) || (csr_key_bits payload =? 3072)
                  || (csr_key_bits payload =? 4096))
      then Err (rejected "certificate_csr_invalid")
      else Ok (str "ocserv.certificate.issue", [], true)
  | Some (PCertificateP12 payload) =>
      if negb (len (p12_certificate_id payload) =? 16) || negb (len (p12_artifact_id payload) =? 16)
         || (len (p12_certificate_chain_pem payload) <? 64)
         || (len (p12_certificate_chain_pem payload) >? 256 * 1024)
         || negb (is_empty (p12_sealed_password payload))
         || negb (is_empty (p12_secret_key_id payload))
         || (p12_certificate_version payload =? 0)
         || bool_decide (p12_artifact_expires_at payload = None)
      then Err (rejected "certificate_p12_invalid")
      else
      let? _ := validate_typed_secret (p12_sealed_password_v1 payload) CertificateP12Password in
      Ok (str "ocserv.certificate.issue", [], true)
  | Some (PCertificateRevoke payload) =>
      if negb (len (rev_certificate_id payload) =? 16) || is_empty (rev_reason payload)
         || (len (rev_reason payload) >? 128) || (rev_certificate_version payload =? 0)
      then Err (rejected "certificate_revoke_invalid")
      else Ok (str "ocserv.certificate.revoke", [], true)
  | Some (PUserCreate payload) =>
      let? _ := validate_name (us_username payload) in
      let? _ := validate_sealed_secret (us_sealed_password_v1 payload) (us_sealed_password payload)
        (us_secret_key_id payload) (us_desired_revision payload) in
      Ok (str "ocserv.users.write", [], true)
  | Some (PUserDisable payload) =>
      let? _ := validate_name (ut_username payload) in
      let? _ := validate_revision (ut_desired_revision payload) in
      Ok (str "ocserv.users.write", [], true)
  | Some (PUserEnable payload) =>
      let? _ := validate_name (ut_username payload) in
      let? _ := validate_revision (ut_desired_revision payload) in
      Ok (str "ocserv.users.write", [], true)
  | Some (PUserPasswordRotate payload) =>
      let? _ := validate_name (us_username payload) in
      let? _ := validate_sealed_secret (us_sealed_password_v1 payload) (us_sealed_password payload)
        (us_secret_key_id payload) (us_desired_revision payload) in
      Ok (str "ocserv.users.write", [], true)
  | Some (PGroupApply payload) =>
      let? _ := validate_name (ga_group_name payload) in
      let? _ := validate_revision (ga_desired_revision payload) in
      if len (ga_members payload) >? MAX_MANAGED_RESOURCES
      then Err (rejected "group_members_invalid")
      else
      let? _ := validate_members None (ga_members payload) in
      Ok (str "ocserv.groups.write", [], true)
  | Some (PAgentUpgrade payload) =>
      let? _ := validate_agent_upgrade payload in
      let? capability := ok_or (supported_capability (env_required_capability envelope))
        (rejected "capability_rejected") in
      Ok (capability, [], true)
  | _ => Err (rejected "capability_rejected")
  end.

(** [verify_semantic_payload_hash] of the Agent. *)
Definition verify_envelope_hash (envelope : CommandEnvelope) (version : SemanticPayloadHashVersion)
    : result CommandError bytes :=
  let? recomputed :=
    match version with
    | HashV1 => map_err reject_code (semantic_payload_hash_v1 envelope)
    | HashV2 => map_err reject_code (semantic_payload_hash_v2 envelope)
    | HashUnspecified => Err (rejected "semantic_hash_version_unsupported")
    end in
  let? expected := fixed_command 32 (env_semantic_payload_sha256 envelope)
    "semantic_payload_hash_missing" in
  if bool_decide (recomputed <> expected)
  then Err (rejected "semantic_payload_hash_mismatch")
  else Ok recomputed.

Definition validate_command (envelope : CommandEnvelope) (context : CommandContext)
    : result CommandError ValidatedCommand :=
  let now := ctx_now_unix_seconds context in
  if (encoded_len envelope =? 0) || (encoded_len envelope >? MAX_COMMAND_BYTES)
  then Err (rejected "command_size_invalid")
  else if bool_decide (env_protocol_version envelope <> COMMAND_PROTOCOL_VERSION)
          && bool_decide (env_protocol_version envelope <> LEGACY_COMMAND_PROTOCOL_VERSION)
  then Err (rejected "protocol_version_unsupported")
  else
  let? node_id := fixed_command 16 (env_node_id envelope) "node_id_invalid" in
  if bool_decide (node_id <> ctx_node_id context) then Err (rejected "node_id_mismatch")
  else if ctx_cancelled context then Err (rejected "command_cancelled")
  else
  let? issued_at := ok_or (env_issued_at envelope) (rejected "issued_at_missing") in
  let? expires_at := ok_or (env_expires_at envelope) (rejected "expires_at_missing") in
  if (ts_seconds expires_at <=? now)
     && negb (env_delivery_mode envelope =? CommandDeliveryMode_value ReconcileOnly)
  then Err (rejected "command_expired")
  else if ts_seconds issued_at >? i64_saturating_add now MAX_FUTURE_SKEW_SECONDS
  then Err (rejected "clock_skew")
  else if (ctx_authorization_revision context =? 0)
          || negb (env_expected_revision envelope =? ctx_authorization_revision context)
  then Err (rejected "revision_mismatch")
  else if ctx_session_expires_at_unix_seconds context <=? now
  then Err (rejected "session_grant_expired")
  else
  let? (capability, result, external) := validate_payload envelope in
  if bool_decide (capability ∉ ctx_capabilities context)
  then Err (rejected "capability_rejected")
  else
  let? key := fixed_command 16 (env_idempotency_key envelope) "idempotency_key_invalid" in
  let? command_id := fixed_command 16 (env_command_id envelope) "command_id_invalid" in
  if negb (uuid_version key =? 7) then Err (rejected "idempotency_key_invalid")
  else if negb (uuid_version command_id =? 7) then Err (rejected "command_id_invalid")
  else
  let? hash_version := ok_or (SemanticPayloadHashVersion_try_from
      (env_semantic_payload_hash_version envelope))
    (rejected "semantic_hash_version_unsupported") in
  let? payload_hash := verify_envelope_hash envelope hash_version in
  let? _ := map_err reject_code (verify (ctx_command_keys context) envelope) in
  Ok (mkValidatedCommand key command_id payload_hash hash_version result external).

(** * Desired revisions *)

Definition desired_resource (envelope : CommandEnvelope) : option (bytes * bytes * Z) :=
  match env_payload envelope with
  | Some (PUserCreate value) => Some (str "user", us_username value, us_desired_revision value)
  | Some (PUserDisable value) => Some (str "user", ut_username value, ut_desired_revision value)
  | Some (PUserEnable value) => Some (str "user", ut_username value, ut_desired_revision value)
  | Some (PUserPasswordRotate value) =>
      Some (str "user", us_username value, us_desired_revision value)
  | Some (PGroupApply value) => Some (str "group", ga_group_name value, ga_desired_revision value)
  | Some (PConfigApply value) => Some (str "config", str "ocserv.conf", ca_desired_revision value)
  | Some (PCompleteConfigApply value) =>
      Some (str "config", str "ocserv.conf", cca_desired_revision value)
  | _ => None
  end.

Definition desired_revision_fence (envelope : CommandEnvelope) : Exec DesiredRevisionFence :=
  match desired_resource envelope with
  | None => eret FenceCurrent
  | Some (resource_type, resource_key, desired_revision) =>
      expected_previous <- elift
        (if desired_revision =? 0 then Err (rejected "desired_revision_invalid")
         else Ok (desired_revision - 1)) ;;
      applied <- journal (applied_revision resource_type resource_key) pre_effect_failure ;;
      let local_revision := default 0 applied in
      eret (match local_revision ?= expected_previous with
            | Eq => FenceCurrent
            | Gt => FenceSuperseded
            | Lt => FenceGap
            end)
  end.

Definition require_current_desired_revision (envelope : CommandEnvelope) : Exec unit :=
  fence <- desired_revision_fence envelope ;;
  match fence with
  | FenceCurrent => eret tt
  | FenceSuperseded => efail (rejected "effect_superseded_by_newer_revision")
  | FenceGap => efail (rejected "revision_gap")
  end.

(** * Replay and reconciliation *)

(** The states a replay or a reconciliation may leave. *)
Definition UNFINISHED : list CommandState := [Accepted; Running; Unknown].

Definition accept_validated (validated : ValidatedCommand) (context : CommandContext)
    : Exec AcceptOutcome :=
  journal (accept_command (val_key validated) (val_command_id validated)
    (val_payload_hash validated)
    (SemanticPayloadHashVersion_value (val_hash_version validated))
    (ctx_now_unix_seconds context)) pre_effect_failure.

Definition matching_record (validated : ValidatedCommand) : Exec CommandRecord :=
  by_key <- journal (command (val_key validated)) pre_effect_failure ;;
  by_command <- journal (command_by_id (val_command_id validated)) pre_effect_failure ;;
  match by_key, by_command with
  | Some by_key, Some by_command =>
      if bool_decide (rec_idempotency_key by_key = rec_idempotency_key by_command)
         && bool_decide (rec_command_id by_key = val_command_id validated)
      then
        if negb (rec_payload_hash_version by_key
                 =? SemanticPayloadHashVersion_value (val_hash_version validated))
        then efail (rejected "semantic_hash_version_conflict")
        else if bool_decide (rec_payload_sha256 by_key = val_payload_hash validated)
        then eret by_key
        else efail PayloadConflict
      else efail IdentityConflict
  | None, None => efail (rejected "command_not_accepted")
  | _, _ => efail IdentityConflict
  end.

Definition finished (s : CommandState) : bool :=
  match s with Succeeded | Failed => true | _ => false end.

Definition has_code (record : CommandRecord) (code : String.string) : bool :=
  bool_decide (rec_state record = Unknown) && bool_decide (rec_error_code record = Some (str code)).

Definition reconcile_replay (record : CommandRecord) (validated : ValidatedCommand)
    (context : CommandContext) (explicit : bool) : Exec CommandOutcome :=
  if finished (rec_state record) then eret (mkCommandOutcome record true)
  else
  effect <- journal (synthetic_effect (val_key validated)) pre_effect_failure ;;
  match effect with
  | Some effect =>
      if bool_decide (eff_payload_sha256 effect <> val_payload_hash validated)
      then efail (rejected "idempotency_payload_conflict")
      else
      record <- journal (transition_command (val_key validated) UNFINISHED Succeeded
          (Some (eff_result effect)) None (ctx_now_unix_seconds context))
        (OutcomeUnknown (str "result_persistence_failed") record) ;;
      eret (mkCommandOutcome record true)
  | None =>
      let error_code :=
        if explicit then "effect_absent"%string else "outcome_requires_reconciliation"%string in
      record <- (if has_code record error_code then eret record
                 else journal (transition_command (val_key validated) UNFINISHED Unknown
                        None (Some (str error_code)) (ctx_now_unix_seconds context))
                        pre_effect_failure) ;;
      eret (mkCommandOutcome record true)
  end.

Definition reconcile (envelope : CommandEnvelope) (context : CommandContext) : Exec CommandOutcome :=
  validated <- elift (validate_command envelope context) ;;
  record <- matching_record validated ;;
  reconcile_replay record validated context true.

(** * Synthetic commands *)

Definition run_synthetic (validated : ValidatedCommand) (context : CommandContext)
    : Exec CommandRecord :=
  journal (execute_and_complete_synthetic (val_key validated) (val_command_id validated)
    (val_payload_hash validated) (val_result validated) (ctx_now_unix_seconds context))
    pre_effect_failure.

Definition start_running (validated : ValidatedCommand) (context : CommandContext)
    (from : list CommandState) : Exec CommandRecord :=
  journal (transition_command (val_key validated) from Running None None
    (ctx_now_unix_seconds context)) pre_effect_failure.

Definition execute (envelope : CommandEnvelope) (context : CommandContext)
    (crash : option CrashPoint) : Exec CommandOutcome :=
  validated <- elift (validate_command envelope context) ;;
  acceptance <- accept_validated validated context ;;
  match acceptance with
  | OutcomePayloadConflict _ => efail PayloadConflict
  | OutcomeIdentityConflict _ => efail IdentityConflict
  | OutcomeReplay record => reconcile_replay record validated context false
  | OutcomeAccepted _ =>
      elift (inject crash AfterAccepted) ;;;
      start_running validated context [Accepted] ;;;
      elift (inject crash BeforeSideEffect) ;;;
      record <- run_synthetic validated context ;;
      elift (inject crash AfterSideEffect) ;;;
      elift (inject crash AfterResult) ;;;
      eret (mkCommandOutcome record false)
  end.

Definition retry_unknown (envelope : CommandEnvelope) (context : CommandContext)
    : Exec CommandOutcome :=
  if bool_decide (env_protocol_version envelope = LEGACY_COMMAND_PROTOCOL_VERSION)
  then reconcile envelope context
  else
  validated <- elift (validate_command envelope context) ;;
  record <- matching_record validated ;;
  if bool_decide (rec_state record <> Unknown) then efail (rejected "command_not_unknown")
  else if bool_decide (rec_error_code record <> Some (str "effect_absent"))
  then efail (rejected "reconciliation_required")
  else
  effect <- journal (synthetic_effect (val_key validated)) pre_effect_failure ;;
  match effect with
  | Some _ => reconcile_replay record validated context false
  | None =>
      start_running validated context [Unknown] ;;;
      record <- run_synthetic validated context ;;
      eret (mkCommandOutcome record true)
  end.

Definition deliver (envelope : CommandEnvelope) (context : CommandContext) : Exec CommandOutcome :=
  match unwrap_or (CommandDeliveryMode_try_from (env_delivery_mode envelope)) DeliveryUnspecified with
  | ExecuteOrReplay => execute envelope context None
  | ReconcileOnly => reconcile envelope context
  | RetryIfEffectAbsent => retry_unknown envelope context
  | DeliveryUnspecified => efail (rejected "delivery_mode_invalid")
  end.

(** * External commands *)

Definition prepare_external (envelope : CommandEnvelope) (context : CommandContext)
    : Exec ExternalPreparation :=
  validated <- elift (validate_command envelope context) ;;
  if negb (val_external validated) then efail (rejected "external_command_required")
  else
  known <- journal (command (val_key validated)) pre_effect_failure ;;
  (if bool_decide (known = None) then require_current_desired_revision envelope else eret tt) ;;;
  acceptance <- accept_validated validated context ;;
  match acceptance with
  | OutcomePayloadConflict _ => efail PayloadConflict
  | OutcomeIdentityConflict _ => efail IdentityConflict
  | OutcomeReplay record =>
      record <- (if finished (rec_state record) || has_code record "outcome_requires_reconciliation"
                 then eret record
                 else journal (transition_command (val_key validated) UNFINISHED Unknown
                        None (Some (str "outcome_requires_reconciliation"))
                        (ctx_now_unix_seconds context)) pre_effect_failure) ;;
      eret (PrepareReplay (mkCommandOutcome record true))
  | OutcomeAccepted _ =>
      start_running validated context [Accepted] ;;;
      eret (PrepareExecute (mkExternalCommand (val_key validated) (val_command_id validated)
              (ctx_now_unix_seconds context)))
  end.

(** The record a recovery works on: the journal's, or a fresh acceptance when
    the journal does not know the command; the flag says which. *)
Definition recovered_record (validated : ValidatedCommand) (context : CommandContext)
    : Exec (CommandRecord * bool) :=
  fun c =>
    match matching_record validated c with
    | (Ok record, c') => (Ok (record, false), c')
    | (Err e, c') =>
        match e with
        | Rejected code =>
            if bool_decide (code = str "command_not_accepted")
            then
              (acceptance <- accept_validated validated context ;;
               match acceptance with
               | OutcomeAccepted record => eret (record, true)
               | OutcomeReplay record => eret (record, true)
               | OutcomePayloadConflict _ => efail PayloadConflict
               | OutcomeIdentityConflict _ => efail IdentityConflict
               end) c'
            else (Err e, c')
        | _ => (Err e, c')
        end
    end.

Definition begin_attested_recovery (envelope : CommandEnvelope) (context : CommandContext)
    : Exec ExternalCommand :=
  validated <- elift (validate_command envelope context) ;;
  if negb (val_external validated) then efail (rejected "external_command_required")
  else
  recovered <- recovered_record validated context ;;
  if bool_decide (rec_state (fst recovered) ∉ [Accepted; Unknown])
  then efail (rejected "reconciliation_state_invalid")
  else
  record <- start_running validated context [Accepted; Unknown] ;;
  eret (mkExternalCommand (val_key validated) (val_command_id validated) (rec_accepted_at record)).

(** [(state, bytes, code)] of a completion. *)
Definition completion (outcome : result bytes bytes) : CommandState * option bytes * option bytes :=
  match outcome with
  | Ok b => if len b <=? MAX_COMMAND_BYTES then (Succeeded, Some b, None)
            else (Failed, None, Some (str "result_too_large"))
  | Err code => (Failed, None, Some code)
  end.

Definition require_known (ext : ExternalCommand) : Exec CommandRecord :=
  before <- journal (command (ext_key ext)) pre_effect_failure ;;
  elift (ok_or before (rejected "command_not_accepted")).

Definition require_identity (ext : ExternalCommand) (record : CommandRecord)
    : Exec CommandOutcome :=
  if bool_decide (rec_command_id record <> ext_command_id ext) then efail IdentityConflict
  else eret (mkCommandOutcome record false).

Definition complete_external (ext : ExternalCommand) (outcome : result bytes bytes) (now : Z)
    : Exec CommandOutcome :=
  let '(state, b, code) := completion outcome in
  before <- require_known ext ;;
  record <- journal (transition_command (ext_key ext) [Running] state b code now)
    (OutcomeUnknown (str "result_persistence_failed") before) ;;
  require_identity ext record.

Definition complete_external_attested (ext : ExternalCommand) (outcome : result bytes bytes)
    (proof : bytes) (now : Z) : Exec CommandOutcome :=
  let '(state, b, code) := completion outcome in
  before <- require_known ext ;;
  record <- journal (transition_command_attested (ext_key ext) [Running] state b code proof now)
    (OutcomeUnknown (str "attested_result_persistence_failed") before) ;;
  require_identity ext record.

Definition complete_external_applied (ext : ExternalCommand) (resource_type resource_key : bytes)
    (revision : Z) (result : bytes) (now : Z) : Exec CommandOutcome :=
  before <- require_known ext ;;
  record <- journal (complete_external_with_revision (ext_key ext) (ext_command_id ext)
      (mkAppliedResourceRevision resource_type resource_key revision) result now)
    (OutcomeUnknown (str "result_persistence_failed") before) ;;
  eret (mkCommandOutcome record false).

Definition complete_external_applied_attested (ext : ExternalCommand)
    (resource_type resource_key : bytes) (revision : Z) (result proof : bytes) (now : Z)
    : Exec CommandOutcome :=
  before <- require_known ext ;;
  record <- journal (complete_external_with_revision_attested (ext_key ext) (ext_command_id ext)
      (mkAppliedResourceRevision resource_type resource_key revision) result proof now)
    (OutcomeUnknown (str "attested_result_persistence_failed") before) ;;
  eret (mkCommandOutcome record false).

Definition mark_external_unknown (ext : ExternalCommand) (code : bytes) (now : Z)
    : Exec CommandOutcome :=
  record <- journal (transition_command (ext_key ext) [Running] Unknown None (Some code) now)
    pre_effect_failure ;;
  require_identity ext record.

Definition observation_code (observation : ExternalEffectObservation) : bytes :=
  match observation with
  | AppliedExact => str "attested_result_missing"
  | SupersededByNewerRevision => str "attested_result_superseded"
  | Absent => str "effect_absent"
  | ObservationUnknown => str "manual_reconciliation_required"
  end.

Definition reconcile_external (envelope : CommandEnvelope) (context : CommandContext)
    (observation : ExternalEffectObservation) : Exec CommandOutcome :=
  validated <- elift (validate_command envelope context) ;;
  if negb (val_external validated) then efail (rejected "external_command_required")
  else
  recovered <- recovered_record validated context ;;
  let '(record, rebuilt_journal) := recovered in
  if finished (rec_state record) then eret (mkCommandOutcome record true)
  else
  fence <- desired_revision_fence envelope ;;
  observation <- match fence with
                 | FenceCurrent => eret observation
                 | FenceGap =>
                     if rebuilt_journal && bool_decide (observation = AppliedExact)
                     then eret observation else efail (rejected "revision_gap")
                 | FenceSuperseded => eret SupersededByNewerRevision
                 end ;;
  record <- journal (transition_command (val_key validated) UNFINISHED Unknown None
      (Some (observation_code observation)) (ctx_now_unix_seconds context)) pre_effect_failure ;;
  eret (mkCommandOutcome record true).

Definition retry_external (envelope : CommandEnvelope) (context : CommandContext)
    : Exec ExternalCommand :=
  validated <- elift (validate_command envelope context) ;;
  if negb (val_external validated) then efail (rejected "external_command_required")
  else
  record <- matching_record validated ;;
  if bool_decide (rec_state record <> Unknown)
     || bool_decide (rec_error_code record <> Some (str "effect_absent"))
  then efail (rejected "reconciliation_required")
  else
  require_current_desired_revision envelope ;;;
  start_running validated context [Unknown] ;;;
  eret (mkExternalCommand (val_key validated) (val_command_id validated) (rec_accepted_at record)).

End Executor.
