(* ===== verification/ExecutorTheorems.v ===== *)
(** Executor runs as journal traces: every method, under every fault schedule
    and at every crash point, moves the journal through journal operations
    only. *)

From stdpp Require Import base list gmap numbers countable strings relations.
From Stdlib Require Import ZArith Lia Bool Strings.Byte.
From S2P Require Import Prelude Bytes Text Contracts ConfigProfile Authorization.
From S2P Require Import CommandAuthorization TranscriptFacts ConfigTheorems SemanticFacts.
From S2P Require Import SignedAuthority Sql Journal Telemetry JournalFacts JournalTheorems.
From S2P Require Import Executor.

Local Open Scope Z_scope.

(** * Traces *)

Definition journal_step (d d' : Db) : Prop :=
  exists A (m : Sql Db A) faults, JournalOp A m /\ d' = conn_db (snd (m (mkConn d faults))).

Definition journal_trace : Db -> Db -> Prop := rtc journal_step.

#[export] Instance journal_trace_preorder : PreOrder journal_trace.
Proof. unfold journal_trace. apply _. Qed.

Lemma journal_trace_wf d d' : journal_trace d d' -> wf_db d -> wf_db d'.
Proof.
  induction 1 as [|d1 d2 d3 (A & m & faults & Hop & ->) _ IH]; [done|]. intros W. apply IH.
  exact (journal_op_wf A m Hop (mkConn d1 faults) W).
Qed.

Lemma journal_trace_advances d d' : journal_trace d d' -> advances d d'.
Proof.
  induction 1 as [|d1 d2 d3 (A & m & faults & Hop & ->) _ IH]; [reflexivity|].
  etransitivity; [|exact IH]. exact (journal_op_advances A m Hop (mkConn d1 faults)).
Qed.

Lemma journal_op_trace A (m : Sql Db A) : JournalOp A m -> evolves journal_trace m.
Proof.
  intros Hop [d faults]. apply rtc_once. exists A, m, faults. done.
Qed.

(** * Evolution of methods *)

Section Evolution.
Context (R : Db -> Db -> Prop) `{!PreOrder R}.

Definition eevolves {A} (m : Exec A) : Prop := forall c, R (conn_db c) (conn_db (snd (m c))).

Lemma eevolves_ret {A} (a : A) : eevolves (eret a).
Proof. intros c. reflexivity. Qed.

Lemma eevolves_fail {A} e : eevolves (efail (A := A) e).
Proof. intros c. reflexivity. Qed.

Lemma eevolves_lift {A} (r : result CommandError A) : eevolves (elift r).
Proof. intros c. reflexivity. Qed.

Lemma eevolves_bind {A B} (m : Exec A) (k : A -> Exec B) :
  eevolves m -> (forall a, eevolves (k a)) -> eevolves (ebind m k).
Proof.
  intros Hm Hk c. unfold ebind. pose proof (Hm c) as H.
  destruct (m c) as [[a|e] c']; simpl in *; [|done]. etransitivity; [exact H|apply Hk].
Qed.

Lemma eevolves_journal {A} (m : Sql Db A) f : evolves R m -> eevolves (journal m f).
Proof.
  intros Hm c. unfold journal. pose proof (Hm c) as H. by destruct (m c) as [[a|e] c'].
Qed.
End Evolution.

(** Splits a method along its structure, leaving its journal calls. *)
Ltac eevolve :=
  repeat
    lazymatch goal with
    | |- eevolves _ (eret _) => apply eevolves_ret; apply _
    | |- eevolves _ (efail _) => apply eevolves_fail; apply _
    | |- eevolves _ (elift _) => apply eevolves_lift; apply _
    | |- eevolves _ (ebind _ _) => apply eevolves_bind; [apply _| |intros ?]
    | |- eevolves _ (journal _ _) => apply eevolves_journal
    | |- eevolves _ (if ?b then _ else _) => destruct b eqn:?
    | |- eevolves _ (match ?x with _ => _ end) => destruct x eqn:?
    end.

(** * Queries leave the journal alone *)

Section Queries.
Context (R : Db -> Db -> Prop) `{!PreOrder R}.

Lemma command_evolves key : evolves R (command key).
Proof. unfold command, query_command. evolve. Qed.
Lemma command_by_id_evolves id : evolves R (command_by_id id).
Proof. unfold command_by_id, query_command_by_id. evolve. Qed.
Lemma synthetic_effect_evolves key : evolves R (synthetic_effect key).
Proof. unfold synthetic_effect, query_effect. evolve. Qed.
Lemma applied_revision_evolves t k : evolves R (applied_revision t k).
Proof. unfold applied_revision. evolve. Qed.
End Queries.

#[export] Hint Resolve command_evolves command_by_id_evolves synthetic_effect_evolves
  applied_revision_evolves : ocservia.

Lemma unfinished_not_terminal : Forall (fun s => ~ terminal s) UNFINISHED.
Proof. by repeat constructor; intros [|]. Qed.
Lemma running_not_terminal : Forall (fun s => ~ terminal s) [Running].
Proof. by repeat constructor; intros [|]. Qed.
Lemma accepted_not_terminal : Forall (fun s => ~ terminal s) [Accepted].
Proof. by repeat constructor; intros [|]. Qed.
Lemma unknown_not_terminal : Forall (fun s => ~ terminal s) [Unknown].
Proof. by repeat constructor; intros [|]. Qed.
Lemma recovery_not_terminal : Forall (fun s => ~ terminal s) [Accepted; Unknown].
Proof. by repeat constructor; intros [|]. Qed.

#[export] Hint Resolve unfinished_not_terminal running_not_terminal accepted_not_terminal
  unknown_not_terminal recovery_not_terminal : ocservia.
#[export] Hint Resolve journal_trace_preorder journal_op_trace : ocservia.
#[export] Hint Constructors JournalOp : ocservia.

Lemma hash_version_i32 v : in_i32 (SemanticPayloadHashVersion_value v).
Proof. destruct v; unfold in_i32; simpl; lia. Qed.
#[export] Hint Resolve hash_version_i32 : ocservia.

Section Methods.
Context `{Crypto} `{Platform}.

Lemma verify_envelope_hash_ok e v h :
  verify_envelope_hash e v = Ok h ->
  h = env_semantic_payload_sha256 e /\ exists m, semantic_preimage e v = Ok m /\ h = sha256 m.
Proof.
  unfold verify_envelope_hash, fixed_command, semantic_payload_hash_v1, semantic_payload_hash_v2,
    canonical_semantic_payload_hash, map_err. intros E.
  destruct v; try done; destruct (semantic_preimage e _) as [m|]; try done;
    (destruct (bool_decide (length _ = _)) in E; [|done]);
    (destruct (bool_decide (_ <> _)) eqn:Eb in E; [done|]); injection E as <-;
    apply bool_decide_eq_false, dec_stable in Eb; (split; [done|eauto]).
Qed.

Lemma accept_validated_trace v ctx : eevolves journal_trace (accept_validated v ctx).
Proof. unfold accept_validated. eevolve. eauto with ocservia. Qed.

Lemma matching_record_same R `{!PreOrder R} v : eevolves R (matching_record v).
Proof. unfold matching_record. eevolve; auto with ocservia. Qed.

Lemma desired_revision_fence_same R `{!PreOrder R} e : eevolves R (desired_revision_fence e).
Proof. unfold desired_revision_fence. eevolve; auto with ocservia. Qed.

Lemma require_current_same R `{!PreOrder R} e : eevolves R (require_current_desired_revision e).
Proof. unfold require_current_desired_revision. eevolve. by apply desired_revision_fence_same. Qed.

Lemma reconcile_replay_trace r v ctx b : eevolves journal_trace (reconcile_replay r v ctx b).
Proof. unfold reconcile_replay. eevolve; eauto with ocservia. Qed.

Lemma start_running_trace v ctx from :
  Forall (fun s => ~ terminal s) from -> eevolves journal_trace (start_running v ctx from).
Proof. intros F. unfold start_running. eevolve. eauto with ocservia. Qed.

Lemma run_synthetic_trace v ctx : eevolves journal_trace (run_synthetic v ctx).
Proof. unfold run_synthetic. eevolve. eauto with ocservia. Qed.

Lemma recovered_record_trace v ctx : eevolves journal_trace (recovered_record v ctx).
Proof.
  intros c. unfold recovered_record. pose proof (matching_record_same journal_trace v c) as Hm.
  destruct (matching_record v c) as [[r|e] c']; simpl in *; [done|].
  destruct e; try done. case_bool_decide; [|done]. etransitivity; [exact Hm|].
  match goal with |- journal_trace _ (conn_db (snd (?m c'))) =>
    assert (eevolves journal_trace m) as Hk end.
  { eevolve. apply accept_validated_trace. }
  apply Hk.
Qed.

Lemma require_known_same R `{!PreOrder R} ext : eevolves R (require_known ext).
Proof. unfold require_known. eevolve. auto with ocservia. Qed.

Lemma require_identity_same R `{!PreOrder R} ext r : eevolves R (require_identity ext r).
Proof. unfold require_identity. eevolve. Qed.

Lemma reconcile_trace e ctx : eevolves journal_trace (reconcile e ctx).
Proof.
  unfold reconcile. eevolve; [apply matching_record_same, _|apply reconcile_replay_trace].
Qed.
End Methods.

#[export] Hint Resolve accept_validated_trace reconcile_replay_trace start_running_trace
  run_synthetic_trace recovered_record_trace reconcile_trace : ocservia.
#[export] Hint Extern 2 (eevolves _ (matching_record _)) => apply matching_record_same; apply _ : ocservia.
#[export] Hint Extern 2 (eevolves _ (desired_revision_fence _)) =>
  apply desired_revision_fence_same; apply _ : ocservia.
#[export] Hint Extern 2 (eevolves _ (require_current_desired_revision _)) =>
  apply require_current_same; apply _ : ocservia.
#[export] Hint Extern 2 (eevolves _ (require_known _)) => apply require_known_same; apply _ : ocservia.
#[export] Hint Extern 2 (eevolves _ (require_identity _ _)) =>
  apply require_identity_same; apply _ : ocservia.

(** * The methods of [CommandExecutor] *)

Inductive ExecutorOp `{Crypto} `{Platform} : forall A, Exec A -> Prop :=
| Ex_execute e ctx crash : ExecutorOp CommandOutcome (execute e ctx crash)
| Ex_deliver e ctx : ExecutorOp CommandOutcome (deliver e ctx)
| Ex_prepare e ctx : ExecutorOp ExternalPreparation (prepare_external e ctx)
| Ex_recover e ctx : ExecutorOp ExternalCommand (begin_attested_recovery e ctx)
| Ex_complete x r now : ExecutorOp CommandOutcome (complete_external x r now)
| Ex_complete_attested x r p now : ExecutorOp CommandOutcome (complete_external_attested x r p now)
| Ex_applied x t k v r now : ExecutorOp CommandOutcome (complete_external_applied x t k v r now)
| Ex_applied_attested x t k v r p now :
    ExecutorOp CommandOutcome (complete_external_applied_attested x t k v r p now)
| Ex_unknown x code now : ExecutorOp CommandOutcome (mark_external_unknown x code now)
| Ex_reconcile_external e ctx o : ExecutorOp CommandOutcome (reconcile_external e ctx o)
| Ex_retry_external e ctx : ExecutorOp ExternalCommand (retry_external e ctx)
| Ex_retry_unknown e ctx : ExecutorOp CommandOutcome (retry_unknown e ctx)
| Ex_reconcile e ctx : ExecutorOp CommandOutcome (reconcile e ctx).

Lemma retry_unknown_trace `{Crypto} `{Platform} e ctx : eevolves journal_trace (retry_unknown e ctx).
Proof. unfold retry_unknown. eevolve; eauto with ocservia. Qed.

Lemma execute_trace `{Crypto} `{Platform} e ctx crash : eevolves journal_trace (execute e ctx crash).
Proof. unfold execute. eevolve; eauto with ocservia. Qed.

Lemma executor_op_trace `{Crypto} `{Platform} A (m : Exec A) :
  ExecutorOp A m -> eevolves journal_trace m.
Proof.
  destruct 1; [apply execute_trace|..|apply retry_unknown_trace|apply reconcile_trace].
  - unfold deliver. destruct (unwrap_or _ _); eevolve;
      [apply execute_trace|apply reconcile_trace|apply retry_unknown_trace].
  - unfold prepare_external. eevolve; eauto with ocservia.
  - unfold begin_attested_recovery. eevolve; eauto with ocservia.
  - unfold complete_external. eevolve; eauto with ocservia.
  - unfold complete_external_attested. eevolve; eauto with ocservia.
  - unfold complete_external_applied. eevolve; eauto with ocservia.
  - unfold complete_external_applied_attested. eevolve; eauto with ocservia.
  - unfold mark_external_unknown. eevolve; eauto with ocservia.
  - unfold reconcile_external. eevolve; eauto with ocservia.
  - unfold retry_external. eevolve; eauto with ocservia.
Qed.

(** What the Agent's executor guarantees: only validated, Controller-signed
    commands touch the journal; the journal's history is never rewritten; an
    external effect is authorized at most once per idempotency key and
    command identity; observation never concludes an external command; and a
    synthetic command interrupted at any crash point is completed by
    reconciliation and retry with exactly one execution. *)

(** * Successful steps *)

Lemma ebind_ok {A B} (m : Exec A) (k : A -> Exec B) c b c' :
  ebind m k c = (Ok b, c') -> exists a c1, m c = (Ok a, c1) /\ k a c1 = (Ok b, c').
Proof. unfold ebind. destruct (m c) as [[a|e] c1]; [|done]. eauto. Qed.

Lemma elift_ok {A} (r : result CommandError A) c a c' :
  elift r c = (Ok a, c') -> r = Ok a /\ c' = c.
Proof. by intros [= -> ->]. Qed.

Lemma eret_ok {A} (x : A) c a c' : eret x c = (Ok a, c') -> a = x /\ c' = c.
Proof. by intros [= <- <-]. Qed.

Lemma journal_ok {A} (m : Sql Db A) f c a c' : journal m f c = (Ok a, c') -> m c = (Ok a, c').
Proof. unfold journal. destruct (m c) as [[x|e] c1]; [|done]. by intros [= <- <-]. Qed.

Section Theorems.
Context `{Crypto} `{Platform}.

(** * Validation *)

Lemma validate_payload_capability e cap r x k a cap' :
  validate_payload e = Ok (cap, r, x) -> payload_authorization e = Ok (k, a, cap') -> cap = cap'.
Proof.
  unfold validate_payload, payload_authorization. intros H1 H2.
  destruct (env_payload e) as [[]|]; try done; invert_ok H1; invert_ok H2; subst; try done.
  apply ok_or_Some in Hstep0, Hstep1. congruence.
Qed.

Lemma claims_capability e c :
  claims_from_envelope_v1 e = Ok c ->
  exists k a, payload_authorization e = Ok (k, a, cl_required_capability c).
Proof.
  unfold claims_from_envelope_v1. intros E. invert_ok E.
  match goal with G : bool_decide (env_required_capability e <> _) = false |- _ =>
    apply bool_decide_eq_false, dec_stable in G; rewrite <- G in * end.
  subst c. simpl. eauto.
Qed.

Lemma claims_times e c i x :
  claims_from_envelope_v1 e = Ok c -> env_issued_at e = Some i -> env_expires_at e = Some x ->
  cl_issued_at_seconds c = ts_seconds i /\ cl_expires_at_seconds c = ts_seconds x.
Proof.
  unfold claims_from_envelope_v1. intros E Hi Hx. invert_ok E. project. subst c. simpl. split; congruence.
Qed.

(** C16. Every command the executor works on was signed by the Controller for
    this node, carries the session's authorization revision and a capability
    the session holds, is unexpired or may only be reconciled (an expired
    command is validated for observation alone), was not issued further in the
    future than the allowed clock skew, arrives while the session's grant is
    running and before it is cancelled, and the identity, key and digest
    written to the journal are the signed ones, the digest being that of the
    payload at hand. *)
Theorem validated_command_authorized signed e ctx v :
  unforged (ctx_command_keys ctx) signed -> wf_envelope e ->
  validate_command e ctx = Ok v ->
  exists c, signed (SCommand c)
    /\ cl_node_id c = ctx_node_id ctx
    /\ cl_expected_revision c = ctx_authorization_revision ctx /\ ctx_authorization_revision ctx <> 0
    /\ cl_required_capability c ∈ ctx_capabilities ctx
    /\ cl_idempotency_key c = val_key v /\ cl_command_id c = val_command_id v
    /\ cl_semantic_payload_sha256 c = val_payload_hash v
    /\ (ctx_now_unix_seconds ctx < cl_expires_at_seconds c
        \/ cl_delivery_mode c = CommandDeliveryMode_value ReconcileOnly)
    /\ cl_issued_at_seconds c <= i64_saturating_add (ctx_now_unix_seconds ctx) MAX_FUTURE_SKEW_SECONDS
    /\ ctx_now_unix_seconds ctx < ctx_session_expires_at_unix_seconds ctx
    /\ ctx_cancelled ctx = false
    /\ exists m, semantic_preimage e (val_hash_version v) = Ok m /\ val_payload_hash v = sha256 m.
Proof.
  intros Hu We E. unfold validate_command in E. cbv zeta in E. invert_ok E.
  match goal with E : map_err reject_code (verify _ e) = Ok _ |- _ => rename E into Ever end.
  unfold verify in Ever. destruct (verify_claims (ctx_command_keys ctx) e) as [c|] eqn:Ec; [|done].
  clear Ever. apply verify_claims_ok in Ec as (proof & key & m & u & Hp & Hk & Hcl & Hm & Hs).
  pose proof (claims_of_envelope _ _ Hcl) as (N & _ & R & _ & S & I & K & D).
  destruct (claims_capability _ _ Hcl) as (pk & pa & Hpa).
  repeat match goal with E : fixed_command _ _ _ = Ok _ |- _ =>
    unfold fixed_command in E; destruct (bool_decide _) in E; [injection E as <-|discriminate E] end.
  match goal with E : verify_envelope_hash _ _ = Ok _ |- _ =>
    apply verify_envelope_hash_ok in E as [Eh Hpre] end.
  match goal with E : validate_payload _ = Ok _ |- _ =>
    rewrite (validate_payload_capability _ _ _ _ _ _ _ E Hpa) in * end.
  split_guards. apply ok_or_Some in Hstep0, Hstep1. destruct (claims_times _ _ _ _ Hcl Hstep0 Hstep1) as [Y X].
  repeat match goal with G : ~ ~ _ |- _ => apply dec_stable in G end.
  exists c. subst v. simpl. rewrite N, R, S, I, K, D, X, Y.
  split; [exact (check_signature_signed _ _ _ _ _ _ _ (SCommand c) Hu Hk Hs
                   (claims_from_envelope_wf _ _ We Hcl) Hm)|].
  unfold CommandDeliveryMode_value in *. repeat (split; [first [done|lia]|]). done.
Qed.

(** The executor fails closed: a command that does not validate is refused
    by every method with no journal access at all. *)
Theorem invalid_command_untouched e ctx err crash o c :
  validate_command e ctx = Err err ->
  execute e ctx crash c = (Err err, c) /\ prepare_external e ctx c = (Err err, c)
  /\ begin_attested_recovery e ctx c = (Err err, c)
  /\ reconcile_external e ctx o c = (Err err, c) /\ retry_external e ctx c = (Err err, c)
  /\ reconcile e ctx c = (Err err, c) /\ retry_unknown e ctx c = (Err err, c)
  /\ exists err', deliver e ctx c = (Err err', c).
Proof.
  intros E.
  assert (reconcile e ctx c = (Err err, c)) as Hr
    by (unfold reconcile, ebind, elift; by rewrite E).
  assert (execute e ctx None c = (Err err, c)) as Hx
    by (unfold execute, ebind, elift; by rewrite E).
  assert (retry_unknown e ctx c = (Err err, c)) as Ht.
  { unfold retry_unknown. case_bool_decide; [done|]. unfold ebind, elift. by rewrite E. }
  split; [unfold execute, ebind, elift; by rewrite E|].
  split; [unfold prepare_external, ebind, elift; by rewrite E|].
  split; [unfold begin_attested_recovery, ebind, elift; by rewrite E|].
  split; [unfold reconcile_external, ebind, elift; by rewrite E|].
  split; [unfold retry_external, ebind, elift; by rewrite E|].
  repeat (split; [done|]). unfold deliver. destruct (unwrap_or _ _); eauto.
Qed.

(** * History *)

(** Runs of the executor: any methods in any order, each under any fault
    schedule. *)
Definition executor_step (d d' : Db) : Prop :=
  exists A (m : Exec A) faults, ExecutorOp A m /\ d' = conn_db (snd (m (mkConn d faults))).

Definition executor_run : Db -> Db -> Prop := rtc executor_step.

Lemma executor_run_trace d d' : executor_run d d' -> journal_trace d d'.
Proof.
  induction 1 as [|d1 d2 d3 (A & m & faults & Hop & ->) _ IH]; [reflexivity|].
  etransitivity; [|exact IH]. exact (executor_op_trace A m Hop (mkConn d1 faults)).
Qed.

(** The executor never rewrites history: across any run, with storage
    failures and crashes anywhere, well-formedness is kept, finished commands
    keep every column, unfinished ones keep their identity and digest,
    recorded effects stay as they are, and applied revisions do not
    decrease. *)
Theorem executor_preserves_history d d' :
  executor_run d d' -> wf_db d ->
  wf_db d'
  /\ (forall key r, db_commands d !! key = Some r ->
        exists r', db_commands d' !! key = Some r' /\ same_identity r r' /\ (terminal_row r -> r' = r))
  /\ (forall key eff, db_effects d !! key = Some eff -> db_effects d' !! key = Some eff)
  /\ (forall tk v n, db_revisions d !! tk = Some (v, n) ->
        exists v' n', db_revisions d' !! tk = Some (v', n') /\ v <= v')
  /\ db_executions d <= db_executions d'
  /\ db_executions d' = Z.of_nat (size (db_effects d')).
Proof.
  intros Hrun%executor_run_trace W.
  pose proof (journal_trace_wf _ _ Hrun W) as W'. pose proof (journal_trace_advances _ _ Hrun) as Adv.
  split; [done|]. split; [apply Adv|]. split; [apply Adv|]. split; [apply Adv|].
  rewrite (wf_count _ W), (wf_count _ W'). split; [|done].
  apply inj_le. apply map_subseteq_size, map_subseteq_spec. intros k e. apply Adv.
Qed.

(** * External commands *)

Lemma accept_validated_accepted v ctx c r c' :
  accept_validated v ctx c = (Ok (OutcomeAccepted r), c') ->
  db_commands (conn_db c) !! val_key v = None /\ find_command (val_command_id v) (conn_db c) = None
  /\ exists row, db_commands (conn_db c') !! val_key v = Some row
               /\ row_command_id row = val_command_id v.
Proof.
  unfold accept_validated. intros E%journal_ok.
  pose proof (accept_command_run (val_key v) (val_command_id v) (val_payload_hash v)
    (SemanticPayloadHashVersion_value (val_hash_version v)) (ctx_now_unix_seconds ctx) c) as Hrun.
  rewrite E in Hrun. destruct Hrun as (H1 & H2 & -> & _).
  split; [done|]. split; [done|]. eexists. split; [simpl; by rewrite lookup_insert_eq|done].
Qed.

(** What an authorization to execute an external effect says of the journal
    before and after. *)
Lemma prepare_execute_fresh e ctx c x c' :
  prepare_external e ctx c = (Ok (PrepareExecute x), c') ->
  (db_commands (conn_db c) !! ext_key x = None /\ find_command (ext_command_id x) (conn_db c) = None)
  /\ exists row, db_commands (conn_db c') !! ext_key x = Some row /\ row_command_id row = ext_command_id x.
Proof.
  unfold prepare_external. intros E.
  apply ebind_ok in E as (v & c1 & E1 & E). apply elift_ok in E1 as [_ ->].
  destruct (negb (val_external v)); [done|].
  apply ebind_ok in E as (known & c2 & E2 & E). apply journal_ok in E2.
  apply ebind_ok in E as (u & c3 & E3 & E).
  assert (conn_db c2 = conn_db c) as D2.
  { pose proof (command_evolves (@eq Db) (val_key v) c) as Hs. by rewrite E2 in Hs. }
  assert (conn_db c3 = conn_db c) as D3.
  { rewrite <- D2. destruct (bool_decide (known = None)).
    - pose proof (require_current_same (@eq Db) e c2) as Hs. by rewrite E3 in Hs.
    - by apply eret_ok in E3 as [_ ->]. }
  apply ebind_ok in E as (acc & c4 & E4 & E). destruct acc as [r|r|r|r]; try done.
  - apply accept_validated_accepted in E4 as (F1 & F2 & row & Hrow & Hid). rewrite D3 in F1, F2.
    apply ebind_ok in E as (r' & c5 & E5 & E). apply eret_ok in E as [E ->]. injection E as ->. simpl.
    split; [done|]. pose proof (start_running_trace v ctx [Accepted] accepted_not_terminal c4) as Ht.
    rewrite E5 in Ht. simpl in Ht.
    destruct (adv_commands _ _ (journal_trace_advances _ _ Ht) _ _ Hrow) as (row' & Hrow' & Hsame & _).
    exists row'. split; [done|]. destruct Hsame as (_ & Hi & _). congruence.
  - apply ebind_ok in E as (r' & c5 & _ & E). by apply eret_ok in E as [E _].
Qed.

(** C15. An external effect is authorized at most once: after
    [prepare_external] answered [Execute], no later call in any run of the
    executor, with storage failures anywhere, answers [Execute] for the same
    idempotency key or for the same command identity. *)
Theorem external_effect_authorized_once e1 ctx1 c1 x1 c1' e2 ctx2 c2 x2 c2' :
  prepare_external e1 ctx1 c1 = (Ok (PrepareExecute x1), c1') ->
  executor_run (conn_db c1') (conn_db c2) ->
  prepare_external e2 ctx2 c2 = (Ok (PrepareExecute x2), c2') ->
  ext_key x2 <> ext_key x1 /\ ext_command_id x2 <> ext_command_id x1.
Proof.
  intros (_ & row & Hrow & Hid)%prepare_execute_fresh Hrun%executor_run_trace
    ([F1 F2] & _)%prepare_execute_fresh.
  destruct (adv_commands _ _ (journal_trace_advances _ _ Hrun) _ _ Hrow) as (row' & Hrow' & Hsame & _).
  split; [intros E; rewrite E in F1; congruence|]. intros E. rewrite E in F2.
  destruct (find_command_None _ _ _ _ F2 Hrow'). destruct Hsame as (_ & Hi & _). congruence.
Qed.

Lemma matching_record_ok v c r c' :
  matching_record v c = (Ok r, c') ->
  conn_db c' = conn_db c
  /\ exists row, db_commands (conn_db c) !! val_key v = Some row
      /\ r = record_of row (rec_state r) /\ row_state row = as_str (rec_state r)
      /\ row_command_id row = val_command_id v /\ row_payload_sha256 row = val_payload_hash v.
Proof.
  intros E. split.
  { pose proof (matching_record_same (@eq Db) v c) as Hs. by rewrite E in Hs. }
  unfold matching_record in E.
  apply ebind_ok in E as (k & c1 & E1%journal_ok & E).
  apply ebind_ok in E as (i & c2 & E2%journal_ok & E).
  unfold command, query_command in E1. apply query_ok in E1 as [E1 _].
  destruct k as [k|], i as [i|]; try done. destruct (_ && _)%bool eqn:G in E; [|done].
  destruct (negb _) in E; [done|]. case_bool_decide as Hh; [|done]. apply eret_ok in E as [-> _].
  apply decode_opt_Some in E1 as (row & Hrow & Er & Es). split_guards.
  exists row. repeat (split; [done|]). rewrite Er in *. simpl in *. done.
Qed.

Lemma transition_command_ok key from to res code now c r c' :
  transition_command key from to res code now c = (Ok r, c') ->
  exists row st,
    db_commands (conn_db c) !! key = Some row /\ row_state row = as_str st /\ st ∈ from
    /\ let row' := set_outcome (as_str to) res code now row in
       r = record_of row' to
       /\ conn_db c' = set_commands (<[key := row']> (db_commands (conn_db c))) (conn_db c).
Proof.
  unfold transition_command. destruct (_ || _)%bool; [done|]. unfold transition, command, query_command.
  intros E. invert_sql E; subst; journal_facts. split_guards.
  match goal with H : update_command _ _ _ _ = Ok (_, conn_db _) |- _ => rename H into Hup end.
  unfold update_command in Hup. rewrite Hrun, bool_decide_true in Hup by done.
  destruct (command_check _); [|done]. injection Hup as _ Hset.
  rewrite <- Hset in Hrun2. simpl in Hrun2. rewrite lookup_insert_eq in Hrun2.
  injection Hrun2 as <-. simpl in Estate. apply (inj as_str to) in Estate.
  exists row0, (rec_state a0). rewrite <- Estate in Erec. done.
Qed.

Lemma recovered_record_ok v ctx c r b c' :
  recovered_record v ctx c = (Ok (r, b), c') ->
  conn_db c' = conn_db c \/ finished (rec_state r) = false.
Proof.
  unfold recovered_record. destruct (matching_record v c) as [[r0|e] c1] eqn:Em.
  - intros [= <- <- <-]. left. pose proof (matching_record_same (@eq Db) v c) as Hs. by rewrite Em in Hs.
  - destruct e; try done. case_bool_decide; [|done]. intros E.
    apply ebind_ok in E as (acc & c2 & E2%journal_ok & E).
    assert (conn_db c1 = conn_db c) as D1.
    { pose proof (matching_record_same (@eq Db) v c) as Hs. by rewrite Em in Hs. }
    match type of E2 with accept_command ?k ?i ?s ?h ?n c1 = _ =>
      pose proof (accept_command_run k i s h n c1) as Hrun end.
    rewrite E2 in Hrun. destruct acc as [r0|r0|r0|r0]; try done;
      apply eret_ok in E as [[= -> ->] ->].
    + right. destruct Hrun as (_ & _ & _ & ->). done.
    + left. congruence.
Qed.

(** Observation never concludes an external command: reconciling it leaves
    its journal state [unknown], whatever was observed; a finished record is
    only ever reported when it was finished already, and then nothing is
    written. *)
Theorem observation_never_concludes e ctx o c out c' :
  reconcile_external e ctx o c = (Ok out, c') ->
  rec_state (out_record out) = Unknown
  \/ (finished (rec_state (out_record out)) = true /\ conn_db c' = conn_db c).
Proof.
  unfold reconcile_external. intros E.
  apply ebind_ok in E as (v & c1 & E1 & E). apply elift_ok in E1 as [_ ->].
  destruct (negb (val_external v)); [done|].
  apply ebind_ok in E as ([r b] & c2 & E2 & E). apply recovered_record_ok in E2.
  destruct (finished (rec_state r)) eqn:F.
  - apply eret_ok in E as [-> ->]. right. simpl. split; [done|]. by destruct E2.
  - left. apply ebind_ok in E as (fence & c3 & _ & E). apply ebind_ok in E as (o' & c4 & _ & E).
    apply ebind_ok in E as (r' & c5 & E5%journal_ok & E). apply eret_ok in E as [-> _].
    apply transition_command_ok in E5 as (row & st & _ & _ & _ & -> & _). done.
Qed.

Lemma desired_revision_fence_ok e c f c' :
  desired_revision_fence e c = (Ok f, c') ->
  conn_db c' = conn_db c /\
  match desired_resource e with
  | None => f = FenceCurrent
  | Some (t, k, v) =>
      v <> 0 /\
      let local := default 0 (fst <$> db_revisions (conn_db c) !! (t, k)) in
      f = match local ?= v - 1 with Eq => FenceCurrent | Gt => FenceSuperseded | Lt => FenceGap end
  end.
Proof.
  intros E. split.
  { pose proof (desired_revision_fence_same (@eq Db) e c) as Hs. by rewrite E in Hs. }
  unfold desired_revision_fence in E. destruct (desired_resource e) as [[[t k] v]|];
    [|by apply eret_ok in E as [-> _]].
  apply ebind_ok in E as (p & c1 & E1 & E). apply elift_ok in E1 as [Ep ->].
  destruct (Z.eqb_spec v 0); [done|]. injection Ep as <-. split; [done|].
  apply ebind_ok in E as (a & c2 & E2%journal_ok & E). apply eret_ok in E as [-> _].
  unfold applied_revision in E2. apply query_ok in E2 as [E2 _].
  destruct (db_revisions (conn_db c) !! (t, k)) as [[local at_]|]; [|by injection E2 as <-].
  destruct (local <? 0); [done|]. by injection E2 as <-.
Qed.

(** A retry of an external effect is authorized only by persisted proof of
    its absence: the journal holds the command under this identity and digest
    as [unknown] with [effect_absent], the resource's applied revision is
    exactly the predecessor of the desired one, and the command is then
    [running]. *)
Theorem retry_requires_proven_absence e ctx v c x c' :
  validate_command e ctx = Ok v -> retry_external e ctx c = (Ok x, c') ->
  exists row,
    db_commands (conn_db c) !! ext_key x = Some row
    /\ row_state row = as_str Unknown /\ row_error_code row = Some (str "effect_absent")
    /\ row_command_id row = ext_command_id x /\ row_payload_sha256 row = val_payload_hash v
    /\ match desired_resource e with
       | None => True
       | Some (t, k, r) =>
           r <> 0 /\ default 0 (fst <$> db_revisions (conn_db c) !! (t, k)) = r - 1
       end
    /\ conn_db c' = set_commands (<[ext_key x := set_outcome (as_str Running) None None
          (ctx_now_unix_seconds ctx) row]> (db_commands (conn_db c))) (conn_db c).
Proof.
  intros Ev E. unfold retry_external in E.
  apply ebind_ok in E as (v' & c1 & E1 & E). apply elift_ok in E1 as [E1 ->].
  assert (v' = v) as -> by congruence. destruct (negb (val_external v)); [done|].
  apply ebind_ok in E as (r & c2 & E2 & E).
  apply matching_record_ok in E2 as (D2 & row & Hrow & Er & Es & Hi & Hh).
  destruct (_ || _)%bool eqn:G in E; [done|]. split_guards.
  repeat match goal with G : ~ ~ _ |- _ => apply dec_stable in G end.
  apply ebind_ok in E as (u & c3 & E3 & E). apply ebind_ok in E as (r' & c4 & E4%journal_ok & E).
  apply eret_ok in E as [-> ->]. simpl.
  unfold require_current_desired_revision in E3. apply ebind_ok in E3 as (f & c5 & E5 & E3).
  apply desired_revision_fence_ok in E5 as [D5 Hf]. destruct f; try done.
  apply eret_ok in E3 as [_ ->]. rewrite D2 in *.
  apply transition_command_ok in E4 as (row1 & st & Hrow1 & _ & _ & _ & Hset). rewrite D5 in *.
  assert (row1 = row) as -> by congruence. exists row. split; [done|].
  split; [by rewrite Es, H1|]. split; [by rewrite Er in H2|]. split; [done|]. split; [done|].
  split; [|done]. destruct (desired_resource e) as [[[t k] d]|]; [|done].
  destruct Hf as [Hd Hf]. split; [done|]. cbv zeta in Hf. revert Hf.
  destruct (Z.compare_spec (default 0 (fst <$> db_revisions (conn_db c) !! (t, k))) (d - 1)); done.
Qed.
End Theorems.

(** * Concrete runs *)

Definition sample_platform : Platform :=
  {| encoded_len := fun _ => 100; uuid_version := fun _ => 7; uuid_parses := fun _ => true;
     ARCH := str "x86_64" |}.

Definition sample_context : @CommandContext sample_crypto :=
  @mkCommandContext sample_crypto (be 16 3) 5 {[ str "synthetic.noop" ]} 2000 sample_ring 1001 false.

Lemma validated_command_authorized_witness :
  exists c, SCommand c ∈ sample_statements /\ cl_node_id c = be 16 3.
Proof.
  destruct (@validated_command_authorized sample_crypto sample_platform
    (fun st => st ∈ sample_statements) sample_envelope sample_context
    (mkValidatedCommand (be 16 2) (be 16 1) (env_semantic_payload_sha256 sample_envelope) HashV2
       (str "noop:completed") false)) as (c & H1 & H2 & _);
    [apply sample_unforged|apply sample_envelope_wf|by vm_compute|].
  exists c. split; [exact H1|exact H2].
Defined.

(** The noop arrives after the session ended. *)
Lemma invalid_command_untouched_witness :
  let ctx := @mkCommandContext sample_crypto (be 16 3) 5 {[ str "synthetic.noop" ]} 1000
    sample_ring 1001 false in
  @reconcile sample_crypto sample_platform sample_envelope ctx (mkConn empty_db [])
  = (Err (rejected "session_grant_expired"), mkConn empty_db []).
Proof.
  intros ctx.
  apply (@invalid_command_untouched sample_crypto sample_platform sample_envelope ctx
    (rejected "session_grant_expired") None AppliedExact (mkConn empty_db [])).
  by vm_compute.
Defined.

(** Two external commands: enabling two users. *)
Definition enable_envelope (key id : Z) (name : bytes) (sha : bytes) : CommandEnvelope :=
  mkCommandEnvelope (str "1.2") [] (be 16 id) (be 16 key) (be 16 3) 0
    (Some (mkTimestamp 1000 0)) (Some (mkTimestamp 1060 0)) 5 [] (str "operator") []
    1 2 sha (be 16 4) (str "user.enable") (str "ocserv.users.write") [] []
    (Some (mkCommandAuthorizationProof 1 (str "key") [])) None None
    (Some (PUserEnable (mkUserToggle name 1))).

Definition enable_user (key id : Z) (name : bytes) : CommandEnvelope :=
  enable_envelope key id name
    (match @semantic_preimage (signing []) (enable_envelope key id name []) HashV2 with
     | Ok m => be 32 (be_value m) | Err _ => [] end).

Definition enable_alice : CommandEnvelope := enable_user 21 22 (str "alice").
Definition enable_bob : CommandEnvelope := enable_user 31 32 (str "bob").

Definition command_message (e : CommandEnvelope) : bytes :=
  match claims_from_envelope_v1 e with Ok c => message_of (SCommand c) | Err _ => [] end.

Definition enabling : Crypto := signing (command_message <$> [enable_alice; enable_bob]).

Definition enabling_context : @CommandContext enabling :=
  @mkCommandContext enabling (be 16 3) 5 {[ str "ocserv.users.write" ]} 2000
    (@mkKeyring enabling {[ str "key" := str "pinned" ]}) 1001 false.

Definition prepared (e : CommandEnvelope) (d : Db) : Db :=
  conn_db (snd (@prepare_external enabling sample_platform e enabling_context (mkConn d []))).

Lemma external_effect_authorized_once_witness : be 16 31 <> be 16 21 /\ be 16 32 <> be 16 22.
Proof.
  eapply (@external_effect_authorized_once enabling sample_platform
    enable_alice enabling_context (mkConn empty_db []) (mkExternalCommand (be 16 21) (be 16 22) 1001)
    (mkConn (prepared enable_alice empty_db) [])
    enable_bob enabling_context (mkConn (prepared enable_alice empty_db) [])
    (mkExternalCommand (be 16 31) (be 16 32) 1001)).
  - vm_compute; reflexivity.
  - apply rtc_refl.
  - vm_compute; reflexivity.
Defined.

(** Alice's command was interrupted and its effect found absent. *)
Definition absent_row : CommandRow :=
  mkCommandRow (be 16 21) (be 16 22) (env_semantic_payload_sha256 enable_alice) 2 (str "unknown") None
    (Some (str "effect_absent")) None 1001 1001.
Definition absent_db : Db := set_commands {[ be 16 21 := absent_row ]} empty_db.

Lemma executor_preserves_history_witness :
  wf_db (prepared enable_alice empty_db).
Proof.
  apply (@executor_preserves_history enabling sample_platform empty_db).
  - apply rtc_once. eexists _, _, []. split; [apply Ex_prepare|reflexivity].
  - apply wf_empty.
Defined.

Lemma observation_never_concludes_witness :
  exists out c',
    @reconcile_external enabling sample_platform enable_alice enabling_context Absent
      (mkConn (prepared enable_alice empty_db) []) = (Ok out, c')
    /\ (rec_state (out_record out) = Unknown \/ finished (rec_state (out_record out)) = true).
Proof.
  eexists _, _. split; [vm_compute; reflexivity|].
  destruct (@observation_never_concludes enabling sample_platform enable_alice enabling_context Absent
    (mkConn (prepared enable_alice empty_db) []) (mkCommandOutcome (record_of absent_row Unknown) true)
    (mkConn absent_db [])) as [H|[H _]]; [vm_compute; reflexivity|left; exact H|right; exact H].
Defined.

Lemma retry_requires_proven_absence_witness :
  exists row, db_commands absent_db !! be 16 21 = Some row
    /\ row_error_code row = Some (str "effect_absent").
Proof.
  edestruct (@retry_requires_proven_absence enabling sample_platform enable_alice enabling_context
    (mkValidatedCommand (be 16 21) (be 16 22) (env_semantic_payload_sha256 enable_alice) HashV2 [] true)
    (mkConn absent_db []) (mkExternalCommand (be 16 21) (be 16 22) 1001))
    as (row & H1 & _ & H2 & _); [vm_compute; reflexivity|vm_compute; reflexivity|].
  exists row. split; [exact H1|exact H2].
Defined.
