(* ===== verification/CrashRecovery.v ===== *)
(** Recovery of synthetic commands from every crash point of the executor. *)

From stdpp Require Import base list gmap numbers countable strings relations.
From Stdlib Require Import ZArith Lia Bool Strings.Byte.
From S2P Require Import Prelude Bytes Text Contracts ConfigProfile Authorization.
From S2P Require Import CommandAuthorization TranscriptFacts Sql Journal Telemetry JournalFacts.
From S2P Require Import JournalTheorems Executor ExecutorTheorems SignedAuthority.

Local Open Scope Z_scope.

(** * Fault-free runs of methods *)

Definition eexec {A} (m : Exec A) (d : Db) : result CommandError A * Db :=
  let '(r, c) := m (mkConn d []) in (r, conn_db c).

(** A method that never acquires faults. *)
Class EFaultless {A} (m : Exec A) : Prop :=
  is_efaultless d : conn_faults (snd (m (mkConn d []))) = [].

#[export] Instance efaultless_ret {A} (a : A) : EFaultless (eret a).
Proof. done. Qed.
#[export] Instance efaultless_fail {A} e : EFaultless (efail (A := A) e).
Proof. done. Qed.
#[export] Instance efaultless_lift {A} (r : result CommandError A) : EFaultless (elift r).
Proof. done. Qed.
#[export] Instance efaultless_journal {A} (m : Sql Db A) f : Faultless m -> EFaultless (journal m f).
Proof.
  intros Hm d. unfold journal. pose proof (Hm d) as Hd. by destruct (m _) as [[a|e] c].
Qed.
#[export] Instance efaultless_bind {A B} (m : Exec A) (k : A -> Exec B) :
  EFaultless m -> (forall a, EFaultless (k a)) -> EFaultless (ebind m k).
Proof.
  intros Hm Hk d. unfold ebind. pose proof (Hm d) as Hd.
  destruct (m (mkConn d [])) as [[a|e] [d' f']]; simpl in *; subst; [apply Hk|done].
Qed.

#[export] Hint Extern 5 (EFaultless (match ?x with _ => _ end)) => destruct x : typeclass_instances.

Lemma eexec_ret {A} (a : A) d : eexec (eret a) d = (Ok a, d).
Proof. reflexivity. Qed.
Lemma eexec_fail {A} e d : eexec (efail (A := A) e) d = (Err e, d).
Proof. reflexivity. Qed.
Lemma eexec_lift {A} (r : result CommandError A) d : eexec (elift r) d = (r, d).
Proof. reflexivity. Qed.

Lemma eexec_bind {A B} (m : Exec A) (k : A -> Exec B) d `{!EFaultless m} :
  eexec (ebind m k) d =
  match eexec m d with
  | (Ok a, d') => eexec (k a) d'
  | (Err e, d') => (Err e, d')
  end.
Proof.
  unfold eexec, ebind. pose proof (is_efaultless (m := m) d) as Hd.
  destruct (m (mkConn d [])) as [[a|e] [d' f']]; simpl in *; subst; done.
Qed.

Lemma eexec_journal {A} (m : Sql Db A) f d :
  eexec (journal m f) d =
  match exec m d with (Ok a, d') => (Ok a, d') | (Err e, d') => (Err (f e), d') end.
Proof. unfold eexec, journal, exec. by destruct (m _) as [[a|e] c]. Qed.

(** * Fault-free journal operations *)

Lemma command_exec d key row st :
  wf_db d -> db_commands d !! key = Some row -> row_state row = as_str st ->
  exec (command key) d = (Ok (Some (record_of row st)), d).
Proof.
  intros W Hr Hs. unfold command, query_command. rewrite exec_query.
  rewrite decode_lookup, Hr, Hs, parse_as_str by done. done.
Qed.

Lemma command_by_id_exec d key row st :
  wf_db d -> db_commands d !! key = Some row -> row_state row = as_str st ->
  exec (command_by_id (row_command_id row)) d = (Ok (Some (record_of row st)), d).
Proof.
  intros W Hr Hs. unfold command_by_id, query_command_by_id. rewrite exec_query.
  rewrite decode_find by done. rewrite (find_command_unique _ _ _ _ W Hr eq_refl).
  by rewrite Hs, parse_as_str.
Qed.

Definition outcome_ok (res code : option bytes) : Prop :=
  outcome_fields_invalid res code = false
  /\ opt_all (fun c => between 1 (text_length c) 128) code = true.

Lemma set_outcome_check to res code now row :
  command_check row = true -> outcome_ok res code ->
  command_check (set_outcome (as_str to) res code now row) = true.
Proof.
  unfold command_check, outcome_ok, outcome_fields_invalid. intros Hc [Ho Ht]. split_guards.
  rewrite !andb_true_iff. repeat split; simpl; try done.
  - unfold known_state. by rewrite parse_as_str.
Qed.

Lemma transition_command_exec d key row st from to res code now :
  wf_db d -> db_commands d !! key = Some row -> row_state row = as_str st -> st ∈ from ->
  outcome_ok res code ->
  let row' := set_outcome (as_str to) res code now row in
  exec (transition_command key from to res code now) d =
  (Ok (record_of row' to), set_commands (<[key := row']> (db_commands d)) d).
Proof.
  intros W Hr Hs Hin Hok row'. unfold transition_command.
  assert (is_empty from || outcome_fields_invalid res code = false) as ->.
  { destruct Hok as [-> _]. rewrite orb_false_r. destruct from; [by apply elem_of_nil in Hin|done]. }
  assert (command_check row' = true) as Hc
    by (apply set_outcome_check; [by eapply wf_check|done]).
  unfold transition. rewrite exec_bind by apply _. rewrite (command_exec d key row st) by done.
  simpl. rewrite exec_bind by apply _. rewrite exec_lift. simpl. rewrite bool_decide_true by done.
  simpl. rewrite exec_bind by apply _. rewrite exec_stmt. unfold update_command.
  rewrite Hr, bool_decide_true by done. fold row'. rewrite Hc.
  rewrite exec_bind by apply _. unfold command, query_command. rewrite exec_query. simpl.
  rewrite lookup_insert_eq. simpl. rewrite (decode_row_ok row' to); [|done| |done].
  - by rewrite exec_lift.
  - simpl. by eapply wf_version.
Qed.

(** The database after a successful synthetic execution. *)
Definition executed_db (key sha res : bytes) (now : Z) (row : CommandRow) (d : Db) : Db :=
  let eff := mkSyntheticEffect sha res now in
  let row' := set_outcome (as_str Succeeded) (Some res) None now row in
  set_commands (<[key := row']> (db_commands d))
    (set_executions (db_executions d + 1) (set_effects (<[key := eff]> (db_effects d)) d)).

Lemma execute_and_complete_exec d key id sha res now row :
  wf_db d -> db_commands d !! key = Some row -> row_state row = as_str Running ->
  row_command_id row = id -> row_payload_sha256 row = sha -> db_effects d !! key = None ->
  db_executions d < i64_max -> len res <= 1048576 ->
  exec (execute_and_complete_synthetic key id sha res now) d =
  (Ok (record_of (set_outcome (as_str Succeeded) (Some res) None now row) Succeeded),
   executed_db key sha res now row d).
Proof.
  intros W Hr Hs Hi Hh He Hx Hl. unfold execute_and_complete_synthetic.
  destruct (Z.gtb_spec (len res) (1024 * 1024)); [lia|].
  set (row' := set_outcome (as_str Succeeded) (Some res) None now row).
  assert (command_check row = true) as Hcr by (by eapply wf_check).
  assert (command_check row' = true) as Hc.
  { apply set_outcome_check; [done|]. split; [|done]. unfold outcome_fields_invalid. simpl. lia. }
  assert (effect_check key (mkSyntheticEffect sha res now) = true) as Hec.
  { unfold effect_check. simpl. unfold command_check in Hcr. split_guards.
    rewrite <- Hh. rewrite <- (wf_key _ W _ _ Hr). rewrite !andb_true_iff. lia. }
  rewrite exec_transaction by apply _. rewrite exec_bind by apply _.
  change (query_command key) with (command key). rewrite (command_exec d key row Running) by done.
  simpl. rewrite exec_bind by apply _. rewrite exec_lift. simpl.
  rewrite !bool_decide_false by (try congruence; by intros []). simpl.
  rewrite exec_bind by apply _. unfold query_effect. rewrite exec_query, He.
  rewrite exec_bind by apply _. unfold record_effect. rewrite exec_bind by apply _.
  rewrite exec_stmt. unfold insert_effect. rewrite He, Hec. simpl. rewrite exec_stmt.
  unfold count_execution. simpl. destruct (Z.gtb_spec (db_executions d + 1) i64_max); [lia|].
  rewrite exec_bind by apply _. rewrite exec_stmt. unfold update_command. simpl.
  rewrite Hr, !bool_decide_true by done. simpl. change (str "succeeded") with (as_str Succeeded).
  fold row'. rewrite Hc. simpl. rewrite exec_bind by apply _.
  unfold command, query_command. rewrite exec_query. simpl. rewrite lookup_insert_eq. simpl.
  rewrite (decode_row_ok row' Succeeded); [|done|simpl; by eapply wf_version|done].
  by rewrite exec_lift.
Qed.

Lemma accept_fresh_exec d key id sha version now :
  wf_db d -> array 16 key -> array 16 id -> array 32 sha -> 0 <= version < 2 ^ 31 ->
  db_commands d !! key = None -> find_command id d = None ->
  exec (accept_command key id sha version now) d =
  (Ok (OutcomeAccepted (record_of (accepted_row key id sha version now) Accepted)),
   set_commands (<[key := accepted_row key id sha version now]> (db_commands d)) d).
Proof.
  intros W A1 A2 A3 Hv Hk Hi.
  destruct (accept_command_exec d key id sha version now W A1 A2 A3 Hv) as (bk & bi & Ek & Ei & ->).
  rewrite Hk in Ek. rewrite Hi in Ei. by injection Ek as <-; injection Ei as <-.
Qed.

Lemma exec_wf {A} (m : Sql Db A) d r d' : JournalOp A m -> wf_db d -> exec m d = (r, d') -> wf_db d'.
Proof.
  intros Hop W E. pose proof (journal_op_wf A m Hop (mkConn d []) W) as W'.
  unfold exec in E. destruct (m _) as [r' c']. by injection E as _ <-.
Qed.

Section Recovery.
Context `{Crypto} `{Platform}.

#[export] Instance accept_validated_faultless v ctx : EFaultless (accept_validated v ctx).
Proof. unfold accept_validated, accept_command, query_command, query_command_by_id. apply _. Qed.
#[export] Instance matching_record_faultless v : EFaultless (matching_record v).
Proof. unfold matching_record, command, command_by_id, query_command, query_command_by_id. apply _. Qed.
#[export] Instance start_running_faultless v ctx from : EFaultless (start_running v ctx from).
Proof. unfold start_running, transition_command, transition, command, query_command. apply _. Qed.
#[export] Instance run_synthetic_faultless v ctx : EFaultless (run_synthetic v ctx).
Proof.
  unfold run_synthetic, execute_and_complete_synthetic, query_command, query_effect, record_effect.
  apply _.
Qed.
#[export] Instance synthetic_effect_faultless key f : EFaultless (journal (synthetic_effect key) f).
Proof. unfold synthetic_effect, query_effect. apply _. Qed.
#[export] Instance transition_faultless key from to res code now f :
  EFaultless (journal (transition_command key from to res code now) f).
Proof. unfold transition_command, transition, command, query_command. apply _. Qed.

(** * Validated commands *)

Lemma validate_command_types e ctx v :
  validate_command e ctx = Ok v ->
  array 16 (val_key v) /\ array 16 (val_command_id v) /\ array 32 (val_payload_hash v)
  /\ (val_external v = false -> len (val_result v) <= 4096).
Proof.
  unfold validate_command. cbv zeta. intros E. invert_ok E.
  repeat match goal with E : fixed_command _ _ _ = Ok _ |- _ =>
    unfold fixed_command in E; case_bool_decide; [injection E as <-|discriminate E] end.
  match goal with E : verify_envelope_hash _ _ = Ok _ |- _ =>
    apply verify_envelope_hash_ok in E as (_ & m & _ & Eh) end.
  match goal with E : validate_payload e = Ok _ |- _ => rename E into Ep end.
  subst v. simpl. split; [done|]. split; [done|]. split; [unfold array; rewrite Eh; apply sha256_length|].
  intros ->. unfold validate_payload in Ep. destruct (env_payload e) as [[]|]; invert_ok Ep; subst;
    try done. lia.
Qed.

(** A synthetic command the journal does not know yet. *)
Record fresh_synthetic (v : ValidatedCommand) (d : Db) : Prop := {
  fs_wf : wf_db d;
  fs_external : val_external v = false;
  fs_key : db_commands d !! val_key v = None;
  fs_id : find_command (val_command_id v) d = None;
  fs_effect : db_effects d !! val_key v = None;
  fs_room : db_executions d < i64_max }.

(** The journal's row of the command, in a given state. *)
Record row_of (v : ValidatedCommand) (d : Db) (row : CommandRow) (st : CommandState) : Prop := {
  ro_lookup : db_commands d !! val_key v = Some row;
  ro_state : row_state row = as_str st;
  ro_id : row_command_id row = val_command_id v;
  ro_sha : row_payload_sha256 row = val_payload_hash v;
  ro_version : row_payload_hash_version row = SemanticPayloadHashVersion_value (val_hash_version v) }.

Lemma row_of_outcome v d row st to res code now :
  row_of v d row st ->
  let row' := set_outcome (as_str to) res code now row in
  row_of v (set_commands (<[val_key v := row']> (db_commands d)) d) row' to.
Proof. intros []. split; simpl; try done. by rewrite lookup_insert_eq. Qed.

Lemma matching_record_exec v d row st :
  wf_db d -> row_of v d row st -> eexec (matching_record v) d = (Ok (record_of row st), d).
Proof.
  intros W [Hr Hs Hi Hh Hv]. unfold matching_record.
  rewrite eexec_bind by (unfold command, query_command; apply _).
  rewrite eexec_journal, (command_exec d _ row st) by done.
  rewrite eexec_bind by (unfold command_by_id, query_command_by_id; apply _).
  rewrite eexec_journal, <- Hi, (command_by_id_exec d (val_key v) row st) by done.
  simpl. rewrite Hv, Z.eqb_refl. repeat (case_bool_decide; [|done]). done.
Qed.

Lemma start_running_exec v ctx from d row st :
  wf_db d -> row_of v d row st -> st ∈ from -> Forall (fun s => ~ terminal s) from ->
  let row' := set_outcome (as_str Running) None None (ctx_now_unix_seconds ctx) row in
  let d' := set_commands (<[val_key v := row']> (db_commands d)) d in
  eexec (start_running v ctx from) d = (Ok (record_of row' Running), d')
  /\ wf_db d' /\ row_of v d' row' Running.
Proof.
  intros W R Hin Hf row' d'. pose proof R as [Hr Hs _ _ _].
  pose proof (transition_command_exec d (val_key v) row st from Running None None
    (ctx_now_unix_seconds ctx) W Hr Hs Hin ltac:(done)) as E. cbv zeta in E.
  unfold start_running. rewrite eexec_journal, E. split; [done|]. split; [|by apply (row_of_outcome _ _ _ st)].
  by eapply exec_wf; [|exact W|exact E]; apply Op_transition.
Qed.

Lemma run_synthetic_exec v ctx d row :
  wf_db d -> row_of v d row Running -> db_effects d !! val_key v = None ->
  db_executions d < i64_max -> len (val_result v) <= 4096 ->
  let now := ctx_now_unix_seconds ctx in
  let row' := set_outcome (as_str Succeeded) (Some (val_result v)) None now row in
  let d' := executed_db (val_key v) (val_payload_hash v) (val_result v) now row d in
  eexec (run_synthetic v ctx) d = (Ok (record_of row' Succeeded), d')
  /\ wf_db d' /\ row_of v d' row' Succeeded.
Proof.
  intros W [Hr Hs Hi Hh Hv] He Hx Hl now row' d'.
  pose proof (execute_and_complete_exec d (val_key v) (val_command_id v) (val_payload_hash v)
    (val_result v) now row W Hr Hs Hi Hh He Hx ltac:(lia)) as E.
  unfold run_synthetic. fold now. rewrite eexec_journal, E. split; [done|]. split.
  - by eapply exec_wf; [|exact W|exact E]; apply Op_execute_and_complete.
  - split; simpl; try done. by rewrite lookup_insert_eq.
Qed.

(** * The three steps of recovery *)

(** Where a crash leaves the journal: the command is recorded and either not
    executed, or executed once and complete. *)
Definition interrupted (v : ValidatedCommand) (d d1 : Db) (row : CommandRow) (st : CommandState) : Prop :=
  wf_db d1 /\ row_of v d1 row st /\
  ((finished st = false /\ st ∈ UNFINISHED /\ db_effects d1 = db_effects d
    /\ db_executions d1 = db_executions d)
   \/ (st = Succeeded /\ row_result row = Some (val_result v)
       /\ (exists at_, db_effects d1 !! val_key v =
             Some (mkSyntheticEffect (val_payload_hash v) (val_result v) at_))
       /\ db_executions d1 = db_executions d + 1)).

Lemma execute_interrupted e ctx p v d :
  validate_command e ctx = Ok v -> fresh_synthetic v d ->
  exists d1 row st,
    eexec (execute e ctx (Some p)) d = (Err (InjectedCrash p), d1) /\ interrupted v d d1 row st.
Proof.
  intros Ev [W Hext Hk Hi He Hx]. pose proof (validate_command_types _ _ _ Ev) as (A1 & A2 & A3 & A4).
  specialize (A4 Hext).
  set (version := SemanticPayloadHashVersion_value (val_hash_version v)).
  assert (0 <= version < 2 ^ 31) as Hv by (unfold version; destruct (val_hash_version v); simpl; lia).
  set (now := ctx_now_unix_seconds ctx).
  pose proof (accept_fresh_exec d _ _ _ version now W A1 A2 A3 Hv Hk Hi) as Ea.
  set (row0 := accepted_row _ _ _ version now) in Ea. set (d0 := set_commands _ d) in Ea.
  assert (wf_db d0) as W0.
  { eapply exec_wf; [|exact W|exact Ea]. apply Op_accept. unfold in_i32. lia. }
  assert (row_of v d0 row0 Accepted) as R0 by (split; simpl; try done; by rewrite lookup_insert_eq).
  destruct (start_running_exec v ctx [Accepted] d0 row0 Accepted W0 R0) as (Es & W1 & R1);
    [set_solver|apply accepted_not_terminal|].
  set (row1 := set_outcome _ _ _ _ row0) in *. set (d1 := set_commands _ d0) in *.
  destruct (run_synthetic_exec v ctx d1 row1 W1 R1) as (Ex & W2 & R2); [done|done|done|].
  assert (forall q, inject (Some p) q = if bool_decide (p = q) then Err (InjectedCrash q) else Ok tt) as Hinj.
  { intros q. unfold inject. by rewrite (bool_decide_ext (Some p = Some q) (p = q)) by naive_solver. }
  unfold execute. rewrite eexec_bind by apply _. rewrite eexec_lift, Ev.
  rewrite eexec_bind by apply _. unfold accept_validated. rewrite eexec_journal. fold version now. rewrite Ea.
  rewrite eexec_bind by apply _. rewrite eexec_lift, Hinj.
  destruct (decide (p = AfterAccepted)) as [->|N1].
  { exists d0, row0, Accepted. split; [done|]. split; [done|]. split; [done|]. left.
    split; [done|]. split; [set_solver|done]. }
  rewrite bool_decide_false by done. rewrite eexec_bind by apply _. rewrite Es.
  rewrite eexec_bind by apply _. rewrite eexec_lift, Hinj.
  destruct (decide (p = BeforeSideEffect)) as [->|N2].
  { exists d1, row1, Running. split; [done|]. split; [done|]. split; [done|]. left.
    split; [done|]. split; [set_solver|done]. }
  rewrite bool_decide_false by done. rewrite eexec_bind by apply _. rewrite Ex.
  eexists _, _, Succeeded. split.
  { rewrite eexec_bind by apply _. rewrite eexec_lift, Hinj.
    destruct (decide (p = AfterSideEffect)) as [->|N3]; [done|]. rewrite bool_decide_false by done.
    rewrite eexec_bind by apply _. rewrite eexec_lift, Hinj. by destruct p. }
  split; [done|]. split; [done|]. right. split; [done|]. split; [done|]. split; [|done].
  exists now. simpl. by rewrite lookup_insert_eq.
Qed.

Lemma synthetic_effect_exec key d :
  db_effects d !! key = None -> exec (synthetic_effect key) d = (Ok None, d).
Proof. intros E. unfold synthetic_effect, query_effect. by rewrite exec_query, E. Qed.

(** The journal once the absence of the effect is recorded. *)
Definition proven_absent (v : ValidatedCommand) (d d2 : Db) (row : CommandRow) : Prop :=
  wf_db d2 /\ row_of v d2 row Unknown /\ row_error_code row = Some (str "effect_absent")
  /\ db_effects d2 = db_effects d /\ db_executions d2 = db_executions d.

Lemma reconcile_unfinished e ctx v d d1 row st :
  validate_command e ctx = Ok v -> db_effects d !! val_key v = None ->
  wf_db d1 -> row_of v d1 row st -> finished st = false -> st ∈ UNFINISHED ->
  db_effects d1 = db_effects d -> db_executions d1 = db_executions d ->
  exists row2 d2,
    eexec (reconcile e ctx) d1 = (Ok (mkCommandOutcome (record_of row2 Unknown) true), d2)
    /\ proven_absent v d d2 row2.
Proof.
  intros Ev He W R Hf Hin He1 Hx1. unfold reconcile. rewrite eexec_bind by apply _.
  rewrite eexec_lift, Ev, eexec_bind by apply _. rewrite (matching_record_exec v d1 row st) by done.
  unfold reconcile_replay. simpl (rec_state _). rewrite Hf, eexec_bind by apply _.
  rewrite eexec_journal, synthetic_effect_exec by congruence.
  destruct (has_code (record_of row st) "effect_absent") eqn:Hc.
  - rewrite eexec_bind by apply _. rewrite !eexec_ret. unfold has_code in Hc. split_guards.
    simpl in *. subst st. by exists row, d1.
  - pose proof R as [Hr Hs _ _ _].
    pose proof (transition_command_exec d1 (val_key v) row st UNFINISHED Unknown None
      (Some (str "effect_absent")) (ctx_now_unix_seconds ctx) W Hr Hs Hin ltac:(done)) as E.
    cbv zeta in E. rewrite eexec_bind by apply _. rewrite eexec_journal, E, eexec_ret.
    eexists _, _. split; [done|]. split.
    { eapply exec_wf; [|exact W|exact E]. apply Op_transition. apply unfinished_not_terminal. }
    split; [by apply (row_of_outcome _ _ _ st)|done].
Qed.

Lemma reconcile_finished e ctx v d1 row :
  validate_command e ctx = Ok v -> wf_db d1 -> row_of v d1 row Succeeded ->
  eexec (reconcile e ctx) d1 = (Ok (mkCommandOutcome (record_of row Succeeded) true), d1).
Proof.
  intros Ev W R. unfold reconcile. rewrite eexec_bind by apply _.
  rewrite eexec_lift, Ev, eexec_bind by apply _. by rewrite (matching_record_exec v d1 row Succeeded).
Qed.

Lemma retry_absent e ctx v d d2 row :
  validate_command e ctx = Ok v -> env_protocol_version e <> LEGACY_COMMAND_PROTOCOL_VERSION ->
  fresh_synthetic v d -> proven_absent v d d2 row ->
  exists r d3,
    eexec (retry_unknown e ctx) d2 = (Ok (mkCommandOutcome r true), d3)
    /\ rec_state r = Succeeded /\ rec_result r = Some (val_result v)
    /\ db_executions d3 = db_executions d + 1.
Proof.
  intros Ev Hp F (W & R & Hc & He2 & Hx2). unfold retry_unknown. rewrite bool_decide_false by done.
  pose proof (validate_command_types _ _ _ Ev) as (_ & _ & _ & Hl). specialize (Hl (fs_external _ _ F)).
  rewrite eexec_bind by apply _. rewrite eexec_lift, Ev, eexec_bind by apply _.
  rewrite (matching_record_exec v d2 row Unknown) by done.
  rewrite bool_decide_false by (by intros []). rewrite bool_decide_false by (by intros []).
  rewrite eexec_bind by apply _. rewrite eexec_journal, synthetic_effect_exec by (rewrite He2; apply (fs_effect _ _ F)).
  destruct (start_running_exec v ctx [Unknown] d2 row Unknown W R) as (Es & W3 & R3);
    [set_solver|apply unknown_not_terminal|].
  rewrite eexec_bind by apply _. rewrite Es.
  edestruct (run_synthetic_exec v ctx) as (Ex & _ & _); [exact W3|exact R3| | |done|].
  { simpl. rewrite He2. apply (fs_effect _ _ F). }
  { simpl. rewrite Hx2. apply (fs_room _ _ F). }
  rewrite eexec_bind by apply _. rewrite Ex, eexec_ret. eexists _, _. split; [done|].
  split; [done|]. split; [done|]. simpl. by rewrite Hx2.
Qed.

(** The legacy protocol does not know retries: it looks again. *)
Lemma retry_legacy e ctx v d d2 row :
  validate_command e ctx = Ok v -> env_protocol_version e = LEGACY_COMMAND_PROTOCOL_VERSION ->
  fresh_synthetic v d -> proven_absent v d d2 row ->
  eexec (retry_unknown e ctx) d2 = (Ok (mkCommandOutcome (record_of row Unknown) true), d2).
Proof.
  intros Ev Hp F (W & R & Hc & He2 & _). unfold retry_unknown. rewrite bool_decide_true by done.
  unfold reconcile. rewrite eexec_bind by apply _.
  rewrite eexec_lift, Ev, eexec_bind by apply _. rewrite (matching_record_exec v d2 row Unknown) by done.
  unfold reconcile_replay. simpl (finished _). cbv iota. rewrite eexec_bind by apply _.
  rewrite eexec_journal, synthetic_effect_exec by (rewrite He2; apply (fs_effect _ _ F)).
  unfold has_code. simpl (rec_error_code _). rewrite Hc. rewrite eexec_bind by apply _. done.
Qed.

(** C12. A synthetic command that the journal does not know is never executed
    twice, whatever the crash point, and its recovery finishes it, on storage
    whose statements do not fail: a run interrupted at any of the executor's
    crash points [p] leaves a journal from which reconciliation either reports
    the one execution with its result and writes nothing, or records that the
    effect is absent without executing.  In the second case the retry that
    follows executes the command exactly once and succeeds with its result; a
    retry of the legacy protocol only reconciles again: it reports the same
    absent effect, writes nothing and executes nothing. *)
Theorem crash_recovery e1 e2 e3 ctx1 ctx2 ctx3 p v d :
  validate_command e1 ctx1 = Ok v -> validate_command e2 ctx2 = Ok v ->
  validate_command e3 ctx3 = Ok v -> fresh_synthetic v d ->
  exists d1 d2 r2,
    eexec (execute e1 ctx1 (Some p)) d = (Err (InjectedCrash p), d1)
    /\ eexec (reconcile e2 ctx2) d1 = (Ok (mkCommandOutcome r2 true), d2)
    /\ ((rec_state r2 = Succeeded /\ rec_result r2 = Some (val_result v) /\ d2 = d1
         /\ db_executions d2 = db_executions d + 1)
        \/ (rec_state r2 = Unknown /\ rec_error_code r2 = Some (str "effect_absent")
            /\ db_executions d2 = db_executions d
            /\ exists r3 d3,
                 eexec (retry_unknown e3 ctx3) d2 = (Ok (mkCommandOutcome r3 true), d3)
                 /\ if decide (env_protocol_version e3 = LEGACY_COMMAND_PROTOCOL_VERSION)
                    then r3 = r2 /\ d3 = d2
                    else rec_state r3 = Succeeded /\ rec_result r3 = Some (val_result v)
                         /\ db_executions d3 = db_executions d + 1)).
Proof.
  intros E1 E2 E3 F.
  destruct (execute_interrupted e1 ctx1 p v d E1 F) as (d1 & row & st & Ex & W & R & [Hu|Hd]).
  - destruct Hu as (Hf & Hin & He & Hx).
    destruct (reconcile_unfinished e2 ctx2 v d d1 row st E2 (fs_effect _ _ F) W R Hf Hin He Hx)
      as (row2 & d2 & Er & Habs).
    exists d1, d2, (record_of row2 Unknown). split; [done|]. split; [done|]. right.
    pose proof Habs as (_ & _ & Hc & _ & Hx2). split; [done|]. split; [done|]. split; [done|].
    destruct (decide _) as [L|Hp]; [|by eapply retry_absent].
    exists (record_of row2 Unknown), d2. split; [by eapply retry_legacy|done].
  - destruct Hd as (-> & Hres & _ & Hx). exists d1, d1, (record_of row Succeeded). split; [done|].
    split; [by apply (reconcile_finished e2 ctx2 v)|]. left. done.
Qed.
End Recovery.

(** The noop of the sample session, interrupted between its start and its
    execution. *)
Lemma crash_recovery_witness :
  exists d1 d2 r2,
    eexec (@execute sample_crypto sample_platform sample_envelope sample_context (Some BeforeSideEffect))
      empty_db = (Err (InjectedCrash BeforeSideEffect), d1)
    /\ eexec (@reconcile sample_crypto sample_platform sample_envelope sample_context) d1
       = (Ok (mkCommandOutcome r2 true), d2).
Proof.
  destruct (@crash_recovery sample_crypto sample_platform
    sample_envelope sample_envelope sample_envelope sample_context sample_context sample_context
    BeforeSideEffect (mkValidatedCommand (be 16 2) (be 16 1)
      (env_semantic_payload_sha256 sample_envelope) HashV2 (str "noop:completed") false) empty_db)
    as (d1 & d2 & r2 & H1 & H2 & _);
    [by vm_compute|by vm_compute|by vm_compute| |exists d1, d2, r2; split; [exact H1|exact H2]].
  split; try (by vm_compute). apply wf_empty.
Defined.
