(* ===== verification/Trust.v ===== *)
(** Admission control of the transport daemon, the first part of
    [rust/crates/transportd/src/lib.rs]: the trust classes with their budgets,
    the per-endpoint attempt windows, and the identity policy. *)

From stdpp Require Import base list gmap numbers countable strings.
From Stdlib Require Import ZArith Lia Bool Strings.Byte.
From S2P Require Import Prelude Bytes.

Local Open Scope Z_scope.

Definition ENROLL_ALPN : bytes := str "ocserv-platform/enroll/1".
Definition AGENT_ALPN : bytes := str "ocserv-platform/agent/1".

Definition MAX_CONNECTIONS : Z := 4096.
Definition MAX_ENROLLMENT_CONNECTIONS : Z := 64.
Definition MAX_AGENT_CONNECTIONS : Z := MAX_CONNECTIONS - MAX_ENROLLMENT_CONNECTIONS.
Definition MAX_ATTEMPTS_PER_MINUTE : Z := 30.
Definition MAX_TRUST_SNAPSHOT_BINDINGS : Z := 8192.

(** An [Instant] is a number of nanoseconds on the monotonic clock;
    [duration_since] saturates at zero. *)
Definition NANOS_PER_MINUTE : Z := 60 * 1000000000.
Definition duration_since (later earlier : Z) : Z := Z.max 0 (later - earlier).

(** [AtomicU64::fetch_add] and [fetch_sub] wrap around. *)
Definition u64_wrapping (z : Z) : Z := z mod 2 ^ 64.

(** * Attempt windows *)

Inductive AttemptRejection := RejectRate | RejectCapacity.

(** [while front is a minute old { pop_front() }] *)
Fixpoint drop_expired (now : Z) (attempts : list Z) : list Z :=
  match attempts with
  | at_ :: rest =>
      if duration_since now at_ >=? NANOS_PER_MINUTE then drop_expired now rest else attempts
  | [] => []
  end.

Definition record_global_attempt (attempts : list Z) (now limit : Z)
    : result AttemptRejection unit * list Z :=
  let attempts := drop_expired now attempts in
  if len attempts >=? limit then (Err RejectRate, attempts)
  else (Ok tt, attempts ++ [now]).

Definition record_attempt (attempts : gmap bytes (list Z)) (endpoint : bytes)
    (now identity_capacity : Z) : result AttemptRejection unit * gmap bytes (list Z) :=
  let attempts := omap (fun endpoint_attempts =>
      let kept := drop_expired now endpoint_attempts in
      if is_empty kept then None else Some kept) attempts in
  if bool_decide (attempts !! endpoint = None) && (Z.of_nat (size attempts) >=? identity_capacity)
  then (Err RejectCapacity, attempts)
  else
  let endpoint_attempts := default [] (attempts !! endpoint) in
  if len endpoint_attempts >=? MAX_ATTEMPTS_PER_MINUTE
  then (Err RejectRate, <[endpoint := endpoint_attempts]> attempts)
  else (Ok tt, <[endpoint := endpoint_attempts ++ [now]]> attempts).

(** * Trust classes *)

Inductive TrustClass :=
| KnownAgentHandshake | AgentAuthorization | AgentRegistrationRecheck
| UnknownEnrollmentPreAuth | EnrollmentCompletion.

#[export] Instance TrustClass_eq_dec : EqDecision TrustClass.
Proof. solve_decision. Defined.

Definition TrustClass_COUNT : nat := 5.

Definition index (c : TrustClass) : nat :=
  match c with
  | KnownAgentHandshake => 0
  | AgentAuthorization => 1
  | AgentRegistrationRecheck => 2
  | UnknownEnrollmentPreAuth => 3
  | EnrollmentCompletion => 4
  end.

Record TrustClassLimit := mkTrustClassLimit { attempts_per_minute : Z; concurrency : Z }.

#[export] Instance TrustClassLimit_inhabited : Inhabited TrustClassLimit :=
  populate (mkTrustClassLimit 0 0).

Record TrustBudgetConfig := mkTrustBudgetConfig { limits : list TrustClassLimit }.

Definition TrustBudgetConfig_default : TrustBudgetConfig :=
  mkTrustBudgetConfig
    [mkTrustClassLimit 2400 256; mkTrustClassLimit 1200 48; mkTrustClassLimit 1200 48;
     mkTrustClassLimit 120 16; mkTrustClassLimit 120 8].

Definition with_limit (self : TrustBudgetConfig) (class : TrustClass) (limit : TrustClassLimit)
    : result bytes TrustBudgetConfig :=
  if negb ((1 <=? attempts_per_minute limit) && (attempts_per_minute limit <=? 10000))
     || negb ((1 <=? concurrency limit) && (concurrency limit <=? 512))
  then Err (str "trust class limits are outside the safe range")
  else Ok (mkTrustBudgetConfig (<[index class := limit]> (limits self))).

(** One class: its window, the free permits of its semaphore, and its
    counters. *)
Record TrustClassBudget := mkTrustClassBudget {
  tb_attempts : list Z; tb_checks : Z; tb_accepted : Z; tb_rate_rejected : Z;
  tb_capacity_rejected : Z; tb_in_flight : Z; tb_limit : TrustClassLimit }.

#[export] Instance TrustClassBudget_inhabited : Inhabited TrustClassBudget :=
  populate (mkTrustClassBudget [] 0 0 0 0 0 inhabitant).

Abbreviation TrustBudgetSet := (list TrustClassBudget).

Definition TrustBudgetSet_new (config : TrustBudgetConfig) : TrustBudgetSet :=
  (fun i => let limit := limits config !!! i in
     mkTrustClassBudget [] (concurrency limit) 0 0 0 0 limit) <$> seq 0 TrustClass_COUNT.

Definition count_capacity_rejected (b : TrustClassBudget) : TrustClassBudget :=
  mkTrustClassBudget (tb_attempts b) (tb_checks b) (tb_accepted b) (tb_rate_rejected b)
    (u64_wrapping (tb_capacity_rejected b + 1)) (tb_in_flight b) (tb_limit b).

(** [try_acquire_owned], taking one permit of the class's semaphore. *)
Definition try_acquire (set_ : TrustBudgetSet) (class : TrustClass)
    : result AttemptRejection unit * TrustBudgetSet :=
  let b := set_ !!! index class in
  if tb_checks b <=? 0
  then (Err RejectCapacity, <[index class := count_capacity_rejected b]> set_)
  else
  (Ok tt, <[index class := mkTrustClassBudget (tb_attempts b) (tb_checks b - 1) (tb_accepted b)
      (tb_rate_rejected b) (tb_capacity_rejected b) (tb_in_flight b) (tb_limit b)]> set_).

(** The rest of [acquire_at], with the permit in hand, under the lock of the
    window: a refusal drops the permit. *)
Definition charge_attempt (set_ : TrustBudgetSet) (class : TrustClass) (now : Z)
    : result AttemptRejection unit * TrustBudgetSet :=
  let b := set_ !!! index class in
  match record_global_attempt (tb_attempts b) now (attempts_per_minute (tb_limit b)) with
  | (Err rejection, attempts) =>
      (Err rejection,
       <[index class := mkTrustClassBudget attempts (tb_checks b + 1) (tb_accepted b)
           (u64_wrapping (tb_rate_rejected b + 1)) (tb_capacity_rejected b) (tb_in_flight b)
           (tb_limit b)]> set_)
  | (Ok _, attempts) =>
      (Ok tt,
       <[index class := mkTrustClassBudget attempts (tb_checks b) (u64_wrapping (tb_accepted b + 1))
           (tb_rate_rejected b) (tb_capacity_rejected b) (u64_wrapping (tb_in_flight b + 1))
           (tb_limit b)]> set_)
  end.

Definition acquire_at (set_ : TrustBudgetSet) (class : TrustClass) (now : Z)
    : result AttemptRejection unit * TrustBudgetSet :=
  match try_acquire set_ class with
  | (Err rejection, set_) => (Err rejection, set_)
  | (Ok _, set_) => charge_attempt set_ class now
  end.

(** The permit counts as in flight without an attempt. *)
Definition start_flight (set_ : TrustBudgetSet) (class : TrustClass) : TrustBudgetSet :=
  let b := set_ !!! index class in
  <[index class := mkTrustClassBudget (tb_attempts b) (tb_checks b) (tb_accepted b)
      (tb_rate_rejected b) (tb_capacity_rejected b) (u64_wrapping (tb_in_flight b + 1))
      (tb_limit b)]> set_.

Definition acquire_capacity (set_ : TrustBudgetSet) (class : TrustClass)
    : result AttemptRejection unit * TrustBudgetSet :=
  match try_acquire set_ class with
  | (Err rejection, set_) => (Err rejection, set_)
  | (Ok _, set_) => (Ok tt, start_flight set_ class)
  end.

(** [Drop for TrustBudgetPermit], with the semaphore permit it owns. *)
Definition drop_permit (set_ : TrustBudgetSet) (class : TrustClass) : TrustBudgetSet :=
  let b := set_ !!! index class in
  <[index class := mkTrustClassBudget (tb_attempts b) (tb_checks b + 1) (tb_accepted b)
      (tb_rate_rejected b) (tb_capacity_rejected b) (u64_wrapping (tb_in_flight b - 1))
      (tb_limit b)]> set_.

(** * The identity policy *)

Inductive NodeTrustState := TrustUnspecified | Active | Revoked.

#[export] Instance NodeTrustState_eq_dec : EqDecision NodeTrustState.
Proof. solve_decision. Defined.

Definition NodeTrustState_try_from (v : Z) : option NodeTrustState :=
  match v with
  | 0 => Some TrustUnspecified
  | 1 => Some Active
  | 2 => Some Revoked
  | _ => None
  end.

Record IdentityState := mkIdentityState {
  approved : gmap bytes bytes; revoked : gmap bytes bytes; revisions : gmap bytes Z;
  synchronized : bool }.

Inductive PolicyUpdateDisposition := PolicyApplied | PolicyStale | PolicyRejected.

#[export] Instance PolicyUpdateDisposition_eq_dec : EqDecision PolicyUpdateDisposition.
Proof. solve_decision. Defined.

(** [IdentityPolicy::new] *)
Definition IdentityPolicy_new (approved_ : gmap bytes bytes) (revoked_ : list bytes) : IdentityState :=
  mkIdentityState approved_ (list_to_map ((fun e => (e, [])) <$> revoked_))
    (list_to_map ((fun e => (e, u64_max)) <$> revoked_)) true.

(** One binding of the snapshot loop. *)
Definition snapshot_binding (acc : IdentityState) (b : bytes * bytes * NodeTrustState * Z)
    : result bytes IdentityState :=
  let '(endpoint, node_id, state, revision) := b in
  if negb (len node_id =? 16) || (revision =? 0)
     || (Z.of_nat (size (revisions acc)) >=? MAX_TRUST_SNAPSHOT_BINDINGS)
     || bool_decide (is_Some (revisions acc !! endpoint))
  then Err (str "trust snapshot is invalid or exceeds capacity")
  else
  let revisions_ := <[endpoint := revision]> (revisions acc) in
  match state with
  | Active =>
      if existsb (fun kv => bool_decide (snd kv = node_id)) (map_to_list (approved acc))
      then Err (str "trust snapshot contains a duplicate node binding")
      else Ok (mkIdentityState (<[endpoint := node_id]> (approved acc)) (revoked acc) revisions_ true)
  | Revoked =>
      Ok (mkIdentityState (approved acc) (<[endpoint := node_id]> (revoked acc)) revisions_ true)
  | TrustUnspecified => Err (str "trust snapshot state is invalid")
  end.

Fixpoint snapshot_bindings (acc : IdentityState) (l : list (bytes * bytes * NodeTrustState * Z))
    : result bytes IdentityState :=
  match l with
  | [] => Ok acc
  | b :: rest => let? acc := snapshot_binding acc b in snapshot_bindings acc rest
  end.

Definition replace_snapshot (self : IdentityState) (bindings : list (bytes * bytes * NodeTrustState * Z))
    : result bytes unit * IdentityState :=
  match snapshot_bindings (mkIdentityState ∅ ∅ ∅ true) bindings with
  | Ok next => (Ok tt, next)
  | Err e => (Err e, self)
  end.

Definition permits (self : IdentityState) (endpoint alpn : bytes) : bool :=
  if negb (synchronized self) || bool_decide (is_Some (revoked self !! endpoint)) then false
  else bool_decide (alpn = ENROLL_ALPN)
       || (bool_decide (alpn = AGENT_ALPN) && bool_decide (is_Some (approved self !! endpoint))).

Definition matches_node (self : IdentityState) (endpoint node_id : bytes) : bool :=
  bool_decide (approved self !! endpoint = Some node_id).

Definition policy_revoked (self : IdentityState) (endpoint : bytes) : bool :=
  bool_decide (is_Some (revoked self !! endpoint)).

Definition policy_revision (self : IdentityState) (endpoint : bytes) : Z :=
  default 0 (revisions self !! endpoint).

(** [update] at the retained revision: only an identical state is
    acknowledged. *)
Definition same_binding (self : IdentityState) (endpoint node_id : bytes) (state : NodeTrustState)
    : bool :=
  match state with
  | Active => bool_decide (approved self !! endpoint = Some node_id)
  | Revoked =>
      match revoked self !! endpoint with
      | Some bound_node => is_empty bound_node || bool_decide (bound_node = node_id)
      | None => false
      end
  | TrustUnspecified => false
  end.

Definition binding_conflict (self : IdentityState) (endpoint node_id : bytes) : bool :=
  existsb (fun '(bound_endpoint, bound_node) =>
      (bool_decide (bound_endpoint = endpoint) && bool_decide (bound_node <> node_id))
      || (bool_decide (bound_endpoint <> endpoint) && bool_decide (bound_node = node_id)))
    (map_to_list (approved self)).

Definition policy_update (self : IdentityState) (endpoint node_id : bytes) (state : NodeTrustState)
    (revision : Z) : PolicyUpdateDisposition * IdentityState :=
  if bool_decide (revisions self !! endpoint = None)
     && (Z.of_nat (size (revisions self)) >=? MAX_TRUST_SNAPSHOT_BINDINGS)
  then (PolicyRejected, self)
  else
  let current_revision := default 0 (revisions self !! endpoint) in
  if revision <? current_revision then (PolicyStale, self)
  else if (revision =? current_revision) && negb (current_revision =? 0)
  then (if same_binding self endpoint node_id state then PolicyApplied else PolicyRejected, self)
  else
  let revisions_ := <[endpoint := revision]> (revisions self) in
  match state with
  | Active =>
      if bool_decide (is_Some (revoked self !! endpoint)) then (PolicyRejected, self)
      else if binding_conflict self endpoint node_id then (PolicyRejected, self)
      else (PolicyApplied, mkIdentityState (<[endpoint := node_id]> (approved self)) (revoked self)
              revisions_ (synchronized self))
  | Revoked =>
      if match approved self !! endpoint with
         | Some bound_node => bool_decide (bound_node <> node_id)
         | None => false
         end
      then (PolicyRejected, self)
      else if match revoked self !! endpoint with
              | Some bound_node => negb (is_empty bound_node) && bool_decide (bound_node <> node_id)
              | None => false
              end
      then (PolicyRejected, self)
      else (PolicyApplied, mkIdentityState (delete endpoint (approved self))
              (<[endpoint := node_id]> (revoked self)) revisions_ (synchronized self))
  | TrustUnspecified => (PolicyRejected, self)
  end.

Definition retained_state (self : IdentityState) (endpoint : bytes) : NodeTrustState :=
  if bool_decide (is_Some (revoked self !! endpoint)) then Revoked
  else if bool_decide (is_Some (approved self !! endpoint)) then Active
  else TrustUnspecified.

(** * The handshake hook *)

Record SecurityHook := mkSecurityHook {
  hook_policy : IdentityState; agent_attempts : gmap bytes (list Z);
  enrollment_attempts : gmap bytes (list Z); budgets : TrustBudgetSet }.

Inductive AfterHandshakeOutcome := HookAccept | HookReject (error_code : Z) (reason : bytes).

(** The permit of the class is dropped when the hook returns. *)
Definition after_handshake (self : SecurityHook) (endpoint alpn : bytes) (now budget_now : Z)
    : AfterHandshakeOutcome * SecurityHook :=
  if bool_decide (alpn <> ENROLL_ALPN) && bool_decide (alpn <> AGENT_ALPN)
  then (HookReject 256 (str "unsupported protocol"), self)
  else if policy_revoked (hook_policy self) endpoint
          || (bool_decide (alpn = AGENT_ALPN) && negb (permits (hook_policy self) endpoint alpn))
  then (HookReject 257 (str "endpoint not permitted"), self)
  else
  let enrolling := bool_decide (alpn = ENROLL_ALPN) in
  let '(attempts, identity_capacity) :=
    if enrolling then (enrollment_attempts self, MAX_ENROLLMENT_CONNECTIONS)
    else (agent_attempts self, MAX_AGENT_CONNECTIONS) in
  let '(recorded, attempts) := record_attempt attempts endpoint now identity_capacity in
  let self :=
    if enrolling then mkSecurityHook (hook_policy self) (agent_attempts self) attempts (budgets self)
    else mkSecurityHook (hook_policy self) attempts (enrollment_attempts self) (budgets self) in
  match recorded with
  | Err _ => (HookReject 259 (str "connection rate exceeded"), self)
  | Ok _ =>
      let class := if enrolling then UnknownEnrollmentPreAuth else KnownAgentHandshake in
      let with_budgets b :=
        mkSecurityHook (hook_policy self) (agent_attempts self) (enrollment_attempts self) b in
      match acquire_at (budgets self) class budget_now with
      | (Err RejectCapacity, b) =>
          (HookReject 258 (str "connection class capacity reached"), with_budgets b)
      | (Err RejectRate, b) =>
          (HookReject 259 (str "connection class rate exceeded"), with_budgets b)
      | (Ok _, b) => (HookAccept, with_budgets (drop_permit b class))
      end
  end.
