(* ===== verification/TrustTheorems.v ===== *)
(** Admission control: the identity policy keeps its bindings one-to-one and
    its revocations final, no trust class exceeds its concurrency or its rate
    whatever the others do. *)

From stdpp Require Import base list gmap numbers countable strings relations sorting.
From Stdlib Require Import ZArith Lia Bool Strings.Byte.
From S2P Require Import Prelude Bytes Trust.

Local Open Scope Z_scope.

(** * The identity policy *)

Record wf_policy (s : IdentityState) : Prop := {
  pol_disjoint e : is_Some (revoked s !! e) -> approved s !! e = None;
  pol_unique e1 e2 n : approved s !! e1 = Some n -> approved s !! e2 = Some n -> e1 = e2;
  pol_known e : is_Some (approved s !! e) \/ is_Some (revoked s !! e) -> is_Some (revisions s !! e);
  pol_bound : Z.of_nat (size (revisions s)) <= MAX_TRUST_SNAPSHOT_BINDINGS }.

Definition default_policy : IdentityState := IdentityPolicy_new ∅ [].

Inductive policy_reachable : IdentityState -> Prop :=
| reach_default : policy_reachable default_policy
| reach_snapshot s l : policy_reachable s -> policy_reachable (snd (replace_snapshot s l))
| reach_update s e n st r : policy_reachable s -> policy_reachable (snd (policy_update s e n st r)).

Definition update_step (s s' : IdentityState) : Prop :=
  exists e n st r, s' = snd (policy_update s e n st r).

Lemma existsb_values (m : gmap bytes bytes) n :
  existsb (fun kv => bool_decide (snd kv = n)) (map_to_list m) = false ->
  forall e, m !! e <> Some n.
Proof.
  intros H e E. apply elem_of_map_to_list, list_elem_of_In in E.
  apply not_true_iff_false in H. apply H, existsb_exists. exists (e, n).
  split; [done|]. by apply bool_decide_eq_true.
Qed.

Lemma binding_conflict_false s e n :
  binding_conflict s e n = false ->
  (forall m, approved s !! e = Some m -> m = n) /\ (forall e', approved s !! e' = Some n -> e' = e).
Proof.
  unfold binding_conflict. intros H.
  assert (forall e' m, approved s !! e' = Some m ->
    ((bool_decide (e' = e) && bool_decide (m <> n))
     || (bool_decide (e' <> e) && bool_decide (m = n)))%bool = false) as F.
  { intros e' m E. apply elem_of_map_to_list, list_elem_of_In in E.
    apply not_true_iff_false. intros C. apply not_true_iff_false in H. apply H, existsb_exists.
    by exists (e', m). }
  split; intros x E; apply F in E; rewrite orb_false_iff, !andb_false_iff, !bool_decide_eq_false in E;
    destruct E as [E1 E2]; apply dec_stable; intuition congruence.
Qed.

Lemma size_insert_known (m : gmap bytes Z) e v :
  is_Some (m !! e) -> size (<[e := v]> m) = size m.
Proof. intros [x E]. by rewrite map_size_insert, E. Qed.

Lemma size_insert_bound (m : gmap bytes Z) e v :
  Z.of_nat (size m) <= MAX_TRUST_SNAPSHOT_BINDINGS ->
  (m !! e = None -> Z.of_nat (size m) < MAX_TRUST_SNAPSHOT_BINDINGS) ->
  Z.of_nat (size (<[e := v]> m)) <= MAX_TRUST_SNAPSHOT_BINDINGS.
Proof.
  intros H1 H2. destruct (m !! e) eqn:E.
  - rewrite size_insert_known by (by rewrite E). done.
  - rewrite map_size_insert_None by done. specialize (H2 eq_refl). lia.
Qed.

(** Approving [e] for [n] where neither is bound elsewhere. *)
Lemma wf_approve s e n r sync :
  wf_policy s -> revoked s !! e = None -> (forall e', approved s !! e' = Some n -> e' = e) ->
  (revisions s !! e = None -> Z.of_nat (size (revisions s)) < MAX_TRUST_SNAPSHOT_BINDINGS) ->
  wf_policy (mkIdentityState (<[e := n]> (approved s)) (revoked s) (<[e := r]> (revisions s)) sync).
Proof.
  intros [D U K B] Hr Hn Hb. split; simpl.
  - intros e' He'. destruct (decide (e' = e)) as [->|Ne]; [rewrite Hr in He'; by destruct He'|].
    rewrite lookup_insert_ne by done. auto.
  - intros e1 e2 m. rewrite !lookup_insert_Some.
    intros [[<- <-]|[N1 E1]] [[<- Em]|[N2 E2]]; try done.
    + symmetry. by apply Hn.
    + subst. by apply Hn.
    + by eapply U.
  - intros e' He'. destruct (decide (e' = e)) as [->|Ne]; [rewrite lookup_insert_eq; by eexists|].
    rewrite lookup_insert_ne by done. apply K. rewrite lookup_insert_ne in He' by done. done.
  - by apply size_insert_bound.
Qed.

Lemma wf_revoke s e n r sync :
  wf_policy s ->
  (revisions s !! e = None -> Z.of_nat (size (revisions s)) < MAX_TRUST_SNAPSHOT_BINDINGS) ->
  wf_policy (mkIdentityState (delete e (approved s)) (<[e := n]> (revoked s))
    (<[e := r]> (revisions s)) sync).
Proof.
  intros [D U K B] Hb. split; simpl.
  - intros e' He'. destruct (decide (e' = e)) as [->|Ne]; [by rewrite lookup_delete_eq|].
    rewrite lookup_delete_ne by done. rewrite lookup_insert_ne in He' by done. auto.
  - intros e1 e2 m [_ E1]%lookup_delete_Some [_ E2]%lookup_delete_Some. by eapply U.
  - intros e' He'. destruct (decide (e' = e)) as [->|Ne]; [rewrite lookup_insert_eq; by eexists|].
    rewrite lookup_insert_ne by done. apply K. rewrite lookup_delete_ne, lookup_insert_ne in He' by done.
    done.
  - by apply size_insert_bound.
Qed.

Lemma snapshot_binding_wf acc b acc' :
  snapshot_binding acc b = Ok acc' -> wf_policy acc -> wf_policy acc'.
Proof.
  destruct b as [[[e n] st] r]. unfold snapshot_binding. intros E W. invert_ok E; split_guards.
  - subst. assert (revisions acc !! e = None) as Hn by (by apply eq_None_not_Some).
    assert (revoked acc !! e = None) as Hr.
    { apply eq_None_not_Some. intros Hs. destruct (pol_known _ W e) as [x Hx]; [by right|congruence]. }
    apply wf_approve; [done|done| |intros _; lia].
    intros e' E'. by apply existsb_values with (e := e') in Hguard0.
  - subst. assert (revisions acc !! e = None) as Hn by (by apply eq_None_not_Some).
    assert (approved acc !! e = None) as Ha.
    { apply eq_None_not_Some. intros Hs. destruct (pol_known _ W e) as [x Hx]; [by left|congruence]. }
    rewrite <- (delete_id (approved acc) e) by done. apply wf_revoke; [done|intros _; lia].
Qed.

Lemma replace_snapshot_wf s l : wf_policy s -> wf_policy (snd (replace_snapshot s l)).
Proof.
  intros W. unfold replace_snapshot. destruct (snapshot_bindings _ l) as [s'|] eqn:E; [|done].
  simpl. clear W. assert (wf_policy (mkIdentityState ∅ ∅ ∅ true)) as W.
  { split; simpl; try done. by intros e [[]|[]]. }
  revert E W. generalize (mkIdentityState ∅ ∅ ∅ true) as acc.
  induction l as [|b l IH]; simpl; intros acc E W; [by injection E as <-|].
  destruct (snapshot_binding acc b) as [acc'|] eqn:Eb; [|done].
  eapply IH; [done|]. by eapply snapshot_binding_wf.
Qed.

(** An update leaves the policy alone or is one of the two effects. *)
Lemma policy_update_cases s e n st r d s' :
  policy_update s e n st r = (d, s') ->
  s' = s
  \/ (policy_revision s e <= r
      /\ (revisions s !! e = None -> Z.of_nat (size (revisions s)) < MAX_TRUST_SNAPSHOT_BINDINGS)
      /\ d = PolicyApplied
      /\ ((st = Active /\ revoked s !! e = None /\ binding_conflict s e n = false
           /\ s' = mkIdentityState (<[e := n]> (approved s)) (revoked s)
                     (<[e := r]> (revisions s)) (synchronized s))
          \/ (st = Revoked
              /\ s' = mkIdentityState (delete e (approved s)) (<[e := n]> (revoked s))
                     (<[e := r]> (revisions s)) (synchronized s)))).
Proof.
  unfold policy_update, policy_revision. cbv zeta. intros E.
  destruct (_ && (_ >=? _))%bool eqn:G1; [left; by injection E as _ <-|].
  destruct (r <? _) eqn:G2; [left; by injection E as _ <-|].
  destruct ((r =? _) && _)%bool eqn:G3; [left; by injection E as _ <-|].
  assert (revisions s !! e = None -> Z.of_nat (size (revisions s)) < MAX_TRUST_SNAPSHOT_BINDINGS) as Hb.
  { intros Hn. rewrite bool_decide_true in G1 by done. simpl in G1. lia. }
  destruct st; [left; by injection E as _ <-| |].
  - case_bool_decide as Hr; [left; by injection E as _ <-|].
    destruct (binding_conflict s e n) eqn:Hc; [left; by injection E as _ <-|]. injection E as <- <-. right.
    split; [lia|]. split; [done|]. split; [done|]. left. split; [done|].
    split; [by apply eq_None_not_Some|done].
  - match type of E with (if ?b then _ else _) = _ => destruct b end; [left; by injection E as _ <-|].
    match type of E with (if ?b then _ else _) = _ => destruct b end; [left; by injection E as _ <-|]. injection E as <- <-. right.
    split; [lia|]. split; [done|]. split; [done|]. by right.
Qed.

Lemma policy_update_wf s e n st r : wf_policy s -> wf_policy (snd (policy_update s e n st r)).
Proof.
  intros W. destruct (policy_update s e n st r) as [d s'] eqn:E.
  apply policy_update_cases in E as [->|(_ & Hb & _ & [(-> & Hr & Hc & ->)|(-> & ->)])]; [done| |].
  - apply wf_approve; [done|done| |done]. by apply binding_conflict_false.
  - by apply wf_revoke.
Qed.

Lemma policy_reachable_wf s : policy_reachable s -> wf_policy s.
Proof.
  induction 1 as [|s l _ IH|s e n st r _ IH].
  - split; simpl; try done. by intros e [[]|[]].
  - by apply replace_snapshot_wf.
  - by apply policy_update_wf.
Qed.

(** What no update takes back. *)
Definition policy_advances (s s' : IdentityState) : Prop :=
  (forall e, is_Some (revoked s !! e) -> is_Some (revoked s' !! e))
  /\ (forall e, policy_revision s e <= policy_revision s' e).

#[export] Instance policy_advances_preorder : PreOrder policy_advances.
Proof.
  split; [by split|]. intros s1 s2 s3 [R1 V1] [R2 V2]. split; [auto|].
  intros e. specialize (V1 e). specialize (V2 e). lia.
Qed.

Lemma policy_update_advances s e n st r : policy_advances s (snd (policy_update s e n st r)).
Proof.
  destruct (policy_update s e n st r) as [d s'] eqn:E. simpl.
  apply policy_update_cases in E as [->|(Hle & _ & _ & Hs)]; [reflexivity|].
  assert (forall r' e', r' = <[e := r]> (revisions s) ->
    default 0 (revisions s !! e') <= default 0 (r' !! e')) as Hv.
  { intros r' e' ->. destruct (decide (e' = e)) as [->|Ne]; [by rewrite lookup_insert_eq|].
    by rewrite lookup_insert_ne. }
  destruct Hs as [(_ & _ & _ & ->)|(_ & ->)]; (split; [|intros e'; by apply Hv]); simpl; [done|].
  intros e' He'. destruct (decide (e' = e)) as [->|Ne]; [by rewrite lookup_insert_eq|].
  by rewrite lookup_insert_ne.
Qed.

(** The identity policy is sound in every reachable state: no endpoint is
    both approved and revoked, no node is bound to two endpoints, every
    binding has a revision and their number is bounded.  A revoked endpoint
    is refused on every protocol, after any further updates too, and no
    update lowers a revision. *)
Theorem identity_policy_sound s s' :
  policy_reachable s -> rtc update_step s s' ->
  wf_policy s' /\ policy_advances s s'
  /\ forall e alpn, is_Some (revoked s !! e) -> permits s' e alpn = false.
Proof.
  intros Hr Hrun. assert (policy_reachable s' /\ policy_advances s s') as [Hr' Adv].
  { induction Hrun as [|s1 s2 s3 (e & n & st & r & ->) _ IH]; [done|].
    destruct IH as [IH1 IH2]; [by apply reach_update|]. split; [done|].
    etransitivity; [apply policy_update_advances|exact IH2]. }
  split; [by apply policy_reachable_wf|]. split; [done|]. intros e alpn He.
  unfold permits. rewrite (bool_decide_true (is_Some _)) by (by apply Adv). by rewrite orb_true_r.
Qed.

Definition sample_policy : IdentityState :=
  snd (replace_snapshot default_policy
    [(be 32 1, be 16 1, Active, 1); (be 32 2, be 16 2, Revoked, 3)]).

Lemma identity_policy_sound_witness :
  permits (snd (policy_update sample_policy (be 32 2) (be 16 2) Active 4)) (be 32 2) AGENT_ALPN = false.
Proof.
  apply (identity_policy_sound sample_policy
    (snd (policy_update sample_policy (be 32 2) (be 16 2) Active 4))).
  - apply reach_snapshot, reach_default.
  - apply rtc_once. by eexists _, _, _, _.
  - vm_compute. by eexists.
Defined.

(** * Rates *)

(** The accepted attempts of a run of [record_global_attempt]. *)
Fixpoint run_attempts (attempts : list Z) (limit : Z) (times : list Z) : list Z :=
  match times with
  | [] => []
  | now :: rest =>
      match record_global_attempt attempts now limit with
      | (Ok _, attempts) => now :: run_attempts attempts limit rest
      | (Err _, attempts) => run_attempts attempts limit rest
      end
  end.

Definition in_window (from : Z) (t : Z) : Prop := from < t <= from + NANOS_PER_MINUTE.

#[export] Instance in_window_dec from t : Decision (in_window from t).
Proof. unfold in_window. apply _. Defined.

Lemma filter_keep {A} (P : A -> Prop) `{forall x, Decision (P x)} l : Forall P l -> filter P l = l.
Proof. induction 1 as [|x l Hx _ IH]; [done|]. rewrite filter_cons_True by done. by rewrite IH. Qed.

Lemma filter_nothing {A} (P : A -> Prop) `{forall x, Decision (P x)} l :
  Forall (fun x => ~ P x) l -> filter P l = [].
Proof. induction 1 as [|x l Hx _ IH]; [done|]. by rewrite filter_cons_False. Qed.

Lemma StronglySorted_filter (P : Z -> Prop) `{forall x, Decision (P x)} l :
  StronglySorted Z.le l -> StronglySorted Z.le (filter P l).
Proof.
  induction 1 as [|x l _ IH F]; [constructor|]. rewrite filter_cons. case_decide; [|done].
  constructor; [done|]. rewrite Forall_forall in *. intros y [_ Hy]%list_elem_of_filter. auto.
Qed.

Lemma len_filter_le {A} (P : A -> Prop) `{forall x, Decision (P x)} l : len (filter P l) <= len l.
Proof. unfold len. pose proof (length_filter P l). lia. Qed.

(** On an ordered window, dropping from the front drops exactly what is a
    minute old. *)
Lemma drop_expired_filter now l :
  StronglySorted Z.le l -> Forall (fun t => t <= now) l ->
  drop_expired now l = filter (fun t => now - NANOS_PER_MINUTE < t) l.
Proof.
  induction 1 as [|t l Hs IH Ht]; intros F; [done|]. apply Forall_cons in F as [Hn F].
  simpl. unfold duration_since. rewrite filter_cons.
  destruct (Z.geb_spec (Z.max 0 (now - t)) NANOS_PER_MINUTE); case_decide;
    unfold NANOS_PER_MINUTE in *; try lia; [auto|]. f_equal. symmetry.
  apply filter_keep. eapply Forall_impl; [exact Ht|]. simpl. lia.
Qed.

Lemma run_attempts_times limit times attempts t :
  t ∈ run_attempts attempts limit times -> t ∈ times.
Proof.
  revert attempts. induction times as [|now times IH]; intros attempts; simpl; [done|].
  destruct (record_global_attempt attempts now limit) as [[u|e] attempts']; rewrite ?elem_of_cons;
    [intros [->|?]|intros ?]; eauto.
Qed.

Lemma run_attempts_window limit times attempts from :
  StronglySorted Z.le (attempts ++ times) -> len attempts <= limit ->
  len (filter (in_window from) (attempts ++ run_attempts attempts limit times)) <= limit.
Proof.
  revert attempts. induction times as [|now times IH]; intros attempts Hs Hl.
  { simpl. rewrite app_nil_r. pose proof (len_filter_le (in_window from) attempts). lia. }
  pose proof (StronglySorted_app_1_l _ _ _ Hs) as Hsa.
  assert (StronglySorted Z.le (now :: times)) as Hst by (by eapply StronglySorted_app_1_r).
  apply StronglySorted_inv in Hst as [Hst Hge]. rewrite Forall_forall in Hge.
  assert (forall t, t ∈ attempts -> t <= now) as Hle.
  { intros t Ht. eapply StronglySorted_app_1_elem_of; [exact Hs|done|apply elem_of_cons; by left]. }
  simpl. unfold record_global_attempt.
  rewrite drop_expired_filter by (try done; by rewrite Forall_forall).
  set (kept := filter (fun t => now - NANOS_PER_MINUTE < t) attempts).
  destruct (Z.lt_ge_cases from (now - NANOS_PER_MINUTE)) as [Hf|Hf].
  - match goal with |- context [attempts ++ ?r] => set (rest := r) end.
    rewrite filter_app, (filter_nothing (in_window from) rest), app_nil_r.
    { pose proof (len_filter_le (in_window from) attempts). lia. }
    apply Forall_forall. intros t Ht. assert (now <= t) as Hn.
    { unfold rest in Ht. destruct (len kept >=? limit); rewrite ?elem_of_cons in Ht.
      - apply run_attempts_times in Ht. auto.
      - destruct Ht as [->|Ht]; [lia|]. apply run_attempts_times in Ht. auto. }
    unfold in_window. lia.
  - assert (filter (in_window from) attempts = filter (in_window from) kept) as Ek.
    { unfold kept. rewrite list_filter_filter_l; [done|]. unfold in_window. lia. }
    assert (forall t, t ∈ kept -> t <= now) as Hlk.
    { intros t [_ Ht]%list_elem_of_filter. auto. }
    assert (StronglySorted Z.le kept) as Hsk by (by apply StronglySorted_filter).
    destruct (Z.geb_spec (len kept) limit) as [Hfull|Hroom].
    + rewrite filter_app, Ek, <- filter_app. apply IH.
      { apply StronglySorted_app. split; [|done]. intros t u Ht Hu. specialize (Hge _ Hu). apply Hlk in Ht. lia. }
      pose proof (len_filter_le (fun t => now - NANOS_PER_MINUTE < t) attempts). unfold kept. lia.
    + rewrite filter_app, Ek, <- filter_app.
      replace (kept ++ now :: run_attempts (kept ++ [now]) limit times)
        with ((kept ++ [now]) ++ run_attempts (kept ++ [now]) limit times) by (by rewrite <- app_assoc).
      apply IH; [|unfold len in *; rewrite length_app; simpl; lia]. rewrite <- app_assoc. simpl.
      apply StronglySorted_app. split; [|split; [done|by constructor; [|rewrite Forall_forall]]].
      intros t u Ht [->|Hu]%elem_of_cons; [auto|]. specialize (Hge _ Hu). apply Hlk in Ht. lia.
Qed.

(** No trust class exceeds its rate: whatever attempts arrive, in any
    period of a minute at most the configured number is accepted. *)
Theorem trust_rate_bounded limit times from :
  StronglySorted Z.le times -> 0 <= limit ->
  len (filter (in_window from) (run_attempts [] limit times)) <= limit.
Proof. intros Hs Hl. apply (run_attempts_window limit times [] from); [done|]. by unfold len. Qed.

Lemma trust_rate_bounded_witness :
  len (filter (in_window 0) (run_attempts [] 2 [1; 2; 3; 60000000001; 60000000002])) <= 2.
Proof.
  apply trust_rate_bounded; [|done]. repeat constructor; lia.
Defined.

(** * Concurrency *)

Inductive budget_config : TrustBudgetConfig -> Prop :=
| config_default : budget_config TrustBudgetConfig_default
| config_with_limit self class limit next :
    budget_config self -> with_limit self class limit = Ok next -> budget_config next.

Definition limit_safe (l : TrustClassLimit) : Prop :=
  1 <= attempts_per_minute l <= 10000 /\ 1 <= concurrency l <= 512.

Lemma index_lt c : (index c < TrustClass_COUNT)%nat.
Proof. unfold TrustClass_COUNT. destruct c; simpl; lia. Qed.

#[export] Instance index_inj : Inj (=) (=) index.
Proof. by intros [] []. Qed.

Lemma budget_config_safe cfg :
  budget_config cfg -> length (limits cfg) = TrustClass_COUNT /\ Forall limit_safe (limits cfg).
Proof.
  induction 1 as [|self class limit next _ [IH1 IH2] E].
  - split; [done|]. repeat constructor; simpl; lia.
  - unfold with_limit in E. destruct (_ || _)%bool eqn:G; [done|]. injection E as <-. simpl.
    rewrite length_insert. split; [done|]. apply Forall_insert; [done|]. unfold limit_safe. lia.
Qed.

(** The budgets together with the tasks that hold permits: those waiting for
    the lock of the window, and those whose check is in flight. *)
Record TrustWorld := mkTrustWorld {
  tw_set : TrustBudgetSet; tw_waiting : TrustClass -> Z; tw_held : TrustClass -> Z }.

Definition bump (f : TrustClass -> Z) (c : TrustClass) (n : Z) : TrustClass -> Z :=
  fun c' => if decide (c' = c) then f c' + n else f c'.

Inductive trust_step : TrustWorld -> TrustWorld -> Prop :=
| step_try w c set_ : try_acquire (tw_set w) c = (Ok tt, set_) ->
    trust_step w (mkTrustWorld set_ (bump (tw_waiting w) c 1) (tw_held w))
| step_full w c e set_ : try_acquire (tw_set w) c = (Err e, set_) ->
    trust_step w (mkTrustWorld set_ (tw_waiting w) (tw_held w))
| step_charged w c now set_ : 0 < tw_waiting w c -> charge_attempt (tw_set w) c now = (Ok tt, set_) ->
    trust_step w (mkTrustWorld set_ (bump (tw_waiting w) c (-1)) (bump (tw_held w) c 1))
| step_limited w c now e set_ :
    0 < tw_waiting w c -> charge_attempt (tw_set w) c now = (Err e, set_) ->
    trust_step w (mkTrustWorld set_ (bump (tw_waiting w) c (-1)) (tw_held w))
| step_flight w c : 0 < tw_waiting w c ->
    trust_step w (mkTrustWorld (start_flight (tw_set w) c) (bump (tw_waiting w) c (-1))
                    (bump (tw_held w) c 1))
| step_drop w c : 0 < tw_held w c ->
    trust_step w (mkTrustWorld (drop_permit (tw_set w) c) (tw_waiting w) (bump (tw_held w) c (-1))).

Definition trust_initial (cfg : TrustBudgetConfig) : TrustWorld :=
  mkTrustWorld (TrustBudgetSet_new cfg) (fun _ => 0) (fun _ => 0).

(** One class of the world. *)
Record class_ok (cfg : TrustBudgetConfig) (b : TrustClassBudget) (c : TrustClass)
    (waiting held : Z) : Prop := {
  ck_limit : tb_limit b = limits cfg !!! index c;
  ck_permits : tb_checks b + waiting + held = concurrency (tb_limit b);
  ck_checks : 0 <= tb_checks b; ck_waiting : 0 <= waiting; ck_held : 0 <= held;
  ck_flight : tb_in_flight b = held;
  ck_window : len (tb_attempts b) <= attempts_per_minute (tb_limit b);
  ck_safe : limit_safe (tb_limit b) }.

Definition world_ok (cfg : TrustBudgetConfig) (w : TrustWorld) : Prop :=
  length (tw_set w) = TrustClass_COUNT
  /\ forall c, class_ok cfg (tw_set w !!! index c) c (tw_waiting w c) (tw_held w c).

Lemma bump_at f c n : bump f c n c = f c + n.
Proof. unfold bump. by rewrite decide_True. Qed.
Lemma bump_other f c c' n : c' <> c -> bump f c n c' = f c'.
Proof. intros. unfold bump. by rewrite decide_False. Qed.

(** Replacing the budget of one class keeps the world when it keeps that
    class and the counts of the others. *)
Lemma world_ok_update cfg w c b waiting held :
  world_ok cfg w ->
  (forall c', c' <> c -> waiting c' = tw_waiting w c' /\ held c' = tw_held w c') ->
  class_ok cfg b c (waiting c) (held c) ->
  world_ok cfg (mkTrustWorld (<[index c := b]> (tw_set w)) waiting held).
Proof.
  intros [Hl Hw] Hother Hb. split; simpl; [by rewrite length_insert|]. intros c'.
  destruct (decide (c' = c)) as [->|Ne].
  - rewrite list_lookup_total_insert_eq; [done|]. rewrite Hl. apply index_lt.
  - rewrite list_lookup_total_insert_ne by (intros E; apply Ne; by apply (inj index)).
    destruct (Hother c' Ne) as [-> ->]. apply Hw.
Qed.

Lemma initial_ok cfg : budget_config cfg -> world_ok cfg (trust_initial cfg).
Proof.
  intros [Hl Hs]%budget_config_safe. split; [done|]. intros c. simpl.
  assert (limit_safe (limits cfg !!! index c)) as S.
  { rewrite Forall_forall in Hs. apply Hs, list_elem_of_lookup_total_2. rewrite Hl. apply index_lt. }
  assert (TrustBudgetSet_new cfg !!! index c
          = mkTrustClassBudget [] (concurrency (limits cfg !!! index c)) 0 0 0 0
              (limits cfg !!! index c)) as -> by (by destruct c).
  unfold limit_safe in S. split; simpl; unfold len; simpl; try lia; done.
Qed.

Lemma try_acquire_ok cfg w c r set_ :
  world_ok cfg w -> try_acquire (tw_set w) c = (r, set_) ->
  world_ok cfg (mkTrustWorld set_
    (if is_ok r then bump (tw_waiting w) c 1 else tw_waiting w) (tw_held w)).
Proof.
  intros W E. pose proof (proj2 W c) as [L P C Wt H F A S]. unfold try_acquire in E.
  destruct (Z.leb_spec (tb_checks (tw_set w !!! index c)) 0); injection E as <- <-;
    simpl; apply world_ok_update; try done.
  - intros c' Ne. by rewrite bump_other.
  - rewrite bump_at. split; simpl; try done; lia.
Qed.

Lemma record_global_attempt_len attempts now limit r attempts' :
  0 <= limit -> len attempts <= limit ->
  record_global_attempt attempts now limit = (r, attempts') -> len attempts' <= limit.
Proof.
  intros Hl Ha. unfold record_global_attempt.
  assert (forall l, len (drop_expired now l) <= len l) as Hd.
  { induction l as [|t l IH]; simpl; [lia|]. destruct (_ >=? _); unfold len in *; simpl; lia. }
  specialize (Hd attempts).
  destruct (Z.geb_spec (len (drop_expired now attempts)) limit) as [G|G]; intros [= <- <-].
  - lia.
  - unfold len in *. rewrite length_app. simpl. lia.
Qed.

Lemma charge_attempt_ok cfg w c now r set_ :
  world_ok cfg w -> 0 < tw_waiting w c -> charge_attempt (tw_set w) c now = (r, set_) ->
  world_ok cfg (mkTrustWorld set_ (bump (tw_waiting w) c (-1))
    (if is_ok r then bump (tw_held w) c 1 else tw_held w)).
Proof.
  intros W Hc E. pose proof (proj2 W c) as [L P C Wt H F A S]. unfold charge_attempt in E.
  destruct (record_global_attempt _ now _) as [r' l'] eqn:Er.
  apply record_global_attempt_len in Er; [|unfold limit_safe in S; lia|done].
  destruct r' as [u|e]; injection E as <- <-; simpl; apply world_ok_update; try done;
    try (intros c' Ne; by rewrite !bump_other).
  - rewrite !bump_at. split; simpl; try done; try lia.
    unfold u64_wrapping. rewrite Z.mod_small; unfold limit_safe in S; lia.
  - rewrite bump_at. split; simpl; try done; lia.
Qed.

Lemma trust_step_ok cfg w w' : trust_step w w' -> world_ok cfg w -> world_ok cfg w'.
Proof.
  intros Hst W. destruct Hst as [w c set_ E|w c e set_ E|w c now set_ Hc E|w c now e set_ Hc E|w c Hc|w c Hc].
  - exact (try_acquire_ok _ _ _ _ _ W E).
  - exact (try_acquire_ok _ _ _ _ _ W E).
  - exact (charge_attempt_ok _ _ _ _ _ _ W Hc E).
  - exact (charge_attempt_ok _ _ _ _ _ _ W Hc E).
  - pose proof (proj2 W c) as [L P C Wt H F A S]. unfold start_flight.
    apply world_ok_update; [done|intros c' Ne; by rewrite !bump_other|]. rewrite !bump_at.
    split; simpl; try done; try lia. unfold u64_wrapping. rewrite Z.mod_small; unfold limit_safe in S; lia.
  - pose proof (proj2 W c) as [L P C Wt H F A S]. unfold drop_permit.
    apply world_ok_update; [done|intros c' Ne; by rewrite !bump_other|]. rewrite !bump_at.
    split; simpl; try done; try lia. unfold u64_wrapping. rewrite Z.mod_small; unfold limit_safe in S; lia.
Qed.

(** Trust classes are isolated: in every interleaving of acquisitions,
    refusals and releases, a class holds at most its own number of permits,
    its metric counts exactly the checks in flight, and a permit is refused
    exactly when the class itself is exhausted, whatever load the other
    classes carry. *)
Theorem trust_classes_isolated cfg w c :
  budget_config cfg -> rtc trust_step (trust_initial cfg) w ->
  let b := tw_set w !!! index c in
  let limit := limits cfg !!! index c in
  0 <= tw_waiting w c + tw_held w c <= concurrency limit
  /\ tb_in_flight b = tw_held w c
  /\ len (tb_attempts b) <= attempts_per_minute limit
  /\ (is_ok (fst (try_acquire (tw_set w) c)) = true <->
      tw_waiting w c + tw_held w c < concurrency limit).
Proof.
  intros Hc Hrun. assert (world_ok cfg w) as W.
  { apply initial_ok in Hc. revert Hc. induction Hrun as [|w1 w2 w3 Hst _ IH]; [done|].
    intros W. apply IH. by eapply trust_step_ok. }
  pose proof (proj2 W c) as [L P C Wt H F A S]. cbv zeta. rewrite <- L.
  split; [lia|]. split; [done|]. split; [done|]. unfold try_acquire.
  destruct (Z.leb_spec (tb_checks (tw_set w !!! index c)) 0); simpl; split; try done; lia.
Qed.

Lemma trust_classes_isolated_witness :
  is_ok (fst (try_acquire (TrustBudgetSet_new TrustBudgetConfig_default) EnrollmentCompletion)) = true.
Proof.
  apply (trust_classes_isolated TrustBudgetConfig_default (trust_initial TrustBudgetConfig_default)
    EnrollmentCompletion config_default (rtc_refl _ _)). by vm_compute.
Defined.
