(* ===== verification/Transport.v ===== *)
(** The shared state of the transport daemon, the rest of
    [rust/crates/transportd/src/lib.rs] that this development covers: the
    session registry, the owner fences, the retained events, the telemetry
    budgets, and the handlers that change them.

    The asynchronous handlers run their lock-held segments atomically and may
    interleave between them; each segment is a function on [Shared], and a
    handler that reads the state twice takes both states.  Clock readings are
    arguments.  Event identities and trace identifiers, random in the source,
    come from the class [Entropy]; the iroh connection is a handle with its
    stable identity and remote endpoint, and closing it is recorded. *)

From stdpp Require Import base list gmap numbers countable strings.
From Stdlib Require Import ZArith Lia Bool Strings.Byte.
From S2P Require Import Prelude Bytes Text Contracts Authorization CommandAuthorization Trust.

Local Open Scope Z_scope.

Definition TELEMETRY_BURST_EVENTS : Z := 40.
Definition TELEMETRY_REFILL_EVENTS_PER_SECOND : Z := 2.
Definition TELEMETRY_BURST_BYTES : Z := 32 * 512 * 1024.
Definition TELEMETRY_REFILL_BYTES_PER_MILLI : Z := 1024.
Definition SECURITY_TELEMETRY_FRAME_MILLIS : Z := 60000.
Definition SECURITY_TELEMETRY_BURST_MILLIS : Z := 4 * SECURITY_TELEMETRY_FRAME_MILLIS.
Definition MAX_RETAINED_TELEMETRY_BYTES : Z := 32 * 1024 * 1024.

(** * gRPC status *)

Inductive StatusCode :=
| PermissionDenied | FailedPrecondition | InvalidArgument | Unavailable | NotFound
| ResourceExhausted | OutOfRange | Internal.

Record Status := mkStatus { status_code : StatusCode; status_message : bytes }.

Definition permission_denied (m : String.string) : Status := mkStatus PermissionDenied (str m).
Definition failed_precondition (m : String.string) : Status := mkStatus FailedPrecondition (str m).
Definition invalid_argument (m : String.string) : Status := mkStatus InvalidArgument (str m).
Definition unavailable (m : String.string) : Status := mkStatus Unavailable (str m).
Definition not_found (m : String.string) : Status := mkStatus NotFound (str m).
Definition resource_exhausted (m : String.string) : Status := mkStatus ResourceExhausted (str m).

(** [unix_now_parts] and [SystemTime::now], as seconds and nanoseconds. *)
Record Clock := mkClock { now_seconds : Z; now_nanos : Z }.

Definition system_time (c : Clock) : Z := now_seconds c * NANOS_PER_SECOND + now_nanos c.

Definition lease_expired_at (now : Clock) (lease_until_seconds lease_until_nanos : Z) : bool :=
  pair_leb lease_until_seconds lease_until_nanos (now_seconds now) (now_nanos now).

Definition fixed16 (value : bytes) : result Status bytes :=
  if bool_decide (length value = 16%nat) then Ok value
  else Err (invalid_argument "identifier must be 16 bytes").

Definition fixed32 (value : bytes) : result Status bytes :=
  if bool_decide (length value = 32%nat) then Ok value
  else Err (invalid_argument "identifier must be 32 bytes").

(** * Events *)

Inductive TransportEventType :=
| EventUnspecified | Connected | Disconnected | EventCommandResult | Heartbeat | EventError
| PathChanged | Telemetry | SimulationResult.

Definition TransportEventType_value (t : TransportEventType) : Z :=
  match t with
  | EventUnspecified => 0 | Connected => 1 | Disconnected => 2 | EventCommandResult => 3
  | Heartbeat => 4 | EventError => 5 | PathChanged => 6 | Telemetry => 7 | SimulationResult => 8
  end.

Record TransportEvent := mkTransportEvent {
  ev_event_id : bytes; ev_node_id : bytes; ev_type : Z; ev_occurred_at : option Timestamp;
  ev_payload : bytes; ev_traceparent : bytes; ev_endpoint_id : bytes; ev_connection_id : bytes;
  ev_owner_epoch : Z }.

Definition is_telemetry (event : TransportEvent) : bool :=
  ev_type event =? TransportEventType_value Telemetry.

(** A subscriber's channel: the events in its queue, its free capacity, and
    whether the receiver is gone. *)
Record Subscriber := mkSubscriber { sub_queue : list TransportEvent; sub_capacity : Z; sub_closed : bool }.

Record EventState := mkEventState {
  retained : list TransportEvent; subscribers : list Subscriber; telemetry_retained : Z;
  telemetry_retained_bytes : Z }.

(** [VecDeque::remove] of the first telemetry event. *)
Fixpoint remove_first_telemetry (l : list TransportEvent) : option (TransportEvent * list TransportEvent) :=
  match l with
  | [] => None
  | e :: rest =>
      if is_telemetry e then Some (e, rest)
      else match remove_first_telemetry rest with
           | Some (evicted, rest') => Some (evicted, e :: rest')
           | None => None
           end
  end.

Definition forget_telemetry (s : EventState) (evicted : TransportEvent) (l : list TransportEvent)
    : EventState :=
  mkEventState l (subscribers s) (telemetry_retained s - 1)
    (telemetry_retained_bytes s - len (ev_payload evicted)).

Definition evict_oldest_telemetry (s : EventState) : bool * EventState :=
  match remove_first_telemetry (retained s) with
  | None => (false, s)
  | Some (evicted, rest) => (true, forget_telemetry s evicted rest)
  end.

Definition pop_oldest (s : EventState) : EventState :=
  match retained s with
  | [] => s
  | evicted :: rest =>
      if is_telemetry evicted then forget_telemetry s evicted rest
      else mkEventState rest (subscribers s) (telemetry_retained s) (telemetry_retained_bytes s)
  end.

(** The loop that makes room for a telemetry payload; every turn but the last
    removes an event, so that one turn more than there are events is
    enough. *)
Fixpoint make_room (fuel : nat) (capacity bytes_ : Z) (s : EventState) : EventState :=
  match fuel with
  | O => s
  | S fuel' =>
      if (telemetry_retained s >=? Z.max (capacity / 2) 1)
         || (telemetry_retained_bytes s + bytes_ >? MAX_RETAINED_TELEMETRY_BYTES)
      then
        let '(evicted, s') := evict_oldest_telemetry s in
        if evicted then make_room fuel' capacity bytes_ s' else s'
      else s
  end.

(** Whether the event is retained, and the queue with its place freed. *)
Definition retain_slot (capacity : Z) (event : TransportEvent) (s : EventState) : bool * EventState :=
  if is_telemetry event then
    let s := make_room (S (length (retained s))) capacity (len (ev_payload event)) s in
    if len (retained s) <? capacity then (true, s) else evict_oldest_telemetry s
  else if len (retained s) =? capacity then
    let '(evicted, s') := evict_oldest_telemetry s in
    (true, if evicted then s' else pop_oldest s')
  else (true, s).

Definition push_retained (event : TransportEvent) (s : EventState) : EventState :=
  if is_telemetry event
  then mkEventState (retained s ++ [event]) (subscribers s) (telemetry_retained s + 1)
         (telemetry_retained_bytes s + len (ev_payload event))
  else mkEventState (retained s ++ [event]) (subscribers s) (telemetry_retained s)
         (telemetry_retained_bytes s).

(** [subscribers.retain(..)]: routine telemetry skips a subscriber whose free
    capacity is at or below the reserve; a full or closed channel is
    dropped. *)
Definition deliver_to (event : TransportEvent) (routine_telemetry : bool) (reserve : Z)
    (sender : Subscriber) : option Subscriber :=
  if routine_telemetry && (sub_capacity sender <=? reserve)
  then if sub_closed sender then None else Some sender
  else if sub_closed sender || (sub_capacity sender <=? 0) then None
  else Some (mkSubscriber (sub_queue sender ++ [event]) (sub_capacity sender - 1) false).

Definition publish_event (shutdown : bool) (capacity : Z) (event : TransportEvent)
    (routine_telemetry : bool) (s : EventState) : EventState :=
  if shutdown then s
  else
  let '(retainable, s) := retain_slot capacity event s in
  let s := if retainable then push_retained event s else s in
  mkEventState (retained s)
    (omap (deliver_to event routine_telemetry (capacity / 2)) (subscribers s))
    (telemetry_retained s) (telemetry_retained_bytes s).

(** [watch_events]: the backlog after a cursor. *)
Fixpoint after_cursor (cursor : bytes) (l : list TransportEvent) : list TransportEvent :=
  match l with
  | [] => []
  | e :: rest => if bool_decide (ev_event_id e = cursor) then rest else after_cursor cursor rest
  end.

(** * Telemetry budgets *)

Record TelemetryBudget := mkTelemetryBudget {
  milli_events : Z; budget_bytes : Z; security_millis : Z; updated : Z }.

Definition u64_saturating_add (a b : Z) : Z := Z.min u64_max (a + b).
Definition u64_saturating_mul (a b : Z) : Z := Z.min u64_max (a * b).

(** Milliseconds between two instants, as a [u64]. *)
Definition elapsed_millis (now updated_ : Z) : Z :=
  Z.min u64_max (duration_since now updated_ / 1000000).

Definition fresh_budget (now : Z) : TelemetryBudget :=
  mkTelemetryBudget (TELEMETRY_BURST_EVENTS * 1000) TELEMETRY_BURST_BYTES
    SECURITY_TELEMETRY_BURST_MILLIS now.

Definition refill (b : TelemetryBudget) (now : Z) : TelemetryBudget :=
  let elapsed := elapsed_millis now (updated b) in
  mkTelemetryBudget
    (Z.min (u64_saturating_add (milli_events b)
              (u64_saturating_mul elapsed TELEMETRY_REFILL_EVENTS_PER_SECOND))
       (TELEMETRY_BURST_EVENTS * 1000))
    (Z.min (u64_saturating_add (budget_bytes b)
              (u64_saturating_mul elapsed TELEMETRY_REFILL_BYTES_PER_MILLI))
       TELEMETRY_BURST_BYTES)
    (Z.min (u64_saturating_add (security_millis b) elapsed) SECURITY_TELEMETRY_BURST_MILLIS)
    now.

Definition admit_telemetry (budgets_ : gmap bytes TelemetryBudget) (node_id : bytes) (bytes_ now : Z)
    : bool * gmap bytes TelemetryBudget :=
  let budgets_ :=
    if Z.of_nat (size budgets_) >=? MAX_CONNECTIONS
    then filter (fun kv => duration_since now (updated (snd kv)) < NANOS_PER_MINUTE) budgets_
    else budgets_ in
  let b := refill (default (fresh_budget now) (budgets_ !! node_id)) now in
  if (milli_events b <? 1000) || (budget_bytes b <? bytes_)
  then (false, <[node_id := b]> budgets_)
  else (true, <[node_id := mkTelemetryBudget (milli_events b - 1000) (budget_bytes b - bytes_)
                   (security_millis b) (updated b)]> budgets_).

Definition claim_security_priority (budgets_ : gmap bytes TelemetryBudget) (node_id : bytes)
    : bool * gmap bytes TelemetryBudget :=
  match budgets_ !! node_id with
  | None => (false, budgets_)
  | Some b =>
      if security_millis b <? SECURITY_TELEMETRY_FRAME_MILLIS then (false, budgets_)
      else (true, <[node_id := mkTelemetryBudget (milli_events b) (budget_bytes b)
                       (security_millis b - SECURITY_TELEMETRY_FRAME_MILLIS) (updated b)]> budgets_)
  end.

(** * Sessions and fences *)

Record Connection := mkConnection { stable_id : Z; remote_id : bytes }.

Record NodeConnection := mkNodeConnection {
  nc_node_id : bytes; nc_endpoint_id : bytes; nc_path : Z; nc_round_trip_time_millis : Z;
  nc_connected_at : option Timestamp; nc_agent_instance_id : bytes; nc_path_detail : bytes;
  nc_last_seen : option Timestamp; nc_negotiated_capabilities : list bytes;
  nc_authorization_revision : Z; nc_session_expires_at : option Timestamp; nc_owner_epoch : Z }.

Inductive TransportSessionMode := ReadOnly | AuthorizedV11.

#[export] Instance TransportSessionMode_eq_dec : EqDecision TransportSessionMode.
Proof. solve_decision. Defined.

Record RegisteredFence := mkRegisteredFence {
  rf_verified : VerifiedConnectionFenceV2; rf_fence : ConnectionFenceV2; rf_endpoint_id : bytes }.

Record RegisteredConnection := mkRegisteredConnection {
  rc_metadata : NodeConnection; rc_connection : Connection; rc_max_message_size : Z;
  rc_negotiated_capabilities : gset bytes; rc_session_mode : TransportSessionMode;
  rc_authorization_revision : Z; rc_session_expires_at : option Z; rc_fence : option RegisteredFence }.

(** What the transport draws from its libraries: event identities and trace
    identifiers (with the time of the event), the version of a UUID, and which
    32-byte strings are endpoint identities. *)
Record Stamp := mkStamp { st_event_id : bytes; st_traceparent : bytes; st_occurred_at : Timestamp }.

Class Entropy := {
  stamp : nat -> Stamp;
  uuid_version_num : bytes -> Z;
  endpoint_valid : bytes -> bool }.

Inductive FenceRegistration := FenceApply | FenceRefresh | FenceStale | EpochCollision.

Definition fence_registration_decision (existing : option RegisteredFence) (incoming : RegisteredFence)
    : FenceRegistration :=
  match existing with
  | Some existing =>
      if vcf_owner_epoch (rf_verified existing) >? vcf_owner_epoch (rf_verified incoming)
      then FenceStale
      else if (vcf_owner_epoch (rf_verified existing) =? vcf_owner_epoch (rf_verified incoming))
              && bool_decide (vcf_fence_id (rf_verified existing) <> vcf_fence_id (rf_verified incoming))
      then EpochCollision
      else if bool_decide (vcf_fence_id (rf_verified existing) = vcf_fence_id (rf_verified incoming))
      then FenceRefresh
      else FenceApply
  | None => FenceApply
  end.

Definition same_fence_term (left right : VerifiedConnectionFenceV2) : bool :=
  bool_decide (vcf_fence_id left = vcf_fence_id right)
  && bool_decide (vcf_owner_instance_id left = vcf_owner_instance_id right)
  && (vcf_owner_incarnation left =? vcf_owner_incarnation right)
  && (vcf_owner_epoch left =? vcf_owner_epoch right)
  && bool_decide (vcf_connection_id left = vcf_connection_id right)
  && (vcf_authorization_revision left =? vcf_authorization_revision right).

(** [kind as u32] *)
Definition is_none {A} (o : option A) : bool := match o with None => true | Some _ => false end.

Section Service.
Context `{Crypto} `{Entropy}.

(** [Shared], [Inner] and the identity policy of the service.  A registration
    token is a number; [sh_live] holds the tokens some task still owns, and
    [sh_closed] the connections closed, with code and reason. *)
Record Shared := mkShared {
  sh_connections : gmap bytes RegisteredConnection;
  sh_tokens : gmap bytes nat; sh_live : gset nat; sh_next_token : nat;
  sh_fences : gmap bytes RegisteredFence;
  sh_keyring : option ControllerCommandKeyring; sh_require_fencing : bool;
  sh_events : EventState; sh_budgets : gmap bytes TelemetryBudget; sh_capacity : Z;
  sh_shutdown : bool; sh_policy : IdentityState;
  sh_closed : list (Connection * Z * bytes); sh_stamps : nat }.

Definition set_connections (m : gmap bytes RegisteredConnection) (s : Shared) : Shared :=
  mkShared m (sh_tokens s) (sh_live s) (sh_next_token s) (sh_fences s) (sh_keyring s)
    (sh_require_fencing s) (sh_events s) (sh_budgets s) (sh_capacity s) (sh_shutdown s)
    (sh_policy s) (sh_closed s) (sh_stamps s).
Definition set_tokens (m : gmap bytes nat) (live : gset nat) (next : nat) (s : Shared) : Shared :=
  mkShared (sh_connections s) m live next (sh_fences s) (sh_keyring s) (sh_require_fencing s)
    (sh_events s) (sh_budgets s) (sh_capacity s) (sh_shutdown s) (sh_policy s) (sh_closed s)
    (sh_stamps s).
Definition set_fences (m : gmap bytes RegisteredFence) (s : Shared) : Shared :=
  mkShared (sh_connections s) (sh_tokens s) (sh_live s) (sh_next_token s) m (sh_keyring s)
    (sh_require_fencing s) (sh_events s) (sh_budgets s) (sh_capacity s) (sh_shutdown s)
    (sh_policy s) (sh_closed s) (sh_stamps s).
Definition put_events (e : EventState) (s : Shared) : Shared :=
  mkShared (sh_connections s) (sh_tokens s) (sh_live s) (sh_next_token s) (sh_fences s)
    (sh_keyring s) (sh_require_fencing s) e (sh_budgets s) (sh_capacity s) (sh_shutdown s)
    (sh_policy s) (sh_closed s) (sh_stamps s).
Definition next_stamp (s : Shared) : Shared :=
  mkShared (sh_connections s) (sh_tokens s) (sh_live s) (sh_next_token s) (sh_fences s)
    (sh_keyring s) (sh_require_fencing s) (sh_events s) (sh_budgets s) (sh_capacity s)
    (sh_shutdown s) (sh_policy s) (sh_closed s) (S (sh_stamps s)).
Definition set_budgets (m : gmap bytes TelemetryBudget) (s : Shared) : Shared :=
  mkShared (sh_connections s) (sh_tokens s) (sh_live s) (sh_next_token s) (sh_fences s)
    (sh_keyring s) (sh_require_fencing s) (sh_events s) m (sh_capacity s) (sh_shutdown s)
    (sh_policy s) (sh_closed s) (sh_stamps s).
Definition set_policy (p : IdentityState) (s : Shared) : Shared :=
  mkShared (sh_connections s) (sh_tokens s) (sh_live s) (sh_next_token s) (sh_fences s)
    (sh_keyring s) (sh_require_fencing s) (sh_events s) (sh_budgets s) (sh_capacity s)
    (sh_shutdown s) p (sh_closed s) (sh_stamps s).
Definition close (c : Connection) (code : Z) (reason : bytes) (s : Shared) : Shared :=
  mkShared (sh_connections s) (sh_tokens s) (sh_live s) (sh_next_token s) (sh_fences s)
    (sh_keyring s) (sh_require_fencing s) (sh_events s) (sh_budgets s) (sh_capacity s)
    (sh_shutdown s) (sh_policy s) (sh_closed s ++ [(c, code, reason)]) (sh_stamps s).

Definition validate_uuid (value : bytes) (name : String.string) : result Status bytes :=
  if negb (bool_decide (length value = 16%nat))
  then Err (mkStatus InvalidArgument (str name ++ str " must be a 16-byte UUID"))
  else if negb (uuid_version_num value =? 7)
  then Err (mkStatus InvalidArgument (str name ++ str " must be UUIDv7"))
  else Ok value.

(** [watch_events]: the backlog the new subscriber starts with. *)
Definition watch_events (after : bytes) (shared : Shared)
    : result Status (list TransportEvent) * Shared :=
  let checked := if is_empty after then Ok after else validate_uuid after "after_event_id" in
  let capacity := sh_capacity shared in
  match checked with
  | Err e => (Err e, shared)
  | Ok _ =>
  if sh_shutdown shared then (Err (unavailable "transport is shutting down"), shared)
  else
  let s := sh_events shared in
  let s := mkEventState (retained s) (filter (fun x => sub_closed x = false) (subscribers s))
    (telemetry_retained s) (telemetry_retained_bytes s) in
  let keep := put_events s shared in
  if negb (is_empty after) && negb (existsb (fun e => bool_decide (ev_event_id e = after)) (retained s))
  then (Err (mkStatus OutOfRange (str "event cursor is outside retention")), keep)
  else if len (subscribers s) =? capacity
  then (Err (resource_exhausted "event subscriber capacity reached"), keep)
  else
  let backlog := if is_empty after then retained s else after_cursor after (retained s) in
  if len backlog >? capacity
  then (Err (mkStatus Internal (str "retained event queue overflow")), keep)
  else
  (Ok backlog,
   put_events (mkEventState (retained s)
     (subscribers s ++ [mkSubscriber backlog (capacity - len backlog) false])
     (telemetry_retained s) (telemetry_retained_bytes s)) shared)
  end.

(** [event_with_term], with the next stamp. *)
Definition event_with_term (s : Shared) (node_id endpoint_id : bytes) (kind : TransportEventType)
    (payload : bytes) (fence : option RegisteredFence) : TransportEvent :=
  let st := stamp (sh_stamps s) in
  mkTransportEvent (st_event_id st) node_id (TransportEventType_value kind)
    (Some (st_occurred_at st)) payload (st_traceparent st) endpoint_id
    (match fence with Some f => vcf_connection_id (rf_verified f) | None => [] end)
    (match fence with Some f => vcf_owner_epoch (rf_verified f) | None => 0 end).

Definition publish_as (routine_telemetry : bool) (event : TransportEvent) (s : Shared) : Shared :=
  next_stamp (put_events (publish_event (sh_shutdown s) (sh_capacity s) event routine_telemetry
    (sh_events s)) s).

Definition publish : TransportEvent -> Shared -> Shared := publish_as false.

Definition publish_telemetry (event : TransportEvent) (security : bool) : Shared -> Shared :=
  publish_as (negb security) event.

(** [remove] takes two locks in turn: the tokens, then the registry. *)
Definition invalidate_token (node_id : bytes) (s : Shared) : Shared :=
  set_tokens (delete node_id (sh_tokens s)) (sh_live s) (sh_next_token s) s.

Definition take_session (node_id reason : bytes) (s : Shared) : option RegisteredConnection * Shared :=
  let registered := sh_connections s !! node_id in
  let s := set_connections (delete node_id (sh_connections s)) s in
  (registered,
   match registered with
   | Some r =>
       let s := close (rc_connection r) 260 reason s in
       publish (event_with_term s node_id (nc_endpoint_id (rc_metadata r)) Disconnected reason
                  (rc_fence r)) s
   | None => s
   end).

Definition remove (node_id reason : bytes) (s : Shared) : option RegisteredConnection * Shared :=
  take_session node_id reason (invalidate_token node_id s).

(** [registration_token]: the live token of the node, or a fresh one. *)
Definition registration_token (node_id : bytes) (s : Shared) : nat * Shared :=
  let tokens := filter (fun kv => snd kv ∈ sh_live s) (sh_tokens s) in
  match tokens !! node_id with
  | Some token => (token, set_tokens tokens (sh_live s) (sh_next_token s) s)
  | None =>
      (sh_next_token s,
       set_tokens (<[node_id := sh_next_token s]> tokens) (sh_live s) (S (sh_next_token s)) s)
  end.

(** A task takes the token and holds it until it is done. *)
Definition hold_token (node_id : bytes) (s : Shared) : nat * Shared :=
  let '(token, s) := registration_token node_id s in
  (token, set_tokens (sh_tokens s) ({[token]} ∪ sh_live s) (sh_next_token s) s).

Definition drop_token (token : nat) (s : Shared) : Shared :=
  set_tokens (sh_tokens s) (sh_live s ∖ {[token]}) (sh_next_token s) s.

Definition keyring (s : Shared) : result Status ControllerCommandKeyring :=
  ok_or (sh_keyring s) (permission_denied "controller fence verification keyring is unavailable").

Definition verify_operation_binding (s : Shared) (node_id : bytes) (endpoint_hint : option bytes)
    (session_fence : option RegisteredFence) (binding : option FenceBindingV2)
    (kind : FenceOperationKind) (operation_id : bytes) (now lease_now : Clock)
    : result Status (option RegisteredFence) :=
  let? node_id := fixed16 node_id in
  match sh_fences s !! node_id with
  | None =>
      if is_none binding && negb (sh_require_fencing s) then Ok None
      else Err (permission_denied "no owner fence is registered for this node")
  | Some registered =>
      let? binding := ok_or binding
        (permission_denied "an owner fence binding is required for this operation") in
      let? ring := keyring s in
      let endpoint := default (rf_endpoint_id registered) endpoint_hint in
      let? claims := map_err (fun _ => permission_denied "fence binding is invalid")
        (verify_fence_binding_v2_at ring binding node_id endpoint (now_seconds now) (now_nanos now)) in
      if negb (fbc_operation_kind claims =? FenceOperationKind_value kind)
         || bool_decide (fbc_operation_id claims <> operation_id)
      then Err (permission_denied "fence binding does not match the requested operation")
      else if negb (bool_decide (fbc_capability claims ∈ vcf_capabilities (rf_verified registered)))
      then Err (permission_denied "fence binding capability is not held by the registered owner")
      else if lease_expired_at lease_now (vcf_lease_until_seconds (rf_verified registered))
                (vcf_lease_until_nanos (rf_verified registered))
      then Err (failed_precondition "the registered owner lease has expired")
      else if negb (matches_fence claims (rf_verified registered))
      then Err (permission_denied "fence binding does not match the registered owner term")
      else
      match session_fence with
      | None =>
          if bool_decide (kind = OperationArtifact)
          then Err (permission_denied "artifact operation requires a fenced active agent session")
          else Ok (Some registered)
      | Some session_fence =>
          if bool_decide (rf_endpoint_id session_fence <> endpoint)
             || negb (same_fence_term (rf_verified session_fence) (rf_verified registered))
          then Err (permission_denied "operation fence does not match the active agent session")
          else Ok (Some registered)
      end
  end.

(** [retire_superseded_owner]: the decision, and the removal after it. *)
Definition superseded (node_id : bytes) (registered : RegisteredFence) (s : Shared) : bool :=
  match sh_connections s !! node_id with
  | Some entry =>
      bool_decide (rc_session_mode entry = AuthorizedV11)
      && match rc_fence entry with
         | None => true
         | Some fence =>
             bool_decide (vcf_fence_id (rf_verified fence) <> vcf_fence_id (rf_verified registered))
         end
  | None => false
  end.

Definition retire_superseded_owner (node_id : bytes) (registered : RegisteredFence) (s : Shared) : Shared :=
  if superseded node_id registered s then snd (remove node_id (str "owner fence superseded") s) else s.

Inductive OwnerFenceDisposition := OwnerApplied | OwnerRefreshed | OwnerStale.

#[export] Instance OwnerFenceDisposition_eq_dec : EqDecision OwnerFenceDisposition.
Proof. solve_decision. Defined.

(** The part of [register_owner_fence] before the registry is written. *)
Definition verify_owner_fence (s : Shared) (fence : option ConnectionFenceV2) (now lease_now : Clock)
    : result Status (bytes * RegisteredFence) :=
  let? fence := ok_or fence (invalid_argument "owner fence is required") in
  let? node_id := validate_uuid (cf_node_id fence) "node_id" in
  let? endpoint_id := fixed32 (cf_endpoint_id fence) in
  let? ring := keyring s in
  let? node_key := fixed16 node_id in
  let? verified := map_err (fun _ => permission_denied "owner fence is invalid")
    (verify_connection_fence_v2_at ring fence node_key endpoint_id (now_seconds now) (now_nanos now)) in
  if lease_expired_at lease_now (vcf_lease_until_seconds verified) (vcf_lease_until_nanos verified)
  then Err (failed_precondition "owner fence lease has expired")
  else if match sh_connections s !! node_id with
          | Some entry => bool_decide (nc_endpoint_id (rc_metadata entry) <> endpoint_id)
          | None => false
          end
  then Err (permission_denied "owner fence endpoint does not match the registered session")
  else Ok (node_id, mkRegisteredFence verified fence endpoint_id).

(** The segment under the lock of the fences: the disposition and the retained
    epoch. *)
Definition record_owner_fence (node_id : bytes) (registered : RegisteredFence) (s : Shared)
    : result Status (OwnerFenceDisposition * Z) * Shared :=
  match sh_fences s !! node_id with
  | Some existing =>
      if vcf_owner_epoch (rf_verified existing) >? vcf_owner_epoch (rf_verified registered)
      then (Ok (OwnerStale, vcf_owner_epoch (rf_verified existing)), s)
      else
      match fence_registration_decision (Some existing) registered with
      | FenceStale => (Ok (OwnerStale, vcf_owner_epoch (rf_verified registered)), s)
      | EpochCollision =>
          (Err (invalid_argument "owner epoch is already claimed by a different fence"), s)
      | FenceRefresh =>
          (Ok (OwnerRefreshed, vcf_owner_epoch (rf_verified registered)),
           set_fences (<[node_id := registered]> (sh_fences s)) s)
      | FenceApply =>
          (Ok (OwnerApplied, vcf_owner_epoch (rf_verified registered)),
           set_fences (<[node_id := registered]> (sh_fences s)) s)
      end
  | None =>
      (Ok (OwnerApplied, vcf_owner_epoch (rf_verified registered)),
       set_fences (<[node_id := registered]> (sh_fences s)) s)
  end.

Definition register_owner_fence (fence : option ConnectionFenceV2) (now lease_now : Clock) (s : Shared)
    : result Status (OwnerFenceDisposition * Z) * Shared :=
  match verify_owner_fence s fence now lease_now with
  | Err e => (Err e, s)
  | Ok (node_id, registered) =>
      match record_owner_fence node_id registered s with
      | (Ok (OwnerApplied, epoch), s) =>
          (Ok (OwnerApplied, epoch), retire_superseded_owner node_id registered s)
      | answer => answer
      end
  end.

Definition get_owner_fence (node_id : bytes) (s : Shared) : result Status ConnectionFenceV2 :=
  let? node_id := validate_uuid node_id "node_id" in
  let? node_key := fixed16 node_id in
  let? registered := ok_or (sh_fences s !! node_key) (not_found "owner fence is not registered") in
  Ok (rf_fence registered).

(** [verify_session_fence] of an accepted handshake. *)
Definition verify_session_fence (s : Shared) (connection : Connection) (handshake_node_id : bytes)
    (connection_fence : option ConnectionFenceV2) (now lease_now : Clock)
    : result bytes (option RegisteredFence) :=
  match connection_fence with
  | None => Ok None
  | Some fence =>
      let? ring := map_err (fun _ => str "controller fence verification keyring is unavailable")
        (keyring s) in
      if negb (bool_decide (length handshake_node_id = 16%nat)) then Err (str "handshake node id is invalid")
      else
      let? verified := map_err (fun _ => str "controller connection fence is invalid")
        (verify_connection_fence_v2_at ring fence handshake_node_id (remote_id connection)
           (now_seconds now) (now_nanos now)) in
      if lease_expired_at lease_now (vcf_lease_until_seconds verified) (vcf_lease_until_nanos verified)
      then Err (str "connection owner lease has expired")
      else Ok (Some (mkRegisteredFence verified fence (remote_id connection)))
  end.

(** The fence of a session against the registered one: recorded, or refused
    with the connection closed. *)
Definition admit_session_fence (node_id : bytes) (connection : Connection)
    (fence : option RegisteredFence) (s : Shared) : result (bytes * Shared) Shared :=
  match fence with
  | None => Ok s
  | Some fence =>
      match fence_registration_decision (sh_fences s !! node_id) fence with
      | FenceStale =>
          Err (str "session fence epoch is lower than the registered owner epoch",
               close connection 265 (str "stale owner epoch") s)
      | EpochCollision =>
          Err (str "two distinct fences claim the same owner epoch",
               close connection 266 (str "owner epoch reused") s)
      | FenceApply | FenceRefresh => Ok (set_fences (<[node_id := fence]> (sh_fences s)) s)
      end
  end.

(** The session enters the registry in place of any previous one. *)
Definition install_session (node_id : bytes) (entry : RegisteredConnection) (s : Shared) : Shared :=
  let replaced := sh_connections s !! node_id in
  let s := set_connections (<[node_id := entry]> (sh_connections s)) s in
  let s :=
    match replaced with
    | Some previous =>
        let s := close (rc_connection previous) 262 (str "superseded connection") s in
        publish (event_with_term s node_id (nc_endpoint_id (rc_metadata previous)) Disconnected
                   (str "connection superseded") (rc_fence previous)) s
    | None => s
    end in
  publish (event_with_term s node_id (nc_endpoint_id (rc_metadata entry)) Connected
             (nc_path_detail (rc_metadata entry)) (rc_fence entry)) s.

(** The registration of a negotiated session, the segment of [accept] under
    the lock of the registry. *)
Definition register_session (entry : RegisteredConnection) (held_token : nat) (s : Shared)
    : result bytes unit * Shared :=
  let node_id := nc_node_id (rc_metadata entry) in
  let connection := rc_connection entry in
  if policy_revoked (sh_policy s) (remote_id connection)
  then (Err (str "endpoint was revoked during handshake"),
        close connection 257 (str "session revoked") s)
  else
  let '(current, s) := registration_token node_id s in
  if negb (Nat.eqb current held_token)
  then (Err (str "endpoint was revoked during handshake"),
        close connection 257 (str "session revoked") s)
  else
  match admit_session_fence node_id connection (rc_fence entry) s with
  | Err (reason, s) => (Err reason, s)
  | Ok s => (Ok tt, install_session node_id entry s)
  end.

Definition finish_session (node_id : bytes) (connection : Connection) (s : Shared) : Shared :=
  match sh_connections s !! node_id with
  | Some entry =>
      if stable_id (rc_connection entry) =? stable_id connection
      then
        let s := set_connections (delete node_id (sh_connections s)) s in
        publish (event_with_term s node_id (remote_id connection) Disconnected
                   (str "connection closed") (rc_fence entry)) s
      else s
  | None => s
  end.

(** One tick of [monitor_owner_lease]: whether the monitor goes on. *)
Definition lease_tick (node_id : bytes) (connection : Connection) (now : Clock) (s : Shared)
    : bool * Shared :=
  match sh_connections s !! node_id with
  | None => (false, s)
  | Some entry =>
      if negb (stable_id (rc_connection entry) =? stable_id connection) then (false, s)
      else
      match rc_fence entry with
      | None => (true, s)
      | Some session_fence =>
          let live :=
            match sh_fences s !! node_id with
            | Some registered =>
                same_fence_term (rf_verified session_fence) (rf_verified registered)
                && negb (lease_expired_at now (vcf_lease_until_seconds (rf_verified registered))
                           (vcf_lease_until_nanos (rf_verified registered)))
            | None => false
            end in
          if live then (true, s) else (false, close connection 265 (str "owner lease expired") s)
      end
  end.

(** * Command dispatch *)

Definition verify_command_carriers (ring : ControllerCommandKeyring) (node_id endpoint : bytes)
    (command : CommandEnvelope) (now lease_now : Clock)
    : result Status (VerifiedConnectionFenceV2 * FenceBindingClaimsV2) :=
  match env_connection_fence command, env_fence_binding command with
  | Some envelope_fence, Some envelope_binding =>
      let? verified := map_err (fun _ => permission_denied "command connection fence is invalid")
        (verify_connection_fence_v2_at ring envelope_fence node_id endpoint
           (now_seconds now) (now_nanos now)) in
      let? claims := map_err (fun _ => permission_denied "command fence binding is invalid")
        (verify_fence_binding_v2_at ring envelope_binding node_id endpoint
           (now_seconds now) (now_nanos now)) in
      if bool_decide (fbc_capability claims <> env_required_capability command)
         || negb (bool_decide (fbc_capability claims ∈ vcf_capabilities verified))
      then Err (permission_denied "fence binding capability does not match the command capability")
      else if negb (fbc_operation_kind claims =? FenceOperationKind_value OperationCommand)
              || bool_decide (fbc_operation_id claims <> env_command_id command)
      then Err (permission_denied "fence binding does not match the dispatched command")
      else if lease_expired_at lease_now (vcf_lease_until_seconds verified)
                (vcf_lease_until_nanos verified)
      then Err (failed_precondition "command owner lease has expired")
      else Ok (verified, claims)
  | _, _ =>
      Err (permission_denied "fenced session commands must carry the owner fence and binding")
  end.

(** [s] is the state when the fences are read. *)
Definition verify_command_fence (s : Shared) (node_id : bytes) (command : CommandEnvelope)
    (session_fence : option RegisteredFence) (now lease_now : Clock) : result Status unit :=
  match session_fence with
  | None =>
      if negb (is_none (env_connection_fence command)) || negb (is_none (env_fence_binding command))
      then Err (permission_denied "command fence is not grounded in the session term")
      else if sh_require_fencing s
      then Err (permission_denied "command dispatch requires a fenced session")
      else
      let? node_key := fixed16 node_id in
      if negb (is_none (sh_fences s !! node_key))
      then Err (permission_denied "command dispatch requires the registered owner fence")
      else Ok tt
  | Some session_fence =>
      let? ring := keyring s in
      let? node_id := fixed16 node_id in
      let? (verified, claims) := verify_command_carriers ring node_id (rf_endpoint_id session_fence)
        command now lease_now in
      let? registered := ok_or (sh_fences s !! node_id)
        (permission_denied "no owner fence is registered for this node") in
      if negb (same_fence_term (rf_verified registered) verified)
         || negb (same_fence_term (rf_verified session_fence) verified)
      then Err (permission_denied "command fence does not match the registered owner term")
      else if negb (matches_fence claims verified)
      then Err (permission_denied "command fence binding does not match the command fence term")
      else Ok tt
  end.

(** [s1] is the state when the session is read, [s2] when the fences are. *)
Definition validate_command_dispatch (s1 s2 : Shared) (node_id : bytes) (command : CommandEnvelope)
    (request_len : Z) (now verify_now lease_now : Clock) : result Status (Connection * Z) :=
  let? entry := ok_or (sh_connections s1 !! node_id) (unavailable "node is not connected") in
  if bool_decide (rc_session_mode entry = ReadOnly)
  then Err (permission_denied "read-only session does not permit command dispatch")
  else if negb (bool_decide (env_required_capability command ∈ rc_negotiated_capabilities entry))
  then Err (permission_denied "command capability was not negotiated for this session")
  else if negb (rc_authorization_revision entry =? 0)
          && negb (env_expected_revision command =? rc_authorization_revision entry)
  then Err (failed_precondition "command authorization revision does not match the active session")
  else if match rc_session_expires_at entry with
          | Some expires_at => expires_at <=? system_time now
          | None => false
          end
  then Err (failed_precondition "Controller session grant has expired")
  else if request_len >? rc_max_message_size entry
  then Err (resource_exhausted "command exceeds the agent's negotiated message size")
  else
  let? _ := verify_command_fence s2 node_id command (rc_fence entry) verify_now lease_now in
  Ok (rc_connection entry, rc_max_message_size entry).

(** * Trust updates and closing *)

Record UpdateNodeTrustRequest := mkUpdateNodeTrustRequest {
  unt_node_id : bytes; unt_endpoint_id : bytes; unt_state : Z; unt_reason : bytes;
  unt_revision : Z; unt_fence_binding : option FenceBindingV2; unt_operation_id : bytes }.

(** [chars().count()]: UTF-8 continuation bytes do not start a character. *)
Definition char_count (b : bytes) : Z :=
  len (filter (fun c => ~ (128 <= byte_val c < 192)) b).

Definition update_node_trust (request : UpdateNodeTrustRequest) (now lease_now : Clock) (s : Shared)
    : result Status (PolicyUpdateDisposition * Z * NodeTrustState) * Shared :=
  let checked :=
    let? node_id := validate_uuid (unt_node_id request) "node_id" in
    if negb (len (unt_endpoint_id request) =? 32)
    then Err (invalid_argument "endpoint_id must be 32 bytes")
    else if is_empty (unt_reason request) || (char_count (unt_reason request) >? 1024)
    then Err (invalid_argument "trust update reason is invalid")
    else if unt_revision request =? 0
    then Err (invalid_argument "trust update revision is invalid")
    else if negb (endpoint_valid (unt_endpoint_id request))
    then Err (invalid_argument "endpoint_id is invalid")
    else
    let? state := ok_or (NodeTrustState_try_from (unt_state request))
      (invalid_argument "trust state is invalid") in
    if bool_decide (state = TrustUnspecified)
    then Err (invalid_argument "trust state is unspecified")
    else
    let? node_key := fixed16 node_id in
    let derived_operation_id := state_update_operation_id node_key (unt_endpoint_id request)
      (unt_state request) (unt_revision request) (unt_reason request) in
    if negb (is_empty (unt_operation_id request))
       && bool_decide (unt_operation_id request <> derived_operation_id)
    then Err (invalid_argument "trust update operation identity does not match its carrier")
    else
    let? _ := verify_operation_binding s node_id (Some (unt_endpoint_id request)) None
      (unt_fence_binding request) OperationStateUpdate (unt_operation_id request) now lease_now in
    Ok (node_id, state) in
  match checked with
  | Err e => (Err e, s)
  | Ok (node_id, state) =>
      let endpoint := unt_endpoint_id request in
      let previous_revision := policy_revision (sh_policy s) endpoint in
      let '(disposition, policy) := policy_update (sh_policy s) endpoint node_id state
        (unt_revision request) in
      let s := set_policy policy s in
      let retained_revision := policy_revision policy endpoint in
      let retained := retained_state policy endpoint in
      let s :=
        if bool_decide (disposition = PolicyApplied)
           && (retained_revision =? unt_revision request)
           && bool_decide (retained = state)
           && (retained_revision >? previous_revision)
           && match sh_connections s !! node_id with
              | Some entry => rc_authorization_revision entry <? retained_revision
              | None => false
              end
        then snd (remove node_id
                    (if bool_decide (state = Revoked) then str "node revoked"
                     else str "node authorization changed") s)
        else s in
      (Ok (disposition, retained_revision, retained), s)
  end.

Definition close_node (node_id reason : bytes) (binding : option FenceBindingV2)
    (now lease_now : Clock) (s : Shared) : result Status unit * Shared :=
  let checked :=
    let? node_id := validate_uuid node_id "node_id" in
    if char_count reason >? 1024 then Err (invalid_argument "close reason exceeds 1024 characters")
    else
    let? _ := verify_operation_binding s node_id None None binding OperationConnectionClose node_id
      now lease_now in
    Ok node_id in
  match checked with
  | Err e => (Err e, s)
  | Ok node_id =>
      match remove node_id reason s with
      | (Some _, s) => (Ok tt, s)
      | (None, s) => (Err (not_found "node is not connected"), s)
      end
  end.

(** * Telemetry, results and shutdown *)

(** The admission of a telemetry frame of [length_] bytes by
    [monitor_telemetry], before its body is read. *)
Definition admit_frame (node_id : bytes) (connection : Connection) (length_ max_message_size now : Z)
    (s : Shared) : bool * Shared :=
  if (length_ =? 0) || (length_ >? 512 * 1024) || (length_ >? max_message_size)
  then (false, close connection 263 (str "telemetry frame size invalid") s)
  else
  let '(admitted, budgets_) := admit_telemetry (sh_budgets s) node_id length_ now in
  let s := set_budgets budgets_ s in
  if admitted then (true, s) else (false, close connection 269 (str "telemetry budget exceeded") s).

(** The publication of an admitted, decoded batch; [claims] says whether the
    batch claims security priority. *)
Definition publish_batch (node_id : bytes) (connection : Connection) (payload : bytes) (claims : bool)
    (s : Shared) : Shared :=
  let '(security, s) :=
    if claims then
      let '(granted, budgets_) := claim_security_priority (sh_budgets s) node_id in
      (granted, set_budgets budgets_ s)
    else (false, s) in
  publish_telemetry (event_with_term s node_id (remote_id connection) Telemetry payload None) security s.

Definition touch (now : Timestamp) (m : NodeConnection) : NodeConnection :=
  mkNodeConnection (nc_node_id m) (nc_endpoint_id m) (nc_path m) (nc_round_trip_time_millis m)
    (nc_connected_at m) (nc_agent_instance_id m) (nc_path_detail m) (Some now)
    (nc_negotiated_capabilities m) (nc_authorization_revision m) (nc_session_expires_at m)
    (nc_owner_epoch m).

Definition publish_agent_event (node_id : bytes) (connection : Connection) (event : TransportEvent)
    (now : Timestamp) (s : Shared) : Shared :=
  match sh_connections s !! node_id with
  | Some entry =>
      if stable_id (rc_connection entry) =? stable_id connection
      then
        let entry := mkRegisteredConnection (touch now (rc_metadata entry)) (rc_connection entry)
          (rc_max_message_size entry) (rc_negotiated_capabilities entry) (rc_session_mode entry)
          (rc_authorization_revision entry) (rc_session_expires_at entry) (rc_fence entry) in
        publish event (set_connections (<[node_id := entry]> (sh_connections s)) s)
      else s
  | None => s
  end.

(** [Shared::shutdown] *)
Definition shutdown (s : Shared) : Shared :=
  let events := sh_events s in
  let drained := (fun kv => (rc_connection (snd kv), 261, str "transport shutdown"))
    <$> map_to_list (sh_connections s) in
  mkShared ∅ (sh_tokens s) (sh_live s) (sh_next_token s) (sh_fences s) (sh_keyring s)
    (sh_require_fencing s)
    (mkEventState (retained events) [] (telemetry_retained events) (telemetry_retained_bytes events))
    (sh_budgets s) (sh_capacity s) true (sh_policy s) (sh_closed s ++ drained) (sh_stamps s).

(** * Artifact operations *)

Record FetchArtifactRequest := mkFetchArtifactRequest {
  far_node_id : bytes; far_artifact_id : bytes; far_purpose : bytes; far_max_bytes : Z;
  far_grant : option ArtifactGrantV1; far_fence_binding : option FenceBindingV2 }.

(** [fetch_artifact] up to the acceptance boundary: the connection and the
    fence the request is forwarded with. *)
Definition fetch_artifact (s1 s2 : Shared) (request : FetchArtifactRequest) (now lease_now : Clock)
    : result Status (Connection * option RegisteredFence) :=
  let? node_id := validate_uuid (far_node_id request) "node_id" in
  let? artifact_id := validate_uuid (far_artifact_id request) "artifact_id" in
  let? grant := ok_or (far_grant request) (permission_denied "artifact grant is required") in
  if bool_decide (far_purpose request <> str "certificate_p12")
     || (far_max_bytes request =? 0) || (far_max_bytes request >? 64 * 1024 * 1024)
     || bool_decide (ag_node_id grant <> far_node_id request)
     || bool_decide (ag_artifact_id grant <> far_artifact_id request)
     || bool_decide (ag_purpose grant <> far_purpose request)
     || negb (ag_max_bytes grant =? far_max_bytes request)
  then Err (invalid_argument "artifact request is invalid")
  else
  let? entry := ok_or (sh_connections s1 !! node_id) (unavailable "node is not connected") in
  if bool_decide (rc_session_mode entry = ReadOnly)
  then Err (permission_denied "read-only session does not permit artifact fetch")
  else
  let? endpoint := fixed32 (nc_endpoint_id (rc_metadata entry)) in
  let? dispatch_fence := verify_operation_binding s2 node_id (Some endpoint) (rc_fence entry)
    (far_fence_binding request) OperationArtifact artifact_id now lease_now in
  Ok (rc_connection entry, dispatch_fence).

Record ConsumeArtifactRequest := mkConsumeArtifactRequest {
  car_node_id : bytes; car_grant : option ArtifactGrantV1; car_sha256 : bytes; car_size : Z;
  car_confirm_only : bool; car_fence_binding : option FenceBindingV2 }.

Definition consume_artifact (s1 s2 : Shared) (request : ConsumeArtifactRequest) (now lease_now : Clock)
    : result Status (Connection * option RegisteredFence) :=
  let? node_id := validate_uuid (car_node_id request) "node_id" in
  let? grant := ok_or (car_grant request) (permission_denied "artifact grant is required") in
  if bool_decide (ag_node_id grant <> car_node_id request)
     || negb (len (ag_artifact_id grant) =? 16)
     || negb (len (ag_grant_id grant) =? 16)
     || bool_decide (ag_purpose grant <> str "certificate_p12")
     || negb (len (car_sha256 request) =? 32)
     || (car_size request =? 0)
     || negb (car_size request =? ag_max_bytes grant)
  then Err (invalid_argument "artifact consumption request is invalid")
  else
  let? entry := ok_or (sh_connections s1 !! node_id) (unavailable "node is not connected") in
  if bool_decide (rc_session_mode entry = ReadOnly)
  then Err (permission_denied "read-only session does not permit artifact consumption")
  else
  let? endpoint := fixed32 (nc_endpoint_id (rc_metadata entry)) in
  let? dispatch_fence := verify_operation_binding s2 node_id (Some endpoint) (rc_fence entry)
    (car_fence_binding request) OperationArtifact (ag_grant_id grant) now lease_now in
  Ok (rc_connection entry, dispatch_fence).

End Service.

(** * Trace identifiers *)

Definition lower_hex (b : byte) : bool :=
  is_ascii_digit b || ((97 <=? byte_val b) && (byte_val b <=? 102)).

Definition validate_traceparent (value : bytes) : result Status unit :=
  let parts := split_on x2d value in
  match parts with
  | [version; trace; span; flags] =>
      if bool_decide (version <> str "00") || negb (len trace =? 32) || negb (len span =? 16)
         || negb (len flags =? 2) || negb (forallb (forallb lower_hex) parts)
         || bool_decide (trace = str "00000000000000000000000000000000")
         || bool_decide (span = str "0000000000000000")
      then Err (invalid_argument "invalid traceparent")
      else Ok tt
  | _ => Err (invalid_argument "invalid traceparent")
  end.
