(* ===== verification/EventTheorems.v ===== *)
(** The transport's event retention keeps control events ahead of telemetry
    within its bounds, and the telemetry budgets bound every node's rate. *)

From stdpp Require Import base list gmap numbers countable strings sorting.
From Stdlib Require Import ZArith Lia Bool Strings.Byte.
From S2P Require Import Prelude Bytes Contracts Trust Transport.

Local Open Scope Z_scope.

(** * Retained events *)

Definition tel (e : TransportEvent) : Prop := is_telemetry e = true.
Definition control (e : TransportEvent) : Prop := is_telemetry e = false.

#[export] Instance tel_dec e : Decision (tel e).
Proof. unfold tel. apply _. Defined.
#[export] Instance control_dec e : Decision (control e).
Proof. unfold control. apply _. Defined.

Definition payload_bytes (l : list TransportEvent) : Z :=
  foldr (fun e acc => len (ev_payload e) + acc) 0 l.

(** The counters agree with the queue. *)
Definition counted (s : EventState) : Prop :=
  telemetry_retained s = len (filter tel (retained s))
  /\ telemetry_retained_bytes s = payload_bytes (filter tel (retained s)).

Record wf_events (capacity : Z) (s : EventState) : Prop := {
  we_counted : counted s;
  we_length : len (retained s) <= capacity;
  we_telemetry : telemetry_retained s <= Z.max (capacity / 2) 1;
  we_bytes : telemetry_retained_bytes s <= MAX_RETAINED_TELEMETRY_BYTES }.

Lemma payload_bytes_app l1 l2 : payload_bytes (l1 ++ l2) = payload_bytes l1 + payload_bytes l2.
Proof. induction l1 as [|e l1 IH]; simpl; lia. Qed.

Lemma payload_bytes_nonneg l : 0 <= payload_bytes l.
Proof. induction l as [|e l IH]; simpl; [lia|]. pose proof (len_nonneg (ev_payload e)). lia. Qed.

Lemma tel_control e : tel e \/ control e.
Proof. unfold tel, control. destruct (is_telemetry e); auto. Qed.

Lemma control_not_tel e : control e -> ~ tel e.
Proof. unfold tel, control. congruence. Qed.
Lemma tel_not_control e : tel e -> ~ control e.
Proof. unfold tel, control. congruence. Qed.

Lemma filter_tel_control l : Forall control l -> filter tel l = [] /\ filter control l = l.
Proof.
  induction 1 as [|e l He _ [IH1 IH2]]; [done|].
  rewrite filter_cons_False by (by apply control_not_tel). rewrite filter_cons_True by done.
  by rewrite IH1, IH2.
Qed.

Lemma remove_first_telemetry_spec l :
  match remove_first_telemetry l with
  | Some (e, rest) => exists l1 l2, l = l1 ++ e :: l2 /\ rest = l1 ++ l2 /\ Forall control l1 /\ tel e
  | None => Forall control l
  end.
Proof.
  induction l as [|e l IH]; simpl; [constructor|]. destruct (is_telemetry e) eqn:Ht.
  - by exists [], l.
  - destruct (remove_first_telemetry l) as [[x rest]|].
    + destruct IH as (l1 & l2 & -> & -> & F & Hx). exists (e :: l1), l2.
      split; [done|]. split; [done|]. split; [by constructor|done].
    + by constructor.
Qed.

(** What eviction does to a counted queue. *)
Lemma evict_oldest_telemetry_spec s b s' :
  counted s -> evict_oldest_telemetry s = (b, s') ->
  counted s' /\ subscribers s' = subscribers s
  /\ filter control (retained s') = filter control (retained s)
  /\ retained s' `sublist_of` retained s
  /\ (if b then S (length (retained s')) = length (retained s)
                /\ telemetry_retained s' = telemetry_retained s - 1
                /\ telemetry_retained_bytes s' <= telemetry_retained_bytes s
      else s' = s /\ Forall control (retained s)).
Proof.
  intros [C1 C2]. unfold evict_oldest_telemetry.
  pose proof (remove_first_telemetry_spec (retained s)) as Hr.
  destruct (remove_first_telemetry (retained s)) as [[e rest]|]; intros [= <- <-]; [|done].
  destruct Hr as (l1 & l2 & E & -> & F & He). destruct (filter_tel_control l1 F) as [Ft Fc].
  unfold counted, forget_telemetry. simpl. rewrite C1, C2, E, !filter_app, Ft.
  rewrite !filter_cons, !decide_True, decide_False by (try done; by apply tel_not_control).
  simpl. unfold len. simpl. pose proof (len_nonneg (ev_payload e)) as Hn. unfold len in Hn.
  repeat split; try lia.
  - apply sublist_app; [done|]. by apply sublist_cons.
  - rewrite !length_app. simpl. lia.
Qed.

Lemma counted_control s :
  counted s -> Forall control (retained s) ->
  telemetry_retained s = 0 /\ telemetry_retained_bytes s = 0.
Proof. intros [-> ->] F. by rewrite (proj1 (filter_tel_control _ F)). Qed.

(** Making room for a payload always succeeds. *)
Lemma make_room_spec fuel capacity bytes_ s :
  (length (retained s) < fuel)%nat -> bytes_ <= MAX_RETAINED_TELEMETRY_BYTES -> counted s ->
  let s' := make_room fuel capacity bytes_ s in
  counted s' /\ subscribers s' = subscribers s
  /\ filter control (retained s') = filter control (retained s)
  /\ retained s' `sublist_of` retained s
  /\ telemetry_retained s' < Z.max (capacity / 2) 1
  /\ telemetry_retained_bytes s' + bytes_ <= MAX_RETAINED_TELEMETRY_BYTES.
Proof.
  revert s. induction fuel as [|fuel IH]; intros s Hf Hb C; [lia|]. simpl.
  destruct (_ || _)%bool eqn:G; [|do 4 (split; [done|]); lia].
  destruct (evict_oldest_telemetry s) as [b s1] eqn:E.
  destruct (evict_oldest_telemetry_spec s b s1 C E) as (C1 & Hs1 & Hc1 & Hl1 & Hb1). destruct b.
  - destruct Hb1 as (Hlen & _ & _). destruct (IH s1) as (C2 & Hs2 & Hc2 & Hl2 & H3 & H4); [lia|done|done|].
    split; [done|]. split; [congruence|]. split; [congruence|]. split; [by etransitivity|done].
  - destruct Hb1 as [-> F]. destruct (counted_control s C F) as [Z1 Z2]. lia.
Qed.

Lemma push_counted event s : counted s -> counted (push_retained event s).
Proof.
  intros [C1 C2]. unfold counted, push_retained. rewrite C1, C2.
  destruct (is_telemetry event) eqn:Ht; simpl; rewrite !filter_app, !filter_cons.
  - rewrite !decide_True by done. rewrite payload_bytes_app, len_app. simpl. change (len (event :: filter tel [])) with 1. lia.
  - rewrite !decide_False by (unfold tel; congruence). by rewrite !app_nil_r.
Qed.

Lemma sublist_len {A} (l1 l2 : list A) : l1 `sublist_of` l2 -> len l1 <= len l2.
Proof. intros H%sublist_length. unfold len. lia. Qed.

Lemma retain_telemetry capacity event s b s' :
  tel event -> len (ev_payload event) <= MAX_RETAINED_TELEMETRY_BYTES -> wf_events capacity s ->
  retain_slot capacity event s = (b, s') ->
  counted s' /\ filter control (retained s') = filter control (retained s)
  /\ retained s' `sublist_of` retained s
  /\ (b = true -> len (retained s') < capacity)
  /\ telemetry_retained s' < Z.max (capacity / 2) 1
  /\ telemetry_retained_bytes s' + len (ev_payload event) <= MAX_RETAINED_TELEMETRY_BYTES.
Proof.
  intros Ht Hp [C L T B] E. unfold retain_slot in E. rewrite Ht in E.
  destruct (make_room_spec (S (length (retained s))) capacity (len (ev_payload event)) s)
    as (C1 & _ & Hc1 & Hs1 & T1 & B1); [lia|done|done|].
  set (s1 := make_room _ capacity _ s) in *.
  destruct (Z.ltb_spec (len (retained s1)) capacity).
  - injection E as <- <-. done.
  - destruct (evict_oldest_telemetry_spec s1 b s' C1 E) as (C2 & _ & Hc2 & Hs2 & Hb).
    split; [done|]. split; [congruence|]. split; [by etransitivity|].
    pose proof (sublist_len _ _ Hs1). destruct b.
    + destruct Hb as (Hl & Ht2 & Hb2). split; [intros _; unfold len in *; lia|lia].
    + destruct Hb as [-> _]. done.
Qed.

Lemma retain_control capacity event s b s' :
  control event -> 1 <= capacity -> wf_events capacity s -> retain_slot capacity event s = (b, s') ->
  b = true /\ counted s' /\ retained s' `sublist_of` retained s
  /\ len (retained s') < capacity
  /\ telemetry_retained s' <= telemetry_retained s
  /\ telemetry_retained_bytes s' <= telemetry_retained_bytes s
  /\ filter control (retained s') =
     (if bool_decide (len (retained s) = capacity /\ Forall control (retained s))
      then drop 1 (retained s) else filter control (retained s)).
Proof.
  intros Hk Hcap [C L T B] E. unfold retain_slot in E. rewrite Hk in E.
  destruct (Z.eqb_spec (len (retained s)) capacity) as [Hfull|Hroom].
  2: { injection E as <- <-. rewrite bool_decide_false by tauto. do 3 (split; [done|]). split; [lia|done]. }
  destruct (evict_oldest_telemetry s) as [evicted s1] eqn:Ee. injection E as <- <-.
  destruct (evict_oldest_telemetry_spec s evicted s1 C Ee) as (C1 & _ & Hc1 & Hs1 & Hb).
  split; [done|]. destruct evicted.
  - destruct Hb as (Hl & Ht1 & Hb1). split; [done|]. split; [done|].
    split; [unfold len in *; lia|]. split; [lia|]. split; [lia|].
    rewrite bool_decide_false; [done|]. intros [_ F].
    pose proof (evict_oldest_telemetry_spec s true s1 C Ee) as (_ & _ & _ & _ & _ & Hz & _).
    destruct (counted_control s C F) as [Z1 _]. destruct C1 as [C1 _].
    pose proof (len_nonneg (filter tel (retained s1))). lia.
  - destruct Hb as [-> F]. rewrite bool_decide_true by done. unfold pop_oldest.
    destruct (counted_control s C F) as [Z1 Z2].
    destruct (retained s) as [|e rest] eqn:Er; [unfold len in Hfull; simpl in Hfull; lia|].
    apply Forall_cons in F as [He F]. rewrite He. unfold counted. simpl.
    destruct (filter_tel_control rest F) as [-> ->]. rewrite Z1, Z2.
    split; [done|]. split; [by apply sublist_cons|]. split; [unfold len in *; simpl in *; lia|done].
Qed.

(** Retention prefers control events within its bounds: publishing keeps
    the queue within its capacity, telemetry within half of it and within its
    byte limit, and the counters exact.  A telemetry event never displaces a
    control event; a control event is always retained, and displaces another
    one, the oldest, only when the full queue holds no telemetry. *)
Theorem retention_prefers_control capacity event routine s :
  wf_events capacity s -> 1 <= capacity ->
  (tel event -> len (ev_payload event) <= MAX_RETAINED_TELEMETRY_BYTES) ->
  let s' := publish_event false capacity event routine s in
  wf_events capacity s' /\ retained s' `sublist_of` retained s ++ [event]
  /\ if is_telemetry event then filter control (retained s') = filter control (retained s)
     else filter control (retained s') =
          (if bool_decide (len (retained s) = capacity /\ Forall control (retained s))
           then drop 1 (retained s) else filter control (retained s)) ++ [event].
Proof.
  intros W Hc Hp. unfold publish_event. simpl.
  destruct (retain_slot capacity event s) as [b s1] eqn:E.
  destruct (is_telemetry event) eqn:Ht.
  - specialize (Hp Ht). apply retain_telemetry in E as (C & Fc & Sb & Hb & T & B); [|done..].
    pose proof (sublist_len _ _ Sb) as Hl. pose proof (we_length _ _ W).
    pose proof (len_nonneg (ev_payload event)).
    destruct b.
    + specialize (Hb eq_refl). pose proof (push_counted event s1 C) as C'.
      unfold push_retained in *. rewrite Ht in *. simpl. split.
      { split; simpl; try done; try lia. rewrite len_app. change (len [event]) with 1. lia. }
      split; [by apply sublist_app|]. rewrite filter_app, Fc, filter_cons_False, app_nil_r; [done|].
      unfold control. congruence.
    + split; [split; simpl; try done; lia|]. simpl. split; [|done].
      etransitivity; [exact Sb|]. by apply sublist_inserts_r.
  - apply retain_control in E as (-> & C & Sb & Hl & T & B & Fc); [|done..].
    pose proof (push_counted event s1 C) as C'. pose proof (we_telemetry _ _ W).
    pose proof (we_bytes _ _ W). unfold push_retained in *. rewrite Ht in *. simpl. split.
    { split; simpl; try done; try lia. rewrite len_app. change (len [event]) with 1. lia. }
    split; [by apply sublist_app|]. by rewrite filter_app, Fc, filter_cons_True.
Qed.

Definition sample_event (id kind : Z) : TransportEvent :=
  mkTransportEvent (be 16 id) (be 16 1) kind None [x00] [] [] [] 0.

Definition sample_events : EventState :=
  mkEventState [sample_event 1 7; sample_event 2 1] [] 1 1.

(** A full queue of capacity two: the telemetry event gives way. *)
Lemma retention_prefers_control_witness :
  retained (publish_event false 2 (sample_event 3 2) false sample_events)
    `sublist_of` [sample_event 1 7; sample_event 2 1; sample_event 3 2].
Proof.
  apply (retention_prefers_control 2 (sample_event 3 2) false sample_events).
  - split; [split; by vm_compute|by vm_compute..].
  - lia.
  - done.
Defined.

(** * Telemetry budgets *)

(** Whole milliseconds between two instants. *)
Definition millis (from to : Z) : Z := (to - from) / 1000000.

Lemma millis_split a b c : a <= b -> b <= c -> millis a b + millis b c <= millis a c.
Proof.
  intros H1 H2. unfold millis. replace (c - a) with ((b - a) + (c - b)) by lia.
  pose proof (Z.div_mod (b - a) 1000000 ltac:(lia)).
  pose proof (Z.div_mod (c - b) 1000000 ltac:(lia)).
  pose proof (Z.mod_pos_bound (b - a) 1000000 ltac:(lia)).
  pose proof (Z.mod_pos_bound (c - b) 1000000 ltac:(lia)).
  apply Z.div_le_lower_bound; lia.
Qed.

Lemma millis_nonneg a b : a <= b -> 0 <= millis a b.
Proof. intros. unfold millis. apply Z.div_pos; lia. Qed.

(** One token bucket of [cap] tokens refilled at [rate] per millisecond, with
    what has been spent since [t0].  A missing bucket is a full one. *)
Section Bucket.
Context (cap rate : Z) (Hcap : 0 <= cap <= rate * 60000).

Definition level (ob : option (Z * Z)) (now : Z) : Z :=
  match ob with
  | Some (tokens, updated_) => Z.min cap (tokens + rate * millis updated_ now)
  | None => cap
  end.

Definition bucket_ok (t0 now : Z) (ob : option (Z * Z)) (spent : Z) : Prop :=
  t0 <= now /\ 0 <= spent /\
  match ob with
  | Some (tokens, updated_) =>
      updated_ <= now /\ 0 <= tokens <= cap
      /\ (spent = 0 \/ (t0 <= updated_ /\ spent + tokens <= cap + rate * millis t0 updated_))
  | None => spent = 0 \/ spent + cap <= cap + rate * millis t0 now
  end.

Lemma bucket_advance t0 now now' ob spent :
  now <= now' -> bucket_ok t0 now ob spent -> bucket_ok t0 now' ob spent.
Proof.
  intros Hn (H1 & H2 & H3). split; [lia|]. split; [done|]. destruct ob as [[m u]|].
  - destruct H3 as (? & ? & ?). split; [lia|done].
  - destruct H3 as [?|H3]; [by left|]. right.
    pose proof (millis_split t0 now now' H1 Hn). pose proof (millis_nonneg now now' Hn). nia.
Qed.

Lemma bucket_forget t0 now tokens u spent :
  NANOS_PER_MINUTE <= now - u -> bucket_ok t0 now (Some (tokens, u)) spent -> bucket_ok t0 now None spent.
Proof.
  intros Hi (H1 & H2 & H3 & H4 & H5). split; [done|]. split; [done|].
  destruct H5 as [?|[H5 H6]]; [by left|]. right.
  pose proof (millis_split t0 u now H5 H3).
  assert (60000 <= millis u now).
  { unfold millis, NANOS_PER_MINUTE in *. apply Z.div_le_lower_bound; lia. }
  nia.
Qed.

Lemma bucket_spend t0 now ob spent cost :
  bucket_ok t0 now ob spent -> 0 <= cost <= level ob now ->
  bucket_ok t0 now (Some (level ob now - cost, now)) (spent + cost).
Proof.
  intros (H1 & H2 & H3) Hc. split; [done|]. split; [lia|]. split; [lia|].
  pose proof (millis_nonneg t0 now H1) as Hm.
  assert (level ob now <= cap) as Hl by (unfold level; destruct ob as [[m u]|]; lia).
  split; [lia|]. right. split; [done|]. unfold level in *. destruct ob as [[m u]|].
  - destruct H3 as (Hu & Hm0 & [->|[H4 H5]]); [nia|].
    pose proof (millis_split t0 u now H4 Hu). nia.
  - destruct H3 as [->|H3]; nia.
Qed.

Lemma bucket_spent t0 now ob spent :
  bucket_ok t0 now ob spent -> spent <= cap + rate * millis t0 now.
Proof.
  intros (H1 & H2 & H3). pose proof (millis_nonneg t0 now H1). destruct ob as [[m u]|].
  - destruct H3 as (Hu & Hm & [->|[H4 H5]]); [nia|].
    pose proof (millis_split t0 u now H4 Hu). pose proof (millis_nonneg u now Hu). nia.
  - destruct H3 as [->|H3]; nia.
Qed.
End Bucket.

Definition wf_budget (b : TelemetryBudget) : Prop :=
  0 <= milli_events b <= TELEMETRY_BURST_EVENTS * 1000 /\ 0 <= budget_bytes b <= TELEMETRY_BURST_BYTES.

Definition events_of (b : TelemetryBudget) : Z * Z := (milli_events b, updated b).
Definition bytes_of (b : TelemetryBudget) : Z * Z := (budget_bytes b, updated b).

Lemma saturated_refill tokens elapsed rate cap :
  0 <= tokens -> 0 <= elapsed -> 0 <= rate -> cap <= u64_max ->
  Z.min (u64_saturating_add tokens (u64_saturating_mul (Z.min u64_max elapsed) rate)) cap
  = Z.min cap (tokens + rate * elapsed) \/ rate = 0.
Proof.
  intros. unfold u64_saturating_add, u64_saturating_mul.
  destruct (Z.eq_dec rate 0); [by right|]. left. assert (0 < u64_max) by done.
  rewrite (Z.mul_comm rate elapsed). assert (0 <= elapsed * rate) by nia.
  destruct (Z.min_spec u64_max elapsed) as [[Hm ->]|[Hm ->]]; [|lia].
  assert (u64_max <= u64_max * rate) by nia. assert (u64_max <= elapsed * rate) by nia. lia.
Qed.

(** The refilled bucket holds exactly its level. *)
Lemma refill_level b now :
  wf_budget b -> updated b <= now ->
  milli_events (refill b now) = level (TELEMETRY_BURST_EVENTS * 1000) 2 (Some (events_of b)) now
  /\ budget_bytes (refill b now) = level TELEMETRY_BURST_BYTES 1024 (Some (bytes_of b)) now.
Proof.
  intros [He Hb] Hu. unfold refill, elapsed_millis, duration_since. simpl.
  rewrite Z.max_r by lia. fold (millis (updated b) now).
  pose proof (millis_nonneg _ _ Hu) as Hm. unfold u64_max, TELEMETRY_BURST_EVENTS,
    TELEMETRY_BURST_BYTES, TELEMETRY_REFILL_EVENTS_PER_SECOND, TELEMETRY_REFILL_BYTES_PER_MILLI in *.
  split.
  - destruct (saturated_refill (milli_events b) (millis (updated b) now) 2 (40 * 1000)) as [E|E];
      unfold u64_max; try lia. exact E.
  - destruct (saturated_refill (budget_bytes b) (millis (updated b) now) 1024 (32 * 512 * 1024)) as [E|E];
      unfold u64_max; try lia. exact E.
Qed.

Lemma refill_fresh now :
  milli_events (refill (fresh_budget now) now) = TELEMETRY_BURST_EVENTS * 1000
  /\ budget_bytes (refill (fresh_budget now) now) = TELEMETRY_BURST_BYTES.
Proof.
  unfold refill, fresh_budget, elapsed_millis, duration_since. simpl.
  by rewrite Z.sub_diag.
Qed.

(** A frame offered by a node: the node, its size, and the instant. *)
Definition Frame : Type := bytes * Z * Z.
Definition frame_time (f : Frame) : Z := snd f.

(** The frames and bytes of [n] that a run of admissions lets through. *)
Fixpoint admitted (n : bytes) (budgets_ : gmap bytes TelemetryBudget) (frames : list Frame) : Z * Z :=
  match frames with
  | [] => (0, 0)
  | (node_id, size_, now) :: rest =>
      let '(ok, budgets_) := admit_telemetry budgets_ node_id size_ now in
      let '(count, total) := admitted n budgets_ rest in
      if ok && bool_decide (node_id = n) then (count + 1, total + size_) else (count, total)
  end.

Definition events_ok (t0 now : Z) (o : option TelemetryBudget) (count : Z) : Prop :=
  bucket_ok (TELEMETRY_BURST_EVENTS * 1000) 2 t0 now (events_of <$> o) (1000 * count).
Definition bytes_ok (t0 now : Z) (o : option TelemetryBudget) (total : Z) : Prop :=
  bucket_ok TELEMETRY_BURST_BYTES 1024 t0 now (bytes_of <$> o) total.

Lemma caps_ok :
  0 <= TELEMETRY_BURST_EVENTS * 1000 <= 2 * 60000 /\ 0 <= TELEMETRY_BURST_BYTES <= 1024 * 60000.
Proof. unfold TELEMETRY_BURST_EVENTS, TELEMETRY_BURST_BYTES. lia. Qed.

(** The buckets an admission works on. *)
Definition recent (now : Z) (budgets_ : gmap bytes TelemetryBudget) : gmap bytes TelemetryBudget :=
  if Z.of_nat (size budgets_) >=? MAX_CONNECTIONS
  then filter (fun kv => duration_since now (updated (snd kv)) < NANOS_PER_MINUTE) budgets_
  else budgets_.

(** Forgetting idle buckets does not change what a node may still send. *)
Lemma retain_recent_ok (t0 prev now : Z) (budgets_ : gmap bytes TelemetryBudget) (n : bytes) (count total : Z) :
  prev <= now ->
  events_ok t0 prev (budgets_ !! n) count -> bytes_ok t0 prev (budgets_ !! n) total ->
  events_ok t0 now (recent now budgets_ !! n) count /\ bytes_ok t0 now (recent now budgets_ !! n) total.
Proof.
  intros Hn He Hb. unfold recent. destruct caps_ok as [K1 K2].
  apply (bucket_advance _ _ K1 t0 prev now) in He; [|done].
  apply (bucket_advance _ _ K2 t0 prev now) in Hb; [|done].
  destruct (_ >=? _); [|done]. simpl. set (kept := filter _ budgets_).
  destruct (budgets_ !! n) as [b|] eqn:Eb.
  2: { assert (kept !! n = None) as -> by (apply map_lookup_filter_None; by left). done. }
  destruct (decide (duration_since now (updated b) < NANOS_PER_MINUTE)) as [D|D].
  { assert (kept !! n = Some b) as -> by (by apply map_lookup_filter_Some). done. }
  assert (kept !! n = None) as ->.
  { apply map_lookup_filter_None. right. intros x [= <-]%(eq_trans (eq_sym Eb)). done. }
  unfold duration_since in D.
  split; (eapply bucket_forget; [done| |first [exact He|exact Hb]]); unfold NANOS_PER_MINUTE in *; lia.
Qed.

(** The level of a node's refilled bucket. *)
Lemma refill_levels t0 now o count total :
  events_ok t0 now o count -> bytes_ok t0 now o total ->
  let b := refill (default (fresh_budget now) o) now in
  milli_events b = level (TELEMETRY_BURST_EVENTS * 1000) 2 (events_of <$> o) now
  /\ budget_bytes b = level TELEMETRY_BURST_BYTES 1024 (bytes_of <$> o) now.
Proof.
  intros (_ & _ & He) (_ & _ & Hb). destruct o as [b|]; simpl in *; [|apply refill_fresh].
  apply refill_level; [split; tauto|tauto].
Qed.

Lemma admit_telemetry_ok t0 prev n budgets_ node_id size_ now ok budgets' count total :
  prev <= now -> 0 <= size_ ->
  events_ok t0 prev (budgets_ !! n) count -> bytes_ok t0 prev (budgets_ !! n) total ->
  admit_telemetry budgets_ node_id size_ now = (ok, budgets') ->
  let mine := (ok && bool_decide (node_id = n))%bool in
  events_ok t0 now (budgets' !! n) (if mine then count + 1 else count)
  /\ bytes_ok t0 now (budgets' !! n) (if mine then total + size_ else total).
Proof.
  intros Hn Hs He Hb. unfold admit_telemetry.
  destruct (retain_recent_ok t0 prev now budgets_ n count total Hn He Hb) as [He' Hb'].
  fold (recent now budgets_). cbv zeta. set (kept := recent now budgets_) in *. clearbody kept. clear He Hb.
  destruct (decide (node_id = n)) as [->|Ne].
  2: { rewrite (bool_decide_false (node_id = n)) by done.
       destruct (_ || _)%bool; intros [= <- <-]; simpl; by rewrite lookup_insert_ne. }
  destruct (refill_levels t0 now (kept !! n) count total He' Hb') as [L1 L2].
  set (b := refill _ now) in *. destruct caps_ok as [K1 K2].
  assert (updated b = now) as U by done. rewrite bool_decide_true by done.
  assert (forall cost, 0 <= cost <= milli_events b ->
    bucket_ok (TELEMETRY_BURST_EVENTS * 1000) 2 t0 now (Some (milli_events b - cost, now))
      (1000 * count + cost)) as S1.
  { intros cost Hc. rewrite L1 in *. by apply bucket_spend. }
  assert (forall cost, 0 <= cost <= budget_bytes b ->
    bucket_ok TELEMETRY_BURST_BYTES 1024 t0 now (Some (budget_bytes b - cost, now)) (total + cost)) as S2.
  { intros cost Hc. rewrite L2 in *. by apply bucket_spend. }
  assert (0 <= milli_events b /\ 0 <= budget_bytes b) as [P1 P2].
  { rewrite L1, L2. destruct He' as (_ & _ & He), Hb' as (_ & _ & Hb).
    destruct (kept !! n) as [b0|]; simpl in *; [|lia].
    pose proof (millis_nonneg (updated b0) now ltac:(tauto)). lia. }
  destruct (_ || _)%bool eqn:G; intros [= <- <-]; simpl; rewrite lookup_insert_eq; unfold events_ok, bytes_ok; simpl.
  - unfold events_of, bytes_of. rewrite U. specialize (S1 0 ltac:(lia)). specialize (S2 0 ltac:(lia)).
    rewrite Z.sub_0_r, Z.add_0_r in S1, S2. done.
  - rewrite orb_false_iff, !Z.ltb_ge in G. unfold events_of, bytes_of. simpl.
    specialize (S1 1000 ltac:(lia)). specialize (S2 size_ ltac:(lia)).
    replace (1000 * (count + 1)) with (1000 * count + 1000) by lia. done.
Qed.

Lemma admitted_ok t0 end_ n frames prev budgets_ count total :
  StronglySorted Z.le (prev :: (frame_time <$> frames)) -> Forall (fun f => frame_time f <= end_) frames ->
  Forall (fun f => 0 <= snd (fst f)) frames -> prev <= end_ ->
  events_ok t0 prev (budgets_ !! n) count -> bytes_ok t0 prev (budgets_ !! n) total ->
  let '(c, y) := admitted n budgets_ frames in
  1000 * (count + c) <= TELEMETRY_BURST_EVENTS * 1000 + 2 * millis t0 end_
  /\ total + y <= TELEMETRY_BURST_BYTES + 1024 * millis t0 end_.
Proof.
  revert prev budgets_ count total.
  induction frames as [|[[node_id size_] now] frames IH]; intros prev budgets_ count total Hs Hend Hsz Hp He Hb.
  - simpl. rewrite !Z.add_0_r. destruct caps_ok as [K1 K2].
    apply (bucket_advance _ _ K1 t0 prev end_) in He; [|done].
    apply (bucket_advance _ _ K2 t0 prev end_) in Hb; [|done].
    split; by eapply bucket_spent.
  - simpl in Hs. apply StronglySorted_inv in Hs as [Hs Hle].
    apply Forall_cons in Hle as [Hle _]. apply Forall_cons in Hend as [He1 Hend].
    apply Forall_cons in Hsz as [Hs1 Hsz]. simpl in *.
    destruct (admit_telemetry budgets_ node_id size_ now) as [ok budgets'] eqn:Ea.
    eapply (admit_telemetry_ok t0 prev n) in Ea as [He' Hb']; [|done..].
    specialize (IH now budgets' _ _ Hs Hend Hsz He1 He' Hb').
    destruct (admitted n budgets' frames) as [c y].
    destruct (ok && bool_decide (node_id = n))%bool; destruct IH as [IH1 IH2]; split; lia.
Qed.

(** No node exceeds its telemetry budget: whatever frames any nodes offer,
    and whenever idle buckets are forgotten, from [t0] on a node gets through
    at most the burst of 40 frames plus two per second, and 16 MiB plus one
    MiB per (1024-millisecond) second. *)
Theorem telemetry_rate_bounded t0 end_ n budgets_ frames :
  map_Forall (fun _ b => wf_budget b /\ updated b <= t0) budgets_ ->
  StronglySorted Z.le (t0 :: (frame_time <$> frames)) ->
  Forall (fun f => frame_time f <= end_ /\ 0 <= snd (fst f)) frames -> t0 <= end_ ->
  let '(count, total) := admitted n budgets_ frames in
  1000 * count <= TELEMETRY_BURST_EVENTS * 1000 + TELEMETRY_REFILL_EVENTS_PER_SECOND * millis t0 end_
  /\ total <= TELEMETRY_BURST_BYTES + TELEMETRY_REFILL_BYTES_PER_MILLI * millis t0 end_.
Proof.
  intros Hw Hs [Hend Hsz]%Forall_and Hp.
  assert (events_ok t0 t0 (budgets_ !! n) 0 /\ bytes_ok t0 t0 (budgets_ !! n) 0) as [He Hb].
  { unfold events_ok, bytes_ok, bucket_ok. destruct (budgets_ !! n) as [b|] eqn:E; simpl.
    - destruct (Hw _ _ E) as [[W1 W2] U]. repeat split; try lia; by left.
    - repeat split; try lia; by left. }
  exact (admitted_ok t0 end_ n frames t0 budgets_ 0 0 Hs Hend Hsz Hp He Hb).
Qed.

Lemma telemetry_rate_bounded_witness :
  let '(count, total) := admitted (be 16 1) ∅ [(be 16 1, 100, 5); (be 16 2, 50, 6); (be 16 1, 200, 7)] in
  1000 * count <= TELEMETRY_BURST_EVENTS * 1000 + TELEMETRY_REFILL_EVENTS_PER_SECOND * millis 0 10
  /\ total <= TELEMETRY_BURST_BYTES + TELEMETRY_REFILL_BYTES_PER_MILLI * millis 0 10.
Proof.
  apply (telemetry_rate_bounded 0 10 (be 16 1) ∅ [(be 16 1, 100, 5); (be 16 2, 50, 6); (be 16 1, 200, 7)]).
  - apply map_Forall_empty.
  - repeat constructor; simpl; lia.
  - repeat constructor; simpl; lia.
  - lia.
Defined.

Definition security_of (budgets_ : gmap bytes TelemetryBudget) (n : bytes) : option Z :=
  security_millis <$> budgets_ !! n.

(** Forgetting an idle bucket does change something: with 4096 buckets a
    node that spent its whole security allowance and then stayed silent for a
    minute gets all four frames of the burst back, where the same bucket with
    fewer buckets around has regained one. *)
Theorem idle_bucket_regains_security (budgets_ : gmap bytes TelemetryBudget) n b now :
  budgets_ !! n = Some b -> security_millis b = 0 -> duration_since now (updated b) = NANOS_PER_MINUTE ->
  security_of (snd (admit_telemetry budgets_ n 1 now)) n =
  Some (if Z.of_nat (size budgets_) >=? MAX_CONNECTIONS then SECURITY_TELEMETRY_BURST_MILLIS
        else SECURITY_TELEMETRY_FRAME_MILLIS).
Proof.
  intros Hb Hz Hd. unfold admit_telemetry, security_of. fold (recent now budgets_). cbv zeta.
  assert (forall o, security_millis (refill (default (fresh_budget now) o) now)
    = match o with None => SECURITY_TELEMETRY_BURST_MILLIS
      | Some b => Z.min (u64_saturating_add (security_millis b) (elapsed_millis now (updated b)))
                    SECURITY_TELEMETRY_BURST_MILLIS end) as Hs.
  { intros [x|]; [done|]. simpl. unfold elapsed_millis, duration_since. by rewrite Z.sub_diag. }
  assert (recent now budgets_ !! n =
    if Z.of_nat (size budgets_) >=? MAX_CONNECTIONS then None else Some b) as Hr.
  { unfold recent. destruct (_ >=? _); [|done]. apply map_lookup_filter_None. right.
    intros x Hx. rewrite Hb in Hx. injection Hx as <-. simpl. lia. }
  specialize (Hs (recent now budgets_ !! n)). set (r := refill _ now) in *. clearbody r.
  assert (security_millis r = if Z.of_nat (size budgets_) >=? MAX_CONNECTIONS
    then SECURITY_TELEMETRY_BURST_MILLIS else SECURITY_TELEMETRY_FRAME_MILLIS) as E.
  { rewrite Hs, Hr. destruct (_ >=? _); [done|]. rewrite Hz. unfold elapsed_millis. by rewrite Hd. }
  destruct (_ || _)%bool; simpl; rewrite lookup_insert_eq; simpl; by rewrite E.
Qed.

(** A crowd of buckets, the first one exhausted. *)
Definition crowd (size_ : nat) (b : TelemetryBudget) : gmap bytes TelemetryBudget :=
  list_to_map ((fun i => (repeat x41 i, b)) <$> seq 0 size_).

Lemma crowd_size k b : size (crowd k b) = k.
Proof.
  unfold crowd. rewrite map_size_list_to_map.
  - by rewrite length_fmap, length_seq.
  - rewrite <- list_fmap_compose. apply NoDup_fmap_2; [|apply NoDup_seq].
    intros i j E. simpl in E. apply (f_equal length) in E. by rewrite !repeat_length in E.
Qed.

Lemma idle_bucket_regains_security_witness :
  security_of (snd (admit_telemetry (crowd 4096 (mkTelemetryBudget 0 0 0 0)) [] 1 NANOS_PER_MINUTE)) []
  = Some SECURITY_TELEMETRY_BURST_MILLIS.
Proof.
  rewrite (idle_bucket_regains_security (crowd 4096 (mkTelemetryBudget 0 0 0 0)) []
    (mkTelemetryBudget 0 0 0 0) NANOS_PER_MINUTE).
  - rewrite crowd_size. by vm_compute.
  - change 4096%nat with (S 4095). unfold crowd. by rewrite <- cons_seq, fmap_cons, list_to_map_cons, lookup_insert_eq.
  - done.
  - done.
Defined.
