(* ===== verification/FenceTheorems.v ===== *)
(** Owner fencing in the transport daemon: a node's registered term only moves
    forward, whatever handlers interleave; a command or an operation is let
    through only under the registered term, bound to it by the Controller;
    and closing a node defeats every registration under way. *)

From stdpp Require Import base list gmap numbers countable strings relations.
From Stdlib Require Import ZArith Lia Bool Strings.Byte.
From S2P Require Import Prelude Bytes Text Contracts ConfigProfile Authorization.
From S2P Require Import CommandAuthorization TranscriptFacts SignedAuthority Trust Transport.

Local Open Scope Z_scope.

Section Fences.
Context `{Crypto} `{Entropy}.

(** The fence of [node] that the Controller's keyring verified at some
    instant. *)
Definition verified_for (s : Shared) (node : bytes) (f : RegisteredFence) : Prop :=
  exists ring now, sh_keyring s = Some ring
    /\ verify_connection_fence_v2_at ring (rf_fence f) node (rf_endpoint_id f)
         (now_seconds now) (now_nanos now) = Ok (rf_verified f).

(** The atomic segments of the handlers and tasks. *)
Inductive transport_step : Shared -> Shared -> Prop :=
| T_invalidate s node : transport_step s (invalidate_token node s)
| T_take s node reason : transport_step s (snd (take_session node reason s))
| T_record s node f : verified_for s node f -> transport_step s (snd (record_owner_fence node f s))
| T_register s entry token :
    (forall f, rc_fence entry = Some f -> verified_for s (nc_node_id (rc_metadata entry)) f) ->
    transport_step s (snd (register_session entry token s))
| T_finish s node c : transport_step s (finish_session node c s)
| T_policy s e n st r : transport_step s (set_policy (snd (policy_update (sh_policy s) e n st r)) s)
| T_snapshot s l : transport_step s (set_policy (snd (replace_snapshot (sh_policy s) l)) s)
| T_hold s node : transport_step s (snd (hold_token node s))
| T_drop s token : transport_step s (drop_token token s)
| T_watch s after : transport_step s (snd (watch_events after s))
| T_publish s routine e : transport_step s (publish_as routine e s)
| T_admit s node c l m now : transport_step s (snd (admit_frame node c l m now s))
| T_batch s node c payload claims : transport_step s (publish_batch node c payload claims s)
| T_agent_event s node c e now : transport_step s (publish_agent_event node c e now s)
| T_lease s node c now : transport_step s (snd (lease_tick node c now s))
| T_close s c code reason : transport_step s (close c code reason s)
| T_shutdown s : transport_step s (shutdown s).

Definition transport_run : Shared -> Shared -> Prop := rtc transport_step.

Lemma fixed16_ok v a : fixed16 v = Ok a -> a = v.
Proof. unfold fixed16. case_bool_decide; [|done]. by intros [= ->]. Qed.

Lemma remove_run node reason s : transport_run s (snd (remove node reason s)).
Proof. eapply rtc_l; [apply (T_invalidate s node)|]. apply rtc_once, T_take. Qed.

(** The handlers are runs of these steps: what they record was verified
    first. *)
Lemma verify_owner_fence_verified s fence now lnow node f :
  verify_owner_fence s fence now lnow = Ok (node, f) -> verified_for s node f.
Proof.
  unfold verify_owner_fence, keyring, verified_for. intros E. invert_ok E. subst.
  repeat match goal with
         | G : map_err _ _ = Ok _ |- _ => apply map_err_ok in G
         | G : ok_or _ _ = Ok _ |- _ => apply ok_or_Some in G
         | G : fixed16 _ = Ok _ |- _ => apply fixed16_ok in G
         end. subst. eauto.
Qed.

Lemma verify_session_fence_verified s c node fence now lnow f :
  verify_session_fence s c node fence now lnow = Ok (Some f) -> verified_for s node f.
Proof.
  unfold verify_session_fence, keyring, verified_for. intros E. invert_ok E. subst.
  repeat match goal with
         | G : map_err _ _ = Ok _ |- _ => apply map_err_ok in G
         | G : ok_or _ _ = Ok _ |- _ => apply ok_or_Some in G
         end. eauto.
Qed.

Lemma register_owner_fence_run fence now lnow s :
  transport_run s (snd (register_owner_fence fence now lnow s)).
Proof.
  unfold register_owner_fence. destruct (verify_owner_fence s fence now lnow) as [[node f]|] eqn:E; [|done].
  apply verify_owner_fence_verified in E. pose proof (T_record _ _ _ E) as Hst.
  destruct (record_owner_fence node f s) as [[[[] e]|] s1]; simpl in *; try (by apply rtc_once).
  eapply rtc_l; [exact Hst|]. unfold retire_superseded_owner. destruct (superseded node f s1); [|done].
  apply remove_run.
Qed.

Lemma close_node_run node reason b now lnow s :
  transport_run s (snd (close_node node reason b now lnow s)).
Proof.
  unfold close_node. cbv zeta. case_match eqn:E; [|done]. pose proof (remove_run a reason s) as R.
  by destruct (remove a reason s) as [[|] s1].
Qed.

Lemma update_node_trust_run request now lnow s :
  transport_run s (snd (update_node_trust request now lnow s)).
Proof.
  unfold update_node_trust. cbv zeta. case_match eqn:E; [|done]. destruct a as [node st].
  pose proof (T_policy s (unt_endpoint_id request) node st (unt_revision request)) as Hst.
  destruct (policy_update _ _ _ _ _) as [d policy]. cbn [snd] in *. eapply rtc_l; [exact Hst|].
  clear E. destruct (_ && _); [|done]. apply remove_run.
Qed.

Definition epoch (f : RegisteredFence) : Z := vcf_owner_epoch (rf_verified f).
Definition fence_id (f : RegisteredFence) : bytes := vcf_fence_id (rf_verified f).

(** [g] is no older a term than [f], and no other fence of the same epoch. *)
Definition term_le (f g : RegisteredFence) : Prop :=
  epoch f <= epoch g /\ (epoch f = epoch g -> fence_id f = fence_id g).

#[export] Instance term_le_preorder : PreOrder term_le.
Proof.
  split; [by split|]. intros f g h [H1 H2] [H3 H4]. split; [lia|]. intros E.
  rewrite H2 by lia. apply H4. lia.
Qed.

(** What no step takes back. *)
Record keeps_terms (s s' : Shared) : Prop := {
  kt_keyring : sh_keyring s' = sh_keyring s;
  kt_fencing : sh_require_fencing s' = sh_require_fencing s;
  kt_terms node f : sh_fences s !! node = Some f ->
    exists g, sh_fences s' !! node = Some g /\ term_le f g;
  kt_new node g : sh_fences s' !! node = Some g ->
    sh_fences s !! node = Some g \/ verified_for s node g }.

Lemma keeps_terms_same s s' :
  sh_keyring s' = sh_keyring s -> sh_require_fencing s' = sh_require_fencing s ->
  sh_fences s' = sh_fences s -> keeps_terms s s'.
Proof.
  intros E1 E2 E3. split; [done|done| |].
  - intros node f Hf. exists f. rewrite E3. done.
  - intros node g Hg. left. by rewrite <- E3.
Qed.

#[export] Instance keeps_terms_preorder : PreOrder keeps_terms.
Proof.
  split; [intros s; by apply keeps_terms_same|].
  intros s1 s2 s3 [A1 B1 C1 D1] [A2 B2 C2 D2]. split; [congruence|congruence| |].
  - intros node f (g & Hg & Hfg)%C1. destruct (C2 _ _ Hg) as (h & Hh & Hgh).
    exists h. split; [done|]. by etransitivity.
  - intros node g [Hg|(ring & now & E & Hv)]%D2; [by apply D1|]. right. exists ring, now.
    split; [congruence|done].
Qed.

(** A decision to record a fence advances the term. *)
Lemma fence_decision_advances existing f :
  fence_registration_decision existing f = FenceApply \/ fence_registration_decision existing f = FenceRefresh ->
  forall g, existing = Some g -> term_le g f.
Proof.
  intros Hd g ->. unfold fence_registration_decision in Hd. unfold term_le, epoch, fence_id.
  destruct (Z.gtb_spec (vcf_owner_epoch (rf_verified g)) (vcf_owner_epoch (rf_verified f))) as [G|G];
    [by destruct Hd|].
  split; [lia|]. intros E. rewrite E, Z.eqb_refl in Hd. simpl in Hd.
  case_bool_decide; [by destruct Hd|done].
Qed.

Lemma insert_fence_keeps s node f :
  verified_for s node f -> (forall g, sh_fences s !! node = Some g -> term_le g f) ->
  keeps_terms s (set_fences (<[node := f]> (sh_fences s)) s).
Proof.
  intros Hv Ht. split; [done|done| |]; simpl.
  - intros node' g Hg. destruct (decide (node' = node)) as [->|Ne].
    + exists f. rewrite lookup_insert_eq. auto.
    + exists g. rewrite lookup_insert_ne by done. done.
  - intros node' g [[<- <-]|[Ne Hg]]%lookup_insert_Some; auto.
Qed.

Lemma record_owner_fence_keeps s node f :
  verified_for s node f -> keeps_terms s (snd (record_owner_fence node f s)).
Proof.
  intros Hv. unfold record_owner_fence. destruct (sh_fences s !! node) as [g|] eqn:Eg.
  - destruct (_ >? _); [reflexivity|].
    destruct (fence_registration_decision (Some g) f) eqn:Ed; try reflexivity;
      (apply insert_fence_keeps; [done|]); rewrite Eg; apply fence_decision_advances; auto.
  - apply insert_fence_keeps; [done|]. by rewrite Eg.
Qed.

Lemma take_session_keeps s node reason : keeps_terms s (snd (take_session node reason s)).
Proof. apply keeps_terms_same; unfold take_session; simpl; by destruct (sh_connections s !! node). Qed.

Lemma registration_token_keeps s node : keeps_terms s (snd (registration_token node s)).
Proof. apply keeps_terms_same; unfold registration_token; by destruct (filter _ _ !! node). Qed.

Lemma verified_for_keeps s s' node f : keeps_terms s s' -> verified_for s node f -> verified_for s' node f.
Proof. intros K (ring & now & E & Hv). exists ring, now. rewrite (kt_keyring _ _ K). done. Qed.

Lemma admit_session_fence_keeps s node c fence :
  (forall f, fence = Some f -> verified_for s node f) ->
  match admit_session_fence node c fence s with
  | Ok s' | Err (_, s') => keeps_terms s s'
  end.
Proof.
  intros Hv. unfold admit_session_fence. destruct fence as [f|]; [|reflexivity].
  destruct (fence_registration_decision (sh_fences s !! node) f) eqn:Ed; try (by apply keeps_terms_same);
    (apply insert_fence_keeps; [by apply Hv|]); apply fence_decision_advances; auto.
Qed.

Lemma register_session_keeps s entry token :
  (forall f, rc_fence entry = Some f -> verified_for s (nc_node_id (rc_metadata entry)) f) ->
  keeps_terms s (snd (register_session entry token s)).
Proof.
  intros Hv. unfold register_session. destruct (policy_revoked _ _); [by apply keeps_terms_same|].
  set (node := nc_node_id (rc_metadata entry)) in *.
  pose proof (registration_token_keeps s node) as Kt.
  destruct (registration_token node s) as [current s1]. simpl in Kt. etransitivity; [exact Kt|].
  destruct (negb _); [by apply keeps_terms_same|].
  pose proof (admit_session_fence_keeps s1 node (rc_connection entry) (rc_fence entry)) as Kf.
  destruct (admit_session_fence _ _ _ s1) as [s2|[reason s2]]; simpl.
  - etransitivity; [apply Kf; eauto using verified_for_keeps|]. unfold install_session.
    apply keeps_terms_same; by destruct (sh_connections s2 !! node).
  - apply Kf. eauto using verified_for_keeps.
Qed.

Lemma transport_step_keeps s s' : transport_step s s' -> keeps_terms s s'.
Proof.
  destruct 1; try (by apply keeps_terms_same).
  - apply take_session_keeps.
  - by apply record_owner_fence_keeps.
  - by apply register_session_keeps.
  - apply keeps_terms_same; unfold finish_session; destruct (sh_connections s !! node); try done;
      by destruct (_ =? _).
  - etransitivity; [apply (registration_token_keeps s node)|]. unfold hold_token.
    destruct (registration_token node s). by apply keeps_terms_same.
  - apply keeps_terms_same; unfold watch_events; repeat (case_match; try done).
  - apply keeps_terms_same; unfold admit_frame; repeat (case_match; try done).
  - apply keeps_terms_same; unfold publish_batch; repeat (case_match; simplify_eq; try done).
  - apply keeps_terms_same; unfold publish_agent_event; repeat (case_match; try done).
  - apply keeps_terms_same; unfold lease_tick; repeat (case_match; try done).
Qed.

Lemma transport_run_keeps s s' : transport_run s s' -> keeps_terms s s'.
Proof.
  induction 1 as [|s1 s2 s3 Hst _ IH]; [reflexivity|].
  etransitivity; [by apply transport_step_keeps|exact IH].
Qed.

(** The fences of a state were verified for their nodes. *)
Definition fences_verified (s : Shared) : Prop :=
  forall node f, sh_fences s !! node = Some f -> verified_for s node f.

(** * Terms in force *)

(** The instant [(s, n)], in seconds and nanoseconds, precedes [(s', n')]. *)
Definition earlier (s n s' n' : Z) : Prop := s < s' \/ (s = s' /\ n < n').

Lemma pair_leb_earlier a b c d : pair_leb a b c d = false -> earlier c d a b.
Proof. unfold pair_leb, earlier. lia. Qed.

(** An owner term and the binding of one operation to it, as the Controller
    signed them for a node and an endpoint: the binding names the term's fence,
    owner, incarnation, epoch, connection and revision, its capability is one
    the term grants, neither has expired at the instant [(s, n)], and at
    [(ls, ln)] the term's lease is still running. *)
Record in_force (signed : Statement -> Prop) (node endpoint : bytes) (s n ls ln : Z)
    (term : ConnectionFenceClaimsV2) (binding : FenceBindingClaimsV2) : Prop := {
  if_term : signed (SFence term);
  if_binding : signed (SBinding binding);
  if_nodes : cfc_node_id term = node /\ fbc_node_id binding = node;
  if_endpoints : cfc_endpoint_id term = endpoint /\ fbc_endpoint_id binding = endpoint;
  if_fence_id : fbc_fence_id binding = cfc_fence_id term;
  if_owner : fbc_owner_instance_id binding = cfc_owner_instance_id term;
  if_incarnation : fbc_owner_incarnation binding = cfc_owner_incarnation term;
  if_epoch : fbc_owner_epoch binding = cfc_owner_epoch term;
  if_connection : fbc_connection_id binding = cfc_connection_id term;
  if_revision : fbc_authorization_revision binding = cfc_authorization_revision term;
  if_capability : fbc_capability binding ∈ cfc_capabilities term;
  if_term_expiry : earlier s n (cfc_expires_at_seconds term) (cfc_expires_at_nanos term);
  if_binding_expiry : earlier s n (fbc_expires_at_seconds binding) (fbc_expires_at_nanos binding);
  if_lease : earlier ls ln (cfc_lease_until_seconds term) (cfc_lease_until_nanos term) }.

(** What a verified fence keeps of the claims it was verified from. *)
Record verified_of (vf : VerifiedConnectionFenceV2) (fc : ConnectionFenceClaimsV2) : Prop := {
  vo_fence_id : vcf_fence_id vf = cfc_fence_id fc;
  vo_epoch : vcf_owner_epoch vf = cfc_owner_epoch fc;
  vo_revision : vcf_authorization_revision vf = cfc_authorization_revision fc;
  vo_owner : vcf_owner_instance_id vf = cfc_owner_instance_id fc;
  vo_incarnation : vcf_owner_incarnation vf = cfc_owner_incarnation fc;
  vo_connection : vcf_connection_id vf = cfc_connection_id fc }.

Lemma verified_in_force ring signed f b node endpoint s n ls ln vf c :
  unforged ring signed -> wf_fence f -> wf_binding b ->
  verify_connection_fence_v2_at ring f node endpoint s n = Ok vf ->
  verify_fence_binding_v2_at ring b node endpoint s n = Ok c ->
  matches_fence c vf = true -> fbc_capability c ∈ vcf_capabilities vf ->
  pair_leb (vcf_lease_until_seconds vf) (vcf_lease_until_nanos vf) ls ln = false ->
  exists fc, in_force signed node endpoint s n ls ln fc c /\ verified_of vf fc.
Proof.
  intros Hu Wf Wb (fc & k1 & m1 & u1 & F1 & K1 & Nf & Ef & X1 & M1 & S1 & ->)%verify_fence_ok
    (k2 & m2 & u2 & F2 & K2 & Nb & Eb & X2 & M2 & S2)%verify_binding_ok Hm Hc HL.
  unfold matches_fence in Hm. cbn in Hm, Hc, HL. split_guards. apply pair_leb_earlier in HL.
  apply pair_leb_earlier in X1, X2. exists fc. split; [|done].
  split; try done; try lia.
  - exact (check_signature_signed _ _ _ _ _ _ _ (SFence fc) Hu K1 S1 (connection_fence_claims_wf _ _ Wf F1) M1).
  - exact (check_signature_signed _ _ _ _ _ _ _ (SBinding c) Hu K2 S2 (fence_binding_claims_wf _ _ Wb F2) M2).
Qed.

Lemma verified_binding_signed ring signed b node endpoint s n c :
  unforged ring signed -> wf_binding b ->
  verify_fence_binding_v2_at ring b node endpoint s n = Ok c ->
  signed (SBinding c) /\ fbc_node_id c = node /\ fbc_endpoint_id c = endpoint.
Proof.
  intros Hu Wb (k & m & u & F & K & N & E & _ & M & S)%verify_binding_ok. split; [|done].
  exact (check_signature_signed _ _ _ _ _ _ _ (SBinding c) Hu K S (fence_binding_claims_wf _ _ Wb F) M).
Qed.

(** C21. A node's owner term only moves forward: across any interleaving of the
    daemon's handlers and tasks the registered epoch of a node never
    decreases, no two fences ever share an epoch, a registered fence never
    disappears, and every fence that enters was verified for that node by the
    Controller's keyring. *)
Theorem owner_terms_monotone s s' :
  transport_run s s' -> fences_verified s ->
  fences_verified s'
  /\ forall node f, sh_fences s !! node = Some f ->
       exists g, sh_fences s' !! node = Some g /\ epoch f <= epoch g
         /\ (epoch f = epoch g -> fence_id f = fence_id g).
Proof.
  intros K%transport_run_keeps Hv. split; [|exact (kt_terms _ _ K)].
  intros node g [Hg|Hg]%(kt_new _ _ K); eapply verified_for_keeps; eauto.
Qed.

(** * Dispatch *)

Lemma same_fence_term_epoch a b :
  same_fence_term a b = true -> vcf_owner_epoch a = vcf_owner_epoch b /\ vcf_fence_id a = vcf_fence_id b.
Proof. unfold same_fence_term. intros E. split_guards. split; [lia|done]. Qed.

Lemma matches_fence_epoch c v :
  matches_fence c v = true -> fbc_owner_epoch c = vcf_owner_epoch v /\ fbc_fence_id c = vcf_fence_id v.
Proof. unfold matches_fence. intros E. split_guards. split; [lia|done]. Qed.

(** What a fenced command carries: the fence and the binding the keyring
    verified for the node and the session's endpoint, the binding naming this
    very command and its capability, under a lease that has not ended. *)
Definition command_carries (ring : ControllerCommandKeyring) (node endpoint : bytes)
    (command : CommandEnvelope) (now lease_now : Clock) (verified : VerifiedConnectionFenceV2)
    (claims : FenceBindingClaimsV2) : Prop :=
  exists fence binding,
    env_connection_fence command = Some fence /\ env_fence_binding command = Some binding
    /\ verify_connection_fence_v2_at ring fence node endpoint (now_seconds now) (now_nanos now) = Ok verified
    /\ verify_fence_binding_v2_at ring binding node endpoint (now_seconds now) (now_nanos now) = Ok claims
    /\ fbc_operation_kind claims = FenceOperationKind_value OperationCommand
    /\ fbc_operation_id claims = env_command_id command
    /\ fbc_capability claims = env_required_capability command
    /\ fbc_capability claims ∈ vcf_capabilities verified
    /\ lease_expired_at lease_now (vcf_lease_until_seconds verified) (vcf_lease_until_nanos verified) = false.

Lemma verify_command_carriers_ok ring node endpoint command now lease_now verified claims :
  verify_command_carriers ring node endpoint command now lease_now = Ok (verified, claims) ->
  command_carries ring node endpoint command now lease_now verified claims.
Proof.
  unfold verify_command_carriers. intros E.
  destruct (env_connection_fence command) as [fence|] eqn:Ef; [|done].
  destruct (env_fence_binding command) as [binding|] eqn:Eb; [|done]. invert_ok E.
  apply map_err_ok in Hstep, Hstep0. subst. stable_guards.
  exists fence, binding. rewrite Ef, Eb. repeat (split; [first [done|lia]|]). done.
Qed.

Lemma verify_command_fence_ok s node command session now lease_now u :
  verify_command_fence s node command session now lease_now = Ok u ->
  match session with
  | None => env_connection_fence command = None /\ env_fence_binding command = None
            /\ sh_require_fencing s = false /\ sh_fences s !! node = None
  | Some session => exists ring verified claims registered,
      sh_keyring s = Some ring
      /\ command_carries ring node (rf_endpoint_id session) command now lease_now verified claims
      /\ sh_fences s !! node = Some registered
      /\ same_fence_term (rf_verified registered) verified = true
      /\ same_fence_term (rf_verified session) verified = true
      /\ matches_fence claims verified = true
  end.
Proof.
  unfold verify_command_fence. intros E. destruct session as [session|].
  - invert_ok E. subst. apply verify_command_carriers_ok in Hstep1.
    unfold keyring in Hstep. apply ok_or_Some in Hstep, Hstep3. split_guards. apply fixed16_ok in Hstep0 as ->.
    eexists _, _, _, _. by repeat (split; [done|]).
  - invert_ok E. apply fixed16_ok in Hstep as ->. split_guards.
    repeat match goal with G : is_none ?o = true |- _ => destruct o; [done|]; clear G end. done.
Qed.

Lemma validate_command_dispatch_ok s1 s2 node command size_ now vnow lnow conn max :
  validate_command_dispatch s1 s2 node command size_ now vnow lnow = Ok (conn, max) ->
  exists entry,
    sh_connections s1 !! node = Some entry /\ conn = rc_connection entry
    /\ rc_session_mode entry = AuthorizedV11
    /\ env_required_capability command ∈ rc_negotiated_capabilities entry
    /\ (rc_authorization_revision entry = 0
        \/ env_expected_revision command = rc_authorization_revision entry)
    /\ (forall t, rc_session_expires_at entry = Some t -> system_time now < t)
    /\ size_ <= rc_max_message_size entry
    /\ verify_command_fence s2 node command (rc_fence entry) vnow lnow = Ok tt.
Proof.
  unfold validate_command_dispatch. intros E. invert_ok E. subst.
  apply ok_or_Some in Hstep. exists a. destruct a0. split; [done|]. split; [done|].
  split; [apply bool_decide_eq_false in Hguard; by destruct (rc_session_mode a)|].
  split; [split_guards; done|]. split; [lia|].
  split; [intros t Et; rewrite Et in Hguard2; lia|]. split; [lia|done].
Qed.

(** C22. A command reaches the Agent only under the registered owner term: an
    accepted dispatch goes to a mutation-capable session that negotiated the
    capability, at the session's revision, before its grant ends and within
    its message size; and when a fence is registered for the node, the
    Controller signed that very term (its fence and epoch) and a binding of
    this very command and capability to it, for this node and the session's
    endpoint, the term grants the capability, neither the fence nor the binding
    has expired at the clock read for their verification, and the signed lease
    has not ended at the clock read for it.  Without a registered fence the
    session and the command are fence-less and fencing is not required. *)
Theorem dispatch_requires_owner_term signed s1 s2 node command size_ now vnow lnow conn max :
  (forall ring, sh_keyring s2 = Some ring -> unforged ring signed) ->
  (forall f, env_connection_fence command = Some f -> wf_fence f) ->
  (forall b, env_fence_binding command = Some b -> wf_binding b) ->
  validate_command_dispatch s1 s2 node command size_ now vnow lnow = Ok (conn, max) ->
  exists entry,
    sh_connections s1 !! node = Some entry /\ conn = rc_connection entry
    /\ rc_session_mode entry = AuthorizedV11
    /\ env_required_capability command ∈ rc_negotiated_capabilities entry
    /\ (rc_authorization_revision entry = 0
        \/ env_expected_revision command = rc_authorization_revision entry)
    /\ (forall t, rc_session_expires_at entry = Some t -> system_time now < t)
    /\ size_ <= rc_max_message_size entry
    /\ match sh_fences s2 !! node with
       | None => rc_fence entry = None /\ sh_require_fencing s2 = false
                 /\ env_connection_fence command = None /\ env_fence_binding command = None
       | Some registered => exists session term claims,
           rc_fence entry = Some session
           /\ in_force signed node (rf_endpoint_id session) (now_seconds vnow) (now_nanos vnow)
                (now_seconds lnow) (now_nanos lnow) term claims
           /\ cfc_owner_epoch term = epoch registered /\ cfc_fence_id term = fence_id registered
           /\ epoch session = epoch registered /\ fence_id session = fence_id registered
           /\ fbc_operation_kind claims = FenceOperationKind_value OperationCommand
           /\ fbc_operation_id claims = env_command_id command
           /\ fbc_capability claims = env_required_capability command
       end.
Proof.
  intros Hu Wf Wb (entry & H1 & H2 & H3 & H4 & H5 & H6 & H7 & Hf)%validate_command_dispatch_ok.
  exists entry. repeat (split; [done|]). apply verify_command_fence_ok in Hf.
  destruct (rc_fence entry) as [session|].
  - destruct Hf as (ring & verified & claims & registered & Hk & Hc & -> & Hr & Hs & Hm).
    destruct Hc as (fence & binding & Ef & Eb & Vf & Vb & K & O & C & In & L).
    destruct (verified_in_force _ signed _ _ _ _ _ _ _ _ _ _ (Hu _ Hk) (Wf _ Ef) (Wb _ Eb) Vf Vb Hm In L)
      as (fc & HF & [I1 E1 _ _ _ _]).
    apply same_fence_term_epoch in Hr as [Er Ir], Hs as [Es Is].
    exists session, fc, claims. unfold epoch, fence_id. repeat (split; [congruence|]). done.
  - destruct Hf as (E1 & E2 & E3 & ->). done.
Qed.

(** C23. A superseded owner cannot dispatch: once a term is registered for a
    node, then however the daemon's state moves on, every command it accepts
    for that node later carries a binding the Controller signed to that term
    or to a later one, never to an earlier epoch and never to another fence
    of the same epoch. *)
Theorem superseded_owner_cannot_dispatch signed s s1 s2 node f command size_ now vnow lnow conn max :
  (forall ring, sh_keyring s2 = Some ring -> unforged ring signed) ->
  (forall b, env_fence_binding command = Some b -> wf_binding b) ->
  sh_fences s !! node = Some f -> transport_run s s2 ->
  validate_command_dispatch s1 s2 node command size_ now vnow lnow = Ok (conn, max) ->
  exists claims, signed (SBinding claims) /\ fbc_operation_id claims = env_command_id command
    /\ epoch f <= fbc_owner_epoch claims
    /\ (epoch f = fbc_owner_epoch claims -> fence_id f = fbc_fence_id claims).
Proof.
  intros Hu Wb Hf K%transport_run_keeps (entry & _ & _ & _ & _ & _ & _ & _ & Hd)%validate_command_dispatch_ok.
  destruct (kt_terms _ _ K _ _ Hf) as (g & Hg & Hle & Heq). apply verify_command_fence_ok in Hd.
  destruct (rc_fence entry) as [session|]; [|destruct Hd as (_ & _ & _ & Hn); congruence].
  destruct Hd as (ring & verified & claims & registered & Hk & Hc & Hr & Ht & _ & Hm).
  destruct Hc as (fence & binding & _ & Eb & _ & Vb & _ & O & _).
  destruct (verified_binding_signed _ signed _ _ _ _ _ _ (Hu _ Hk) (Wb _ Eb) Vb) as (Sb & _ & _).
  apply same_fence_term_epoch in Ht as [Er Ir]. apply matches_fence_epoch in Hm as [Em Im].
  assert (registered = g) as -> by congruence. unfold epoch, fence_id in *.
  exists claims. split; [done|]. split; [done|]. split; [lia|]. intros E. rewrite Im, <- Ir. apply Heq. lia.
Qed.
(** * Operations *)

(** Closing a node, updating its trust and moving its artifacts happen
    only under the registered owner term: an admitted operation carries a
    binding the Controller signed for this node, this kind of operation and
    this very operation, to the registered term, whose capability the owner
    holds and whose lease has not ended; an artifact moves only over a session
    of that same term.  Without a registered fence only an unbound operation
    passes, and only while fencing is not required. *)
Theorem operation_requires_owner_term signed s node hint session binding kind op now lnow r :
  (forall ring, sh_keyring s = Some ring -> unforged ring signed) ->
  (forall b, binding = Some b -> wf_binding b) ->
  verify_operation_binding s node hint session binding kind op now lnow = Ok r ->
  r = sh_fences s !! node
  /\ match r with
     | None => binding = None /\ sh_require_fencing s = false
     | Some registered => exists claims,
         signed (SBinding claims) /\ fbc_node_id claims = node
         /\ fbc_endpoint_id claims = default (rf_endpoint_id registered) hint
         /\ fbc_owner_epoch claims = epoch registered /\ fbc_fence_id claims = fence_id registered
         /\ fbc_operation_kind claims = FenceOperationKind_value kind
         /\ fbc_operation_id claims = op
         /\ fbc_capability claims ∈ vcf_capabilities (rf_verified registered)
         /\ lease_expired_at lnow (vcf_lease_until_seconds (rf_verified registered))
              (vcf_lease_until_nanos (rf_verified registered)) = false
         /\ match session with
            | None => kind <> OperationArtifact
            | Some f => rf_endpoint_id f = fbc_endpoint_id claims
                        /\ same_fence_term (rf_verified f) (rf_verified registered) = true
            end
     end.
Proof.
  intros Hu Wb E. unfold verify_operation_binding in E.
  destruct (fixed16 node) as [a|] eqn:Ea; [|done]. apply fixed16_ok in Ea as ->.
  cbn beta iota in E. destruct (sh_fences s !! node) as [registered|] eqn:Ef.
  - destruct (ok_or binding _) as [b|] eqn:Eb; [|done]. apply ok_or_Some in Eb as ->.
    unfold keyring in E. destruct (ok_or (sh_keyring s) _) as [ring|] eqn:Ek; [|done].
    apply ok_or_Some in Ek. cbn beta iota zeta in E.
    destruct (map_err _ _) as [claims|] eqn:Ec; [|done]. apply map_err_ok in Ec.
    destruct (verified_binding_signed _ signed _ _ _ _ _ _ (Hu _ Ek) (Wb _ eq_refl) Ec) as (Sb & Nb & Pb).
    destruct session as [f|]; invert_ok E; subst r; stable_guards;
      match goal with G : matches_fence _ _ = true |- _ => apply matches_fence_epoch in G as [Em Im] end;
      (split; [done|]); exists claims; repeat (split; [first [done|lia|congruence]|]); done.
  - destruct (is_none binding && negb (sh_require_fencing s)) eqn:G; [|done]. injection E as <-.
    apply andb_true_iff in G as [G1 G2%negb_true_iff]. split; [done|]. by destruct binding.
Qed.

(** * Registration tokens *)

(** No token has been given out that is still to come. *)
Definition tokens_allocated (s : Shared) : Prop :=
  forall node t, sh_tokens s !! node = Some t -> (t < sh_next_token s)%nat.

(** [t] was given out, and is no longer the token of [node]. *)
Definition retired (node : bytes) (t : nat) (s : Shared) : Prop :=
  (t < sh_next_token s)%nat /\ sh_tokens s !! node <> Some t.

(** How tokens move: the counter grows, and a node's token is kept, dropped or
    fresh. *)
Record tokens_advance (s s' : Shared) : Prop := {
  ta_next : (sh_next_token s <= sh_next_token s')%nat;
  ta_token node t : sh_tokens s' !! node = Some t ->
    sh_tokens s !! node = Some t \/ (sh_next_token s <= t < sh_next_token s')%nat }.

#[export] Instance tokens_advance_preorder : PreOrder tokens_advance.
Proof.
  split; [split; auto|]. intros s1 s2 s3 [A1 B1] [A2 B2]. split; [lia|].
  intros node t [[Ht|?]%B1|?]%B2; [by left|right; lia|right; lia].
Qed.

Lemma tokens_advance_same s s' :
  sh_tokens s' = sh_tokens s -> sh_next_token s' = sh_next_token s -> tokens_advance s s'.
Proof. intros E1 E2. split; [lia|]. intros node t. rewrite E1. auto. Qed.

Lemma registration_token_advance node s : tokens_advance s (snd (registration_token node s)).
Proof.
  unfold registration_token.
  destruct (filter _ (sh_tokens s) !! node) as [t|] eqn:E; (split; simpl; [lia|]).
  - intros n u [Hu _]%map_lookup_filter_Some. by left.
  - intros n u [[<- <-]|[Ne [Hu _]%map_lookup_filter_Some]]%lookup_insert_Some; [right; lia|by left].
Qed.

Lemma registration_token_current node s :
  let '(t, s') := registration_token node s in
  sh_tokens s !! node = Some t \/ (t = sh_next_token s).
Proof.
  unfold registration_token.
  destruct (filter _ (sh_tokens s) !! node) as [t|] eqn:E; [|by right].
  left. by apply map_lookup_filter_Some in E as [E _].
Qed.

Lemma invalidate_advance node s : tokens_advance s (invalidate_token node s).
Proof. split; simpl; [lia|]. intros n t [_ Ht]%lookup_delete_Some. by left. Qed.

Lemma register_session_advance entry token s : tokens_advance s (snd (register_session entry token s)).
Proof.
  unfold register_session. destruct (policy_revoked _ _); [by apply tokens_advance_same|].
  pose proof (registration_token_advance (nc_node_id (rc_metadata entry)) s) as K.
  destruct (registration_token _ s) as [current s1]. simpl in K. etransitivity; [exact K|].
  apply tokens_advance_same; unfold admit_session_fence, install_session;
    repeat (case_match; simplify_eq; try done).
Qed.

Lemma transport_step_tokens s s' : transport_step s s' -> tokens_advance s s'.
Proof.
  destruct 1; try (by apply tokens_advance_same).
  - apply invalidate_advance.
  - apply tokens_advance_same; unfold take_session; simpl; by destruct (sh_connections s !! node).
  - apply tokens_advance_same; unfold record_owner_fence; repeat (case_match; try done).
  - apply register_session_advance.
  - apply tokens_advance_same; unfold finish_session; repeat (case_match; try done).
  - etransitivity; [apply (registration_token_advance node)|]. unfold hold_token.
    destruct (registration_token node s). by apply tokens_advance_same.
  - apply tokens_advance_same; unfold watch_events; repeat (case_match; try done).
  - apply tokens_advance_same; unfold admit_frame; repeat (case_match; try done).
  - apply tokens_advance_same; unfold publish_batch; repeat (case_match; simplify_eq; try done).
  - apply tokens_advance_same; unfold publish_agent_event; repeat (case_match; try done).
  - apply tokens_advance_same; unfold lease_tick; repeat (case_match; try done).
Qed.

Lemma transport_run_tokens s s' : transport_run s s' -> tokens_advance s s'.
Proof.
  induction 1 as [|s1 s2 s3 Hst _ IH]; [reflexivity|].
  etransitivity; [by apply transport_step_tokens|exact IH].
Qed.

Lemma retired_stays node t s s' : tokens_advance s s' -> retired node t s -> retired node t s'.
Proof. intros [A B] [Ht Hn]. split; [lia|]. intros [Hc|Hc]%B; [done|lia]. Qed.

Lemma hold_token_allocated node s t s' :
  tokens_allocated s -> hold_token node s = (t, s') -> (t < sh_next_token s')%nat.
Proof.
  intros Ha. unfold hold_token, registration_token.
  destruct (filter _ (sh_tokens s) !! node) as [u|] eqn:E; intros [= <- <-]; simpl; [|lia].
  apply map_lookup_filter_Some in E as [E _]. by eapply Ha.
Qed.

Lemma transport_run_allocated s0 s : sh_tokens s0 = ∅ -> transport_run s0 s -> tokens_allocated s.
Proof.
  intros E0 R%transport_run_tokens node t [Ht|[_ Ht]]%(ta_token _ _ R); [|done].
  rewrite E0 in Ht. by apply lookup_empty_Some in Ht.
Qed.

(** C40. Removing a node defeats every registration under way: in every run of
    the daemon from a registry without tokens, a handshake that took the node's
    token before the removal began, whatever else ran before, in between and
    since (other handshakes, fences, removals, the end of the task that shared
    the token), is refused for that node, and the registries of sessions and of
    fences stay as they are. *)
Theorem removal_defeats_registration s0 s t s1 s2 s3 node entry :
  sh_tokens s0 = ∅ -> transport_run s0 s -> hold_token node s = (t, s1) -> transport_run s1 s2 ->
  transport_run (invalidate_token node s2) s3 -> nc_node_id (rc_metadata entry) = node ->
  is_ok (fst (register_session entry t s3)) = false
  /\ sh_connections (snd (register_session entry t s3)) = sh_connections s3
  /\ sh_fences (snd (register_session entry t s3)) = sh_fences s3.
Proof.
  intros E0 R0 Hh R1%transport_run_tokens R2%transport_run_tokens <-.
  pose proof (transport_run_allocated _ _ E0 R0) as Ha.
  set (node := nc_node_id (rc_metadata entry)) in *.
  assert (retired node t s3) as [Hlt Hn].
  { eapply retired_stays; [exact R2|]. pose proof (hold_token_allocated _ _ _ _ Ha Hh).
    pose proof (ta_next _ _ R1). split; simpl; [lia|]. by rewrite lookup_delete_eq. }
  unfold register_session. destruct (policy_revoked _ _); [done|]. fold node.
  pose proof (registration_token_current node s3) as Hc.
  assert (sh_connections (snd (registration_token node s3)) = sh_connections s3
    /\ sh_fences (snd (registration_token node s3)) = sh_fences s3) as [Es Ef]
    by (unfold registration_token; by destruct (filter _ _ !! node)).
  destruct (registration_token node s3) as [current s4]. simpl in Es, Ef.
  destruct (Nat.eqb_spec current t) as [->|Ne]; [|done].
  destruct Hc as [Hc| ->]; [done|lia].
Qed.

End Fences.

(** * The theorems on a concrete daemon *)

Definition sample_entropy : Entropy :=
  {| stamp := fun n => mkStamp (be 16 (Z.of_nat n)) [] (mkTimestamp 0 0);
     uuid_version_num := fun _ => 7; endpoint_valid := fun _ => true |}.

Definition sample_registered : RegisteredFence :=
  mkRegisteredFence sample_verified_fence sample_fence_carrier (be 32 3).

Definition sample_connection : RegisteredConnection :=
  mkRegisteredConnection
    (mkNodeConnection (be 16 2) (be 32 3) 1 0 None (be 16 1) [] None [str "a"] 0 None 6)
    (mkConnection 1 (be 32 3)) 65536 {[ str "a" ]} AuthorizedV11 0 None (Some sample_registered).

(** A daemon that requires fencing, with the owner's session registered. *)
Definition sample_shared : @Shared sample_crypto :=
  @mkShared sample_crypto {[ be 16 2 := sample_connection ]} ∅ ∅ 0 {[ be 16 2 := sample_registered ]}
    (Some sample_ring) true (mkEventState [] [] 0 0) ∅ 16 false (mkIdentityState ∅ ∅ ∅ true) [] 0.

Definition sample_command : CommandEnvelope :=
  mkCommandEnvelope (str "1.2") [] (be 16 9) (be 16 2) (be 16 2) 0 None None 5 [] [] [] 1 2 []
    (be 16 4) (str "operation.create") (str "a") [] [] None (Some sample_fence_carrier)
    (Some sample_binding_carrier) (Some PSyntheticNoop).

Definition sample_clock : Clock := mkClock 1005 0.

Lemma sample_shared_unforged ring :
  sh_keyring sample_shared = Some ring -> unforged ring (fun st => st ∈ sample_statements).
Proof. intros [= <-]. apply sample_unforged. Qed.

Lemma sample_verified_for : @verified_for sample_crypto sample_shared (be 16 2) sample_registered.
Proof. exists sample_ring, sample_clock. split; [done|]. by vm_compute. Qed.

Lemma owner_terms_monotone_witness :
  exists g, sh_fences (snd (@record_owner_fence sample_crypto (be 16 2) sample_registered sample_shared))
      !! be 16 2 = Some g /\ epoch sample_registered <= epoch g.
Proof.
  destruct (@owner_terms_monotone sample_crypto sample_entropy sample_shared
    (snd (@record_owner_fence sample_crypto (be 16 2) sample_registered sample_shared)))
    as [_ M].
  - apply rtc_once. apply T_record. apply sample_verified_for.
  - intros node f Hf. change (sh_fences sample_shared) with ({[ be 16 2 := sample_registered ]} : gmap bytes _) in Hf.
    apply lookup_singleton_Some in Hf as [<- <-]. apply sample_verified_for.
  - destruct (M (be 16 2) sample_registered) as (g & Hg & Hle & _); [done|].
    exists g. split; [exact Hg|exact Hle].
Defined.

Lemma dispatch_requires_owner_term_witness :
  exists term claims,
    in_force (fun st => st ∈ sample_statements) (be 16 2) (be 32 3) (now_seconds sample_clock)
      (now_nanos sample_clock) (now_seconds sample_clock) (now_nanos sample_clock) term claims
    /\ fbc_operation_id claims = env_command_id sample_command.
Proof.
  destruct (@dispatch_requires_owner_term sample_crypto
    (fun st => st ∈ sample_statements) sample_shared sample_shared (be 16 2) sample_command 100
    sample_clock sample_clock sample_clock (mkConnection 1 (be 32 3)) 65536)
    as (entry & Hn & _ & _ & _ & _ & _ & _ & M).
  - apply sample_shared_unforged.
  - intros f [= <-]. by wf_sample.
  - intros b [= <-]. by wf_sample.
  - by vm_compute.
  - vm_compute in Hn. injection Hn as <-.
    destruct M as (session & term & claims & [= <-] & HF & _ & _ & _ & _ & _ & Ho & _). by exists term, claims.
Defined.

Lemma superseded_owner_cannot_dispatch_witness :
  exists claims, SBinding claims ∈ sample_statements /\ epoch sample_registered <= fbc_owner_epoch claims.
Proof.
  destruct (@superseded_owner_cannot_dispatch sample_crypto sample_entropy
    (fun st => st ∈ sample_statements) sample_shared sample_shared sample_shared (be 16 2)
    sample_registered sample_command 100 sample_clock sample_clock sample_clock
    (mkConnection 1 (be 32 3)) 65536) as (claims & H1 & _ & H3 & _).
  - apply sample_shared_unforged.
  - intros b [= <-]. by wf_sample.
  - done.
  - reflexivity.
  - by vm_compute.
  - exists claims. split; [exact H1|exact H3].
Defined.

Lemma operation_requires_owner_term_witness :
  exists claims, SBinding claims ∈ sample_statements /\ fbc_operation_id claims = be 16 9.
Proof.
  destruct (@operation_requires_owner_term sample_crypto (fun st => st ∈ sample_statements)
    sample_shared (be 16 2) None (Some sample_registered) (Some sample_binding_carrier)
    OperationCommand (be 16 9) sample_clock sample_clock (Some sample_registered)) as [_ M].
  - apply sample_shared_unforged.
  - intros b [= <-]. by wf_sample.
  - by vm_compute.
  - destruct M as (claims & Hs & _ & _ & _ & _ & _ & Ho & _). exists claims. split; [exact Hs|exact Ho].
Defined.

Lemma removal_defeats_registration_witness :
  is_ok (fst (@register_session sample_crypto sample_entropy sample_connection 0
    (snd (@remove sample_crypto sample_entropy (be 16 2) (str "closed")
      (snd (@hold_token sample_crypto (be 16 2) sample_shared)))))) = false.
Proof.
  apply (@removal_defeats_registration sample_crypto sample_entropy sample_shared sample_shared 0
    (snd (@hold_token sample_crypto (be 16 2) sample_shared))
    (snd (@hold_token sample_crypto (be 16 2) sample_shared)) _ (be 16 2)).
  - reflexivity.
  - apply rtc_refl.
  - rewrite (surjective_pairing (hold_token _ _)). by apply (f_equal2 pair).
  - reflexivity.
  - apply rtc_once. apply T_take.
  - reflexivity.
Defined.
