(* ===== verification/StrictWire.v ===== *)
(** Strict validation of the raw wire form of command envelopes
    ([contracts/src/strict_wire.rs]), and the message schema the generated code
    declares, against which it is checked.

    The protobuf primitives are [prost]'s: the class [Prost] names the three
    decoders the code calls, with what it relies on of them, that a decoder
    consumes a prefix of the buffer and leaves the rest. *)

From stdpp Require Import base list numbers strings.
From Stdlib Require Import ZArith Lia Bool Strings.Byte.
From S2P Require Import Prelude Bytes Contracts.

Local Open Scope Z_scope.

(** * The declared schema *)

Inductive WireType := Varint | SixtyFourBit | LengthDelimited | StartGroup | EndGroup | ThirtyTwoBit.

#[export] Instance WireType_eq_dec : EqDecision WireType.
Proof. solve_decision. Defined.

Inductive MessageKind :=
| KCommandEnvelope | KCommandAuthorizationProof | KConnectionFenceV2 | KFenceBindingV2 |
KTimestamp | KSealedSecretV1 | KSessionDisconnect | KSessionTerminate | KIpBanRemove |
KUserCreate | KUserDisable | KUserEnable | KUserPasswordRotate | KGroupApply | KConfigPlan |
KConfigApply | KCompleteConfigPlan | KCompleteConfigApply | KCompleteConfigCandidate |
KCompleteConfigDirective | KNodeLocalTlsReference | KCertificateCsr | KCertificateP12 |
KCertificateRevoke | KAgentUpgrade | KServiceReload | KSimulationProbe | KSyntheticNoop |
KSyntheticEcho.

#[export] Instance MessageKind_eq_dec : EqDecision MessageKind.
Proof. solve_decision. Defined.

(** The field types of [#[prost(..)]] attributes.  A repeated string or message
    has one record per element, so that repetition does not change the wire
    type. *)
Inductive ProstType :=
| PString | PBytes | PUint32 | PUint64 | PBool | PEnumeration | PMessage (m : MessageKind).

Definition CommandEnvelope_fields : list (Z * ProstType) :=
  [(1, PString); (2, PBytes); (3, PBytes); (4, PBytes); (5, PBytes); (6, PUint64);
   (7, PMessage KTimestamp); (8, PMessage KTimestamp); (9, PUint64); (10, PString);
   (11, PString); (12, PString); (109, PEnumeration); (110, PEnumeration); (111, PBytes);
   (120, PBytes); (121, PString); (122, PString); (123, PBytes); (124, PBytes);
   (125, PMessage KCommandAuthorizationProof); (126, PMessage KConnectionFenceV2);
   (127, PMessage KFenceBindingV2)].

Definition CommandEnvelope_payload : list (Z * ProstType) :=
  [(100, PMessage KSessionDisconnect); (101, PMessage KUserCreate); (102, PMessage KUserDisable);
   (103, PMessage KConfigPlan); (104, PMessage KConfigApply); (105, PMessage KServiceReload);
   (106, PMessage KSimulationProbe); (107, PMessage KSyntheticNoop);
   (108, PMessage KSyntheticEcho); (112, PMessage KSessionTerminate);
   (113, PMessage KIpBanRemove); (114, PMessage KUserPasswordRotate);
   (115, PMessage KGroupApply); (116, PMessage KUserEnable); (117, PMessage KCertificateCsr);
   (118, PMessage KCertificateP12); (119, PMessage KCertificateRevoke);
   (128, PMessage KAgentUpgrade); (129, PMessage KCompleteConfigPlan);
   (130, PMessage KCompleteConfigApply)].

Definition CommandAuthorizationProof_fields : list (Z * ProstType) :=
  [(1, PEnumeration); (2, PString); (3, PBytes)].

Definition ConnectionFenceV2_fields : list (Z * ProstType) :=
  [(1, PEnumeration); (2, PString); (3, PBytes); (4, PBytes); (5, PBytes); (6, PBytes);
   (7, PUint64); (8, PUint64); (9, PBytes); (10, PUint64); (11, PString);
   (12, PMessage KTimestamp); (13, PMessage KTimestamp); (14, PMessage KTimestamp); (15, PBytes)].

Definition FenceBindingV2_fields : list (Z * ProstType) :=
  [(1, PEnumeration); (2, PString); (3, PEnumeration); (4, PBytes); (5, PBytes); (6, PBytes);
   (7, PBytes); (8, PBytes); (9, PUint64); (10, PUint64); (11, PBytes); (12, PUint64);
   (13, PString); (14, PMessage KTimestamp); (15, PMessage KTimestamp); (16, PBytes)].

Definition SealedSecretV1_fields : list (Z * ProstType) :=
  [(1, PEnumeration); (2, PEnumeration); (3, PString); (4, PBytes)].

Definition SessionDisconnect_fields : list (Z * ProstType) :=
  [(1, PString); (2, PString)].

Definition SessionTerminate_fields : list (Z * ProstType) :=
  [(1, PString); (2, PString)].

Definition IpBanRemove_fields : list (Z * ProstType) :=
  [(1, PString)].

Definition UserCreate_fields : list (Z * ProstType) :=
  [(1, PString); (2, PBytes); (3, PString); (4, PUint64); (5, PMessage KSealedSecretV1)].

Definition UserDisable_fields : list (Z * ProstType) :=
  [(1, PString); (2, PUint64)].

Definition UserEnable_fields : list (Z * ProstType) :=
  [(1, PString); (2, PUint64)].

Definition UserPasswordRotate_fields : list (Z * ProstType) :=
  [(1, PString); (2, PBytes); (3, PString); (4, PUint64); (5, PMessage KSealedSecretV1)].

Definition GroupApply_fields : list (Z * ProstType) :=
  [(1, PString); (2, PString); (3, PUint64)].

Definition ConfigPlan_fields : list (Z * ProstType) :=
  [(1, PBytes); (2, PBytes); (3, PUint64)].

Definition ConfigApply_fields : list (Z * ProstType) :=
  [(1, PBytes); (2, PBytes); (3, PBytes); (4, PUint64)].

Definition CompleteConfigPlan_fields : list (Z * ProstType) :=
  [(1, PMessage KCompleteConfigCandidate); (2, PBytes)].

Definition CompleteConfigApply_fields : list (Z * ProstType) :=
  [(1, PMessage KCompleteConfigCandidate); (2, PBytes); (3, PBytes); (4, PBytes); (5, PUint64);
   (6, PBytes); (7, PMessage KTimestamp)].

Definition CompleteConfigCandidate_fields : list (Z * ProstType) :=
  [(1, PBytes); (2, PUint64); (3, PMessage KCompleteConfigDirective)].

Definition CompleteConfigDirective_fields : list (Z * ProstType) :=
  [(1, PString)].

Definition CompleteConfigDirective_value : list (Z * ProstType) :=
  [(2, PString); (3, PMessage KNodeLocalTlsReference)].

Definition NodeLocalTlsReference_fields : list (Z * ProstType) :=
  [(1, PBytes); (2, PString); (3, PBytes); (4, PBytes); (5, PBytes)].

Definition CertificateCsr_fields : list (Z * ProstType) :=
  [(1, PBytes); (2, PString); (3, PString); (4, PUint32)].

Definition CertificateP12_fields : list (Z * ProstType) :=
  [(1, PBytes); (2, PBytes); (3, PBytes); (4, PString); (5, PBytes);
   (6, PMessage KSealedSecretV1); (7, PUint64); (8, PMessage KTimestamp)].

Definition CertificateRevoke_fields : list (Z * ProstType) :=
  [(1, PBytes); (2, PString); (3, PUint64)].

Definition AgentUpgrade_fields : list (Z * ProstType) :=
  [(1, PString); (2, PBytes); (3, PString)].

Definition ServiceReload_fields : list (Z * ProstType) :=
  [].

Definition SimulationProbe_fields : list (Z * ProstType) :=
  [(1, PUint32); (2, PUint32); (3, PBool); (4, PBool); (5, PBool)].

Definition SyntheticNoop_fields : list (Z * ProstType) :=
  [].

Definition SyntheticEcho_fields : list (Z * ProstType) :=
  [(1, PString)].

(** The fields of a message, those of its oneof included.  [Timestamp] is
    [prost_types]'. *)
Definition declared_fields (m : MessageKind) : option (list (Z * ProstType)) :=
  match m with
  | KTimestamp => None
  | KCommandEnvelope => Some (CommandEnvelope_fields ++ CommandEnvelope_payload)
  | KCommandAuthorizationProof => Some CommandAuthorizationProof_fields
  | KConnectionFenceV2 => Some ConnectionFenceV2_fields
  | KFenceBindingV2 => Some FenceBindingV2_fields
  | KSealedSecretV1 => Some SealedSecretV1_fields
  | KSessionDisconnect => Some SessionDisconnect_fields
  | KSessionTerminate => Some SessionTerminate_fields
  | KIpBanRemove => Some IpBanRemove_fields
  | KUserCreate => Some UserCreate_fields
  | KUserDisable => Some UserDisable_fields
  | KUserEnable => Some UserEnable_fields
  | KUserPasswordRotate => Some UserPasswordRotate_fields
  | KGroupApply => Some GroupApply_fields
  | KConfigPlan => Some ConfigPlan_fields
  | KConfigApply => Some ConfigApply_fields
  | KCompleteConfigPlan => Some CompleteConfigPlan_fields
  | KCompleteConfigApply => Some CompleteConfigApply_fields
  | KCompleteConfigCandidate => Some CompleteConfigCandidate_fields
  | KCompleteConfigDirective => Some (CompleteConfigDirective_fields ++ CompleteConfigDirective_value)
  | KNodeLocalTlsReference => Some NodeLocalTlsReference_fields
  | KCertificateCsr => Some CertificateCsr_fields
  | KCertificateP12 => Some CertificateP12_fields
  | KCertificateRevoke => Some CertificateRevoke_fields
  | KAgentUpgrade => Some AgentUpgrade_fields
  | KServiceReload => Some ServiceReload_fields
  | KSimulationProbe => Some SimulationProbe_fields
  | KSyntheticNoop => Some SyntheticNoop_fields
  | KSyntheticEcho => Some SyntheticEcho_fields
  end.

(** * Strict validation *)

Definition MessageKind_name (m : MessageKind) : string :=
  match m with
  | KCommandEnvelope => "CommandEnvelope"
  | KCommandAuthorizationProof => "CommandAuthorizationProof"
  | KConnectionFenceV2 => "ConnectionFenceV2"
  | KFenceBindingV2 => "FenceBindingV2"
  | KTimestamp => "Timestamp"
  | KSealedSecretV1 => "SealedSecretV1"
  | KSessionDisconnect => "SessionDisconnect"
  | KSessionTerminate => "SessionTerminate"
  | KIpBanRemove => "IpBanRemove"
  | KUserCreate => "UserCreate"
  | KUserDisable => "UserDisable"
  | KUserEnable => "UserEnable"
  | KUserPasswordRotate => "UserPasswordRotate"
  | KGroupApply => "GroupApply"
  | KConfigPlan => "ConfigPlan"
  | KConfigApply => "ConfigApply"
  | KCompleteConfigPlan => "CompleteConfigPlan"
  | KCompleteConfigApply => "CompleteConfigApply"
  | KCompleteConfigCandidate => "CompleteConfigCandidate"
  | KCompleteConfigDirective => "CompleteConfigDirective"
  | KNodeLocalTlsReference => "NodeLocalTlsReference"
  | KCertificateCsr => "CertificateCsr"
  | KCertificateP12 => "CertificateP12"
  | KCertificateRevoke => "CertificateRevoke"
  | KAgentUpgrade => "AgentUpgrade"
  | KServiceReload => "ServiceReload"
  | KSimulationProbe => "SimulationProbe"
  | KSyntheticNoop => "SyntheticNoop"
  | KSyntheticEcho => "SyntheticEcho"
  end.

Inductive FieldKind := Scalar (w : WireType) | Nested (m : MessageKind).

#[export] Instance FieldKind_eq_dec : EqDecision FieldKind.
Proof. solve_decision. Defined.

(** [first..=last] *)
Definition within (first tag last : Z) : bool := (first <=? tag) && (tag <=? last).

Definition field_kind (message : MessageKind) (tag : Z) : option FieldKind :=
  match message with
  | KCommandEnvelope =>
      if within 1 tag 5 || within 10 tag 12 || (tag =? 111) || within 120 tag 124
      then Some (Scalar LengthDelimited)
      else if (tag =? 6) || (tag =? 9) || (tag =? 109) || (tag =? 110) then Some (Scalar Varint)
      else if (tag =? 7) || (tag =? 8) then Some (Nested KTimestamp)
      else if tag =? 125 then Some (Nested KCommandAuthorizationProof)
      else if tag =? 126 then Some (Nested KConnectionFenceV2)
      else if tag =? 127 then Some (Nested KFenceBindingV2)
      else if tag =? 100 then Some (Nested KSessionDisconnect)
      else if tag =? 101 then Some (Nested KUserCreate)
      else if tag =? 102 then Some (Nested KUserDisable)
      else if tag =? 103 then Some (Nested KConfigPlan)
      else if tag =? 104 then Some (Nested KConfigApply)
      else if tag =? 105 then Some (Nested KServiceReload)
      else if tag =? 106 then Some (Nested KSimulationProbe)
      else if tag =? 107 then Some (Nested KSyntheticNoop)
      else if tag =? 108 then Some (Nested KSyntheticEcho)
      else if tag =? 112 then Some (Nested KSessionTerminate)
      else if tag =? 113 then Some (Nested KIpBanRemove)
      else if tag =? 114 then Some (Nested KUserPasswordRotate)
      else if tag =? 115 then Some (Nested KGroupApply)
      else if tag =? 116 then Some (Nested KUserEnable)
      else if tag =? 117 then Some (Nested KCertificateCsr)
      else if tag =? 118 then Some (Nested KCertificateP12)
      else if tag =? 119 then Some (Nested KCertificateRevoke)
      else if tag =? 128 then Some (Nested KAgentUpgrade)
      else if tag =? 129 then Some (Nested KCompleteConfigPlan)
      else if tag =? 130 then Some (Nested KCompleteConfigApply)
      else None
  | KTimestamp => if (tag =? 1) || (tag =? 2) then Some (Scalar Varint) else None
  | KSealedSecretV1 =>
      if (tag =? 1) || (tag =? 2) then Some (Scalar Varint)
      else if (tag =? 3) || (tag =? 4) then Some (Scalar LengthDelimited)
      else None
  | KCommandAuthorizationProof =>
      if tag =? 1 then Some (Scalar Varint)
      else if (tag =? 2) || (tag =? 3) then Some (Scalar LengthDelimited)
      else None
  | KConnectionFenceV2 =>
      if (tag =? 1) || (tag =? 7) || (tag =? 8) || (tag =? 10) then Some (Scalar Varint)
      else if within 2 tag 6 || (tag =? 9) || (tag =? 11) || (tag =? 15)
      then Some (Scalar LengthDelimited)
      else if within 12 tag 14 then Some (Nested KTimestamp)
      else None
  | KFenceBindingV2 =>
      if (tag =? 1) || (tag =? 3) || (tag =? 9) || (tag =? 10) || (tag =? 12)
      then Some (Scalar Varint)
      else if (tag =? 2) || (tag =? 4) || (tag =? 5) || (tag =? 6) || (tag =? 7) || (tag =? 8)
              || (tag =? 11) || (tag =? 13) || (tag =? 16)
      then Some (Scalar LengthDelimited)
      else if (tag =? 14) || (tag =? 15) then Some (Nested KTimestamp)
      else None
  | KSessionDisconnect | KSessionTerminate =>
      if (tag =? 1) || (tag =? 2) then Some (Scalar LengthDelimited) else None
  | KIpBanRemove | KSyntheticEcho => if tag =? 1 then Some (Scalar LengthDelimited) else None
  | KUserCreate | KUserPasswordRotate =>
      if within 1 tag 3 then Some (Scalar LengthDelimited)
      else if tag =? 4 then Some (Scalar Varint)
      else if tag =? 5 then Some (Nested KSealedSecretV1)
      else None
  | KConfigApply | KCertificateCsr =>
      if within 1 tag 3 then Some (Scalar LengthDelimited)
      else if tag =? 4 then Some (Scalar Varint)
      else None
  | KUserDisable | KUserEnable =>
      if tag =? 1 then Some (Scalar LengthDelimited)
      else if tag =? 2 then Some (Scalar Varint)
      else None
  | KGroupApply =>
      if (tag =? 1) || (tag =? 2) then Some (Scalar LengthDelimited)
      else if tag =? 3 then Some (Scalar Varint)
      else None
  | KConfigPlan =>
      if (tag =? 1) || (tag =? 2) then Some (Scalar LengthDelimited)
      else if tag =? 3 then Some (Scalar Varint)
      else None
  | KCompleteConfigPlan =>
      if tag =? 1 then Some (Nested KCompleteConfigCandidate)
      else if tag =? 2 then Some (Scalar LengthDelimited)
      else None
  | KCompleteConfigApply =>
      if tag =? 1 then Some (Nested KCompleteConfigCandidate)
      else if within 2 tag 4 || (tag =? 6) then Some (Scalar LengthDelimited)
      else if tag =? 5 then Some (Scalar Varint)
      else if tag =? 7 then Some (Nested KTimestamp)
      else None
  | KCompleteConfigCandidate =>
      if tag =? 1 then Some (Scalar LengthDelimited)
      else if tag =? 2 then Some (Scalar Varint)
      else if tag =? 3 then Some (Nested KCompleteConfigDirective)
      else None
  | KCompleteConfigDirective =>
      if (tag =? 1) || (tag =? 2) then Some (Scalar LengthDelimited)
      else if tag =? 3 then Some (Nested KNodeLocalTlsReference)
      else None
  | KNodeLocalTlsReference => if within 1 tag 5 then Some (Scalar LengthDelimited) else None
  | KCertificateP12 =>
      if within 1 tag 5 then Some (Scalar LengthDelimited)
      else if tag =? 6 then Some (Nested KSealedSecretV1)
      else if tag =? 7 then Some (Scalar Varint)
      else if tag =? 8 then Some (Nested KTimestamp)
      else None
  | KCertificateRevoke =>
      if (tag =? 1) || (tag =? 2) then Some (Scalar LengthDelimited)
      else if tag =? 3 then Some (Scalar Varint)
      else None
  | KAgentUpgrade => if within 1 tag 3 then Some (Scalar LengthDelimited) else None
  | KServiceReload | KSyntheticNoop => None
  | KSimulationProbe => if within 1 tag 5 then Some (Scalar Varint) else None
  end.

(** What the validation calls of [prost]: each decoder takes the buffer and
    returns its value with the unread rest, or an error. *)
Class Prost := {
  decode_key : bytes -> option (Z * WireType * bytes);
  decode_length_delimiter : bytes -> option (Z * bytes);
  skip_field : WireType -> Z -> bytes -> option bytes;
  decode_envelope : bytes -> option CommandEnvelope;
  decode_key_consumes b tag w rest :
    decode_key b = Some (tag, w, rest) -> exists read, b = read ++ rest /\ read <> [];
  decode_length_consumes b n rest :
    decode_length_delimiter b = Some (n, rest) -> 0 <= n /\ exists read, b = read ++ rest;
  skip_field_consumes w tag b rest :
    skip_field w tag b = Some rest -> exists read, b = read ++ rest }.

Inductive StrictWireError :=
| Decode
| UnknownField (message : string) (tag : Z)
| UnexpectedWireType (message : string) (tag : Z) (expected actual : WireType)
| NestedMessageTruncated (message : string).

#[export] Instance StrictWireError_eq_dec : EqDecision StrictWireError.
Proof. solve_decision. Defined.

Section StrictWire.
Context `{Prost}.

Definition take_nested (b : bytes) (message : string) : result StrictWireError (bytes * bytes) :=
  let? (length_, b) := ok_or (decode_length_delimiter b) Decode in
  if length_ >? len b then Err (NestedMessageTruncated message)
  else Ok (take (Z.to_nat length_) b, drop (Z.to_nat length_) b).

Definition expected_wire_type (field : FieldKind) : WireType :=
  match field with
  | Scalar expected => expected
  | Nested _ => LengthDelimited
  end.

(** The loop over the fields and the recursion into nested messages share one
    bound: every turn consumes a byte at least.  [None] is a bound too low. *)
Fixpoint validate_message (fuel : nat) (b : bytes) (message : MessageKind)
    : option (result StrictWireError unit) :=
  match fuel with
  | O => None
  | S fuel =>
  if is_empty b then Some (Ok tt)
  else
  match decode_key b with
  | None => Some (Err Decode)
  | Some (tag, wire_type, b) =>
  match field_kind message tag with
  | None => Some (Err (UnknownField (MessageKind_name message) tag))
  | Some field =>
  if negb (bool_decide (wire_type = expected_wire_type field))
  then Some (Err (UnexpectedWireType (MessageKind_name message) tag (expected_wire_type field)
                    wire_type))
  else
  match field with
  | Scalar _ =>
      match skip_field wire_type tag b with
      | None => Some (Err Decode)
      | Some b => validate_message fuel b message
      end
  | Nested nested =>
      match take_nested b (MessageKind_name nested) with
      | Err e => Some (Err e)
      | Ok (nested_bytes, b) =>
          match validate_message fuel nested_bytes nested with
          | Some (Ok _) => validate_message fuel b message
          | refused => refused
          end
      end
  end
  end
  end
  end.

Definition validate_strict_command_envelope (b : bytes) : option (result StrictWireError unit) :=
  validate_message (S (length b)) b KCommandEnvelope.

Definition decode_strict_command_envelope (b : bytes)
    : option (result StrictWireError CommandEnvelope) :=
  match validate_strict_command_envelope b with
  | Some (Ok _) => Some (ok_or (decode_envelope b) Decode)
  | Some (Err e) => Some (Err e)
  | None => None
  end.

End StrictWire.
