(* ===== verification/StrictWireTheorems.v ===== *)
(** Strict wire validation is exact: it always answers, it accepts precisely
    the frames whose fields are declared at every depth, and its table of
    fields is the schema the generated code declares. *)

From stdpp Require Import base list numbers strings.
From Stdlib Require Import ZArith Lia Bool Strings.Byte.
From S2P Require Import Prelude Bytes Contracts StrictWire.

Local Open Scope Z_scope.

(** * The table of fields *)

(** The wire form of a declared field. *)
Definition wire_kind (t : ProstType) : FieldKind :=
  match t with
  | PString | PBytes => Scalar LengthDelimited
  | PUint32 | PUint64 | PBool | PEnumeration => Scalar Varint
  | PMessage m => Nested m
  end.

Definition declared (fields : list (Z * ProstType)) (tag : Z) : option FieldKind :=
  (fun f => wire_kind (snd f)) <$> List.find (fun f => fst f =? tag) fields.

Definition MAX_TAG : Z := 130.

Lemma field_kind_bounded m tag f : field_kind m tag = Some f -> 1 <= tag <= MAX_TAG.
Proof.
  unfold field_kind, within, MAX_TAG. intros E.
  destruct m;
    repeat match type of E with (if ?b then _ else _) = _ => destruct b eqn:?; [lia|] end;
    discriminate E.
Qed.

Lemma declared_bounded m fields tag f :
  declared_fields m = Some fields -> declared fields tag = Some f -> 1 <= tag <= MAX_TAG.
Proof.
  intros E. assert (Forall (fun f => 1 <= fst f <= MAX_TAG) fields) as F.
  { destruct m; injection E as <- || discriminate E; repeat constructor; simpl; unfold MAX_TAG; lia. }
  unfold declared. intros ((t & ty) & Hf & _)%fmap_Some. apply List.find_some in Hf as [Hin Ht].
  rewrite Forall_forall in F. specialize (F _ (proj2 (list_elem_of_In _ _) Hin)). simpl in *. lia.
Qed.

Definition table_agrees (m : MessageKind) (fields : list (Z * ProstType)) : bool :=
  forallb (fun tag => bool_decide (field_kind m tag = declared fields tag)) (seqZ 1 MAX_TAG).

(** The strict table is the declared schema: for every message of the
    generated code and every field number, the validation knows the field
    exactly when the message declares it (its oneof included), with the wire
    type of its declared type, and descends into exactly the declared nested
    messages. *)
Theorem strict_table_is_schema m fields tag :
  declared_fields m = Some fields -> field_kind m tag = declared fields tag.
Proof.
  intros E. assert (table_agrees m fields = true) as T
    by (destruct m; injection E as <- || discriminate E; by vm_compute).
  destruct (decide (1 <= tag <= MAX_TAG)) as [In|Out].
  - unfold table_agrees in T. rewrite forallb_forall in T.
    specialize (T tag). rewrite bool_decide_eq_true in T. apply T.
    apply list_elem_of_In, elem_of_seqZ. lia.
  - destruct (field_kind m tag) eqn:F; [by apply field_kind_bounded in F|].
    destruct (declared fields tag) eqn:D; [by eapply declared_bounded in D|done].
Qed.

Lemma strict_table_is_schema_witness :
  field_kind KCommandEnvelope 118 = declared (CommandEnvelope_fields ++ CommandEnvelope_payload) 118
  /\ field_kind KCommandEnvelope 118 = Some (Nested KCertificateP12).
Proof.
  split; [|reflexivity].
  apply (strict_table_is_schema KCommandEnvelope (CommandEnvelope_fields ++ CommandEnvelope_payload) 118).
  reflexivity.
Defined.

(** What a field number means: the declared fields of the generated message,
    oneofs included, or of the well-known [google.protobuf.Timestamp] (a
    varint of seconds and one of nanoseconds), which is not generated. *)
Definition schema (m : MessageKind) (tag : Z) : option FieldKind :=
  match declared_fields m with
  | Some fields => declared fields tag
  | None => if (tag =? 1) || (tag =? 2) then Some (Scalar Varint) else None
  end.

Lemma field_kind_schema m tag : field_kind m tag = schema m tag.
Proof.
  unfold schema. destruct (declared_fields m) as [fields|] eqn:E; [by apply strict_table_is_schema|].
  by destruct m.
Qed.

(** * Conforming frames *)

Section Conforms.
Context `{Prost}.

(** A frame of a message: a sequence of fields its schema declares, each in its
    declared wire type, nested messages conforming in turn. *)
Inductive conforms : MessageKind -> bytes -> Prop :=
| conforms_nil m : conforms m []
| conforms_scalar m b tag w rest rest' :
    b <> [] -> decode_key b = Some (tag, w, rest) -> schema m tag = Some (Scalar w) ->
    skip_field w tag rest = Some rest' -> conforms m rest' -> conforms m b
| conforms_nested m b tag rest nested body rest' :
    b <> [] -> decode_key b = Some (tag, LengthDelimited, rest) ->
    schema m tag = Some (Nested nested) ->
    decode_length_delimiter rest = Some (len body, body ++ rest') ->
    conforms nested body -> conforms m rest' -> conforms m b.

Lemma take_nested_ok b name body rest :
  take_nested b name = Ok (body, rest) <-> decode_length_delimiter b = Some (len body, body ++ rest).
Proof.
  unfold take_nested. split.
  - destruct (decode_length_delimiter b) as [[n b']|] eqn:E; [|done]. cbn.
    destruct (decode_length_consumes _ _ _ E) as [Hn _].
    destruct (Z.gtb_spec n (len b')) as [|Le]; [done|]. intros [= <- <-].
    rewrite take_drop. do 2 f_equal. unfold len in *. rewrite length_take. lia.
  - intros ->. cbn. unfold len. rewrite length_app.
    destruct (Z.gtb_spec (Z.of_nat (length body)) (Z.of_nat (length body + length rest))); [lia|].
    rewrite Nat2Z.id, take_app_length, drop_app_length. done.
Qed.

Lemma read_shorter {A} (b read rest : list A) : b = read ++ rest -> (length rest <= length b)%nat.
Proof. intros ->. rewrite length_app. lia. Qed.

Lemma key_shorter b tag w rest : decode_key b = Some (tag, w, rest) -> (length rest < length b)%nat.
Proof.
  intros (read & -> & Ne)%decode_key_consumes. rewrite length_app.
  destruct read; [done|]. simpl. lia.
Qed.

Lemma skip_shorter w tag b rest : skip_field w tag b = Some rest -> (length rest <= length b)%nat.
Proof. intros (read & E)%skip_field_consumes. by eapply read_shorter. Qed.

Lemma nested_shorter b name body rest :
  take_nested b name = Ok (body, rest) ->
  (length body <= length b)%nat /\ (length rest <= length b)%nat.
Proof.
  intros E%take_nested_ok. apply decode_length_consumes in E as (_ & read & ->).
  rewrite !length_app. lia.
Qed.

(** With a bound above the length the answer is there, and accepts exactly the
    conforming frames. *)
Lemma validate_message_exact fuel b m :
  (length b < fuel)%nat ->
  exists r, validate_message fuel b m = Some r /\ (r = Ok tt <-> conforms m b).
Proof.
  revert b m. induction fuel as [|fuel IH]; intros b m Hf; [lia|]. simpl.
  destruct b as [|x b0]; [exists (Ok tt); split; [done|]; split; [constructor|done]|].
  set (b := x :: b0) in *. assert (b <> []) as Hne by done. clearbody b. change (is_empty b) with (is_empty b).
  replace (is_empty b) with false by (by destruct b).
  destruct (decode_key b) as [[[tag w] rest]|] eqn:Ek.
  2: { eexists. split; [done|]. split; [done|]. inversion 1; congruence. }
  pose proof (key_shorter _ _ _ _ Ek) as Hk.
  rewrite field_kind_schema. destruct (schema m tag) as [field|] eqn:Ef.
  2: { eexists. split; [done|]. split; [done|]. inversion 1; congruence. }
  destruct (decide (w = expected_wire_type field)) as [Ew|Ew].
  2: { rewrite bool_decide_false by done. eexists. split; [done|]. split; [done|].
       inversion 1; simplify_eq; simpl in *; done. }
  rewrite bool_decide_true by done. simpl. destruct field as [w'|nested]; simpl in Ew; subst w.
  - destruct (skip_field w' tag rest) as [rest'|] eqn:Es.
    2: { eexists. split; [done|]. split; [done|]. inversion 1; congruence. }
    pose proof (skip_shorter _ _ _ _ Es). destruct (IH rest' m) as (r & -> & Hr); [lia|].
    exists r. split; [done|]. rewrite Hr. split; [by eapply conforms_scalar|].
    inversion 1; congruence.
  - destruct (take_nested rest (MessageKind_name nested)) as [[body rest']|e] eqn:Et.
    2: { exists (Err e). split; [done|]. split; [done|]. inversion 1; subst; try congruence.
         assert (rest0 = rest) as -> by congruence. assert (nested0 = nested) as -> by congruence.
         match goal with D : decode_length_delimiter _ = Some _ |- _ =>
           apply (take_nested_ok _ (MessageKind_name nested)) in D end. congruence. }
    destruct (nested_shorter _ _ _ _ Et). apply take_nested_ok in Et.
    destruct (IH body nested) as (r1 & -> & Hr1); [lia|].
    destruct (IH rest' m) as (r2 & -> & Hr2); [lia|].
    assert (conforms m b <-> conforms nested body /\ conforms m rest') as Hc.
    { split; [|intros []; by eapply conforms_nested]. inversion 1; subst; try congruence.
      assert (rest0 = rest) as -> by congruence. assert (nested0 = nested) as -> by congruence.
      match goal with D : decode_length_delimiter _ = Some _ |- _ => rewrite Et in D; injection D as El Ea end.
      unfold len in El. apply Nat2Z.inj in El. apply app_inj_1 in Ea as [-> ->]; [done|lia]. }
    destruct r1 as [[]|e1].
    + exists r2. split; [done|]. rewrite Hc, Hr2. split; [split; [by apply Hr1|done]|by intros []].
    + exists (Err e1). split; [done|]. split; [done|]. rewrite Hc. intros [C _]. by apply Hr1 in C.
Qed.

(** C35. Strict decoding is total and exact: for every byte string it answers,
    and it yields an envelope exactly when every field, at every depth, is one
    that the generated message at that depth declares (the timestamps being
    the well-known ones), in its declared wire type, and [prost] decodes the
    frame to that envelope.  Unknown fields never reach execution. *)
Theorem strict_decoding_exact b :
  exists r, decode_strict_command_envelope b = Some r
    /\ forall c, r = Ok c <-> conforms KCommandEnvelope b /\ decode_envelope b = Some c.
Proof.
  unfold decode_strict_command_envelope, validate_strict_command_envelope.
  destruct (validate_message_exact (S (length b)) b KCommandEnvelope) as (r & -> & Hr); [lia|].
  destruct r as [[]|e].
  - eexists. split; [done|]. intros c. rewrite <- Hr. destruct (decode_envelope b); simpl; naive_solver.
  - eexists. split; [done|]. intros c. split; [done|]. intros [C _]. by apply Hr in C.
Qed.

End Conforms.

(** * A concrete protobuf reader

    The decoders of a frame without groups, to see the validation at work. *)

Fixpoint read_varint (fuel : nat) (shift : Z) (b : bytes) : option (Z * bytes) :=
  match fuel, b with
  | S fuel, x :: rest =>
      if byte_val x <? 128 then Some (Z.shiftl (byte_val x) shift, rest)
      else
        match read_varint fuel (shift + 7) rest with
        | Some (v, rest) => Some (Z.shiftl (Z.land (byte_val x) 127) shift + v, rest)
        | None => None
        end
  | _, _ => None
  end.

Lemma read_varint_consumes fuel shift b v rest :
  read_varint fuel shift b = Some (v, rest) -> exists read, b = read ++ rest /\ read <> [].
Proof.
  revert shift b v. induction fuel as [|fuel IH]; intros shift [|x b] v; try done. simpl.
  destruct (byte_val x <? 128); [intros [= <- <-]; by exists [x]|].
  destruct (read_varint fuel (shift + 7) b) as [[v' rest']|] eqn:E; [|done]. intros [= <- <-].
  apply IH in E as (read & -> & _). by exists (x :: read).
Qed.

Lemma byte_val_nonneg x : 0 <= byte_val x.
Proof. pose proof (byte_val_range x). lia. Qed.

Lemma read_varint_nonneg fuel shift b v rest : read_varint fuel shift b = Some (v, rest) -> 0 <= v.
Proof.
  revert shift b v rest. induction fuel as [|fuel IH]; intros shift [|x b] v rest; try done. simpl.
  destruct (byte_val x <? 128); [intros [= <- _]; apply Z.shiftl_nonneg, byte_val_nonneg|].
  destruct (read_varint fuel (shift + 7) b) as [[v' rest']|] eqn:E; [|done]. intros [= <- _].
  apply IH in E. apply Z.add_nonneg_nonneg; [|done]. apply Z.shiftl_nonneg, Z.land_nonneg. left.
  apply byte_val_nonneg.
Qed.

Definition read_key (b : bytes) : option (Z * WireType * bytes) :=
  match read_varint 10 0 b with
  | Some (key, rest) =>
      let wire :=
        if Z.land key 7 =? 0 then Some Varint else if Z.land key 7 =? 1 then Some SixtyFourBit
        else if Z.land key 7 =? 2 then Some LengthDelimited
        else if Z.land key 7 =? 5 then Some ThirtyTwoBit else None in
      match wire with
      | Some w => if Z.shiftr key 3 =? 0 then None else Some (Z.shiftr key 3, w, rest)
      | None => None
      end
  | None => None
  end.

Definition skip_bytes (n : Z) (b : bytes) : option bytes :=
  if len b <? n then None else Some (drop (Z.to_nat n) b).

Definition skip_value (w : WireType) (tag : Z) (b : bytes) : option bytes :=
  match w with
  | Varint => snd <$> read_varint 10 0 b
  | SixtyFourBit => skip_bytes 8 b
  | ThirtyTwoBit => skip_bytes 4 b
  | LengthDelimited =>
      match read_varint 10 0 b with Some (n, rest) => skip_bytes n rest | None => None end
  | StartGroup | EndGroup => None
  end.

Lemma skip_bytes_consumes n b rest : skip_bytes n b = Some rest -> exists read, b = read ++ rest.
Proof.
  unfold skip_bytes. destruct (len b <? n); [done|]. intros [= <-].
  exists (take (Z.to_nat n) b). by rewrite take_drop.
Qed.

Definition sample_envelope_of (b : bytes) : option CommandEnvelope :=
  Some (mkCommandEnvelope b [] [] [] [] 0 None None 0 [] [] [] 0 0 [] [] [] [] [] [] None None None None).

Definition sample_prost : Prost.
Proof.
  refine {| decode_key := read_key; decode_length_delimiter := read_varint 10 0;
    skip_field := skip_value; decode_envelope := sample_envelope_of |}.
  - intros b tag w rest. unfold read_key.
    destruct (read_varint 10 0 b) as [[key r]|] eqn:E; [|done]. apply read_varint_consumes in E.
    intros E'. repeat (case_match; try discriminate); simplify_eq; exact E.
  - intros b n rest E. split; [by eapply read_varint_nonneg|].
    apply read_varint_consumes in E as (read & -> & _). by exists read.
  - intros w tag b rest. destruct w; unfold skip_value; try done; try apply skip_bytes_consumes.
    + intros ([v r] & E & ->)%fmap_Some. apply read_varint_consumes in E as (read & -> & _). by exists read.
    + destruct (read_varint 10 0 b) as [[n r]|] eqn:E; [|done]. apply read_varint_consumes in E as (read & -> & _).
      intros (read' & ->)%skip_bytes_consumes. exists (read ++ read'). by rewrite app_assoc.
Defined.

(** A known field and a nested timestamp are accepted; a field 3 inside the
    timestamp is refused. *)
Lemma strict_decoding_exact_witness :
  @conforms sample_prost KCommandEnvelope [x0a; x01; x61; x3a; x02; x08; x05]
  /\ ~ @conforms sample_prost KCommandEnvelope [x0a; x01; x61; x3a; x02; x18; x05].
Proof.
  destruct (@strict_decoding_exact sample_prost [x0a; x01; x61; x3a; x02; x08; x05]) as (r & E & Hr).
  destruct (@strict_decoding_exact sample_prost [x0a; x01; x61; x3a; x02; x18; x05]) as (r' & E' & Hr').
  vm_compute in E, E'. injection E as <-. injection E' as <-. split.
  - eapply (proj1 (Hr _)). reflexivity.
  - intros C. assert (Err (UnknownField "Timestamp" 3) = Ok (E := StrictWireError)
      (mkCommandEnvelope [x0a; x01; x61; x3a; x02; x18; x05] [] [] [] [] 0 None None 0 [] [] [] 0 0 [] [] [] [] [] [] None None None None))
      as X; [|discriminate X].
    apply (proj2 (Hr' _)). split; [exact C|reflexivity].
Defined.
