(* ===== verification/EffectRecords.v ===== *)
(** The records of the root-owned effect store of
    [rust/crates/ocserv-adapter/src/lib.rs]: the identities privd derives from
    a signed command, their validation, the three kinds of stored record, and
    the keyed authentication of every record (HMAC-SHA-256 over a
    domain-separated preimage).  SHA-256 is [Crypto.sha256]; the version of a
    UUID is [Platform.uuid_version]. *)

From stdpp Require Import base list gmap numbers countable strings.
From Stdlib Require Import ZArith Lia Bool Strings.Byte.
From S2P Require Import Prelude Bytes Contracts Authorization Sql Executor.

Local Open Scope Z_scope.

Definition EFFECT_STORE_KEY_BYTES : nat := 32.
Definition MAX_EFFECT_RECORDS : Z := 65536.
Definition MAX_ARTIFACT_BYTES : Z := 64 * 1024 * 1024.
(** [ocservia_agent_protocol::MAX_FRAME_BYTES] *)
Definition MAX_FRAME_BYTES : Z := 384 * 1024.

(** * Errors *)

(** An [io::Error]: one that wraps a database error, or one of the operating
    system (its kind is not inspected). *)
Inductive IoError := IoSql (source : SqlError) | IoOs.

Inductive AdapterError :=
| InvalidResource
| ResourceMetadata (resource reason : bytes) (actual expected : Z)
| ResourceIo (resource reason : bytes) (source : IoError)
| UserFileFormat (reason : bytes) (line fields : Z) (first_line : option Z)
| InvalidRequest
| StaleBoot
| Unavailable
| DeadlineExceeded
| OutputLimit
| CapacityExceeded
| CommandFailed (code : option Z)
| MalformedOutput
| Io (source : IoError).

Definition sqlite_io (error : SqlError) : AdapterError := Io (IoSql error).

Definition Adapt (A : Type) : Type := result AdapterError A.

(** * Identities *)

Record EffectIdentity := mkEffectIdentity {
  ei_command_id : bytes; ei_idempotency_key : bytes;
  ei_semantic_payload_sha256 : bytes; ei_expires_at_unix_seconds : Z }.

Record AuthorizedEffectIdentity := mkAuthorizedEffectIdentity {
  aei_node_id : bytes; aei_command_id : bytes; aei_operation_id : bytes;
  aei_idempotency_key : bytes; aei_semantic_payload_sha256 : bytes; aei_action : bytes;
  aei_authorization_revision : Z; aei_effect_kind : bytes; aei_resource_key : bytes;
  aei_effect_revision : Z; aei_expires_at_unix_seconds : Z; aei_retry_if_absent : bool }.

Record ArtifactLeaseIdentity := mkArtifactLeaseIdentity {
  ali_artifact_id : bytes; ali_certificate_id : bytes; ali_certificate_version : Z;
  ali_operation_id : bytes; ali_authorized_subject : bytes; ali_max_bytes : Z;
  ali_grant_id : bytes; ali_expires_at_unix_seconds : Z }.

Inductive AuthorizedEffectDecision :=
| DecideExecute
| DecideReplay (response : bytes)
| DecidePending.

#[export] Instance AuthorizedEffectDecision_eq_dec : EqDecision AuthorizedEffectDecision.
Proof. solve_decision. Defined.

Inductive PrepareEffect := Proceed | AlreadyApplied.

Record ValidatedEffectIdentity := mkValidatedEffectIdentity {
  vei_command_id : bytes; vei_idempotency_key : bytes; vei_payload_sha256 : bytes;
  vei_expires_at : Z }.

Record ValidatedAuthorizedEffect := mkValidatedAuthorizedEffect {
  vae_command_id : bytes; vae_idempotency_key : bytes; vae_node_id : bytes;
  vae_operation_id : bytes; vae_payload_sha256 : bytes; vae_action : bytes;
  vae_authorization_revision : Z; vae_effect_kind : bytes; vae_resource_key : bytes;
  vae_effect_revision : Z; vae_expires_at : Z; vae_delivery_mode : Z }.

Record ValidatedArtifactIdentity := mkValidatedArtifactIdentity {
  vai_artifact_id : bytes; vai_certificate_id : bytes; vai_certificate_version : Z;
  vai_operation_id : bytes; vai_authorized_subject : bytes; vai_max_bytes : Z;
  vai_grant_id : bytes; vai_expires_at : Z }.

(** * Stored records *)

Record EffectRecord := mkEffectRecord {
  er_mutation_kind : bytes; er_resource_key : bytes; er_revision : Z; er_command_id : bytes;
  er_idempotency_key : bytes; er_payload_sha256 : bytes; er_expires_at : Z; er_state : bytes;
  er_before_hmac : bytes; er_after_hmac : bytes; er_record_hmac : bytes }.

Record AuthorizedEffectRecord := mkAuthorizedEffectRecord {
  aer_command_id : bytes; aer_idempotency_key : bytes; aer_node_id : bytes;
  aer_operation_id : bytes; aer_payload_sha256 : bytes; aer_action : bytes;
  aer_authorization_revision : Z; aer_effect_kind : bytes; aer_resource_key : bytes;
  aer_effect_revision : Z; aer_expires_at : Z; aer_state : bytes; aer_delivery_mode : Z;
  aer_response : bytes; aer_record_hmac : bytes }.

Record ArtifactRecord := mkArtifactRecord {
  art_artifact_id : bytes; art_certificate_id : bytes; art_certificate_version : Z;
  art_operation_id : bytes; art_content_sha256 : bytes; art_content_size : Z;
  art_artifact_expires_at : Z; art_state : bytes; art_active_grant_id : option bytes;
  art_active_subject : bytes; art_grant_expires_at : option Z; art_active_offset : Z;
  art_record_hmac : bytes }.

(** [matches!(value, "a" | "b" | ...)] *)
Definition one_of (value : bytes) (l : list String.string) : bool :=
  existsb (fun s => bool_decide (value = str s)) l.

(** * Validation of the caller's identities *)

(** [<[u8; N]>::try_from(value).map_err(|_| InvalidRequest)] *)
Definition fixed_request (n : nat) (value : bytes) : Adapt bytes :=
  if bool_decide (length value = n) then Ok value else Err InvalidRequest.

(** [SystemTime::now()]: seconds since the epoch, [None] before it. *)
Definition effect_now (clock : option Z) : Adapt Z :=
  match clock with
  | Some seconds => if bool_decide (seconds <= i64_max) then Ok seconds else Err Unavailable
  | None => Err Unavailable
  end.

Definition name_first (b : byte) : bool := is_ascii_alphanumeric b.
Definition name_rest (b : byte) : bool :=
  is_ascii_alphanumeric b || bool_decide (b = x5f) || bool_decide (b = x2e) || bool_decide (b = x2d).

Definition validate_name (value : bytes) : Adapt unit :=
  if is_empty value || (64 <? len value) || negb (all_bytes_first name_first name_rest value)
  then Err InvalidRequest else Ok tt.

Definition validate_effect_identity (mutation_kind resource_key : bytes) (desired_revision : Z)
  : Adapt unit :=
  if negb (one_of mutation_kind
       ["user_create"; "user_disable"; "user_enable"; "user_password_rotate"; "group_apply";
        "config_apply"]%string)
     || (desired_revision =? 0)
  then Err InvalidRequest
  else validate_name resource_key.

Definition valid_effect_label (value : bytes) (maximum : Z) : bool :=
  negb (is_empty value) && (len value <=? maximum) && forallb name_rest value.

(** [u8::is_ascii_graphic] *)
Definition is_ascii_graphic (b : byte) : bool := (33 <=? byte_val b) && (byte_val b <=? 126).

Definition valid_effect_resource (value : bytes) : bool :=
  negb (is_empty value) && (len value <=? 512)
  && forallb (fun b => is_ascii_graphic b && bool_decide (b <> x5c)) value.

Section Identities.
Context `{Platform}.

Definition not_v7 (value : bytes) : bool := negb (uuid_version value =? 7).

Definition validate_effect_context (mutation_kind resource_key : bytes) (revision : Z)
  (identity : EffectIdentity) (now : Z) : Adapt ValidatedEffectIdentity :=
  let? _ := validate_effect_identity mutation_kind resource_key revision in
  let? command_id := fixed_request 16 (ei_command_id identity) in
  let? idempotency_key := fixed_request 16 (ei_idempotency_key identity) in
  let? payload_sha256 := fixed_request 32 (ei_semantic_payload_sha256 identity) in
  if not_v7 command_id || not_v7 idempotency_key
     || (ei_expires_at_unix_seconds identity <=? now)
  then Err InvalidRequest
  else Ok (mkValidatedEffectIdentity command_id idempotency_key payload_sha256
             (ei_expires_at_unix_seconds identity)).

Definition validate_artifact_identity_for_confirmation (identity : ArtifactLeaseIdentity)
  : Adapt ValidatedArtifactIdentity :=
  let? artifact_id := fixed_request 16 (ali_artifact_id identity) in
  let? certificate_id := fixed_request 16 (ali_certificate_id identity) in
  let? operation_id := fixed_request 16 (ali_operation_id identity) in
  let? grant_id := fixed_request 16 (ali_grant_id identity) in
  if existsb not_v7 [artifact_id; certificate_id; operation_id; grant_id]
     || (ali_certificate_version identity =? 0)
     || is_empty (ali_authorized_subject identity)
     || (256 <? len (ali_authorized_subject identity))
     || (ali_max_bytes identity =? 0)
     || (MAX_ARTIFACT_BYTES <? ali_max_bytes identity)
     || (ali_expires_at_unix_seconds identity <=? 0)
  then Err InvalidRequest
  else Ok (mkValidatedArtifactIdentity artifact_id certificate_id
             (ali_certificate_version identity) operation_id (ali_authorized_subject identity)
             (ali_max_bytes identity) grant_id (ali_expires_at_unix_seconds identity)).

Definition validate_artifact_identity (identity : ArtifactLeaseIdentity) (now : Z)
  : Adapt ValidatedArtifactIdentity :=
  let? validated := validate_artifact_identity_for_confirmation identity in
  if vai_expires_at validated <=? now then Err InvalidRequest else Ok validated.

Definition validate_authorized_effect (identity : AuthorizedEffectIdentity) (now : Z)
  : Adapt ValidatedAuthorizedEffect :=
  let? command_id := fixed_request 16 (aei_command_id identity) in
  let? idempotency_key := fixed_request 16 (aei_idempotency_key identity) in
  let? node_id := fixed_request 16 (aei_node_id identity) in
  let? operation_id := fixed_request 16 (aei_operation_id identity) in
  let? payload_sha256 := fixed_request 32 (aei_semantic_payload_sha256 identity) in
  if existsb not_v7 [command_id; idempotency_key; node_id; operation_id]
     || (aei_authorization_revision identity =? 0)
     || (aei_effect_revision identity =? 0)
     || (aei_expires_at_unix_seconds identity <=? now)
     || negb (valid_effect_label (aei_action identity) 128)
     || negb (valid_effect_label (aei_effect_kind identity) 128)
     || negb (valid_effect_resource (aei_resource_key identity))
  then Err InvalidRequest
  else Ok (mkValidatedAuthorizedEffect command_id idempotency_key node_id operation_id
             payload_sha256 (aei_action identity) (aei_authorization_revision identity)
             (aei_effect_kind identity) (aei_resource_key identity) (aei_effect_revision identity)
             (aei_expires_at_unix_seconds identity)
             (if aei_retry_if_absent identity then 3 else 1)).
End Identities.

(** * Authentication *)

(** [append_effect_field]: an 8-byte length, then the value. *)
Definition append_effect_field (value : bytes) : bytes := be 8 (len value) ++ value.

Definition AUTHORIZED_RECORD_DOMAIN : bytes :=
  str "ocservia.authorized-effect-record.v1" ++ [x00].
Definition ARTIFACT_RECORD_DOMAIN : bytes :=
  str "ocservia.certificate-artifact-record.v1" ++ [x00].
Definition DESIRED_RECORD_DOMAIN : bytes := str "ocservia.desired-effect-record.v1" ++ [x00].
Definition STORE_IDENTITY_DOMAIN : bytes := str "ocservia.effect-store-identity.v1" ++ [x00].
Definition FILE_DOMAIN : bytes := str "ocservia.authoritative-file.v1" ++ [x00].

Definition authorized_preimage (r : AuthorizedEffectRecord) : bytes :=
  AUTHORIZED_RECORD_DOMAIN ++ aer_command_id r ++ aer_idempotency_key r ++ aer_node_id r
  ++ aer_operation_id r ++ aer_payload_sha256 r ++ append_effect_field (aer_action r)
  ++ be 8 (aer_authorization_revision r) ++ append_effect_field (aer_effect_kind r)
  ++ append_effect_field (aer_resource_key r) ++ be 8 (aer_effect_revision r)
  ++ be 8 (aer_expires_at r) ++ append_effect_field (aer_state r)
  ++ be 8 (aer_delivery_mode r) ++ append_effect_field (aer_response r).

Definition artifact_preimage (r : ArtifactRecord) : bytes :=
  ARTIFACT_RECORD_DOMAIN ++ art_artifact_id r ++ art_certificate_id r
  ++ be 8 (art_certificate_version r) ++ art_operation_id r ++ art_content_sha256 r
  ++ be 8 (art_content_size r) ++ be 8 (art_artifact_expires_at r)
  ++ append_effect_field (art_state r) ++ optional_bytes (art_active_grant_id r)
  ++ append_effect_field (art_active_subject r)
  ++ optional_bytes (be 8 <$> art_grant_expires_at r) ++ be 8 (art_active_offset r).

(** The chunks of [authenticate_record]. *)
Definition desired_chunks (mutation_kind resource_key : bytes) (revision : Z)
  (identity : ValidatedEffectIdentity) (state before_hmac after_hmac : bytes) : list bytes :=
  [DESIRED_RECORD_DOMAIN; mutation_kind; [x00]; resource_key; [x00]; be 8 revision;
   vei_command_id identity; vei_idempotency_key identity; vei_payload_sha256 identity;
   be 8 (vei_expires_at identity); state; before_hmac; after_hmac].

Section Authentication.
Context `{Crypto}.

(** [pad] repeated over the 64-byte block, exclusive-or the key. *)
Definition xor_pad (pad : Z) (key : bytes) : bytes :=
  ((fun b => byte_of (Z.lxor pad (byte_val b))) <$> key)
  ++ replicate (64 - length key) (byte_of pad).

Definition hmac_sha256 (key : bytes) (chunks : list bytes) : bytes :=
  let inner_digest := sha256 (xor_pad 0x36 key ++ concat chunks) in
  sha256 (xor_pad 0x5c key ++ inner_digest).

Definition authenticate_authorized_record (key : bytes) (record : AuthorizedEffectRecord) : bytes :=
  hmac_sha256 key [authorized_preimage record].

Definition authenticate_artifact_record (key : bytes) (record : ArtifactRecord) : bytes :=
  hmac_sha256 key [artifact_preimage record].

Definition authenticate_record (key mutation_kind resource_key : bytes) (revision : Z)
  (identity : ValidatedEffectIdentity) (state before_hmac after_hmac : bytes) : bytes :=
  hmac_sha256 key
    (desired_chunks mutation_kind resource_key revision identity state before_hmac after_hmac).

Definition authenticate_file (key contents : bytes) : bytes :=
  hmac_sha256 key [FILE_DOMAIN; contents].

Definition authenticate_store_identity (key store_id : bytes) : bytes :=
  hmac_sha256 key [STORE_IDENTITY_DOMAIN; store_id].

(** * Validation of stored records *)

Definition validate_authorized_record (key : bytes) (record : AuthorizedEffectRecord) : Adapt unit :=
  if (MAX_FRAME_BYTES <? len (aer_response record))
     || negb (one_of (aer_state record) ["prepared"; "applied"]%string)
     || negb ((aer_delivery_mode record =? 1) || (aer_delivery_mode record =? 3))
     || bool_decide (authenticate_authorized_record key record <> aer_record_hmac record)
  then Err InvalidResource else Ok tt.

Definition validate_same_authorized_effect (record : AuthorizedEffectRecord)
  (identity : ValidatedAuthorizedEffect) : Adapt unit :=
  if bool_decide (aer_command_id record <> vae_command_id identity)
     || bool_decide (aer_idempotency_key record <> vae_idempotency_key identity)
     || bool_decide (aer_node_id record <> vae_node_id identity)
     || bool_decide (aer_operation_id record <> vae_operation_id identity)
     || bool_decide (aer_payload_sha256 record <> vae_payload_sha256 identity)
     || bool_decide (aer_action record <> vae_action identity)
     || bool_decide (aer_authorization_revision record <> vae_authorization_revision identity)
     || bool_decide (aer_effect_kind record <> vae_effect_kind identity)
     || bool_decide (aer_resource_key record <> vae_resource_key identity)
     || bool_decide (aer_effect_revision record <> vae_effect_revision identity)
  then Err InvalidRequest else Ok tt.

Definition authorized_record (identity : ValidatedAuthorizedEffect) (state response record_hmac : bytes)
  : AuthorizedEffectRecord :=
  mkAuthorizedEffectRecord (vae_command_id identity) (vae_idempotency_key identity)
    (vae_node_id identity) (vae_operation_id identity) (vae_payload_sha256 identity)
    (vae_action identity) (vae_authorization_revision identity) (vae_effect_kind identity)
    (vae_resource_key identity) (vae_effect_revision identity) (vae_expires_at identity)
    state (vae_delivery_mode identity) response record_hmac.

Definition is_leased (record : ArtifactRecord) : bool :=
  bool_decide (art_state record = str "leased").

Definition validate_artifact_record (key : bytes) (record : ArtifactRecord) : Adapt unit :=
  if (MAX_ARTIFACT_BYTES <? art_content_size record)
     || (bool_decide (art_state record = str "prepared") && negb (art_content_size record =? 0))
     || (negb (one_of (art_state record) ["prepared"; "expired"; "revoked"]%string)
         && (art_content_size record =? 0))
     || negb (one_of (art_state record)
          ["prepared"; "available"; "leased"; "consumed"; "expired"; "revoked"]%string)
     || (is_leased record
         && (bool_decide (art_active_grant_id record = None)
             || is_empty (art_active_subject record)
             || bool_decide (art_grant_expires_at record = None)))
     || (art_content_size record <? art_active_offset record)
     || (bool_decide (art_state record = str "available") && negb (art_active_offset record =? 0))
     || bool_decide (authenticate_artifact_record key record <> art_record_hmac record)
  then Err InvalidResource else Ok tt.

Definition effect_record_identity (record : EffectRecord) : ValidatedEffectIdentity :=
  mkValidatedEffectIdentity (er_command_id record) (er_idempotency_key record)
    (er_payload_sha256 record) (er_expires_at record).

Definition validate_effect_record (key : bytes) (record : EffectRecord) : Adapt unit :=
  let expected := authenticate_record key (er_mutation_kind record) (er_resource_key record)
    (er_revision record) (effect_record_identity record) (er_state record)
    (er_before_hmac record) (er_after_hmac record) in
  if bool_decide (expected <> er_record_hmac record) then Err InvalidResource else Ok tt.

Definition validate_same_effect (record : EffectRecord) (identity : ValidatedEffectIdentity)
  : Adapt unit :=
  if bool_decide (er_command_id record <> vei_command_id identity)
     || bool_decide (er_idempotency_key record <> vei_idempotency_key identity)
     || bool_decide (er_payload_sha256 record <> vei_payload_sha256 identity)
  then Err InvalidRequest else Ok tt.
End Authentication.
