(* ===== verification/EffectStore.v ===== *)
(** The root-owned effect store, [EffectStore] of
    [rust/crates/ocserv-adapter/src/lib.rs]: its tables, its queries and every
    method.  A method takes the clock it reads ([None] when the system clock
    is before the epoch) and runs over the SQLite connection of [Sql]; a
    method that opens an immediate transaction commits it on every [Ok] path
    and drops it on every [Err] path, which is [transaction_with]. *)

From stdpp Require Import base list gmap numbers countable strings sorting.
From Stdlib Require Import ZArith Lia Bool Strings.Byte.
From S2P Require Import Prelude Bytes Contracts Authorization Sql Executor.
From S2P Require Import EffectRecords.

Local Open Scope Z_scope.
Local Open Scope sql_scope.

(** * Tables *)

(** A stored row: the columns of the record and [updated_at]. *)
Record Row (R : Type) := mkRow { row_record : R; row_updated : Z }.
Arguments mkRow {R} _ _.
Arguments row_record {R} _.
Arguments row_updated {R} _.

Record EffectDb := mkEffectDb {
  edb_identity : option (bytes * bytes);
  edb_desired : gmap (bytes * bytes) (Row EffectRecord);
  edb_authorized : gmap bytes (Row AuthorizedEffectRecord);
  edb_artifacts : gmap bytes (Row ArtifactRecord) }.

(** A table: its rows by primary key and the [CHECK] and [UNIQUE] constraints
    that an [INSERT] or [UPDATE] must satisfy. *)
Record Table (K R : Type) `{Countable K} := mkTable {
  tbl_rows : EffectDb -> gmap K (Row R);
  tbl_with : gmap K (Row R) -> EffectDb -> EffectDb;
  tbl_check : gmap K (Row R) -> R -> bool }.
Arguments mkTable {K R _ _} _ _ _.
Arguments tbl_rows {K R _ _} _ _.
Arguments tbl_with {K R _ _} _ _ _.
Arguments tbl_check {K R _ _} _ _ _.

Definition blob (n : nat) (b : bytes) : bool := bool_decide (length b = n).

(** [CREATE TABLE desired_effects] *)
Definition desired_check (r : EffectRecord) : bool :=
  (0 <? er_revision r) && blob 16 (er_command_id r) && blob 16 (er_idempotency_key r)
  && blob 32 (er_payload_sha256 r) && one_of (er_state r) ["prepared"; "applied"; "absent"]%string
  && blob 32 (er_before_hmac r) && blob 32 (er_after_hmac r) && blob 32 (er_record_hmac r).

(** [CREATE TABLE authorized_effects] *)
Definition authorized_check (r : AuthorizedEffectRecord) : bool :=
  blob 16 (aer_command_id r) && blob 16 (aer_idempotency_key r) && blob 16 (aer_node_id r)
  && blob 16 (aer_operation_id r) && blob 32 (aer_payload_sha256 r)
  && (0 <? aer_authorization_revision r) && (0 <? aer_effect_revision r)
  && one_of (aer_state r) ["prepared"; "applied"]%string
  && ((aer_delivery_mode r =? 1) || (aer_delivery_mode r =? 3))
  && (len (aer_response r) <=? 393216) && blob 32 (aer_record_hmac r).

(** [idempotency_key ... UNIQUE]: no other row has the key. *)
Definition idempotency_unique (rows : gmap bytes (Row AuthorizedEffectRecord))
  (r : AuthorizedEffectRecord) : bool :=
  forallb (fun '(k, row) => bool_decide (k = aer_command_id r)
             || bool_decide (aer_idempotency_key (row_record row) <> aer_idempotency_key r))
          (map_to_list rows).

(** [CREATE TABLE certificate_artifacts].  [CHECK(length(active_subject) <= 256)]
    counts characters; it is implied by the bound on bytes that
    [validate_artifact_identity_for_confirmation] puts on every subject the
    code writes, and is not repeated. *)
Definition artifact_check (r : ArtifactRecord) : bool :=
  blob 16 (art_artifact_id r) && blob 16 (art_certificate_id r)
  && (0 <? art_certificate_version r) && blob 16 (art_operation_id r)
  && blob 32 (art_content_sha256 r)
  && ((0 <=? art_content_size r) && (art_content_size r <=? 67108864))
  && one_of (art_state r)
       ["prepared"; "available"; "leased"; "consumed"; "expired"; "revoked"]%string
  && match art_active_grant_id r with Some g => blob 16 g | None => true end
  && ((0 <=? art_active_offset r) && (art_active_offset r <=? art_content_size r))
  && blob 32 (art_record_hmac r)
  && (negb (is_leased r)
      || (bool_decide (art_active_grant_id r <> None) && bool_decide (art_grant_expires_at r <> None)
          && negb (is_empty (art_active_subject r))))
  && ((bool_decide (art_state r = str "prepared") && (art_content_size r =? 0))
      || one_of (art_state r) ["expired"; "revoked"]%string
      || (negb (one_of (art_state r) ["prepared"; "expired"; "revoked"]%string)
          && (1 <=? art_content_size r))).

Definition desired_effects : Table (bytes * bytes) EffectRecord :=
  mkTable edb_desired
    (fun t d => mkEffectDb (edb_identity d) t (edb_authorized d) (edb_artifacts d))
    (fun _ => desired_check).

Definition authorized_effects : Table bytes AuthorizedEffectRecord :=
  mkTable edb_authorized
    (fun t d => mkEffectDb (edb_identity d) (edb_desired d) t (edb_artifacts d))
    (fun rows r => authorized_check r && idempotency_unique rows r).

Definition certificate_artifacts : Table bytes ArtifactRecord :=
  mkTable edb_artifacts
    (fun t d => mkEffectDb (edb_identity d) (edb_desired d) (edb_authorized d) t)
    (fun _ => artifact_check).

Section Statements.
Context {K R : Type} `{Countable K} (T : Table K R).

(** The row stored under [k], decoded by the closure of [query_row]. *)
Definition select_row (decode : R -> result SqlError R) (k : K) : Sql EffectDb (option R) :=
  query (fun d =>
    match tbl_rows T d !! k with
    | Some row => let? r := decode (row_record row) in Ok (Some r)
    | None => Ok None
    end).

(** The keys of the rows that satisfy the [WHERE] clause. *)
Definition select_keys (decode : K -> result SqlError K) (cond : R -> bool) : Sql EffectDb (list K) :=
  query (fun d =>
    let rows := List.filter (fun '(_, row) => cond (row_record row)) (map_to_list (tbl_rows T d)) in
    fold_right (fun k acc => let? rest := acc in let? k' := decode k in Ok (k' :: rest))
               (Ok []) (fst <$> rows)).

Definition count_rows : Sql EffectDb Z := query (fun d => Ok (Z.of_nat (size (tbl_rows T d)))).

Definition insert_row (k : K) (r : R) (now : Z) : Sql EffectDb unit :=
  stmt (fun d =>
    if bool_decide (tbl_rows T d !! k <> None) || negb (tbl_check T (tbl_rows T d) r)
    then Err ConstraintViolation
    else Ok (tt, tbl_with T (<[k := mkRow r now]> (tbl_rows T d)) d)).

(** [INSERT ... ON CONFLICT DO UPDATE] of every other column. *)
Definition upsert_row (k : K) (r : R) (now : Z) : Sql EffectDb unit :=
  stmt (fun d =>
    if negb (tbl_check T (tbl_rows T d) r) then Err ConstraintViolation
    else Ok (tt, tbl_with T (<[k := mkRow r now]> (tbl_rows T d)) d)).

(** [UPDATE ... SET set, updated_at=now WHERE key=k AND cond]: the number of
    changed rows. *)
Definition update_row (k : K) (cond : R -> bool) (set : R -> R) (now : Z) : Sql EffectDb Z :=
  stmt (fun d =>
    match tbl_rows T d !! k with
    | Some row =>
        if cond (row_record row) then
          if negb (tbl_check T (tbl_rows T d) (set (row_record row))) then Err ConstraintViolation
          else Ok (1, tbl_with T (<[k := mkRow (set (row_record row)) now]> (tbl_rows T d)) d)
        else Ok (0, d)
    | None => Ok (0, d)
    end).

Definition delete_row (k : K) (cond : R -> bool) : Sql EffectDb Z :=
  stmt (fun d =>
    match tbl_rows T d !! k with
    | Some row =>
        if cond (row_record row) then Ok (1, tbl_with T (delete k (tbl_rows T d)) d) else Ok (0, d)
    | None => Ok (0, d)
    end).
End Statements.

(** * Decoding *)

Definition fixed_blob (n : nat) (value : bytes) : result SqlError bytes :=
  if bool_decide (length value = n) then Ok value else Err InvalidQuery.

(** [u64::try_from(value).map_err(|_| InvalidQuery)] *)
Definition u64_column (value : Z) : result SqlError Z :=
  if 0 <=? value then Ok value else Err InvalidQuery.

Definition state_column (allowed : list String.string) (value : bytes) : result SqlError bytes :=
  if one_of value allowed then Ok value else Err InvalidQuery.

Definition decode_authorized (r : AuthorizedEffectRecord) : result SqlError AuthorizedEffectRecord :=
  let? command_id := fixed_blob 16 (aer_command_id r) in
  let? idempotency_key := fixed_blob 16 (aer_idempotency_key r) in
  let? node_id := fixed_blob 16 (aer_node_id r) in
  let? operation_id := fixed_blob 16 (aer_operation_id r) in
  let? payload_sha256 := fixed_blob 32 (aer_payload_sha256 r) in
  let? authorization_revision := u64_column (aer_authorization_revision r) in
  let? effect_revision := u64_column (aer_effect_revision r) in
  let? state := state_column ["prepared"; "applied"]%string (aer_state r) in
  let? record_hmac := fixed_blob 32 (aer_record_hmac r) in
  Ok (mkAuthorizedEffectRecord command_id idempotency_key node_id operation_id payload_sha256
        (aer_action r) authorization_revision (aer_effect_kind r) (aer_resource_key r)
        effect_revision (aer_expires_at r) state (aer_delivery_mode r) (aer_response r) record_hmac).

Definition decode_artifact (r : ArtifactRecord) : result SqlError ArtifactRecord :=
  let? artifact_id := fixed_blob 16 (art_artifact_id r) in
  let? certificate_id := fixed_blob 16 (art_certificate_id r) in
  let? certificate_version := u64_column (art_certificate_version r) in
  let? operation_id := fixed_blob 16 (art_operation_id r) in
  let? content_sha256 := fixed_blob 32 (art_content_sha256 r) in
  let? content_size := u64_column (art_content_size r) in
  let? state := state_column
    ["prepared"; "available"; "leased"; "consumed"; "expired"; "revoked"]%string (art_state r) in
  let? active_grant_id :=
    match art_active_grant_id r with
    | Some g => let? g' := fixed_blob 16 g in Ok (Some g')
    | None => Ok None
    end in
  let? active_offset := u64_column (art_active_offset r) in
  let? record_hmac := fixed_blob 32 (art_record_hmac r) in
  Ok (mkArtifactRecord artifact_id certificate_id certificate_version operation_id content_sha256
        content_size (art_artifact_expires_at r) state active_grant_id (art_active_subject r)
        (art_grant_expires_at r) active_offset record_hmac).

Definition decode_effect (allowed : list String.string) (r : EffectRecord)
  : result SqlError EffectRecord :=
  let? revision := u64_column (er_revision r) in
  let? command_id := fixed_blob 16 (er_command_id r) in
  let? idempotency_key := fixed_blob 16 (er_idempotency_key r) in
  let? payload_sha256 := fixed_blob 32 (er_payload_sha256 r) in
  let? state := state_column allowed (er_state r) in
  let? before_hmac := fixed_blob 32 (er_before_hmac r) in
  let? after_hmac := fixed_blob 32 (er_after_hmac r) in
  let? record_hmac := fixed_blob 32 (er_record_hmac r) in
  Ok (mkEffectRecord (er_mutation_kind r) (er_resource_key r) revision command_id idempotency_key
        payload_sha256 (er_expires_at r) state before_hmac after_hmac record_hmac).

(** * Queries *)

Definition Eff (A : Type) : Type := Run EffectDb AdapterError A.

Definition query_authorized_effect (command_id : bytes) : Eff (option AuthorizedEffectRecord) :=
  sql sqlite_io (select_row authorized_effects decode_authorized command_id).

Definition query_artifact (artifact_id : bytes) : Eff (option ArtifactRecord) :=
  sql sqlite_io (select_row certificate_artifacts decode_artifact artifact_id).

Definition query_effect (mutation_kind resource_key : bytes) : Eff (option EffectRecord) :=
  sql sqlite_io (select_row desired_effects
    (decode_effect ["prepared"; "applied"; "absent"]%string) (mutation_kind, resource_key)).

Definition query_certificate_artifacts (certificate_id : bytes) : Eff (list bytes) :=
  sql sqlite_io (select_keys certificate_artifacts (fixed_blob 16)
    (fun r => bool_decide (art_certificate_id r = certificate_id))).

(** [ORDER BY artifact_id] *)
Definition id_le (a b : bytes) : Prop := bytes_leb a b = true.

#[export] Instance id_le_dec a b : Decision (id_le a b).
Proof. unfold id_le. apply _. Defined.

Definition query_all_artifacts : Eff (list bytes) :=
  sql sqlite_io (ids <- select_keys certificate_artifacts (fixed_blob 16) (fun _ => true) ;;
                 ret (merge_sort id_le ids)).

(** [ORDER BY mutation_kind, resource_key] *)
Definition effect_le (a b : EffectRecord) : Prop :=
  match bytes_compare (er_mutation_kind a) (er_mutation_kind b) with
  | Lt => True
  | Eq => bytes_leb (er_resource_key a) (er_resource_key b) = true
  | Gt => False
  end.

#[export] Instance effect_le_dec a b : Decision (effect_le a b).
Proof. unfold effect_le. destruct (bytes_compare _ _); apply _. Defined.

Definition query_prepared_effects (config_effects : bool) : Eff (list EffectRecord) :=
  sql sqlite_io (query (fun d =>
    let rows := List.filter (fun r =>
      bool_decide (er_state r = str "prepared")
      && Bool.eqb (bool_decide (er_mutation_kind r = str "config_apply")) config_effects)
      (row_record <$> (map_to_list (edb_desired d)).*2) in
    fold_right (fun r acc => let? rest := acc in
                  let? r' := decode_effect ["prepared"]%string r in Ok (r' :: rest))
               (Ok []) (merge_sort effect_le rows))).

(** [i64::try_from(value).map_err(|_| error)] on an unsigned integer. *)
Definition i64_or (error : AdapterError) (value : Z) : Adapt Z :=
  if value <=? i64_max then Ok value else Err error.

(** [if changed != 1 { return Err(Unavailable) }] *)
Definition changed_one (changed : Z) : Adapt unit :=
  if changed =? 1 then Ok tt else Err Unavailable.

(** * Column updates *)

Definition aer_set (expires_at : Z) (state : bytes) (delivery_mode : Z) (response record_hmac : bytes)
  (r : AuthorizedEffectRecord) : AuthorizedEffectRecord :=
  mkAuthorizedEffectRecord (aer_command_id r) (aer_idempotency_key r) (aer_node_id r)
    (aer_operation_id r) (aer_payload_sha256 r) (aer_action r) (aer_authorization_revision r)
    (aer_effect_kind r) (aer_resource_key r) (aer_effect_revision r) expires_at state
    delivery_mode response record_hmac.

Definition aer_seal (record_hmac : bytes) (r : AuthorizedEffectRecord) : AuthorizedEffectRecord :=
  aer_set (aer_expires_at r) (aer_state r) (aer_delivery_mode r) (aer_response r) record_hmac r.

Definition art_set (content_sha256 : bytes) (content_size : Z) (state : bytes)
  (active_grant_id : option bytes) (active_subject : bytes) (grant_expires_at : option Z)
  (active_offset : Z) (record_hmac : bytes) (r : ArtifactRecord) : ArtifactRecord :=
  mkArtifactRecord (art_artifact_id r) (art_certificate_id r) (art_certificate_version r)
    (art_operation_id r) content_sha256 content_size (art_artifact_expires_at r) state
    active_grant_id active_subject grant_expires_at active_offset record_hmac.

Definition art_content (sha256 : bytes) (size : Z) (state : bytes) (r : ArtifactRecord) : ArtifactRecord :=
  art_set sha256 size state (art_active_grant_id r) (art_active_subject r)
    (art_grant_expires_at r) (art_active_offset r) (art_record_hmac r) r.

Definition art_lease (state : bytes) (grant : option bytes) (subject : bytes) (expires : option Z)
  (offset : Z) (r : ArtifactRecord) : ArtifactRecord :=
  art_set (art_content_sha256 r) (art_content_size r) state grant subject expires offset
    (art_record_hmac r) r.

Definition art_state_to (state : bytes) (r : ArtifactRecord) : ArtifactRecord :=
  art_content (art_content_sha256 r) (art_content_size r) state r.

Definition art_seal (record_hmac : bytes) (r : ArtifactRecord) : ArtifactRecord :=
  art_set (art_content_sha256 r) (art_content_size r) (art_state r) (art_active_grant_id r)
    (art_active_subject r) (art_grant_expires_at r) (art_active_offset r) record_hmac r.

Definition er_set (state record_hmac : bytes) (r : EffectRecord) : EffectRecord :=
  mkEffectRecord (er_mutation_kind r) (er_resource_key r) (er_revision r) (er_command_id r)
    (er_idempotency_key r) (er_payload_sha256 r) (er_expires_at r) state (er_before_hmac r)
    (er_after_hmac r) record_hmac.

(** * Observations *)

Inductive DesiredEffectState :=
| StateUnspecified | StateAppliedExact | StateSupersededByNewerRevision | StateAbsent | StateUnknown.

Record DesiredEffectObservation := mkDesiredEffectObservation {
  deo_state : DesiredEffectState; deo_observed_revision : Z }.

(** * Authorized effects *)

Section Methods.
Context `{Crypto} `{Platform} (hmac_key : bytes).

Definition immediate {A} (body : Eff A) : Eff A := transaction_with sqlite_io body.

Definition validate_identity : Eff unit :=
  row <- sql sqlite_io (query (fun d => ok_or (edb_identity d) QueryReturnedNoRows)) ;;
  let '(store_id, identity_hmac) := row in
  lift (if negb (blob 16 store_id) || negb (blob 32 identity_hmac)
           || bool_decide (authenticate_store_identity hmac_key store_id <> identity_hmac)
        then Err InvalidResource else Ok tt).

(** The body of the loop over the expired, applied rows. *)
Fixpoint prune_each (command_ids : list bytes) (now : Z) : Eff unit :=
  match command_ids with
  | [] => ret tt
  | command_id :: rest =>
      found <- query_authorized_effect command_id ;;
      record <- lift (ok_or found Unavailable) ;;
      lift (validate_authorized_record hmac_key record) ;;;
      (if bool_decide (aer_state record <> str "applied") || (now <? aer_expires_at record)
       then throw InvalidResource else ret tt) ;;;
      changed <- sql sqlite_io (delete_row authorized_effects command_id
        (fun r => bool_decide (aer_state r = str "applied") && (aer_expires_at r <=? now))) ;;
      lift (changed_one changed) ;;;
      prune_each rest now
  end.

Definition prune_expired_authorized_effects (now : Z) : Eff unit :=
  command_ids <- sql sqlite_io (select_keys authorized_effects (fixed_blob 16)
    (fun r => bool_decide (aer_state r = str "applied") && (aer_expires_at r <=? now))) ;;
  prune_each command_ids now.

(** [SELECT command_id FROM authorized_effects WHERE idempotency_key=?1] *)
Definition idempotency_owner (idempotency_key : bytes) : Eff (option bytes) :=
  sql sqlite_io (query (fun d => Ok (head (fst <$>
    List.filter (fun '(_, row) => bool_decide (aer_idempotency_key (row_record row) = idempotency_key))
      (map_to_list (edb_authorized d)))))).

Definition prepare_authorized (clock : option Z) (identity : AuthorizedEffectIdentity)
  : Eff AuthorizedEffectDecision :=
  now <- lift (effect_now clock) ;;
  identity <- lift (validate_authorized_effect identity now) ;;
  immediate (
    found <- query_authorized_effect (vae_command_id identity) ;;
    match found with
    | Some existing =>
        lift (validate_authorized_record hmac_key existing) ;;;
        lift (validate_same_authorized_effect existing identity) ;;;
        if bool_decide (aer_state existing = str "applied")
        then ret (DecideReplay (aer_response existing))
        else if (vae_delivery_mode identity =? 3) && (aer_delivery_mode existing =? 1) then
          let existing := aer_set (vae_expires_at identity) (aer_state existing) 3
                            (aer_response existing) (aer_record_hmac existing) existing in
          let record_hmac := authenticate_authorized_record hmac_key existing in
          changed <- sql sqlite_io (update_row authorized_effects (vae_command_id identity)
            (fun r => bool_decide (aer_state r = str "prepared") && (aer_delivery_mode r =? 1))
            (fun r => aer_set (vae_expires_at identity) (aer_state r) 3 (aer_response r) record_hmac r)
            now) ;;
          lift (changed_one changed) ;;;
          ret DecideExecute
        else ret DecidePending
    | None =>
        owner <- idempotency_owner (vae_idempotency_key identity) ;;
        (if bool_decide (owner <> None) then throw InvalidRequest else ret tt) ;;;
        prune_expired_authorized_effects now ;;;
        count <- sql sqlite_io (count_rows authorized_effects) ;;
        (if MAX_EFFECT_RECORDS <=? count then throw Unavailable else ret tt) ;;;
        let record := authorized_record identity (str "prepared") [] (replicate 32 x00) in
        let record_hmac := authenticate_authorized_record hmac_key record in
        lift (i64_or InvalidRequest (vae_authorization_revision identity)) ;;;
        lift (i64_or InvalidRequest (vae_effect_revision identity)) ;;;
        sql sqlite_io (insert_row authorized_effects (vae_command_id identity)
          (authorized_record identity (str "prepared") [] record_hmac) now) ;;;
        ret DecideExecute
    end).

Definition complete_authorized (clock : option Z) (identity : AuthorizedEffectIdentity)
  (response : bytes) : Eff unit :=
  (if is_empty response || (MAX_FRAME_BYTES <? len response) then throw OutputLimit else ret tt) ;;;
  now <- lift (effect_now clock) ;;
  identity <- lift (validate_authorized_effect identity 0) ;;
  immediate (
    found <- query_authorized_effect (vae_command_id identity) ;;
    existing <- lift (ok_or found Unavailable) ;;
    lift (validate_authorized_record hmac_key existing) ;;;
    lift (validate_same_authorized_effect existing identity) ;;;
    if bool_decide (aer_state existing = str "applied") then
      if bool_decide (aer_response existing <> response) then throw InvalidRequest else ret tt
    else
      let existing := aer_set (vae_expires_at identity) (str "applied") (vae_delivery_mode identity)
                        response (aer_record_hmac existing) existing in
      let record_hmac := authenticate_authorized_record hmac_key existing in
      changed <- sql sqlite_io (update_row authorized_effects (vae_command_id identity)
        (fun r => bool_decide (aer_state r = str "prepared"))
        (fun r => aer_set (vae_expires_at identity) (str "applied") (vae_delivery_mode identity)
                    response record_hmac r) now) ;;
      lift (changed_one changed)).

Definition replay_authorized (identity : AuthorizedEffectIdentity) : Eff (option bytes) :=
  identity <- lift (validate_authorized_effect identity 0) ;;
  found <- query_authorized_effect (vae_command_id identity) ;;
  match found with
  | None => ret None
  | Some record =>
      lift (validate_authorized_record hmac_key record) ;;;
      lift (validate_same_authorized_effect record identity) ;;;
      ret (if bool_decide (aer_state record = str "applied") then Some (aer_response record) else None)
  end.

(** * Desired effects *)

Definition effect_observation (state : DesiredEffectState) (revision : Z) : DesiredEffectObservation :=
  mkDesiredEffectObservation state revision.

Definition is_config (mutation_kind : bytes) : bool := bool_decide (mutation_kind = str "config_apply").

Definition update_effect_state (record : EffectRecord) (state : bytes) (now : Z) : Eff unit :=
  let record_hmac := authenticate_record hmac_key (er_mutation_kind record)
    (er_resource_key record) (er_revision record) (effect_record_identity record) state
    (er_before_hmac record) (er_after_hmac record) in
  lift (i64_or InvalidResource (er_revision record)) ;;;
  changed <- sql sqlite_io (update_row desired_effects (er_mutation_kind record, er_resource_key record)
    (fun r => er_revision r =? er_revision record) (er_set state record_hmac) now) ;;
  lift (changed_one changed).

(** The loop of [prepare] over the pending effects of the same file. *)
Fixpoint settle_prepared (prepared : list EffectRecord) (mutation_kind resource_key : bytes)
  (revision : Z) (identity : ValidatedEffectIdentity) (current_hmac : bytes) (now : Z) : Eff unit :=
  match prepared with
  | [] => ret tt
  | record :: rest =>
      lift (validate_effect_record hmac_key record) ;;;
      (if bool_decide (current_hmac = er_after_hmac record) then
         if negb (is_config (er_mutation_kind record))
         then update_effect_state record (str "applied") now else ret tt
       else
         let same_pending := bool_decide (er_mutation_kind record = mutation_kind)
           && bool_decide (er_resource_key record = resource_key)
           && (er_revision record =? revision) && is_ok (validate_same_effect record identity) in
         if bool_decide (current_hmac <> er_before_hmac record) || negb same_pending
         then throw Unavailable else ret tt) ;;;
      settle_prepared rest mutation_kind resource_key revision identity current_hmac now
  end.

(** The insertion that ends [prepare]. *)
Definition record_prepared (mutation_kind resource_key : bytes) (revision : Z)
  (identity : ValidatedEffectIdentity) (before after : bytes) (now : Z) : Eff PrepareEffect :=
  let before_hmac := authenticate_file hmac_key before in
  let after_hmac := authenticate_file hmac_key after in
  let record_hmac := authenticate_record hmac_key mutation_kind resource_key revision identity
    (str "prepared") before_hmac after_hmac in
  lift (i64_or InvalidRequest revision) ;;;
  sql sqlite_io (upsert_row desired_effects (mutation_kind, resource_key)
    (mkEffectRecord mutation_kind resource_key revision (vei_command_id identity)
       (vei_idempotency_key identity) (vei_payload_sha256 identity) (vei_expires_at identity)
       (str "prepared") before_hmac after_hmac record_hmac) now) ;;;
  ret Proceed.

Definition prepare (clock : option Z) (mutation_kind resource_key : bytes) (revision : Z)
  (identity : EffectIdentity) (before after : bytes) : Eff PrepareEffect :=
  now <- lift (effect_now clock) ;;
  identity <- lift (validate_effect_context mutation_kind resource_key revision identity now) ;;
  immediate (
    let current_hmac := authenticate_file hmac_key before in
    prepared <- query_prepared_effects (is_config mutation_kind) ;;
    settle_prepared prepared mutation_kind resource_key revision identity current_hmac now ;;;
    found <- query_effect mutation_kind resource_key ;;
    match found with
    | Some existing =>
        lift (validate_effect_record hmac_key existing) ;;;
        if revision <? er_revision existing then throw InvalidRequest
        else if er_revision existing =? revision then
          lift (validate_same_effect existing identity) ;;;
          if bool_decide (er_state existing = str "applied") then ret AlreadyApplied
          else if bool_decide (current_hmac = er_after_hmac existing) then
            if is_config mutation_kind then ret Proceed
            else update_effect_state existing (str "applied") now ;;; ret AlreadyApplied
          else if bool_decide (current_hmac <> er_before_hmac existing) then throw Unavailable
          else record_prepared mutation_kind resource_key revision identity before after now
        else record_prepared mutation_kind resource_key revision identity before after now
    | None =>
        count <- sql sqlite_io (count_rows desired_effects) ;;
        if MAX_EFFECT_RECORDS <=? count then throw Unavailable
        else record_prepared mutation_kind resource_key revision identity before after now
    end).

(** [mark_applied] and [mark_absent] differ in the state they write. *)
Definition mark_state (state : bytes) (clock : option Z) (mutation_kind resource_key : bytes)
  (revision : Z) (identity : EffectIdentity) : Eff unit :=
  now <- lift (effect_now clock) ;;
  identity <- lift (validate_effect_context mutation_kind resource_key revision identity 0) ;;
  immediate (
    found <- query_effect mutation_kind resource_key ;;
    record <- lift (ok_or found Unavailable) ;;
    lift (validate_effect_record hmac_key record) ;;;
    lift (validate_same_effect record identity) ;;;
    update_effect_state record state now).

Definition mark_applied := mark_state (str "applied").
Definition mark_absent := mark_state (str "absent").

Definition observe (clock : option Z) (mutation_kind resource_key : bytes) (revision : Z)
  (identity : EffectIdentity) (current : bytes) : Eff DesiredEffectObservation :=
  now <- lift (effect_now clock) ;;
  identity <- lift (validate_effect_context mutation_kind resource_key revision identity 0) ;;
  immediate (
    found <- query_effect mutation_kind resource_key ;;
    match found with
    | None => ret (effect_observation StateUnknown 0)
    | Some record =>
        lift (validate_effect_record hmac_key record) ;;;
        if revision <? er_revision record
        then ret (effect_observation StateSupersededByNewerRevision (er_revision record))
        else if er_revision record <? revision
        then ret (effect_observation StateUnknown (er_revision record))
        else if negb (is_ok (validate_same_effect record identity))
        then ret (effect_observation StateUnknown (er_revision record))
        else if bool_decide (er_state record = str "applied")
        then ret (effect_observation StateAppliedExact revision)
        else if bool_decide (er_state record = str "absent")
        then ret (effect_observation StateAbsent revision)
        else
          let current_hmac := authenticate_file hmac_key current in
          state <-
            (if bool_decide (current_hmac = er_after_hmac record) && is_config mutation_kind
             then ret StateAbsent
             else if bool_decide (current_hmac = er_after_hmac record)
             then update_effect_state record (str "applied") now ;;; ret StateAppliedExact
             else if bool_decide (current_hmac = er_before_hmac record) && is_config mutation_kind
             then update_effect_state record (str "absent") now ;;; ret StateAbsent
             else if bool_decide (current_hmac = er_before_hmac record) then ret StateAbsent
             else ret StateUnknown) ;;
          ret (effect_observation state revision)
    end).

(** * Certificate artifacts *)

(** The record agrees with the certificate, version and operation. *)
Definition same_certificate (record : ArtifactRecord) (certificate_id : bytes)
  (certificate_version : Z) (operation_id : bytes) : bool :=
  bool_decide (art_certificate_id record = certificate_id)
  && (art_certificate_version record =? certificate_version)
  && bool_decide (art_operation_id record = operation_id).

Definition register_artifact (clock : option Z) (artifact_id certificate_id : bytes)
  (certificate_version : Z) (operation_id content_sha256 : bytes) (content_size : Z)
  (artifact_expires_at : Z) : Eff unit :=
  now <- lift (effect_now clock) ;;
  artifact_id <- lift (fixed_request 16 artifact_id) ;;
  certificate_id <- lift (fixed_request 16 certificate_id) ;;
  operation_id <- lift (fixed_request 16 operation_id) ;;
  digest <- lift (fixed_request 32 content_sha256) ;;
  (if existsb not_v7 [artifact_id; certificate_id; operation_id] || (certificate_version =? 0)
      || (content_size =? 0) || (MAX_ARTIFACT_BYTES <? content_size) || (artifact_expires_at <=? now)
   then throw InvalidRequest else ret tt) ;;;
  immediate (
    found <- query_artifact artifact_id ;;
    record <- lift (ok_or found InvalidRequest) ;;
    lift (validate_artifact_record hmac_key record) ;;;
    (if negb (same_certificate record certificate_id certificate_version operation_id)
        || negb (art_artifact_expires_at record =? artifact_expires_at)
     then throw InvalidRequest else ret tt) ;;;
    if one_of (art_state record) ["available"; "leased"]%string then
      if bool_decide (art_content_sha256 record <> digest)
         || negb (art_content_size record =? content_size)
      then throw InvalidRequest else ret tt
    else if bool_decide (art_state record <> str "prepared") then throw InvalidRequest
    else
      let record := art_content digest content_size (str "available") record in
      let record_hmac := authenticate_artifact_record hmac_key record in
      lift (i64_or InvalidRequest (art_content_size record)) ;;;
      changed <- sql sqlite_io (update_row certificate_artifacts (art_artifact_id record)
        (fun r => bool_decide (art_state r = str "prepared"))
        (fun r => art_seal record_hmac
           (art_content (art_content_sha256 record) (art_content_size record) (str "available") r))
        now) ;;
      lift (changed_one changed)).

Definition prepare_artifact (clock : option Z) (artifact_id certificate_id : bytes)
  (certificate_version : Z) (operation_id : bytes) (artifact_expires_at : Z) : Eff unit :=
  now <- lift (effect_now clock) ;;
  (if (certificate_version =? 0) || (artifact_expires_at <=? now)
   then throw InvalidRequest else ret tt) ;;;
  immediate (
    found <- query_artifact artifact_id ;;
    match found with
    | Some existing =>
        lift (validate_artifact_record hmac_key existing) ;;;
        if negb (same_certificate existing certificate_id certificate_version operation_id)
           || negb (art_artifact_expires_at existing =? artifact_expires_at)
           || negb (one_of (art_state existing) ["prepared"; "available"; "leased"]%string)
        then throw InvalidRequest else ret tt
    | None =>
        let record := mkArtifactRecord artifact_id certificate_id certificate_version operation_id
          (replicate 32 x00) 0 artifact_expires_at (str "prepared") None [] None 0
          (replicate 32 x00) in
        let record := art_seal (authenticate_artifact_record hmac_key record) record in
        lift (i64_or InvalidRequest (art_certificate_version record)) ;;;
        sql sqlite_io (insert_row certificate_artifacts (art_artifact_id record) record now)
    end).

Definition artifact_is_registered (artifact_id certificate_id : bytes) (certificate_version : Z)
  (operation_id : bytes) (artifact_expires_at : Z) : Eff bool :=
  found <- query_artifact artifact_id ;;
  match found with
  | None => ret false
  | Some record =>
      lift (validate_artifact_record hmac_key record) ;;;
      if negb (same_certificate record certificate_id certificate_version operation_id)
         || negb (art_artifact_expires_at record =? artifact_expires_at)
         || negb (one_of (art_state record) ["prepared"; "available"; "leased"]%string)
      then throw InvalidRequest
      else ret (bool_decide (art_state record <> str "prepared"))
  end.

Definition granted_to (record : ArtifactRecord) (grant_id : bytes) : bool :=
  bool_decide (art_active_grant_id record = Some grant_id).

Definition lease_artifact (clock : option Z) (identity : ArtifactLeaseIdentity) : Eff ArtifactRecord :=
  now <- lift (effect_now clock) ;;
  identity <- lift (validate_artifact_identity identity now) ;;
  immediate (
    found <- query_artifact (vai_artifact_id identity) ;;
    record <- lift (ok_or found InvalidRequest) ;;
    lift (validate_artifact_record hmac_key record) ;;;
    (if negb (same_certificate record (vai_certificate_id identity)
                (vai_certificate_version identity) (vai_operation_id identity))
        || (vai_max_bytes identity <? art_content_size record)
        || (art_artifact_expires_at record <=? now)
        || negb (one_of (art_state record) ["available"; "leased"]%string)
     then throw InvalidRequest else ret tt) ;;;
    (if is_leased record && negb (granted_to record (vai_grant_id identity))
        && match art_grant_expires_at record with Some expiry => now <? expiry | None => false end
     then throw Unavailable else ret tt) ;;;
    (if is_leased record && granted_to record (vai_grant_id identity)
        && (bool_decide (art_active_subject record <> vai_authorized_subject identity)
            || bool_decide (art_grant_expires_at record <> Some (vai_expires_at identity)))
     then throw InvalidRequest else ret tt) ;;;
    if negb (is_leased record) || negb (granted_to record (vai_grant_id identity)) then
      let record := art_lease (str "leased") (Some (vai_grant_id identity))
        (vai_authorized_subject identity) (Some (vai_expires_at identity)) 0 record in
      let record := art_seal (authenticate_artifact_record hmac_key record) record in
      changed <- sql sqlite_io (update_row certificate_artifacts (art_artifact_id record)
        (fun _ => true)
        (fun r => art_seal (art_record_hmac record)
           (art_lease (str "leased") (Some (vai_grant_id identity))
              (vai_authorized_subject identity) (Some (vai_expires_at identity)) 0 r)) now) ;;
      lift (changed_one changed) ;;;
      ret record
    else ret record).

Definition advance_artifact (clock : option Z) (identity : ArtifactLeaseIdentity)
  (expected_offset next_offset : Z) : Eff unit :=
  now <- lift (effect_now clock) ;;
  identity <- lift (validate_artifact_identity identity now) ;;
  immediate (
    found <- query_artifact (vai_artifact_id identity) ;;
    record <- lift (ok_or found InvalidRequest) ;;
    lift (validate_artifact_record hmac_key record) ;;;
    (if negb (is_leased record) || negb (granted_to record (vai_grant_id identity))
        || bool_decide (art_active_subject record <> vai_authorized_subject identity)
        || bool_decide (art_grant_expires_at record <> Some (vai_expires_at identity))
        || negb (same_certificate record (vai_certificate_id identity)
                   (vai_certificate_version identity) (vai_operation_id identity))
        || negb (art_active_offset record =? expected_offset)
        || (next_offset <=? expected_offset) || (art_content_size record <? next_offset)
     then throw InvalidRequest else ret tt) ;;;
    let record := art_lease (art_state record) (art_active_grant_id record)
      (art_active_subject record) (art_grant_expires_at record) next_offset record in
    let record_hmac := authenticate_artifact_record hmac_key record in
    lift (i64_or InvalidRequest next_offset) ;;;
    lift (i64_or InvalidRequest expected_offset) ;;;
    changed <- sql sqlite_io (update_row certificate_artifacts (art_artifact_id record)
      (fun r => is_leased r && (art_active_offset r =? expected_offset))
      (fun r => art_seal record_hmac
         (art_lease (art_state r) (art_active_grant_id r) (art_active_subject r)
            (art_grant_expires_at r) next_offset r)) now) ;;
    lift (changed_one changed)).

(** The grant that leased the artifact and transferred all of it. *)
Definition exact_grant (record : ArtifactRecord) (identity : ValidatedArtifactIdentity) : bool :=
  granted_to record (vai_grant_id identity)
  && bool_decide (art_active_subject record = vai_authorized_subject identity)
  && bool_decide (art_grant_expires_at record = Some (vai_expires_at identity))
  && (art_active_offset record =? art_content_size record).

(** The certificate, version, operation and content. *)
Definition same_artifact (record : ArtifactRecord) (identity : ValidatedArtifactIdentity)
  (digest : bytes) (content_size : Z) : bool :=
  same_certificate record (vai_certificate_id identity) (vai_certificate_version identity)
    (vai_operation_id identity)
  && bool_decide (art_content_sha256 record = digest) && (art_content_size record =? content_size).

Definition consume_artifact (clock : option Z) (identity : ArtifactLeaseIdentity)
  (content_sha256 : bytes) (content_size : Z) : Eff unit :=
  now <- lift (effect_now clock) ;;
  identity <- lift (validate_artifact_identity identity now) ;;
  digest <- lift (fixed_request 32 content_sha256) ;;
  immediate (
    found <- query_artifact (vai_artifact_id identity) ;;
    record <- lift (ok_or found InvalidRequest) ;;
    lift (validate_artifact_record hmac_key record) ;;;
    let exact_identity := exact_grant record identity
      && same_artifact record identity digest content_size in
    if bool_decide (art_state record = str "consumed") && exact_identity then ret tt
    else if negb (is_leased record) || negb exact_identity then throw InvalidRequest
    else
      let record := art_state_to (str "consumed") record in
      let record_hmac := authenticate_artifact_record hmac_key record in
      changed <- sql sqlite_io (update_row certificate_artifacts (art_artifact_id record)
        is_leased (fun r => art_seal record_hmac (art_state_to (str "consumed") r)) now) ;;
      lift (changed_one changed)).

Definition confirm_artifact_consumed (identity : ArtifactLeaseIdentity) (content_sha256 : bytes)
  (content_size : Z) : Eff bool :=
  identity <- lift (validate_artifact_identity_for_confirmation identity) ;;
  digest <- lift (fixed_request 32 content_sha256) ;;
  found <- query_artifact (vai_artifact_id identity) ;;
  record <- lift (ok_or found InvalidRequest) ;;
  lift (validate_artifact_record hmac_key record) ;;;
  if negb (same_artifact record identity digest content_size) then throw InvalidRequest
  else if bool_decide (art_state record = str "consumed") && exact_grant record identity
  then ret true
  else if is_leased record && exact_grant record identity then ret false
  else if one_of (art_state record) ["available"; "expired"; "revoked"]%string then ret false
  else throw InvalidRequest.

Fixpoint revoke_each (artifact_ids : list bytes) (now : Z) : Eff unit :=
  match artifact_ids with
  | [] => ret tt
  | artifact_id :: rest =>
      found <- query_artifact artifact_id ;;
      record <- lift (ok_or found InvalidResource) ;;
      lift (validate_artifact_record hmac_key record) ;;;
      (if bool_decide (art_state record <> str "consumed") then
         let record := art_state_to (str "revoked") record in
         let record_hmac := authenticate_artifact_record hmac_key record in
         sql sqlite_io (update_row certificate_artifacts artifact_id (fun _ => true)
           (fun r => art_seal record_hmac (art_state_to (str "revoked") r)) now) ;;; ret tt
       else ret tt) ;;;
      revoke_each rest now
  end.

Definition revoke_certificate_artifacts (clock : option Z) (certificate_id : bytes)
  : Eff (list bytes) :=
  now <- lift (effect_now clock) ;;
  immediate (
    artifact_ids <- query_certificate_artifacts certificate_id ;;
    revoke_each artifact_ids now ;;;
    ret artifact_ids).

(** The new state of one record under [reconcile_artifacts]. *)
Definition reconcile_record (record : ArtifactRecord) (now : Z) : ArtifactRecord :=
  if (art_artifact_expires_at record <=? now)
     && one_of (art_state record) ["prepared"; "available"; "leased"]%string
  then art_state_to (str "expired") record
  else if is_leased record
     && match art_grant_expires_at record with Some expiry => expiry <=? now | None => false end
  then art_lease (str "available") None [] None 0 record
  else record.

Fixpoint reconcile_each (artifact_ids : list bytes) (now : Z) : Eff (list bytes) :=
  match artifact_ids with
  | [] => ret []
  | artifact_id :: rest =>
      found <- query_artifact artifact_id ;;
      record <- lift (ok_or found InvalidResource) ;;
      lift (validate_artifact_record hmac_key record) ;;;
      let record := reconcile_record record now in
      let record_hmac := authenticate_artifact_record hmac_key record in
      sql sqlite_io (update_row certificate_artifacts (art_artifact_id record) (fun _ => true)
        (fun r => art_seal record_hmac
           (art_lease (art_state record) (art_active_grant_id record) (art_active_subject record)
              (art_grant_expires_at record) (art_active_offset record) r)) now) ;;;
      terminal <- reconcile_each rest now ;;
      ret (if one_of (art_state record) ["consumed"; "expired"; "revoked"]%string
           then art_artifact_id record :: terminal else terminal)
  end.

Definition reconcile_artifacts (clock : option Z) : Eff (list bytes) :=
  now <- lift (effect_now clock) ;;
  immediate (
    artifact_ids <- query_all_artifacts ;;
    reconcile_each artifact_ids now).

Definition tracked_artifact_ids : Eff (list bytes) := query_all_artifacts.
End Methods.
