(* ===== verification/EffectFacts.v ===== *)
(** Facts about the effect store shared by its theorems: what each statement
    does on success, that decoding changes nothing, that every failed method
    leaves the database as it was, and the outcome of the methods on
    authorized effects, branch by branch. *)

From stdpp Require Import base list gmap numbers countable strings sorting.
From Stdlib Require Import ZArith Lia Bool Strings.Byte.
From S2P Require Import Prelude Bytes Contracts Authorization Sql Executor.
From S2P Require Import EffectRecords EffectStore.

Local Open Scope Z_scope.
Local Open Scope sql_scope.

(** * Lawful tables *)

(** Writing a table and reading it back, and writing it twice. *)
Class LawfulTable {K R} `{Countable K} (T : Table K R) : Prop := {
  tbl_rows_with t d : tbl_rows T (tbl_with T t d) = t;
  tbl_with_with t t' d : tbl_with T t (tbl_with T t' d) = tbl_with T t d;
  tbl_with_rows d : tbl_with T (tbl_rows T d) d = d }.

#[export] Instance desired_effects_lawful : LawfulTable desired_effects.
Proof. by split; try done; intros []. Qed.
#[export] Instance authorized_effects_lawful : LawfulTable authorized_effects.
Proof. by split; try done; intros []. Qed.
#[export] Instance certificate_artifacts_lawful : LawfulTable certificate_artifacts.
Proof. by split; try done; intros []. Qed.

(** * Statements *)

Section Statements.
Context {K R : Type} `{Countable K} (T : Table K R).

Lemma select_row_ok decode k c o c' :
  select_row T decode k c = (Ok o, c') ->
  conn_db c' = conn_db c /\
  match tbl_rows T (conn_db c) !! k with
  | Some row => exists r, decode (row_record row) = Ok r /\ o = Some r
  | None => o = None
  end.
Proof.
  unfold select_row. intros [E D]%query_ok. split; [done|].
  destruct (tbl_rows T (conn_db c) !! k) as [row|]; [|by injection E].
  destruct (decode (row_record row)) as [r|] eqn:Er; [|done]. injection E as <-. eauto.
Qed.

Lemma update_row_ok k cond set now c n c' :
  update_row T k cond set now c = (Ok n, c') ->
  (n = 1 /\ exists row, tbl_rows T (conn_db c) !! k = Some row /\ cond (row_record row) = true /\
     tbl_check T (tbl_rows T (conn_db c)) (set (row_record row)) = true /\
     conn_db c' = tbl_with T (<[k := mkRow (set (row_record row)) now]> (tbl_rows T (conn_db c)))
                    (conn_db c)) \/
  (n = 0 /\ conn_db c' = conn_db c).
Proof.
  unfold update_row. intros E%stmt_ok.
  destruct (tbl_rows T (conn_db c) !! k) as [row|] eqn:L; [|injection E as <- <-; auto].
  destruct (cond (row_record row)) eqn:C; [|injection E as <- <-; auto].
  destruct (tbl_check T (tbl_rows T (conn_db c)) (set (row_record row))) eqn:K0; simpl in E; [|done].
  injection E as <- <-. left. split; [done|]. by exists row.
Qed.

Lemma insert_row_ok k r now c u c' :
  insert_row T k r now c = (Ok u, c') ->
  tbl_rows T (conn_db c) !! k = None /\ tbl_check T (tbl_rows T (conn_db c)) r = true /\
  conn_db c' = tbl_with T (<[k := mkRow r now]> (tbl_rows T (conn_db c))) (conn_db c).
Proof.
  unfold insert_row. intros E%stmt_ok. case_bool_decide as L; [done|].
  destruct (tbl_check T (tbl_rows T (conn_db c)) r); simpl in E; [|done]. by injection E as _ <-.
Qed.

Lemma upsert_row_ok k r now c u c' :
  upsert_row T k r now c = (Ok u, c') ->
  tbl_check T (tbl_rows T (conn_db c)) r = true /\
  conn_db c' = tbl_with T (<[k := mkRow r now]> (tbl_rows T (conn_db c))) (conn_db c).
Proof.
  unfold upsert_row. intros E%stmt_ok.
  destruct (tbl_check T (tbl_rows T (conn_db c)) r); simpl in E; [|done]. by injection E as _ <-.
Qed.

Lemma delete_row_ok k cond c n c' :
  delete_row T k cond c = (Ok n, c') ->
  (n = 1 /\ exists row, tbl_rows T (conn_db c) !! k = Some row /\ cond (row_record row) = true /\
     conn_db c' = tbl_with T (delete k (tbl_rows T (conn_db c))) (conn_db c)) \/
  (n = 0 /\ conn_db c' = conn_db c).
Proof.
  unfold delete_row. intros E%stmt_ok.
  destruct (tbl_rows T (conn_db c) !! k) as [row|] eqn:L; [|injection E as <- <-; auto].
  destruct (cond (row_record row)) eqn:C; [|injection E as <- <-; auto].
  injection E as <- <-. left. split; [done|]. by exists row.
Qed.

Lemma select_keys_ok decode cond c l c' :
  (forall k k', decode k = Ok k' -> k' = k) ->
  select_keys T decode cond c = (Ok l, c') ->
  conn_db c' = conn_db c /\
  forall k, k ∈ l <->
    exists row, tbl_rows T (conn_db c) !! k = Some row /\ cond (row_record row) = true.
Proof.
  intros Hdec. unfold select_keys. intros [E D]%query_ok. split; [done|].
  set (rows := List.filter _ _) in E. intros k.
  assert (l = fst <$> rows) as ->.
  { revert l E. induction rows as [|[k0 row] rows IH]; simpl; intros l E; [by injection E|].
    destruct (fold_right _ _ _) as [rest|] eqn:F; [|done].
    destruct (decode k0) as [k1|] eqn:Ek; [|done]. injection E as <-.
    rewrite (Hdec _ _ Ek). f_equal. by apply IH. }
  rewrite list_elem_of_fmap. split.
  - intros ([k1 row] & -> & Hin). apply list_elem_of_In, filter_In in Hin as [Hin C].
    apply list_elem_of_In, elem_of_map_to_list in Hin. eauto.
  - intros (row & L & C). exists (k, row). split; [done|].
    apply list_elem_of_In, filter_In. split; [|done].
    by apply list_elem_of_In, elem_of_map_to_list.
Qed.
End Statements.

Lemma changed_one_ok n u : changed_one n = Ok u -> n = 1.
Proof. unfold changed_one. destruct (Z.eqb_spec n 1); [done|discriminate]. Qed.

Lemma fixed_blob_same n b b' : fixed_blob n b = Ok b' -> b' = b /\ length b = n.
Proof. unfold fixed_blob. case_bool_decide; [|done]. by intros [= <-]. Qed.

Lemma fixed_request_same n b b' : fixed_request n b = Ok b' -> b' = b /\ length b = n.
Proof. unfold fixed_request. case_bool_decide; [|done]. by intros [= <-]. Qed.

Lemma u64_column_same z z' : u64_column z = Ok z' -> z' = z /\ 0 <= z.
Proof. unfold u64_column. destruct (Z.leb_spec 0 z); [|done]. by intros [= <-]. Qed.

Lemma state_column_same l b b' : state_column l b = Ok b' -> b' = b /\ one_of b l = true.
Proof. unfold state_column. destruct (one_of b l) eqn:E; [|done]. by intros [= <-]. Qed.

(** Splits a successful decoding into its columns and identifies each. *)
Ltac decode_columns E :=
  repeat
    match type of E with
    | match fixed_blob ?n ?b with _ => _ end = Ok _ =>
        let F := fresh "Hblob" in let L := fresh "Hlen" in
        destruct (fixed_blob n b) eqn:F; [|discriminate E]; apply fixed_blob_same in F as [-> L]
    | match u64_column ?b with _ => _ end = Ok _ =>
        let F := fresh "Hcol" in let L := fresh "Hnonneg" in
        destruct (u64_column b) eqn:F; [|discriminate E]; apply u64_column_same in F as [-> L]
    | match state_column ?l ?b with _ => _ end = Ok _ =>
        let F := fresh "Hcol" in let L := fresh "Hstate" in
        destruct (state_column l b) eqn:F; [|discriminate E]; apply state_column_same in F as [-> L]
    end.

Lemma decode_authorized_same r r' : decode_authorized r = Ok r' -> r' = r.
Proof. unfold decode_authorized. intros E. decode_columns E. injection E as <-. by destruct r. Qed.

Lemma decode_effect_same l r r' : decode_effect l r = Ok r' -> r' = r /\ one_of (er_state r) l = true.
Proof. unfold decode_effect. intros E. decode_columns E. injection E as <-. by destruct r. Qed.

Lemma decode_artifact_same r r' : decode_artifact r = Ok r' -> r' = r.
Proof.
  unfold decode_artifact. intros E. decode_columns E.
  destruct r as [? ? ? ? ? ? ? ? [g|] ? ? ? ?]; simpl in *.
  - destruct (fixed_blob 16 g) eqn:F; [|done]. apply fixed_blob_same in F as [-> _].
    decode_columns E. by injection E as <-.
  - decode_columns E. by injection E as <-.
Qed.

(** * Failed methods change nothing *)

(** [atomic m]: a run of [m] that returns an error leaves the database as it
    was; [pure_run m]: no run of [m] touches the connection at all. *)
Definition atomic {D X A} (m : Run D X A) : Prop :=
  forall c e c', m c = (Err e, c') -> conn_db c' = conn_db c.

Definition pure_run {D X A} (m : Run D X A) : Prop := forall c, snd (m c) = c.

Lemma pure_lift {D X A} (r : result X A) : pure_run (lift (D := D) r).
Proof. done. Qed.

Lemma pure_guard {D X} (b : bool) (e : X) : pure_run (D := D) (if b then throw e else ret tt).
Proof. by destruct b. Qed.

Lemma atomic_bind {D X A B} (m : Run D X A) (k : A -> Run D X B) :
  pure_run m -> (forall a, atomic (k a)) -> atomic (bind m k).
Proof.
  intros Hm Hk c e c'. unfold bind. specialize (Hm c).
  destruct (m c) as [[a|e'] c1]; simpl in Hm; subst c1; [apply Hk|by intros [= _ <-]].
Qed.

Lemma atomic_immediate {A} (m : Eff A) : atomic (immediate m).
Proof. intros c e c'. apply transaction_rollback. Qed.

(** A query changes nothing, whatever its outcome. *)
Definition read_only {D X A} (m : Run D X A) : Prop := forall c, conn_db (snd (m c)) = conn_db c.

Lemma read_only_bind {D X A B} (m : Run D X A) (k : A -> Run D X B) :
  read_only m -> (forall a, read_only (k a)) -> read_only (bind m k).
Proof.
  intros Hm Hk c. unfold bind. specialize (Hm c).
  destruct (m c) as [[a|e'] c1]; simpl in *; [|done]. by rewrite Hk.
Qed.

Lemma read_only_pure {D X A} (m : Run D X A) : pure_run m -> read_only m.
Proof. intros Hm c. by rewrite Hm. Qed.

Lemma read_only_sql_query {D X A} (inj : SqlError -> X) (f : D -> result SqlError A) :
  read_only (sql inj (query f)).
Proof.
  intros c. unfold sql, query, stmt.
  destruct (conn_faults c) as [|[|] rest]; simpl; try done; by destruct (f (conn_db c)).
Qed.

Lemma atomic_read_only {D X A} (m : Run D X A) : read_only m -> atomic m.
Proof. intros Hm c e c' E. specialize (Hm c). by rewrite E in Hm. Qed.

Create HintDb effects.
#[export] Hint Resolve pure_lift pure_guard atomic_immediate read_only_sql_query : effects.
#[export] Hint Resolve read_only_pure atomic_read_only : effects.
#[export] Hint Extern 2 (atomic (bind _ _)) => apply atomic_bind; [|intros ?] : effects.
#[export] Hint Extern 2 (read_only (bind _ _)) => apply read_only_bind; [|intros ?] : effects.
#[export] Hint Extern 3 (read_only (match ?x with _ => _ end)) => destruct x : effects.
#[export] Hint Extern 3 (read_only (ret _)) => done : effects.
#[export] Hint Extern 3 (read_only (throw _)) => done : effects.

Section Atomic.
Context `{Crypto} `{Platform} (key : bytes).

Lemma prepare_authorized_atomic clock id : atomic (prepare_authorized key clock id).
Proof. unfold prepare_authorized. auto with effects. Qed.

Lemma complete_authorized_atomic clock id r : atomic (complete_authorized key clock id r).
Proof. unfold complete_authorized. auto 7 with effects. Qed.

Lemma replay_authorized_read_only id : read_only (replay_authorized key id).
Proof. unfold replay_authorized, query_authorized_effect, select_row. auto 10 with effects. Qed.

Lemma prepare_atomic clock k r v id b a : atomic (prepare key clock k r v id b a).
Proof. unfold prepare. auto with effects. Qed.

Lemma mark_state_atomic s clock k r v id : atomic (mark_state key s clock k r v id).
Proof. unfold mark_state. auto with effects. Qed.

Lemma observe_atomic clock k r v id cur : atomic (observe key clock k r v id cur).
Proof. unfold observe. auto with effects. Qed.

Lemma register_artifact_atomic clock a c v o s n e :
  atomic (register_artifact key clock a c v o s n e).
Proof. unfold register_artifact. auto 10 with effects. Qed.

Lemma prepare_artifact_atomic clock a c v o e : atomic (prepare_artifact key clock a c v o e).
Proof. unfold prepare_artifact. auto with effects. Qed.

Lemma artifact_is_registered_read_only a c v o e :
  read_only (artifact_is_registered key a c v o e).
Proof. unfold artifact_is_registered, query_artifact, select_row. auto 10 with effects. Qed.

Lemma lease_artifact_atomic clock id : atomic (lease_artifact key clock id).
Proof. unfold lease_artifact. auto with effects. Qed.

Lemma advance_artifact_atomic clock id e n : atomic (advance_artifact key clock id e n).
Proof. unfold advance_artifact. auto with effects. Qed.

Lemma consume_artifact_atomic clock id s n : atomic (consume_artifact key clock id s n).
Proof. unfold consume_artifact. auto 7 with effects. Qed.

Lemma confirm_artifact_consumed_read_only id s n :
  read_only (confirm_artifact_consumed key id s n).
Proof. unfold confirm_artifact_consumed, query_artifact, select_row. auto 12 with effects. Qed.

Lemma revoke_certificate_artifacts_atomic clock c : atomic (revoke_certificate_artifacts key clock c).
Proof. unfold revoke_certificate_artifacts. auto with effects. Qed.

Lemma reconcile_artifacts_atomic clock : atomic (reconcile_artifacts key clock).
Proof. unfold reconcile_artifacts. auto with effects. Qed.
End Atomic.

(** * Successful runs of the methods on authorized effects *)

(** What pruning may do to the table: only applied rows past their expiry are
    gone, and nothing else changed. *)
Definition pruned (now : Z) (rows rows' : gmap bytes (Row AuthorizedEffectRecord)) : Prop :=
  forall k, rows' !! k = rows !! k \/
    (rows' !! k = None /\ exists row, rows !! k = Some row /\
       aer_state (row_record row) = str "applied" /\ aer_expires_at (row_record row) <= now).

#[export] Instance pruned_preorder now : PreOrder (pruned now).
Proof.
  split; [intros rows k; by left|].
  intros r1 r2 r3 A B k. destruct (A k) as [EA|(EA & row & L & P)];
    destruct (B k) as [EB|(EB & row' & L' & P')].
  - left. congruence.
  - right. split; [done|]. exists row'. by rewrite <- EA.
  - right. split; [congruence|]. eauto.
  - right. split; [done|]. congruence.
Qed.

(** [invert_eff H]: [invert_sql], then the statements and the helper
    results. *)
Ltac statement_facts :=
  repeat
    match goal with
    | E : select_row _ _ _ _ = (Ok _, _) |- _ => apply select_row_ok in E as [? E]
    | E : changed_one ?n = Ok _ |- _ => apply changed_one_ok in E; subst n
    | E : update_row _ _ _ _ _ _ = (Ok 1, _) |- _ =>
        let Hrow := fresh "Hrow" in let Hcond := fresh "Hcond" in
        let Hchk := fresh "Hchk" in let Hnew := fresh "Hnew" in
        apply update_row_ok in E as [[_ (? & Hrow & Hcond & Hchk & Hnew)]|[[=] _]]
    | E : delete_row _ _ _ _ = (Ok 1, _) |- _ =>
        let Hrow := fresh "Hrow" in let Hcond := fresh "Hcond" in let Hnew := fresh "Hnew" in
        apply delete_row_ok in E as [[_ (? & Hrow & Hcond & Hnew)]|[[=] _]]
    | E : insert_row _ _ _ _ _ = (Ok _, _) |- _ =>
        let Hrow := fresh "Hrow" in let Hchk := fresh "Hchk" in let Hnew := fresh "Hnew" in
        apply insert_row_ok in E as (Hrow & Hchk & Hnew)
    | E : upsert_row _ _ _ _ _ = (Ok _, _) |- _ =>
        let Hchk := fresh "Hchk" in let Hnew := fresh "Hnew" in
        apply upsert_row_ok in E as (Hchk & Hnew)
    | E : ok_or ?o _ = Ok _ |- _ => destruct o eqn:?; [injection E as ->|discriminate E]
    end.

Section Outcomes.
Context `{Crypto} `{Platform} (key : bytes).

Lemma query_authorized_ok k c o c' :
  query_authorized_effect k c = (Ok o, c') ->
  conn_db c' = conn_db c /\ o = row_record <$> edb_authorized (conn_db c) !! k.
Proof.
  intros E%sql_ok. apply select_row_ok in E as [D E]. split; [done|]. simpl in E.
  destruct (edb_authorized (conn_db c) !! k) as [row|]; [|done].
  destruct E as (r & Er & ->). by apply decode_authorized_same in Er as ->.
Qed.

Lemma query_artifact_ok k c o c' :
  query_artifact k c = (Ok o, c') ->
  conn_db c' = conn_db c /\ o = row_record <$> edb_artifacts (conn_db c) !! k.
Proof.
  intros E%sql_ok. apply select_row_ok in E as [D E]. split; [done|]. simpl in E.
  destruct (edb_artifacts (conn_db c) !! k) as [row|]; [|done].
  destruct E as (r & Er & ->). by apply decode_artifact_same in Er as ->.
Qed.

Lemma query_effect_ok k r c o c' :
  query_effect k r c = (Ok o, c') ->
  conn_db c' = conn_db c /\ o = row_record <$> edb_desired (conn_db c) !! (k, r) /\
  (forall x, o = Some x -> one_of (er_state x) ["prepared"; "applied"; "absent"]%string = true).
Proof.
  intros E%sql_ok. apply select_row_ok in E as [D E]. split; [done|]. simpl in E.
  destruct (edb_desired (conn_db c) !! (k, r)) as [row|]; [|by subst].
  destruct E as (x & Er & ->). apply decode_effect_same in Er as [-> S].
  split; [done|]. by intros y [= <-].
Qed.

Lemma prune_each_ok now l c u c' :
  prune_each key l now c = (Ok u, c') ->
  exists rows', pruned now (edb_authorized (conn_db c)) rows' /\
    conn_db c' = tbl_with authorized_effects rows' (conn_db c).
Proof.
  revert c. induction l as [|id l IH]; simpl; intros c E.
  - apply ret_ok in E as [_ ->]. exists (edb_authorized (conn_db c)).
    split; [done|]. symmetry. apply (tbl_with_rows (T := authorized_effects)).
  - invert_sql E. apply query_authorized_ok in Hrun as [D ->].
    subst. statement_facts. apply IH in Hrun6 as (rows' & P & ->). simpl in *.
    rewrite Hnew, D in *; simpl in *. exists rows'. split; [|done]. etransitivity; [|exact P].
    split_guards. intros k. destruct (decide (k = id)) as [->|N];
      [right|left; by rewrite lookup_delete_ne].
    rewrite lookup_delete_eq. split; [done|]. exists x. split_and!; [done|done|lia].
Qed.

Lemma prune_authorized_ok now c u c' :
  prune_expired_authorized_effects key now c = (Ok u, c') ->
  exists rows', pruned now (edb_authorized (conn_db c)) rows' /\
    conn_db c' = tbl_with authorized_effects rows' (conn_db c).
Proof.
  unfold prune_expired_authorized_effects. intros E. invert_sql E.
  apply select_keys_ok in Hrun as [D _]; [|by intros ? ? [-> _]%fixed_blob_same].
  rewrite <- D. by eapply prune_each_ok.
Qed.

Lemma validate_authorized_effect_ok id now v :
  validate_authorized_effect id now = Ok v ->
  vae_command_id v = aei_command_id id /\ length (aei_command_id id) = 16%nat /\
  vae_expires_at v = aei_expires_at_unix_seconds id /\ now < aei_expires_at_unix_seconds id /\
  vae_delivery_mode v = (if aei_retry_if_absent id then 3 else 1).
Proof.
  unfold validate_authorized_effect. intros E. invert_ok E. subst v. simpl.
  apply fixed_request_same in Hstep as [-> ?]. split_guards. split_and!; try done. lia.
Qed.

(** The row an authorized effect starts with. *)
Definition fresh_row (v : ValidatedAuthorizedEffect) : AuthorizedEffectRecord :=
  authorized_record v (str "prepared") []
    (authenticate_authorized_record key (authorized_record v (str "prepared") [] (replicate 32 x00))).

(** A row that satisfies the table's constraints and authenticates. *)
Definition good_row (rows : gmap bytes (Row AuthorizedEffectRecord)) (r : AuthorizedEffectRecord) : Prop :=
  tbl_check authorized_effects rows r = true /\ is_ok (validate_authorized_record key r) = true.

Lemma resealed_ok r expires state mode response :
  one_of state ["prepared"; "applied"]%string = true -> (mode =? 1) || (mode =? 3) = true ->
  len response <= MAX_FRAME_BYTES ->
  is_ok (validate_authorized_record key (aer_set expires state mode response
    (authenticate_authorized_record key (aer_set expires state mode response (aer_record_hmac r) r)) r))
  = true.
Proof.
  intros Hs Hm Hl. unfold validate_authorized_record.
  cbn [aer_response aer_state aer_delivery_mode aer_record_hmac aer_set]. rewrite Hs, Hm.
  destruct (Z.ltb_spec MAX_FRAME_BYTES (len response)); [lia|].
  by rewrite bool_decide_false by (intros N; by apply N).
Qed.

Lemma validated_parts r :
  is_ok (validate_authorized_record key r) = true ->
  one_of (aer_state r) ["prepared"; "applied"]%string = true /\
  (aer_delivery_mode r =? 1) || (aer_delivery_mode r =? 3) = true /\
  len (aer_response r) <= MAX_FRAME_BYTES /\
  authenticate_authorized_record key r = aer_record_hmac r.
Proof.
  unfold validate_authorized_record. destruct (_ || _) eqn:G; [done|]. intros _.
  apply orb_false_iff in G as [G M]. apply bool_decide_eq_false, dec_stable in M.
  apply orb_false_iff in G as [G Hm%negb_false_iff].
  apply orb_false_iff in G as [Hl Hs%negb_false_iff]. split_and!; try done. lia.
Qed.

(** The two branches of [prepare_authorized]: an existing record that
    authenticates and carries the same effect, or none. *)
Lemma prepare_authorized_ok clock id c decision c' :
  prepare_authorized key clock id c = (Ok decision, c') ->
  exists now v, effect_now clock = Ok now /\ validate_authorized_effect id now = Ok v /\
  let rows := edb_authorized (conn_db c) in let k := aei_command_id id in
  (exists row, rows !! k = Some row /\
     is_ok (validate_authorized_record key (row_record row)) = true /\
     is_ok (validate_same_authorized_effect (row_record row) v) = true /\
     if bool_decide (aer_state (row_record row) = str "applied") then
       decision = DecideReplay (aer_response (row_record row)) /\ conn_db c' = conn_db c
     else if aei_retry_if_absent id && (aer_delivery_mode (row_record row) =? 1) then
       decision = DecideExecute /\ exists hmac,
       let r := aer_set (vae_expires_at v) (aer_state (row_record row)) 3
                  (aer_response (row_record row)) hmac (row_record row) in
       good_row rows r /\
       conn_db c' = tbl_with authorized_effects (<[k := mkRow r now]> rows) (conn_db c)
     else decision = DecidePending /\ conn_db c' = conn_db c) \/
  (rows !! k = None /\ decision = DecideExecute /\ exists rows', pruned now rows rows' /\
     rows' !! k = None /\ Z.of_nat (size rows') < MAX_EFFECT_RECORDS /\
     good_row rows' (fresh_row v) /\
     conn_db c' = tbl_with authorized_effects (<[k := mkRow (fresh_row v) now]> rows') (conn_db c)).
Proof.
  unfold prepare_authorized. intros E. apply bind_ok in E as (now & c1 & [Hnow ->]%lift_ok & E).
  apply bind_ok in E as (v & c2 & [Hv ->]%lift_ok & E). exists now, v. split_and!; [done..|].
  destruct (validate_authorized_effect_ok _ _ _ Hv) as (<- & _ & _ & _ & Hmode).
  apply transaction_commit in E as (faults & c2 & E & ->).
  apply bind_ok in E as (found & c3 & [D ->]%query_authorized_ok & E). simpl in D, E.
  destruct (edb_authorized (conn_db c) !! vae_command_id v) as [row|] eqn:L; simpl in E.
  - left. exists row. split; [done|].
    apply bind_ok in E as ([] & c4 & [Hval ->]%lift_ok & E).
    apply bind_ok in E as ([] & c4 & [Hsame ->]%lift_ok & E).
    pose proof (validated_parts (row_record row)) as Hsome. rewrite Hval, Hsame in *.
    split_and!; [done..|]. case_bool_decide as Happlied; [by apply ret_ok in E as [-> ->]|].
    rewrite Hmode in E. destruct (aei_retry_if_absent id), (aer_delivery_mode (row_record row) =? 1);
      simpl in E |- *; try (by apply ret_ok in E as [-> ->]).
    invert_sql E; subst. statement_facts. simpl in Hrow. rewrite D, L in Hrow.
    injection Hrow as <-. split; [done|]. eexists. rewrite Hnew, D in *. split; [|done].
    destruct (Hsome eq_refl) as (Hs & Hm & Hl & _). split; [done|]. by apply resealed_ok.
  - right. split; [done|]. invert_sql E. apply sql_ok in Hrun. apply query_ok in Hrun as [_ D0].
    apply query_ok in Hrun2 as [[= <-] D2]. subst. split; [done|].
    apply prune_authorized_ok in Hrun0 as (rows' & P & D1). statement_facts. simpl in *.
    rewrite D2, D1, D0, D in *. simpl in *.
    exists rows'. split_and!; [done|done|by apply Z.leb_gt|split; [exact Hchk|]|by rewrite Hnew].
    unfold fresh_row, authorized_record. apply (resealed_ok
      (authorized_record v (str "prepared") [] (replicate 32 x00)) (vae_expires_at v)); [done| |done].
    rewrite Hmode. by destruct (aei_retry_if_absent id).
Qed.

Lemma complete_authorized_ok clock id response c u c' :
  complete_authorized key clock id response c = (Ok u, c') ->
  exists now v row, effect_now clock = Ok now /\ validate_authorized_effect id 0 = Ok v /\
  let rows := edb_authorized (conn_db c) in let k := aei_command_id id in
  response <> [] /\ rows !! k = Some row /\
  is_ok (validate_authorized_record key (row_record row)) = true /\
  is_ok (validate_same_authorized_effect (row_record row) v) = true /\
  if bool_decide (aer_state (row_record row) = str "applied") then
    aer_response (row_record row) = response /\ conn_db c' = conn_db c
  else exists hmac,
    let r := aer_set (vae_expires_at v) (str "applied") (vae_delivery_mode v) response hmac
               (row_record row) in
    good_row rows r /\
    conn_db c' = tbl_with authorized_effects (<[k := mkRow r now]> rows) (conn_db c).
Proof.
  unfold complete_authorized. intros E. apply bind_ok in E as (u0 & c0 & G & E).
  invert_sql G. subst. split_guards. apply is_empty_false in H1.
  apply bind_ok in E as (now & c1 & [Hnow ->]%lift_ok & E).
  apply bind_ok in E as (v & c1 & [Hv ->]%lift_ok & E).
  destruct (validate_authorized_effect_ok _ _ _ Hv) as (<- & _ & _ & _ & Hmode).
  apply transaction_commit in E as (faults & c2 & E & ->).
  apply bind_ok in E as (found & c3 & [D ->]%query_authorized_ok & E). simpl in D, E.
  destruct (edb_authorized (conn_db c) !! vae_command_id v) as [row|] eqn:L; simpl in E; [|done].
  exists now, v, row. cbn zeta. do 4 (split; [done|]).
  apply bind_ok in E as (r & c4 & [[= <-] ->]%lift_ok & E).
  apply bind_ok in E as ([] & c4 & [Hval ->]%lift_ok & E).
  apply bind_ok in E as ([] & c4 & [Hsame ->]%lift_ok & E). rewrite Hval, Hsame.
  split_and!; [done..|]. case_bool_decide as Happlied.
  - case_bool_decide as R; [discriminate E|]. apply ret_ok in E as [_ ->]. by rewrite D.
  - invert_sql E; subst. statement_facts. simpl in Hrow. rewrite D, L in Hrow.
    injection Hrow as <-. eexists. rewrite Hnew, D in *. split; [|done]. split; [done|].
    apply resealed_ok; [done| |lia]. rewrite Hmode. by destruct (aei_retry_if_absent id).
Qed.
End Outcomes.
