(* ===== verification/EffectMachine.v ===== *)
(** The effect store as a service: every method as one operation of a call,
    histories of calls under arbitrary fault schedules, the abstract
    lifecycle of an authorized effect, and the refinement between the two.
    A crash inside a call is a schedule whose next statement fails: the
    transaction is rolled back exactly as SQLite does on recovery. *)

From stdpp Require Import base list gmap numbers countable strings sorting.
From Stdlib Require Import ZArith Lia Bool Strings.Byte.
From S2P Require Import Prelude Bytes Contracts Authorization Sql Executor.
From S2P Require Import EffectRecords EffectStore EffectFacts.

Local Open Scope Z_scope.
Local Open Scope sql_scope.

(** * Calls *)

Inductive StoreOp :=
| OpPrepareAuthorized (identity : AuthorizedEffectIdentity)
| OpCompleteAuthorized (identity : AuthorizedEffectIdentity) (response : bytes)
| OpReplayAuthorized (identity : AuthorizedEffectIdentity)
| OpPrepare (kind key : bytes) (revision : Z) (identity : EffectIdentity) (before after : bytes)
| OpMarkApplied (kind key : bytes) (revision : Z) (identity : EffectIdentity)
| OpMarkAbsent (kind key : bytes) (revision : Z) (identity : EffectIdentity)
| OpObserve (kind key : bytes) (revision : Z) (identity : EffectIdentity) (current : bytes)
| OpRegisterArtifact (artifact certificate : bytes) (version : Z) (operation digest : bytes)
    (size expires : Z)
| OpPrepareArtifact (artifact certificate : bytes) (version : Z) (operation : bytes) (expires : Z)
| OpArtifactIsRegistered (artifact certificate : bytes) (version : Z) (operation : bytes) (expires : Z)
| OpLeaseArtifact (identity : ArtifactLeaseIdentity)
| OpAdvanceArtifact (identity : ArtifactLeaseIdentity) (expected next : Z)
| OpConsumeArtifact (identity : ArtifactLeaseIdentity) (digest : bytes) (size : Z)
| OpConfirmConsumed (identity : ArtifactLeaseIdentity) (digest : bytes) (size : Z)
| OpRevokeArtifacts (certificate : bytes)
| OpReconcileArtifacts
| OpTrackedArtifacts.

Inductive Output :=
| OutDecision (decision : AuthorizedEffectDecision)
| OutReplay (response : option bytes)
| OutPrepare (outcome : PrepareEffect)
| OutObservation (observation : DesiredEffectObservation)
| OutArtifact (record : ArtifactRecord)
| OutBool (b : bool)
| OutIds (ids : list bytes)
| OutDone.

Record Call := mkCall { call_op : StoreOp; call_clock : option Z; call_faults : list bool }.

Definition returning {A} (m : Eff A) (f : A -> Output) : Eff Output := x <- m ;; ret (f x).

Section Service.
Context `{Crypto} `{Platform} (key : bytes).

Definition run_op (op : StoreOp) (clock : option Z) : Eff Output :=
  match op with
  | OpPrepareAuthorized id => returning (prepare_authorized key clock id) OutDecision
  | OpCompleteAuthorized id r => returning (complete_authorized key clock id r) (fun _ => OutDone)
  | OpReplayAuthorized id => returning (replay_authorized key id) OutReplay
  | OpPrepare k r v id b a => returning (prepare key clock k r v id b a) OutPrepare
  | OpMarkApplied k r v id => returning (mark_applied key clock k r v id) (fun _ => OutDone)
  | OpMarkAbsent k r v id => returning (mark_absent key clock k r v id) (fun _ => OutDone)
  | OpObserve k r v id cur => returning (observe key clock k r v id cur) OutObservation
  | OpRegisterArtifact a c v o s n e =>
      returning (register_artifact key clock a c v o s n e) (fun _ => OutDone)
  | OpPrepareArtifact a c v o e => returning (prepare_artifact key clock a c v o e) (fun _ => OutDone)
  | OpArtifactIsRegistered a c v o e => returning (artifact_is_registered key a c v o e) OutBool
  | OpLeaseArtifact id => returning (lease_artifact key clock id) OutArtifact
  | OpAdvanceArtifact id e n => returning (advance_artifact key clock id e n) (fun _ => OutDone)
  | OpConsumeArtifact id s n => returning (consume_artifact key clock id s n) (fun _ => OutDone)
  | OpConfirmConsumed id s n => returning (confirm_artifact_consumed key id s n) OutBool
  | OpRevokeArtifacts c => returning (revoke_certificate_artifacts key clock c) OutIds
  | OpReconcileArtifacts => returning (reconcile_artifacts key clock) OutIds
  | OpTrackedArtifacts => returning tracked_artifact_ids OutIds
  end.

Definition run_call (d : EffectDb) (call : Call) : result AdapterError Output * EffectDb :=
  let '(r, c) := run_op (call_op call) (call_clock call) (mkConn d (call_faults call)) in
  (r, conn_db c).

(** A history: every call with its result. *)
Fixpoint run_calls (d : EffectDb) (calls : list Call)
  : list (Call * result AdapterError Output) * EffectDb :=
  match calls with
  | [] => ([], d)
  | call :: rest =>
      let '(r, d') := run_call d call in
      let '(history, d'') := run_calls d' rest in
      ((call, r) :: history, d'')
  end.
End Service.

(** * The abstract lifecycle of one authorized effect *)

Inductive Phase :=
| Unseen
| InFlight (retried : bool) (expires : Z)
| Completed (response : bytes) (expires : Z).

Inductive Event :=
| Executed (retry : bool) (expires : Z)
| Replayed (response : bytes)
| Deferred
| Recorded (response : bytes) (expires : Z).

(** One call's effect on one command: the controller's clock, what the caller
    was told, and the phases around it. *)
Inductive phase_step (clock : option Z) : Phase -> option Event -> Phase -> Prop :=
| step_start retry expires now :
    clock = Some now -> now < expires ->
    phase_step clock Unseen (Some (Executed retry expires)) (InFlight retry expires)
| step_retry old expires now :
    clock = Some now -> now < expires ->
    phase_step clock (InFlight false old) (Some (Executed true expires)) (InFlight true expires)
| step_pending retried expires :
    phase_step clock (InFlight retried expires) (Some Deferred) (InFlight retried expires)
| step_record retried old response expires :
    phase_step clock (InFlight retried old) (Some (Recorded response expires))
      (Completed response expires)
| step_record_again response old expires :
    phase_step clock (Completed response old) (Some (Recorded response expires))
      (Completed response old)
| step_replay response expires :
    phase_step clock (Completed response expires) (Some (Replayed response))
      (Completed response expires)
| step_forget response expires now :
    clock = Some now -> expires <= now ->
    phase_step clock (Completed response expires) None Unseen
| step_idle p : phase_step clock p None p.

Inductive phase_run : Phase -> list (option Z * option Event) -> Phase -> Prop :=
| run_nil p : phase_run p [] p
| run_cons p clock ev p' l p'' :
    phase_step clock p ev p' -> phase_run p' l p'' -> phase_run p ((clock, ev) :: l) p''.

(** The abstraction function. *)
Definition phase (d : EffectDb) (command : bytes) : Phase :=
  match edb_authorized d !! command with
  | None => Unseen
  | Some row =>
      let r := row_record row in
      if bool_decide (aer_state r = str "applied") then Completed (aer_response r) (aer_expires_at r)
      else InFlight (aer_delivery_mode r =? 3) (aer_expires_at r)
  end.

Definition for_command (command : bytes) (id : AuthorizedEffectIdentity) (ev : Event) : option Event :=
  if bool_decide (aei_command_id id = command) then Some ev else None.

(** What a call told its caller about the command. *)
Definition event_of (command : bytes) (op : StoreOp) (r : result AdapterError Output) : option Event :=
  match op, r with
  | OpPrepareAuthorized id, Ok (OutDecision decision) =>
      for_command command id
        match decision with
        | DecideExecute => Executed (aei_retry_if_absent id) (aei_expires_at_unix_seconds id)
        | DecideReplay response => Replayed response
        | DecidePending => Deferred
        end
  | OpCompleteAuthorized id response, Ok _ =>
      for_command command id (Recorded response (aei_expires_at_unix_seconds id))
  | OpReplayAuthorized id, Ok (OutReplay (Some response)) => for_command command id (Replayed response)
  | _, _ => None
  end.

Definition observe_history (command : bytes) (h : list (Call * result AdapterError Output))
  : list (option Z * option Event) :=
  (fun '(call, r) => (call_clock call, event_of command (call_op call) r)) <$> h.

(** * Frames *)

(** [keeps f d d']: the part [f] of the database is unchanged. *)
Definition keeps {A} (f : EffectDb -> A) (d d' : EffectDb) : Prop := f d' = f d.

#[export] Instance keeps_preorder {A} (f : EffectDb -> A) : PreOrder (keeps f).
Proof. split; unfold keeps; [done|]. intros d1 d2 d3; congruence. Qed.

(** A statement on one table keeps what writing that table keeps. *)
Section TableFrame.
Context {K R : Type} `{Countable K} (T : Table K R) (P : EffectDb -> EffectDb -> Prop) `{!PreOrder P}.
Hypothesis Hwith : forall t d, P d (tbl_with T t d).

Lemma evolves_update_row k cond set now : evolves P (update_row T k cond set now).
Proof.
  apply evolves_stmt; [apply _|]. intros d a d' E.
  destruct (tbl_rows T d !! k); [|by injection E as _ <-].
  destruct (cond _); [|by injection E as _ <-].
  destruct (tbl_check T _ _); simpl in E; [|done]. by injection E as _ <-.
Qed.

Lemma evolves_insert_row k r now : evolves P (insert_row T k r now).
Proof.
  apply evolves_stmt; [apply _|]. intros d a d' E.
  destruct (_ || _); [done|]. by injection E as _ <-.
Qed.

Lemma evolves_upsert_row k r now : evolves P (upsert_row T k r now).
Proof.
  apply evolves_stmt; [apply _|]. intros d a d' E.
  destruct (negb _); [done|]. by injection E as _ <-.
Qed.

Lemma evolves_delete_row k cond : evolves P (delete_row T k cond).
Proof.
  apply evolves_stmt; [apply _|]. intros d a d' E.
  destruct (tbl_rows T d !! k); [|by injection E as _ <-].
  destruct (cond _); by injection E as _ <-.
Qed.
End TableFrame.

(** [frame]: splits a method into its statements; those on another table are
    immediate. *)
Ltac frame_step :=
  lazymatch goal with
  | |- evolves _ (update_row _ _ _ _ _) => apply evolves_update_row; [apply _|by intros ? []]
  | |- evolves _ (insert_row _ _ _ _) => apply evolves_insert_row; [apply _|by intros ? []]
  | |- evolves _ (upsert_row _ _ _ _) => apply evolves_upsert_row; [apply _|by intros ? []]
  | |- evolves _ (delete_row _ _ _) => apply evolves_delete_row; [apply _|by intros ? []]
  | |- evolves _ (query_authorized_effect _) => unfold query_authorized_effect, select_row
  | |- evolves _ (query_effect _ _) => unfold query_effect, select_row
  | |- evolves _ (query_artifact _) => unfold query_artifact, select_row
  | |- evolves _ (query_prepared_effects _) => unfold query_prepared_effects
  | |- evolves _ (query_certificate_artifacts _) => unfold query_certificate_artifacts
  | |- evolves _ query_all_artifacts => unfold query_all_artifacts
  | |- evolves _ (select_keys _ _ _) => unfold select_keys
  | |- evolves _ (count_rows _) => unfold count_rows
  | |- evolves _ (update_effect_state _ _ _ _) => unfold update_effect_state
  | |- evolves _ (record_prepared _ _ _ _ _ _ _ _) => unfold record_prepared
  | |- evolves _ (immediate _) => unfold immediate
  | |- evolves_ok _ _ => apply evolves_ok_of
  end.
Ltac frame := evolve; try (frame_step; frame).

Section Frames.
Context `{Crypto} `{Platform} (key : bytes).

Lemma settle_prepared_frame l k r v id h now :
  evolves (keeps edb_authorized) (settle_prepared key l k r v id h now).
Proof. induction l; simpl; frame; done. Qed.

Lemma revoke_each_frame l now : evolves (keeps edb_authorized) (revoke_each key l now).
Proof. induction l; simpl; frame; done. Qed.

Lemma reconcile_each_frame l now : evolves (keeps edb_authorized) (reconcile_each key l now).
Proof. induction l; simpl; frame; done. Qed.

(** Only the methods on authorized effects touch the authorized effects. *)
Lemma run_op_frame op clock :
  match op with
  | OpPrepareAuthorized _ | OpCompleteAuthorized _ _ | OpReplayAuthorized _ => True
  | _ => evolves (keeps edb_authorized) (run_op key op clock)
  end.
Proof.
  destruct op; try done; simpl; unfold returning;
    apply evolves_bind; try apply _; try (intros ?; apply evolves_ret; apply _).
  - unfold prepare. frame; apply settle_prepared_frame.
  - unfold mark_applied, mark_state. frame.
  - unfold mark_absent, mark_state. frame.
  - unfold observe. frame.
  - unfold register_artifact. frame.
  - unfold prepare_artifact. frame.
  - unfold artifact_is_registered. frame.
  - unfold lease_artifact. frame.
  - unfold advance_artifact. frame.
  - unfold consume_artifact. frame.
  - unfold confirm_artifact_consumed. frame.
  - unfold revoke_certificate_artifacts. frame. apply revoke_each_frame.
  - unfold reconcile_artifacts. frame. apply reconcile_each_frame.
  - unfold tracked_artifact_ids. frame.
Qed.
End Frames.
