(* ===== verification/EffectTheorems.v ===== *)
(** The contract of the authorized-effect store: every history of calls, under
    any fault schedule, refines the abstract lifecycle; an authorized effect
    runs at most once per delivery mode; a completed effect is only ever
    answered with its recorded response. *)

From stdpp Require Import base list gmap numbers countable strings sorting.
From Stdlib Require Import ZArith Lia Bool Strings.Byte.
From S2P Require Import Prelude Bytes Contracts Authorization Sql Executor.
From S2P Require Import EffectRecords EffectStore EffectFacts EffectMachine.

Local Open Scope Z_scope.

Section Refinement.
Context `{Crypto} `{Platform} (key : bytes).

Lemma run_call_eq d call r d' :
  run_call key d call = (r, d') ->
  exists c', run_op key (call_op call) (call_clock call) (mkConn d (call_faults call)) = (r, c') /\
    conn_db c' = d'.
Proof. unfold run_call. destruct (run_op _ _ _ _) as [x c']. intros [= <- <-]. eauto. Qed.

Lemma returning_ok {A} (m : Eff A) f c r c' :
  returning m f c = (r, c') ->
  (exists a, m c = (Ok a, c') /\ r = Ok (f a)) \/ (exists e, m c = (Err e, c') /\ r = Err e).
Proof.
  unfold returning, bind, ret. destruct (m c) as [[a|e] c1]; intros [= <- <-]; eauto.
Qed.

(** The phase depends on the authorized effects only. *)
Lemma phase_keeps d d' k : keeps edb_authorized d d' -> phase d' k = phase d k.
Proof. unfold keeps, phase. by intros ->. Qed.

Lemma effect_now_clock clock now : effect_now clock = Ok now -> clock = Some now.
Proof. unfold effect_now. destruct clock; [|done]. case_bool_decide; [|done]. by intros [= ->]. Qed.

(** Pruning moves every command along the lifecycle. *)
Lemma pruned_phase d d' now k rows' clock :
  clock = Some now -> pruned now (edb_authorized d) rows' -> edb_authorized d' !! k = rows' !! k ->
  phase_step clock (phase d k) None (phase d' k).
Proof.
  intros Hc P L. unfold phase. rewrite L. destruct (P k) as [->|(-> & row & -> & S & E)].
  - apply step_idle.
  - rewrite bool_decide_true by done. by eapply step_forget.
Qed.

Lemma mode_of_record r :
  is_ok (validate_authorized_record key r) = true ->
  aer_delivery_mode r = 1 \/ aer_delivery_mode r = 3.
Proof.
  unfold validate_authorized_record. destruct (_ || _) eqn:G; [done|]. intros _. split_guards.
  destruct (Z.eqb_spec (aer_delivery_mode r) 1); [by left|].
  destruct (Z.eqb_spec (aer_delivery_mode r) 3); [by right|]. done.
Qed.

Lemma prepare_refines clock id c decision c' k :
  prepare_authorized key clock id c = (Ok decision, c') ->
  phase_step clock (phase (conn_db c) k)
    (event_of k (OpPrepareAuthorized id) (Ok (OutDecision decision))) (phase (conn_db c') k).
Proof.
  intros E. apply prepare_authorized_ok in E as (now & v & Hnow & Hv & E).
  apply effect_now_clock in Hnow.
  destruct (validate_authorized_effect_ok _ _ _ Hv) as (_ & _ & Hexp & Hlt & Hmode).
  simpl. unfold for_command. destruct E as [(row & L & Hval & _ & E)|(L & -> & rows' & P & L' & _ & _ & D)].
  - case_bool_decide as Happ; [destruct E as [-> ->]|].
    { case_bool_decide as Hk; [subst k|apply step_idle].
      unfold phase. rewrite L, bool_decide_true by done. apply step_replay. }
    destruct (aei_retry_if_absent id && (aer_delivery_mode (row_record row) =? 1)) eqn:B.
    + apply andb_true_iff in B as [-> M%Z.eqb_eq]. destruct E as [-> (hmac & _ & D)]. rewrite D.
      case_bool_decide as Hk; [subst k|]; unfold phase; simpl.
      * rewrite lookup_insert_eq, L. simpl. rewrite bool_decide_false by done.
        rewrite M, Hexp. by eapply step_retry.
      * rewrite lookup_insert_ne by done. apply step_idle.
    + destruct E as [-> ->]. case_bool_decide as Hk; [subst k|apply step_idle].
      unfold phase. rewrite L, bool_decide_false by done. apply step_pending.
  - rewrite D. case_bool_decide as Hk.
    + subst k. unfold phase; simpl. rewrite lookup_insert_eq, L. simpl.
      rewrite Hmode, Hexp. destruct (aei_retry_if_absent id); by eapply step_start.
    + eapply pruned_phase; [done|exact P|]. simpl. by rewrite lookup_insert_ne.
Qed.

Lemma complete_refines clock id response c u c' k out :
  complete_authorized key clock id response c = (Ok u, c') ->
  phase_step clock (phase (conn_db c) k)
    (event_of k (OpCompleteAuthorized id response) (Ok out)) (phase (conn_db c') k).
Proof.
  intros E. apply complete_authorized_ok in E as (now & v & row & Hnow & Hv & E).
  destruct (validate_authorized_effect_ok _ _ _ Hv) as (_ & _ & Hexp & _ & _).
  destruct E as (_ & L & _ & _ & E). simpl. unfold for_command. case_bool_decide as Happ.
  - destruct E as [<- ->]. case_bool_decide as Hk; [subst k|apply step_idle].
    unfold phase. rewrite L, bool_decide_true by done. apply step_record_again.
  - destruct E as (hmac & _ & ->). case_bool_decide as Hk; [subst k|]; unfold phase; simpl.
    + rewrite lookup_insert_eq, L. simpl. rewrite bool_decide_false by done.
      rewrite Hexp. apply step_record.
    + rewrite lookup_insert_ne by done. apply step_idle.
Qed.

Lemma replay_refines clock id c o c' k :
  replay_authorized key id c = (Ok o, c') ->
  phase_step clock (phase (conn_db c) k)
    (event_of k (OpReplayAuthorized id) (Ok (OutReplay o))) (phase (conn_db c') k).
Proof.
  intros E. pose proof (replay_authorized_read_only key id c) as D. rewrite E in D; simpl in D.
  rewrite D. unfold replay_authorized in E.
  apply bind_ok in E as (v & c1 & [Hv ->]%lift_ok & E).
  destruct (validate_authorized_effect_ok _ _ _ Hv) as (Hid & _).
  apply bind_ok in E as (found & c2 & [_ ->]%query_authorized_ok & E). rewrite Hid in E.
  destruct (edb_authorized (conn_db c) !! aei_command_id id) as [row|] eqn:L; simpl in E.
  - invert_sql E. subst. case_bool_decide as Happ; [|apply step_idle].
    simpl. unfold for_command. case_bool_decide as Hk; [subst k|apply step_idle].
    unfold phase. rewrite L, bool_decide_true by done. apply step_replay.
  - apply ret_ok in E as [-> _]. apply step_idle.
Qed.

(** A call that failed changed nothing. *)
Lemma run_op_atomic op clock : atomic (run_op key op clock).
Proof.
  assert (forall A (m : Eff A) f, atomic m -> atomic (returning m f)) as R.
  { intros A m f Hm c e c' E. apply returning_ok in E as [(a & _ & [=])|(e' & E & _)]. eauto. }
  destruct op; simpl; apply R.
  - apply prepare_authorized_atomic.
  - apply complete_authorized_atomic.
  - apply atomic_read_only, replay_authorized_read_only.
  - apply prepare_atomic.
  - apply mark_state_atomic.
  - apply mark_state_atomic.
  - apply observe_atomic.
  - apply register_artifact_atomic.
  - apply prepare_artifact_atomic.
  - apply atomic_read_only, artifact_is_registered_read_only.
  - apply lease_artifact_atomic.
  - apply advance_artifact_atomic.
  - apply consume_artifact_atomic.
  - apply atomic_read_only, confirm_artifact_consumed_read_only.
  - apply revoke_certificate_artifacts_atomic.
  - apply reconcile_artifacts_atomic.
  - apply atomic_read_only. unfold tracked_artifact_ids, query_all_artifacts, select_keys.
    intros c. unfold sql, bind, query, stmt, ret.
    destruct (conn_faults c) as [|[|] rest]; simpl; try done; by destruct (fold_right _ _ _).
Qed.

Lemma event_of_err k op e : event_of k op (Err e) = None.
Proof. by destruct op. Qed.

(** One call refines one step of the lifecycle of every command. *)
Lemma run_call_refines d call r d' k :
  run_call key d call = (r, d') ->
  phase_step (call_clock call) (phase d k) (event_of k (call_op call) r) (phase d' k).
Proof.
  intros (c' & E & <-)%run_call_eq. destruct r as [out|e].
  - pose proof (run_op_frame key (call_op call) (call_clock call)) as F.
    destruct (call_op call) as [id|id resp|id| | | | | | | | | | | | | |]; simpl in E, F;
      try (specialize (F (mkConn d (call_faults call))); rewrite E in F; simpl in F;
           rewrite (phase_keeps _ _ k F); apply step_idle);
      apply returning_ok in E as [(a & E & [= ->])|(e & _ & [=])].
    + by apply (prepare_refines _ _ _ _ _ k) in E.
    + by apply (complete_refines _ _ _ _ _ _ k (OutDone)) in E.
    + by apply (replay_refines (call_clock call) _ _ _ _ k) in E.
  - rewrite event_of_err. rewrite (run_op_atomic _ _ _ _ _ E). apply step_idle.
Qed.

Lemma run_calls_refines d calls h d' k :
  run_calls key d calls = (h, d') -> phase_run (phase d k) (observe_history k h) (phase d' k).
Proof.
  revert d h. induction calls as [|call calls IH]; simpl; intros d h E.
  - injection E as <- <-. apply run_nil.
  - destruct (run_call key d call) as [r d1] eqn:E1.
    destruct (run_calls key d1 calls) as [h1 d2] eqn:E2. injection E as <- <-.
    simpl. eapply run_cons; [by apply run_call_refines|by apply IH].
Qed.
End Refinement.

(** * Consequences of the lifecycle *)

(** The commands' expiry in every event that carries one. *)
Definition event_expires (e : Z) (ev : option Event) : Prop :=
  match ev with
  | Some (Executed _ x) | Some (Recorded _ x) => x = e
  | _ => True
  end.

Definition executions (retry : bool) (l : list (option Z * option Event)) : nat :=
  length (List.filter (fun '(_, ev) =>
    match ev with Some (Executed b _) => Bool.eqb b retry | _ => false end) l).

(** Clock readings never decrease, from [t] on. *)
Fixpoint clocks_from (t : Z) (l : list (option Z * option Event)) : Prop :=
  match l with
  | [] => True
  | (Some now, _) :: r => t <= now /\ clocks_from now r
  | (None, _) :: r => clocks_from t r
  end.

Definition phase_expires (e : Z) (p : Phase) : Prop :=
  match p with
  | Unseen => True
  | InFlight _ x | Completed _ x => x = e
  end.

(** How many more executions of a delivery mode a phase can lead to. *)
Definition budget (e t : Z) (retry : bool) (p : Phase) : nat :=
  match p, retry with
  | Unseen, _ => if t <? e then 1 else 0
  | InFlight false _, true => 1
  | _, _ => 0
  end.

(** A clock reading that is not before [t]. *)
Definition not_before (t : Z) (clock : option Z) : Prop :=
  match clock with Some now => t <= now | None => True end.

Lemma phase_step_budget e t clock p ev p' retry :
  phase_step clock p ev p' -> phase_expires e p -> event_expires e ev -> not_before t clock ->
  phase_expires e p' /\
  (executions retry [(clock, ev)] + budget e (default t clock) retry p' <= budget e t retry p)%nat.
Proof.
  intros S P V C. destruct S; simpl in *; subst; (split; [done|]); unfold executions; simpl in *.
  - destruct (Z.ltb_spec t e); [|lia]. destruct retry, retry0; simpl; lia.
  - destruct retry; simpl; lia.
  - destruct retried, retry; simpl; lia.
  - destruct retried, retry; simpl; lia.
  - lia.
  - lia.
  - destruct (Z.ltb_spec now e); lia.
  - destruct p as [|[]|]; [|destruct retry; simpl; lia..].
    destruct clock as [now|]; simpl in *;
      repeat match goal with |- context [?a <? ?b] => destruct (Z.ltb_spec a b) end; lia.
Qed.

Lemma executions_cons retry x l :
  executions retry (x :: l) = (executions retry [x] + executions retry l)%nat.
Proof. unfold executions. simpl. destruct x as [? [[]|]]; simpl; try done. by destruct (Bool.eqb _ _). Qed.

Lemma phase_run_budget e t p l p' retry :
  phase_run p l p' -> phase_expires e p -> Forall (fun x => event_expires e (snd x)) l ->
  clocks_from t l -> (executions retry l <= budget e t retry p)%nat.
Proof.
  intros R. revert t. induction R as [p|p clock ev p1 l p2 S R IH]; intros t P V C.
  - unfold executions; simpl. lia.
  - inversion V as [|? ? V1 V2]; subst. simpl in V1.
    assert (not_before t clock /\ clocks_from (default t clock) l) as [N C'].
    { destruct clock; simpl in *; tauto. }
    destruct (phase_step_budget e t _ _ _ _ retry S P V1 N) as [P1 B].
    rewrite executions_cons. specialize (IH _ P1 V2 C'). lia.
Qed.

(** Once completed, a command whose expiry is [e] is answered before [e] with
    its response and nothing else. *)
Definition answered_with (response : bytes) (ev : option Event) : Prop :=
  match ev with
  | None => True
  | Some (Replayed r) | Some (Recorded r _) => r = response
  | Some Deferred | Some (Executed _ _) => False
  end.

(** The command is completed, or it was forgotten after its expiry. *)
Definition settled (e t : Z) (response : bytes) (p : Phase) : Prop :=
  p = Completed response e \/ (p = Unseen /\ e <= t).

Lemma phase_step_settled e t response clock p ev p' :
  phase_step clock p ev p' -> settled e t response p -> event_expires e ev -> not_before t clock ->
  answered_with response ev /\ settled e (default t clock) response p'.
Proof.
  unfold settled. intros S [->|[-> L]] V C; inversion S; subst; simpl in *; try lia; auto.
  split; [done|]. right. destruct clock; simpl in *; (split; [done|lia]).
Qed.

Lemma phase_run_settled e t response p l p' :
  phase_run p l p' -> settled e t response p -> Forall (fun x => event_expires e (snd x)) l ->
  clocks_from t l -> Forall (fun x => answered_with response (snd x)) l.
Proof.
  intros R. revert t. induction R as [p|p clock ev p1 l p2 S R IH]; intros t P V C; [done|].
  inversion V as [|? ? V1 V2]; subst. simpl in V1.
  assert (not_before t clock /\ clocks_from (default t clock) l) as [N C'].
  { destruct clock; simpl in *; tauto. }
  destruct (phase_step_settled _ _ _ _ _ _ _ S P V1 N) as [A P1]. constructor; [done|].
  by apply (IH _ P1 V2 C').
Qed.

(** Every identity presented for the command expires at [e]. *)
Definition op_expires (command : bytes) (e : Z) (op : StoreOp) : Prop :=
  match op with
  | OpPrepareAuthorized id | OpCompleteAuthorized id _ =>
      aei_command_id id = command -> aei_expires_at_unix_seconds id = e
  | _ => True
  end.

(** The clock of consecutive calls never goes back, starting at [t]. *)
Fixpoint monotone_from (t : Z) (calls : list Call) : Prop :=
  match calls with
  | [] => True
  | call :: rest =>
      not_before t (call_clock call) /\ monotone_from (default t (call_clock call)) rest
  end.

Section Histories.
Context `{Crypto} `{Platform} (key : bytes).

Lemma event_of_expires command e op r :
  op_expires command e op -> event_expires e (event_of command op r).
Proof.
  destruct op; try done; destruct r as [[]|]; simpl; try done; unfold for_command; intros E;
    try (by case_bool_decide; simpl; auto).
  - destruct decision; case_bool_decide; simpl; auto.
  - destruct response as [?|]; [by case_bool_decide|done].
Qed.

Lemma run_calls_events command e t d calls h d' :
  run_calls key d calls = (h, d') -> Forall (fun call => op_expires command e (call_op call)) calls ->
  monotone_from t calls ->
  Forall (fun x => event_expires e (snd x)) (observe_history command h) /\
  clocks_from t (observe_history command h).
Proof.
  revert t d h. induction calls as [|call calls IH]; simpl; intros t d h E F M.
  - injection E as <- <-. by simpl.
  - destruct (run_call key d call) as [r d1]. inversion F as [|? ? F1 F2]; subst.
    destruct (run_calls key d1 calls) as [h1 d2] eqn:E2. injection E as <- <-.
    destruct M as [N M]. destruct (IH _ _ _ E2 F2 M) as [V C]. simpl. split.
    + constructor; [by apply event_of_expires|done].
    + destruct (call_clock call); simpl in *; auto.
Qed.

(** C14. Every history of calls on the effect store refines the abstract
    lifecycle of every command: whatever the fault schedules, the clocks, the
    identities and the contents of the database, what the callers were told
    about a command is a run of [phase_run] from its phase before to its phase
    after.  In particular only [Unseen] and (for a retry) a first delivery in
    flight lead to [Execute], the recorded response is the only one replayed,
    and a command is forgotten only when completed and past its expiry. *)
Theorem store_refines_lifecycle d calls command :
  let '(h, d') := run_calls key d calls in
  phase_run (phase d command) (observe_history command h) (phase d' command).
Proof.
  destruct (run_calls key d calls) as [h d'] eqn:E. by apply (run_calls_refines _ _ _ _ _ command) in E.
Qed.

(** C13. A privileged effect is executed at most once per delivery mode: in
    every history in which the clock does not go back and every identity
    presented for the command carries the same expiry, starting from a store
    that has not seen the command, [prepare_authorized] answers [Execute] at
    most once to ordinary deliveries and at most once to retries, whatever
    storage failures, completions, prunings and other commands are in between. *)
Theorem authorized_effect_at_most_once d calls command e t h d' retry :
  edb_authorized d !! command = None ->
  Forall (fun call => op_expires command e (call_op call)) calls ->
  monotone_from t calls ->
  run_calls key d calls = (h, d') ->
  (executions retry (observe_history command h) <= 1)%nat.
Proof.
  intros L F M E. destruct (run_calls_events _ _ _ _ _ _ _ E F M) as [V C].
  apply (run_calls_refines _ _ _ _ _ command) in E.
  assert (phase d command = Unseen) as U by (unfold phase; by rewrite L). rewrite U in E.
  pose proof (phase_run_budget e t _ _ _ retry E I V C) as B. simpl in B.
  destruct (t <? e); lia.
Qed.

(** Once the response of a command is recorded, every later answer about
    the command, to deliveries, retries, completions and replays alike, is
    that response: no execution and no other response, even after the record
    has been pruned. *)
Theorem completed_effect_only_replayed d calls command response e t h d' :
  phase d command = Completed response e ->
  Forall (fun call => op_expires command e (call_op call)) calls ->
  monotone_from t calls ->
  run_calls key d calls = (h, d') ->
  Forall (fun x => answered_with response (snd x)) (observe_history command h).
Proof.
  intros P F M E. destruct (run_calls_events _ _ _ _ _ _ _ E F M) as [V C].
  apply (run_calls_refines _ _ _ _ _ command) in E.
  eapply phase_run_settled; [exact E|by left|exact V|exact C].
Qed.
End Histories.
