(* ===== verification/ArtifactTheorems.v ===== *)
(** The lifecycle of a certificate artifact: one step per change the methods
    of the effect store make to its record, and the proof that every call
    moves every artifact along these steps. *)

From stdpp Require Import base list gmap numbers countable strings sorting relations.
From Stdlib Require Import ZArith Lia Bool Strings.Byte.
From S2P Require Import Prelude Bytes Contracts Authorization Sql Executor EffectRecords.
From S2P Require Import EffectStore EffectFacts EffectMachine EffectTheorems.

Local Open Scope Z_scope.

(** In a table whose primary key is a column, a row is stored under that
    column's value. *)
Definition keyed (d : EffectDb) : Prop :=
  map_Forall (fun k row => art_artifact_id (row_record row) = k) (edb_artifacts d).

Definition artifact (d : EffectDb) (id : bytes) : option ArtifactRecord :=
  row_record <$> edb_artifacts d !! id.

Section Lifecycle.
Context `{Crypto} (key : bytes).

(** A record with its authentication code recomputed. *)
Definition sealed (r : ArtifactRecord) : ArtifactRecord :=
  art_seal (authenticate_artifact_record key r) r.

Definition authentic (r : ArtifactRecord) : Prop :=
  is_ok (validate_artifact_record key r) = true.

Definition in_state (r : ArtifactRecord) (l : list String.string) : Prop :=
  one_of (art_state r) l = true.

(** The lease of [r] runs out after [now]. *)
Definition lease_live (r : ArtifactRecord) (now : Z) : Prop :=
  exists expiry, art_grant_expires_at r = Some expiry /\ now < expiry.

(** A caller that names the lease of [r]: its grant, its subject and its end. *)
Definition names_lease (identity : ArtifactLeaseIdentity) (r : ArtifactRecord) : Prop :=
  art_active_grant_id r = Some (ali_grant_id identity)
  /\ art_active_subject r = ali_authorized_subject identity
  /\ art_grant_expires_at r = Some (ali_expires_at_unix_seconds identity).

(** The changes that the call [op] may make at the time [now]. *)
Inductive art_step (op : StoreOp) (now : Z) (id : bytes)
  : option ArtifactRecord -> option ArtifactRecord -> Prop :=
| art_create cert version operation expires :
    now < expires ->
    art_step op now id None (Some (sealed (mkArtifactRecord id cert version operation (replicate 32 x00) 0
      expires (str "prepared") None [] None 0 (replicate 32 x00))))
| art_register r digest size :
    authentic r -> in_state r ["prepared"]%string -> length digest = 32%nat ->
    0 < size <= MAX_ARTIFACT_BYTES -> now < art_artifact_expires_at r ->
    art_step op now id (Some r) (Some (sealed (art_content digest size (str "available") r)))
| art_grant r grant subject expires :
    authentic r -> in_state r ["available"; "leased"]%string ->
    (in_state r ["leased"]%string -> ~ lease_live r now /\ art_active_grant_id r <> Some grant) ->
    now < art_artifact_expires_at r -> now < expires -> subject <> [] ->
    art_step op now id (Some r)
      (Some (sealed (art_lease (str "leased") (Some grant) subject (Some expires) 0 r)))
| art_advance r identity expected next :
    op = OpAdvanceArtifact identity expected next -> ali_artifact_id identity = id ->
    names_lease identity r -> authentic r -> in_state r ["leased"]%string -> lease_live r now ->
    art_active_offset r < next <= art_content_size r ->
    art_step op now id (Some r)
      (Some (sealed (art_lease (art_state r) (art_active_grant_id r) (art_active_subject r)
                       (art_grant_expires_at r) next r)))
| art_consume r identity :
    op = OpConsumeArtifact identity (art_content_sha256 r) (art_content_size r) ->
    ali_artifact_id identity = id -> names_lease identity r -> authentic r -> in_state r ["leased"]%string -> lease_live r now ->
    art_active_offset r = art_content_size r ->
    art_step op now id (Some r) (Some (sealed (art_state_to (str "consumed") r)))
| art_revoke r :
    op = OpRevokeArtifacts (art_certificate_id r) -> authentic r -> ~ in_state r ["consumed"]%string ->
    art_step op now id (Some r) (Some (sealed (art_state_to (str "revoked") r)))
| art_reconcile r :
    op = OpReconcileArtifacts -> authentic r -> art_step op now id (Some r) (Some (sealed (reconcile_record r now))).

(** The table moves artifact by artifact, and the rows that changed satisfy
    the constraints of the table. *)
Definition artifacts_step (op : StoreOp) (now : Z) (rows rows' : gmap bytes (Row ArtifactRecord)) : Prop :=
  forall k, rtc (art_step op now k) (row_record <$> rows !! k) (row_record <$> rows' !! k) /\
    (rows' !! k = rows !! k \/
     exists row, rows' !! k = Some row /\ artifact_check (row_record row) = true).

#[export] Instance artifacts_step_preorder op now : PreOrder (artifacts_step op now).
Proof.
  split; [intros rows k; split; [reflexivity|by left]|]. intros r1 r2 r3 A B k.
  destruct (A k) as [A1 A2], (B k) as [B1 B2]. split; [by etransitivity|].
  destruct B2 as [->|B2]; [done|by right].
Qed.

Lemma artifacts_step_insert op now rows k row r u :
  rows !! k = Some row -> art_step op now k (Some (row_record row)) (Some r) ->
  artifact_check r = true -> artifacts_step op now rows (<[k := mkRow r u]> rows).
Proof.
  intros L S C k'. destruct (decide (k' = k)) as [->|N].
  - rewrite lookup_insert_eq, L. split; [by apply rtc_once|]. right. by eexists.
  - rewrite lookup_insert_ne by done. split; [done|by left].
Qed.

(** ** Methods *)

Context `{Platform}.

(** The artifacts after a method, and the rest of the database. *)
Definition artifacts_moved (op : StoreOp) (now : Z) (d d' : EffectDb) : Prop :=
  exists rows', artifacts_step op now (edb_artifacts d) rows' /\
    d' = tbl_with certificate_artifacts rows' d.

Lemma artifacts_unmoved op now d : artifacts_moved op now d d.
Proof.
  exists (edb_artifacts d). split; [done|].
  symmetry. apply (tbl_with_rows (T := certificate_artifacts)).
Qed.

(** The row an update found is the record that was read, and the update moved
    it by [art_step]. *)
Lemma update_artifact_moved op now c3 c4 d k row cond set :
  conn_db c3 = d -> edb_artifacts d !! k = Some row ->
  update_row certificate_artifacts k cond set now c3 = (Ok 1, c4) ->
  (cond (row_record row) = true -> artifact_check (set (row_record row)) = true ->
   art_step op now k (Some (row_record row)) (Some (set (row_record row)))) ->
  artifacts_moved op now d (conn_db c4).
Proof.
  intros D L E S. apply update_row_ok in E as [[_ (x & Hrow & Hcond & Hchk & Hnew)]|[[=] _]].
  simpl in Hrow. rewrite D in Hrow, Hnew. assert (x = row) as -> by congruence.
  rewrite Hnew. eexists. split; [|done]. eapply artifacts_step_insert; [done|by apply S|done].
Qed.

Lemma checked_update {K R} `{Countable K} (T : Table K R) k cond set now c u c' :
  bind (sql sqlite_io (update_row T k cond set now)) (fun n => lift (changed_one n)) c = (Ok u, c') ->
  update_row T k cond set now c = (Ok 1, c').
Proof.
  intros E. apply bind_ok in E as (n & c1 & E1%sql_ok & [->%changed_one_ok ->]%lift_ok). done.
Qed.

Lemma checked_update_then {K R A} `{Countable K} (T : Table K R) k cond set now
  (rest : unit -> Eff A) c a c' :
  bind (sql sqlite_io (update_row T k cond set now))
    (fun n => bind (lift (changed_one n)) rest) c = (Ok a, c') ->
  exists c1, update_row T k cond set now c = (Ok 1, c1) /\ rest tt c1 = (Ok a, c').
Proof.
  intros E. apply bind_ok in E as (n & c1 & E1%sql_ok & E).
  apply bind_ok in E as ([] & c2 & [->%changed_one_ok ->]%lift_ok & E). eauto.
Qed.

Lemma one_of_state s x l : s = str x -> x ∈ l -> one_of s l = true.
Proof.
  intros -> Hin. apply existsb_exists. exists x. split; [by apply list_elem_of_In|].
  by apply bool_decide_eq_true.
Qed.

Lemma is_leased_state r : is_leased r = true -> in_state r ["leased"]%string.
Proof. unfold is_leased. intros E%bool_decide_eq_true. by eapply one_of_state; [|left]. Qed.

Lemma in_state_leased r : in_state r ["leased"]%string -> is_leased r = true.
Proof. unfold in_state, one_of, is_leased. simpl. by rewrite orb_false_r. Qed.

(** Reading an artifact by its identifier: the record is there and
    authenticates. *)
Lemma read_artifact {A} e id (k : ArtifactRecord -> Eff A) c a c' :
  keyed (conn_db c) ->
  bind (query_artifact id) (fun found => bind (lift (ok_or found e)) (fun record =>
    bind (lift (validate_artifact_record key record)) (fun _ => k record))) c = (Ok a, c') ->
  exists row c1, edb_artifacts (conn_db c) !! id = Some row /\ conn_db c1 = conn_db c /\
    authentic (row_record row) /\ art_artifact_id (row_record row) = id /\
    k (row_record row) c1 = (Ok a, c').
Proof.
  intros K E. apply bind_ok in E as (found & c1 & [D ->]%query_artifact_ok & E).
  destruct (edb_artifacts (conn_db c) !! id) as [row|] eqn:L; simpl in E; [|done].
  apply bind_ok in E as (r & c2 & [[= <-] ->]%lift_ok & E).
  apply bind_ok in E as (u & c2 & [Hval ->]%lift_ok & E).
  exists row, c1. split_and!; try done; [unfold authentic; by rewrite Hval|by apply (K id)].
Qed.

Lemma artifact_check_size r : artifact_check r = true -> 0 <= art_content_size r <= 67108864.
Proof. unfold artifact_check. intros C. split_guards. lia. Qed.

Lemma keyed_conn d f : keyed d -> keyed (conn_db (mkConn d f)).
Proof. done. Qed.

(** An expired grant does not identify itself. *)
Lemma validate_artifact_identity_ok id now v :
  validate_artifact_identity id now = Ok v ->
  vai_artifact_id v = ali_artifact_id id /\ vai_grant_id v = ali_grant_id id /\
  vai_authorized_subject v = ali_authorized_subject id /\
  vai_expires_at v = ali_expires_at_unix_seconds id /\ now < vai_expires_at v /\
  vai_authorized_subject v <> [].
Proof.
  unfold validate_artifact_identity, validate_artifact_identity_for_confirmation.
  intros E. invert_ok E. subst. invert_ok Hstep. subst. simpl in *.
  repeat match goal with E : fixed_request _ _ = Ok _ |- _ => apply fixed_request_same in E as [-> _] end.
  split_guards. split_and!; try done; [lia|by apply is_empty_false].
Qed.

(** Every method on artifacts: the clock it read, and the artifacts moved at
    that time by that call. *)
Definition moves {A} (op : StoreOp) (clock : option Z) (m : Eff A) : Prop :=
  forall c a c', keyed (conn_db c) -> m c = (Ok a, c') ->
  exists now, effect_now clock = Ok now /\ artifacts_moved op now (conn_db c) (conn_db c').

Lemma register_artifact_moves clock a c0 v o s n e :
  moves (OpRegisterArtifact a c0 v o s n e) clock (register_artifact key clock a c0 v o s n e).
Proof.
  intros c r c' K. unfold register_artifact. intros E.
  apply bind_ok in E as (now & c1 & [Hnow ->]%lift_ok & E). exists now. split; [done|].
  do 4 (apply bind_ok in E as (? & ? & [?%fixed_request_same ->]%lift_ok & E)). destruct_and!. subst.
  apply bind_ok in E as (? & ? & G & E). invert_sql G. subst. split_guards.
  apply transaction_commit in E as (faults & c2 & E & ->).
  apply read_artifact in E as (row & c3 & L & D & Hauth & Hid & E); [|done]. simpl in L, D.
  apply bind_ok in E as (? & ? & G & E). invert_sql G. subst. split_guards.
  destruct (one_of (art_state (row_record row)) _).
  { destruct (_ || _); [discriminate E|]. apply ret_ok in E as [_ ->]. rewrite D.
    apply artifacts_unmoved. }
  case_bool_decide as Hst; [discriminate E|].
  apply bind_ok in E as (? & ? & [_ ->]%lift_ok & E). apply checked_update in E.
  eapply update_artifact_moved; [exact D|exact L|exact E|]. intros _ C. simpl.
  apply artifact_check_size in C. simpl in C. rewrite Z.eqb_eq in *. rewrite Z.eqb_neq in *.
  apply art_register; [done|by eapply one_of_state; [|left]|done|lia|lia].
Qed.

Lemma prepare_artifact_moves clock a c0 v o e : moves (OpPrepareArtifact a c0 v o e) clock (prepare_artifact key clock a c0 v o e).
Proof.
  intros c r c' K. unfold prepare_artifact. intros E.
  apply bind_ok in E as (now & c1 & [Hnow ->]%lift_ok & E). exists now. split; [done|].
  apply bind_ok in E as (? & ? & G & E). invert_sql G. subst. split_guards.
  apply transaction_commit in E as (faults & c2 & E & ->).
  apply bind_ok in E as (found & c1 & [D ->]%query_artifact_ok & E). simpl in D, E.
  destruct (edb_artifacts (conn_db c) !! a) as [row|] eqn:L; simpl in E.
  - invert_sql E. subst. rewrite D. apply artifacts_unmoved.
  - invert_sql E. subst. statement_facts. simpl in Hrow, Hnew. rewrite D in Hnew.
    eexists. split; [|exact Hnew]. intros k. destruct (decide (k = a)) as [->|N].
    + rewrite lookup_insert_eq, L. split; [apply rtc_once, art_create; lia|right; by eexists].
    + rewrite lookup_insert_ne by done. split; [done|by left].
Qed.

Lemma lease_artifact_moves clock id : moves (OpLeaseArtifact id) clock (lease_artifact key clock id).
Proof.
  intros c r c' K. unfold lease_artifact. intros E.
  apply bind_ok in E as (now & c1 & [Hnow ->]%lift_ok & E). exists now. split; [done|].
  apply bind_ok in E as (v & c1 & [Hv ->]%lift_ok & E).
  destruct (validate_artifact_identity_ok _ _ _ Hv) as (_ & _ & _ & _ & Hlive & Hsubj).
  apply transaction_commit in E as (faults & c2 & E & ->).
  apply read_artifact in E as (row & c3 & L & D & Hauth & Hid & E); [|done]. simpl in L, D.
  apply bind_ok in E as (? & ? & G & E). invert_sql G. subst. split_guards.
  apply bind_ok in E as (? & ? & G & E). invert_sql G. subst.
  apply bind_ok in E as (? & ? & G & E). invert_sql G. subst.
  destruct (negb _ || negb _) eqn:B; [|apply ret_ok in E as [_ ->]; rewrite D; apply artifacts_unmoved].
  apply checked_update_then in E as (c4 & E & [_ ->]%ret_ok).
  eapply update_artifact_moved; [exact D| |exact E|]; [by simpl; rewrite Hid|]. intros _ _. simpl.
  apply art_grant; [done|done| |lia|lia|done].
  intros Hl%in_state_leased. rewrite Hl in *. simpl in *. apply negb_true_iff in B. rewrite B in *.
  split; [|by apply bool_decide_eq_false in B].
  intros (expiry & Hexp & Hlt). rewrite Hexp in Hguard. simpl in Hguard. lia.
Qed.

(** The guards of a transfer step: the caller holds the live lease. *)
Lemma granted_live record v now :
  bool_decide (art_grant_expires_at record <> Some (vai_expires_at v)) = false ->
  now < vai_expires_at v -> lease_live record now.
Proof. intros E%bool_decide_eq_false Hlt. exists (vai_expires_at v). split; [|done]. by apply dec_stable. Qed.

Lemma advance_artifact_moves clock id x n : moves (OpAdvanceArtifact id x n) clock (advance_artifact key clock id x n).
Proof.
  intros c r c' K. unfold advance_artifact. intros E.
  apply bind_ok in E as (now & c1 & [Hnow ->]%lift_ok & E). exists now. split; [done|].
  apply bind_ok in E as (v & c1 & [Hv ->]%lift_ok & E).
  destruct (validate_artifact_identity_ok _ _ _ Hv) as (Ea & Eg & Es & Ee & Hlive & Hsubj).
  apply transaction_commit in E as (faults & c2 & E & ->).
  apply read_artifact in E as (row & c3 & L & D & Hauth & Hid & E); [|done]. simpl in L, D.
  apply bind_ok in E as (? & ? & G & E). invert_sql G. subst.
  apply bind_ok in E as (? & ? & [_ ->]%lift_ok & E).
  apply bind_ok in E as (? & ? & [_ ->]%lift_ok & E). apply checked_update in E.
  eapply update_artifact_moved; [exact D| |exact E|]; [by simpl; rewrite Hid|]. intros C _. simpl.
  repeat match goal with G : (_ || _)%bool = false |- _ => apply orb_false_iff in G as [G ?] end.
  match goal with G : negb (_ =? x) = false |- _ => apply negb_false_iff, Z.eqb_eq in G end.
  apply negb_false_iff in Hguard.
  assert (names_lease id (row_record row)) as HN.
  { unfold names_lease. rewrite <- Eg, <- Es, <- Ee. unfold granted_to in *. split_guards.
    split_and!; [done|by apply dec_stable..]. }
  apply (art_advance _ _ _ _ id x); [done|congruence|done|done|by apply is_leased_state|by eapply granted_live|lia].
Qed.

Lemma consume_artifact_moves clock id s n : moves (OpConsumeArtifact id s n) clock (consume_artifact key clock id s n).
Proof.
  intros c r c' K. unfold consume_artifact. intros E.
  apply bind_ok in E as (now & c1 & [Hnow ->]%lift_ok & E). exists now. split; [done|].
  apply bind_ok in E as (v & c1 & [Hv ->]%lift_ok & E).
  apply bind_ok in E as (digest & c1 & [[-> _]%fixed_request_same ->]%lift_ok & E).
  destruct (validate_artifact_identity_ok _ _ _ Hv) as (Ea & Eg & Es & Ee & Hlive & Hsubj).
  apply transaction_commit in E as (faults & c2 & E & ->).
  apply read_artifact in E as (row & c3 & L & D & Hauth & Hid & E); [|done]. simpl in L, D.
  destruct (bool_decide _ && _).
  { apply ret_ok in E as [_ ->]. rewrite D. apply artifacts_unmoved. }
  destruct (negb _ || negb _) eqn:B; [discriminate E|]. apply checked_update in E.
  eapply update_artifact_moved; [exact D| |exact E|]; [by simpl; rewrite Hid|]. intros C _. simpl.
  unfold exact_grant, same_artifact, granted_to in B. split_guards.
  apply (art_consume _ _ _ _ id); [|congruence| |done|by apply is_leased_state|by exists (vai_expires_at v)|lia].
  - f_equal; [congruence|lia].
  - unfold names_lease. rewrite <- Eg, <- Es, <- Ee. done.
Qed.

(** ** Authenticity *)

(** What [validate_artifact_record] requires besides the authentication. *)
Record shaped (r : ArtifactRecord) : Prop := {
  shape_size : art_content_size r <= MAX_ARTIFACT_BYTES;
  shape_prepared : art_state r = str "prepared" -> art_content_size r = 0;
  shape_content : one_of (art_state r) ["prepared"; "expired"; "revoked"]%string = false ->
    art_content_size r <> 0;
  shape_state : in_state r
    ["prepared"; "available"; "leased"; "consumed"; "expired"; "revoked"]%string;
  shape_lease : art_state r = str "leased" ->
    art_active_grant_id r <> None /\ art_active_subject r <> [] /\ art_grant_expires_at r <> None;
  shape_offset : art_active_offset r <= art_content_size r;
  shape_available : art_state r = str "available" -> art_active_offset r = 0 }.

Lemma authentic_shaped r :
  authentic r <-> shaped r /\ authenticate_artifact_record key r = art_record_hmac r.
Proof.
  unfold authentic, validate_artifact_record, is_leased. split.
  - destruct (_ || _) eqn:G; [done|]. intros _.
    repeat match goal with G : (_ || _)%bool = false |- _ => apply orb_false_iff in G as [G ?] end.
    repeat match goal with G : (_ && _)%bool = false |- _ => apply andb_false_iff in G end.
    split; [|by apply dec_stable, (bool_decide_eq_false_1 _)].
    split; split_guards; try lia; try done.
    + intros E. rewrite E in *. naive_solver lia.
    + intros E. rewrite E in *. naive_solver lia.
    + intros E. rewrite E in *.
      match goal with G : _ = false \/ _ |- _ => destruct G as [G|G]; [done|] end.
      repeat match goal with G : (_ || _)%bool = false |- _ => apply orb_false_iff in G as [G ?] end.
      split_guards. split_and!; try done. by apply is_empty_false.
    + intros E. rewrite E in *. naive_solver lia.
  - intros [[S1 S2 S3 S4 S5 S6 S7] M].
    destruct (_ || _) eqn:G; [exfalso|done]. unfold in_state in S4. rewrite S4 in G.
    repeat match goal with G : (_ || _)%bool = true |- _ => apply orb_true_iff in G as [G|G] end;
      split_guards; try lia; try done.
    + apply S2 in H1. lia.
    + apply negb_true_iff in H1. apply S3 in H1. lia.
    + apply S5 in H1 as (? & ? & ?).
      repeat match goal with G : (_ || _)%bool = true |- _ => apply orb_true_iff in G as [G|G] end;
        split_guards; try done. by destruct (art_active_subject r).
    + apply S7 in H1. lia.
Qed.

Lemma sealed_authentic r : shaped r -> authentic (sealed r).
Proof. intros [S1 S2 S3 S4 S5 S6 S7]. apply authentic_shaped. split; [|done]. by split. Qed.

(** Records that authenticate and have a non-negative offset stay so. *)
Definition sound_record (o : option ArtifactRecord) : Prop :=
  forall r, o = Some r -> authentic r /\ 0 <= art_active_offset r.

Lemma in_state_one r x : in_state r [x] -> art_state r = str x.
Proof. unfold in_state, one_of. simpl. rewrite orb_false_r. apply bool_decide_eq_true. Qed.

(** The content of a record that was registered and not yet settled. *)
Lemma active_content r :
  shaped r -> in_state r ["available"; "leased"]%string -> art_content_size r <> 0.
Proof.
  intros S A. apply (shape_content _ S). unfold in_state, one_of in *. simpl in *.
  rewrite orb_false_r in A. apply orb_true_iff in A as [A|A]; apply bool_decide_eq_true in A as ->; done.
Qed.

Lemma reconcile_shaped r now : shaped r -> 0 <= art_active_offset r ->
  shaped (reconcile_record r now) /\ 0 <= art_active_offset (reconcile_record r now).
Proof.
  intros S O. unfold reconcile_record. destruct (_ && one_of _ _).
  { split; [|done]. destruct S. by split. }
  destruct (is_leased r) eqn:Hl; [|by simpl]. apply is_leased_state in Hl.
  assert (art_content_size r <> 0) as N.
  { apply active_content; [done|]. unfold in_state in *. apply in_state_one in Hl. by rewrite Hl. }
  destruct (art_grant_expires_at r) as [x|]; [|by simpl]. destruct (x <=? now); [|by simpl].
  split; [|done]. destruct S. split; simpl; try done. lia.
Qed.

Lemma sound_step op now id o o' : art_step op now id o o' -> sound_record o -> sound_record o'.
Proof.
  intros S P r' E. destruct S; injection E as <-;
    [split; [|done]; by apply sealed_authentic; split|..];
    destruct (P r eq_refl) as [[Sh _]%authentic_shaped O];
    pose proof (shape_size _ Sh); pose proof (shape_offset _ Sh);
    match goal with |- authentic (sealed ?x) /\ _ =>
      cut (shaped x /\ 0 <= art_active_offset x);
        [intros [Sx Ox]; split; [by apply sealed_authentic|exact Ox]|] end.
  - split; [|done]. pose proof (shape_prepared _ Sh (in_state_one _ _ H2)).
    split; simpl; try done; lia.
  - split; [|done]. pose proof (active_content _ Sh H2). split; simpl; try done. lia.
  - pose proof (in_state_one _ _ H5) as Hst. destruct Sh. split; [|simpl; lia].
    split; simpl; try done; [lia|]. by rewrite Hst.
  - pose proof (in_state_one _ _ H5) as Hst. split; [|done].
    assert (art_content_size r <> 0) by (apply (shape_content _ Sh); by rewrite Hst).
    split; simpl; try done.
  - split; [|done]. split; simpl; try done.
  - by apply reconcile_shaped.
Qed.

(** A step keeps the identity of the artifact. *)
Lemma reconcile_record_id r now : art_artifact_id (reconcile_record r now) = art_artifact_id r.
Proof. unfold reconcile_record. by repeat case_match. Qed.

Lemma art_step_id op now id o o' :
  art_step op now id o o' -> (forall r, o = Some r -> art_artifact_id r = id) ->
  forall r, o' = Some r -> art_artifact_id r = id.
Proof.
  intros S K r E. destruct S; injection E as <-; simpl; try (by apply K); try done.
  rewrite reconcile_record_id. by apply K.
Qed.

Lemma art_step_certificate op now id o o' r :
  art_step op now id o o' -> o = Some r ->
  exists r', o' = Some r' /\ art_certificate_id r' = art_certificate_id r.
Proof.
  intros S E. destruct S; simplify_eq; eexists; (split; [done|]); try done. simpl.
  unfold reconcile_record. by repeat case_match.
Qed.

Lemma moved_certificate op now d d' k r :
  artifacts_moved op now d d' -> artifact d k = Some r ->
  exists r', artifact d' k = Some r' /\ art_certificate_id r' = art_certificate_id r.
Proof.
  intros (rows' & S & ->) E. unfold artifact in *. simpl. destruct (S k) as [Sk _]. rewrite E in Sk.
  clear E. remember (Some r) as o eqn:Eo. revert r Eo.
  induction Sk as [o|o o1 o2 S1 _ IH]; intros r ->; [by exists r|].
  destruct (art_step_certificate _ _ _ _ _ _ S1 eq_refl) as (r1 & -> & E1).
  destruct (IH r1 eq_refl) as (r2 & -> & E2). exists r2. split; [done|congruence].
Qed.

Lemma keyed_moved op now d d' : keyed d -> artifacts_moved op now d d' -> keyed d'.
Proof.
  intros K (rows' & S & ->) k row L. simpl in L. destruct (S k) as [Sk _]. rewrite L in Sk. simpl in Sk. clear S. rename Sk into S.
  cut (forall r, Some (row_record row) = Some r -> art_artifact_id r = k); [by intros X; apply X|].
  revert S. generalize (Some (row_record row)). intros o' S.
  assert (forall r, row_record <$> edb_artifacts d !! k = Some r -> art_artifact_id r = k) as Kd.
  { intros r (row0 & L0 & ->)%fmap_Some. by apply (K k). }
  revert Kd. induction S as [o|o o1 o2 S1 S2 IH]; [done|]. intros Ko. apply IH.
  by eapply art_step_id.
Qed.

Lemma artifacts_moved_trans op now d1 d2 d3 :
  artifacts_moved op now d1 d2 -> artifacts_moved op now d2 d3 -> artifacts_moved op now d1 d3.
Proof.
  intros (r1 & S1 & ->) (r2 & S2 & ->). exists r2. split; [|done]. by etransitivity.
Qed.

Lemma revoke_each_moves cert l now c u c' :
  keyed (conn_db c) ->
  (forall k, k ∈ l -> exists r, artifact (conn_db c) k = Some r /\ art_certificate_id r = cert) ->
  revoke_each key l now c = (Ok u, c') ->
  artifacts_moved (OpRevokeArtifacts cert) now (conn_db c) (conn_db c').
Proof.
  revert c. induction l as [|id l IH]; intros c K HC E; simpl in E.
  - apply ret_ok in E as [_ ->]. apply artifacts_unmoved.
  - apply read_artifact in E as (row & c3 & L & D & Hauth & Hid & E); [|done].
    apply bind_ok in E as (u0 & c4 & G & E).
    assert (artifacts_moved (OpRevokeArtifacts cert) now (conn_db c) (conn_db c4)) as M.
    { case_bool_decide as Hst; [|apply ret_ok in G as [_ ->]; rewrite D; apply artifacts_unmoved].
      apply bind_ok in G as (n & c5 & G%sql_ok & [_ ->]%ret_ok).
      apply update_row_ok in G as [[-> (x & Hrow & _ & Hchk & Hnew)]|[-> ->]];
        [|rewrite D; apply artifacts_unmoved].
      simpl in Hrow. rewrite D in Hrow, Hnew. assert (x = row) as -> by congruence.
      rewrite Hnew. eexists. split; [|done]. eapply artifacts_step_insert; [done| |exact Hchk].
      destruct (HC id) as (r & Er & <-); [by left|]. unfold artifact in Er. rewrite L in Er. injection Er as <-.
      apply art_revoke; [done|done|]. unfold in_state, one_of. simpl. rewrite orb_false_r.
      by rewrite bool_decide_false. }
    eapply artifacts_moved_trans; [exact M|]. apply (IH c4); [by eapply keyed_moved| |done].
    intros k Hk. destruct (HC k) as (r & Er & Ec); [by right|].
    destruct (moved_certificate _ _ _ _ _ _ M Er) as (r' & Er' & Ec'). exists r'. split; [done|congruence].
Qed.

Lemma revoke_certificate_artifacts_moves clock cert :
  moves (OpRevokeArtifacts cert) clock (revoke_certificate_artifacts key clock cert).
Proof.
  intros c r c' K. unfold revoke_certificate_artifacts. intros E.
  apply bind_ok in E as (now & c1 & [Hnow ->]%lift_ok & E). exists now. split; [done|].
  apply transaction_commit in E as (faults & c2 & E & ->).
  apply bind_ok in E as (ids & c3 & E1%sql_ok & E).
  apply select_keys_ok in E1 as [D HI]; [|by intros ? ? [-> _]%fixed_blob_same]. simpl in D, HI.
  apply bind_ok in E as (u & c4 & E & [_ ->]%ret_ok).
  rewrite <- D. apply (revoke_each_moves cert ids now _ u); [by rewrite D| |done].
  intros k (row & L & Hc%bool_decide_eq_true)%HI. exists (row_record row). unfold artifact. by rewrite D, L.
Qed.

(** Rewriting the lease columns of a row is writing the reconciled record. *)
Lemma reconcile_columns r now h :
  art_seal h (art_lease (art_state (reconcile_record r now))
    (art_active_grant_id (reconcile_record r now)) (art_active_subject (reconcile_record r now))
    (art_grant_expires_at (reconcile_record r now)) (art_active_offset (reconcile_record r now)) r)
  = art_seal h (reconcile_record r now).
Proof. unfold reconcile_record. destruct (_ && one_of _ _); [done|]. by destruct (is_leased r && _). Qed.

Lemma reconcile_each_moves l now c ids c' :
  keyed (conn_db c) -> reconcile_each key l now c = (Ok ids, c') ->
  artifacts_moved OpReconcileArtifacts now (conn_db c) (conn_db c').
Proof.
  revert c ids. induction l as [|id l IH]; intros c ids K E; simpl in E.
  - apply ret_ok in E as [_ ->]. apply artifacts_unmoved.
  - apply read_artifact in E as (row & c3 & L & D & Hauth & Hid & E); [|done].
    apply bind_ok in E as (n & c4 & G%sql_ok & E).
    apply bind_ok in E as (rest & c5 & E & [_ ->]%ret_ok).
    assert (artifacts_moved OpReconcileArtifacts now (conn_db c) (conn_db c4)) as M.
    { apply update_row_ok in G as [[-> (x & Hrow & _ & Hchk & Hnew)]|[-> ->]];
        [|rewrite D; apply artifacts_unmoved].
      simpl in Hrow. rewrite reconcile_record_id, Hid, D in *.
      assert (x = row) as -> by congruence.
      rewrite reconcile_columns in Hnew, Hchk. rewrite Hnew. eexists. split; [|done].
      eapply artifacts_step_insert; [done|by apply art_reconcile; [|done]|done]. }
    eapply artifacts_moved_trans; [exact M|]. apply (IH c4 rest); [by eapply keyed_moved|done].
Qed.

Lemma query_all_artifacts_read c ids c' :
  query_all_artifacts c = (Ok ids, c') -> conn_db c' = conn_db c.
Proof.
  unfold query_all_artifacts. intros E%sql_ok. invert_sql E. subst.
  apply select_keys_ok in Hrun as [D _]; [done|by intros ? ? [-> _]%fixed_blob_same].
Qed.

Lemma reconcile_artifacts_moves clock : moves OpReconcileArtifacts clock (reconcile_artifacts key clock).
Proof.
  intros c r c' K. unfold reconcile_artifacts. intros E.
  apply bind_ok in E as (now & c1 & [Hnow ->]%lift_ok & E). exists now. split; [done|].
  apply transaction_commit in E as (faults & c2 & E & ->).
  apply bind_ok in E as (ids & c3 & D%query_all_artifacts_read & E). simpl in D.
  rewrite <- D. apply (reconcile_each_moves ids now _ r); [by rewrite D|done].
Qed.
End Lifecycle.

(** What the artifact lifecycle guarantees: every history of calls moves
    every artifact along [art_step], a live lease is exclusive, and an
    artifact is consumed at most once, by the grant that transferred all of
    it. *)

Section Calls.
Context `{Crypto} `{Platform} (key : bytes).

Lemma settle_prepared_artifacts l k r v id h now :
  evolves (keeps edb_artifacts) (settle_prepared key l k r v id h now).
Proof. induction l; simpl; frame; done. Qed.

Lemma prune_each_artifacts l now : evolves (keeps edb_artifacts) (prune_each key l now).
Proof. induction l; simpl; frame; done. Qed.

(** The operations on the other tables. *)
Lemma run_op_artifacts op clock :
  match op with
  | OpPrepareAuthorized _ | OpCompleteAuthorized _ _ | OpReplayAuthorized _ | OpPrepare _ _ _ _ _ _
  | OpMarkApplied _ _ _ _ | OpMarkAbsent _ _ _ _ | OpObserve _ _ _ _ _
  | OpArtifactIsRegistered _ _ _ _ _ | OpConfirmConsumed _ _ _ | OpTrackedArtifacts =>
      evolves (keeps edb_artifacts) (run_op key op clock)
  | _ => True
  end.
Proof.
  destruct op; try done; simpl; unfold returning;
    apply evolves_bind; try apply _; try (intros ?; apply evolves_ret; apply _).
  - unfold prepare_authorized, idempotency_owner, prune_expired_authorized_effects. frame.
    apply prune_each_artifacts.
  - unfold complete_authorized. frame.
  - unfold replay_authorized. frame.
  - unfold prepare. frame; apply settle_prepared_artifacts.
  - unfold mark_applied, mark_state. frame.
  - unfold mark_absent, mark_state. frame.
  - unfold observe. frame.
  - unfold artifact_is_registered. frame.
  - unfold confirm_artifact_consumed. frame.
  - unfold tracked_artifact_ids. frame.
Qed.

(** One call: at the time it read, or not at all. *)
Lemma run_call_artifacts d call r d' :
  keyed d -> run_call key d call = (r, d') ->
  keyed d' /\ (edb_artifacts d' = edb_artifacts d \/
    exists now, call_clock call = Some now /\ is_ok r = true /\
      artifacts_step key (call_op call) now (edb_artifacts d) (edb_artifacts d')).
Proof.
  intros K (c' & E & <-)%run_call_eq.
  assert (keeps edb_artifacts d (conn_db c') \/ exists now, call_clock call = Some now /\ is_ok r = true /\
            artifacts_moved key (call_op call) now d (conn_db c')) as [F|(now & Hc & Hr & M)].
  { destruct r as [out|e]; [|left; unfold keeps; by rewrite (run_op_atomic _ _ _ _ _ _ E)].
    pose proof (run_op_artifacts (call_op call) (call_clock call)) as F.
    destruct (call_op call); simpl in E, F;
      try (left; specialize (F (mkConn d (call_faults call))); by rewrite E in F);
      right; apply returning_ok in E as [(a & E & _)|(e & _ & [=])].
    all: match type of E with
         | register_artifact _ _ _ _ _ _ _ _ _ _ = _ => apply register_artifact_moves in E
         | prepare_artifact _ _ _ _ _ _ _ _ = _ => apply prepare_artifact_moves in E
         | lease_artifact _ _ _ _ = _ => apply lease_artifact_moves in E
         | advance_artifact _ _ _ _ _ _ = _ => apply advance_artifact_moves in E
         | consume_artifact _ _ _ _ _ _ = _ => apply consume_artifact_moves in E
         | revoke_certificate_artifacts _ _ _ _ = _ => apply revoke_certificate_artifacts_moves in E
         | reconcile_artifacts _ _ _ = _ => apply reconcile_artifacts_moves in E
         end; [|done]; destruct E as (now & Hnow & M); exists now; split; [|done];
         by apply effect_now_clock. }
  - split; [unfold keyed; by rewrite F|by left].
  - split; [by eapply keyed_moved|]. right. exists now. split; [done|]. split; [done|].
    by destruct M as (rows' & S & ->).
Qed.

(** What a history did to one artifact: successful calls that moved it, at their
    times. *)
Inductive artifact_run (id : bytes) : list (Call * result AdapterError Output) ->
  option ArtifactRecord -> option ArtifactRecord -> Prop :=
| arun_nil o : artifact_run id [] o o
| arun_idle x l o o' : artifact_run id l o o' -> artifact_run id (x :: l) o o'
| arun_move call out now l o o1 o' :
    call_clock call = Some now -> rtc (art_step key (call_op call) now id) o o1 ->
    artifact_run id l o1 o' -> artifact_run id ((call, Ok out) :: l) o o'.

Lemma run_calls_artifacts d calls h d' id :
  keyed d -> run_calls key d calls = (h, d') ->
  keyed d' /\ artifact_run id h (artifact d id) (artifact d' id).
Proof.
  revert d h. induction calls as [|call calls IH]; simpl; intros d h K E.
  - injection E as <- <-. split; [done|]. apply arun_nil.
  - destruct (run_call key d call) as [r d1] eqn:E1.
    destruct (run_calls key d1 calls) as [h1 d2] eqn:E2. injection E as <- <-.
    apply run_call_artifacts in E1 as [K1 M]; [|done]. destruct (IH _ _ K1 E2) as [K2 R].
    split; [done|]. destruct M as [M|(now & Hc & Hr & S)].
    + apply arun_idle. unfold artifact in *. by rewrite <- M.
    + destruct r as [out|]; [|done]. eapply arun_move; [exact Hc|apply (S id)|exact R].
Qed.

Lemma run_calls_history d calls h d' : run_calls key d calls = (h, d') -> h.*1 = calls.
Proof.
  revert d h. induction calls as [|call calls IH]; simpl; intros d h E; [by injection E as <- _|].
  destruct (run_call key d call) as [r d1]. destruct (run_calls key d1 calls) as [h1 d2] eqn:E2.
  injection E as <- <-. simpl. f_equal. by eapply IH.
Qed.

(** ** Invariants along a run *)

(** A predicate that every step of a successful call of the history preserves. *)
Lemma artifact_run_invariant (P : option ArtifactRecord -> Prop) id h o o' :
  (forall call out now o1 o2, (call, Ok out) ∈ h -> call_clock call = Some now ->
     art_step key (call_op call) now id o1 o2 -> P o1 -> P o2) ->
  artifact_run id h o o' -> P o -> P o'.
Proof.
  intros S R. induction R as [o|x l o o' R IH|call out now l o o1 o' Hc M R IH]; intros Po; [done| |].
  - apply IH; [|done]. intros call out now o1 o2 Hin. eapply S. by right.
  - apply IH; [intros call' out' now' x y Hin; eapply S; by right|]. clear IH R.
    induction M as [|x y z Sx M IHM]; [done|]. apply IHM. eapply S; [by left|exact Hc|exact Sx|done].
Qed.

(** The record is consumed, with the given content and grant. *)
Definition consumed_as (id0 digest : bytes) (size : Z) (grant : option bytes)
  (o : option ArtifactRecord) : Prop :=
  exists r, o = Some r /\ art_state r = str "consumed" /\ art_certificate_id r = id0 /\
    art_content_sha256 r = digest /\ art_content_size r = size /\ art_active_grant_id r = grant.

Lemma consumed_step op now id a b n g o o' :
  art_step key op now id o o' -> consumed_as a b n g o -> consumed_as a b n g o'.
Proof.
  intros S (r & -> & Hst & Ha & Hb & Hn & Hg). inversion S; subst; unfold in_state in *;
    try (rewrite Hst in *; done).
  exists (sealed key (reconcile_record r now)). split; [done|].
  unfold reconcile_record, is_leased. rewrite Hst, andb_false_r. by simpl.
Qed.

(** C29. An artifact that was consumed stays consumed: in every later history,
    whatever the calls, clocks and storage failures, its record keeps the
    state, the certificate, the content digest and size and the grant it was
    consumed under; neither revocation, expiry, a new lease nor
    reconciliation reopens it. *)
Theorem consumed_artifact_final d calls h d' id certificate digest size grant :
  keyed d -> run_calls key d calls = (h, d') ->
  consumed_as certificate digest size grant (artifact d id) ->
  consumed_as certificate digest size grant (artifact d' id).
Proof.
  intros K E C. destruct (run_calls_artifacts _ _ _ _ id K E) as [_ R].
  eapply artifact_run_invariant; [|exact R|exact C].
  intros call out now o1 o2 _ _. apply consumed_step.
Qed.

Lemma in_state_cases r a b c d0 :
  in_state r [a; b; c; d0] -> art_state r = str a \/ art_state r = str b \/ art_state r = str c \/
    art_state r = str d0.
Proof.
  unfold in_state, one_of. simpl. rewrite !orb_true_iff, !bool_decide_eq_true. intuition done.
Qed.

(** The same artifact under the same lease, of which no less was transferred. *)
Record same_lease (r0 r : ArtifactRecord) : Prop := {
  sl_certificate : art_certificate_id r = art_certificate_id r0;
  sl_digest : art_content_sha256 r = art_content_sha256 r0;
  sl_size : art_content_size r = art_content_size r0;
  sl_expires : art_artifact_expires_at r = art_artifact_expires_at r0;
  sl_grant : art_active_grant_id r = art_active_grant_id r0;
  sl_subject : art_active_subject r = art_active_subject r0;
  sl_until : art_grant_expires_at r = art_grant_expires_at r0;
  sl_offset : art_active_offset r0 <= art_active_offset r }.

(** How the lease of the record [r0] of an artifact stands after a history: it
    is the same lease; the artifact is still leased, or it was consumed by a
    successful call of the very grant and subject that leased it, with the
    digest and size of the content and all of it transferred, or its
    certificate was revoked by a successful call, or a reconciliation took
    place when the artifact itself had expired. *)
Definition lease_kept (id : bytes) (h : list (Call * result AdapterError Output)) (r0 : ArtifactRecord)
  (o : option ArtifactRecord) : Prop :=
  exists r, o = Some r /\ same_lease r0 r /\
    (art_state r = str "leased"
     \/ (art_state r = str "consumed" /\ art_active_offset r = art_content_size r
         /\ exists call out identity, (call, Ok out) ∈ h
              /\ call_op call = OpConsumeArtifact identity (art_content_sha256 r0) (art_content_size r0)
              /\ ali_artifact_id identity = id /\ names_lease identity r0)
     \/ (art_state r = str "revoked"
         /\ exists call out, (call, Ok out) ∈ h /\ call_op call = OpRevokeArtifacts (art_certificate_id r0))
     \/ (art_state r = str "expired"
         /\ exists call out now, (call, Ok out) ∈ h /\ call_op call = OpReconcileArtifacts
              /\ call_clock call = Some now /\ art_artifact_expires_at r0 <= now)).

Lemma same_lease_trans r1 r2 r3 : same_lease r1 r2 -> same_lease r2 r3 -> same_lease r1 r3.
Proof. intros [] []. split; first [congruence|lia]. Qed.

Lemma kept_step h id r0 expires call out now o o' :
  art_grant_expires_at r0 = Some expires -> (call, Ok out) ∈ h -> call_clock call = Some now ->
  now < expires -> art_step key (call_op call) now id o o' -> lease_kept id h r0 o -> lease_kept id h r0 o'.
Proof.
  intros He Hin Hc Hlt S (r & -> & SL & Hst).
  assert (in_state r ["leased"; "consumed"; "revoked"; "expired"]%string) as Hs.
  { unfold in_state. by destruct Hst as [->|[(-> & _)|[(-> & _)|(-> & _)]]]. }
  assert (in_state r ["prepared"]%string -> False) as Nprep.
  { unfold in_state. by destruct (in_state_cases _ _ _ _ _ Hs) as [->|[->|[->| ->]]]. }
  assert (in_state r ["available"; "leased"]%string -> in_state r ["leased"]%string) as Nav.
  { unfold in_state. by destruct (in_state_cases _ _ _ _ _ Hs) as [->|[->|[->| ->]]]. }
  assert (lease_live r now) as Live.
  { exists expires. split; [|done]. by rewrite (sl_until _ _ SL). }
  assert (forall identity, names_lease identity r -> names_lease identity r0) as HN.
  { unfold names_lease. destruct SL. intros identity. by rewrite <- sl_grant0, <- sl_subject0, <- sl_until0. }
  pose proof SL as [S1 S2 S3 S4 S5 S6 S7 S8].
  inversion S as [|r1 dg sz A1 A2|r1 g sb ex A1 A2 A3|r1 identity expected next Eop Eid Nm A1 A2 A3 A4
    |r1 identity Eop Eid Nm A1 A2 A3 A4|r1 Eop A1 A2|r1 Eop A1]; subst; try (exfalso; naive_solver).
  - eexists. split; [done|]. split; [split; simpl; try done; lia|]. left. simpl. by apply in_state_one.
  - eexists. split; [done|]. split; [by split|]. right; left. simpl. split; [done|]. split; [done|].
    exists call, out, identity. rewrite <- S2, <- S3. auto.
  - eexists. split; [done|]. split; [by split|]. right; right; left. split; [done|].
    exists call, out. by rewrite <- S1.
  - eexists. split; [done|]. unfold reconcile_record. destruct (_ && one_of _ _) eqn:G.
    { split; [by split|]. right; right; right. split; [done|]. exists call, out, now.
      apply andb_true_iff in G as [G _]. rewrite <- S4. split_and!; try done. lia. }
    rewrite S7, He. destruct (Z.leb_spec expires now); [lia|]. rewrite andb_false_r.
    split; [by split|]. simpl. exact Hst.
Qed.

(** C28. A lease is exclusive while it lives: in every history in which each
    call reads a clock before the lease's expiry, the artifact stays with the
    grant and the subject that leased it, with the same content, and the
    transferred offset never goes back.  The artifact is still leased, or the
    history holds the successful call that ended the lease: a consumption that
    names that very grant, subject and content after all of it was
    transferred, a revocation of its certificate, or a reconciliation at a
    time when the artifact itself had expired.  No call gives the artifact to
    another grant. *)
Theorem live_lease_exclusive d calls h d' id r0 expires :
  keyed d -> run_calls key d calls = (h, d') ->
  Forall (fun call => forall now, call_clock call = Some now -> now < expires) calls ->
  artifact d id = Some r0 -> art_state r0 = str "leased" -> art_grant_expires_at r0 = Some expires ->
  lease_kept id h r0 (artifact d' id).
Proof.
  intros K E F A0 Hst He. destruct (run_calls_artifacts _ _ _ _ id K E) as [_ R].
  eapply artifact_run_invariant; [|exact R|exists r0; split; [done|]; split; [by split|by left]].
  intros call out now o1 o2 Hin Hc. eapply kept_step; [done|done|done|].
  rewrite Forall_forall in F. eapply F; [|exact Hc].
  rewrite <- (run_calls_history _ _ _ _ E). by apply (list_elem_of_fmap_2 fst _ (call, Ok out)).
Qed.
End Calls.
