(* ===== verification/DesiredTheorems.v ===== *)
(** The desired-effect records of the effect store: one step per change the
    methods make, and the proof that every call moves every record along
    these steps. *)

From stdpp Require Import base list gmap numbers countable strings sorting relations.
From Stdlib Require Import ZArith Lia Bool Strings.Byte.
From S2P Require Import Prelude Bytes Contracts Authorization Sql Executor EffectRecords.
From S2P Require Import EffectStore EffectFacts EffectMachine EffectTheorems ArtifactTheorems.

Local Open Scope Z_scope.

Definition effect_key (r : EffectRecord) : bytes * bytes := (er_mutation_kind r, er_resource_key r).

(** A row is stored under its mutation kind and resource. *)
Definition keyed_effects (d : EffectDb) : Prop :=
  map_Forall (fun k row => effect_key (row_record row) = k) (edb_desired d).

Section Desired.
Context `{Crypto} (key : bytes).

Definition effect_authentic (r : EffectRecord) : Prop := is_ok (validate_effect_record key r) = true.

(** The record in a new state, with its authentication code recomputed. *)
Definition resealed (state : bytes) (r : EffectRecord) : EffectRecord :=
  er_set state (authenticate_record key (er_mutation_kind r) (er_resource_key r) (er_revision r)
    (effect_record_identity r) state (er_before_hmac r) (er_after_hmac r)) r.

(** The command, idempotency key and payload of a record. *)
Definition effect_command (r : EffectRecord) : bytes * bytes * bytes :=
  (er_command_id r, er_idempotency_key r, er_payload_sha256 r).

Inductive des_step (k : bytes * bytes) : option EffectRecord -> option EffectRecord -> Prop :=
| des_prepare o r :
    effect_authentic r -> er_state r = str "prepared" -> effect_key r = k ->
    (forall old, o = Some old -> er_revision old < er_revision r \/
       (er_revision old = er_revision r /\ er_state old <> str "applied" /\
        effect_command old = effect_command r)) ->
    des_step k o (Some r)
| des_mark r state :
    effect_authentic r -> state = str "applied" \/ state = str "absent" ->
    des_step k (Some r) (Some (resealed state r)).

Definition desired_step (rows rows' : gmap (bytes * bytes) (Row EffectRecord)) : Prop :=
  forall k, rtc (des_step k) (row_record <$> rows !! k) (row_record <$> rows' !! k) /\
    (rows' !! k = rows !! k \/
     exists row, rows' !! k = Some row /\ desired_check (row_record row) = true).

#[export] Instance desired_step_preorder : PreOrder desired_step.
Proof.
  split; [intros rows k; split; [reflexivity|by left]|]. intros r1 r2 r3 A B k.
  destruct (A k) as [A1 A2], (B k) as [B1 B2]. split; [by etransitivity|].
  destruct B2 as [->|B2]; [done|by right].
Qed.

Lemma desired_step_insert rows k r u :
  des_step k (row_record <$> rows !! k) (Some r) -> desired_check r = true ->
  desired_step rows (<[k := mkRow r u]> rows).
Proof.
  intros S C k'. destruct (decide (k' = k)) as [->|N].
  - rewrite lookup_insert_eq. split; [by apply rtc_once|]. right. by eexists.
  - rewrite lookup_insert_ne by done. split; [done|by left].
Qed.

Definition desired_moved (d d' : EffectDb) : Prop :=
  exists rows', desired_step (edb_desired d) rows' /\ d' = tbl_with desired_effects rows' d.

Lemma desired_unmoved d : desired_moved d d.
Proof.
  exists (edb_desired d). split; [done|]. symmetry. apply (tbl_with_rows (T := desired_effects)).
Qed.

Lemma desired_moved_trans d1 d2 d3 :
  desired_moved d1 d2 -> desired_moved d2 d3 -> desired_moved d1 d3.
Proof. intros (r1 & S1 & ->) (r2 & S2 & ->). exists r2. split; [|done]. by etransitivity. Qed.

Lemma des_step_key k o o' :
  des_step k o o' -> (forall r, o = Some r -> effect_key r = k) ->
  forall r, o' = Some r -> effect_key r = k.
Proof. intros S K r E. destruct S; injection E as <-; [done|]. exact (K r0 eq_refl). Qed.

Lemma keyed_effects_moved d d' : keyed_effects d -> desired_moved d d' -> keyed_effects d'.
Proof.
  intros K (rows' & S & ->) k row L. simpl in L. destruct (S k) as [Sk _]. rewrite L in Sk.
  simpl in Sk. cut (forall r, Some (row_record row) = Some r -> effect_key r = k).
  { intros X. by apply X. }
  revert Sk. generalize (Some (row_record row)). intros o' Sk.
  assert (forall r, row_record <$> edb_desired d !! k = Some r -> effect_key r = k) as Kd.
  { intros r (row0 & L0 & ->)%fmap_Some. by apply (K k). }
  revert Kd. induction Sk as [o|o o1 o2 S1 S2 IH]; [done|]. intros Ko. apply IH.
  by eapply des_step_key.
Qed.

Lemma resealed_authentic state r : effect_authentic (resealed state r).
Proof.
  unfold effect_authentic, validate_effect_record. rewrite bool_decide_false; [done|].
  intros N. by apply N.
Qed.

Lemma update_effect_state_moves record state now c u c' row :
  edb_desired (conn_db c) !! effect_key record = Some row -> row_record row = record ->
  effect_authentic record -> state = str "applied" \/ state = str "absent" ->
  update_effect_state key record state now c = (Ok u, c') ->
  exists row', row_record row' = resealed state record /\ desired_check (row_record row') = true /\
    conn_db c' = tbl_with desired_effects (<[effect_key record := row']> (edb_desired (conn_db c)))
                   (conn_db c).
Proof.
  intros L Hr A Hs. unfold update_effect_state. intros E.
  apply bind_ok in E as (z & c1 & [_ ->]%lift_ok & E). apply checked_update in E.
  apply update_row_ok in E as [[_ (x & Hrow & _ & Hchk & Hnew)]|[[=] _]].
  fold (effect_key record) in Hrow, Hnew. simpl in Hrow. rewrite L in Hrow. injection Hrow as <-.
  rewrite Hr in Hnew, Hchk. by eexists (mkRow _ _).
Qed.

Lemma update_effect_state_moved record state now c u c' row :
  edb_desired (conn_db c) !! effect_key record = Some row -> row_record row = record ->
  effect_authentic record -> state = str "applied" \/ state = str "absent" ->
  update_effect_state key record state now c = (Ok u, c') ->
  desired_moved (conn_db c) (conn_db c').
Proof.
  intros L Hr A Hs E. eapply update_effect_state_moves in E as ([r' u'] & Er & C & ->); try done.
  simpl in *. subst r'. eexists. split; [|done]. apply desired_step_insert; [|done].
  rewrite L. simpl. rewrite Hr. by apply des_mark.
Qed.

(** ** The pending effects of a file *)

Lemma query_prepared_ok b c l c' :
  keyed_effects (conn_db c) -> query_prepared_effects b c = (Ok l, c') ->
  conn_db c' = conn_db c /\ NoDup (effect_key <$> l) /\
  Forall (fun r => exists row, edb_desired (conn_db c) !! effect_key r = Some row /\
                               row_record row = r) l.
Proof.
  intros K. unfold query_prepared_effects. intros [E D]%sql_ok%query_ok. split; [done|].
  set (rows := List.filter _ _) in E.
  assert (l = merge_sort effect_le rows) as ->.
  { revert E. generalize (merge_sort effect_le rows). intros m. revert l.
    induction m as [|r m IH]; simpl; intros l E; [by injection E|].
    destruct (fold_right _ _ m) as [rest|] eqn:F; [|done].
    destruct (decode_effect _ r) as [r'|] eqn:Er; [|done]. injection E as <-.
    apply decode_effect_same in Er as [-> _]. f_equal. by apply IH. }
  assert (effect_key <$> (row_record <$> (map_to_list (edb_desired (conn_db c))).*2)
          = (map_to_list (edb_desired (conn_db c))).*1) as Hkeys.
  { rewrite <- !list_fmap_compose. apply list_fmap_ext. intros i [k row] L. simpl.
    apply (K k). apply elem_of_map_to_list. by eapply list_elem_of_lookup_2. }
  split.
  - rewrite merge_sort_Permutation. subst rows.
    pose proof (NoDup_fst_map_to_list (edb_desired (conn_db c))) as ND. rewrite <- Hkeys in ND.
    revert ND. generalize (row_record <$> (map_to_list (edb_desired (conn_db c))).*2). intros m.
    induction m as [|r m IH]; simpl; [done|]. intros [Hni ND]%NoDup_cons.
    destruct (_ && _); [|by apply IH]. simpl. apply NoDup_cons. split; [|by apply IH].
    intros (r0 & Er0 & Hin)%list_elem_of_fmap. apply Hni. apply list_elem_of_fmap. exists r0.
    split; [done|]. apply list_elem_of_In, filter_In in Hin as [Hin _]. by apply list_elem_of_In.
  - rewrite merge_sort_Permutation. apply Forall_forall. intros r Hin.
    apply list_elem_of_In, filter_In in Hin as [Hin _]. apply list_elem_of_In in Hin.
    apply list_elem_of_fmap in Hin as (row & -> & Hin).
    apply list_elem_of_fmap in Hin as ([k row'] & -> & Hin). simpl in *.
    apply elem_of_map_to_list in Hin. exists row'. split; [|done]. by rewrite (K k _ Hin).
Qed.

(** Rows of the listed records, unchanged by an update of another key. *)
Definition listed (d : EffectDb) (l : list EffectRecord) : Prop :=
  Forall (fun r => exists row, edb_desired d !! effect_key r = Some row /\ row_record row = r) l.

Lemma listed_insert d k row l :
  listed d l -> k ∉ effect_key <$> l ->
  listed (tbl_with desired_effects (<[k := row]> (edb_desired d)) d) l.
Proof.
  unfold listed. rewrite !Forall_forall. intros F N r Hin. destruct (F r Hin) as (row0 & L & E).
  exists row0. split; [|done]. simpl. rewrite lookup_insert_ne; [done|].
  intros ->. apply N, list_elem_of_fmap. by exists r.
Qed.

Lemma settle_prepared_moves l kind rkey revision identity h now c u c' :
  listed (conn_db c) l -> NoDup (effect_key <$> l) ->
  settle_prepared key l kind rkey revision identity h now c = (Ok u, c') ->
  desired_moved (conn_db c) (conn_db c').
Proof.
  revert c. induction l as [|r l IH]; intros c F ND E; simpl in E.
  - apply ret_ok in E as [_ ->]. apply desired_unmoved.
  - inversion F as [|? ? (row & L & Hr) F']; subst. apply NoDup_cons in ND as [Hni ND].
    apply bind_ok in E as ([] & c1 & [Hval ->]%lift_ok & E).
    assert (effect_authentic (row_record row)) as A by (unfold effect_authentic; by rewrite Hval).
    apply bind_ok in E as (u1 & c2 & G & E).
    assert (desired_moved (conn_db c) (conn_db c2) /\ listed (conn_db c2) l) as [M F2].
    { case_bool_decide as Heq.
      - destruct (negb _); [|by apply ret_ok in G as [_ ->]; split; [apply desired_unmoved|]].
        split; [by eapply update_effect_state_moved; [exact L|done|done|by left|exact G]|].
        eapply update_effect_state_moves in G as (row' & _ & _ & ->); [|done..|by left].
        by apply listed_insert.
      - destruct (_ || _); [discriminate G|]. apply ret_ok in G as [_ ->].
        split; [apply desired_unmoved|done]. }
    eapply desired_moved_trans; [exact M|]. by apply (IH c2).
Qed.

(** ** Methods *)

Context `{Platform}.

Lemma record_prepared_moves kind rkey revision v before after now c p c' :
  (forall old, row_record <$> edb_desired (conn_db c) !! (kind, rkey) = Some old ->
     er_revision old < revision \/
     (er_revision old = revision /\ er_state old <> str "applied" /\
      effect_command old = (vei_command_id v, vei_idempotency_key v, vei_payload_sha256 v))) ->
  record_prepared key kind rkey revision v before after now c = (Ok p, c') ->
  desired_moved (conn_db c) (conn_db c').
Proof.
  intros O E. unfold record_prepared in E.
  apply bind_ok in E as (z & c1 & [_ ->]%lift_ok & E).
  apply bind_ok in E as (u & c2 & E%sql_ok & [_ ->]%ret_ok).
  apply upsert_row_ok in E as [C ->]. eexists. split; [|done].
  apply desired_step_insert; [|done]. apply des_prepare; [|done|done|exact O].
  unfold effect_authentic, validate_effect_record. rewrite bool_decide_false; [done|].
  intros N. by apply N.
Qed.

Lemma same_effect_command r v :
  is_ok (validate_same_effect r v) = true ->
  effect_command r = (vei_command_id v, vei_idempotency_key v, vei_payload_sha256 v).
Proof.
  unfold validate_same_effect, effect_command. destruct (_ || _) eqn:G; [done|]. intros _.
  apply orb_false_iff in G as [G G3]. apply orb_false_iff in G as [G1 G2].
  apply bool_decide_eq_false, dec_stable in G1 as ->, G2 as ->, G3 as ->. done.
Qed.

(** Reading the record of a kind and a resource. *)
Lemma read_effect kind rkey c o c' :
  keyed_effects (conn_db c) -> query_effect kind rkey c = (Ok o, c') ->
  conn_db c' = conn_db c /\ o = row_record <$> edb_desired (conn_db c) !! (kind, rkey) /\
  (forall r, o = Some r -> effect_key r = (kind, rkey) /\
     one_of (er_state r) ["prepared"; "applied"; "absent"]%string = true /\
     exists row, edb_desired (conn_db c) !! effect_key r = Some row /\ row_record row = r).
Proof.
  intros K E. apply query_effect_ok in E as (D & -> & S). split_and!; [done..|].
  intros r Er. split; [|split; [by apply S|]]; apply fmap_Some in Er as (row & L & ->).
  - by apply (K _ _ L).
  - exists row. by rewrite (K _ _ L).
Qed.

(** Every method on desired effects moves them. *)
Definition moves_effects {A} (m : Eff A) : Prop :=
  forall c a c', keyed_effects (conn_db c) -> m c = (Ok a, c') ->
  desired_moved (conn_db c) (conn_db c').

Lemma mark_state_moves state clock kind rkey revision id :
  state = str "applied" \/ state = str "absent" ->
  moves_effects (mark_state key state clock kind rkey revision id).
Proof.
  intros Hs c a c' K E. unfold mark_state in E.
  apply bind_ok in E as (now & c1 & [_ ->]%lift_ok & E).
  apply bind_ok in E as (v & c1 & [_ ->]%lift_ok & E).
  apply transaction_commit in E as (faults & c2 & E & ->).
  apply bind_ok in E as (o & c3 & (D & _ & R)%read_effect & E); [|done]. simpl in D, R.
  apply bind_ok in E as (r & c4 & [Ho ->]%lift_ok & E). destruct o as [r0|]; [|done].
  injection Ho as ->. destruct (R r eq_refl) as (_ & _ & row & L & Hr).
  apply bind_ok in E as ([] & c4 & [Hval ->]%lift_ok & E).
  apply bind_ok in E as ([] & c4 & [_ ->]%lift_ok & E).
  rewrite <- D. eapply update_effect_state_moved; [by rewrite D|exact Hr| |exact Hs|exact E].
  unfold effect_authentic. by rewrite Hval.
Qed.

Lemma prepare_moves clock kind rkey revision id before after :
  moves_effects (prepare key clock kind rkey revision id before after).
Proof.
  intros c a c' K E. unfold prepare in E.
  apply bind_ok in E as (now & c1 & [_ ->]%lift_ok & E).
  apply bind_ok in E as (v & c1 & [_ ->]%lift_ok & E).
  apply transaction_commit in E as (faults & c2 & E & ->).
  apply bind_ok in E as (l & c3 & (D & ND & F)%query_prepared_ok & E); [|done]. simpl in D, F.
  apply bind_ok in E as (u & c4 & M & E).
  apply settle_prepared_moves in M; [|by unfold listed; rewrite D|done]. rewrite D in M.
  assert (keyed_effects (conn_db c4)) as K4 by (by eapply keyed_effects_moved).
  apply bind_ok in E as (o & c5 & (D5 & Ho & R)%read_effect & E); [|done].
  eapply desired_moved_trans; [exact M|]. rewrite <- D5. destruct o as [r|].
  - destruct (R r eq_refl) as (_ & _ & row & L & Hr).
    apply bind_ok in E as ([] & c6 & [Hval ->]%lift_ok & E).
    assert (effect_authentic r) as A by (unfold effect_authentic; by rewrite Hval).
    destruct (Z.ltb_spec revision (er_revision r)) as [|Hle]; [discriminate E|].
    destruct (Z.eqb_spec (er_revision r) revision) as [Heq|Hne].
    + apply bind_ok in E as ([] & c6 & [Hsame ->]%lift_ok & E).
      assert (is_ok (validate_same_effect r v) = true) as Hcmd%same_effect_command by (by rewrite Hsame).
      case_bool_decide as Happ; [apply ret_ok in E as [_ ->]; apply desired_unmoved|].
      case_bool_decide as Haft.
      * destruct (is_config kind); [apply ret_ok in E as [_ ->]; apply desired_unmoved|].
        apply bind_ok in E as (? & ? & E & [_ ->]%ret_ok).
        eapply update_effect_state_moved; [by rewrite D5|exact Hr|done|by left|exact E].
      * case_bool_decide as Hbef; [discriminate E|].
        eapply record_prepared_moves; [|exact E]. intros old. rewrite D5, <- Ho.
        intros [= <-]. right. auto.
    + eapply record_prepared_moves; [|exact E]. intros old. rewrite D5, <- Ho.
      intros [= <-]. left. lia.
  - apply bind_ok in E as (n & c6 & [_ D6]%sql_ok%query_ok & E).
    destruct (_ <=? _); [discriminate E|]. rewrite <- D6.
    eapply record_prepared_moves; [|exact E]. intros old. by rewrite D6, D5, <- Ho.
Qed.

Lemma observe_moves clock kind rkey revision id current :
  moves_effects (observe key clock kind rkey revision id current).
Proof.
  intros c a c' K E. unfold observe in E.
  apply bind_ok in E as (now & c1 & [_ ->]%lift_ok & E).
  apply bind_ok in E as (v & c1 & [_ ->]%lift_ok & E).
  apply transaction_commit in E as (faults & c2 & E & ->).
  apply bind_ok in E as (o & c3 & (D & _ & R)%read_effect & E); [|done]. simpl in D, R.
  destruct o as [r|]; [|apply ret_ok in E as [_ ->]; rewrite D; apply desired_unmoved].
  destruct (R r eq_refl) as (_ & _ & row & L & Hr).
  apply bind_ok in E as ([] & c4 & [Hval ->]%lift_ok & E).
  assert (effect_authentic r) as A by (unfold effect_authentic; by rewrite Hval).
  rewrite <- D in L |- *.
  do 5 (match type of E with (if ?b then _ else _) _ = _ => destruct b end;
    [apply ret_ok in E as [_ ->]; apply desired_unmoved|]).
  apply bind_ok in E as (st & c5 & E & [_ ->]%ret_ok).
  repeat match type of E with (if ?b then _ else _) _ = _ => destruct b end;
    try (apply ret_ok in E as [_ ->]; apply desired_unmoved);
    apply bind_ok in E as (? & ? & E & [_ ->]%ret_ok);
    (eapply update_effect_state_moved; [exact L|exact Hr|done| |exact E]); auto.
Qed.
End Desired.

(** What the desired-effect records guarantee, and the well-formedness of the
    whole effect store: revisions never go back and a revision belongs to one
    command; an observation is what the record and the authoritative file
    prove; every row the store ever writes is keyed, constrained and
    authenticated. *)

Definition desired (d : EffectDb) (k : bytes * bytes) : option EffectRecord :=
  row_record <$> edb_desired d !! k.

(** The identifiers of the authorized effects, and the uniqueness of their
    idempotency keys. *)
Definition keyed_authorized (d : EffectDb) : Prop :=
  map_Forall (fun k row => aer_command_id (row_record row) = k) (edb_authorized d) /\
  forall k1 k2 row1 row2, edb_authorized d !! k1 = Some row1 -> edb_authorized d !! k2 = Some row2 ->
    aer_idempotency_key (row_record row1) = aer_idempotency_key (row_record row2) -> k1 = k2.

Section Store.
Context `{Crypto} `{Platform} (key : bytes).

(** Every row is stored under its own key, satisfies the constraints of its
    table and authenticates under the store's key. *)
Record store_wf (d : EffectDb) : Prop := {
  wf_authorized : keyed_authorized d;
  wf_authorized_rows : map_Forall (fun _ row => authorized_check (row_record row) = true /\
    is_ok (validate_authorized_record key (row_record row)) = true) (edb_authorized d);
  wf_desired : keyed_effects d;
  wf_desired_rows : map_Forall (fun _ row => desired_check (row_record row) = true /\
    effect_authentic key (row_record row)) (edb_desired d);
  wf_artifacts : keyed d;
  wf_artifact_rows : map_Forall (fun _ row => artifact_check (row_record row) = true /\
    authentic key (row_record row)) (edb_artifacts d) }.

(** ** Operations on the other tables *)

Lemma revoke_each_desired l now : evolves (keeps edb_desired) (revoke_each key l now).
Proof. induction l; simpl; frame; done. Qed.

Lemma reconcile_each_desired l now : evolves (keeps edb_desired) (reconcile_each key l now).
Proof. induction l; simpl; frame; done. Qed.

Lemma prune_each_desired l now : evolves (keeps edb_desired) (prune_each key l now).
Proof. induction l; simpl; frame; done. Qed.

Lemma run_op_desired op clock :
  match op with
  | OpPrepare _ _ _ _ _ _ | OpMarkApplied _ _ _ _ | OpMarkAbsent _ _ _ _ | OpObserve _ _ _ _ _ => True
  | _ => evolves (keeps edb_desired) (run_op key op clock)
  end.
Proof.
  destruct op; try done; simpl; unfold returning;
    apply evolves_bind; try apply _; try (intros ?; apply evolves_ret; apply _).
  - unfold prepare_authorized, idempotency_owner, prune_expired_authorized_effects. frame.
    apply prune_each_desired.
  - unfold complete_authorized. frame.
  - unfold replay_authorized. frame.
  - unfold register_artifact. frame.
  - unfold prepare_artifact. frame.
  - unfold artifact_is_registered. frame.
  - unfold lease_artifact. frame.
  - unfold advance_artifact. frame.
  - unfold consume_artifact. frame.
  - unfold confirm_artifact_consumed. frame.
  - unfold revoke_certificate_artifacts. frame. apply revoke_each_desired.
  - unfold reconcile_artifacts. frame. apply reconcile_each_desired.
  - unfold tracked_artifact_ids. frame.
Qed.

Lemma run_call_desired d call r d' :
  keyed_effects d -> run_call key d call = (r, d') ->
  keyed_effects d' /\ desired_step key (edb_desired d) (edb_desired d').
Proof.
  intros K (c' & E & <-)%run_call_eq.
  assert (keeps edb_desired d (conn_db c') \/ desired_moved key d (conn_db c')) as [F|M].
  { destruct r as [out|e]; [|left; unfold keeps; by rewrite (run_op_atomic _ _ _ _ _ _ E)].
    pose proof (run_op_desired (call_op call) (call_clock call)) as F.
    destruct (call_op call); simpl in E, F;
      try (left; specialize (F (mkConn d (call_faults call))); by rewrite E in F);
      right; apply returning_ok in E as [(a & E & _)|(e & _ & [=])].
    - by apply prepare_moves in E.
    - apply mark_state_moves in E; [done|by left|done].
    - apply mark_state_moves in E; [done|by right|done].
    - by apply observe_moves in E. }
  - split; [unfold keyed_effects; by rewrite F|]. by rewrite F.
  - split; [by eapply keyed_effects_moved|]. by destruct M as (rows' & S & ->).
Qed.

Lemma run_calls_desired d calls h d' :
  keyed_effects d -> run_calls key d calls = (h, d') ->
  keyed_effects d' /\ desired_step key (edb_desired d) (edb_desired d').
Proof.
  revert d h. induction calls as [|call calls IH]; simpl; intros d h K E.
  - injection E as <- <-. by split.
  - destruct (run_call key d call) as [r d1] eqn:E1.
    destruct (run_calls key d1 calls) as [h1 d2] eqn:E2. injection E as <- <-.
    apply run_call_desired in E1 as [K1 S1]; [|done]. destruct (IH _ _ K1 E2) as [K2 S2].
    split; [done|]. by etransitivity.
Qed.

(** ** Revisions *)

(** At least the revision of [r], and at that revision the same command. *)
Definition not_older (r : EffectRecord) (o : option EffectRecord) : Prop :=
  exists r', o = Some r' /\ er_revision r <= er_revision r' /\
    (er_revision r' = er_revision r -> effect_command r' = effect_command r).

Lemma not_older_step k r o o' : des_step key k o o' -> not_older r o -> not_older r o'.
Proof.
  intros S (r0 & -> & Hle & Hcmd). inversion S; subst.
  - exists r1. split; [done|]. destruct (H4 r0 eq_refl) as [Hlt|(Heq & _ & Hc)].
    + split; [lia|]. lia.
    + split; [lia|]. intros E. rewrite <- Hc. apply Hcmd. lia.
  - exists (resealed key state r0). by split.
Qed.

(** C31. The revision recorded in the effect store for a kind of mutation of a
    resource never goes back, and a revision belongs to one command: in every
    history, whatever the calls and the storage failures, once a mutation of a
    kind is recorded for a resource key at a revision, that kind and key have a
    record ever after, at that revision or a later one, and as long as the
    revision is the same so are the command, the idempotency key and the
    payload.  Records of different kinds for one resource key, such as enabling
    and disabling a user, are kept and compared apart in this table; it is the
    Agent's journal that orders them by one revision of the resource. *)
Theorem desired_revision_monotone d calls h d' kind resource_key r :
  keyed_effects d -> run_calls key d calls = (h, d') ->
  desired d (kind, resource_key) = Some r -> not_older r (desired d' (kind, resource_key)).
Proof.
  intros K E L. destruct (run_calls_desired _ _ _ _ K E) as [_ S].
  destruct (S (kind, resource_key)) as [Sk _].
  fold (desired d (kind, resource_key)) (desired d' (kind, resource_key)) in Sk. rewrite L in Sk.
  assert (not_older r (Some r)) as N by (exists r; split_and!; [done|lia|done]).
  clear L. revert N. induction Sk as [|x y z Sx _ IH]; [done|]. intros N. apply IH.
  by eapply not_older_step.
Qed.

(** ** Observations *)

(** The stored record of this revision and this command. *)
Definition recorded (d : EffectDb) (kind rkey : bytes) (revision : Z) (id : EffectIdentity)
  (state : String.string) : Prop :=
  exists r, desired d (kind, rkey) = Some r /\ er_revision r = revision /\ er_state r = str state /\
    effect_command r = (ei_command_id id, ei_idempotency_key id, ei_semantic_payload_sha256 id).

(** The file carries what the record says it carried before, or after, the
    effect. *)
Definition file_is_before (d : EffectDb) (kind rkey current : bytes) : Prop :=
  exists r, desired d (kind, rkey) = Some r /\ authenticate_file key current = er_before_hmac r.
Definition file_is_after (d : EffectDb) (kind rkey current : bytes) : Prop :=
  exists r, desired d (kind, rkey) = Some r /\ authenticate_file key current = er_after_hmac r.

Lemma validate_effect_context_ok kind rkey revision id now v :
  validate_effect_context kind rkey revision id now = Ok v ->
  (vei_command_id v, vei_idempotency_key v, vei_payload_sha256 v) =
  (ei_command_id id, ei_idempotency_key id, ei_semantic_payload_sha256 id).
Proof.
  unfold validate_effect_context. intros E. invert_ok E. subst. simpl.
  repeat match goal with E : fixed_request _ _ = Ok _ |- _ => apply fixed_request_same in E as [-> _] end.
  done.
Qed.

(** What an observation promises, as a relation between the databases. *)
Definition observed_as (d d' : EffectDb) (kind rkey : bytes) (revision : Z) (id : EffectIdentity)
  (current : bytes) (o : DesiredEffectObservation) : Prop :=
  match deo_state o with
  | StateAppliedExact =>
      deo_observed_revision o = revision /\ recorded d' kind rkey revision id "applied" /\
      (recorded d kind rkey revision id "applied" \/
       (recorded d kind rkey revision id "prepared" /\ file_is_after d kind rkey current))
  | StateSupersededByNewerRevision =>
      exists r, desired d' (kind, rkey) = Some r /\ revision < er_revision r /\
        deo_observed_revision o = er_revision r
  | StateAbsent =>
      deo_observed_revision o = revision /\
      (recorded d' kind rkey revision id "absent" \/
       (recorded d' kind rkey revision id "prepared" /\
        (file_is_before d kind rkey current \/
         (is_config kind = true /\ file_is_after d kind rkey current))))
  | StateUnknown => d' = d
  | StateUnspecified => False
  end.

Lemma update_recorded r st now c u c' kind rkey revision id s :
  (exists row, edb_desired (conn_db c) !! effect_key r = Some row /\ row_record row = r) ->
  effect_authentic key r -> effect_key r = (kind, rkey) -> er_revision r = revision ->
  effect_command r = (ei_command_id id, ei_idempotency_key id, ei_semantic_payload_sha256 id) ->
  st = str s -> st = str "applied" \/ st = str "absent" ->
  update_effect_state key r st now c = (Ok u, c') ->
  recorded (conn_db c') kind rkey revision id s.
Proof.
  intros (row & L & Hr) A Hkey Hrev Hcmd -> Hs U.
  eapply update_effect_state_moves in U as (row' & Er & _ & ->); [|done..].
  exists (resealed key (str s) r). unfold desired. simpl. rewrite Hkey, lookup_insert_eq. simpl.
  rewrite Er. by split_and!.
Qed.

(** The record is prepared: the file decides. *)
Definition settle_pending (kind current : bytes) (r : EffectRecord) (now : Z) : Eff DesiredEffectState :=
  (let current_hmac := authenticate_file key current in
   if bool_decide (current_hmac = er_after_hmac r) && is_config kind then ret StateAbsent
   else if bool_decide (current_hmac = er_after_hmac r)
   then update_effect_state key r (str "applied") now ;;; ret StateAppliedExact
   else if bool_decide (current_hmac = er_before_hmac r) && is_config kind
   then update_effect_state key r (str "absent") now ;;; ret StateAbsent
   else if bool_decide (current_hmac = er_before_hmac r) then ret StateAbsent
   else ret StateUnknown)%sql.

Lemma settle_pending_sound kind rkey revision id current r now c st c' :
  (exists row, edb_desired (conn_db c) !! effect_key r = Some row /\ row_record row = r) ->
  effect_authentic key r -> effect_key r = (kind, rkey) -> er_revision r = revision ->
  effect_command r = (ei_command_id id, ei_idempotency_key id, ei_semantic_payload_sha256 id) ->
  er_state r = str "prepared" -> desired (conn_db c) (kind, rkey) = Some r ->
  settle_pending kind current r now c = (Ok st, c') ->
  observed_as (conn_db c) (conn_db c') kind rkey revision id current (effect_observation st revision).
Proof.
  intros Hrow A Hkey Hrev Hcmd Hst Hd E. unfold settle_pending in E. cbv zeta in E.
  assert (recorded (conn_db c) kind rkey revision id "prepared") as Rec by (by exists r).
  destruct (bool_decide (authenticate_file key current = er_after_hmac r)) eqn:Haft; simpl in E;
    [apply bool_decide_eq_true in Haft|].
  - assert (file_is_after (conn_db c) kind rkey current) by (by exists r).
    destruct (is_config kind) eqn:Hcfg; [apply ret_ok in E as [-> ->]; unfold observed_as; simpl; auto 6|].
    apply bind_ok in E as (u & c6 & E & [-> ->]%ret_ok). split; [done|]. split; [|auto].
    eapply update_recorded; [exact Hrow|done..|by left|exact E].
  - destruct (bool_decide (authenticate_file key current = er_before_hmac r)) eqn:Hbef; simpl in E;
      [apply bool_decide_eq_true in Hbef|by apply ret_ok in E as [-> ->]].
    assert (file_is_before (conn_db c) kind rkey current) by (by exists r).
    destruct (is_config kind) eqn:Hcfg; [|apply ret_ok in E as [-> ->]; unfold observed_as; simpl; auto 6].
    apply bind_ok in E as (u & c6 & E & [-> ->]%ret_ok). split; [done|]. left.
    eapply update_recorded; [exact Hrow|done..|by right|exact E].
Qed.

(** An observation says what the record and the authoritative file prove.
    [AppliedExact]: the record of this revision and command is applied after
    the call, and it was before or the file is the one the effect produces.
    [SupersededByNewerRevision]: a later revision is recorded, and it is the
    one reported.  [Absent]: the record of this revision and command is not
    applied, and it was marked absent, or the file is still the one before the
    effect, or a configuration was written and not yet confirmed.  The answer
    changes nothing else: an error changes nothing at all. *)
Theorem observation_sound clock kind rkey revision id current c o c' :
  keyed_effects (conn_db c) ->
  observe key clock kind rkey revision id current c = (Ok o, c') ->
  observed_as (conn_db c) (conn_db c') kind rkey revision id current o.
Proof.
  intros K E. unfold observe in E.
  apply bind_ok in E as (now & c1 & [_ ->]%lift_ok & E).
  apply bind_ok in E as (v & c1 & [Hv%validate_effect_context_ok ->]%lift_ok & E).
  apply transaction_commit in E as (faults & c2 & E & ->).
  apply bind_ok in E as (r0 & c3 & (D & Hd & R)%read_effect & E); [|done]. simpl in D, R, Hd.
  destruct r0 as [r|]; [|by apply ret_ok in E as [-> ->]].
  destruct (R r eq_refl) as (Hkey & Hst & Hrow).
  apply bind_ok in E as ([] & c4 & [Hval ->]%lift_ok & E).
  assert (effect_authentic key r) as A by (unfold effect_authentic; by rewrite Hval).
  fold (desired (conn_db c) (kind, rkey)) in Hd. symmetry in Hd. rewrite <- D in Hd, Hrow |- *.
  destruct (Z.ltb_spec revision (er_revision r)) as [Hgt|Hle].
  { apply ret_ok in E as [-> ->]. unfold observed_as; simpl. eauto. }
  destruct (Z.ltb_spec (er_revision r) revision) as [Hlt|Hge]; [by apply ret_ok in E as [-> ->]|].
  assert (er_revision r = revision) as Hrev by lia.
  destruct (is_ok (validate_same_effect r v)) eqn:Hsame; simpl in E;
    [|by apply ret_ok in E as [-> ->]].
  apply same_effect_command in Hsame. rewrite Hv in Hsame.
  destruct (bool_decide (er_state r = str "applied")) eqn:Happ;
    [apply bool_decide_eq_true in Happ|apply bool_decide_eq_false in Happ].
  { apply ret_ok in E as [-> ->]. split; [done|]. by split; [|left]; exists r. }
  destruct (bool_decide (er_state r = str "absent")) eqn:Habs;
    [apply bool_decide_eq_true in Habs|apply bool_decide_eq_false in Habs].
  { apply ret_ok in E as [-> ->]. split; [done|]. left. by exists r. }
  apply bind_ok in E as (st & c5 & E & [-> ->]%ret_ok).
  eapply settle_pending_sound; try done.
  unfold one_of in Hst. simpl in Hst. rewrite !orb_true_iff, !bool_decide_eq_true in Hst. naive_solver.
Qed.

(** ** Well-formedness *)

Lemma pruned_lookup now rows rows' k row :
  pruned now rows rows' -> rows' !! k = Some row -> rows !! k = Some row.
Proof. intros P L. destruct (P k) as [<-|[N _]]; [done|]. by rewrite N in L. Qed.

Definition authorized_wf (rows : gmap bytes (Row AuthorizedEffectRecord)) : Prop :=
  (map_Forall (fun k row => aer_command_id (row_record row) = k) rows /\
   forall k1 k2 row1 row2, rows !! k1 = Some row1 -> rows !! k2 = Some row2 ->
     aer_idempotency_key (row_record row1) = aer_idempotency_key (row_record row2) -> k1 = k2) /\
  map_Forall (fun _ row => authorized_check (row_record row) = true /\
    is_ok (validate_authorized_record key (row_record row)) = true) rows.

Lemma pruned_wf now rows rows' : pruned now rows rows' -> authorized_wf rows -> authorized_wf rows'.
Proof.
  intros P [[K U] G]. split; [split|].
  - intros k row L%(pruned_lookup _ _ _ _ _ P). by apply K.
  - intros k1 k2 r1 r2 L1%(pruned_lookup _ _ _ _ _ P) L2%(pruned_lookup _ _ _ _ _ P).
    by apply U.
  - intros k row L%(pruned_lookup _ _ _ _ _ P). by apply (G k).
Qed.

Lemma unique_other rows r k row :
  idempotency_unique rows r = true -> rows !! k = Some row -> k <> aer_command_id r ->
  aer_idempotency_key (row_record row) <> aer_idempotency_key r.
Proof.
  unfold idempotency_unique. intros F L N. rewrite forallb_forall in F.
  specialize (F (k, row) ltac:(apply list_elem_of_In, elem_of_map_to_list; done)). simpl in F.
  apply orb_true_iff in F as [F|F]; apply bool_decide_eq_true in F; done.
Qed.

Lemma insert_wf rows k r now :
  authorized_wf rows -> good_row key rows r -> aer_command_id r = k ->
  authorized_wf (<[k := mkRow r now]> rows).
Proof.
  intros [[K U] G] [[C Q]%andb_true_iff V] <-. split; [split|].
  - apply map_Forall_insert_2; done.
  - intros k1 k2 r1 r2. rewrite !lookup_insert_Some.
    intros [[<- <-]|[N1 L1]] [[<- <-]|[N2 L2]]; simpl; try done; intros E.
    + exfalso. by eapply (unique_other rows r k2).
    + exfalso. by eapply (unique_other rows r k1).
    + by eapply U.
  - apply map_Forall_insert_2; done.
Qed.

Lemma run_call_authorized d call r d' :
  run_call key d call = (r, d') -> authorized_wf (edb_authorized d) -> authorized_wf (edb_authorized d').
Proof.
  intros (c' & E & <-)%run_call_eq W.
  destruct r as [out|e]; [|by rewrite (run_op_atomic _ _ _ _ _ _ E)].
  pose proof (run_op_frame key (call_op call) (call_clock call)) as F.
  destruct (call_op call) as [id|id resp|id| | | | | | | | | | | | | |]; simpl in E, F;
    try (specialize (F (mkConn d (call_faults call))); rewrite E in F; unfold keeps in F;
         simpl in F; by rewrite F);
    apply returning_ok in E as [(a & E & _)|(e & _ & [=])].
  - apply prepare_authorized_ok in E as (now & v & _ & Hv & E). simpl in E.
    destruct (validate_authorized_effect_ok _ _ _ Hv) as (Hid & _).
    destruct E as [(row & L & _ & _ & E)|(L & _ & rows' & P & _ & _ & G & ->)].
    + destruct (bool_decide _); [by destruct E as [_ ->]|].
      destruct (_ && _); [|by destruct E as [_ ->]].
      destruct E as (_ & hmac & G & ->). simpl. apply insert_wf; [done|done|].
      exact (proj1 (proj1 W) _ _ L).
    + simpl. apply insert_wf; [by eapply pruned_wf|done|done].
  - apply complete_authorized_ok in E as (now & v & row & _ & Hv & _ & L & _ & _ & E).
    simpl in E, L. destruct (bool_decide _); [by destruct E as [_ ->]|].
    destruct E as (hmac & G & ->). simpl. apply insert_wf; [done|done|].
    exact (proj1 (proj1 W) _ _ L).
  - pose proof (replay_authorized_read_only key id (mkConn d (call_faults call))) as D.
    rewrite E in D. simpl in D. by rewrite D.
Qed.

Lemma desired_rows_step rows rows' :
  desired_step key rows rows' ->
  map_Forall (fun _ row => desired_check (row_record row) = true /\
    effect_authentic key (row_record row)) rows ->
  map_Forall (fun _ row => desired_check (row_record row) = true /\
    effect_authentic key (row_record row)) rows'.
Proof.
  intros S W k row L. destruct (S k) as [Sk C]. rewrite L in *. simpl in *.
  split; [destruct C as [C|(row' & [= <-] & C)]; [symmetry in C; by apply W in C as [C _]|done]|].
  cut (forall r, Some (row_record row) = Some r -> effect_authentic key r); [by intros X; apply X|].
  assert (forall r, row_record <$> rows !! k = Some r -> effect_authentic key r) as A.
  { intros r (row0 & L0 & ->)%fmap_Some. by apply W in L0 as [_ A]. }
  revert Sk A. generalize (Some (row_record row)). intros o Sk.
  induction Sk as [|x y z Sx _ IH]; [done|]. intros A. apply IH. intros r E.
  destruct Sx; injection E as <-; [done|apply resealed_authentic].
Qed.

Lemma artifact_rows_step op now rows rows' :
  artifacts_step key op now rows rows' ->
  map_Forall (fun _ row => artifact_check (row_record row) = true /\
    authentic key (row_record row)) rows ->
  map_Forall (fun _ row => artifact_check (row_record row) = true /\
    authentic key (row_record row)) rows'.
Proof.
  intros S W k row L. destruct (S k) as [Sk C]. rewrite L in *. simpl in *.
  split; [destruct C as [C|(row' & [= <-] & C)]; [symmetry in C; by apply W in C as [C _]|done]|].
  cut (sound_record key (Some (row_record row))); [by intros X; apply X|].
  assert (sound_record key (row_record <$> rows !! k)) as A.
  { intros r (row0 & L0 & ->)%fmap_Some. apply W in L0 as [Ck A]. split; [done|].
    unfold artifact_check in Ck. split_guards. lia. }
  revert Sk A. generalize (Some (row_record row)). intros o Sk.
  induction Sk as [|x y z Sx _ IH]; [done|]. intros A. apply IH. by eapply sound_step.
Qed.

(** C32. The effect store is well-formed after every call if it was before:
    every row is stored under its own key, idempotency keys are unique, every
    row satisfies the constraints of its table, and every row authenticates
    under the store's key.  No method ever writes a record that a later
    [validate_authorized_record], [validate_effect_record] or
    [validate_artifact_record] would refuse, whatever its arguments, its clock
    and the storage failures. *)
Theorem store_wf_preserved d call r d' :
  store_wf d -> run_call key d call = (r, d') -> store_wf d'.
Proof.
  intros [W1 W2 W3 W4 W5 W6] E.
  destruct (run_call_authorized _ _ _ _ E (conj W1 W2)) as [X1 X2].
  destruct (run_call_desired _ _ _ _ W3 E) as [X3 S].
  destruct (run_call_artifacts _ _ _ _ _ W5 E) as [X5 M].
  split; [done|done|done|by eapply desired_rows_step|done|].
  destruct M as [->|(now & _ & _ & M)]; [done|by eapply artifact_rows_step].
Qed.
End Store.
