(* ===== verification/EffectMac.v ===== *)
(** The authentication codes of the effect store determine what they
    authenticate.  Two stamped values of any kinds with one code are the same
    value, or the inner or the outer digests taken for those two values collide. *)

From stdpp Require Import base list gmap numbers countable strings.
From Stdlib Require Import ZArith Lia Bool Strings.Byte.
From S2P Require Import Prelude Bytes Contracts Authorization SemanticFacts Sql Executor.
From S2P Require Import EffectRecords EffectStore.

Local Open Scope Z_scope.

(** * Codes *)

Definition fits_u64 {A} (b : list A) : Prop := len b <= u64_max.

#[export] Instance effect_field_code : PrefixCode fits_u64 append_effect_field.
Proof.
  intros a1 a2 r1 r2 D1 D2. unfold append_effect_field. rewrite <- !app_assoc. intros E.
  unfold fits_u64, u64_max in *. pose proof (len_nonneg a1). pose proof (len_nonneg a2).
  apply (prefix_code (PrefixCode := be_u64_code)) in E as [E1 E2]; [|unfold in_u64; lia..].
  apply app_inj_1 in E2 as [-> ->]; [done|]. unfold len in E1. lia.
Qed.

(** A string without a zero byte, followed by one. *)
Definition no_nul (b : bytes) : Prop := x00 ∉ b.

#[export] Instance nul_terminated_code : PrefixCode no_nul (fun b => b ++ [x00]).
Proof.
  intros a1. induction a1 as [|x a1 IH]; intros [|y a2] r1 r2 D1 D2 E; simpl in E.
  - by injection E.
  - injection E as <- _. exfalso. apply D2. by left.
  - injection E as -> _. exfalso. apply D1. by left.
  - injection E as -> E. apply IH in E as [-> ->]; [done|..];
      intros N; [apply D1|apply D2]; by right.
Qed.

Definition optional_expiry (o : option Z) : Prop :=
  match o with Some z => in_i64 z | None => True end.

#[export] Instance optional_expiry_code :
  PrefixCode optional_expiry (fun o => optional_bytes (be 8 <$> o)).
Proof.
  intros [v1|] [v2|] r1 r2 D1 D2 E; try discriminate E.
  - apply (f_equal (@tl byte)) in E. change (be 8 v1 ++ r1 = be 8 v2 ++ r2) in E.
    apply (prefix_code (PrefixCode := be_i64_code)) in E as [-> ->]; done.
  - apply (f_equal (@tl byte)) in E. done.
Qed.

(** * Stamped values *)

Inductive Stamped :=
| StampAuthorized (r : AuthorizedEffectRecord)
| StampArtifact (r : ArtifactRecord)
| StampDesired (r : EffectRecord)
| StampFile (contents : bytes)
| StampStore (store_id : bytes).

(** The same value apart from its own authentication code. *)
Definition unstamped (s : Stamped) : Stamped :=
  match s with
  | StampAuthorized r => StampAuthorized (aer_seal [] r)
  | StampArtifact r => StampArtifact (art_seal [] r)
  | StampDesired r => StampDesired (er_set (er_state r) [] r)
  | _ => s
  end.

Definition desired_preimage (r : EffectRecord) : bytes :=
  concat (desired_chunks (er_mutation_kind r) (er_resource_key r) (er_revision r)
    (effect_record_identity r) (er_state r) (er_before_hmac r) (er_after_hmac r)).

Definition preimage (s : Stamped) : bytes :=
  match s with
  | StampAuthorized r => authorized_preimage r
  | StampArtifact r => artifact_preimage r
  | StampDesired r => desired_preimage r
  | StampFile b => FILE_DOMAIN ++ b
  | StampStore b => STORE_IDENTITY_DOMAIN ++ b
  end.

(** The types of the fields: fixed-size arrays, machine integers, strings in
    memory; a mutation kind and a resource have no zero byte
    ([validate_effect_identity]). *)
Definition typed (s : Stamped) : Prop :=
  match s with
  | StampAuthorized r =>
      array 16 (aer_command_id r) /\ array 16 (aer_idempotency_key r) /\ array 16 (aer_node_id r) /\
      array 16 (aer_operation_id r) /\ array 32 (aer_payload_sha256 r) /\ fits_u64 (aer_action r) /\
      in_u64 (aer_authorization_revision r) /\ fits_u64 (aer_effect_kind r) /\
      fits_u64 (aer_resource_key r) /\ in_u64 (aer_effect_revision r) /\ in_i64 (aer_expires_at r) /\
      fits_u64 (aer_state r) /\ in_i64 (aer_delivery_mode r) /\ fits_u64 (aer_response r)
  | StampArtifact r =>
      array 16 (art_artifact_id r) /\ array 16 (art_certificate_id r) /\
      in_u64 (art_certificate_version r) /\ array 16 (art_operation_id r) /\
      array 32 (art_content_sha256 r) /\ in_u64 (art_content_size r) /\
      in_i64 (art_artifact_expires_at r) /\ fits_u64 (art_state r) /\
      optional_array 16 (art_active_grant_id r) /\ fits_u64 (art_active_subject r) /\
      optional_expiry (art_grant_expires_at r) /\ in_u64 (art_active_offset r)
  | StampDesired r =>
      no_nul (er_mutation_kind r) /\ no_nul (er_resource_key r) /\ in_u64 (er_revision r) /\
      array 16 (er_command_id r) /\ array 16 (er_idempotency_key r) /\
      array 32 (er_payload_sha256 r) /\ in_i64 (er_expires_at r) /\
      array 32 (er_before_hmac r) /\ array 32 (er_after_hmac r)
  | StampFile _ => True
  | StampStore b => array 16 b
  end.

(** * Injectivity of the preimages *)

Ltac take_field code H :=
  let F := fresh "Hfield" in
  apply (prefix_code (PrefixCode := code)) in H as [F H]; [|assumption..].

(** The last field, in front of nothing. *)
Lemma last_field {A} (P : A -> Prop) (enc : A -> bytes) `{!PrefixCode P enc} a b :
  P a -> P b -> enc a = enc b -> a = b.
Proof.
  intros Ha Hb E. rewrite <- (app_nil_r (enc a)), <- (app_nil_r (enc b)) in E.
  by apply (prefix_code a b) in E as [-> _].
Qed.

Lemma authorized_preimage_inj r1 r2 :
  typed (StampAuthorized r1) -> typed (StampAuthorized r2) ->
  authorized_preimage r1 = authorized_preimage r2 -> aer_seal [] r1 = aer_seal [] r2.
Proof.
  unfold typed. intros T1 T2. destruct_and!. unfold authorized_preimage.
  intros E%(inj (app AUTHORIZED_RECORD_DOMAIN)).
  do 4 take_field (array_code 16) E. take_field (array_code 32) E.
  take_field effect_field_code E. take_field be_u64_code E. take_field effect_field_code E.
  take_field effect_field_code E. take_field be_u64_code E. take_field be_i64_code E.
  take_field effect_field_code E. take_field be_i64_code E.
  apply (last_field fits_u64 append_effect_field) in E; [|assumption..]. unfold aer_seal, aer_set. f_equal; assumption.
Qed.

Lemma artifact_preimage_inj r1 r2 :
  typed (StampArtifact r1) -> typed (StampArtifact r2) ->
  artifact_preimage r1 = artifact_preimage r2 -> art_seal [] r1 = art_seal [] r2.
Proof.
  unfold typed. intros T1 T2. destruct_and!. unfold artifact_preimage.
  intros E%(inj (app ARTIFACT_RECORD_DOMAIN)).
  do 2 take_field (array_code 16) E. take_field be_u64_code E. take_field (array_code 16) E.
  take_field (array_code 32) E. take_field be_u64_code E. take_field be_i64_code E.
  take_field effect_field_code E. take_field (optional_code 16) E. take_field effect_field_code E.
  take_field optional_expiry_code E.
  apply (last_field in_u64 (be 8)) in E; [|assumption..]. unfold art_seal, art_set. f_equal; assumption.
Qed.

Lemma desired_preimage_inj r1 r2 :
  typed (StampDesired r1) -> typed (StampDesired r2) ->
  desired_preimage r1 = desired_preimage r2 ->
  er_set (er_state r1) [] r1 = er_set (er_state r2) [] r2.
Proof.
  unfold typed. intros T1 T2. destruct_and!. unfold desired_preimage, desired_chunks.
  cbn [concat effect_record_identity vei_command_id vei_idempotency_key vei_payload_sha256
       vei_expires_at].
  intros E%(inj (app DESIRED_RECORD_DOMAIN)). rewrite !app_nil_r in E.
  rewrite !(app_assoc _ [x00]) in E.
  do 2 take_field nul_terminated_code E. take_field be_u64_code E.
  do 2 take_field (array_code 16) E. take_field (array_code 32) E. take_field be_i64_code E.
  rewrite !app_assoc in E. apply app_inj_2 in E as [E Ha]; [|unfold array in *; congruence].
  apply app_inj_2 in E as [E Hb]; [|unfold array in *; congruence].
  unfold er_set. f_equal; assumption.
Qed.

Lemma preimage_inj s1 s2 :
  typed s1 -> typed s2 -> preimage s1 = preimage s2 -> unstamped s1 = unstamped s2.
Proof.
  destruct s1, s2; cbn [preimage]; intros T1 T2 E;
    try (exfalso; revert E; unfold authorized_preimage, artifact_preimage, desired_preimage,
           desired_chunks; cbn [concat]; apply diverge_app; reflexivity);
    unfold unstamped.
  - f_equal. by apply authorized_preimage_inj.
  - f_equal. by apply artifact_preimage_inj.
  - f_equal. by apply desired_preimage_inj.
  - by apply (inj (app FILE_DOMAIN)) in E as ->.
  - by apply (inj (app STORE_IDENTITY_DOMAIN)) in E as ->.
Qed.

(** * Codes determine values *)

Section Codes.
Context `{Crypto} (key : bytes).

Definition stamp (s : Stamped) : bytes :=
  match s with
  | StampAuthorized r => authenticate_authorized_record key r
  | StampArtifact r => authenticate_artifact_record key r
  | StampDesired r =>
      authenticate_record key (er_mutation_kind r) (er_resource_key r) (er_revision r)
        (effect_record_identity r) (er_state r) (er_before_hmac r) (er_after_hmac r)
  | StampFile b => authenticate_file key b
  | StampStore b => authenticate_store_identity key b
  end.

(** The inner or the outer strings digested for two messages collide. *)
Definition hmac_collides (m1 m2 : bytes) : Prop :=
  let inner m := xor_pad 54 key ++ m in
  let outer m := xor_pad 92 key ++ sha256 (inner m) in
  collides (inner m1) (inner m2) \/ collides (outer m1) (outer m2).

Lemma hmac_inj l1 l2 :
  hmac_sha256 key l1 = hmac_sha256 key l2 ->
  concat l1 = concat l2 \/ hmac_collides (concat l1) (concat l2).
Proof.
  unfold hmac_sha256. intros E.
  destruct (decide (concat l1 = concat l2)) as [|N]; [by left|]. right.
  destruct (decide (sha256 (xor_pad 54 key ++ concat l1) = sha256 (xor_pad 54 key ++ concat l2))) as [Ei|Ni];
    [left|right]; (split; [|done]).
  - by intros ?%(inj (app (xor_pad 54 key))).
  - by intros ?%(inj (app (xor_pad 92 key))).
Qed.

Lemma stamp_preimage s : exists l, stamp s = hmac_sha256 key l /\ concat l = preimage s.
Proof.
  destruct s; simpl; eexists; (split; [reflexivity|]); cbn [concat]; by rewrite ?app_nil_r.
Qed.

(** Stored evidence is tamper-evident across all its kinds: two values
    that the store stamps with the same authentication code (authorized
    effects, artifacts, desired effects, the contents of an authoritative
    file, the identity of the store) are of the same kind and agree in every
    field, or the two strings digested for them collide.
    The preimages of the five kinds are separated and every field of each is
    recoverable. *)
Theorem stamp_determines_value s1 s2 :
  typed s1 -> typed s2 -> stamp s1 = stamp s2 -> 
  unstamped s1 = unstamped s2 \/ hmac_collides (preimage s1) (preimage s2).
Proof.
  intros T1 T2 E. destruct (stamp_preimage s1) as (l1 & E1 & P1).
  destruct (stamp_preimage s2) as (l2 & E2 & P2). rewrite E1, E2 in E.
  apply hmac_inj in E as [E|E]; [left|right; congruence].
  apply preimage_inj; [done|done|congruence].
Qed.
End Codes.
