(* ===== verification/EffectLiveness.v ===== *)
(** A healthy effect store admits new work: on a well-formed store and
    without storage failures, a fresh authorized command is executed, its
    completion is recorded, and from then on the recorded response is
    replayed. *)

From stdpp Require Import base list gmap numbers countable strings sorting relations.
From Stdlib Require Import ZArith Lia Bool Strings.Byte.
From S2P Require Import Prelude Bytes Contracts Authorization Sql Executor.
From S2P Require Import EffectRecords EffectStore EffectFacts EffectMachine EffectTheorems.
From S2P Require Import ArtifactTheorems DesiredTheorems.

Local Open Scope Z_scope.

#[export] Instance faultless_select_row {K R} `{Countable K} (T : Table K R) dec k :
  Faultless (select_row T dec k).
Proof. unfold select_row. apply _. Qed.
#[export] Instance faultless_select_keys {K R} `{Countable K} (T : Table K R) dec cond :
  Faultless (select_keys T dec cond).
Proof. unfold select_keys. apply _. Qed.
#[export] Instance faultless_count_rows {K R} `{Countable K} (T : Table K R) :
  Faultless (count_rows T).
Proof. unfold count_rows. apply _. Qed.
#[export] Instance faultless_insert_row {K R} `{Countable K} (T : Table K R) k r now :
  Faultless (insert_row T k r now).
Proof. unfold insert_row. apply _. Qed.
#[export] Instance faultless_update_row {K R} `{Countable K} (T : Table K R) k cond set now :
  Faultless (update_row T k cond set now).
Proof. unfold update_row. apply _. Qed.
#[export] Instance faultless_delete_row {K R} `{Countable K} (T : Table K R) k cond :
  Faultless (delete_row T k cond).
Proof. unfold delete_row. apply _. Qed.
#[export] Instance faultless_query_authorized k : Faultless (query_authorized_effect k).
Proof. unfold query_authorized_effect. apply _. Qed.
#[export] Instance faultless_idempotency_owner k : Faultless (idempotency_owner k).
Proof. unfold idempotency_owner. apply _. Qed.

Lemma blob_length n b : blob n b = true -> length b = n.
Proof. apply bool_decide_eq_true. Qed.

Lemma fixed_blob_accepts n b : blob n b = true -> fixed_blob n b = Ok b.
Proof. intros E%blob_length. unfold fixed_blob. by rewrite bool_decide_true. Qed.

Lemma u64_column_ok z : (0 <? z) = true -> u64_column z = Ok z.
Proof. intros E. unfold u64_column. destruct (Z.leb_spec 0 z); [done|lia]. Qed.

Lemma decode_authorized_ok r : authorized_check r = true -> decode_authorized r = Ok r.
Proof.
  unfold authorized_check, decode_authorized. intros C.
  repeat match goal with C : (_ && _)%bool = true |- _ => apply andb_true_iff in C as [C ?] end.
  rewrite !fixed_blob_accepts, !u64_column_ok by done. unfold state_column.
  match goal with C : one_of (aer_state r) _ = true |- _ => rewrite C end. by destruct r.
Qed.

Section Live.
Context `{Crypto} `{Platform} (key : bytes).

#[export] Instance faultless_prune_each l now : Faultless (prune_each key l now).
Proof. induction l; simpl; apply _. Qed.
#[export] Instance faultless_prune_authorized now : Faultless (prune_expired_authorized_effects key now).
Proof. unfold prune_expired_authorized_effects. apply _. Qed.

#[export] Instance faultless_prepare_authorized clock id : Faultless (prepare_authorized key clock id).
Proof. unfold prepare_authorized, immediate. apply _. Qed.
#[export] Instance faultless_complete_authorized clock id r :
  Faultless (complete_authorized key clock id r).
Proof. unfold complete_authorized, immediate. apply _. Qed.
#[export] Instance faultless_replay_authorized id : Faultless (replay_authorized key id).
Proof. unfold replay_authorized. apply _. Qed.

Definition authorized_rows_ok (rows : gmap bytes (Row AuthorizedEffectRecord)) : Prop :=
  map_Forall (fun _ row => authorized_check (row_record row) = true /\
    is_ok (validate_authorized_record key (row_record row)) = true) rows.

Lemma exec_query_authorized d k :
  authorized_rows_ok (edb_authorized d) ->
  exec (query_authorized_effect k) d = (Ok (row_record <$> edb_authorized d !! k), d).
Proof.
  intros W. unfold query_authorized_effect, select_row. rewrite exec_sql, exec_query. simpl.
  destruct (edb_authorized d !! k) as [row|] eqn:L; [|done]. simpl.
  apply W in L as [C _]. by rewrite decode_authorized_ok.
Qed.

(** The rows a prune removes. *)
Definition past_expiry (now : Z) (r : AuthorizedEffectRecord) : bool :=
  bool_decide (aer_state r = str "applied") && (aer_expires_at r <=? now).

Lemma validated_unit r u : is_ok (validate_authorized_record key r) = true ->
  validate_authorized_record key r = Ok u.
Proof. destruct (validate_authorized_record key r) as [[]|]; [|done]. by destruct u. Qed.

Lemma exec_prune_each l now d :
  authorized_rows_ok (edb_authorized d) -> NoDup l ->
  Forall (fun k => exists row, edb_authorized d !! k = Some row /\ past_expiry now (row_record row) = true) l ->
  exec (prune_each key l now) d =
    (Ok tt, tbl_with authorized_effects (foldl (fun m k => delete k m) (edb_authorized d) l) d).
Proof.
  revert d. induction l as [|k l IH]; intros d W ND F; simpl.
  - rewrite exec_ret. f_equal. symmetry. apply (tbl_with_rows (T := authorized_effects)).
  - inversion F as [|? ? (row & L & X) F']; subst. apply NoDup_cons in ND as [Hni ND].
    rewrite exec_bind by apply _. rewrite exec_query_authorized by done. rewrite L. simpl.
    rewrite exec_bind, exec_lift by apply _. simpl.
    rewrite exec_bind, exec_lift by apply _. destruct (W _ _ L) as [_ V].
    rewrite (validated_unit _ tt V). rewrite exec_bind by apply _.
    unfold past_expiry in X. apply andb_true_iff in X as [X1 X2]. pose proof X1 as X1'.
    apply bool_decide_eq_true in X1'.
    rewrite (bool_decide_false (aer_state (row_record row) <> _)) by (by intros N; apply N).
    destruct (Z.ltb_spec now (aer_expires_at (row_record row))); [lia|]. simpl. rewrite ?exec_ret.
    rewrite exec_bind, exec_sql by apply _. unfold delete_row. rewrite exec_stmt. simpl.
    rewrite L, X1, X2. simpl. rewrite exec_bind, exec_lift by apply _. simpl.
    rewrite IH; simpl.
    + done.
    + intros k' row' [_ L']%lookup_delete_Some. by apply (W k').
    + done.
    + apply Forall_forall. intros k' Hin. rewrite Forall_forall in F'.
      destruct (F' k' Hin) as (row' & L' & X'). exists row'.
      rewrite lookup_delete_ne; [done|]. by intros ->.
Qed.

(** The rows that stay. *)
Definition live_rows (now : Z) (rows : gmap bytes (Row AuthorizedEffectRecord))
  : gmap bytes (Row AuthorizedEffectRecord) :=
  filter (fun kv => past_expiry now (row_record (snd kv)) = false) rows.

Lemma foldl_delete_lookup {A} (l : list bytes) (m : gmap bytes A) k :
  foldl (fun m k => delete k m) m l !! k = if decide (k ∈ l) then None else m !! k.
Proof.
  revert m. induction l as [|x l IH]; intros m; simpl.
  - destruct (decide (k ∈ [])) as [Hin|]; [by apply not_elem_of_nil in Hin|done].
  - rewrite IH. destruct (decide (k ∈ l)) as [Hin|Hni].
    + rewrite decide_True; [done|]. by right.
    + destruct (decide (k = x)) as [->|N].
      * rewrite lookup_delete_eq, decide_True; [done|]. by left.
      * rewrite lookup_delete_ne by done. rewrite decide_False; [done|].
        by intros [->|?]%elem_of_cons.
Qed.

Lemma exec_prune now d :
  authorized_rows_ok (edb_authorized d) -> (forall k row, edb_authorized d !! k = Some row -> length k = 16%nat) ->
  exec (prune_expired_authorized_effects key now) d =
    (Ok tt, tbl_with authorized_effects (live_rows now (edb_authorized d)) d).
Proof.
  intros W K. unfold prune_expired_authorized_effects. rewrite exec_bind, exec_sql by apply _.
  unfold select_keys. rewrite exec_query. simpl.
  set (rows := List.filter _ _).
  assert (forall k, k ∈ rows.*1 <-> exists row, edb_authorized d !! k = Some row /\
            past_expiry now (row_record row) = true) as Hin.
  { intros k. unfold rows. rewrite list_elem_of_fmap. split.
    - intros ([k' row] & -> & Hin%list_elem_of_In). apply filter_In in Hin as [Hin X].
      apply list_elem_of_In, elem_of_map_to_list in Hin. eauto.
    - intros (row & L & X). exists (k, row). split; [done|]. apply list_elem_of_In, filter_In.
      split; [by apply list_elem_of_In, elem_of_map_to_list|done]. }
  assert (fold_right (fun k acc => let? rest := acc in let? k' := fixed_blob 16 k in Ok (k' :: rest))
            (Ok []) rows.*1 = Ok rows.*1) as ->.
  { assert (Forall (fun k => length k = 16%nat) rows.*1) as F.
    { apply Forall_forall. intros k (row & L & _)%Hin. by apply (K k row). }
    revert F. generalize rows.*1. intros l F. induction F as [|k l Hk F IH]; [done|].
    simpl. rewrite IH. unfold fixed_blob. by rewrite bool_decide_true. }
  simpl. rewrite exec_prune_each; [|done| |].
  - change (tbl_with authorized_effects ?t d) with
      (mkEffectDb (edb_identity d) (edb_desired d) t (edb_artifacts d)).
    do 2 f_equal. apply map_eq. intros k. rewrite foldl_delete_lookup.
    unfold live_rows. destruct (decide (k ∈ rows.*1)) as [Hk|Hk].
    + apply Hin in Hk as (row & L & X). symmetry. apply map_lookup_filter_None. right.
      intros row' L'. rewrite L in L'. injection L' as <-. simpl. by rewrite X.
    + destruct (edb_authorized d !! k) as [row|] eqn:L; symmetry.
      * apply map_lookup_filter_Some. split; [done|]. simpl.
        destruct (past_expiry now (row_record row)) eqn:X; [|done]. exfalso. apply Hk, Hin. eauto.
      * apply map_lookup_filter_None. by left.
  - subst rows. pose proof (NoDup_fst_map_to_list (edb_authorized d)) as ND. revert ND.
    generalize (map_to_list (edb_authorized d)). intros m. induction m as [|[k row] m IH]; [done|].
    simpl. intros [Hni ND]%NoDup_cons. destruct (_ && _); [|by apply IH]. simpl.
    apply NoDup_cons. split; [|by apply IH].
    intros ([k0 row0] & -> & Hk0)%list_elem_of_fmap. apply Hni, list_elem_of_fmap.
    exists (k0, row0). split; [done|]. apply list_elem_of_In, filter_In in Hk0 as [Hk0 _].
    by apply list_elem_of_In.
  - apply Forall_forall. intros k. by rewrite Hin.
Qed.

(** ** One command, from delivery to replay *)

Lemma validate_any_time id now v now' :
  validate_authorized_effect id now = Ok v -> now' < aei_expires_at_unix_seconds id ->
  validate_authorized_effect id now' = Ok v.
Proof.
  unfold validate_authorized_effect. intros E Hlt. invert_ok E. subst.
  repeat match goal with G : (_ || _)%bool = false |- _ => apply orb_false_iff in G as [G ?] end.
  repeat match goal with G : _ = false |- _ => rewrite G; clear G end.
  destruct (Z.leb_spec (aei_expires_at_unix_seconds id) now'); [lia|]. done.
Qed.

Lemma effect_now_ok now : now <= i64_max -> effect_now (Some now) = Ok now.
Proof. intros E. simpl. by rewrite bool_decide_true. Qed.

(** The lengths and signs that a validated identity guarantees. *)
Lemma fresh_row_checked id now v rows :
  validate_authorized_effect id now = Ok v ->
  0 <= aei_authorization_revision id -> 0 <= aei_effect_revision id ->
  (forall k row, rows !! k = Some row -> aer_idempotency_key (row_record row) <> aei_idempotency_key id) ->
  tbl_check authorized_effects rows (fresh_row key v) = true.
Proof.
  intros E R1 R2 U. unfold validate_authorized_effect in E. invert_ok E. subst v.
  repeat match goal with E : fixed_request _ _ = Ok _ |- _ => apply fixed_request_same in E as [-> ?] end.
  split_guards. simpl. apply andb_true_iff. split.
  - unfold authorized_check, fresh_row, authorized_record, blob; simpl.
    rewrite !bool_decide_true by (done || apply sha256_length).
    rewrite !(proj2 (Z.ltb_lt 0 _)) by lia. by destruct (aei_retry_if_absent id).
  - unfold idempotency_unique. apply forallb_forall. intros [k row] Hin.
    apply list_elem_of_In, elem_of_map_to_list in Hin. apply orb_true_iff. right.
    apply bool_decide_eq_true. by apply (U k).
Qed.

(** The next call: no failure is scheduled. *)
Lemma run_call_exec d op clock : run_call key d (mkCall op clock []) = exec (run_op key op clock) d.
Proof. done. Qed.

Lemma exec_returning {A} (m : Eff A) f d a d' `{!Faultless m} :
  exec m d = (Ok a, d') -> exec (returning m f) d = (Ok (f a), d').
Proof. intros E. unfold returning. rewrite exec_bind by apply _. by rewrite E. Qed.

Lemma exec_idempotency_free d k :
  (forall c row, edb_authorized d !! c = Some row -> aer_idempotency_key (row_record row) <> k) ->
  exec (idempotency_owner k) d = (Ok None, d).
Proof.
  intros U. unfold idempotency_owner. rewrite exec_sql, exec_query. simpl.
  destruct (List.filter _ _) as [|[c row] m] eqn:F; [done|exfalso].
  assert (In (c, row) ((c, row) :: m)) as Hin by (by left). rewrite <- F in Hin.
  apply filter_In in Hin as [Hin X]. apply list_elem_of_In, elem_of_map_to_list in Hin.
  apply bool_decide_eq_true in X. by apply (U c row).
Qed.

Lemma validated_fields id now v :
  validate_authorized_effect id now = Ok v ->
  vae_idempotency_key v = aei_idempotency_key id /\
  vae_authorization_revision v = aei_authorization_revision id /\
  vae_effect_revision v = aei_effect_revision id.
Proof.
  unfold validate_authorized_effect. intros Hv. invert_ok Hv. subst v. simpl.
  by apply fixed_request_same in Hstep0 as [-> _].
Qed.

Lemma exec_insert_fresh d id now v :
  tbl_check authorized_effects (edb_authorized d) (fresh_row key v) = true ->
  edb_authorized d !! aei_command_id id = None ->
  exec (insert_row authorized_effects (aei_command_id id) (fresh_row key v) now) d =
    (Ok tt, tbl_with authorized_effects
       (<[aei_command_id id := mkRow (fresh_row key v) now]> (edb_authorized d)) d).
Proof.
  intros C L. unfold insert_row. rewrite exec_stmt.
  change (tbl_rows authorized_effects d) with (edb_authorized d).
  rewrite L, C. by rewrite bool_decide_false by (intros N; by apply N).
Qed.

Lemma exec_prepare_fresh d id now v :
  authorized_rows_ok (edb_authorized d) ->
  (forall k row, edb_authorized d !! k = Some row -> length k = 16%nat) ->
  0 <= now <= i64_max -> validate_authorized_effect id now = Ok v ->
  0 <= aei_authorization_revision id <= i64_max -> 0 <= aei_effect_revision id <= i64_max ->
  edb_authorized d !! aei_command_id id = None ->
  (forall k row, edb_authorized d !! k = Some row ->
     aer_idempotency_key (row_record row) <> aei_idempotency_key id) ->
  Z.of_nat (size (live_rows now (edb_authorized d))) < MAX_EFFECT_RECORDS ->
  exec (prepare_authorized key (Some now) id) d =
    (Ok DecideExecute, tbl_with authorized_effects
       (<[aei_command_id id := mkRow (fresh_row key v) now]> (live_rows now (edb_authorized d))) d).
Proof.
  intros W K Hnow Hv R1 R2 L U C. unfold prepare_authorized, immediate.
  rewrite exec_bind, exec_lift, effect_now_ok by (apply _ || lia).
  rewrite exec_bind, exec_lift, Hv by apply _. rewrite exec_transaction by apply _.
  rewrite exec_bind, exec_query_authorized by (done || apply _).
  destruct (validate_authorized_effect_ok _ _ _ Hv) as (Hid & _). rewrite Hid, L.
  destruct (validated_fields _ _ _ Hv) as (Hkey & Hr1 & Hr2). cbn [fmap option_fmap option_map].
  rewrite exec_bind, exec_idempotency_free by (apply _ || (by rewrite Hkey)).
  rewrite exec_bind, bool_decide_false by (apply _ || (intros N; by apply N)). rewrite exec_ret.
  rewrite exec_bind, exec_prune by (done || apply _).
  rewrite exec_bind, exec_sql by apply _. unfold count_rows. rewrite exec_query.
  change (tbl_rows authorized_effects (tbl_with authorized_effects ?t d)) with t.
  cbn [fst snd map_err]. destruct (Z.leb_spec MAX_EFFECT_RECORDS
    (Z.of_nat (size (live_rows now (edb_authorized d))))); [lia|].
  rewrite exec_bind, exec_ret by apply _.
  rewrite !exec_bind, !exec_lift by apply _. rewrite Hr1, Hr2. unfold i64_or.
  rewrite !(proj2 (Z.leb_le _ i64_max)) by lia.
  rewrite exec_bind, exec_lift by apply _.
  rewrite exec_bind, exec_sql by apply _. fold (fresh_row key v).
  assert (forall k row, live_rows now (edb_authorized d) !! k = Some row ->
            edb_authorized d !! k = Some row) as Sub.
  { intros k row Lr. by apply map_lookup_filter_Some in Lr as [Lr _]. }
  rewrite exec_insert_fresh; [done| |].
  - eapply fresh_row_checked; [exact Hv|lia|lia|]. intros k row Lr%Sub. by apply (U k).
  - simpl. destruct (live_rows now (edb_authorized d) !! aei_command_id id) eqn:Lr; [|done].
    apply Sub in Lr. congruence.
Qed.

(** The record of a command that was admitted, and of one that completed. *)
Definition holds (d : EffectDb) (id : AuthorizedEffectIdentity) (r : AuthorizedEffectRecord) : Prop :=
  authorized_rows_ok (edb_authorized d) /\
  exists row, edb_authorized d !! aei_command_id id = Some row /\ row_record row = r.

Lemma same_as_fresh v expires state mode response hmac r :
  r = aer_set expires state mode response hmac (fresh_row key v) ->
  validate_same_authorized_effect r v = Ok tt.
Proof.
  intros ->. unfold validate_same_authorized_effect, fresh_row, authorized_record, aer_set. simpl.
  rewrite !bool_decide_false by (intros N; by apply N). done.
Qed.

Lemma exec_replay d id now v r :
  validate_authorized_effect id now = Ok v -> 0 <= now ->
  holds d id r -> validate_same_authorized_effect r v = Ok tt -> aer_state r = str "applied" ->
  exec (replay_authorized key id) d = (Ok (Some (aer_response r)), d).
Proof.
  intros Hv Hn [W (row & L & Hr)] Hs Ha.
  destruct (validate_authorized_effect_ok _ _ _ Hv) as (Hid & _ & _ & Hlt & _).
  unfold replay_authorized. rewrite exec_bind, exec_lift by apply _.
  rewrite (validate_any_time _ _ _ 0 Hv) by lia.
  rewrite exec_bind, exec_query_authorized by (done || apply _). rewrite Hid, L. simpl.
  destruct (W _ _ L) as [_ V]. rewrite Hr in *.
  rewrite exec_bind, exec_lift, (validated_unit _ tt V) by apply _.
  rewrite exec_bind, exec_lift, Hs by apply _. by rewrite exec_ret, bool_decide_true.
Qed.

Lemma exec_prepare_again d id now v now' r :
  validate_authorized_effect id now = Ok v -> now' < aei_expires_at_unix_seconds id ->
  now' <= i64_max ->
  holds d id r -> validate_same_authorized_effect r v = Ok tt -> aer_state r = str "applied" ->
  exec (prepare_authorized key (Some now') id) d = (Ok (DecideReplay (aer_response r)), d).
Proof.
  intros Hv Hlt Hmax [W (row & L & Hr)] Hs Ha.
  destruct (validate_authorized_effect_ok _ _ _ Hv) as (Hid & _).
  unfold prepare_authorized, immediate. rewrite exec_bind, exec_lift, effect_now_ok by (apply _ || done).
  rewrite exec_bind, exec_lift, (validate_any_time _ _ _ _ Hv Hlt) by apply _.
  rewrite exec_transaction by apply _.
  rewrite exec_bind, exec_query_authorized by (done || apply _). rewrite Hid, L. simpl.
  destruct (W _ _ L) as [_ V]. rewrite Hr in *.
  rewrite exec_bind, exec_lift, (validated_unit _ tt V) by apply _.
  rewrite exec_bind, exec_lift, Hs by apply _. by rewrite bool_decide_true.
Qed.

(** The completed record of a command. *)
Definition completed_row (v : ValidatedAuthorizedEffect) (response : bytes) : AuthorizedEffectRecord :=
  aer_set (vae_expires_at v) (str "applied") (vae_delivery_mode v) response
    (authenticate_authorized_record key (aer_set (vae_expires_at v) (str "applied")
       (vae_delivery_mode v) response (aer_record_hmac (fresh_row key v)) (fresh_row key v)))
    (fresh_row key v).

Lemma completed_checked v response rows :
  tbl_check authorized_effects rows (fresh_row key v) = true -> len response <= MAX_FRAME_BYTES ->
  tbl_check authorized_effects rows (completed_row v response) = true.
Proof.
  simpl. intros [C U]%andb_true_iff Hl. apply andb_true_iff. split; [|done].
  unfold authorized_check, completed_row, fresh_row, authorized_record, blob, MAX_FRAME_BYTES in *.
  simpl in *.
  repeat match goal with C : (_ && _)%bool = true |- _ => apply andb_true_iff in C as [C ?] end.
  repeat (apply andb_true_iff; split); try done; [lia|].
  apply bool_decide_eq_true. apply sha256_length.
Qed.

Lemma exec_complete d id now v later response :
  validate_authorized_effect id now = Ok v -> 0 <= now -> 0 <= later <= i64_max ->
  response <> [] -> len response <= MAX_FRAME_BYTES ->
  holds d id (fresh_row key v) ->
  tbl_check authorized_effects (edb_authorized d) (fresh_row key v) = true ->
  exec (complete_authorized key (Some later) id response) d =
    (Ok tt, tbl_with authorized_effects
       (<[aei_command_id id := mkRow (completed_row v response) later]> (edb_authorized d)) d).
Proof.
  intros Hv Hn Hlater Hne Hlen [W (row & L & Hr)] C.
  destruct (validate_authorized_effect_ok _ _ _ Hv) as (Hid & _ & _ & Hlt & _).
  unfold complete_authorized, immediate. rewrite exec_bind by apply _.
  rewrite (proj2 (is_empty_false response)) by done.
  destruct (Z.ltb_spec MAX_FRAME_BYTES (len response)); [lia|]. cbn [orb]. rewrite exec_ret.
  rewrite exec_bind, exec_lift, effect_now_ok by (apply _ || lia).
  rewrite exec_bind, exec_lift, (validate_any_time _ _ _ 0 Hv) by (apply _ || lia).
  rewrite exec_transaction by apply _.
  rewrite exec_bind, exec_query_authorized by (done || apply _). rewrite Hid, L.
  cbn [fmap option_fmap option_map]. rewrite Hr.
  rewrite exec_bind, exec_lift by apply _. cbn [ok_or].
  destruct (W _ _ L) as [_ V]. rewrite Hr in V.
  rewrite exec_bind, exec_lift, (validated_unit _ tt V) by apply _.
  rewrite exec_bind, exec_lift, (same_as_fresh v (vae_expires_at v) (str "prepared")
    (vae_delivery_mode v) [] (aer_record_hmac (fresh_row key v)) (fresh_row key v)) by (apply _ || done).
  rewrite (bool_decide_false (aer_state (fresh_row key v) = str "applied")) by done.
  rewrite exec_bind, exec_sql by apply _. unfold update_row. rewrite exec_stmt.
  change (tbl_rows authorized_effects d) with (edb_authorized d). rewrite L, Hr.
  rewrite (bool_decide_true (aer_state (fresh_row key v) = str "prepared")) by done.
  fold (completed_row v response). rewrite (completed_checked v response) by done.
  cbn [negb fst snd map_err]. by rewrite exec_lift.
Qed.

Lemma mode_ok id now v :
  validate_authorized_effect id now = Ok v ->
  (vae_delivery_mode v =? 1) || (vae_delivery_mode v =? 3) = true.
Proof.
  intros Hv. destruct (validate_authorized_effect_ok _ _ _ Hv) as (_ & _ & _ & _ & ->).
  by destruct (aei_retry_if_absent id).
Qed.

Lemma fresh_row_valid id now v :
  validate_authorized_effect id now = Ok v ->
  is_ok (validate_authorized_record key (fresh_row key v)) = true.
Proof.
  intros Hv. apply (resealed_ok key (authorized_record v (str "prepared") [] (replicate 32 x00))
    (vae_expires_at v)); [done|by eapply mode_ok|done].
Qed.

Lemma completed_row_valid id now v response :
  validate_authorized_effect id now = Ok v -> len response <= MAX_FRAME_BYTES ->
  is_ok (validate_authorized_record key (completed_row v response)) = true.
Proof. intros Hv Hl. apply resealed_ok; [done|by eapply mode_ok|done]. Qed.

Lemma unique_insert rows r row :
  idempotency_unique rows r = true ->
  idempotency_unique (<[aer_command_id r := row]> rows) r = true.
Proof.
  unfold idempotency_unique. rewrite !forallb_forall. intros F [k x] Hin.
  apply list_elem_of_In, elem_of_map_to_list, lookup_insert_Some in Hin as [[<- _]|[N Hin]].
  - by rewrite bool_decide_true.
  - apply (F (k, x)). by apply list_elem_of_In, elem_of_map_to_list.
Qed.

(** Every row of the store is checked and authenticated, under a 16-byte
    command identifier. *)
Lemma wf_rows d : store_wf key d ->
  authorized_rows_ok (edb_authorized d) /\
  forall k row, edb_authorized d !! k = Some row -> length k = 16%nat.
Proof.
  intros [[K _] W _ _ _ _]. split; [done|]. intros k row L. rewrite <- (K k row L).
  destruct (W k row L) as [C _]. unfold authorized_check in C. split_guards. by apply blob_length.
Qed.

Lemma holds_insert d id r now :
  authorized_rows_ok (edb_authorized d) -> authorized_check r = true ->
  is_ok (validate_authorized_record key r) = true ->
  holds (tbl_with authorized_effects (<[aei_command_id id := mkRow r now]> (edb_authorized d)) d) id r.
Proof.
  intros W C V. split; [by apply map_Forall_insert_2|]. exists (mkRow r now).
  split; [|done]. simpl. apply lookup_insert_eq.
Qed.

End Live.
