(* ===== verification/EffectWitnesses.v ===== *)
(** Concrete histories of the effect store: one per theorem about it, each
    applying the theorem where its hypotheses hold. *)

From stdpp Require Import base list gmap numbers countable strings sorting relations.
From Stdlib Require Import ZArith Lia Bool Strings.Byte.
From S2P Require Import Prelude Bytes Contracts Authorization CommandAuthorization Sql Executor.
From S2P Require Import SemanticFacts SignedAuthority ExecutorTheorems.
From S2P Require Import EffectRecords EffectStore EffectFacts EffectMachine EffectTheorems.
From S2P Require Import ArtifactTheorems DesiredTheorems.
From S2P Require Import EffectMac EffectLiveness.

Local Open Scope Z_scope.

Local Existing Instance sample_platform.

(** A checksum in place of the digest. *)
Definition checksum (b : bytes) : bytes :=
  be 32 (fold_left (fun a x => (a * 257 + byte_val x) mod 2 ^ 61) b 1).

Definition store_crypto : Crypto :=
  {| VerifyingKey := bytes; Signature := bytes; key_as_bytes := fun k => k;
     signature_from_slice := Some; verify_strict := fun _ _ _ => false; sha256 := checksum;
     hex_encode := fun b => b; sha256_length := fun b => length_be 32 _;
     hex_encode_inj := fun b1 b2 E => E |}.
Local Existing Instance store_crypto.

Definition store_key : bytes := replicate 32 x07.
Definition empty_store : EffectDb := mkEffectDb None ∅ ∅ ∅.

(** * An authorized effect *)

Definition alice : AuthorizedEffectIdentity :=
  mkAuthorizedEffectIdentity (be 16 1) (be 16 2) (be 16 3) (be 16 4) (be 32 5) (str "user.enable") 1
    (str "user_enable") (str "alice") 7 1000 false.

Definition alice_retry : AuthorizedEffectIdentity :=
  mkAuthorizedEffectIdentity (be 16 1) (be 16 2) (be 16 3) (be 16 4) (be 32 5) (str "user.enable") 1
    (str "user_enable") (str "alice") 7 1000 true.

(** A delivery, a redelivery after a crash, a retry, its completion and a last
    delivery; the second statement of the first call fails once. *)
Definition deliveries : list Call :=
  [mkCall (OpPrepareAuthorized alice) (Some 10) [false; true];
   mkCall (OpPrepareAuthorized alice) (Some 11) [];
   mkCall (OpPrepareAuthorized alice) (Some 12) [];
   mkCall (OpPrepareAuthorized alice_retry) (Some 13) [];
   mkCall (OpCompleteAuthorized alice_retry (str "done")) (Some 14) [];
   mkCall (OpPrepareAuthorized alice) (Some 15) []].

Lemma authorized_effect_at_most_once_witness :
  snd <$> observe_history (be 16 2) (fst (run_calls store_key empty_store deliveries))
    = [None; Some (Executed false 1000); Some Deferred; Some (Executed true 1000);
       Some (Recorded (str "done") 1000); Some (Replayed (str "done"))] /\
  (executions false (observe_history (be 16 2) (fst (run_calls store_key empty_store deliveries))) <= 1)%nat.
Proof.
  split; [vm_compute; reflexivity|].
  apply (authorized_effect_at_most_once store_key empty_store deliveries (be 16 2) 1000 0 _
    (snd (run_calls store_key empty_store deliveries)) false).
  - reflexivity.
  - repeat constructor; intros _; reflexivity.
  - repeat split; simpl; lia.
  - apply surjective_pairing.
Defined.

Definition completed_store : EffectDb := snd (run_calls store_key empty_store deliveries).

Definition redeliveries : list Call :=
  [mkCall (OpPrepareAuthorized alice) (Some 20) []; mkCall (OpReplayAuthorized alice) None []].

Lemma completed_effect_only_replayed_witness :
  Forall (fun x => answered_with (str "done") (snd x))
    (observe_history (be 16 2) (fst (run_calls store_key completed_store redeliveries))).
Proof.
  apply (completed_effect_only_replayed store_key completed_store redeliveries (be 16 2) (str "done")
    1000 16 _ (snd (run_calls store_key completed_store redeliveries))).
  - vm_compute. reflexivity.
  - repeat constructor; intros _; reflexivity.
  - repeat split; simpl; lia.
  - apply surjective_pairing.
Defined.

Lemma empty_store_wf : store_wf store_key empty_store.
Proof. split; [split|..]; try (intros ? ? E; discriminate E); intros ? ? ? ? E; discriminate E. Qed.

Lemma store_wf_preserved_witness :
  store_wf store_key (snd (run_call store_key empty_store
    (mkCall (OpPrepareAuthorized alice) (Some 10) []))).
Proof.
  apply (store_wf_preserved store_key empty_store (mkCall (OpPrepareAuthorized alice) (Some 10) [])
    (fst (run_call store_key empty_store (mkCall (OpPrepareAuthorized alice) (Some 10) [])))).
  - apply empty_store_wf.
  - apply surjective_pairing.
Defined.


(** * An artifact *)

Definition lease (grant : Z) (expires : Z) : ArtifactLeaseIdentity :=
  mkArtifactLeaseIdentity (be 16 30) (be 16 31) 1 (be 16 32) (str "operator") 4096 (be 16 grant) expires.

Definition artifact_setup : list Call :=
  [mkCall (OpPrepareArtifact (be 16 30) (be 16 31) 1 (be 16 32) 900) (Some 10) [];
   mkCall (OpRegisterArtifact (be 16 30) (be 16 31) 1 (be 16 32) (be 32 33) 100 900) (Some 11) [];
   mkCall (OpLeaseArtifact (lease 40 500)) (Some 12) []].

Definition leased_store : EffectDb := snd (run_calls store_key empty_store artifact_setup).

Definition transfer : list Call :=
  [mkCall (OpLeaseArtifact (lease 41 600)) (Some 13) [];
   mkCall (OpAdvanceArtifact (lease 40 500) 0 100) (Some 14) [];
   mkCall (OpConsumeArtifact (lease 40 500) (be 32 33) 100) (Some 15) [];
   mkCall (OpRevokeArtifacts (be 16 31)) (Some 16) []].

Lemma leased_store_keyed : keyed leased_store.
Proof.
  by destruct (run_calls_artifacts store_key empty_store artifact_setup _ _ [] ltac:(done)
    (surjective_pairing _)).
Qed.

Definition leased_record : ArtifactRecord :=
  match artifact leased_store (be 16 30) with
  | Some r => r
  | None => mkArtifactRecord [] [] 0 [] [] 0 0 [] None [] None 0 []
  end.

(** Another grant is refused, and the grant that leased the artifact transfers
    and consumes it. *)
Lemma live_lease_exclusive_witness :
  art_active_grant_id leased_record = Some (be 16 40) /\
  lease_kept (be 16 30) (fst (run_calls store_key leased_store transfer)) leased_record
    (artifact (snd (run_calls store_key leased_store transfer)) (be 16 30)).
Proof.
  split; [vm_compute; reflexivity|].
  apply (live_lease_exclusive store_key leased_store transfer
    (fst (run_calls store_key leased_store transfer)) _ (be 16 30) leased_record 500).
  - apply leased_store_keyed.
  - apply surjective_pairing.
  - repeat constructor; intros now [= <-]; lia.
  - vm_compute. reflexivity.
  - vm_compute. reflexivity.
  - vm_compute. reflexivity.
Defined.

Definition consumed_store : EffectDb := snd (run_calls store_key leased_store transfer).

Lemma consumed_store_keyed : keyed consumed_store.
Proof.
  by destruct (run_calls_artifacts store_key leased_store transfer _ _ [] leased_store_keyed
    (surjective_pairing _)).
Qed.

Definition afterwards : list Call :=
  [mkCall (OpRevokeArtifacts (be 16 31)) (Some 17) [];
   mkCall OpReconcileArtifacts (Some 2000) [];
   mkCall (OpLeaseArtifact (lease 42 3000)) (Some 2001) []].

Lemma consumed_artifact_final_witness :
  consumed_as (be 16 31) (be 32 33) 100 (Some (be 16 40)) (artifact consumed_store (be 16 30)) /\
  consumed_as (be 16 31) (be 32 33) 100 (Some (be 16 40))
    (artifact (snd (run_calls store_key consumed_store afterwards)) (be 16 30)).
Proof.
  assert (consumed_as (be 16 31) (be 32 33) 100 (Some (be 16 40))
    (artifact consumed_store (be 16 30))) as Hc.
  { eexists. split; [vm_compute; reflexivity|]. repeat split; vm_compute; reflexivity. }
  split; [exact Hc|].
  apply (consumed_artifact_final store_key consumed_store afterwards
    (fst (run_calls store_key consumed_store afterwards)) _ (be 16 30)).
  - apply consumed_store_keyed.
  - apply surjective_pairing.
  - exact Hc.
Defined.

(** * A desired effect *)

Definition bob (command : Z) : EffectIdentity :=
  mkEffectIdentity (be 16 command) (be 16 (command + 1)) (be 32 5) 1000.

Definition bob_calls : list Call :=
  [mkCall (OpPrepare (str "user_enable") (str "bob") 3 (bob 50) (str "before") (str "after"))
     (Some 10) []].

Definition bob_store : EffectDb := snd (run_calls store_key empty_store bob_calls).

Lemma bob_store_keyed : keyed_effects bob_store.
Proof.
  by destruct (run_calls_desired store_key empty_store bob_calls _ _ ltac:(done)
    (surjective_pairing _)).
Qed.

Lemma desired_revision_monotone_witness :
  exists r, desired bob_store (str "user_enable", str "bob") = Some r /\ er_revision r = 3 /\
    not_older r (desired (snd (run_calls store_key bob_store
      [mkCall (OpPrepare (str "user_enable") (str "bob") 4 (bob 60) (str "after") (str "next"))
         (Some 11) []])) (str "user_enable", str "bob")).
Proof.
  eexists. split; [vm_compute; reflexivity|]. split; [reflexivity|].
  apply (desired_revision_monotone store_key bob_store
    [mkCall (OpPrepare (str "user_enable") (str "bob") 4 (bob 60) (str "after") (str "next"))
       (Some 11) []]
    (fst (run_calls store_key bob_store
       [mkCall (OpPrepare (str "user_enable") (str "bob") 4 (bob 60) (str "after") (str "next"))
          (Some 11) []]))).
  - apply bob_store_keyed.
  - apply surjective_pairing.
  - vm_compute. reflexivity.
Defined.

Definition observed : Conn EffectDb :=
  snd (observe store_key (Some 20) (str "user_enable") (str "bob") 3 (bob 50) (str "after")
    (mkConn bob_store [])).

Lemma observation_sound_witness :
  observed_as store_key bob_store (conn_db observed) (str "user_enable") (str "bob") 3 (bob 50) (str "after")
    (effect_observation StateAppliedExact 3).
Proof.
  apply (observation_sound store_key (Some 20) (str "user_enable") (str "bob") 3 (bob 50)
    (str "after") (mkConn bob_store []) (effect_observation StateAppliedExact 3) observed
    bob_store_keyed).
  rewrite (surjective_pairing (observe _ _ _ _ _ _ _ _)).
  apply (f_equal2 pair); [vm_compute; reflexivity|reflexivity].
Defined.

(** * A stamp *)

Definition alice_row : AuthorizedEffectRecord :=
  mkAuthorizedEffectRecord (be 16 2) (be 16 4) (be 16 1) (be 16 3) (be 32 5) (str "user.enable") 1
    (str "user_enable") (str "alice") 7 1000 (str "prepared") 1 [] (replicate 32 x09).

Lemma stamp_determines_value_witness :
  unstamped (StampAuthorized alice_row) = unstamped (StampAuthorized (aer_seal [] alice_row)) \/
  hmac_collides store_key (preimage (StampAuthorized alice_row))
    (preimage (StampAuthorized (aer_seal [] alice_row))).
Proof.
  apply (stamp_determines_value store_key (StampAuthorized alice_row)
    (StampAuthorized (aer_seal [] alice_row))); [| |reflexivity];
    repeat split; vm_compute; congruence.
Defined.
