(* ===== verification/Attestation.v ===== *)
(** Root-signed evidence, [rust/crates/privd-attestation]: the canonical bytes
    of a result receipt, of an upgrade outcome and of a key registration,
    their validation, and signing and verification.  Ed25519 signing is the
    class [Signer], an extension of [Crypto]. *)

From stdpp Require Import base list gmap numbers countable strings sorting.
From Stdlib Require Import ZArith Lia Bool Strings.Byte.
From S2P Require Import Prelude Bytes Text Contracts ConfigProfile Authorization.
From S2P Require Import CommandAuthorization.

Local Open Scope Z_scope.

(** [ed25519_dalek::SigningKey] and [VerifyingKey::from_bytes]: a signature
    made with a key parses and verifies under its verifying key, and a key is
    determined by its bytes. *)
Class Signer `{Crypto} := {
  SigningKey : Type;
  verifying_key : SigningKey -> VerifyingKey;
  sign : SigningKey -> bytes -> bytes;
  verifying_key_from_bytes : bytes -> option VerifyingKey;
  sign_verifies k m : exists s, signature_from_slice (sign k m) = Some s /\
    verify_strict (verifying_key k) m s = true;
  from_bytes_as_bytes b k : verifying_key_from_bytes b = Some k -> key_as_bytes k = b }.

(** * Enumerations *)

Inductive PrivdReceiptVersion := ReceiptVersionUnspecified | ReceiptV1.

Definition PrivdReceiptVersion_try_from (v : Z) : option PrivdReceiptVersion :=
  match v with 0 => Some ReceiptVersionUnspecified | 1 => Some ReceiptV1 | _ => None end.

Inductive PrivilegedCommandKind :=
| CommandKindUnspecified | CkSessionDisconnect | CkSessionTerminate | CkIpBanRemove
| CkServiceReload | CkUserCreate | CkUserDisable | CkUserEnable | CkUserPasswordRotate
| CkGroupApply | CkConfigPlan | CkConfigApply | CkCertificateCsr | CkCertificateP12
| CkCertificateRevoke | CkAgentUpgrade.

Definition PrivilegedCommandKind_values : list PrivilegedCommandKind :=
  [CommandKindUnspecified; CkSessionDisconnect; CkSessionTerminate; CkIpBanRemove;
   CkServiceReload; CkUserCreate; CkUserDisable; CkUserEnable; CkUserPasswordRotate;
   CkGroupApply; CkConfigPlan; CkConfigApply; CkCertificateCsr; CkCertificateP12;
   CkCertificateRevoke; CkAgentUpgrade].

Definition PrivilegedCommandKind_try_from (v : Z) : option PrivilegedCommandKind :=
  if v <? 0 then None else PrivilegedCommandKind_values !! Z.to_nat v.

Inductive PrivilegedResultKind :=
| ResultKindUnspecified | RkMutation | RkConfigPlan | RkConfigApply | RkCertificateCsr
| RkCertificateP12 | RkCertificateRevoke | RkError | RkAgentUpgradeScheduled.

Definition PrivilegedResultKind_values : list PrivilegedResultKind :=
  [ResultKindUnspecified; RkMutation; RkConfigPlan; RkConfigApply; RkCertificateCsr;
   RkCertificateP12; RkCertificateRevoke; RkError; RkAgentUpgradeScheduled].

Definition PrivilegedResultKind_try_from (v : Z) : option PrivilegedResultKind :=
  if v <? 0 then None else PrivilegedResultKind_values !! Z.to_nat v.

Inductive CommandResultState :=
| ResultStateUnspecified | ResultSucceeded | ResultFailed | ResultUnknown | ResultRejected.

Definition CommandResultState_values : list CommandResultState :=
  [ResultStateUnspecified; ResultSucceeded; ResultFailed; ResultUnknown; ResultRejected].

Definition CommandResultState_try_from (v : Z) : option CommandResultState :=
  if v <? 0 then None else CommandResultState_values !! Z.to_nat v.

Inductive AgentUpgradeOutcomeState :=
| OutcomeUnspecified | OutcomeSucceeded | OutcomeFailed | OutcomeRolledBack.

Definition AgentUpgradeOutcomeState_try_from (v : Z) : option AgentUpgradeOutcomeState :=
  match v with
  | 0 => Some OutcomeUnspecified | 1 => Some OutcomeSucceeded | 2 => Some OutcomeFailed
  | 3 => Some OutcomeRolledBack | _ => None
  end.

#[export] Instance PrivdReceiptVersion_eq_dec : EqDecision PrivdReceiptVersion.
Proof. solve_decision. Defined.
#[export] Instance PrivilegedCommandKind_eq_dec : EqDecision PrivilegedCommandKind.
Proof. solve_decision. Defined.
#[export] Instance PrivilegedResultKind_eq_dec : EqDecision PrivilegedResultKind.
Proof. solve_decision. Defined.
#[export] Instance CommandResultState_eq_dec : EqDecision CommandResultState.
Proof. solve_decision. Defined.
#[export] Instance AgentUpgradeOutcomeState_eq_dec : EqDecision AgentUpgradeOutcomeState.
Proof. solve_decision. Defined.

(** * Messages *)

Record PrivdCertificateReceiptBindingV1 := mkPrivdCertificateReceiptBindingV1 {
  crb_certificate_id : bytes; crb_csr_der_sha256 : bytes; crb_public_key_sha256 : bytes;
  crb_requested_subject_sha256 : bytes; crb_root_effect_record_id : bytes }.

Record PrivdResultReceiptV1 := mkPrivdResultReceiptV1 {
  prr_receipt_version : Z; prr_node_id : bytes; prr_privd_attestation_key_id : bytes;
  prr_command_id : bytes; prr_operation_id : bytes; prr_idempotency_key : bytes;
  prr_semantic_payload_hash_version : Z; prr_semantic_payload_sha256 : bytes;
  prr_command_kind : Z; prr_result_kind : Z; prr_terminal_state : Z;
  prr_result_bytes_sha256 : bytes; prr_error_code_sha256 : bytes; prr_effect_record_id : bytes;
  prr_effect_sequence : Z; prr_accepted_at : option Timestamp; prr_completed_at : option Timestamp;
  prr_replayed : bool; prr_certificate : option PrivdCertificateReceiptBindingV1 }.

Record PrivilegedResultProof := mkPrivilegedResultProof {
  prp_version : Z; prp_receipt_v1 : option PrivdResultReceiptV1; prp_signature : bytes }.

Record AgentUpgradeResultProof := mkAgentUpgradeResultProof {
  aurp_version : Z; aurp_node_id : bytes; aurp_privd_attestation_key_id : bytes;
  aurp_operation_id : bytes; aurp_target_version : bytes; aurp_package_sha256 : bytes;
  aurp_state : Z; aurp_completed_unix_ms : Z; aurp_result_sha256 : bytes; aurp_signature : bytes;
  aurp_attested_unix_ms : Z }.

Record PrivdAttestationRegistrationV1 := mkPrivdAttestationRegistrationV1 {
  par_version : Z; par_node_id : bytes; par_privd_attestation_key_id : bytes;
  par_public_key : bytes; par_controller_nonce : bytes; par_credential_context_sha256 : bytes;
  par_signature : bytes }.

Inductive ReceiptError := ReceiptMissing | UnsupportedVersion | ReceiptMalformed | SignatureInvalidReceipt.

Definition ReceiptError_code (e : ReceiptError) : bytes :=
  match e with
  | ReceiptMissing => str "receipt_missing"
  | UnsupportedVersion => str "receipt_version_unsupported"
  | ReceiptMalformed => str "receipt_malformed"
  | SignatureInvalidReceipt => str "receipt_signature_invalid"
  end.

Definition Receipt (A : Type) : Type := result ReceiptError A.

(** * Fields *)

Definition RECEIPT_DOMAIN : bytes := str "ocservia/privd-result-receipt/v1" ++ [x00].
Definition REGISTRATION_DOMAIN : bytes := str "ocservia/privd-attestation-registration/v1" ++ [x00].
Definition UPGRADE_RESULT_DOMAIN : bytes := str "ocservia/privd-upgrade-result/v1" ++ [x00].
Definition SUBJECT_DOMAIN : bytes := str "ocservia/certificate-requested-subject/v1" ++ [x00].
Definition MAX_CANONICAL_BYTES : Z := 2048.

(** [value[6] >> 4 == 7 && value[8] >> 6 == 2] on a 16-byte slice. *)
Definition uuid_v7 (value : bytes) : bool :=
  bool_decide (length value = 16%nat)
  && match value !! 6%nat, value !! 8%nat with
     | Some a, Some b => (Z.shiftr (byte_val a) 4 =? 7) && (Z.shiftr (byte_val b) 6 =? 2)
     | _, _ => false
     end.

Definition valid_attestation_key_id (value : bytes) : bool :=
  (len value =? len KEY_ID_PREFIX + 64)
  && bool_decide (take (length KEY_ID_PREFIX) value = KEY_ID_PREFIX)
  && forallb (fun b => is_ascii_hexdigit b && negb (is_ascii_uppercase b))
       (drop (length KEY_ID_PREFIX) value).

Definition valid_timestamp (value : Timestamp) : bool :=
  (0 <=? ts_seconds value) && ((0 <=? ts_nanos value) && (ts_nanos value <? 1000000000)).

Definition append_receipt_bytes (output value : bytes) : Receipt bytes :=
  if len value <=? u32_max then Ok (output ++ be 4 (len value) ++ value) else Err ReceiptMalformed.

Definition append_receipt_string (output value : bytes) : Receipt bytes :=
  if is_empty value || (128 <? len value) || negb (forallb is_ascii value)
  then Err ReceiptMalformed else append_receipt_bytes output value.

(** [u32::try_from(value)] of an [i32] enumeration value. *)
Definition append_enumeration (output : bytes) (value : Z) : Receipt bytes :=
  match u32_try_from value with
  | Some v => Ok (output ++ be 4 v)
  | None => Err ReceiptMalformed
  end.

Definition append_timestamp (output : bytes) (value : Timestamp) : Receipt bytes :=
  if negb (valid_timestamp value) then Err ReceiptMalformed
  else append_enumeration (output ++ be 8 (ts_seconds value)) (ts_nanos value).

Definition append_certificate (output : bytes) (value : option PrivdCertificateReceiptBindingV1)
  : Receipt bytes :=
  match value with
  | None => Ok (output ++ [x00])
  | Some v =>
      let output := output ++ [x01] in
      let? output := append_receipt_bytes output (crb_certificate_id v) in
      let? output := append_receipt_bytes output (crb_csr_der_sha256 v) in
      let? output := append_receipt_bytes output (crb_public_key_sha256 v) in
      let? output := append_receipt_bytes output (crb_requested_subject_sha256 v) in
      append_receipt_bytes output (crb_root_effect_record_id v)
  end.

Definition certificate_command (command : PrivilegedCommandKind) : bool :=
  match command with
  | CkCertificateCsr | CkCertificateP12 | CkCertificateRevoke => true
  | _ => false
  end.

Definition valid_certificate_binding (command : PrivilegedCommandKind) (result : PrivilegedResultKind)
  (binding : option PrivdCertificateReceiptBindingV1) : bool :=
  match binding with
  | None => negb (certificate_command command)
  | Some b =>
      if negb (certificate_command command) || negb (uuid_v7 (crb_certificate_id b))
         || (len (crb_root_effect_record_id b) <? 16) || (32 <? len (crb_root_effect_record_id b))
      then false
      else if bool_decide (result = RkCertificateCsr) then
        (len (crb_csr_der_sha256 b) =? 32) && (len (crb_public_key_sha256 b) =? 32)
        && (len (crb_requested_subject_sha256 b) =? 32)
      else
        is_empty (crb_csr_der_sha256 b) && is_empty (crb_public_key_sha256 b)
        && is_empty (crb_requested_subject_sha256 b)
  end.

(** * Receipts *)

Definition validate_receipt (receipt : PrivdResultReceiptV1) : Receipt unit :=
  let version := default ReceiptVersionUnspecified
    (PrivdReceiptVersion_try_from (prr_receipt_version receipt)) in
  let semantic := default HashUnspecified
    (SemanticPayloadHashVersion_try_from (prr_semantic_payload_hash_version receipt)) in
  let command := default CommandKindUnspecified
    (PrivilegedCommandKind_try_from (prr_command_kind receipt)) in
  let result := default ResultKindUnspecified
    (PrivilegedResultKind_try_from (prr_result_kind receipt)) in
  let state := default ResultStateUnspecified
    (CommandResultState_try_from (prr_terminal_state receipt)) in
  let? accepted := ok_or (prr_accepted_at receipt) ReceiptMalformed in
  let? completed := ok_or (prr_completed_at receipt) ReceiptMalformed in
  if bool_decide (version <> ReceiptV1)
     || negb (uuid_v7 (prr_node_id receipt)) || negb (uuid_v7 (prr_command_id receipt))
     || negb (uuid_v7 (prr_operation_id receipt)) || negb (uuid_v7 (prr_idempotency_key receipt))
     || negb (valid_attestation_key_id (prr_privd_attestation_key_id receipt))
     || negb (bool_decide (semantic = HashV1) || bool_decide (semantic = HashV2))
     || bool_decide (command = CommandKindUnspecified)
     || bool_decide (result = ResultKindUnspecified)
     || negb (bool_decide (state = ResultSucceeded) || bool_decide (state = ResultFailed))
     || negb (len (prr_semantic_payload_sha256 receipt) =? 32)
     || negb (len (prr_result_bytes_sha256 receipt) =? 32)
     || negb (len (prr_error_code_sha256 receipt) =? 32)
     || negb ((16 <=? len (prr_effect_record_id receipt)) && (len (prr_effect_record_id receipt) <=? 32))
     || (prr_effect_sequence receipt =? 0)
     || negb (valid_timestamp accepted) || negb (valid_timestamp completed)
     || negb (pair_leb (ts_seconds accepted) (ts_nanos accepted)
                (ts_seconds completed) (ts_nanos completed))
     || negb (valid_certificate_binding command result (prr_certificate receipt))
  then Err ReceiptMalformed else Ok tt.

Definition canonical_receipt_v1 (receipt : PrivdResultReceiptV1) : Receipt bytes :=
  let? _ := validate_receipt receipt in
  let? accepted := ok_or (prr_accepted_at receipt) ReceiptMalformed in
  let? completed := ok_or (prr_completed_at receipt) ReceiptMalformed in
  let? e := append_enumeration RECEIPT_DOMAIN (prr_receipt_version receipt) in
  let? e := append_receipt_bytes e (prr_node_id receipt) in
  let? e := append_receipt_string e (prr_privd_attestation_key_id receipt) in
  let? e := append_receipt_bytes e (prr_command_id receipt) in
  let? e := append_receipt_bytes e (prr_operation_id receipt) in
  let? e := append_receipt_bytes e (prr_idempotency_key receipt) in
  let? e := append_enumeration e (prr_semantic_payload_hash_version receipt) in
  let? e := append_receipt_bytes e (prr_semantic_payload_sha256 receipt) in
  let? e := append_enumeration e (prr_command_kind receipt) in
  let? e := append_enumeration e (prr_result_kind receipt) in
  let? e := append_enumeration e (prr_terminal_state receipt) in
  let? e := append_receipt_bytes e (prr_result_bytes_sha256 receipt) in
  let? e := append_receipt_bytes e (prr_error_code_sha256 receipt) in
  let? e := append_receipt_bytes e (prr_effect_record_id receipt) in
  let e := e ++ be 8 (prr_effect_sequence receipt) in
  let? e := append_timestamp e accepted in
  let? e := append_timestamp e completed in
  let e := e ++ [if prr_replayed receipt then x01 else x00] in
  let? e := append_certificate e (prr_certificate receipt) in
  if MAX_CANONICAL_BYTES <? len e then Err ReceiptMalformed else Ok e.

(** * Upgrade outcomes *)

Definition validate_upgrade_result (proof : AgentUpgradeResultProof) : Receipt unit :=
  let version := default ReceiptVersionUnspecified (PrivdReceiptVersion_try_from (aurp_version proof)) in
  let state := default OutcomeUnspecified (AgentUpgradeOutcomeState_try_from (aurp_state proof)) in
  if bool_decide (version <> ReceiptV1)
     || negb (uuid_v7 (aurp_node_id proof)) || negb (uuid_v7 (aurp_operation_id proof))
     || negb (valid_attestation_key_id (aurp_privd_attestation_key_id proof))
     || negb (valid_target_version (aurp_target_version proof))
     || negb (len (aurp_package_sha256 proof) =? 32)
     || bool_decide (state = OutcomeUnspecified)
     || (aurp_completed_unix_ms proof =? 0) || (i64_max <? aurp_completed_unix_ms proof)
     || negb (len (aurp_result_sha256 proof) =? 32)
     || (aurp_attested_unix_ms proof =? 0) || (i64_max <? aurp_attested_unix_ms proof)
     || (aurp_attested_unix_ms proof <? aurp_completed_unix_ms proof)
  then Err ReceiptMalformed else Ok tt.

Definition canonical_upgrade_result_v1 (proof : AgentUpgradeResultProof) : Receipt bytes :=
  let? _ := validate_upgrade_result proof in
  let? e := append_enumeration UPGRADE_RESULT_DOMAIN (aurp_version proof) in
  let? e := append_receipt_bytes e (aurp_node_id proof) in
  let? e := append_receipt_string e (aurp_privd_attestation_key_id proof) in
  let? e := append_receipt_bytes e (aurp_operation_id proof) in
  let? e := append_receipt_string e (aurp_target_version proof) in
  let? e := append_receipt_bytes e (aurp_package_sha256 proof) in
  let? e := append_enumeration e (aurp_state proof) in
  let e := e ++ be 8 (aurp_completed_unix_ms proof) in
  let? e := append_receipt_bytes e (aurp_result_sha256 proof) in
  let e := e ++ be 8 (aurp_attested_unix_ms proof) in
  if MAX_CANONICAL_BYTES <? len e then Err ReceiptMalformed else Ok e.

Section Signing.
Context `{Signer}.

Definition key_id (key : VerifyingKey) : bytes :=
  KEY_ID_PREFIX ++ hex_encode (sha256 (key_as_bytes key)).

(** [Signature::from_slice] and [verify_strict]. *)
Definition check_receipt_signature (key : VerifyingKey) (canonical signature : bytes) : Receipt unit :=
  match signature_from_slice signature with
  | None => Err ReceiptMalformed
  | Some s => if verify_strict key canonical s then Ok tt else Err SignatureInvalidReceipt
  end.

Definition sign_receipt (receipt : PrivdResultReceiptV1) (key : SigningKey) : Receipt PrivilegedResultProof :=
  let? canonical := canonical_receipt_v1 receipt in
  if bool_decide (prr_privd_attestation_key_id receipt <> key_id (verifying_key key))
  then Err ReceiptMalformed
  else Ok (mkPrivilegedResultProof 1 (Some receipt) (sign key canonical)).

Definition verify_receipt (proof : PrivilegedResultProof) (key : VerifyingKey)
  : Receipt PrivdResultReceiptV1 :=
  if bool_decide (default ReceiptVersionUnspecified (PrivdReceiptVersion_try_from (prp_version proof))
                  <> ReceiptV1) then Err UnsupportedVersion
  else
    let? receipt := ok_or (prp_receipt_v1 proof) ReceiptMissing in
    if bool_decide (prr_privd_attestation_key_id receipt <> key_id key) then Err ReceiptMalformed
    else
      let? canonical := canonical_receipt_v1 receipt in
      let? _ := check_receipt_signature key canonical (prp_signature proof) in
      Ok receipt.

Definition with_upgrade_signature (signature : bytes) (proof : AgentUpgradeResultProof)
  : AgentUpgradeResultProof :=
  mkAgentUpgradeResultProof (aurp_version proof) (aurp_node_id proof)
    (aurp_privd_attestation_key_id proof) (aurp_operation_id proof) (aurp_target_version proof)
    (aurp_package_sha256 proof) (aurp_state proof) (aurp_completed_unix_ms proof)
    (aurp_result_sha256 proof) signature (aurp_attested_unix_ms proof).

Definition sign_upgrade_result (proof : AgentUpgradeResultProof) (key : SigningKey)
  : Receipt AgentUpgradeResultProof :=
  let proof := with_upgrade_signature [] proof in
  let? canonical := canonical_upgrade_result_v1 proof in
  if bool_decide (aurp_privd_attestation_key_id proof <> key_id (verifying_key key))
  then Err ReceiptMalformed
  else Ok (with_upgrade_signature (sign key canonical) proof).

Definition verify_upgrade_result (proof : AgentUpgradeResultProof) (key : VerifyingKey)
  : Receipt AgentUpgradeResultProof :=
  if bool_decide (default ReceiptVersionUnspecified (PrivdReceiptVersion_try_from (aurp_version proof))
                  <> ReceiptV1) then Err UnsupportedVersion
  else if bool_decide (aurp_privd_attestation_key_id proof <> key_id key) then Err ReceiptMalformed
  else
    let? canonical := canonical_upgrade_result_v1 proof in
    let? _ := check_receipt_signature key canonical (aurp_signature proof) in
    Ok proof.

Definition receipt_digest (receipt : PrivdResultReceiptV1) : Receipt bytes :=
  let? canonical := canonical_receipt_v1 receipt in Ok (sha256 canonical).

(** * Key registration *)

Definition canonical_registration_v1 (registration : PrivdAttestationRegistrationV1) : Receipt bytes :=
  if bool_decide (default ReceiptVersionUnspecified
                    (PrivdReceiptVersion_try_from (par_version registration)) <> ReceiptV1)
     || negb (uuid_v7 (par_node_id registration))
     || negb (len (par_public_key registration) =? 32)
     || negb (len (par_controller_nonce registration) =? 32)
     || negb (len (par_credential_context_sha256 registration) =? 32)
     || negb (valid_attestation_key_id (par_privd_attestation_key_id registration))
  then Err ReceiptMalformed
  else
    let? verifying := ok_or (verifying_key_from_bytes (par_public_key registration)) ReceiptMalformed in
    if bool_decide (par_privd_attestation_key_id registration <> key_id verifying)
    then Err ReceiptMalformed
    else
      let? e := append_enumeration REGISTRATION_DOMAIN (par_version registration) in
      let? e := append_receipt_bytes e (par_node_id registration) in
      let? e := append_receipt_string e (par_privd_attestation_key_id registration) in
      let? e := append_receipt_bytes e (par_public_key registration) in
      let? e := append_receipt_bytes e (par_controller_nonce registration) in
      append_receipt_bytes e (par_credential_context_sha256 registration).

Definition with_registration_signature (signature : bytes) (r : PrivdAttestationRegistrationV1)
  : PrivdAttestationRegistrationV1 :=
  mkPrivdAttestationRegistrationV1 (par_version r) (par_node_id r) (par_privd_attestation_key_id r)
    (par_public_key r) (par_controller_nonce r) (par_credential_context_sha256 r) signature.

Definition sign_registration (registration : PrivdAttestationRegistrationV1) (key : SigningKey)
  : Receipt PrivdAttestationRegistrationV1 :=
  let registration := with_registration_signature [] registration in
  let? canonical := canonical_registration_v1 registration in
  Ok (with_registration_signature (sign key canonical) registration).

(** * Requested subjects *)

(** [names.sort()] *)
Definition name_le (a b : bytes) : Prop := bytes_leb a b = true.

#[local] Instance name_le_dec a b : Decision (name_le a b).
Proof. unfold name_le. apply _. Defined.

(** [names.windows(2).any(|pair| pair[0] == pair[1])] *)
Fixpoint adjacent_equal (l : list bytes) : bool :=
  match l with
  | a :: ((b :: _) as rest) => bool_decide (a = b) || adjacent_equal rest
  | _ => false
  end.

Fixpoint append_subject_names (e : bytes) (names : list bytes) : Receipt bytes :=
  match names with
  | [] => Ok e
  | name :: rest =>
      if is_empty name || (253 <? len name) || existsb is_ascii_uppercase name
      then Err ReceiptMalformed
      else let? e := append_receipt_string e name in append_subject_names e rest
  end.

Definition requested_subject_digest (request : CertificateCsr) : Receipt bytes :=
  if negb (uuid_v7 (csr_certificate_id request)) || is_empty (csr_common_name request)
     || (253 <? len (csr_common_name request))
     || negb ((2048 <=? csr_key_bits request) && (csr_key_bits request <=? 8192))
     || (64 <? len (csr_dns_names request))
  then Err ReceiptMalformed
  else
    let names := merge_sort name_le (csr_dns_names request) in
    if adjacent_equal names then Err ReceiptMalformed
    else
      let? e := append_receipt_bytes SUBJECT_DOMAIN (csr_certificate_id request) in
      let? e := append_receipt_string e (csr_common_name request) in
      let e := e ++ be 4 (csr_key_bits request) in
      let? e := append_enumeration e (len names) in
      let? e := append_subject_names e names in
      Ok (sha256 e).
End Signing.
