(* ===== verification/AttestationTheorems.v ===== *)
(** Root-signed evidence is authentic: the canonical bytes determine every
    claim of every kind of evidence, signing then verifying returns the
    evidence, and verification accepts nothing else. *)

From stdpp Require Import base list gmap numbers countable strings sorting.
From Stdlib Require Import ZArith Lia Bool Strings.Byte.
From S2P Require Import Prelude Bytes Text Contracts ConfigProfile Authorization.
From S2P Require Import CommandAuthorization Attestation.

Local Open Scope Z_scope.

(** * What is appended *)

Lemma append_receipt_bytes_ok e v e' :
  append_receipt_bytes e v = Ok e' -> e' = e ++ lp v /\ fits_u32 v.
Proof.
  unfold append_receipt_bytes, fits_u32. destruct (Z.leb_spec (len v) u32_max); [|done].
  by intros [= <-].
Qed.

Lemma append_receipt_string_ok e v e' :
  append_receipt_string e v = Ok e' -> e' = e ++ lp v /\ fits_u32 v.
Proof.
  unfold append_receipt_string. destruct (_ || _); [done|]. apply append_receipt_bytes_ok.
Qed.

Lemma append_enumeration_ok e v e' :
  append_enumeration e v = Ok e' -> e' = e ++ be 4 v /\ in_u32 v.
Proof.
  unfold append_enumeration, u32_try_from. case_bool_decide; [|done]. by intros [= <-].
Qed.

(** Seconds and nanoseconds. *)
Definition timestamp_bytes (t : Timestamp) : bytes := be 8 (ts_seconds t) ++ be 4 (ts_nanos t).
Definition timestamp_typed (t : Timestamp) : Prop := in_i64 (ts_seconds t) /\ in_u32 (ts_nanos t).

Lemma append_timestamp_ok e t e' :
  append_timestamp e t = Ok e' -> e' = e ++ timestamp_bytes t /\ in_u32 (ts_nanos t).
Proof.
  unfold append_timestamp. destruct (negb _); [done|]. intros [-> ?]%append_enumeration_ok.
  unfold timestamp_bytes. by rewrite app_assoc.
Qed.

#[export] Instance timestamp_code : PrefixCode timestamp_typed timestamp_bytes.
Proof.
  intros t1 t2 r1 r2 [D1 E1] [D2 E2]. unfold timestamp_bytes. rewrite <- !app_assoc. intros E.
  apply (prefix_code (PrefixCode := be_i64_code)) in E as [Es E]; [|done..].
  apply (prefix_code (PrefixCode := be_u32_code)) in E as [En ->]; [|done..].
  destruct t1, t2; simpl in *. by subst.
Qed.

Definition certificate_bytes (o : option PrivdCertificateReceiptBindingV1) : bytes :=
  match o with
  | None => [x00]
  | Some b => x01 :: lps [crb_certificate_id b; crb_csr_der_sha256 b; crb_public_key_sha256 b;
                          crb_requested_subject_sha256 b; crb_root_effect_record_id b]
  end.

Definition certificate_fits (o : option PrivdCertificateReceiptBindingV1) : Prop :=
  match o with
  | None => True
  | Some b => Forall fits_u32 [crb_certificate_id b; crb_csr_der_sha256 b; crb_public_key_sha256 b;
                               crb_requested_subject_sha256 b; crb_root_effect_record_id b]
  end.

Lemma append_certificate_ok e o e' :
  append_certificate e o = Ok e' -> e' = e ++ certificate_bytes o /\ certificate_fits o.
Proof.
  destruct o as [b|]; simpl; [|by intros [= <-]]. intros E. invert_ok E.
  repeat match goal with H : append_receipt_bytes _ _ = Ok _ |- _ =>
    apply append_receipt_bytes_ok in H as [-> ?] end.
  split; [|by repeat constructor]. unfold lps. simpl. by rewrite <- !app_assoc, app_nil_r.
Qed.

#[export] Instance certificate_code : PrefixCode certificate_fits certificate_bytes.
Proof.
  intros [b1|] [b2|] r1 r2 D1 D2 E; try discriminate E; apply (f_equal (@tl byte)) in E;
    cbn [certificate_bytes app tl] in E; [|done].
  apply lps_code in E as [E ->]; [|done..]. destruct b1, b2. simpl in E. by simplify_eq.
Qed.

(** * Canonical bytes *)

(** The integers of the messages are machine integers. *)
Definition typed_receipt (r : PrivdResultReceiptV1) : Prop :=
  in_u64 (prr_effect_sequence r) /\
  (forall t, prr_accepted_at r = Some t -> in_i64 (ts_seconds t)) /\
  (forall t, prr_completed_at r = Some t -> in_i64 (ts_seconds t)).

Definition typed_upgrade (p : AgentUpgradeResultProof) : Prop :=
  in_u64 (aurp_completed_unix_ms p) /\ in_u64 (aurp_attested_unix_ms p).

(** A receipt's bytes, field by field. *)
Definition receipt_layout (r : PrivdResultReceiptV1) (accepted completed : Timestamp) : bytes :=
  be 4 (prr_receipt_version r) ++ lp (prr_node_id r) ++ lp (prr_privd_attestation_key_id r)
  ++ lp (prr_command_id r) ++ lp (prr_operation_id r) ++ lp (prr_idempotency_key r)
  ++ be 4 (prr_semantic_payload_hash_version r) ++ lp (prr_semantic_payload_sha256 r)
  ++ be 4 (prr_command_kind r) ++ be 4 (prr_result_kind r) ++ be 4 (prr_terminal_state r)
  ++ lp (prr_result_bytes_sha256 r) ++ lp (prr_error_code_sha256 r) ++ lp (prr_effect_record_id r)
  ++ be 8 (prr_effect_sequence r) ++ timestamp_bytes accepted ++ timestamp_bytes completed
  ++ [if prr_replayed r then x01 else x00] ++ certificate_bytes (prr_certificate r).

Definition receipt_fits (r : PrivdResultReceiptV1) : Prop :=
  in_u32 (prr_receipt_version r) /\ fits_u32 (prr_node_id r) /\
  fits_u32 (prr_privd_attestation_key_id r) /\ fits_u32 (prr_command_id r) /\
  fits_u32 (prr_operation_id r) /\ fits_u32 (prr_idempotency_key r) /\
  in_u32 (prr_semantic_payload_hash_version r) /\ fits_u32 (prr_semantic_payload_sha256 r) /\
  in_u32 (prr_command_kind r) /\ in_u32 (prr_result_kind r) /\ in_u32 (prr_terminal_state r) /\
  fits_u32 (prr_result_bytes_sha256 r) /\ fits_u32 (prr_error_code_sha256 r) /\
  fits_u32 (prr_effect_record_id r) /\ certificate_fits (prr_certificate r).

Ltac appended :=
  repeat match goal with
  | H : append_receipt_bytes _ _ = Ok _ |- _ => apply append_receipt_bytes_ok in H as [-> ?]
  | H : append_receipt_string _ _ = Ok _ |- _ => apply append_receipt_string_ok in H as [-> ?]
  | H : append_enumeration _ _ = Ok _ |- _ => apply append_enumeration_ok in H as [-> ?]
  | H : append_timestamp _ _ = Ok _ |- _ => apply append_timestamp_ok in H as [-> ?]
  | H : append_certificate _ _ = Ok _ |- _ => apply append_certificate_ok in H as [-> ?]
  | H : ok_or ?o _ = Ok _ |- _ => destruct o eqn:?; [injection H as ->|discriminate H]
  end.

Lemma canonical_receipt_layout r e :
  canonical_receipt_v1 r = Ok e ->
  validate_receipt r = Ok tt /\ receipt_fits r /\ len e <= MAX_CANONICAL_BYTES /\
  exists accepted completed, prr_accepted_at r = Some accepted /\ prr_completed_at r = Some completed /\
    in_u32 (ts_nanos accepted) /\ in_u32 (ts_nanos completed) /\
    e = RECEIPT_DOMAIN ++ receipt_layout r accepted completed.
Proof.
  unfold canonical_receipt_v1. intros E. invert_ok E. subst e. appended.
  destruct a. split; [done|]. split; [unfold receipt_fits; by split_and!|].
  split; [by apply Z.ltb_ge|]. eexists _, _. split_and!; [done..|].
  unfold receipt_layout. by rewrite <- !app_assoc.
Qed.

Ltac take code H :=
  let F := fresh "Hfield" in
  apply (prefix_code (PrefixCode := code)) in H as [F H]; [|assumption..].

Lemma flag_code (b1 b2 : bool) (r1 r2 : bytes) :
  [if b1 then x01 else x00] ++ r1 = [if b2 then x01 else x00] ++ r2 -> b1 = b2 /\ r1 = r2.
Proof. destruct b1, b2; intros [= ->]; done. Qed.

Lemma receipt_layout_inj r1 r2 a1 a2 c1 c2 :
  receipt_fits r1 -> receipt_fits r2 ->
  in_u64 (prr_effect_sequence r1) -> in_u64 (prr_effect_sequence r2) ->
  timestamp_typed a1 -> timestamp_typed a2 -> timestamp_typed c1 -> timestamp_typed c2 ->
  prr_accepted_at r1 = Some a1 -> prr_accepted_at r2 = Some a2 ->
  prr_completed_at r1 = Some c1 -> prr_completed_at r2 = Some c2 ->
  receipt_layout r1 a1 c1 = receipt_layout r2 a2 c2 -> r1 = r2.
Proof.
  unfold receipt_fits, receipt_layout. intros F1 F2. destruct_and!.
  intros S1 S2 Ta1 Ta2 Tc1 Tc2 A1 A2 C1 C2 E.
  take be_u32_code E. do 5 take lp_code E. take be_u32_code E. take lp_code E.
  do 3 take be_u32_code E. do 3 take lp_code E. take be_u64_code E.
  take timestamp_code E. take timestamp_code E. apply flag_code in E as [Hflag E].
  rewrite <- (app_nil_r (certificate_bytes (prr_certificate r1))),
    <- (app_nil_r (certificate_bytes (prr_certificate r2))) in E. take certificate_code E.
  destruct r1, r2; simpl in *. subst. done.
Qed.

Lemma canonical_receipt_inj r1 r2 e :
  typed_receipt r1 -> typed_receipt r2 ->
  canonical_receipt_v1 r1 = Ok e -> canonical_receipt_v1 r2 = Ok e -> r1 = r2.
Proof.
  intros (S1 & TA1 & TC1) (S2 & TA2 & TC2) E1 E2.
  apply canonical_receipt_layout in E1 as (_ & F1 & _ & a1 & c1 & A1 & C1 & Na1 & Nc1 & ->).
  apply canonical_receipt_layout in E2 as (_ & F2 & _ & a2 & c2 & A2 & C2 & Na2 & Nc2 & E).
  apply (inj (app RECEIPT_DOMAIN)) in E.
  eapply receipt_layout_inj; try done; split; auto.
Qed.

Definition upgrade_layout (p : AgentUpgradeResultProof) : bytes :=
  be 4 (aurp_version p) ++ lp (aurp_node_id p) ++ lp (aurp_privd_attestation_key_id p)
  ++ lp (aurp_operation_id p) ++ lp (aurp_target_version p) ++ lp (aurp_package_sha256 p)
  ++ be 4 (aurp_state p) ++ be 8 (aurp_completed_unix_ms p) ++ lp (aurp_result_sha256 p)
  ++ be 8 (aurp_attested_unix_ms p).

Definition upgrade_fits (p : AgentUpgradeResultProof) : Prop :=
  in_u32 (aurp_version p) /\ fits_u32 (aurp_node_id p) /\
  fits_u32 (aurp_privd_attestation_key_id p) /\ fits_u32 (aurp_operation_id p) /\
  fits_u32 (aurp_target_version p) /\ fits_u32 (aurp_package_sha256 p) /\ in_u32 (aurp_state p) /\
  fits_u32 (aurp_result_sha256 p).

Lemma canonical_upgrade_layout p e :
  canonical_upgrade_result_v1 p = Ok e ->
  upgrade_fits p /\ e = UPGRADE_RESULT_DOMAIN ++ upgrade_layout p.
Proof.
  unfold canonical_upgrade_result_v1. intros E. invert_ok E. subst e. appended.
  split; [unfold upgrade_fits; by split_and!|]. unfold upgrade_layout. by rewrite <- !app_assoc.
Qed.

Lemma canonical_upgrade_inj p1 p2 e :
  typed_upgrade p1 -> typed_upgrade p2 ->
  canonical_upgrade_result_v1 p1 = Ok e -> canonical_upgrade_result_v1 p2 = Ok e ->
  with_upgrade_signature [] p1 = with_upgrade_signature [] p2.
Proof.
  intros [C1 A1] [C2 A2] [F1 ->]%canonical_upgrade_layout [F2 E]%canonical_upgrade_layout.
  apply (inj (app UPGRADE_RESULT_DOMAIN)) in E. unfold upgrade_fits, upgrade_layout in *.
  destruct_and!. take be_u32_code E. do 5 take lp_code E. take be_u32_code E. take be_u64_code E.
  take lp_code E. apply be_u64_inj in E; [|done..]. unfold with_upgrade_signature.
  destruct p1, p2; simpl in *. subst. done.
Qed.

Section Evidence.
Context `{Signer}.

Definition registration_layout (g : PrivdAttestationRegistrationV1) : bytes :=
  be 4 (par_version g) ++ lps [par_node_id g; par_privd_attestation_key_id g; par_public_key g;
    par_controller_nonce g; par_credential_context_sha256 g].

Lemma canonical_registration_layout g e :
  canonical_registration_v1 g = Ok e ->
  in_u32 (par_version g) /\
  Forall fits_u32 [par_node_id g; par_privd_attestation_key_id g; par_public_key g;
    par_controller_nonce g; par_credential_context_sha256 g] /\
  e = REGISTRATION_DOMAIN ++ registration_layout g.
Proof.
  unfold canonical_registration_v1. intros E. invert_ok E. appended.
  split; [done|]. split; [by repeat constructor|]. unfold registration_layout, lps. simpl.
  by rewrite <- !app_assoc, app_nil_r.
Qed.

Lemma canonical_registration_inj g1 g2 e :
  canonical_registration_v1 g1 = Ok e -> canonical_registration_v1 g2 = Ok e ->
  with_registration_signature [] g1 = with_registration_signature [] g2.
Proof.
  intros (V1 & F1 & ->)%canonical_registration_layout (V2 & F2 & E)%canonical_registration_layout.
  apply (inj (app REGISTRATION_DOMAIN)) in E. unfold registration_layout in E.
  take be_u32_code E. rewrite <- (app_nil_r (lps _)), <- (app_nil_r (lps [par_node_id g2; _; _; _; _])) in E.
  apply lps_code in E as [E _]; [|done..]. unfold with_registration_signature.
  destruct g1, g2; simpl in *. by simplify_eq.
Qed.

(** The three kinds of root-signed evidence. *)
Inductive Evidence :=
| EvReceipt (r : PrivdResultReceiptV1)
| EvUpgrade (p : AgentUpgradeResultProof)
| EvRegistration (g : PrivdAttestationRegistrationV1).

Definition canonical_evidence (ev : Evidence) : Receipt bytes :=
  match ev with
  | EvReceipt r => canonical_receipt_v1 r
  | EvUpgrade p => canonical_upgrade_result_v1 p
  | EvRegistration g => canonical_registration_v1 g
  end.

(** The evidence without the signature it carries. *)
Definition evidence_claims (ev : Evidence) : Evidence :=
  match ev with
  | EvReceipt r => EvReceipt r
  | EvUpgrade p => EvUpgrade (with_upgrade_signature [] p)
  | EvRegistration g => EvRegistration (with_registration_signature [] g)
  end.

Definition typed_evidence (ev : Evidence) : Prop :=
  match ev with
  | EvReceipt r => typed_receipt r
  | EvUpgrade p => typed_upgrade p
  | EvRegistration _ => True
  end.

Lemma evidence_bytes_inj a b e :
  typed_evidence a -> typed_evidence b ->
  canonical_evidence a = Ok e -> canonical_evidence b = Ok e -> evidence_claims a = evidence_claims b.
Proof.
  assert (forall ev, canonical_evidence ev = Ok e -> exists rest, e =
    match ev with EvReceipt _ => RECEIPT_DOMAIN | EvUpgrade _ => UPGRADE_RESULT_DOMAIN
                | EvRegistration _ => REGISTRATION_DOMAIN end ++ rest) as Dom.
  { intros [r|p|g]; cbn [canonical_evidence]; intros E.
    - apply canonical_receipt_layout in E as (_ & _ & _ & a1 & c1 & _ & _ & _ & _ & ->). eauto.
    - apply canonical_upgrade_layout in E as [_ ->]. eauto.
    - apply canonical_registration_layout in E as (_ & _ & ->). eauto. }
  intros Ta Tb Ea Eb. destruct (Dom a Ea) as [ra Da], (Dom b Eb) as [rb Db].
  destruct a, b; cbn [evidence_claims];
    try (exfalso; rewrite Da in Db; revert Db; apply diverge_app; reflexivity).
  - f_equal. by eapply canonical_receipt_inj.
  - f_equal. by eapply canonical_upgrade_inj.
  - f_equal. by eapply canonical_registration_inj.
Qed.

(** ** Signing and verifying *)

(** Everything that verifies under the key is evidence that was signed. *)
Definition root_unforged (key : VerifyingKey) (signed : Evidence -> Prop) : Prop :=
  forall m s, verify_strict key m s = true ->
  exists ev, signed ev /\ typed_evidence ev /\ canonical_evidence ev = Ok m.

Lemma check_receipt_signature_ok key m signature u :
  check_receipt_signature key m signature = Ok u ->
  exists s, signature_from_slice signature = Some s /\ verify_strict key m s = true.
Proof.
  unfold check_receipt_signature. destruct (signature_from_slice signature) as [s|]; [|done].
  destruct (verify_strict key m s) eqn:E; [|done]. eauto.
Qed.

Lemma verify_receipt_ok proof key r :
  verify_receipt proof key = Ok r ->
  prp_receipt_v1 proof = Some r /\ prr_privd_attestation_key_id r = key_id key /\
  exists m s, canonical_receipt_v1 r = Ok m /\ verify_strict key m s = true.
Proof.
  unfold verify_receipt. intros E. invert_ok E. subst. appended. split_guards. stabilise.
  apply check_receipt_signature_ok in Hstep1 as (s & _ & Hs). split_and!; [done|done|]. eauto.
Qed.

Lemma verify_upgrade_ok proof key p :
  verify_upgrade_result proof key = Ok p ->
  p = proof /\ aurp_privd_attestation_key_id p = key_id key /\
  exists m s, canonical_upgrade_result_v1 p = Ok m /\ verify_strict key m s = true.
Proof.
  unfold verify_upgrade_result. intros E. invert_ok E. subst. split_guards. stabilise.
  apply check_receipt_signature_ok in Hstep0 as (s & _ & Hs). split_and!; [done|done|]. eauto.
Qed.

(** C34. A receipt or an upgrade outcome that verifies under the registered
    root key is the one root signed: with a key whose verifying messages are
    evidence that was signed, [verify_receipt] returns a receipt that was
    signed as a receipt with exactly these fields, naming the key, and
    [verify_upgrade_result] returns an outcome that was signed as an outcome
    with exactly these claims.  A signature over one kind of evidence is never
    accepted for another. *)
Theorem root_evidence_authentic key signed :
  root_unforged key signed ->
  (forall proof r, typed_receipt r -> verify_receipt proof key = Ok r ->
     signed (EvReceipt r) /\ prp_receipt_v1 proof = Some r /\ validate_receipt r = Ok tt /\
     prr_privd_attestation_key_id r = key_id key) /\
  (forall proof p, typed_upgrade p -> verify_upgrade_result proof key = Ok p ->
     p = proof /\ aurp_privd_attestation_key_id p = key_id key /\
     exists q, signed (EvUpgrade q) /\ with_upgrade_signature [] q = with_upgrade_signature [] p).
Proof.
  intros U. split.
  - intros proof r T (Hp & Hk & m & s & Hm & Hs)%verify_receipt_ok.
    destruct (U m s Hs) as (ev & Sev & Tev & Cev).
    pose proof (evidence_bytes_inj ev (EvReceipt r) m Tev T Cev Hm) as E.
    destruct ev; simpl in E; try discriminate E. injection E as ->.
    apply canonical_receipt_layout in Hm as (V & _). done.
  - intros proof p T (Hp & Hk & m & s & Hm & Hs)%verify_upgrade_ok.
    destruct (U m s Hs) as (ev & Sev & Tev & Cev).
    pose proof (evidence_bytes_inj ev (EvUpgrade p) m Tev T Cev Hm) as E.
    destruct ev as [|q|]; simpl in E; try discriminate E. injection E as E.
    split_and!; [done|done|]. exists q. split; [done|]. unfold with_upgrade_signature.
    destruct p, q; simpl in *. by simplify_eq.
Qed.

Lemma check_own_signature k m : check_receipt_signature (verifying_key k) m (sign k m) = Ok tt.
Proof.
  unfold check_receipt_signature. destruct (sign_verifies k m) as (s & -> & Hs). by rewrite Hs.
Qed.

(** A signed receipt is valid, and verifies under the key that signed it. *)
Lemma signed_receipt r k proof :
  sign_receipt r k = Ok proof ->
  validate_receipt r = Ok tt /\ verify_receipt proof (verifying_key k) = Ok r.
Proof.
  intros E. unfold sign_receipt in E. invert_ok E. subst proof.
  split; [by apply canonical_receipt_layout in Hstep as (V & _)|].
  unfold verify_receipt. simpl. rewrite Hguard, Hstep, check_own_signature. done.
Qed.

(** A valid receipt was accepted no later than completed. *)
Lemma receipt_times r :
  validate_receipt r = Ok tt -> exists a c, prr_accepted_at r = Some a /\ prr_completed_at r = Some c
    /\ ts_seconds a <= ts_seconds c.
Proof.
  unfold validate_receipt. destruct (prr_accepted_at r) as [a|]; [|done].
  destruct (prr_completed_at r) as [c|]; [|done]. cbn [ok_or]. destruct (_ || _) eqn:G; [done|]. intros _.
  exists a, c. split_and!; [done|done|]. rewrite !orb_false_iff in G. unfold pair_leb in G. lia.
Qed.

(** Evidence survives the way from root to the Controller: what
    [sign_receipt] and [sign_upgrade_result] produce verifies under the key
    that signed it and yields the receipt, or the outcome, that was signed;
    the claims of an upgrade outcome are not changed by signing it. *)
Theorem signed_evidence_verifies k :
  (forall r proof, sign_receipt r k = Ok proof -> verify_receipt proof (verifying_key k) = Ok r) /\
  (forall p q, sign_upgrade_result p k = Ok q ->
     verify_upgrade_result q (verifying_key k) = Ok q /\
     with_upgrade_signature [] q = with_upgrade_signature [] p).
Proof.
  split.
  - intros r proof E. by apply signed_receipt in E as [_ V].
  - intros p q E. unfold sign_upgrade_result in E. cbv zeta in E.
    destruct (canonical_upgrade_result_v1 (with_upgrade_signature [] p)) as [m|] eqn:Hm; [|done].
    destruct (bool_decide _) eqn:Hk; [done|]. injection E as <-.
    assert (forall s, canonical_upgrade_result_v1 (with_upgrade_signature s p) = Ok m) as Hs by (intros; exact Hm).
    split; [|by destruct p]. unfold verify_upgrade_result.
    change (with_upgrade_signature (sign k m) (with_upgrade_signature [] p))
      with (with_upgrade_signature (sign k m) p).
    rewrite Hs. cbn [aurp_privd_attestation_key_id aurp_version with_upgrade_signature aurp_signature] in *.
    rewrite Hk, check_own_signature. unfold canonical_upgrade_result_v1, validate_upgrade_result in Hm.
    cbn [aurp_version with_upgrade_signature] in Hm. destruct (bool_decide (_ <> ReceiptV1)); [done|done].
Qed.

(** A certificate request whose common name is longer than 128 bytes has
    no subject digest, although the length check lets names of up to 253
    bytes pass: the digest appends the name with [append_string], which
    refuses more than 128 bytes. *)
Theorem long_common_name_refused request :
  128 < len (csr_common_name request) -> requested_subject_digest request = Err ReceiptMalformed.
Proof.
  intros L. unfold requested_subject_digest. destruct (_ || _) eqn:G; [done|].
  destruct (adjacent_equal _); [done|].
  unfold append_receipt_bytes. destruct (_ <=? u32_max); [|done].
  unfold append_receipt_string. destruct (Z.ltb_spec 128 (len (csr_common_name request))); [|lia].
  by rewrite orb_true_r.
Qed.
End Evidence.

(** * Concrete evidence *)

Definition hex_pair (b : byte) : bytes := [hex_digit (byte_val b / 16); hex_digit (byte_val b mod 16)].
Definition lower_hex_string (b : bytes) : bytes := concat (hex_pair <$> b).

Lemma hex_pair_inj a b : hex_pair a = hex_pair b -> a = b.
Proof.
  assert (forall x, byte_of (16 * default 0 (hex_value (default x00 (hex_pair x !! 0%nat)))
                             + default 0 (hex_value (default x00 (hex_pair x !! 1%nat)))) = x) as Inv.
  { intros []; reflexivity. }
  intros E. by rewrite <- (Inv a), <- (Inv b), E.
Qed.

Lemma lower_hex_string_inj a b : lower_hex_string a = lower_hex_string b -> a = b.
Proof.
  revert b. induction a as [|x a IH]; intros [|y b] E; try done; try discriminate E.
  unfold lower_hex_string in E. simpl in E. injection E as E1 E2 E.
  f_equal; [apply hex_pair_inj; unfold hex_pair; by rewrite E1, E2|by apply IH].
Qed.

(** Two keys: the one under [true] accepts what it signed, a signature being
    the message; the one under [false] accepts the listed messages. *)
Definition root_crypto (messages : list bytes) : Crypto :=
  {| VerifyingKey := bool; Signature := bytes; key_as_bytes := fun k => if k then [x01] else [x00];
     signature_from_slice := Some;
     verify_strict := fun k m s => if k then bool_decide (m = s) else bool_decide (m ∈ messages);
     sha256 := fun b => be 32 (be_value b); hex_encode := lower_hex_string;
     sha256_length := fun b => length_be 32 _; hex_encode_inj := lower_hex_string_inj |}.

Lemma root_sign_verifies messages (k : unit) (m : bytes) :
  exists s : @Signature (root_crypto messages), Some m = Some s /\ bool_decide (m = s) = true.
Proof. exists m. split; [done|]. by apply bool_decide_eq_true. Qed.

Definition root_key_from_bytes (b : bytes) : option bool :=
  if bool_decide (b = [x01]) then Some true else if bool_decide (b = [x00]) then Some false else None.

Lemma root_key_bytes b k : root_key_from_bytes b = Some k -> (if k then [x01] else [x00]) = b.
Proof. unfold root_key_from_bytes. destruct k; repeat case_bool_decide; by intros [=]. Qed.

Definition root_signer (messages : list bytes) : @Signer (root_crypto messages) :=
  @Build_Signer (root_crypto messages) unit (fun _ => true) (fun _ m => m) root_key_from_bytes
    (root_sign_verifies messages) root_key_bytes.

Definition sample_uuid (n : Z) : bytes := be 6 n ++ [x70; x00; x80; x00; x00; x00; x00; x00; x00; x01].

Definition sample_receipt (key : bool) : PrivdResultReceiptV1 :=
  mkPrivdResultReceiptV1 1 (sample_uuid 1) (@key_id (root_crypto []) key)
    (sample_uuid 2) (sample_uuid 3) (sample_uuid 4) 2 (be 32 5) 7 1 1 (be 32 6) (be 32 7)
    (sample_uuid 8) 9 (Some (mkTimestamp 100 1)) (Some (mkTimestamp 101 2)) false None.

Definition sample_messages : list bytes :=
  match canonical_receipt_v1 (sample_receipt false) with Ok m => [m] | Err _ => [] end.

Lemma root_evidence_authentic_witness :
  let C := root_crypto sample_messages in
  @verify_receipt C (mkPrivilegedResultProof 1 (Some (sample_receipt false)) []) false
    = Ok (sample_receipt false) /\
  @EvReceipt (sample_receipt false) = EvReceipt (sample_receipt false).
Proof.
  cbv zeta. split; [vm_compute; reflexivity|].
  apply (@root_evidence_authentic (root_crypto sample_messages) (root_signer sample_messages) false
    (fun ev => ev = EvReceipt (sample_receipt false))) with
    (proof := mkPrivilegedResultProof 1 (Some (sample_receipt false)) []).
  - intros m s E. change (bool_decide (m ∈ sample_messages) = true) in E.
    apply bool_decide_eq_true in E. exists (EvReceipt (sample_receipt false)).
    split; [reflexivity|]. split.
    + split; [unfold in_u64; simpl; lia|]. split; intros t [= <-]; unfold in_i64; simpl; lia.
    + assert (canonical_receipt_v1 (sample_receipt false) = Ok (default [] (head sample_messages)))
        as Hc by (vm_compute; reflexivity).
      assert (sample_messages = [default [] (head sample_messages)]) as Hl by (vm_compute; reflexivity).
      rewrite Hl in E. apply list_elem_of_singleton in E as ->. exact Hc.
  - split; [unfold in_u64; simpl; lia|]. split; intros t [= <-]; unfold in_i64; simpl; lia.
  - vm_compute. reflexivity.
Defined.

Definition sample_proof : PrivilegedResultProof :=
  match @sign_receipt (root_crypto []) (root_signer []) (sample_receipt true) tt with
  | Ok p => p
  | Err _ => mkPrivilegedResultProof 0 None []
  end.

Lemma signed_evidence_verifies_witness :
  @verify_receipt (root_crypto []) sample_proof true = Ok (sample_receipt true).
Proof.
  apply (proj1 (@signed_evidence_verifies (root_crypto []) (root_signer []) tt)).
  vm_compute. reflexivity.
Defined.

Lemma long_common_name_refused_witness :
  @requested_subject_digest (root_crypto [])
    (mkCertificateCsr (sample_uuid 1) (replicate 200 x61) [] 2048) = Err ReceiptMalformed.
Proof. apply (@long_common_name_refused (root_crypto [])). vm_compute. reflexivity. Defined.
