(* ===== verification/Concurrency.v ===== *)
(** Processes that share a state.  A program is a tree of atomic actions on the
    shared state: between two actions of one process the others may move.  An
    action sees a choice, which supplies what the process cannot determine (a
    failing system call, a fresh identifier, a clock reading), and may have to
    wait (for a lock).

    [wp] is the rely-guarantee condition of one program, and [pool_sound] the
    composition theorem: when the guarantee of every process is part of the
    rely of the others, every state of every interleaving satisfies the
    invariant. *)

From stdpp Require Import base gmap list tactics.
From S2P Require Import Prelude.

Declare Scope prog_scope.
Delimit Scope prog_scope with prog.

Section Programs.
Context {S C : Type}.

(** An action of process [tid]: [None] means that it has to wait. *)
Definition Action (B : Type) : Type := nat -> C -> S -> option (B * S).

Inductive Prog (E A : Type) : Type :=
| Done (r : result E A)
| Step {B : Type} (act : Action B) (k : B -> Prog E A).
Arguments Done {E A} r.
Arguments Step {E A B} act k.

Definition pret {E A} (a : A) : Prog E A := Done (Ok a).
Definition pthrow {E A} (e : E) : Prog E A := Done (Err e).
Definition plift {E A} (r : result E A) : Prog E A := Done r.

(** Sequencing on the whole result; [pbind] is [?], and [pcatch] lets the
    caller look at the error. *)
Fixpoint pthen {E F A B} (m : Prog E A) (k : result E A -> Prog F B) : Prog F B :=
  match m with
  | Done r => k r
  | Step act c => Step act (fun b => pthen (c b) k)
  end.

Definition pbind {E A B} (m : Prog E A) (k : A -> Prog E B) : Prog E B :=
  pthen m (fun r => match r with Ok a => k a | Err e => Done (Err e) end).

Definition pmap_err {E F A} (f : E -> F) (m : Prog E A) : Prog F A :=
  pthen m (fun r => Done (map_err f r)).

Definition pcatch {E F A} (m : Prog E A) : Prog F (result E A) :=
  pthen m (fun r => Done (Ok r)).

(** A single action that may fail with an error. *)
Definition act {E B} (f : Action (result E B)) : Prog E B := Step f (fun r => Done r).

(** One process alone, with the choices it meets; [None] when it waits or the
    choices are used up. *)
Fixpoint run_alone {E A} (tid : nat) (m : Prog E A) (choices : list C) (s : S)
  : option (result E A) * S :=
  match m with
  | Done r => (Some r, s)
  | Step a k =>
      match choices with
      | [] => (None, s)
      | c :: rest =>
          match a tid c s with
          | None => (None, s)
          | Some (b, s') => run_alone tid (k b) rest s'
          end
      end
  end.

End Programs.
Arguments Prog S C E A : clear implicits.
Arguments Done {S C E A} r.
Arguments Step {S C E A B} act k.

Notation "x <- m ;; k" := (pbind m (fun x => k))
  (at level 100, m at next level, right associativity) : prog_scope.
Notation "m ;;; k" := (pbind m (fun _ => k))
  (at level 100, right associativity) : prog_scope.

(** A program of a part of the state. *)
Fixpoint zoom {S T C E A} (get : T -> S) (set : S -> T -> T) (m : Prog S C E A) : Prog T C E A :=
  match m with
  | Done r => Done r
  | Step a k =>
      Step (fun tid c t =>
              match a tid c (get t) with
              | None => None
              | Some (b, s') => Some (b, set s' t)
              end) (fun b => zoom get set (k b))
  end.

(** ** Rely and guarantee *)

Section RelyGuarantee.
Context {S C : Type}.
Variable R : S -> S -> Prop.
Variable G : S -> S -> Prop.
Variable permitted : C -> Prop.
Variable tid : nat.

(** From [s], after any moves of the others, every action stays within [G],
    and the program ends in a state and result of [Q], also after further
    moves of the others. *)
Fixpoint wp {E A} (m : Prog S C E A) (Q : result E A -> S -> Prop) (s : S) : Prop :=
  match m with
  | Done r => Q r s /\ forall s1, R s s1 -> Q r s1
  | Step a k => forall s1, R s s1 ->
      forall c b s2, permitted c -> a tid c s1 = Some (b, s2) -> G s1 s2 /\ wp (k b) Q s2
  end.

Lemma wp_mono {E A} (m : Prog S C E A) (Q Q' : result E A -> S -> Prop) s :
  (forall r s, Q r s -> Q' r s) -> wp m Q s -> wp m Q' s.
Proof.
  intros HQ. revert s. induction m as [r|B a k IH]; simpl; intros s H.
  - destruct H as [H0 H]. split; [by apply HQ|]. intros s1 Hs1. by apply HQ, H.
  - intros s1 Hs1 c b s2 Hc E2. destruct (H s1 Hs1 c b s2 Hc E2) as [HG Hw].
    split; [exact HG|by apply IH].
Qed.

Lemma wp_then {E F A B} (m : Prog S C E A) (k : result E A -> Prog S C F B) Q s :
  wp m (fun r s => wp (k r) Q s) s -> wp (pthen m k) Q s.
Proof.
  revert s. induction m as [r|D a c IH]; simpl; intros s H; [exact (proj1 H)|].
  - intros s1 Hs1 ch b s2 Hc E2. destruct (H s1 Hs1 ch b s2 Hc E2) as [HG Hw].
    split; [exact HG|by apply IH].
Qed.

End RelyGuarantee.

(** ** Pools of processes *)

Section Pools.
Context {S C : Type}.
Variable R G : nat -> S -> S -> Prop.
Variable permitted : C -> Prop.
Variable I : S -> Prop.
(** What the system does when a process ends or dies: its locks are freed. *)
Variable release : nat -> S -> S.

Inductive Task : Type :=
| task {E A : Type} (m : Prog S C E A).

Abbreviation Pool := (gmap nat Task).

Variable startable : Task -> Prop.

Inductive pool_step : Pool * S -> Pool * S -> Prop :=
| pool_run (T : Pool) s tid E A B (a : Action B) (k : B -> Prog S C E A) c b s' :
    T !! tid = Some (task (Step a k)) -> permitted c -> a tid c s = Some (b, s') ->
    pool_step (T, s) (<[tid := task (k b)]> T, s')
| pool_start (T : Pool) s tid t :
    T !! tid = None -> startable t -> pool_step (T, s) (<[tid := t]> T, s)
| pool_end (T : Pool) s tid t :
    T !! tid = Some t -> pool_step (T, s) (delete tid T, release tid s).

Definition pool_reach : Pool * S -> Pool * S -> Prop := rtc pool_step.

(** A process that starts, runs undisturbed and ends. *)
Lemma run_alone_steps {E A} (m : Prog S C E A) (T : Pool) tid choices s r s' :
  T !! tid = Some (task m) -> Forall permitted choices -> run_alone tid m choices s = (Some r, s') ->
  pool_reach (T, s) (<[tid := task (Done r)]> T, s').
Proof.
  revert T choices s. induction m as [r0|B a k IH]; simpl; intros T choices s L HP HR.
  - injection HR as -> ->. rewrite insert_id by done. apply rtc_refl.
  - destruct choices as [|c rest]; [done|]. inversion_clear HP as [|? ? Hc Hrest].
    destruct (a tid c s) as [[b s1]|] eqn:Ea; [|done].
    eapply rtc_l; [by eapply pool_run|].
    rewrite <- (insert_insert_eq T tid (task (Done r)) (task (k b))).
    eapply IH; [apply lookup_insert_eq|done|done].
Qed.

Lemma run_alone_reach {E A} (m : Prog S C E A) (T : Pool) tid choices s r s' :
  T !! tid = None -> startable (task m) -> Forall permitted choices ->
  run_alone tid m choices s = (Some r, s') -> pool_reach (T, s) (T, release tid s').
Proof.
  intros L HS HP HR. eapply rtc_l; [by eapply pool_start|].
  etransitivity; [eapply run_alone_steps; [apply lookup_insert_eq|done|exact HR]|].
  rewrite insert_insert_eq. eapply rtc_once.
  assert (delete tid (<[tid:=task (Done r)]> T) = T) as E1 by (apply delete_insert_id; done).
  rewrite <- E1 at 2. eapply pool_end. apply lookup_insert_eq.
Qed.

Definition task_wp (tid : nat) (t : Task) (s : S) : Prop :=
  match t with task m => wp (R tid) (G tid) permitted tid m (fun _ _ => True) s end.

Hypothesis R_refl : forall tid s, R tid s s.
Hypothesis R_trans : forall tid s1 s2 s3, R tid s1 s2 -> R tid s2 s3 -> R tid s1 s3.
Hypothesis G_rely : forall tid tid' s s', tid <> tid' -> I s -> G tid s s' -> R tid' s s'.
Hypothesis G_inv : forall tid s s', I s -> G tid s s' -> I s'.
Hypothesis release_rely : forall tid tid' s, tid <> tid' -> I s -> R tid' s (release tid s).
Hypothesis release_inv : forall tid s, I s -> I (release tid s).
Hypothesis startable_wp : forall tid t s, startable t -> I s -> task_wp tid t s.

Definition pool_ok (p : Pool * S) : Prop :=
  I p.2 /\ forall tid t, p.1 !! tid = Some t -> task_wp tid t p.2.

Lemma task_wp_rely tid t s s' : task_wp tid t s -> R tid s s' -> task_wp tid t s'.
Proof.
  destruct t as [E A m]. destruct m as [r|B a k]; simpl; intros H HR; [done|].
  - intros s1 H1 c b s2 Hc Ha. eapply H; [by eapply R_trans|done|done].
Qed.

Lemma pool_step_ok p p' : pool_ok p -> pool_step p p' -> pool_ok p'.
Proof.
  intros H0 H. revert H0.
  destruct H as [T s tid E A B a k c b s' L Hc Ha|T s tid t L St|T s tid t L];
    intros [HI HT]; simpl in *.
  - pose proof (HT _ _ L) as W. simpl in W.
    destruct (W s (R_refl _ _) c b s' Hc Ha) as [HG Hw].
    split; [by eapply G_inv|]. simpl. intros tid' t' L'.
    destruct (decide (tid = tid')) as [<-|N].
    + rewrite lookup_insert_eq in L'. injection L' as <-. exact Hw.
    + rewrite lookup_insert_ne in L' by done. eapply task_wp_rely; [by apply HT|by eapply G_rely].
  - split; [done|]. simpl. intros tid' t' L'. destruct (decide (tid = tid')) as [<-|N].
    + rewrite lookup_insert_eq in L'. injection L' as <-. by apply startable_wp.
    + rewrite lookup_insert_ne in L' by done. by apply HT.
  - split; [by apply release_inv|]. simpl. intros tid' t' L'.
    destruct (decide (tid = tid')) as [<-|N]; [by rewrite lookup_delete_eq in L'|].
    rewrite lookup_delete_ne in L' by done. eapply task_wp_rely; [by apply HT|by apply release_rely].
Qed.

(** Every reachable state of the pool satisfies the invariant. *)
Lemma pool_sound s p : I s -> pool_reach (∅, s) p -> pool_ok p.
Proof.
  intros HI H. assert (pool_ok (∅, s)) as H0 by (by split).
  revert H0. induction H as [|p1 p2 p3 H1 _ IH]; [done|]. intros H0. by eapply IH, pool_step_ok.
Qed.

(** Any relation between states that every guarantee and every release
    respects holds between two states of a run. *)
Lemma pool_moves (M : S -> S -> Prop) p p' :
  (forall s, M s s) -> (forall s1 s2 s3, M s1 s2 -> M s2 s3 -> M s1 s3) ->
  (forall tid s s', I s -> G tid s s' -> M s s') -> (forall tid s, I s -> M s (release tid s)) ->
  pool_ok p -> pool_reach p p' -> M p.2 p'.2.
Proof.
  intros M_refl M_trans MG Mrel H0 H. revert H0.
  induction H as [|p1 p2 p3 H1 _ IH]; [done|]. intros H0.
  pose proof (pool_step_ok _ _ H0 H1) as H2. eapply M_trans; [|by apply IH].
  clear IH H2. revert H0.
  destruct H1 as [T s tid E A B a k c b s' L Hc Ha|T s tid t L St|T s tid t L];
    intros [HI HT]; simpl in *.
  - pose proof (HT _ _ L) as W. simpl in W.
    destruct (W s (R_refl _ _) c b s' Hc Ha) as [HG _]. by eapply MG.
  - apply M_refl.
  - by apply Mrel.
Qed.

End Pools.
Arguments task {S C E A} m.
Abbreviation Pool S C := (gmap nat (@Task S C)).

(** ** Programs whose steps all move within a relation *)

(** Every step of a program moves the state within [P]. *)
Fixpoint stays {S C E A} (P : S -> S -> Prop) (m : Prog S C E A) : Prop :=
  match m with
  | Done _ => True
  | Step a k => forall tid c s b s', a tid c s = Some (b, s') -> P s s' /\ stays P (k b)
  end.

Lemma stays_then {S C E F A B} (P : S -> S -> Prop) (m : Prog S C E A) (k : result E A -> Prog S C F B) :
  stays P m -> (forall r, stays P (k r)) -> stays P (pthen m k).
Proof.
  intros Hm Hk. induction m as [r|D a c IH]; simpl; [apply Hk|].
  intros tid ch s b s' E0. destruct (Hm tid ch s b s' E0) as [HP HB]. split; [done|by apply IH].
Qed.

Lemma stays_done {S C E A} (P : S -> S -> Prop) (r : result E A) : stays P (Done r : Prog S C E A).
Proof. exact I. Qed.

Lemma stays_bind {S C E A B} (P : S -> S -> Prop) (m : Prog S C E A) (k : A -> Prog S C E B) :
  stays P m -> (forall a, stays P (k a)) -> stays P (pbind m k).
Proof. intros Hm Hk. apply stays_then; [done|]. intros [a|e]; [apply Hk|done]. Qed.

Lemma stays_map_err {S C E F A} (P : S -> S -> Prop) (f : E -> F) (m : Prog S C E A) :
  stays P m -> stays P (pmap_err f m).
Proof. intros Hm. apply stays_then; [done|]. intros r. apply stays_done. Qed.

Lemma stays_catch {S C E F A} (P : S -> S -> Prop) (m : Prog S C E A) :
  stays P m -> stays P (pcatch (F := F) m).
Proof. intros Hm. apply stays_then; [done|]. intros r. apply stays_done. Qed.

Lemma stays_act {S C E B} (P : S -> S -> Prop) (f : Action (S := S) (C := C) (result E B)) :
  (forall tid c s b s', f tid c s = Some (b, s') -> P s s') -> stays P (act f).
Proof. intros H tid c s b s' E0. split; [by eapply H|done]. Qed.

(** A run of such a program stays within the relation. *)
Lemma stays_run {S C E A} (P : S -> S -> Prop) (m : Prog S C E A) tid : 
  (forall s, P s s) -> (forall s1 s2 s3, P s1 s2 -> P s2 s3 -> P s1 s3) -> stays P m ->
  forall choices s, P s (snd (run_alone tid m choices s)).
Proof.
  intros HR HT. induction m as [r|B a k IH]; simpl; intros Hm choices s; [apply HR|].
  destruct choices as [|c rest]; [apply HR|]. destruct (a tid c s) as [[b s1]|] eqn:Ea; [|apply HR].
  destruct (Hm _ _ _ _ _ Ea) as [H1 H2]. eapply HT; [exact H1|by apply IH].
Qed.

(** Triples for programs that share a state, over the rely and guarantee of
    [Concurrency].  Assertions are stable: they survive what the other
    processes may do meanwhile. *)

Section Triples.
Context {S C : Type}.
Variable R : S -> S -> Prop.
Variable G : S -> S -> Prop.
Variable permitted : C -> Prop.
Variable tid : nat.

Class Stable (P : S -> Prop) : Prop := stable d d' : R d d' -> P d -> P d'.

Definition triple {E A} (P : S -> Prop) (m : Prog S C E A) (Q : result E A -> S -> Prop) : Prop :=
  forall d, P d -> wp R G permitted tid m Q d.

#[global] Instance Stable_and P P' : Stable P -> Stable P' -> Stable (fun d => P d /\ P' d).
Proof. intros H1 H2 d d' HR [HP HP']. split; [by apply (H1 d)|by apply (H2 d)]. Qed.

#[global] Instance Stable_pure (p : Prop) : Stable (fun _ => p).
Proof. intros d d' _ Hp. exact Hp. Qed.

#[global] Instance Stable_imp (p : Prop) P : Stable P -> Stable (fun d => p -> P d).
Proof. intros H d d' HR HP Hp. by apply (H d), HP. Qed.

#[global] Instance Stable_forall {A} (P : A -> S -> Prop) :
  (forall a, Stable (P a)) -> Stable (fun d => forall a, P a d).
Proof. intros H d d' HR HP a. by apply (H a d). Qed.

#[global] Instance Stable_exist {A} (P : A -> S -> Prop) :
  (forall a, Stable (P a)) -> Stable (fun d => exists a, P a d).
Proof. intros H d d' HR [a HP]. exists a. by apply (H a d). Qed.

Lemma triple_done {E A} P (r : result E A) Q : Stable P -> (forall d, P d -> Q r d) -> triple P (Done r) Q.
Proof. intros HS H d HP. split; [by apply H|]. intros d1 HR. apply H. by apply (HS d). Qed.

Lemma triple_then {E F A B} P (m : Prog S C E A) M (k : result E A -> Prog S C F B) Q :
  triple P m M -> (forall r, triple (M r) (k r) Q) -> triple P (pthen m k) Q.
Proof.
  intros Hm Hk d HP. apply wp_then. eapply wp_mono; [|by apply Hm]. intros r s HM. by apply Hk.
Qed.

Lemma triple_bind {E A B} P (m : Prog S C E A) M (k : A -> Prog S C E B) Q :
  triple P m M -> (forall a, triple (M (Ok a)) (k a) Q) ->
  (forall e, Stable (M (Err e))) -> (forall e d, M (Err e) d -> Q (Err e) d) ->
  triple P (pbind m k) Q.
Proof.
  intros Hm Hk HS HE. eapply triple_then; [exact Hm|]. intros [a|e]; [apply Hk|].
  apply triple_done; [apply HS|apply HE].
Qed.

Lemma triple_map_err {E F A} P (f : E -> F) (m : Prog S C E A) M Q :
  triple P m M -> (forall r, Stable (M r)) -> (forall r d, M r d -> Q (map_err f r) d) ->
  triple P (pmap_err f m) Q.
Proof. intros Hm HS H. eapply triple_then; [exact Hm|]. intros r. apply triple_done; [apply HS|apply H]. Qed.

Lemma triple_catch {E F A} P (m : Prog S C E A) M (Q : result F (result E A) -> S -> Prop) :
  triple P m M -> (forall r, Stable (M r)) -> (forall r d, M r d -> Q (Ok r) d) ->
  triple P (pcatch m) Q.
Proof. intros Hm HS H. eapply triple_then; [exact Hm|]. intros r. apply triple_done; [apply HS|apply H]. Qed.

Lemma triple_conseq {E A} (P P' : S -> Prop) (m : Prog S C E A) (Q Q' : result E A -> S -> Prop) :
  triple P' m Q' -> (forall d, P d -> P' d) -> (forall r d, Q' r d -> Q r d) -> triple P m Q.
Proof. intros H HP HQ d Hd. eapply wp_mono; [|by apply H, HP]. apply HQ. Qed.

Lemma triple_conj {E A} (P P' : S -> Prop) (m : Prog S C E A) (Q Q' : result E A -> S -> Prop) :
  triple P m Q -> triple P' m Q' -> triple (fun d => P d /\ P' d) m (fun r d => Q r d /\ Q' r d).
Proof.
  intros H1 H2 d [HP HP']. specialize (H1 d HP). specialize (H2 d HP'). clear HP HP'. revert d H1 H2.
  induction m as [r|B a k IH]; intros d H1 H2.
  { destruct H1 as [A1 B1], H2 as [A2 B2]. split; [done|]. intros d1 HR. split; [by apply B1|by apply B2]. }
  intros d1 HR c b d2 Hc Ef. destruct (H1 d1 HR c b d2 Hc Ef) as [HG W1], (H2 d1 HR c b d2 Hc Ef) as [_ W2].
  split; [done|]. by apply IH.
Qed.

(** What no process ever undoes survives a whole program. *)
Lemma triple_frame {E A} (P K : S -> Prop) (m : Prog S C E A) (Q : result E A -> S -> Prop) :
  triple P m Q -> Stable K -> (forall d d', G d d' -> K d -> K d') ->
  triple (fun d => P d /\ K d) m (fun r d => Q r d /\ K d).
Proof.
  intros H HS HG d [HP HK]. specialize (H d HP). clear HP. revert d H HK.
  induction m as [r|B a k IH]; intros d H HK.
  { destruct H as [A1 B1]. split; [done|]. intros d1 HR. split; [by apply B1|by apply (HS d)]. }
  intros d1 HR c b d2 Hc Ef. destruct (H d1 HR c b d2 Hc Ef) as [G1 W].
  split; [done|]. apply IH; [done|]. apply (HG d1); [done|]. by apply (HS d).
Qed.

Lemma triple_act {E B} P (f : Action (result E B)) Q :
  Stable P -> (forall r, Stable (Q r)) ->
  (forall d c r d', P d -> permitted c -> f tid c d = Some (r, d') -> G d d' /\ Q r d') ->
  triple P (act f) Q.
Proof.
  intros HS HQ H d HP d1 HR c r d2 Hc Ef. destruct (H d1 c r d2) as [HG HQ2]; [by apply (HS d)|done|done|].
  split; [done|]. split; [done|]. intros d3 HR3. by apply (HQ r d2).
Qed.

(** Postconditions by outcome; an error need not tell more than the others. *)
Definition post {E A} (P : A -> S -> Prop) (X : S -> Prop) (r : result E A) (d : S) : Prop :=
  match r with Ok a => P a d | Err _ => X d end.

Lemma Stable_post {E A} (P : A -> S -> Prop) X (r : result E A) :
  (forall a, Stable (P a)) -> Stable X -> Stable (post P X r).
Proof. intros HP HX. destruct r as [a|e]; [apply HP|apply HX]. Qed.

Lemma triple_seq {E A B} P (m : Prog S C E A) M X (k : A -> Prog S C E B) Q :
  triple P m (post M X) -> (forall a, triple (M a) (k a) Q) -> Stable X ->
  (forall e d, X d -> Q (Err e) d) -> triple P (pbind m k) Q.
Proof. intros Hm Hk HX HE. eapply triple_bind; [exact Hm|exact Hk|intros e; exact HX|exact HE]. Qed.

Lemma triple_ret {E A} P (a : A) M X : Stable P -> (forall d, P d -> M a d) ->
  triple P (pret a) (post (E := E) M X).
Proof. intros HS H. by apply triple_done. Qed.

Lemma triple_throw {E A} P (e : E) M (X : S -> Prop) : Stable P -> (forall d, P d -> X d) ->
  triple P (pthrow e) (post (A := A) M X).
Proof. intros HS H. by apply triple_done. Qed.

Lemma triple_recode {E F A} P (f : E -> F) (m : Prog S C E A) M X :
  triple P m (post M X) -> (forall a, Stable (M a)) -> Stable X -> triple P (pmap_err f m) (post M X).
Proof.
  intros Hm HM HX. eapply triple_map_err; [exact Hm|intros r; by apply Stable_post|]. by intros [a|e] d.
Qed.

Lemma triple_caught {E F A} P (m : Prog S C E A) M X Y :
  triple P m (post M X) -> (forall a, Stable (M a)) -> Stable X ->
  triple P (pcatch m) (post (E := F) (post M X) Y).
Proof.
  intros Hm HM HX. eapply triple_catch; [exact Hm|intros r; by apply Stable_post|]. by intros [a|e] d.
Qed.

End Triples.
