(* ===== verification/Files.v ===== *)
(** The file system as the root-owned stores use it: a tree of inodes with
    their owner, mode and link count, advisory locks, and the calls of
    [std::fs] and [rustix::fs] the code makes.  A call may fail for reasons of
    its own ([ch_fault]); a failing write leaves a prefix of the data.  Contents
    survive the end of a process; loss of power is not part of the model, so
    that the calls that flush to the medium change nothing. *)

From stdpp Require Import base list gmap numbers countable strings.
From Stdlib Require Import ZArith Lia Bool.
From S2P Require Import Prelude Bytes Concurrency.

Local Open Scope Z_scope.
Local Open Scope prog_scope.

(** The components of an absolute path below the root directory. *)
Abbreviation path := (list bytes).

Inductive FileKind := Directory | Regular (content : bytes) | Symlink | Special.

#[export] Instance FileKind_eq_dec : EqDecision FileKind.
Proof. solve_decision. Defined.

Record Inode := mkInode { ino_kind : FileKind; ino_uid : Z; ino_mode : Z; ino_nlink : Z }.

#[export] Instance Inode_eq_dec : EqDecision Inode.
Proof. solve_decision. Defined.

(** Mode bits, written in octal. *)
Definition oct (a b c : Z) : Z := 64 * a + 8 * b + c.

Definition is_dir (i : Inode) : bool := bool_decide (ino_kind i = Directory).
Definition is_file (i : Inode) : bool := match ino_kind i with Regular _ => true | _ => false end.
Definition is_symlink (i : Inode) : bool := bool_decide (ino_kind i = Symlink).
Definition inode_len (i : Inode) : Z := match ino_kind i with Regular b => len b | _ => 0 end.

(** The tree, and the process that holds the lock on a file. *)
Record Disk := mkDisk { dk_nodes : gmap path Inode; dk_locks : gmap path nat }.

(** The kinds of [io::Error] the code tells apart. *)
Inductive IoKind := NotFound | AlreadyExists | OtherIo.

#[export] Instance IoKind_eq_dec : EqDecision IoKind.
Proof. solve_decision. Defined.

(** What a process meets at one call: whether the call fails, whether a probe
    for existence fails, how much of a failing write was stored, the next
    [Uuid::now_v7], the clock ([None] before the epoch, else nanoseconds since),
    and how a child process behaves. *)
Record Choice := mkChoice {
  ch_fault : bool; ch_probe_fault : bool; ch_written : nat; ch_uuid : bytes;
  ch_clock : option Z; ch_child : nat }.

Abbreviation Fs E A := (Prog Disk Choice E A).

(** * Calls *)

Definition call {A} (f : Disk -> result IoKind (A * Disk)) : Fs IoKind A :=
  act (fun _ c d =>
    if ch_fault c then Some (Err OtherIo, d)
    else match f d with
         | Ok (a, d') => Some (Ok a, d')
         | Err e => Some (Err e, d)
         end).

Definition set_node (p : path) (i : Inode) (d : Disk) : Disk :=
  mkDisk (<[p := i]> (dk_nodes d)) (dk_locks d).

Definition remove_node (p : path) (d : Disk) : Disk := mkDisk (delete p (dk_nodes d)) (dk_locks d).

(** The directory that holds a path exists. *)
Definition parent_exists (p : path) (d : Disk) : bool :=
  match rev p with
  | [] => false
  | _ :: up => match dk_nodes d !! rev up with Some i => is_dir i | None => false end
  end.

Definition symlink_metadata (p : path) : Fs IoKind Inode :=
  call (fun d => match dk_nodes d !! p with Some i => Ok (i, d) | None => Err NotFound end).

(** [symlink_metadata(path).is_ok()]: any failure counts as absence. *)
Definition present {E} (p : path) : Fs E bool :=
  act (fun _ c d =>
    if ch_probe_fault c then Some (Ok false, d)
    else Some (Ok (bool_decide (dk_nodes d !! p <> None)), d)).

Definition file_content (p : path) (d : Disk) : option bytes :=
  match dk_nodes d !! p with
  | Some (mkInode (Regular b) _ _ _) => Some b
  | _ => None
  end.

(** [fs::read]. *)
Definition read (p : path) : Fs IoKind bytes :=
  call (fun d => match dk_nodes d !! p with
    | Some (mkInode (Regular b) _ _ _) => Ok (b, d)
    | Some _ => Err OtherIo
    | None => Err NotFound
    end).

(** [File::open(path)?.take(n).read_to_end(..)]. *)
Definition read_take (n : nat) (p : path) : Fs IoKind bytes :=
  b <- read p ;; pret (take n b).

(** The names in a directory. *)
Definition child_name (p q : path) : option bytes :=
  match q with
  | [] => None
  | _ => if bool_decide (take (length q - 1) q = p) then last q else None
  end.

Definition children (p : path) (d : Disk) : list bytes :=
  omap (fun kv => child_name p kv.1) (map_to_list (dk_nodes d)).

Definition read_dir (p : path) : Fs IoKind (list bytes) :=
  call (fun d => match dk_nodes d !! p with
    | Some i => if is_dir i then Ok (children p d, d) else Err OtherIo
    | None => Err NotFound
    end).

(** A new directory or file belongs to the calling process. *)
Definition create_dir (uid mode : Z) (p : path) : Fs IoKind unit :=
  call (fun d =>
    if bool_decide (dk_nodes d !! p <> None) then Err AlreadyExists
    else if negb (parent_exists p d) then Err NotFound
    else Ok (tt, set_node p (mkInode Directory uid mode 1) d)).

Definition create_new (uid mode : Z) (p : path) : Fs IoKind unit :=
  call (fun d =>
    if bool_decide (dk_nodes d !! p <> None) then Err AlreadyExists
    else if negb (parent_exists p d) then Err NotFound
    else Ok (tt, set_node p (mkInode (Regular []) uid mode 1) d)).

Definition append_to (p : path) (b : bytes) (d : Disk) : Disk :=
  match dk_nodes d !! p with
  | Some (mkInode (Regular old) uid mode nlink) =>
      set_node p (mkInode (Regular (old ++ b)) uid mode nlink) d
  | _ => d
  end.

(** [write_all] on an open file, which the others know by its path only. *)
Definition write_all (p : path) (b : bytes) : Fs IoKind unit :=
  act (fun _ c d =>
    if ch_fault c then Some (Err OtherIo, append_to p (take (ch_written c) b) d)
    else Some (Ok tt, append_to p b d)).

Definition sync_all (p : path) : Fs IoKind unit := call (fun d => Ok (tt, d)).

(** [rename] of a file onto a file name, replacing what is there. *)
Definition rename (source target : path) : Fs IoKind unit :=
  call (fun d => match dk_nodes d !! source with
    | Some i =>
        if negb (parent_exists target d) then Err NotFound
        else if match dk_nodes d !! target with Some j => is_dir j | None => false end
        then Err OtherIo
        else Ok (tt, set_node target i (remove_node source d))
    | None => Err NotFound
    end).

Definition remove_file (p : path) : Fs IoKind unit :=
  call (fun d => match dk_nodes d !! p with
    | Some i => if is_dir i then Err OtherIo else Ok (tt, remove_node p d)
    | None => Err NotFound
    end).

(** [remove_dir_all]: a failing call has removed some of the entries. *)
Definition below (p q : path) : bool := bool_decide (take (length p) q = p).

Definition remove_dir_all (p : path) : Fs IoKind unit :=
  act (fun _ c d =>
    let doomed := filter (fun q => below p q = true) (map_to_list (dk_nodes d)).*1 in
    let removed := if ch_fault c then take (ch_written c) doomed else doomed in
    let d' := foldr remove_node d removed in
    if ch_fault c then Some (Err OtherIo, d') else Some (Ok tt, d')).

(** Opening a directory and flushing it. *)
Definition sync_dir (p : path) : Fs IoKind unit :=
  call (fun d => if bool_decide (dk_nodes d !! p <> None) then Ok (tt, d) else Err NotFound).

(** [flock] with [LockExclusive] waits for the holder, with
    [NonBlockingLockExclusive] it fails. *)
Definition flock_exclusive (p : path) : Fs IoKind unit :=
  act (fun tid c d =>
    if ch_fault c then Some (Err OtherIo, d)
    else match dk_locks d !! p with
         | Some owner =>
             if bool_decide (owner = tid) then Some (Ok tt, d) else None
         | None => Some (Ok tt, mkDisk (dk_nodes d) (<[p := tid]> (dk_locks d)))
         end).

Definition flock_try (p : path) : Fs IoKind unit :=
  act (fun tid c d =>
    if ch_fault c then Some (Err OtherIo, d)
    else match dk_locks d !! p with
         | Some owner =>
             if bool_decide (owner = tid) then Some (Ok tt, d) else Some (Err OtherIo, d)
         | None => Some (Ok tt, mkDisk (dk_nodes d) (<[p := tid]> (dk_locks d)))
         end).

(** Closing the lock file gives the lock up. *)
Definition unlock {E} (p : path) : Fs E unit :=
  act (fun tid _ d =>
    if bool_decide (dk_locks d !! p = Some tid)
    then Some (Ok tt, mkDisk (dk_nodes d) (delete p (dk_locks d))) else Some (Ok tt, d)).

(** The end of a process closes its files. *)
Definition release_locks (tid : nat) (d : Disk) : Disk :=
  mkDisk (dk_nodes d) (filter (fun kv => kv.2 <> tid) (dk_locks d)).

Definition now_v7 {E} : Fs E bytes := act (fun _ c d => Some (Ok (ch_uuid c), d)).
Definition clock_now {E} : Fs E (option Z) := act (fun _ c d => Some (Ok (ch_clock c), d)).
