(* ===== verification/Utf8.v ===== *)
(** UTF-8 validity as [std::str::from_utf8] decides it, [str::trim], prefixes
    and suffixes, and the components of a path text as [std::path] splits it. *)

From stdpp Require Import base list.
From Stdlib Require Import ZArith Lia Bool.
From Stdlib Require Import Strings.Byte.
From S2P Require Import Prelude Bytes Text.

Local Open Scope Z_scope.

Definition between (lo hi : Z) (b : byte) : bool := (lo <=? byte_val b) && (byte_val b <=? hi).
Definition is_continuation (b : byte) : bool := between 128 191 b.

(** [char::is_control] on the characters of valid UTF-8: C0 and DEL are one
    byte, C1 is [0xC2] followed by [0x80] to [0x9F]. *)
Fixpoint has_control (l : bytes) : bool :=
  match l with
  | [] => false
  | a :: r =>
      (byte_val a <? 32) || (byte_val a =? 127)
      || match r with b :: _ => (byte_val a =? 194) && between 128 159 b | [] => false end
      || has_control r
  end.

Fixpoint utf8_valid (l : bytes) : bool :=
  match l with
  | [] => true
  | a :: r =>
      if byte_val a <? 128 then utf8_valid r
      else match r with
      | b :: r =>
          if between 194 223 a then is_continuation b && utf8_valid r
          else match r with
          | c :: r =>
              if between 224 239 a then
                between (if byte_val a =? 224 then 160 else 128)
                        (if byte_val a =? 237 then 159 else 191) b
                && is_continuation c && utf8_valid r
              else match r with
              | d :: r =>
                  between 240 244 a
                  && between (if byte_val a =? 240 then 144 else 128)
                             (if byte_val a =? 244 then 143 else 191) b
                  && is_continuation c && is_continuation d && utf8_valid r
              | [] => false
              end
          | [] => false
          end
      | [] => false
      end
  end.

Lemma utf8_valid_ascii l : forallb is_ascii l = true -> utf8_valid l = true.
Proof.
  induction l as [|a l IH]; [done|]. simpl. unfold is_ascii at 1.
  destruct (byte_val a <? 128); [exact IH|done].
Qed.

Lemma utf8_valid_ascii_app a b :
  forallb is_ascii a = true -> utf8_valid b = true -> utf8_valid (a ++ b) = true.
Proof.
  intros Ha Hb. induction a as [|x a IH]; [exact Hb|]. simpl in *.
  unfold is_ascii in Ha at 1. destruct (byte_val x <? 128); [apply IH, Ha|done].
Qed.

(** [trim_end] drops the longest suffix of white space; in valid UTF-8 a
    continuation byte never starts one. *)
Fixpoint trim_end (l : bytes) : bytes :=
  if trim_is_empty l then []
  else match l with [] => [] | b :: r => b :: trim_end r end.

Definition white_head (l : bytes) : option bytes :=
  match l with
  | x20 :: r | x09 :: r | x0a :: r | x0b :: r | x0c :: r | x0d :: r => Some r
  | a :: b :: r =>
      if trim_is_empty [a; b] then Some r
      else match r with
           | c :: r => if trim_is_empty [a; b; c] then Some r else None
           | [] => None
           end
  | _ => None
  end.

Fixpoint trim_start (fuel : nat) (l : bytes) : bytes :=
  match fuel with
  | O => l
  | S fuel => match white_head l with Some r => trim_start fuel r | None => l end
  end.

Definition trim (l : bytes) : bytes := trim_end (trim_start (length l) l).

(** [trim_end_matches('\n')]. *)
Fixpoint trim_newlines (l : bytes) : bytes :=
  if forallb (fun b => bool_decide (b = x0a)) l then []
  else match l with [] => [] | b :: r => b :: trim_newlines r end.

Fixpoint strip_prefix (prefix l : bytes) : option bytes :=
  match prefix, l with
  | [], _ => Some l
  | a :: p, b :: r => if bool_decide (a = b) then strip_prefix p r else None
  | _ :: _, [] => None
  end.

Definition starts_with (prefix l : bytes) : bool := bool_decide (strip_prefix prefix l <> None).

Definition strip_suffix (suffix l : bytes) : option bytes :=
  match strip_prefix (rev suffix) (rev l) with Some r => Some (rev r) | None => None end.

(** [str::lines]: the text between line feeds, the carriage return that ends
    a terminated line dropped, no empty line after the last line feed. *)
Definition strip_cr (line : bytes) : bytes :=
  match strip_suffix [x0d] line with Some rest => rest | None => line end.

Fixpoint line_pieces (pieces : list bytes) : list bytes :=
  match pieces with
  | [] => []
  | [last] => if is_empty last then [] else [last]
  | piece :: rest => strip_cr piece :: line_pieces rest
  end.

Definition lines (text : bytes) : list bytes := line_pieces (split_on x0a text).

Lemma strip_prefix_app p l : strip_prefix p (p ++ l) = Some l.
Proof. induction p as [|a p IH]; [done|]. simpl. by rewrite bool_decide_true. Qed.

Lemma strip_prefix_Some p l r : strip_prefix p l = Some r -> l = p ++ r.
Proof.
  revert l; induction p as [|a p IH]; intros [|b l]; simpl; try (intros H; by simplify_eq).
  case_bool_decide as Eab; [|done]. intros E%IH. by subst.
Qed.

Lemma trim_newlines_line l : x0a ∉ l -> trim_newlines (l ++ [x0a]) = l.
Proof.
  induction l as [|b l IH]; [done|]. intros N. rewrite not_elem_of_cons in N. destruct N as [N1 N2].
  simpl. rewrite bool_decide_false by (intros ->; done). simpl. by rewrite IH.
Qed.

Lemma trim_newlines_id l : x0a ∉ l -> trim_newlines l = l.
Proof.
  induction l as [|b l IH]; [done|]. intros N. rewrite not_elem_of_cons in N. destruct N as [N1 N2].
  simpl. rewrite bool_decide_false by (intros ->; done). simpl. by rewrite IH.
Qed.

(** * Paths *)

Inductive Component := RootDir | CurDir | ParentDir | Normal (name : bytes).

#[export] Instance Component_eq_dec : EqDecision Component.
Proof. solve_decision. Defined.

Definition component_of (text : bytes) : Component :=
  if bool_decide (text = [x2e; x2e]) then ParentDir else Normal text.

(** Repeated separators and [.] components disappear, except a leading [.]. *)
Definition components (text : bytes) : list Component :=
  let parts := split_on x2f text in
  let kept := filter (fun part => part <> [] /\ part <> [x2e]) parts in
  let rest := component_of <$> kept in
  match text with
  | x2f :: _ => RootDir :: rest
  | _ => if bool_decide (head parts = Some [x2e]) then CurDir :: rest else rest
  end.

Fixpoint strip_components (prefix p : list Component) : option (list Component) :=
  match prefix, p with
  | [], _ => Some p
  | a :: prefix, b :: p => if bool_decide (a = b) then strip_components prefix p else None
  | _ :: _, [] => None
  end.

Definition is_normal (c : Component) : bool := match c with Normal _ => true | _ => false end.

Definition normal_names (p : list Component) : list bytes :=
  omap (fun c => match c with Normal n => Some n | _ => None end) p.
