(* ===== verification/UpgradeRecords.v ===== *)
(** The durable records of a self-upgrade ([upgrader/src/lib.rs]): the immutable
    intent, the state and the result of an operation, their text form, and the
    checks on files that hold them.  The uuid and hex crates are the class
    [RecordText]; child processes are the class [Host]. *)

From stdpp Require Import base list gmap numbers countable strings.
From Stdlib Require Import ZArith Lia Bool.
From Stdlib Require Import Strings.Byte.
From S2P Require Import Prelude Bytes Text Authorization ConfigProfile Executor.
From S2P Require Import Concurrency Files Utf8.

Local Open Scope Z_scope.
Local Open Scope prog_scope.

Definition lower_hexdigit (b : byte) : bool := is_ascii_digit b || between 97 102 b.

(** [uuid] and [hex]: a UUID is its 16 bytes; its text has the hyphenated form
    of 36 characters and reads back as itself, and so does lower-case hex. *)
Class RecordText {crypto : Crypto} := {
  uuid_parse_str : bytes -> option bytes;
  uuid_to_string : bytes -> bytes;
  hex_decode : bytes -> option bytes;
  uuid_parse_length s u : uuid_parse_str s = Some u -> length u = 16%nat;
  uuid_parse_to_string u : length u = 16%nat -> uuid_parse_str (uuid_to_string u) = Some u;
  uuid_string_length u : length u = 16%nat -> length (uuid_to_string u) = 36%nat;
  uuid_string_chars u : length u = 16%nat ->
    forallb (fun b => is_ascii_hexdigit b || bool_decide (b = x2d)) (uuid_to_string u) = true;
  hex_decode_encode b : hex_decode (hex_encode b) = Some b;
  hex_encode_length b : length (hex_encode b) = (2 * length b)%nat;
  hex_encode_chars b : forallb lower_hexdigit (hex_encode b) = true }.

Record ChildOutput := mkChildOutput {
  co_success : bool; co_code : option Z; co_stdout : bytes; co_stderr : bytes }.

Inductive Command :=
| RunVerifier (verifier archive : path) (digest : bytes) (destdir : option path)
| RunLifecycle (script : path) (destdir : option path)
| SystemctlStart (unit_name : bytes)
| SystemctlTryRestart (units : list bytes).

(** The user the process runs as, the text of an I/O error, and what a child
    process does, standard streams decoded as text. *)
Class Host := {
  trusted_euid : Z;
  io_error_text : IoKind -> bytes;
  child : Command -> nat -> Disk -> ChildOutput * Disk }.

(** * Errors *)

Inductive UpgradeStoreError :=
| StoreInvalid (detail : bytes)
| IdentityConflict
| ActiveConflict
| StoreUnsafe (detail : bytes)
| StorePackage (detail : bytes)
| StoreLifecycle (detail : bytes)
| StoreIo (source : IoKind).

#[export] Instance UpgradeStoreError_eq_dec : EqDecision UpgradeStoreError.
Proof. solve_decision. Defined.

Definition UpgradeStoreError_fmt {host : Host} (e : UpgradeStoreError) : bytes :=
  match e with
  | StoreInvalid detail => str "upgrade intent invalid: " ++ detail
  | IdentityConflict => str "operation identity conflicts with a durable intent"
  | ActiveConflict => str "another upgrade operation is active on this node"
  | StoreUnsafe detail => str "durable upgrade state unsafe: " ++ detail
  | StorePackage detail => str "trusted package refused: " ++ detail
  | StoreLifecycle detail => str "package lifecycle failed: " ++ detail
  | StoreIo source => str "durable upgrade state I/O failed: " ++ io_error_text source
  end.

Definition Store (A : Type) : Type := result UpgradeStoreError A.

Definition store_invalid (detail : String.string) : UpgradeStoreError := StoreInvalid (str detail).
Definition store_unsafe (detail : String.string) : UpgradeStoreError := StoreUnsafe (str detail).
Definition store_package (detail : String.string) : UpgradeStoreError := StorePackage (str detail).

(** * Records *)

Definition RECORD_SCHEMA_VERSION : Z := 1.
Definition MAX_DETAIL_BYTES : nat := 160.
Definition MAX_SPOOL_PACKAGE_BYTES : Z := 2 * 1024 * 1024 * 1024.
Definition SCHEDULE_LOCK_FILE : bytes := str ".schedule.lock".
Definition EXECUTION_LOCK_FILE : bytes := str ".run.lock".

Record UpgradeIntent := mkUpgradeIntent {
  ui_operation_id : bytes; ui_command_id : bytes; ui_target_version : bytes;
  ui_package_sha256 : bytes; ui_architecture : bytes; ui_semantic_payload_sha256 : bytes }.

#[export] Instance UpgradeIntent_eq_dec : EqDecision UpgradeIntent.
Proof. solve_decision. Defined.

Inductive OperationState := OpAccepted | OpRunning | OpSucceeded | OpFailed | OpRolledBack.

#[export] Instance OperationState_eq_dec : EqDecision OperationState.
Proof. solve_decision. Defined.

Definition OperationState_as_str (s : OperationState) : bytes :=
  match s with
  | OpAccepted => str "accepted"
  | OpRunning => str "running"
  | OpSucceeded => str "succeeded"
  | OpFailed => str "failed"
  | OpRolledBack => str "rolled_back"
  end.

Definition is_terminal (s : OperationState) : bool :=
  match s with OpSucceeded | OpFailed | OpRolledBack => true | _ => false end.

(** The lossy decoding turns no invalid byte into one of these tokens. *)
Definition OperationState_parse (b : bytes) : Store OperationState :=
  let token := trim_newlines b in
  if bool_decide (token = str "accepted") then Ok OpAccepted
  else if bool_decide (token = str "running") then Ok OpRunning
  else if bool_decide (token = str "succeeded") then Ok OpSucceeded
  else if bool_decide (token = str "failed") then Ok OpFailed
  else if bool_decide (token = str "rolled_back") then Ok OpRolledBack
  else Err (store_unsafe "durable operation state malformed").

Section Text.
Context {crypto : Crypto} {text : RecordText} {platform : Platform}.

Definition require_uuid_v7 (value : bytes) (detail : String.string) : Store unit :=
  if uuid_version value =? 7 then Ok tt else Err (store_invalid detail).

Definition UpgradeIntent_new (operation_id command_id target_version package_sha256 architecture
  semantic_payload_sha256 : bytes) : Store UpgradeIntent :=
  let? _ := require_uuid_v7 operation_id "operation identity invalid" in
  let? _ := require_uuid_v7 command_id "command identity invalid" in
  if negb (valid_target_version target_version) then Err (store_invalid "target version invalid")
  else if negb (valid_architecture architecture) then Err (store_invalid "architecture invalid")
  else Ok (mkUpgradeIntent operation_id command_id target_version package_sha256 architecture
             semantic_payload_sha256).

(** [writeln!(record, "{key}={value}")]. *)
Definition record_line (key : String.string) (value : bytes) : bytes :=
  str key ++ [x3d] ++ value ++ [x0a].

Definition render (i : UpgradeIntent) : bytes :=
  record_line "schema" (to_string RECORD_SCHEMA_VERSION)
  ++ record_line "operation_id" (uuid_to_string (ui_operation_id i))
  ++ record_line "command_id" (uuid_to_string (ui_command_id i))
  ++ record_line "target_version" (ui_target_version i)
  ++ record_line "package_sha256" (hex_encode (ui_package_sha256 i))
  ++ record_line "architecture" (ui_architecture i)
  ++ record_line "semantic_payload_sha256" (hex_encode (ui_semantic_payload_sha256 i)).

Definition pop_empty (lines : list bytes) : list bytes :=
  match rev lines with
  | [] :: rest => rev rest
  | _ => lines
  end.

Definition decode_record_lines (b : bytes) (expected : nat) : Store (list bytes) :=
  if negb (utf8_valid b) then Err (store_unsafe "durable record is not UTF-8")
  else
    let lines := pop_empty (split_on x0a b) in
    if bool_decide (length lines <> expected)
    then Err (store_unsafe "durable record line count malformed") else Ok lines.

(** Indexing, in the range [decode_record_lines] has checked. *)
Definition record_at (lines : list bytes) (index : nat) : bytes := default [] (lines !! index).

Definition parse_line_value (line : bytes) (key : String.string) : Store bytes :=
  match strip_prefix (str key ++ [x3d]) line with
  | None => Err (store_unsafe "durable record key order malformed")
  | Some value =>
      if is_empty value || contains x0a value
      then Err (store_unsafe "durable record value malformed") else Ok value
  end.

Definition expect_line (line : bytes) (key : String.string) (expected : bytes) : Store unit :=
  let? value := parse_line_value line key in
  if bool_decide (value = expected) then Ok tt
  else Err (store_unsafe "durable record schema mismatch").

Definition parse_line_uuid (line : bytes) (key : String.string) : Store bytes :=
  let? value := parse_line_value line key in
  match uuid_parse_str value with
  | None => Err (store_unsafe "durable record identity malformed")
  | Some parsed =>
      if negb (uuid_version parsed =? 7) || bool_decide (uuid_to_string parsed <> value)
      then Err (store_unsafe "durable record identity malformed") else Ok parsed
  end.

Definition parse_line_digest (line : bytes) (key : String.string) : Store bytes :=
  let? value := parse_line_value line key in
  if bool_decide (length value <> 64%nat) || negb (forallb lower_hexdigit value)
  then Err (store_unsafe "durable record digest malformed")
  else match hex_decode value with
       | None => Err (store_unsafe "durable record digest malformed")
       | Some decoded =>
           if bool_decide (length decoded = 32%nat) then Ok decoded
           else Err (store_unsafe "durable record digest malformed")
       end.

Definition UpgradeIntent_parse (b : bytes) : Store UpgradeIntent :=
  let? lines := decode_record_lines b 7 in
  let? _ := expect_line (record_at lines 0) "schema" (to_string RECORD_SCHEMA_VERSION) in
  let? operation_id := parse_line_uuid (record_at lines 1) "operation_id" in
  let? command_id := parse_line_uuid (record_at lines 2) "command_id" in
  let? target_version := parse_line_value (record_at lines 3) "target_version" in
  if negb (valid_target_version target_version)
  then Err (store_unsafe "durable intent version invalid")
  else
    let? package_sha256 := parse_line_digest (record_at lines 4) "package_sha256" in
    let? architecture := parse_line_value (record_at lines 5) "architecture" in
    if negb (valid_architecture architecture)
    then Err (store_unsafe "durable intent architecture invalid")
    else
      let? semantic := parse_line_digest (record_at lines 6) "semantic_payload_sha256" in
      Ok (mkUpgradeIntent operation_id command_id target_version package_sha256 architecture
            semantic).

(** Printable ASCII stays; every other byte becomes a dot. *)
Definition bounded_detail (detail : bytes) : bytes :=
  (fun b => if (32 <=? byte_val b) && (byte_val b <? 127) then b else x2e)
    <$> take MAX_DETAIL_BYTES detail.

Definition result_record (i : UpgradeIntent) (state : OperationState) (completed : Z)
  (detail : bytes) : bytes :=
  record_line "schema" (to_string RECORD_SCHEMA_VERSION)
  ++ record_line "state" (OperationState_as_str state)
  ++ record_line "operation_id" (uuid_to_string (ui_operation_id i))
  ++ record_line "target_version" (ui_target_version i)
  ++ record_line "package_sha256" (hex_encode (ui_package_sha256 i))
  ++ record_line "completed_unix" (to_string completed)
  ++ record_line "detail" (bounded_detail detail).

Record DurableUpgradeResult := mkDurableUpgradeResult {
  dur_operation_id : bytes; dur_state : OperationState; dur_target_version : bytes;
  dur_package_sha256 : bytes; dur_completed_unix : Z; dur_detail : bytes;
  dur_result_sha256 : bytes }.

(** The part of [read_recent_results] that decodes one result against the
    intent of its directory. *)
Definition parse_result (candidate : bytes) (i : UpgradeIntent) (b : bytes)
  : Store DurableUpgradeResult :=
  if 1024 <? len b then Err (store_unsafe "durable result exceeds its bound")
  else
  let? lines := decode_record_lines b 7 in
  let? _ := expect_line (record_at lines 0) "schema" (to_string RECORD_SCHEMA_VERSION) in
  let? state_text := parse_line_value (record_at lines 1) "state" in
  let? state := OperationState_parse state_text in
  let? operation_id := parse_line_uuid (record_at lines 2) "operation_id" in
  if bool_decide (operation_id <> candidate)
  then Err (store_unsafe "durable result operation identity does not match its directory")
  else
  let? target_version := parse_line_value (record_at lines 3) "target_version" in
  let? package_sha256 := parse_line_digest (record_at lines 4) "package_sha256" in
  if bool_decide (target_version <> ui_target_version i)
     || bool_decide (package_sha256 <> ui_package_sha256 i)
  then Err (store_unsafe "durable result release identity does not match its intent")
  else
  let? completed_text := parse_line_value (record_at lines 5) "completed_unix" in
  let? completed_unix :=
    ok_or (parse_u64 completed_text) (store_unsafe "durable result completion time malformed") in
  let? detail := parse_line_value (record_at lines 6) "detail" in
  if negb (is_terminal state) then Err (store_unsafe "durable result records a non-terminal state")
  else if (completed_unix =? 0) || (i64_max <? completed_unix)
  then Err (store_unsafe "durable result completion time malformed")
  else Ok (mkDurableUpgradeResult operation_id state target_version package_sha256 completed_unix
             detail (sha256 b)).

Definition parse_canonical_operation (value : bytes) : Store bytes :=
  if bool_decide (length value <> 36%nat)
     || negb (forallb (fun b => is_ascii_hexdigit b || bool_decide (b = x2d)) value)
  then Err (store_invalid "operation identity malformed")
  else match uuid_parse_str value with
       | None => Err (store_invalid "operation identity malformed")
       | Some parsed =>
           if negb (uuid_version parsed =? 7) || bool_decide (uuid_to_string parsed <> value)
           then Err (store_invalid "operation identity must be canonical UUIDv7")
           else Ok parsed
       end.

End Text.
