(* ===== verification/Upgrader.v ===== *)
(** The durable self-upgrade boundary of [upgrader/src/lib.rs]: privd's
    scheduler, which commits an intent and starts the fixed unit, and the
    runner, which executes the operation.  Both are programs over the file
    system; several privd handlers and several runners may be under way at the
    same time. *)

From stdpp Require Import base list gmap numbers countable strings sorting.
From Stdlib Require Import ZArith Lia Bool.
From Stdlib Require Import Strings.Byte.
From S2P Require Import Prelude Bytes Text Authorization ConfigProfile Executor.
From S2P Require Import Concurrency Files Utf8 UpgradeRecords.

Local Open Scope Z_scope.
Local Open Scope prog_scope.

Abbreviation Up A := (Fs UpgradeStoreError A).

(** [map_err(UpgradeStoreError::Io)]. *)
Definition io {A} (m : Fs IoKind A) : Up A := pmap_err StoreIo m.

Inductive UpgradeTrigger := TriggerSystemd | TriggerDisabled.
Inductive ScheduleOutcome := Scheduled | AlreadyScheduled.
Inductive TempOwner := TempSchedule | TempRun.

#[export] Instance TempOwner_eq_dec : EqDecision TempOwner.
Proof. solve_decision. Defined.

Definition TempOwner_as_str (o : TempOwner) : bytes :=
  match o with TempSchedule => str "schedule" | TempRun => str "run" end.

Inductive OperationPieces :=
| PiecesAbsent
| PiecesPartial (intent : option UpgradeIntent)
| PiecesComplete (intent : UpgradeIntent).

Record UpgradeScheduler := mkUpgradeScheduler {
  us_operations_dir : list Component; us_trigger : UpgradeTrigger }.

Section Upgrader.
Context {crypto : Crypto} {text : RecordText} {platform : Platform} {host : Host}.

(** * Checks on files and directories *)

Definition refused_directory (i : Inode) : bool :=
  negb (is_dir i) || is_symlink i || negb (ino_uid i =? trusted_euid)
  || negb (Z.land (ino_mode i) (oct 0 2 2) =? 0).

Definition validate_directory_strict (p : path) : Up unit :=
  i <- io (symlink_metadata p) ;;
  if refused_directory i
  then pthrow (store_unsafe "trusted upgrade path ancestry must be operator-owned real directories")
  else pret tt.

Definition refused_record (i : Inode) : bool :=
  negb (is_file i) || is_symlink i || negb (ino_uid i =? trusted_euid)
  || negb (ino_nlink i =? 1) || negb (Z.land (ino_mode i) (oct 7 7 7) =? (oct 6 0 0)).

Definition validate_record_file (p : path) : Up unit :=
  i <- io (symlink_metadata p) ;;
  if refused_record i
  then pthrow (store_unsafe
    "durable upgrade record must be an operator-owned one-link mode 0600 regular file")
  else pret tt.

Definition validate_regular_executable (p : path) : Up unit :=
  i <- io (symlink_metadata p) ;;
  if negb (is_file i) || is_symlink i || negb (ino_uid i =? trusted_euid)
     || negb (ino_nlink i =? 1) || (Z.land (ino_mode i) (oct 1 1 1) =? 0)
     || negb (Z.land (ino_mode i) (oct 0 2 2) =? 0)
  then pthrow (store_package "trusted package executable has unsafe metadata")
  else pret tt.

Definition validate_spool_file (p : path) : Up unit :=
  found <- pcatch (symlink_metadata p) ;;
  match found with
  | Err NotFound => pthrow (store_package "trusted package spool does not provide the authorized release")
  | Err e => pthrow (StoreIo e)
  | Ok i =>
      if negb (is_file i) || is_symlink i || negb (ino_uid i =? trusted_euid)
         || negb (ino_nlink i =? 1) || negb (Z.land (ino_mode i) (oct 0 2 2) =? 0)
         || (inode_len i =? 0) || (MAX_SPOOL_PACKAGE_BYTES <? inode_len i)
      then pthrow (store_package "trusted package spool input has unsafe metadata")
      else pret tt
  end.

(** * Durable writes *)

Definition sync_directory (p : path) : Up unit := io (sync_dir p).

Definition temp_name (name : bytes) (owner : TempOwner) (id : bytes) : bytes :=
  [x2e] ++ name ++ [x2e] ++ TempOwner_as_str owner ++ str ".tmp." ++ uuid_to_string id.

Definition write_atomic (directory : path) (name : bytes) (b : bytes) (owner : TempOwner) : Up unit :=
  id <- now_v7 ;;
  let temporary := directory ++ [temp_name name owner id] in
  io (create_new trusted_euid (oct 6 0 0) temporary) ;;;
  io (write_all temporary b) ;;;
  io (sync_all temporary) ;;;
  io (rename temporary (directory ++ [name])) ;;;
  sync_directory directory.

Definition stale_temporary (owner : TempOwner) (name : bytes) : bool :=
  existsb (fun record =>
    let prefix := [x2e] ++ str record ++ [x2e] ++ TempOwner_as_str owner ++ str ".tmp" in
    bool_decide (name = prefix)
    || match strip_prefix (prefix ++ [x2e]) name with
       | None => false
       | Some suffix =>
           match uuid_parse_str suffix with
           | None => false
           | Some id => (uuid_version id =? 7) && bool_decide (uuid_to_string id = suffix)
           end
       end) ["intent"; "state"; "result"]%string.

Fixpoint remove_stale (directory : path) (owner : TempOwner) (names : list bytes) (removed : bool)
  : Up bool :=
  match names with
  | [] => pret removed
  | name :: rest =>
      if utf8_valid name && stale_temporary owner name then
        validate_record_file (directory ++ [name]) ;;;
        io (remove_file (directory ++ [name])) ;;;
        remove_stale directory owner rest true
      else remove_stale directory owner rest removed
  end.

Definition cleanup_stale_temporaries (directory : path) (owner : TempOwner) : Up unit :=
  found <- pcatch (symlink_metadata directory) ;;
  match found with
  | Err NotFound => pret tt
  | Err e => pthrow (StoreIo e)
  | Ok _ =>
      validate_directory_strict directory ;;;
      names <- io (read_dir directory) ;;
      removed <- remove_stale directory owner names false ;;
      if (removed : bool) then sync_directory directory else pret tt
  end.

(** * Locks *)

(** [UpgradeLock::open]: created, or checked and opened. *)
Definition lock_open (operations_dir : path) (name : bytes) : Up unit :=
  created <- pcatch (create_new trusted_euid (oct 6 0 0) (operations_dir ++ [name])) ;;
  match created with
  | Ok _ => pret tt
  | Err AlreadyExists =>
      validate_record_file (operations_dir ++ [name]) ;;;
      io (symlink_metadata (operations_dir ++ [name])) ;;; pret tt
  | Err e => pthrow (StoreIo e)
  end.

Definition acquire_schedule (operations_dir : path) : Up unit :=
  lock_open operations_dir SCHEDULE_LOCK_FILE ;;;
  io (flock_exclusive (operations_dir ++ [SCHEDULE_LOCK_FILE])).

Definition acquire_execution (operations_dir : path) : Up unit :=
  lock_open operations_dir EXECUTION_LOCK_FILE ;;;
  pmap_err (fun _ => ActiveConflict) (flock_try (operations_dir ++ [EXECUTION_LOCK_FILE])).

(** The guard of a lock is dropped on every path out of its block. *)
Definition with_lock {A} (acquire : Up unit) (lock : path) (body : Up A) : Up A :=
  acquire ;;;
  outcome <- pcatch body ;;
  unlock lock ;;;
  plift outcome.

(** * Reading the store *)

Definition load_intent (operation_dir : path) : Up UpgradeIntent :=
  validate_record_file (operation_dir ++ [str "intent"]) ;;;
  b <- io (read (operation_dir ++ [str "intent"])) ;;
  if 1024 <? len b then pthrow (store_unsafe "durable intent exceeds its bound")
  else plift (UpgradeIntent_parse b).

Definition load_state (operation_dir : path) : Up OperationState :=
  validate_record_file (operation_dir ++ [str "state"]) ;;;
  b <- io (read_take 64 (operation_dir ++ [str "state"])) ;;
  plift (OperationState_parse b).

Definition read_operation_pieces (operation_dir : path) : Up OperationPieces :=
  found <- pcatch (symlink_metadata operation_dir) ;;
  match found with
  | Err NotFound => pret PiecesAbsent
  | Err e => pthrow (StoreIo e)
  | Ok _ =>
      validate_directory_strict operation_dir ;;;
      intent_present <- present (operation_dir ++ [str "intent"]) ;;
      state_present <- present (operation_dir ++ [str "state"]) ;;
      match (intent_present, state_present) with
      | (false, false) => pret (PiecesPartial None)
      | (true, false) => i <- load_intent operation_dir ;; pret (PiecesPartial (Some i))
      | (true, true) =>
          load_state operation_dir ;;;
          i <- load_intent operation_dir ;; pret (PiecesComplete i)
      | (false, true) =>
          pthrow (store_unsafe "durable operation state exists without its immutable intent")
      end
  end.

(** The canonical identity a directory entry names, if any. *)
Definition operation_entry (name : bytes) : option bytes :=
  match uuid_parse_str name with
  | None => None
  | Some candidate =>
      if bool_decide (name <> uuid_to_string candidate) || negb (uuid_version candidate =? 7)
      then None else Some candidate
  end.

(** * Scheduling *)

Fixpoint scan_siblings (operations_dir : path) (exclude : option bytes) (names : list bytes)
  : Up (option bytes) :=
  match names with
  | [] => pret None
  | name :: rest =>
      if negb (utf8_valid name)
      then pthrow (store_unsafe "durable operations hierarchy has a non-UTF-8 entry")
      else match operation_entry name with
      | None => scan_siblings operations_dir exclude rest
      | Some candidate =>
          if bool_decide (Some candidate = exclude) then scan_siblings operations_dir exclude rest
          else
            state <- load_state (operations_dir ++ [name]) ;;
            if bool_decide (state = OpAccepted) || bool_decide (state = OpRunning)
            then pret (Some candidate)
            else scan_siblings operations_dir exclude rest
      end
  end.

Definition active_sibling (operations_dir : path) (exclude : option bytes) : Up (option bytes) :=
  names <- io (read_dir operations_dir) ;;
  scan_siblings operations_dir exclude names.

Definition create_operation_dir (operation_dir : path) : Up unit :=
  created <- pcatch (create_dir trusted_euid (oct 7 0 0) operation_dir) ;;
  match created with
  | Ok _ => validate_directory_strict operation_dir
  | Err AlreadyExists => pthrow (store_unsafe "durable operation directory appeared concurrently")
  | Err e => pthrow (StoreIo e)
  end.

Definition state_line (s : OperationState) : bytes := OperationState_as_str s ++ [x0a].

Definition commit_intent (operation_dir : path) (intent_bytes : bytes) : Up unit :=
  write_atomic operation_dir (str "intent") intent_bytes TempSchedule ;;;
  write_atomic operation_dir (str "state") (state_line OpAccepted) TempSchedule.

(** The deepest existing ancestor; the argument is the path from its end. *)
Fixpoint find_anchor (up : list bytes) : Up path :=
  found <- present (rev up) ;;
  if (found : bool) then pret (rev up)
  else match up with
       | [] => pthrow (store_unsafe "durable operations path has no anchor")
       | _ :: up => find_anchor up
       end.

Fixpoint create_missing (current : path) (missing : list bytes) : Up unit :=
  match missing with
  | [] => pret tt
  | name :: rest =>
      created <- pcatch (create_dir trusted_euid (oct 7 0 0) (current ++ [name])) ;;
      match created with
      | Ok _ | Err AlreadyExists =>
          validate_directory_strict (current ++ [name]) ;;; create_missing (current ++ [name]) rest
      | Err e => pthrow (StoreIo e)
      end
  end.

Definition is_absolute (p : list Component) : bool :=
  match p with RootDir :: _ => true | _ => false end.

Definition ensure_operations_root (operations_dir : list Component) : Up unit :=
  if negb (is_absolute operations_dir)
     || existsb (fun c => negb (is_normal c || bool_decide (c = RootDir))) operations_dir
  then pthrow (store_unsafe "durable operations path must be absolute and canonical")
  else
    let names := normal_names operations_dir in
    anchor <- find_anchor (rev names) ;;
    validate_directory_strict anchor ;;;
    create_missing anchor (drop (length anchor) names).

(** The critical section of [schedule_and_trigger]. *)
Definition schedule_locked (operations_dir : path) (intent : UpgradeIntent) : Up ScheduleOutcome :=
  let operation_dir := operations_dir ++ [uuid_to_string (ui_operation_id intent)] in
  let intent_bytes := render intent in
  cleanup_stale_temporaries operation_dir TempSchedule ;;;
  pieces <- read_operation_pieces operation_dir ;;
  match pieces with
  | PiecesAbsent =>
      sibling <- active_sibling operations_dir (Some (ui_operation_id intent)) ;;
      if bool_decide (sibling <> None) then pthrow ActiveConflict
      else
        create_operation_dir operation_dir ;;;
        commit_intent operation_dir intent_bytes ;;;
        pret Scheduled
  | PiecesPartial None =>
      sibling <- active_sibling operations_dir (Some (ui_operation_id intent)) ;;
      if bool_decide (sibling <> None) then pthrow ActiveConflict
      else
        write_atomic operation_dir (str "intent") intent_bytes TempSchedule ;;;
        write_atomic operation_dir (str "state") (state_line OpAccepted) TempSchedule ;;;
        pret Scheduled
  | PiecesPartial (Some existing) =>
      if bool_decide (existing <> intent) then pthrow IdentityConflict
      else
        write_atomic operation_dir (str "state") (state_line OpAccepted) TempSchedule ;;;
        pret Scheduled
  | PiecesComplete existing =>
      if bool_decide (existing <> intent) then pthrow IdentityConflict else pret AlreadyScheduled
  end.

(** A child process: starting it may fail. *)
Definition spawn (command : Command) : Fs IoKind ChildOutput :=
  act (fun _ c d =>
    if ch_fault c then Some (Err OtherIo, d)
    else let '(output, d') := child command (ch_child c) d in Some (Ok output, d')).

Definition unit_name (operation_id : bytes) : bytes :=
  str "ocservia-upgrader@" ++ uuid_to_string operation_id ++ str ".service".

Definition trigger (t : UpgradeTrigger) (operation_id : bytes) : Up unit :=
  match t with
  | TriggerDisabled => pret tt
  | TriggerSystemd =>
      output <- io (spawn (SystemctlStart (unit_name operation_id))) ;;
      if co_success output then pret tt else pthrow (StoreIo OtherIo)
  end.

Definition schedule_and_trigger (s : UpgradeScheduler) (intent : UpgradeIntent) : Up ScheduleOutcome :=
  ensure_operations_root (us_operations_dir s) ;;;
  let operations_dir := normal_names (us_operations_dir s) in
  outcome <- with_lock (acquire_schedule operations_dir) (operations_dir ++ [SCHEDULE_LOCK_FILE])
               (schedule_locked operations_dir intent) ;;
  trigger (us_trigger s) (ui_operation_id intent) ;;;
  pret outcome.

(** * Reported results *)

Fixpoint read_entries (operations_dir : path) (names : list bytes) : Up (list DurableUpgradeResult) :=
  match names with
  | [] => pret []
  | name :: rest =>
      if negb (utf8_valid name)
      then pthrow (store_unsafe "durable operations hierarchy has a non-UTF-8 entry")
      else match operation_entry name with
      | None => read_entries operations_dir rest
      | Some candidate =>
          let record_dir := operations_dir ++ [name] in
          validate_directory_strict record_dir ;;;
          intent <- load_intent record_dir ;;
          if bool_decide (ui_operation_id intent <> candidate)
          then pthrow (store_unsafe "durable intent operation identity does not match its directory")
          else
            let result_path := record_dir ++ [str "result"] in
            found <- pcatch (symlink_metadata result_path) ;;
            match found with
            | Err NotFound => read_entries operations_dir rest
            | Err e => pthrow (StoreIo e)
            | Ok _ =>
                validate_record_file result_path ;;;
                b <- io (read result_path) ;;
                result <- plift (parse_result candidate intent b) ;;
                results <- read_entries operations_dir rest ;;
                pret (result :: results)
            end
      end
  end.

(** UUIDs compare as 128-bit numbers, which is the order of their bytes. *)
Definition newest_first (a b : DurableUpgradeResult) : Prop :=
  bytes_leb (dur_operation_id b) (dur_operation_id a) = true.

#[local] Instance newest_first_dec a b : Decision (newest_first a b).
Proof. unfold newest_first. apply _. Defined.

Definition read_recent_results (operations_dir : path) (limit : nat) : Up (list DurableUpgradeResult) :=
  let limit := Nat.max 1 (Nat.min 32 limit) in
  found <- pcatch (read_dir operations_dir) ;;
  match found with
  | Err NotFound => pret []
  | Err e => pthrow (StoreIo e)
  | Ok names =>
      results <- read_entries operations_dir names ;;
      pret (take limit (merge_sort newest_first results))
  end.

End Upgrader.
