(* ===== verification/UpgradeRunner.v ===== *)
(** The standalone runner of [upgrader/src/lib.rs]: it resolves and verifies
    the authorized package, runs its lifecycle, and records the outcome. *)

From stdpp Require Import base list gmap numbers countable strings.
From Stdlib Require Import ZArith Lia Bool.
From Stdlib Require Import Strings.Byte.
From S2P Require Import Prelude Bytes Text Authorization ConfigProfile Executor.
From S2P Require Import Concurrency Files Utf8 UpgradeRecords Upgrader.

Local Open Scope Z_scope.
Local Open Scope prog_scope.

Record UpgradeRunner := mkUpgradeRunner {
  ur_root : path; ur_binding_operations : option path }.

(** The components of a fixed relative path. *)
Definition fixed_path (text : String.string) : path := normal_names (components (str text)).

Definition is_real_host (r : UpgradeRunner) : bool := is_empty (ur_root r).

Definition operations_dir (r : UpgradeRunner) : path :=
  match ur_binding_operations r with
  | Some p => ur_root r ++ p
  | None => ur_root r ++ fixed_path "var/lib/ocservia-upgrade/operations"
  end.

Definition spool_dir (r : UpgradeRunner) : path :=
  ur_root r ++ fixed_path "var/lib/ocservia-upgrade/package-spool".
Definition verifier (r : UpgradeRunner) : path :=
  ur_root r ++ fixed_path "usr/libexec/ocservia/ocservia-agent-verify".
Definition installed_binary (r : UpgradeRunner) (name : bytes) : path :=
  ur_root r ++ fixed_path "usr/libexec/ocservia" ++ [name].
Definition installation_commit (r : UpgradeRunner) : path :=
  ur_root r ++ fixed_path "var/lib/ocservia-upgrade/installed-commit".
Definition staging_root (r : UpgradeRunner) : path :=
  ur_root r ++ fixed_path "var/lib/ocservia-upgrade/package-staging".

(** [env("DESTDIR", root)], removed on the real host. *)
Definition destdir (r : UpgradeRunner) : option path :=
  if is_real_host r then None else Some (ur_root r).

Section Runner.
Context {crypto : Crypto} {text : RecordText} {platform : Platform} {host : Host}.

Definition sha256_file (p : path) : Up bytes := b <- io (read p) ;; pret (sha256 b).

Definition sha256_if_present (p : path) : Up (option bytes) :=
  found <- pcatch (symlink_metadata p) ;;
  match found with
  | Ok i => if is_file i && negb (is_symlink i) then d <- sha256_file p ;; pret (Some d) else pret None
  | Err NotFound => pret None
  | Err e => pthrow (StoreIo e)
  end.

(** [fs::read_to_string]: contents that are not UTF-8 are an I/O error. *)
Definition read_to_string (p : path) : Up bytes :=
  b <- io (read p) ;; if utf8_valid b then pret b else pthrow (StoreIo OtherIo).

Definition commit_digest (record : bytes) : bytes :=
  default [] (rest ← strip_prefix (str "archive_sha256=") record; strip_suffix [x0a] rest).

Definition read_installation_commit (p : path) : Up (option bytes) :=
  found <- pcatch (symlink_metadata p) ;;
  match found with
  | Err NotFound => pret None
  | Err e => pthrow (StoreIo e)
  | Ok i =>
      if negb (is_file i) || is_symlink i || (96 <? inode_len i)
      then pthrow (store_unsafe "installation commit record is not a bounded regular file")
      else
        record <- read_to_string p ;;
        let digest := commit_digest record in
        if bool_decide (length digest <> 64%nat) || negb (forallb lower_hexdigit digest)
        then pthrow (store_unsafe "installation commit record is malformed")
        else pret (Some digest)
  end.

Definition marker_lines (archive_digest : bytes) (package_root : path) : list bytes :=
  [str "version=1"; str "archive_sha256=" ++ hex_encode archive_digest;
   str "package=" ++ (let name := default [] (last package_root) in
                      if utf8_valid name then name else [])].

Definition validate_verified_marker (package_root : path) (archive_digest : bytes) : Up unit :=
  let marker := package_root ++ [str ".ocservia-package-verified"] in
  found <- pcatch (symlink_metadata marker) ;;
  match found with
  | Err _ => pthrow (store_package "verified package marker is missing")
  | Ok i =>
      if refused_record i then pthrow (store_package "verified package marker has unsafe metadata")
      else
        contents <- read_to_string marker ;;
        if bool_decide (split_on x0a (trim_newlines contents) <> marker_lines archive_digest package_root)
        then pthrow (store_package "verified package marker does not bind the authorized archive")
        else pret tt
  end.

Definition verify_package (r : UpgradeRunner) (archive : path) (expected_digest : bytes) : Up path :=
  validate_regular_executable (verifier r) ;;;
  output <- io (spawn (RunVerifier (verifier r) archive (hex_encode expected_digest) (destdir r))) ;;
  if negb (co_success output)
  then pthrow (store_package "verified package staging refused the spool inputs")
  else
    let package_root := components (trim (co_stdout output)) in
    match strip_components (RootDir :: (Normal <$> staging_root r)) package_root with
    | None => pthrow (store_package "verifier output escapes trusted staging")
    | Some relative =>
        if bool_decide (length relative <> 3%nat) || negb (forallb is_normal relative)
        then pthrow (store_package "verifier output is not a verified package root")
        else
          let package_root := staging_root r ++ normal_names relative in
          validate_directory_strict package_root ;;; pret package_root
    end.

Definition run_lifecycle (r : UpgradeRunner) (package_root : path) : Fs bytes unit :=
  let script := package_root ++ fixed_path "scripts/upgrade-agent.sh" in
  pmap_err UpgradeStoreError_fmt (validate_regular_executable script) ;;;
  output <- pmap_err io_error_text (spawn (RunLifecycle script (destdir r))) ;;
  if co_success output then pret tt
  else pthrow (str "upgrade-agent.sh exited with "
                 ++ match co_code output with None => str "a signal" | Some code => to_string code end
                 ++ str ": " ++ bounded_detail (co_stderr output)).

Definition restart_services : Fs bytes unit :=
  output <- pmap_err io_error_text
    (spawn (SystemctlTryRestart [str "ocservia-privd.service"; str "ocservia-agent.service"])) ;;
  if co_success output then pret tt else pthrow (str "systemctl try-restart failed").

(** Failures of the removal are only logged. *)
Definition cleanup_staging (r : UpgradeRunner) (package_root : path) : Up unit :=
  let staging := take (length package_root - 2) package_root in
  if bool_decide (2 <= length package_root)%nat
     && bool_decide (1 <= length staging)%nat
     && bool_decide (take (length staging - 1) staging = staging_root r)
  then pcatch (E := IoKind) (remove_dir_all staging) ;;; pret tt
  else pret tt.

Definition write_terminal (operation_dir : path) (intent : UpgradeIntent) (state : OperationState)
  (detail : bytes) : Up unit :=
  now <- clock_now ;;
  match now with
  | None => pthrow (store_unsafe "system clock unavailable")
  | Some completed =>
      write_atomic operation_dir (str "result")
        (result_record intent state (completed / NANOS_PER_SECOND) detail) TempRun ;;;
      write_atomic operation_dir (str "state") (state_line state) TempRun
  end.

Definition finish (operation_dir : path) (intent : UpgradeIntent) (detail : String.string)
  : Up OperationState :=
  write_terminal operation_dir intent OpSucceeded (str detail) ;;; pret OpSucceeded.

(** The refusal is returned whether or not it could be recorded. *)
Definition refuse (operation_dir : path) (intent : UpgradeIntent) (failure : UpgradeStoreError)
  : Up OperationState :=
  pcatch (E := UpgradeStoreError)
    (write_terminal operation_dir intent OpFailed (UpgradeStoreError_fmt failure)) ;;;
  pthrow failure.

(** [if let Err(failure) = m { return refuse(.., failure) }]. *)
Definition or_refuse {A} (operation_dir : path) (intent : UpgradeIntent) (m : Up A)
  (wrap : UpgradeStoreError -> UpgradeStoreError) (k : A -> Up OperationState) : Up OperationState :=
  outcome <- pcatch m ;;
  match outcome with
  | Ok a => k a
  | Err failure => refuse operation_dir intent (wrap failure)
  end.

Definition archive_name (intent : UpgradeIntent) : bytes :=
  str "ocservia-agent-" ++ ui_target_version intent ++ str "-linux-" ++ ui_architecture intent
  ++ str ".tar.gz".

(** The last part of [execute]: the replacement itself, once the package is
    verified and the state of the host is known. *)
Definition replace_binaries (r : UpgradeRunner) (operation_dir : path) (intent : UpgradeIntent)
  (package_root : path) (digest expected_agent expected_privd : bytes) (replaced : bool)
  : Up OperationState :=
  write_atomic operation_dir (str "state") (state_line OpRunning) TempRun ;;;
  if replaced then
    restarted <- pcatch (if is_real_host r then restart_services else pret tt) ;;
    match restarted with
    | Err failure => refuse operation_dir intent
                       (StoreLifecycle (str "service restart failed: " ++ failure))
    | Ok _ =>
        outcome <- pcatch (finish operation_dir intent "verified package already installed") ;;
        cleanup_staging r package_root ;;; plift outcome
    end
  else
    lifecycle <- pcatch (run_lifecycle r package_root) ;;
    match lifecycle with
    | Err failure => refuse operation_dir intent (StoreLifecycle failure)
    | Ok _ =>
        installed_agent <- sha256_if_present (installed_binary r (str "ocservia-agent")) ;;
        installed_privd <- sha256_if_present (installed_binary r (str "ocservia-privd")) ;;
        if bool_decide (installed_agent <> Some expected_agent)
           || bool_decide (installed_privd <> Some expected_privd)
        then refuse operation_dir intent
               (StoreLifecycle (str "lifecycle completed without installing the authorized binaries"))
        else
          commit <- read_installation_commit (installation_commit r) ;;
          if negb (bool_decide (commit = Some (hex_encode digest)))
          then refuse operation_dir intent
                 (StoreLifecycle (str "lifecycle completed without recording the installation commit"))
          else
            outcome <- pcatch (finish operation_dir intent "verified package lifecycle completed") ;;
            cleanup_staging r package_root ;;; plift outcome
    end.

Definition execute_upgrade (r : UpgradeRunner) (operation_dir : path) (intent : UpgradeIntent)
  : Up OperationState :=
  if bool_decide (runtime_architecture <> Some (ui_architecture intent))
  then refuse operation_dir intent (store_package "intent architecture mismatches this host")
  else
    let archive := spool_dir r ++ [archive_name intent] in
    or_refuse operation_dir intent (validate_spool_file archive) id (fun _ =>
    digest <- sha256_file archive ;;
    if bool_decide (digest <> ui_package_sha256 intent)
    then refuse operation_dir intent
           (store_package "spool package digest does not match the authorized intent")
    else
      or_refuse operation_dir intent (verify_package r archive (ui_package_sha256 intent))
        (fun failure => StorePackage (str "package verification failed: " ++ UpgradeStoreError_fmt failure))
        (fun package_root =>
      or_refuse operation_dir intent (validate_verified_marker package_root digest) id (fun _ =>
      let agent_source := package_root ++ fixed_path "rust/target/release/ocservia-agent" in
      let privd_source := package_root ++ fixed_path "rust/target/release/ocservia-privd" in
      or_refuse operation_dir intent (validate_regular_executable agent_source) id (fun _ =>
      or_refuse operation_dir intent (validate_regular_executable privd_source) id (fun _ =>
      expected_agent <- sha256_file agent_source ;;
      expected_privd <- sha256_file privd_source ;;
      installed_agent <- sha256_if_present (installed_binary r (str "ocservia-agent")) ;;
      installed_privd <- sha256_if_present (installed_binary r (str "ocservia-privd")) ;;
      let agent_matched := bool_decide (installed_agent = Some expected_agent) in
      let privd_matched := bool_decide (installed_privd = Some expected_privd) in
      commit <- read_installation_commit (installation_commit r) ;;
      let committed := bool_decide (commit = Some (hex_encode digest)) in
      let replaced := committed && agent_matched && privd_matched in
      if negb replaced && (agent_matched || privd_matched)
      then refuse operation_dir intent (store_unsafe
        "installation was interrupted before its commit record; the rollback snapshot is preserved")
      else replace_binaries r operation_dir intent package_root digest expected_agent expected_privd
             replaced))))).

(** The part of [run] under the execution lock. *)
Definition run_locked (r : UpgradeRunner) (operation_dir : path) (intent : UpgradeIntent)
  : Up OperationState :=
  cleanup_stale_temporaries operation_dir TempRun ;;;
  state <- load_state operation_dir ;;
  if is_terminal state then pret state else execute_upgrade r operation_dir intent.

Definition run_upgrade (r : UpgradeRunner) (operation : bytes) : Up OperationState :=
  operation_id <- plift (parse_canonical_operation operation) ;;
  let operations_root := operations_dir r in
  validate_directory_strict operations_root ;;;
  let operation_dir := operations_root ++ [uuid_to_string operation_id] in
  intent <- load_intent operation_dir ;;
  state <- load_state operation_dir ;;
  if is_terminal state then pret state
  else with_lock (acquire_execution operations_root) (operations_root ++ [EXECUTION_LOCK_FILE])
         (run_locked r operation_dir intent).

End Runner.
