(* ===== verification/UpgradeFacts.v ===== *)
(** The protocol the scheduler and the runner follow on the operations
    hierarchy: what a process may change while it holds which lock (its
    guarantee), what the others leave alone meanwhile (its rely), and the
    invariant of the store. *)

From stdpp Require Import base list gmap numbers countable strings.
From Stdlib Require Import ZArith Lia Bool Strings.Byte.
From S2P Require Import Prelude Bytes Text ConfigProfile Authorization Executor Concurrency.
From S2P Require Import Files Utf8 UpgradeRecords Upgrader UpgradeRunner.

Local Open Scope Z_scope.

Create HintDb upgrade.

Definition s_intent : bytes := str "intent".
Definition s_state : bytes := str "state".
Definition s_result : bytes := str "result".

Section Protocol.
Context {crypto : Crypto} {text : RecordText} {platform : Platform} {host : Host}.
Variable root : path.

(** * The store inside the file system *)

Definition node (d : Disk) (n : bytes) : option Inode := dk_nodes d !! (root ++ [n]).
Definition file (d : Disk) (n f : bytes) : option Inode := dk_nodes d !! (root ++ [n; f]).
Definition content (d : Disk) (n f : bytes) : option bytes := file_content (root ++ [n; f]) d.

Definition lock_path (o : TempOwner) : path :=
  root ++ [match o with TempSchedule => SCHEDULE_LOCK_FILE | TempRun => EXECUTION_LOCK_FILE end].

Definition holds (o : TempOwner) (tid : nat) (d : Disk) : Prop := dk_locks d !! lock_path o = Some tid.

Definition opname (n : bytes) : Prop := operation_entry n <> None.

Definition temp_prefix (record : bytes) (o : TempOwner) : bytes :=
  [x2e] ++ record ++ [x2e] ++ TempOwner_as_str o ++ str ".tmp".

Definition temp_of (o : TempOwner) (f : bytes) : Prop :=
  exists record rest, record ∈ [s_intent; s_state; s_result] /\ f = temp_prefix record o ++ rest.

Definition state_at (d : Disk) (n : bytes) : option OperationState :=
  match content d n s_state with
  | Some b => match OperationState_parse (take 64 b) with Ok s => Some s | Err _ => None end
  | None => None
  end.

Definition terminal (d : Disk) (n : bytes) : bool :=
  match state_at d n with Some s => is_terminal s | None => false end.

(** The operation exists and has not reached a final state. *)
Definition active (d : Disk) (n : bytes) : Prop :=
  opname n /\ node d n <> None /\ terminal d n = false.

(** The result file records [s] for the intent of the operation. *)
Definition evidence (d : Disk) (n : bytes) (s : OperationState) : Prop :=
  exists ib i t detail, content d n s_intent = Some ib /\ UpgradeIntent_parse ib = Ok i
    /\ content d n s_result = Some (result_record i s t detail).

Record Inv (d : Disk) : Prop := {
  inv_tree n f : opname n -> file d n f <> None -> exists i, node d n = Some i /\ is_dir i = true;
  inv_single n m : active d n -> active d m -> n = m;
  inv_intent n : opname n -> file d n s_state <> None -> file d n s_intent <> None;
  inv_evidence n s : opname n -> state_at d n = Some s -> is_terminal s = true -> evidence d n s }.

(** * Guarantee *)

Inductive file_move (tid : nat) (d d' : Disk) (n f : bytes) : Prop :=
| move_intent : f = s_intent -> holds TempSchedule tid d -> file d n s_intent = None ->
    file d n s_state = None -> file_move tid d d' n f
| move_accept : f = s_state -> holds TempSchedule tid d -> file d n s_state = None ->
    file d n s_intent <> None -> state_at d' n = Some OpAccepted -> file_move tid d d' n f
| move_state s : f = s_state -> holds TempRun tid d -> file d n s_state <> None ->
    terminal d n = false -> state_at d' n = Some s -> file d' n s_state <> None ->
    (is_terminal s = true -> evidence d' n s) -> file_move tid d d' n f
| move_result : f = s_result -> holds TempRun tid d -> terminal d n = false -> file_move tid d d' n f
| move_temp o : temp_of o f -> holds o tid d -> file_move tid d d' n f.

Record Guar (tid : nat) (d d' : Disk) : Prop := {
  g_locks o owner : owner <> tid -> holds o owner d -> holds o owner d';
  g_node n : opname n -> node d' n = node d n \/
    (node d n = None /\ holds TempSchedule tid d /\ (exists i, node d' n = Some i /\ is_dir i = true)
     /\ forall m, m <> n -> node d' m = node d m /\ ~ active d m);
  g_file n f : opname n -> file d' n f = file d n f \/
    ((exists i, node d n = Some i /\ is_dir i = true) /\ file_move tid d d' n f) }.

(** * Rely *)

Record Rely (tid : nat) (d d' : Disk) : Prop := {
  r_inv : Inv d -> Inv d';
  r_holds o : holds o tid d -> holds o tid d';
  r_node n i : opname n -> node d n = Some i -> node d' n = Some i;
  r_node_held n : opname n -> holds TempSchedule tid d -> node d' n = node d n;
  r_intent n i : opname n -> file d n s_intent = Some i -> file d' n s_intent = Some i;
  r_intent_held n : opname n -> holds TempSchedule tid d -> file d' n s_intent = file d n s_intent;
  r_state_none n : opname n -> holds TempSchedule tid d -> file d n s_state = None ->
    file d' n s_state = None;
  r_state_held n : opname n -> holds TempRun tid d -> file d n s_state <> None ->
    file d' n s_state = file d n s_state;
  r_state_some n : opname n -> file d n s_state <> None -> file d' n s_state <> None;
  r_result_held n : opname n -> holds TempRun tid d -> file d' n s_result = file d n s_result;
  r_terminal n : opname n -> terminal d n = true ->
    file d' n s_state = file d n s_state /\ file d' n s_result = file d n s_result;
  r_temp n o f : opname n -> temp_of o f -> holds o tid d -> file d' n f = file d n f }.

Lemma content_file d n f : content d n f =
  match file d n f with Some (mkInode (Regular b) _ _ _) => Some b | _ => None end.
Proof. reflexivity. Qed.

Lemma content_ext d d' n f : file d' n f = file d n f -> content d' n f = content d n f.
Proof. intros E. by rewrite !content_file, E. Qed.

Lemma content_some d n f b : content d n f = Some b -> file d n f <> None.
Proof. rewrite content_file. by destruct (file d n f). Qed.

Lemma state_at_ext d d' n : file d' n s_state = file d n s_state -> state_at d' n = state_at d n.
Proof. intros E. unfold state_at. by rewrite (content_ext _ _ _ _ E). Qed.

Lemma state_at_some d n s : state_at d n = Some s -> file d n s_state <> None.
Proof. unfold state_at. destruct (content d n s_state) eqn:E; [|done]. intros _. by eapply content_some. Qed.

Lemma terminal_ext d d' n : file d' n s_state = file d n s_state -> terminal d' n = terminal d n.
Proof. intros E. unfold terminal. by rewrite (state_at_ext _ _ _ E). Qed.

Lemma terminal_some d n : terminal d n = true -> file d n s_state <> None.
Proof.
  unfold terminal. destruct (state_at d n) eqn:E; [|done]. intros _. by eapply state_at_some.
Qed.

(** Temporaries are not records, and belong to one owner. *)

Lemma temp_dot o f : temp_of o f -> exists rest, f = x2e :: rest.
Proof. intros (record & rest & _ & ->). eexists. reflexivity. Qed.

Lemma temp_not_record o f : temp_of o f -> f <> s_intent /\ f <> s_state /\ f <> s_result.
Proof. intros (rest & ->)%temp_dot. done. Qed.

Lemma temp_owner o o' f : temp_of o f -> temp_of o' f -> o = o'.
Proof.
  intros (r & t & Hr & ->) (r' & t' & Hr' & E).
  assert (forall a b, diverge a b = true -> a ++ t = b ++ t' -> False) as D.
  { intros a b Hd He. by apply (diverge_app _ _ _ _ Hd) in He. }
  rewrite !elem_of_cons, elem_of_nil in Hr, Hr'.
  destruct o, o'; [done| | |done]; exfalso;
    destruct Hr as [->|[->|[->|[]]]], Hr' as [->|[->|[->|[]]]];
    (eapply D; [|exact E]; reflexivity).
Qed.

(** * The guarantee preserves the invariant *)

Section Move.
Context (tid : nat) (d d' : Disk) (HI : Inv d) (HG : Guar tid d d').

Lemma guar_node n i : opname n -> node d n = Some i -> node d' n = Some i.
Proof. intros O L. destruct (g_node _ _ _ HG n O) as [E|(E & _)]; congruence. Qed.

Lemma guar_file_some n f : opname n -> file d' n f <> None ->
  file d n f <> None \/ exists i, node d n = Some i /\ is_dir i = true.
Proof.
  intros O L. destruct (g_file _ _ _ HG n f O) as [E|[D _]]; [|by right]. left. by rewrite <- E.
Qed.

Lemma guar_intent n i : opname n -> file d n s_intent = Some i -> file d' n s_intent = Some i.
Proof.
  intros O L. destruct (g_file _ _ _ HG n s_intent O) as [E|[_ M]]; [congruence|].
  destruct M as [_ _ N|F|s F|F|o T]; try discriminate; [congruence|].
  by destruct (temp_not_record _ _ T) as (N & _).
Qed.

Lemma guar_terminal n : opname n -> terminal d n = true ->
  file d' n s_state = file d n s_state /\ file d' n s_result = file d n s_result.
Proof.
  intros O T. split.
  - destruct (g_file _ _ _ HG n s_state O) as [E|[_ M]]; [done|].
    destruct M as [F|_ _ N|s _ _ _ N|F|o F]; try discriminate.
    + by apply terminal_some in T.
    + congruence.
    + by destruct (temp_not_record _ _ F) as (_ & N & _).
  - destruct (g_file _ _ _ HG n s_result O) as [E|[_ M]]; [done|].
    destruct M as [F|F|s F|_ _ N|o F]; try discriminate; [congruence|].
    by destruct (temp_not_record _ _ F) as (_ & _ & N).
Qed.

Lemma guar_state_some n : opname n -> file d n s_state <> None -> file d' n s_state <> None.
Proof.
  intros O S. destruct (g_file _ _ _ HG n s_state O) as [E|[_ M]]; [by rewrite E|].
  destruct M as [F|_ _ N|s _ _ _ _ _ N|F|o F]; try discriminate; [done|done|].
  by destruct (temp_not_record _ _ F) as (_ & N & _).
Qed.

Lemma guar_terminal_stays n : opname n -> terminal d n = true -> terminal d' n = true.
Proof. intros O T. destruct (guar_terminal n O T) as [E _]. by rewrite (terminal_ext _ _ _ E). Qed.

(** A newly active operation finds every other one finished. *)
Lemma guar_active n m : active d' n -> active d' m -> n <> m -> active d n.
Proof.
  intros (O & N & T) (Om & Nm & Tm) Hnm.
  assert (forall k, opname k -> terminal d' k = false -> terminal d k = false) as TF.
  { intros k Ok Tk. destruct (terminal d k) eqn:E; [|done].
    rewrite (guar_terminal_stays k Ok E) in Tk. done. }
  destruct (g_node _ _ _ HG n O) as [E|(_ & _ & _ & A)].
  - split_and!; [done|by rewrite <- E|by apply TF].
  - destruct (A m) as [E NA]; [congruence|]. destruct NA.
    split_and!; [done|by rewrite <- E|by apply TF].
Qed.

Lemma guar_evidence n s : opname n -> state_at d' n = Some s -> is_terminal s = true -> evidence d' n s.
Proof.
  intros O E T. destruct (g_file _ _ _ HG n s_state O) as [Es|[_ M]].
  - rewrite (state_at_ext _ _ _ Es) in E.
    destruct (inv_evidence _ HI n s O E T) as (ib & i & t & x & E1 & E2 & E3).
    exists ib, i, t, x. split_and!; [|done|].
    + pose proof (content_some _ _ _ _ E1) as N. destruct (file d n s_intent) as [j|] eqn:Ej; [|done].
      rewrite (content_ext d d'); [done|]. rewrite Ej. by apply guar_intent.
    + rewrite (content_ext d d'); [done|]. apply guar_terminal; [done|]. unfold terminal. by rewrite E.
  - destruct M as [F|_ _ _ _ A|s' _ _ _ _ A _ V|F|o F]; try discriminate.
    + rewrite A in E. injection E as <-. done.
    + rewrite A in E. injection E as ->. by apply V.
    + by destruct (temp_not_record _ _ F) as (_ & N & _).
Qed.

Lemma guar_inv : Inv d'.
Proof.
  split.
  - intros n f O L. assert (exists i, node d n = Some i /\ is_dir i = true) as (i & E & D).
    { destruct (guar_file_some n f O L) as [H|H]; [by apply (inv_tree _ HI n f)|done]. }
    exists i. split; [by apply guar_node|done].
  - intros n m An Am. destruct (decide (n = m)) as [|N]; [done|].
    apply (inv_single _ HI); [by apply (guar_active n m)|by apply (guar_active m n)].
  - intros n O L. assert (file d n s_intent <> None) as H.
    { destruct (g_file _ _ _ HG n s_state O) as [E|[_ M]].
      - apply (inv_intent _ HI); [done|congruence].
      - destruct M as [F|_ _ _ H|s _ _ H|F|o F]; try discriminate; [done|by apply (inv_intent _ HI)|].
        by destruct (temp_not_record _ _ F) as (_ & N & _). }
    destruct (file d n s_intent) as [i|] eqn:E; [|done]. by rewrite (guar_intent n i).
  - apply guar_evidence.
Qed.

(** What one process does is what the others rely on. *)
Lemma guar_rely tid' : tid <> tid' -> Rely tid' d d'.
Proof.
  intros N.
  assert (forall o, holds o tid d -> holds o tid' d -> False) as X.
  { intros o H1 H2. unfold holds in *. congruence. }
  split.
  - intros _. exact guar_inv.
  - intros o H. by apply (g_locks _ _ _ HG).
  - intros n i O L. by apply guar_node.
  - intros n O H. destruct (g_node _ _ _ HG n O) as [E|(_ & H' & _)]; [done|by destruct (X _ H' H)].
  - intros n i O L. by apply guar_intent.
  - intros n O H. destruct (g_file _ _ _ HG n s_intent O) as [E|[_ M]]; [done|].
    destruct M as [_ H'|F|s F|F|o F]; try discriminate; [by destruct (X _ H' H)|].
    by destruct (temp_not_record _ _ F) as (N' & _).
  - intros n O H E. destruct (g_file _ _ _ HG n s_state O) as [E'|[_ M]]; [congruence|].
    destruct M as [F|_ H'|s _ _ H'|F|o F]; try discriminate; [by destruct (X _ H' H)|done|].
    by destruct (temp_not_record _ _ F) as (_ & N' & _).
  - intros n O H E. destruct (g_file _ _ _ HG n s_state O) as [E'|[_ M]]; [done|].
    destruct M as [F|_ _ H'|s _ H'|F|o F]; try discriminate; [done|by destruct (X _ H' H)|].
    by destruct (temp_not_record _ _ F) as (_ & N' & _).
  - intros n O E. by apply guar_state_some.
  - intros n O H. destruct (g_file _ _ _ HG n s_result O) as [E'|[_ M]]; [done|].
    destruct M as [F|F|s F|_ H'|o F]; try discriminate; [by destruct (X _ H' H)|].
    by destruct (temp_not_record _ _ F) as (_ & _ & N').
  - intros n O T. by apply guar_terminal.
  - intros n o f O F H. destruct (g_file _ _ _ HG n f O) as [E'|[_ M]]; [done|].
    destruct (temp_not_record _ _ F) as (N1 & N2 & N3).
    destruct M as [F'|F'|s F'|F'|o' F' H']; try done.
    rewrite (temp_owner _ _ _ F' F) in H'. by destruct (X _ H' H).
Qed.

End Move.

#[global] Instance Rely_preorder tid : PreOrder (Rely tid).
Proof.
  split.
  - intros d. split; naive_solver.
  - intros d1 d2 d3 H1 H2.
    assert (forall o, holds o tid d1 -> holds o tid d2) as HH by apply (r_holds _ _ _ H1).
    split.
    + intros HI. by apply (r_inv _ _ _ H2), (r_inv _ _ _ H1).
    + intros o H. by apply (r_holds _ _ _ H2), HH.
    + intros n i O L. apply (r_node _ _ _ H2); [done|]. by apply (r_node _ _ _ H1).
    + intros n O H. rewrite (r_node_held _ _ _ H2 n O (HH _ H)). by apply (r_node_held _ _ _ H1).
    + intros n i O L. apply (r_intent _ _ _ H2); [done|]. by apply (r_intent _ _ _ H1).
    + intros n O H. rewrite (r_intent_held _ _ _ H2 n O (HH _ H)). by apply (r_intent_held _ _ _ H1).
    + intros n O H E. apply (r_state_none _ _ _ H2); [done|by apply HH|]. by apply (r_state_none _ _ _ H1).
    + intros n O H E. pose proof (r_state_held _ _ _ H1 n O H E) as E1.
      rewrite (r_state_held _ _ _ H2 n O (HH _ H)); [done|by rewrite E1].
    + intros n O E. apply (r_state_some _ _ _ H2); [done|]. by apply (r_state_some _ _ _ H1).
    + intros n O H. rewrite (r_result_held _ _ _ H2 n O (HH _ H)). by apply (r_result_held _ _ _ H1).
    + intros n O T. destruct (r_terminal _ _ _ H1 n O T) as [E1 E2].
      assert (terminal d2 n = true) as T2 by (by rewrite (terminal_ext _ _ _ E1)).
      destruct (r_terminal _ _ _ H2 n O T2) as [E3 E4]. split; congruence.
    + intros n o f O F H. rewrite (r_temp _ _ _ H2 n o f O F (HH _ H)). by apply (r_temp _ _ _ H1 n o).
Qed.

(** The end of a process frees its locks and changes nothing else. *)
Lemma release_inv tid d : Inv d -> Inv (release_locks tid d).
Proof. intros HI. destruct HI as [I1 I2 I3 I4]. split; [exact I1|exact I2|exact I3|exact I4]. Qed.

Lemma release_rely tid tid' d : tid <> tid' -> Rely tid' d (release_locks tid d).
Proof.
  intros N. split; try naive_solver; [by apply release_inv|].
  intros o H. unfold holds, release_locks in *. simpl. rewrite map_lookup_filter_Some. naive_solver.
Qed.

End Protocol.

(** The program logic on the operations hierarchy: calls that may fail, and
    programs that only look. *)

Local Open Scope prog_scope.

(** The probes for the existence of a file ([present]) answer; every other call
    may still fail. *)
Definition reliable (c : Choice) : Prop := ch_probe_fault c = false.

Section Logic.
Context {crypto : Crypto} {text : RecordText} {platform : Platform} {host : Host}.
Variable root : path.
Variable tid : nat.

Abbreviation R := (Rely root tid).
Abbreviation G := (Guar root tid).
Abbreviation Stable := (Stable R).
Abbreviation triple := (triple R G reliable tid).

Lemma triple_call {A} P (f : Disk -> result IoKind (A * Disk)) Q :
  Stable P -> (forall r, Stable (Q r)) -> (forall d, P d -> Q (Err OtherIo) d) ->
  (forall d, G d d) ->
  (forall d, P d -> match f d with
               | Ok (a, d') => G d d' /\ Q (Ok a) d'
               | Err e => Q (Err e) d
               end) ->
  triple P (call f) Q.
Proof.
  intros HS HQ HF HG H. apply triple_act; [done|done|]. intros d c r d' HP _ E.
  specialize (H d HP). destruct (ch_fault c); [injection E as <- <-; by split; [|apply HF]|].
  destruct (f d) as [[a d2]|e]; injection E as <- <-; [done|by split].
Qed.

(** * Programs that only look *)

Fixpoint read_only {E A} (m : Fs E A) : Prop :=
  match m with
  | Done _ => True
  | Step a k => (forall t c d b d', a t c d = Some (b, d') -> d' = d) /\ forall b, read_only (k b)
  end.

Lemma guar_same d : G d d.
Proof. split; naive_solver. Qed.

Lemma triple_reads {E A} P (m : Fs E A) : read_only m -> Stable P -> triple P m (fun _ => P).
Proof.
  intros H HS. induction m as [r|B a k IH]; intros d HP.
  - split; [done|]. intros d1 HR. by apply (HS d).
  - destruct H as [Ha Hk]. intros d1 HR c b d2 _ Ef. rewrite (Ha _ _ _ _ _ Ef).
    split; [apply guar_same|]. apply (IH b (Hk b)). by apply (HS d).
Qed.

Lemma triple_read {E A} P (m : Fs E A) : read_only m -> Stable P -> triple P m (post (fun _ => P) P).
Proof. intros H HS. eapply triple_conseq; [by apply triple_reads|done|]. by intros [a|e] d. Qed.

Lemma read_only_then {E F A B} (m : Fs E A) (k : result E A -> Fs F B) :
  read_only m -> (forall r, read_only (k r)) -> read_only (pthen m k).
Proof.
  intros Hm Hk. induction m as [r|D a c IH]; [apply Hk|].
  destruct Hm as [Ha Hc]. split; [exact Ha|]. intros b. by apply IH.
Qed.

Lemma read_only_pbind {E A B} (m : Fs E A) (k : A -> Fs E B) :
  read_only m -> (forall a, read_only (k a)) -> read_only (pbind m k).
Proof. intros Hm Hk. apply read_only_then; [done|]. intros [a|e]; [apply Hk|done]. Qed.

Lemma read_only_call {A} (f : Disk -> result IoKind (A * Disk)) :
  (forall d a d', f d = Ok (a, d') -> d' = d) -> read_only (call f).
Proof.
  intros H. split; [|done]. intros t c d b d' E.
  destruct (ch_fault c); [by injection E as <- <-|].
  destruct (f d) as [[a d2]|e] eqn:Ef; injection E as <- <-; [by eapply H|done].
Qed.

Lemma read_only_map_err {E F A} (f : E -> F) (m : Fs E A) : read_only m -> read_only (pmap_err f m).
Proof. intros Hm. by apply read_only_then. Qed.

Lemma read_only_catch {E F A} (m : Fs E A) : read_only m -> read_only (pcatch (F := F) m).
Proof. intros Hm. by apply read_only_then. Qed.

Lemma read_only_metadata p : read_only (symlink_metadata p).
Proof. apply read_only_call. intros d a d'. destruct (dk_nodes d !! p); congruence. Qed.

Lemma read_only_read p : read_only (read p).
Proof.
  apply read_only_call. intros d a d'. destruct (dk_nodes d !! p) as [[[] ? ? ?]|]; congruence.
Qed.

Lemma read_only_read_dir p : read_only (read_dir p).
Proof.
  apply read_only_call. intros d a d'. destruct (dk_nodes d !! p); [|congruence].
  destruct (is_dir _); congruence.
Qed.

Lemma read_only_sync_dir p : read_only (sync_dir p).
Proof. apply read_only_call. intros d a d'. case_bool_decide; congruence. Qed.

Lemma read_only_present {E} p : read_only (present (E := E) p).
Proof. split; [|done]. intros t c d b d' H. destruct (ch_probe_fault c); by injection H as _ <-. Qed.

Lemma read_only_sync_all p : read_only (sync_all p).
Proof. apply read_only_call. congruence. Qed.

Lemma read_only_now_v7 {E} : read_only (now_v7 (E := E)).
Proof. split; [|done]. intros t c d b d' H. by injection H as _ <-. Qed.

Lemma read_only_clock {E} : read_only (clock_now (E := E)).
Proof. split; [|done]. intros t c d b d' H. by injection H as _ <-. Qed.

End Logic.

Create HintDb reads.
#[export] Hint Resolve read_only_metadata read_only_read read_only_read_dir read_only_sync_dir
  read_only_present read_only_sync_all read_only_now_v7 read_only_clock
  read_only_map_err read_only_catch : reads.

(** Shows that a program only looks, by its structure. *)
Ltac reading :=
  repeat first
    [ progress intros
    | exact Logic.I
    | match goal with
      | |- read_only (match ?x with _ => _ end) => destruct x
      | |- read_only (if ?x then _ else _) => destruct x
      | |- read_only (pbind _ _) => apply read_only_pbind
      | |- read_only (io _) => apply read_only_map_err
      end
    | solve [auto with reads] ].
