(* ===== verification/UpgradeProofs.v ===== *)
(** The scheduler and the runner keep to the protocol of [UpgradeFacts]. *)

From stdpp Require Import base list gmap numbers countable strings.
From Stdlib Require Import ZArith Lia Bool.
From Stdlib Require Import Strings.Byte.
From S2P Require Import Prelude Bytes Text Authorization ConfigProfile Executor.
From S2P Require Import Concurrency Files Utf8 UpgradeRecords Upgrader UpgradeRunner.
From S2P Require Import UpgradeFacts.

Local Open Scope Z_scope.
Local Open Scope prog_scope.

Section Proofs.
Context {crypto : Crypto} {text : RecordText} {platform : Platform} {host : Host}.
Variable root : path.
Variable tid : nat.

Abbreviation R := (Rely root tid).
Abbreviation G := (Guar root tid).
Abbreviation node := (node root).
Abbreviation file := (file root).
Abbreviation holds o := (holds root o tid).
Abbreviation triple := (triple R G reliable tid).
Abbreviation Stable := (Stable R).

(** * Paths *)

Lemma opname_length n : opname n -> length n = 36%nat.
Proof.
  unfold opname, operation_entry. destruct (uuid_parse_str n) as [u|] eqn:E; [|done].
  apply uuid_parse_length in E. case_bool_decide as D; [done|]. intros _.
  rewrite D. by apply uuid_string_length.
Qed.

Lemma opname_of u : length u = 16%nat -> uuid_version u = 7 -> operation_entry (uuid_to_string u) = Some u.
Proof.
  intros L V. unfold operation_entry. rewrite uuid_parse_to_string by done.
  rewrite bool_decide_false by tauto. by rewrite V.
Qed.

Lemma operation_entry_name n u : operation_entry n = Some u -> n = uuid_to_string u.
Proof.
  unfold operation_entry. destruct (uuid_parse_str n) as [v|]; [|done].
  case_bool_decide as D; [done|]. simpl.
  destruct (negb _); [done|]. congruence.
Qed.

Lemma app_root_inj (p q : path) : root ++ p = root ++ q -> p = q.
Proof. apply app_inv_head. Qed.

Lemma parent_exists_child n d : parent_exists (root ++ [n]) d
  = match dk_nodes d !! root with Some i => is_dir i | None => false end.
Proof. unfold parent_exists. rewrite rev_app_distr. simpl. by rewrite rev_involutive. Qed.

Lemma parent_exists_file n f d : parent_exists (root ++ [n; f]) d
  = match node d n with Some i => is_dir i | None => false end.
Proof.
  unfold parent_exists, UpgradeFacts.node. rewrite rev_app_distr. simpl.
  by rewrite rev_involutive.
Qed.

Lemma node_set_file n f i d m : node (set_node (root ++ [n; f]) i d) m = node d m.
Proof.
  unfold UpgradeFacts.node, set_node. simpl. apply lookup_insert_ne.
  intros E%app_root_inj. discriminate.
Qed.

Lemma node_remove_file n f d m : node (remove_node (root ++ [n; f]) d) m = node d m.
Proof.
  unfold UpgradeFacts.node, remove_node. simpl. apply lookup_delete_ne.
  intros E%app_root_inj. discriminate.
Qed.

Lemma file_set_eq n f i d : file (set_node (root ++ [n; f]) i d) n f = Some i.
Proof. unfold UpgradeFacts.file, set_node. simpl. apply lookup_insert_eq. Qed.

Lemma file_set_ne n f i d m g : (m, g) <> (n, f) -> file (set_node (root ++ [n; f]) i d) m g = file d m g.
Proof.
  intros N. unfold UpgradeFacts.file, set_node. simpl. apply lookup_insert_ne.
  intros E%app_root_inj. congruence.
Qed.

Lemma file_remove_ne n f d m g : (m, g) <> (n, f) -> file (remove_node (root ++ [n; f]) d) m g = file d m g.
Proof.
  intros N. unfold UpgradeFacts.file, remove_node. simpl. apply lookup_delete_ne.
  intros E%app_root_inj. congruence.
Qed.

(** * Moves within the guarantee *)

(** Outside the protected part of the tree a process may do what it likes. *)
Lemma guar_outside d d' :
  (forall o owner, owner <> tid -> UpgradeFacts.holds root o owner d -> UpgradeFacts.holds root o owner d') ->
  (forall n, opname n -> node d' n = node d n) ->
  (forall n f, opname n -> file d' n f = file d n f) -> G d d'.
Proof. intros H1 H2 H3. split; [done|by left; apply H2|by left; apply H3]. Qed.

Lemma guar_locks_only d d' :
  dk_nodes d' = dk_nodes d ->
  (forall l owner, owner <> tid -> dk_locks d !! l = Some owner -> dk_locks d' !! l = Some owner) -> G d d'.
Proof.
  intros E H. apply guar_outside.
  - intros o owner N. apply H, N.
  - intros n _. unfold UpgradeFacts.node. by rewrite E.
  - intros n f _. unfold UpgradeFacts.file. by rewrite E.
Qed.

(** A change of temporaries and of at most one record. *)
Lemma guar_files n d d' :
  dk_locks d' = dk_locks d -> (forall m, node d' m = node d m) ->
  (exists i, node d n = Some i /\ is_dir i = true) ->
  (forall m f, file d' m f = file d m f \/ (m = n /\ file_move root tid d d' n f)) -> G d d'.
Proof.
  intros HL HN HD HF. split.
  - intros o owner _. unfold UpgradeFacts.holds. by rewrite HL.
  - intros m _. left. apply HN.
  - intros m f O. destruct (HF m f) as [E|[-> M]]; [by left|right; done].
Qed.

Definition temp_move (o : TempOwner) (n : bytes) (d d' : Disk) : Prop :=
  dk_locks d' = dk_locks d /\ (forall m, node d' m = node d m) /\
  exists t, temp_of o t /\ forall m f, (m, f) <> (n, t) -> file d' m f = file d m f.

Lemma temp_move_guar o n d d' : temp_move o n d d' -> holds o d ->
  (exists i, node d n = Some i /\ is_dir i = true) -> G d d'.
Proof.
  intros (HL & HN & t & Ht & HF) Ho HD. apply (guar_files n); [done|done|done|].
  intros m f. destruct (decide ((m, f) = (n, t))) as [E|E]; [|left; by apply HF].
  injection E as -> ->. right. split; [done|]. by apply (move_temp _ _ _ _ _ _ o).
Qed.

Lemma temp_move_set o n t i d : temp_of o t -> temp_move o n d (set_node (root ++ [n; t]) i d).
Proof.
  intros Ht. split; [done|]. split; [intros m; apply node_set_file|].
  exists t. split; [done|]. intros m f N. by apply file_set_ne.
Qed.

Lemma temp_move_remove o n t d : temp_of o t -> temp_move o n d (remove_node (root ++ [n; t]) d).
Proof.
  intros Ht. split; [done|]. split; [intros m; apply node_remove_file|].
  exists t. split; [done|]. intros m f N. by apply file_remove_ne.
Qed.

(** * [write_atomic] *)

Lemma temp_name_of name o id : name ∈ [s_intent; s_state; s_result] -> temp_of o (temp_name name o id).
Proof.
  intros Hn. exists name, ([x2e] ++ uuid_to_string id). split; [done|].
  unfold temp_name, temp_prefix. by rewrite <- !app_assoc.
Qed.

Section WriteAtomic.
Variables (o : TempOwner) (n f b : bytes).
Variables (K K' : Disk -> Prop).
Hypothesis On : opname n.
Hypothesis Hf : f ∈ [s_intent; s_state; s_result].
Hypothesis HK : forall d, K d -> holds o d /\ exists i, node d n = Some i /\ is_dir i = true.
Context `{!Stable K, !Stable K'}.
Hypothesis KT : forall d d', K d -> temp_move o n d d' -> K d'.
(** Putting the new contents in place, the temporary gone. *)
Hypothesis KM : forall d d' i, K d -> dk_locks d' = dk_locks d -> (forall m, node d' m = node d m) ->
  ino_kind i = Regular b -> file d' n f = Some i ->
  (forall m g, (m, g) <> (n, f) -> (m = n -> ~ temp_of o g) -> file d' m g = file d m g) ->
  file_move root tid d d' n f /\ (G d d' -> K' d').

Definition with_temp (t : bytes) (x : option Inode) (d : Disk) : Prop := K d /\ file d n t = x.

#[local] Instance with_temp_stable t x : temp_of o t -> Stable (with_temp t x).
Proof.
  intros Ht d d' HR [H E]. split; [by eapply stable|].
  rewrite (r_temp _ _ _ _ HR n o t On Ht); [done|]. by apply HK.
Qed.

Lemma K_temp d d' : K d -> temp_move o n d d' -> G d d' /\ K d'.
Proof.
  intros H M. destruct (HK d H) as [Ho HD]. split; [by apply (temp_move_guar o n)|by apply (KT d)].
Qed.

Lemma triple_create t : temp_of o t ->
  triple K (create_new trusted_euid (oct 6 0 0) (root ++ [n; t]))
    (post (fun _ => with_temp t (Some (mkInode (Regular []) trusted_euid (oct 6 0 0) 1))) K).
Proof.
  intros Ht. apply triple_call; [apply _| |done|apply guar_same|].
  - intros r. apply Stable_post; [intros _; by apply with_temp_stable|apply _].
  - intros d H. case_bool_decide; [done|]. destruct (negb _); [done|].
    destruct (K_temp d _ H (temp_move_set o n t
      (mkInode (Regular []) trusted_euid (oct 6 0 0) 1) d Ht)) as [HG HK'].
    split; [done|]. split; [done|]. apply file_set_eq.
Qed.

Lemma triple_write t i : temp_of o t -> ino_kind i = Regular [] ->
  triple (with_temp t (Some i)) (write_all (root ++ [n; t]) b)
    (post (fun _ => with_temp t (Some (mkInode (Regular b) (ino_uid i) (ino_mode i) (ino_nlink i)))) K).
Proof.
  intros Ht Hi. apply triple_act; [by apply with_temp_stable| |].
  - intros r. apply Stable_post; [intros _; by apply with_temp_stable|apply _].
  - intros d c r d' [H E] _ Hr.
    assert (forall x, append_to (root ++ [n; t]) x d
      = set_node (root ++ [n; t]) (mkInode (Regular x) (ino_uid i) (ino_mode i) (ino_nlink i)) d) as EA.
    { intros x. unfold append_to. unfold UpgradeFacts.file in E. rewrite E.
      destruct i as [k u m l]. simpl in Hi. subst k. done. }
    assert (forall x, G d (append_to (root ++ [n; t]) x d) /\ K (append_to (root ++ [n; t]) x d)) as HA.
    { intros x. rewrite EA. by apply K_temp; [|apply temp_move_set]. }
    destruct (ch_fault c); injection Hr as <- <-; (split; [by apply HA|]).
    + by apply HA.
    + split; [by apply HA|]. rewrite EA. apply file_set_eq.
Qed.

Lemma triple_rename t i : temp_of o t -> ino_kind i = Regular b ->
  triple (with_temp t (Some i)) (rename (root ++ [n; t]) (root ++ [n; f])) (post (fun _ => K') K).
Proof.
  intros Ht Hi. apply triple_call; [by apply with_temp_stable| |by intros d []|apply guar_same|].
  - intros r. apply Stable_post; [intros _|]; apply _.
  - intros d [H E]. unfold UpgradeFacts.file in E. rewrite E.
    rewrite parent_exists_file. destruct (HK d H) as [Ho (j & Ej & Dj)]. rewrite Ej, Dj. simpl.
    destruct (match dk_nodes d !! (root ++ [n; f]) with Some _ => _ | None => _ end); [done|].
    set (d' := set_node _ _ _).
    assert (t <> f) as Ntf.
    { intros ->. apply temp_not_record in Ht as (N1 & N2 & N3).
      rewrite !elem_of_cons, elem_of_nil in Hf. naive_solver. }
    assert (forall m g, (m, g) <> (n, f) -> (m = n -> ~ temp_of o g) -> file d' m g = file d m g) as HF.
    { intros m g N1 N2. unfold d'. rewrite file_set_ne by done. apply file_remove_ne.
      intros X. injection X as -> ->. by apply N2. }
    destruct (KM d d' i H) as [M HK']; [done| |done|by apply file_set_eq|done|].
    { intros m. unfold d'. by rewrite node_set_file, node_remove_file. }
    assert (G d d') as HG; [|by split; [|apply HK']]. apply (guar_files n); [done| |by exists j|].
    { intros m. unfold d'. by rewrite node_set_file, node_remove_file. }
    intros m g. destruct (decide ((m, g) = (n, f))) as [X|X]; [injection X as -> ->; by right|].
    destruct (decide ((m, g) = (n, t))) as [Y|Y].
    + injection Y as -> ->. right. split; [done|]. by apply (move_temp _ _ _ _ _ _ o).
    + left. unfold d'. rewrite file_set_ne by done. by apply file_remove_ne.
Qed.

Lemma triple_write_atomic :
  triple K (write_atomic (root ++ [n]) f b o) (post (fun _ => K') (fun d => K d \/ K' d)).
Proof.
  assert (Stable (fun d => K d \/ K' d)) as SKK.
  { intros d d' HR [H|H]; [left|right]; by eapply stable. }
  unfold write_atomic. eapply triple_seq; [by apply triple_read; [reading|]| |apply _|by left].
  intros id. rewrite <- !app_assoc. simpl. pose proof (temp_name_of f o id Hf) as Ht.
  eapply triple_seq; [apply triple_recode; [by apply triple_create|intros ?; by apply with_temp_stable|apply _]
    | |apply _|by left].
  intros ?. eapply triple_seq; [apply triple_recode;
    [by apply triple_write|intros ?; by apply with_temp_stable|apply _]| |apply _|by left].
  intros ?. eapply triple_seq; [apply triple_read; [by reading|by apply with_temp_stable]|
    |by apply with_temp_stable|by intros e d []; left].
  intros ?. eapply triple_seq; [apply triple_recode; [by apply triple_rename|intros ?; apply _|apply _]|
    |apply _|by left].
  intros ?. eapply triple_conseq; [apply triple_read; [|exact Stable1]|done|].
  - unfold sync_directory. by reading.
  - intros [] d H; [done|by right].
Qed.

End WriteAtomic.
(** * What a lock holder knows *)

Definition held (o : TempOwner) (d : Disk) : Prop := Inv root d /\ holds o d.

#[local] Instance held_stable o : Stable (held o).
Proof. intros d d' HR [HI Ho]. split; [by apply (r_inv _ _ _ _ HR)|by apply (r_holds _ _ _ _ HR)]. Qed.

(** The operation as the scheduler finds it: its directory and records. *)
Definition sched_absent (n : bytes) (d : Disk) : Prop := held TempSchedule d /\ node d n = None.

Definition has_dir (n : bytes) (d : Disk) : Prop := exists i, node d n = Some i /\ is_dir i = true.

Definition sched_bare (n : bytes) (d : Disk) : Prop :=
  held TempSchedule d /\ has_dir n d /\ file d n s_intent = None /\ file d n s_state = None.

Definition sched_intent (n : bytes) (d : Disk) : Prop :=
  held TempSchedule d /\ has_dir n d /\ file d n s_intent <> None /\ file d n s_state = None.

(** Every other operation is finished. *)
Definition alone (n : bytes) (d : Disk) : Prop :=
  held TempSchedule d /\ forall m, opname m -> m <> n -> node d m <> None -> terminal root d m = true.

Lemma has_dir_stable n : opname n -> Stable (has_dir n).
Proof. intros O d d' HR (i & E & D). exists i. split; [by apply (r_node _ _ _ _ HR)|done]. Qed.

#[local] Instance sched_absent_stable n : opname n -> Stable (sched_absent n).
Proof.
  intros O d d' HR [H E]. split; [by apply (held_stable _ d)|]. rewrite (r_node_held _ _ _ _ HR); [done|done|apply H].
Qed.

Lemma sched_bare_stable n : opname n -> Stable (sched_bare n).
Proof.
  intros O d d' HR (H & D & E1 & E2). split_and!; [by apply (held_stable _ d)|by apply (has_dir_stable n O d)| |].
  - rewrite (r_intent_held _ _ _ _ HR); [done|done|apply H].
  - apply (r_state_none _ _ _ _ HR); [done|apply H|done].
Qed.

Lemma sched_intent_stable n : opname n -> Stable (sched_intent n).
Proof.
  intros O d d' HR (H & D & E1 & E2). split_and!; [by apply (held_stable _ d)|by apply (has_dir_stable n O d)| |].
  - rewrite (r_intent_held _ _ _ _ HR); [done|done|apply H].
  - apply (r_state_none _ _ _ _ HR); [done|apply H|done].
Qed.

Lemma alone_stable n : Stable (alone n).
Proof.
  intros d d' HR [H A]. split; [by apply (held_stable _ d)|]. intros m O N L.
  rewrite (r_node_held _ _ _ _ HR m O) in L by apply H. specialize (A m O N L).
  destruct (r_terminal _ _ _ _ HR m O A) as [E _]. by rewrite (terminal_ext _ _ _ _ E).
Qed.

Lemma temp_move_held o o' n d d' : temp_move o n d d' -> holds o d -> has_dir n d -> held o' d -> held o' d'.
Proof.
  intros M Ho D [HI Ho']. split.
  - eapply guar_inv; [exact HI|]. by apply (temp_move_guar o n).
  - destruct M as [E _]. unfold UpgradeFacts.holds. by rewrite E.
Qed.

Lemma temp_move_record o n d d' m f : temp_move o n d d' -> f ∈ [s_intent; s_state; s_result] ->
  file d' m f = file d m f.
Proof.
  intros (_ & _ & t & Ht & HF) Hf. apply HF. intros E. injection E as -> ->.
  apply temp_not_record in Ht as (N1 & N2 & N3). rewrite !elem_of_cons, elem_of_nil in Hf. naive_solver.
Qed.

(** * Checks and stale temporaries *)

Lemma reads_directory p : read_only (validate_directory_strict p).
Proof. unfold validate_directory_strict. by reading. Qed.

Lemma reads_record p : read_only (validate_record_file p).
Proof. unfold validate_record_file. by reading. Qed.

Lemma reads_executable p : read_only (validate_regular_executable p).
Proof. unfold validate_regular_executable. by reading. Qed.

Lemma reads_spool p : read_only (validate_spool_file p).
Proof. unfold validate_spool_file. by reading. Qed.

#[local] Hint Resolve reads_directory reads_record reads_executable reads_spool : reads.

Lemma reads_take k p : read_only (read_take k p).
Proof. unfold read_take. by reading. Qed.
#[local] Hint Resolve reads_take : reads.

Lemma reads_load_intent p : read_only (load_intent p).
Proof. unfold load_intent, plift. by reading. Qed.

Lemma reads_load_state p : read_only (load_state p).
Proof. unfold load_state, plift. by reading. Qed.
#[local] Hint Resolve reads_load_intent reads_load_state : reads.

Lemma stale_temp o name : stale_temporary o name = true -> temp_of o name.
Proof.
  unfold stale_temporary. rewrite existsb_exists. intros (record & Hr & H).
  assert (exists rest, name = temp_prefix (str record) o ++ rest) as [rest ->].
  { apply orb_true_iff in H as [H|H].
    - apply bool_decide_eq_true in H. exists []. by rewrite app_nil_r.
    - destruct (strip_prefix _ name) as [suffix|] eqn:E; [|done].
      apply strip_prefix_Some in E as ->. exists ([x2e] ++ suffix). by rewrite <- app_assoc. }
  exists (str record), rest. split; [|done].
  destruct Hr as [<-|[<-|[<-|[]]]]; rewrite !elem_of_cons; auto.
Qed.

Lemma triple_remove_stale o n names removed : opname n ->
  triple (held o) (remove_stale (root ++ [n]) o names removed) (post (fun _ => held o) (held o)).
Proof.
  intros O. revert removed. induction names as [|name names IH]; intros removed; simpl.
  - by apply triple_ret; [apply _|].
  - destruct (utf8_valid name && stale_temporary o name) eqn:E; [|apply IH].
    apply andb_true_iff in E as [_ Ht%stale_temp].
    eapply triple_seq; [apply triple_read; [by reading|apply _]| |apply _|done]. intros ?.
    eapply triple_seq; [apply triple_recode| |apply _|done]; [|intros ?; apply held_stable|apply _|intros ?; apply IH].
    apply triple_call; [apply _|intros r; apply Stable_post; [intros ?|]; apply _|done|apply guar_same|].
    intros d [HI Ho]. rewrite <- app_assoc. simpl.
    destruct (dk_nodes d !! (root ++ [n; name])) as [i|] eqn:Ei; [|done].
    destruct (is_dir i); [done|].
    assert (has_dir n d) as D. { apply (inv_tree _ _ HI n name); [done|]. unfold UpgradeFacts.file. by rewrite Ei. }
    pose proof (temp_move_remove o n name d Ht) as M.
    split; [by apply (temp_move_guar o n)|]. by apply (temp_move_held o o n d).
Qed.

Lemma triple_cleanup o n : opname n ->
  triple (held o) (cleanup_stale_temporaries (root ++ [n]) o) (post (fun _ => held o) (held o)).
Proof.
  intros O. unfold cleanup_stale_temporaries.
  eapply triple_seq; [apply triple_read; [by reading|apply _]| |apply _|done].
  intros [i|[]]; [|by apply triple_ret; [apply _|]|by apply triple_throw; [apply _|]..].
  eapply triple_seq; [apply triple_read; [by reading|apply _]| |apply _|done]. intros ?.
  eapply triple_seq; [apply triple_read; [by reading|apply _]| |apply _|done]. intros names.
  eapply triple_seq; [by apply triple_remove_stale| |apply _|done]. intros removed.
  apply triple_read; [|apply _]. unfold sync_directory. by reading.
Qed.

(** * Looking at an operation *)

Lemma triple_metadata P p (M : result IoKind Inode -> Disk -> Prop) :
  Stable P -> (forall r, Stable (M r)) -> (forall d, P d -> M (Err OtherIo) d) ->
  (forall d i, P d -> dk_nodes d !! p = Some i -> M (Ok i) d) ->
  (forall d, P d -> dk_nodes d !! p = None -> M (Err NotFound) d) ->
  triple P (symlink_metadata p) M.
Proof.
  intros HP HM H1 H2 H3. apply triple_call; [done|done|done|apply guar_same|].
  intros d Hd. destruct (dk_nodes d !! p) as [i|] eqn:E; [|by apply H3].
  split; [apply guar_same|by apply H2].
Qed.

Lemma triple_present {E} P p (M : bool -> Disk -> Prop) X :
  Stable P -> (forall b, Stable (M b)) -> Stable X ->
  (forall d, P d -> M (bool_decide (dk_nodes d !! p <> None)) d) ->
  triple P (present (E := E) p) (post M X).
Proof.
  intros HP HM HX H. apply triple_act; [done|intros r; by apply Stable_post|].
  intros d c r d' Hd Hc Er. unfold reliable in Hc. rewrite Hc in Er. injection Er as <- <-.
  split; [apply guar_same|by apply H].
Qed.

Lemma triple_directory P n : opname n -> Stable P ->
  triple P (validate_directory_strict (root ++ [n])) (post (fun _ d => P d /\ has_dir n d) P).
Proof.
  intros O HP. unfold validate_directory_strict.
  assert (forall i : Inode, Stable (fun d => P d /\ node d n = Some i)) as HS.
  { intros i d d' HR [H E]. split; [by apply (HP d)|by apply (r_node _ _ _ _ HR)]. }
  eapply triple_seq with (M := fun i d => P d /\ node d n = Some i) (X := P); [|intros i|done|done].
  { apply triple_recode; [|done|done]. apply triple_metadata; try done.
    intros r. by apply Stable_post. }
  unfold refused_directory. destruct (is_dir i) eqn:D; simpl; [|by apply triple_throw; [|intros d []]].
  destruct (_ || _ || _); [by apply triple_throw; [|intros d []]|].
  apply triple_ret; [done|]. intros d [H E]. split; [done|by exists i].
Qed.

Definition found_pieces (n : bytes) (pieces : OperationPieces) (d : Disk) : Prop :=
  match pieces with
  | PiecesAbsent => sched_absent n d
  | PiecesPartial None => sched_bare n d
  | PiecesPartial (Some _) => sched_intent n d
  | PiecesComplete _ => held TempSchedule d
  end.

(** What is known once the intent, and then the state, has been probed. *)
Definition probed_intent (n : bytes) (b : bool) (d : Disk) : Prop :=
  held TempSchedule d /\ has_dir n d /\ bool_decide (file d n s_intent <> None) = b.

Definition probed_both (n : bytes) (b c : bool) (d : Disk) : Prop :=
  probed_intent n b d /\ (c = false -> file d n s_state = None).

Lemma probed_intent_stable n b : opname n -> Stable (probed_intent n b).
Proof.
  intros O d d' HR (H & D & E). split_and!; [by apply (held_stable _ d)|by apply (has_dir_stable n O d)|].
  rewrite (r_intent_held _ _ _ _ HR); [done|done|apply H].
Qed.

Lemma probed_both_stable n b c : opname n -> Stable (probed_both n b c).
Proof.
  intros O d d' HR [H E]. split; [by apply (probed_intent_stable n b O d)|].
  intros Hc. apply (r_state_none _ _ _ _ HR); [done|apply H|by apply E].
Qed.

Lemma probed_both_facts n b c d : probed_both n b c d ->
  held TempSchedule d /\ has_dir n d /\ (b = false -> file d n s_intent = None)
  /\ (b = true -> file d n s_intent <> None) /\ (c = false -> file d n s_state = None).
Proof.
  intros [(H & D & E) S]. split_and!; [done|done| | |done].
  - intros ->. apply bool_decide_eq_false in E. by apply dec_stable.
  - intros ->. by apply bool_decide_eq_true in E.
Qed.

Lemma triple_pieces n : opname n ->
  triple (held TempSchedule) (read_operation_pieces (root ++ [n]))
    (post (found_pieces n) (held TempSchedule)).
Proof.
  intros O. unfold read_operation_pieces.
  pose proof (sched_absent_stable n O) as SA.
  eapply triple_seq with (X := held TempSchedule)
    (M := fun r d => match r with Err NotFound => sched_absent n d | _ => held TempSchedule d end);
    [| |apply _|done].
  { eapply triple_catch; [apply (triple_metadata _ _ (fun r d =>
      match r with Err NotFound => sched_absent n d | _ => held TempSchedule d end))| |].
    - apply _.
    - intros [i|[]]; apply _.
    - done.
    - done.
    - intros d H E. by split.
    - intros [i|[]]; apply _.
    - by intros [i|[]] d. }
  intros [i|[]]; [|by apply triple_ret|by apply triple_throw; [apply _|]..].
  eapply triple_seq; [apply triple_directory; [done|apply _]| |apply _|done]. intros ?. simpl.
  rewrite <- !app_assoc. simpl.
  eapply triple_seq with (M := probed_intent n) (X := held TempSchedule); [| |apply _|done].
  { apply triple_present; [|intros b; by apply probed_intent_stable|apply _|].
    - apply Stable_and; [apply _|by apply has_dir_stable].
    - intros d [H D]. by split_and!. }
  intros b. eapply triple_seq with (M := probed_both n b) (X := held TempSchedule); [| |apply _|done].
  { apply triple_present; [by apply probed_intent_stable|intros c; by apply probed_both_stable|apply _|].
    intros d H. split; [done|]. intros E%bool_decide_eq_false. by apply dec_stable. }
  intros c. pose proof (probed_both_stable n b c O) as SP.
  destruct b, c; simpl.
  - eapply triple_seq; [apply triple_read; [by reading|apply _]| |apply _|by intros e d (H & _)%probed_both_facts].
    intros ?. eapply triple_seq; [apply triple_read; [by reading|apply _]| |apply _|by intros e d (H & _)%probed_both_facts].
    intros j. apply triple_ret; [apply _|]. by intros d (H & _)%probed_both_facts.
  - eapply triple_seq; [apply triple_read; [by reading|apply _]| |apply _|by intros e d (H & _)%probed_both_facts].
    intros j. apply triple_ret; [apply _|]. intros d (H & D & _ & E1 & E2)%probed_both_facts.
    split_and!; [done|done|by apply E1|by apply E2].
  - apply triple_throw; [apply _|]. by intros d (H & _)%probed_both_facts.
  - apply triple_ret; [apply _|]. intros d (H & D & E1 & _ & E2)%probed_both_facts.
    split_and!; [done|done|by apply E1|by apply E2].
Qed.

(** * Scanning the siblings *)

Lemma triple_content P n f (M : bytes -> Disk -> Prop) :
  Stable P -> (forall b, Stable (M b)) ->
  (forall d b, P d -> content root d n f = Some b -> M b d) ->
  triple P (read (root ++ [n; f])) (post M P).
Proof.
  intros HP HM H. apply triple_call; [done|intros r; by apply Stable_post|done|apply guar_same|].
  intros d Hd. specialize (H d). unfold content, file_content in H.
  destruct (dk_nodes d !! (root ++ [n; f])) as [[[] ? ? ?]|]; try done.
  split; [apply guar_same|]. by apply H.
Qed.

(** A state read from the file, kept as far as others cannot change it. *)
Lemma triple_state P n (M : OperationState -> Disk -> Prop) :
  Stable P -> (forall s, Stable (M s)) ->
  (forall d s, P d -> state_at root d n = Some s -> M s d) ->
  triple P (load_state (root ++ [n])) (post M P).
Proof.
  intros HP HM H. unfold load_state.
  eapply triple_seq; [apply triple_read; [by reading|apply _]| |apply _|done]. intros ?.
  set (MB := fun (b : bytes) d => P d /\ forall s, OperationState_parse b = Ok s -> M s d).
  assert (forall b, Stable (MB b)) as SB.
  { intros b d d' HR [Hd Hs]. split; [by apply (HP d)|]. intros s E. by apply (HM s d), Hs. }
  eapply triple_seq with (M := MB) (X := P); [| |done|done].
  - apply triple_recode; [|done|done]. unfold read_take. rewrite <- app_assoc. simpl.
    eapply triple_seq with (M := fun b => MB (take 64 b)) (X := P); [|intros b; by apply triple_ret|done|done].
    apply triple_content; [done|done|]. intros d b Hd E. split; [done|]. intros s Es.
    apply H; [done|]. unfold state_at. fold s_state in E. by rewrite E, Es.
  - intros b. unfold plift. apply triple_done; [done|]. intros d [Hd Hs].
    destruct (OperationState_parse b) as [s|e]; [by apply Hs|done].
Qed.

Definition scanning (n : bytes) (names : list bytes) (d : Disk) : Prop :=
  held TempSchedule d /\
  forall m, opname m -> m <> n -> node d m <> None -> m ∈ names \/ terminal root d m = true.

Lemma scanning_stable n names : Stable (scanning n names).
Proof.
  intros d d' HR [H A]. split; [by apply (held_stable _ d)|]. intros m O N L.
  rewrite (r_node_held _ _ _ _ HR m O) in L by apply H.
  destruct (A m O N L) as [I|T]; [by left|right].
  destruct (r_terminal _ _ _ _ HR m O T) as [E _]. by rewrite (terminal_ext _ _ _ _ E).
Qed.

Lemma scanning_skip n name names d : (opname name -> name <> n -> terminal root d name = true) ->
  scanning n (name :: names) d -> scanning n names d.
Proof.
  intros T [H A]. split; [done|]. intros m O N L. destruct (A m O N L) as [I|I]; [|by right].
  apply elem_of_cons in I as [->|I]; [right; by apply T|by left].
Qed.

Lemma triple_scan n u names : length u = 16%nat -> n = uuid_to_string u ->
  triple (scanning n names) (scan_siblings root (Some u) names)
    (post (fun r d => held TempSchedule d /\ (r = None -> alone n d)) (held TempSchedule)).
Proof.
  intros Lu ->. set (n := uuid_to_string u). induction names as [|name names IH]; simpl.
  - apply triple_ret; [apply scanning_stable|]. intros d [H A]. split; [done|]. intros _. split; [done|].
    intros m O N L. destruct (A m O N L) as [I%elem_of_nil|T]; done.
  - pose proof (scanning_stable n (name :: names)) as SS.
    destruct (negb (utf8_valid name)); [apply triple_throw; [done|by intros d []]|].
    destruct (operation_entry name) as [cand|] eqn:Eo.
    2:{ eapply triple_conseq; [exact IH| |done]. intros d. apply scanning_skip.
        unfold opname. by rewrite Eo. }
    pose proof (operation_entry_name _ _ Eo) as En.
    case_bool_decide as Ec.
    { injection Ec as ->. eapply triple_conseq; [exact IH| |done]. intros d. by apply scanning_skip. }
    eapply triple_seq with (X := scanning n (name :: names))
      (M := fun s d => scanning n (name :: names) d /\ (is_terminal s = true -> terminal root d name = true));
      [| |done|by intros e d []].
    + assert (opname name) as On by (unfold opname; by rewrite Eo).
      apply triple_state; [done| |].
      * intros s d d' HR [H T]. split; [by apply (SS d)|]. intros Hs. specialize (T Hs).
        destruct (r_terminal _ _ _ _ HR name On T) as [E _]. by rewrite (terminal_ext _ _ _ _ E).
      * intros d s H E. split; [done|]. intros Hs. unfold terminal. by rewrite E.
    + intros s. assert (Stable (fun d => scanning n (name :: names) d /\
        (is_terminal s = true -> terminal root d name = true))) as SM.
      { intros d d' HR [H T]. split; [by apply (SS d)|]. intros Hs. specialize (T Hs).
        assert (opname name) as On by (unfold opname; by rewrite Eo).
        destruct (r_terminal _ _ _ _ HR name On T) as [E _]. by rewrite (terminal_ext _ _ _ _ E). }
      destruct (bool_decide (s = OpAccepted) || bool_decide (s = OpRunning)) eqn:Ea.
      * apply triple_ret; [done|]. by intros d [[H _] _].
      * eapply triple_conseq; [exact IH| |done]. intros d [H T]. apply (scanning_skip n name); [|done].
        intros _ _. apply T. by destruct s.
Qed.

Lemma children_in d m i : dk_nodes d !! (root ++ [m]) = Some i -> m ∈ children root d.
Proof.
  intros E. unfold children. rewrite list_elem_of_omap. exists (root ++ [m], i).
  split; [by apply elem_of_map_to_list|]. simpl. unfold child_name.
  destruct (root ++ [m]) as [|x q] eqn:Eq; [by destruct root|]. rewrite <- Eq.
  rewrite length_app. simpl. replace (length root + 1 - 1)%nat with (length root) by lia.
  rewrite take_app_length, bool_decide_true by done. by rewrite last_snoc.
Qed.

Lemma triple_active_sibling P n u : length u = 16%nat -> n = uuid_to_string u ->
  Stable P -> (forall d, P d -> held TempSchedule d) ->
  triple P (active_sibling root (Some u))
    (post (fun r d => held TempSchedule d /\ (r = None -> alone n d)) (held TempSchedule)).
Proof.
  intros Lu En HP HH. unfold active_sibling.
  eapply triple_seq with (M := fun names => scanning n names) (X := held TempSchedule);
    [|intros names; by apply triple_scan|apply _|done].
  apply triple_recode; [|intros names; apply scanning_stable|apply _].
  apply triple_call; [done|intros r; apply Stable_post; [intros names; apply scanning_stable|apply _]
    |apply HH|apply guar_same|].
  intros d Hd. destruct (dk_nodes d !! root) as [i|]; [|by apply HH]. destruct (is_dir i); [|by apply HH].
  split; [apply guar_same|]. split; [by apply HH|]. intros m O N L. left.
  unfold UpgradeFacts.node in L. destruct (dk_nodes d !! (root ++ [m])) eqn:E; [|done].
  by eapply children_in.
Qed.

(** * The critical section of the scheduler *)

Lemma triple_free_of_siblings P n u : length u = 16%nat -> n = uuid_to_string u ->
  Stable P -> (forall d, P d -> held TempSchedule d) ->
  triple P (active_sibling root (Some u))
    (post (fun r d => P d /\ (r = None -> alone n d)) (held TempSchedule)).
Proof.
  intros Lu En HP HH.
  eapply triple_conseq; [eapply triple_conj; [by apply triple_active_sibling|apply (triple_reads _ _ P)]| |].
  - unfold active_sibling. apply read_only_pbind; [by reading|]. intros names.
    clear P HP HH. induction names as [|name names IH]; simpl; by reading.
  - exact HP.
  - done.
  - intros [r|e] d [H1 H2]; simpl in *; naive_solver.
Qed.

Lemma guar_create_dir n i d : opname n -> sched_absent n d -> alone n d -> is_dir i = true ->
  G d (set_node (root ++ [n]) i d).
Proof.
  intros O [H E] [_ A] D. split.
  - done.
  - intros m Om. destruct (decide (m = n)) as [->|N].
    + right. split_and!; [done|apply H| |].
      * exists i. split; [|done]. unfold UpgradeFacts.node, set_node. simpl. apply lookup_insert_eq.
      * intros k N. split.
        -- unfold UpgradeFacts.node, set_node. simpl. apply lookup_insert_ne. intros X%app_root_inj. congruence.
        -- intros (Ok & Nk & Tk). rewrite (A k Ok N Nk) in Tk. done.
    + left. unfold UpgradeFacts.node, set_node. simpl. apply lookup_insert_ne. intros X%app_root_inj. congruence.
  - intros m f Om. left. unfold UpgradeFacts.file, set_node. simpl. apply lookup_insert_ne.
    intros X%app_root_inj. discriminate.
Qed.

Lemma fresh_dir_empty n f i d : opname n -> sched_absent n d ->
  file (set_node (root ++ [n]) i d) n f = None.
Proof.
  intros O [[HI _] E].
  assert (file (set_node (root ++ [n]) i d) n f = file d n f) as ->.
  { unfold UpgradeFacts.file, set_node. simpl. apply lookup_insert_ne. intros X%app_root_inj. discriminate. }
  destruct (file d n f) eqn:Ef; [|done].
  destruct (inv_tree _ _ HI n f O) as (j & Ej & _); [by rewrite Ef|]. congruence.
Qed.

Lemma triple_create_operation n : opname n ->
  triple (fun d => sched_absent n d /\ alone n d) (create_operation_dir (root ++ [n]))
    (post (fun _ => sched_bare n) (held TempSchedule)).
Proof.
  intros O. unfold create_operation_dir. pose proof (sched_bare_stable n O) as SB.
  assert (Stable (fun d => sched_absent n d /\ alone n d)) as SA.
  { apply Stable_and; [by apply sched_absent_stable|apply alone_stable]. }
  eapply triple_seq with (M := post (fun _ => sched_bare n) (held TempSchedule)) (X := held TempSchedule);
    [|intros [[]|[]]|apply _|done].
  - apply triple_caught; [|done|apply _].
    apply triple_call; [done|intros r; apply Stable_post; [done|apply _]|by intros d [[]]|apply guar_same|].
    intros d [H A]. pose proof H as [HH EN]. unfold UpgradeFacts.node in EN.
    rewrite EN, bool_decide_false by tauto. destruct (negb _); [exact HH|].
    pose proof (guar_create_dir n (mkInode Directory trusted_euid (oct 7 0 0) 1) d O H A eq_refl) as HG.
    split; [exact HG|]. destruct HH as [HI Ho]. split_and!.
    + split; [by eapply guar_inv|exact Ho].
    + exists (mkInode Directory trusted_euid (oct 7 0 0) 1). split; [|done].
      unfold UpgradeFacts.node, set_node. simpl. apply lookup_insert_eq.
    + by apply fresh_dir_empty.
    + by apply fresh_dir_empty.
  - eapply triple_conseq; [apply (triple_read _ _ (sched_bare n)); [by reading|done]|done|].
    intros [[]|e] d H; [done|apply H].
  - by apply triple_throw; [apply _|].
  - by apply triple_throw; [apply _|].
  - by apply triple_throw; [apply _|].
Qed.

Lemma held_after o d d' : held o d -> G d d' -> dk_locks d' = dk_locks d -> held o d'.
Proof.
  intros [HI Ho] HG E. split; [by eapply guar_inv|]. unfold UpgradeFacts.holds. by rewrite E.
Qed.

Lemma not_temp_record o f : f ∈ [s_intent; s_state; s_result] -> ~ temp_of o f.
Proof.
  intros Hf Ht. apply temp_not_record in Ht as (N1 & N2 & N3).
  rewrite !elem_of_cons, elem_of_nil in Hf. naive_solver.
Qed.

Lemma state_at_line d n s i : file d n s_state = Some i -> ino_kind i = Regular (state_line s) ->
  state_at root d n = Some s.
Proof.
  intros E K. unfold state_at. rewrite content_file, E. destruct i as [k u m l]. simpl in K. subst k.
  by destruct s.
Qed.

Lemma triple_write_intent n b : opname n ->
  triple (sched_bare n) (write_atomic (root ++ [n]) s_intent b TempSchedule)
    (post (fun _ => sched_intent n) (held TempSchedule)).
Proof.
  intros O. pose proof (sched_bare_stable n O) as S1. pose proof (sched_intent_stable n O) as S2.
  eapply triple_conseq; [apply (triple_write_atomic TempSchedule n s_intent b (sched_bare n) (sched_intent n))|done|].
  - done.
  - rewrite !elem_of_cons. auto.
  - intros d (H & D & _). split; [apply H|exact D].
  - exact S1.
  - exact S2.
  - intros d d' (H & D & E1 & E2) M. split_and!.
    + by apply (temp_move_held TempSchedule TempSchedule n d); [|apply H| |].
    + destruct D as (j & Ej & Dj), M as (_ & MN & _). exists j. by rewrite MN.
    + rewrite (temp_move_record _ _ _ _ _ _ M); [done|]. rewrite !elem_of_cons. auto.
    + rewrite (temp_move_record _ _ _ _ _ _ M); [done|]. rewrite !elem_of_cons. auto.
  - intros d d' i (H & D & E1 & E2) HL HN Hk Hi HF. split.
    + apply move_intent; [done|apply H|done|done].
    + intros HG. split_and!; [by apply (held_after _ d)| |by rewrite Hi|].
      * destruct D as (j & Ej & Dj). exists j. by rewrite HN.
      * rewrite HF; [done|done|]. intros _. apply not_temp_record. rewrite !elem_of_cons. auto.
  - intros [[]|e] d H; [done|]. destruct H as [H|H]; apply H.
Qed.

Lemma triple_write_accepted n : opname n ->
  triple (sched_intent n) (write_atomic (root ++ [n]) s_state (state_line OpAccepted) TempSchedule)
    (post (fun _ => held TempSchedule) (held TempSchedule)).
Proof.
  intros O. pose proof (sched_intent_stable n O) as S2.
  eapply triple_conseq; [apply (triple_write_atomic TempSchedule n s_state (state_line OpAccepted)
    (sched_intent n) (held TempSchedule))|done|].
  - done.
  - rewrite !elem_of_cons. auto.
  - intros d (H & D & _). split; [apply H|exact D].
  - exact S2.
  - apply _.
  - intros d d' (H & D & E1 & E2) M. split_and!.
    + by apply (temp_move_held TempSchedule TempSchedule n d); [|apply H| |].
    + destruct D as (j & Ej & Dj), M as (_ & MN & _). exists j. by rewrite MN.
    + rewrite (temp_move_record _ _ _ _ _ _ M); [done|]. rewrite !elem_of_cons. auto.
    + rewrite (temp_move_record _ _ _ _ _ _ M); [done|]. rewrite !elem_of_cons. auto.
  - intros d d' i (H & D & E1 & E2) HL HN Hk Hi HF. split.
    + apply move_accept; [done|apply H|done|done|]. by eapply state_at_line.
    + intros HG. by apply (held_after _ d).
  - intros [[]|e] d H; [done|]. destruct H as [H|H]; apply H.
Qed.

Lemma held_ret {E A} o (a : A) : triple (held o) (pret a) (post (E := E) (fun _ => held o) (held o)).
Proof. apply triple_ret; [apply _|done]. Qed.

Lemma held_throw {E A} o (e : E) : triple (held o) (pthrow e) (post (A := A) (fun _ => held o) (held o)).
Proof. apply triple_throw; [apply _|done]. Qed.

Lemma triple_schedule_locked i : length (ui_operation_id i) = 16%nat -> uuid_version (ui_operation_id i) = 7 ->
  triple (held TempSchedule) (schedule_locked root i) (post (fun _ => held TempSchedule) (held TempSchedule)).
Proof.
  intros L V. set (n := uuid_to_string (ui_operation_id i)).
  assert (opname n) as O by (unfold opname, n; by rewrite opname_of).
  unfold schedule_locked. fold n.
  eapply triple_seq; [by apply triple_cleanup| |apply _|done]. intros ?.
  eapply triple_seq; [by apply triple_pieces| |apply _|done]. intros [|[existing|]|existing]; simpl.
  - eapply triple_seq; [apply (triple_free_of_siblings _ n); [done|done|by apply sched_absent_stable|by intros d []]|
      |apply _|done]. intros [r|]; simpl.
    + apply triple_throw; [apply Stable_and; [by apply sched_absent_stable|apply Stable_imp, alone_stable]|].
      by intros d [[H _] _].
    + eapply triple_seq; [eapply triple_conseq; [by apply triple_create_operation|naive_solver|done]|
        |apply _|done]. intros ?. unfold commit_intent.
      eapply triple_seq; [|intros ?; apply held_ret|apply _|done].
      eapply triple_seq; [by apply triple_write_intent| |apply _|done]. intros ?. by apply triple_write_accepted.
  - pose proof (sched_intent_stable n O) as S2.
    case_bool_decide; [apply triple_throw; [done|by intros d []]|].
    eapply triple_seq; [by apply triple_write_accepted|intros ?; apply held_ret|apply _|done].
  - eapply triple_seq; [apply (triple_free_of_siblings _ n); [done|done|by apply sched_bare_stable|by intros d []]|
      |apply _|done]. intros [r|]; simpl.
    + apply triple_throw; [apply Stable_and; [by apply sched_bare_stable|apply Stable_imp, alone_stable]|].
      by intros d [[H _] _].
    + eapply triple_seq; [eapply triple_conseq; [by apply triple_write_intent|by intros d []|done]|
        |apply _|done]. intros ?.
      eapply triple_seq; [by apply triple_write_accepted|intros ?; apply held_ret|apply _|done].
  - case_bool_decide; [by apply triple_throw; [apply _|]|apply held_ret].
Qed.

End Proofs.
