(* ===== verification/RunnerProofs.v ===== *)
(** The parts of scheduler and runner outside their critical sections, and the
    runner itself, keep to the protocol of [UpgradeFacts]. *)

From stdpp Require Import base list gmap numbers countable strings.
From Stdlib Require Import ZArith Lia Bool.
From Stdlib Require Import Strings.Byte.
From S2P Require Import Prelude Bytes Text Authorization ConfigProfile Executor.
From S2P Require Import Concurrency Files Utf8 UpgradeRecords Upgrader UpgradeRunner.
From S2P Require Import UpgradeFacts UpgradeProofs.

Local Open Scope Z_scope.
Local Open Scope prog_scope.

(** Child processes (the package verifier, the lifecycle scripts, systemctl)
    leave the operations hierarchy and its locks alone. *)
Definition children_outside {host : Host} (root : path) : Prop :=
  forall command k d, let d' := snd (child command k d) in
    dk_locks d' = dk_locks d /\ forall q, dk_nodes d' !! (root ++ q) = dk_nodes d !! (root ++ q).

(** The package staging area and the operations are different directories. *)
Definition staging_apart (root : path) (r : UpgradeRunner) : Prop :=
  below (staging_root r) root = false /\ below root (staging_root r) = false.

Section Runner.
Context {crypto : Crypto} {text : RecordText} {platform : Platform} {host : Host}.
Variable root : path.
Variable tid : nat.
Hypothesis outside : children_outside root.

Abbreviation R := (Rely root tid).
Abbreviation G := (Guar root tid).
Abbreviation node := (node root).
Abbreviation file := (file root).
Abbreviation holds o := (holds root o tid).
Abbreviation triple := (triple R G reliable tid).
Abbreviation Stable := (Stable R).
Abbreviation held := (held root tid).
Abbreviation Inv := (Inv root).

#[local] Hint Resolve reads_directory reads_record reads_executable reads_spool reads_take
  reads_load_intent reads_load_state : reads.
#[local] Existing Instance held_stable.

#[local] Instance Inv_stable : Stable Inv.
Proof. intros d d' HR H. by apply (r_inv _ _ _ _ HR). Qed.

Lemma held_inv o d : held o d -> Inv d.
Proof. by intros []. Qed.

(** * Changes outside the operations *)

Lemma opname_not_lock n : opname n -> n <> SCHEDULE_LOCK_FILE /\ n <> EXECUTION_LOCK_FILE.
Proof. intros O%opname_length. split; intros ->; discriminate. Qed.

(** Every protected node is the directory of an operation or a file in it. *)
Lemma guar_nodes d d' : dk_locks d' = dk_locks d ->
  (forall n, opname n -> dk_nodes d' !! (root ++ [n]) = dk_nodes d !! (root ++ [n])) ->
  (forall n f, opname n -> dk_nodes d' !! (root ++ [n; f]) = dk_nodes d !! (root ++ [n; f])) -> G d d'.
Proof.
  intros HL HN HF. apply guar_outside; [|exact HN|exact HF].
  intros o owner _. unfold UpgradeFacts.holds. by rewrite HL.
Qed.

Lemma guar_set_outside p i d :
  (forall n, opname n -> p <> root ++ [n]) -> (forall n f, opname n -> p <> root ++ [n; f]) ->
  G d (set_node p i d).
Proof.
  intros H1 H2. apply guar_nodes; [done| |].
  - intros n O. simpl. apply lookup_insert_ne. by apply H1.
  - intros n f O. simpl. apply lookup_insert_ne. by apply H2.
Qed.

Lemma lock_file_outside name i d : name = SCHEDULE_LOCK_FILE \/ name = EXECUTION_LOCK_FILE ->
  G d (set_node (root ++ [name]) i d).
Proof.
  intros H. apply guar_set_outside.
  - intros n O E%app_root_inj. injection E as ->. apply opname_not_lock in O. naive_solver.
  - intros n f O E%app_root_inj. discriminate.
Qed.

Lemma short_path_outside p i d : (length p <= length root)%nat -> G d (set_node p i d).
Proof.
  intros H. apply guar_set_outside; intros n.
  - intros O ->. rewrite length_app in H. simpl in H. lia.
  - intros f O ->. rewrite length_app in H. simpl in H. lia.
Qed.

(** * Locks *)

Lemma triple_lock_open name : name = SCHEDULE_LOCK_FILE \/ name = EXECUTION_LOCK_FILE ->
  triple Inv (lock_open root name) (post (fun _ => Inv) Inv).
Proof.
  intros Hn. unfold lock_open.
  eapply triple_seq with (M := fun _ => Inv) (X := Inv); [|intros [[]|[]]|apply _|done].
  - eapply triple_catch with (M := fun _ => Inv); [|intros r; apply _|done].
    apply triple_call; [apply _|intros r; apply _|done|apply guar_same|].
    intros d H. case_bool_decide; [done|]. destruct (negb _); [done|].
    split; [by apply lock_file_outside|]. eapply guar_inv; [exact H|]. by apply lock_file_outside.
  - by apply triple_ret; [apply _|].
  - by apply triple_throw; [apply _|].
  - apply triple_read; [by reading|apply _].
  - by apply triple_throw; [apply _|].
Qed.

(** Taking a free lock. *)
Lemma take_lock o d : dk_locks d !! lock_path root o = None \/ holds o d -> Inv d ->
  let d' := mkDisk (dk_nodes d) (<[lock_path root o := tid]> (dk_locks d)) in G d d' /\ held o d'.
Proof.
  intros F HI d'. assert (G d d') as HG.
  { apply guar_locks_only; [done|]. intros l owner N E. simpl.
    rewrite lookup_insert_ne; [done|]. intros <-. unfold UpgradeFacts.holds in F. destruct F; congruence. }
  split; [done|]. split; [by eapply guar_inv|]. unfold UpgradeFacts.holds. simpl. apply lookup_insert_eq.
Qed.

Lemma triple_flock_exclusive o :
  triple Inv (flock_exclusive (lock_path root o)) (post (fun _ => held o) Inv).
Proof.
  apply triple_act; [apply _|intros r; apply Stable_post; [intros ?|]; apply _|].
  intros d c r d' HI _ E. destruct (ch_fault c); [injection E as <- <-; by split; [apply guar_same|]|].
  destruct (dk_locks d !! lock_path root o) as [owner|] eqn:EL.
  - case_bool_decide as Eo; [|done]. injection E as <- <-. subst owner. by split; [apply guar_same|].
  - injection E as <- <-. apply take_lock; [by left|done].
Qed.

Lemma triple_flock_try o :
  triple Inv (flock_try (lock_path root o)) (post (fun _ => held o) Inv).
Proof.
  apply triple_act; [apply _|intros r; apply Stable_post; [intros ?|]; apply _|].
  intros d c r d' HI _ E. destruct (ch_fault c); [injection E as <- <-; by split; [apply guar_same|]|].
  destruct (dk_locks d !! lock_path root o) as [owner|] eqn:EL.
  - case_bool_decide as Eo; injection E as <- <-; [subst owner|]; by split; [apply guar_same|].
  - injection E as <- <-. apply take_lock; [by left|done].
Qed.

Lemma triple_unlock {E} o : triple Inv (unlock (E := E) (lock_path root o)) (post (fun _ => Inv) Inv).
Proof.
  apply triple_act; [apply _|intros r; apply Stable_post; [intros ?|]; apply _|].
  intros d c r d' HI _ Er. case_bool_decide as Eo; injection Er as <- <-; [|by split; [apply guar_same|]].
  assert (G d (mkDisk (dk_nodes d) (delete (lock_path root o) (dk_locks d)))) as HG.
  { apply guar_locks_only; [done|]. intros l owner N EL. simpl. rewrite lookup_delete_ne; [done|].
    intros <-. congruence. }
  split; [done|]. by eapply guar_inv.
Qed.

Lemma triple_with_lock {A} o P acquire (body : Up A) :
  triple P acquire (post (fun _ d => held o d /\ P d) Inv) -> Stable P ->
  triple (fun d => held o d /\ P d) body (post (fun _ => held o) (held o)) ->
  (forall d, P d -> Inv d) ->
  triple P (with_lock acquire (lock_path root o) body) (post (fun _ => Inv) Inv).
Proof.
  intros Ha HP Hb HI. unfold with_lock.
  eapply triple_seq; [exact Ha| |apply _|done]. intros ?.
  eapply triple_seq with (M := fun _ => held o) (X := Inv); [| |apply _|done].
  - eapply triple_catch; [exact Hb|intros r; apply Stable_post; [intros ?|]; apply _|by intros [] d].
  - intros outcome. eapply triple_seq; [eapply triple_conseq; [apply triple_unlock|apply held_inv|done]|
      |apply _|done]. intros ?. unfold plift. apply triple_done; [apply _|]. by destruct outcome.
Qed.

(** * The scheduler around its critical section *)

Lemma triple_find_anchor up : triple Inv (find_anchor up)
  (post (fun p d => Inv d /\ (length p <= length up)%nat) Inv).
Proof.
  assert (forall p : path, Stable (fun d => Inv d /\ (length p <= length up)%nat)) as HS.
  { intros p. apply Stable_and; apply _. }
  induction up as [|name up IH]; simpl.
  - eapply triple_seq; [apply triple_read; [by reading|apply _]| |apply _|done]. intros [].
    + by apply triple_ret; [apply _|].
    + by apply triple_throw; [apply _|].
  - eapply triple_seq; [apply triple_read; [by reading|apply _]| |apply _|done]. intros [].
    + apply triple_ret; [apply _|]. intros d H. split; [done|]. rewrite length_app, length_rev. simpl. lia.
    + eapply triple_conseq; [apply IH|done|].
      * intros p. apply Stable_and; apply _.
      * intros [p|e] d; simpl; [|done]. intros [H L]. split; [done|lia].
Qed.

Lemma triple_create_missing current missing : (length current + length missing <= length root)%nat ->
  triple Inv (create_missing current missing) (post (fun _ => Inv) Inv).
Proof.
  revert current. induction missing as [|name missing IH]; intros current L; simpl.
  - by apply triple_ret; [apply _|].
  - simpl in L. eapply triple_seq with (M := fun _ => Inv) (X := Inv); [| |apply _|done].
    + eapply triple_catch with (M := fun _ => Inv); [|intros r; apply _|done].
      apply triple_call; [apply _|intros r; apply _|done|apply guar_same|].
      intros d H. case_bool_decide; [done|]. destruct (negb _); [done|].
      assert (G d (set_node (current ++ [name]) (mkInode Directory trusted_euid (oct 7 0 0) 1) d)) as HG.
      { apply short_path_outside. rewrite length_app. simpl. lia. }
      split; [done|]. by eapply guar_inv.
    + assert (triple Inv (validate_directory_strict (current ++ [name]) ;;; create_missing (current ++ [name]) missing)
        (post (fun _ => Inv) Inv)) as HN.
      { eapply triple_seq; [apply triple_read; [by reading|apply _]| |apply _|done]. intros ?.
        apply IH. rewrite length_app. simpl. lia. }
      intros [[]|[]]; [exact HN|by apply triple_throw; [apply _|]|exact HN|by apply triple_throw; [apply _|]].
Qed.

Lemma triple_ensure_root dir : normal_names dir = root ->
  triple Inv (ensure_operations_root dir) (post (fun _ => Inv) Inv).
Proof.
  intros E. unfold ensure_operations_root. rewrite E.
  destruct (_ || _); [by apply triple_throw; [apply _|]|].
  eapply triple_seq; [apply triple_find_anchor| |apply _|done]. intros anchor.
  eapply triple_seq; [apply triple_read; [by reading|apply Stable_and; apply _]| |apply Stable_and; apply _|by intros e d []].
  intros ?. intros d [HI L]. rewrite length_rev in L. apply triple_create_missing; [|done].
  rewrite length_drop. lia.
Qed.

Lemma triple_spawn command P : Stable P -> (forall d d', dk_locks d' = dk_locks d ->
    (forall q, dk_nodes d' !! (root ++ q) = dk_nodes d !! (root ++ q)) -> P d -> P d') ->
  triple P (spawn command) (post (fun _ => P) P).
Proof.
  intros HP HF. apply triple_act; [done|intros r; by apply Stable_post|].
  intros d c r d' H _ E. destruct (ch_fault c); [injection E as <- <-; by split; [apply guar_same|]|].
  destruct (child command (ch_child c) d) as [output d2] eqn:Ec. injection E as <- <-.
  destruct (outside command (ch_child c) d) as [HL HN]. rewrite Ec in HL, HN. simpl in HL, HN.
  split; [|by apply (HF d)]. apply guar_nodes; [done|intros n _; apply HN|intros n f _; apply HN].
Qed.

(** Facts about the store survive what a child does. *)
Lemma outside_node d d' n : (forall q, dk_nodes d' !! (root ++ q) = dk_nodes d !! (root ++ q)) ->
  node d' n = node d n.
Proof. intros H. apply H. Qed.

Lemma outside_file d d' n f : (forall q, dk_nodes d' !! (root ++ q) = dk_nodes d !! (root ++ q)) ->
  file d' n f = file d n f.
Proof. intros H. apply H. Qed.

Lemma outside_guar d d' : dk_locks d' = dk_locks d ->
  (forall q, dk_nodes d' !! (root ++ q) = dk_nodes d !! (root ++ q)) -> G d d'.
Proof. intros HL HN. apply guar_nodes; [done|intros n _; apply HN|intros n f _; apply HN]. Qed.

Lemma triple_trigger t u : triple Inv (trigger t u) (post (fun _ => Inv) Inv).
Proof.
  destruct t; simpl; [|by apply triple_ret; [apply _|]].
  eapply triple_seq; [apply triple_recode; [apply (triple_spawn _ Inv); [apply _|]|intros ?|]; try apply _|
    |apply _|done].
  - intros d d' HL HN H. eapply guar_inv; [exact H|]. by apply outside_guar.
  - intros output. destruct (co_success output); [by apply triple_ret; [apply _|]|by apply triple_throw; [apply _|]].
Qed.

Lemma triple_schedule s i : normal_names (us_operations_dir s) = root ->
  length (ui_operation_id i) = 16%nat -> uuid_version (ui_operation_id i) = 7 ->
  triple Inv (schedule_and_trigger s i) (post (fun _ => Inv) Inv).
Proof.
  intros E L V. unfold schedule_and_trigger. rewrite E.
  eapply triple_seq; [by apply triple_ensure_root| |apply _|done]. intros ?.
  eapply triple_seq.
  - apply (triple_with_lock TempSchedule Inv); [|apply _| |done].
    + unfold acquire_schedule. eapply triple_seq; [apply triple_lock_open; by left| |apply _|done]. intros ?.
      eapply triple_conseq; [apply triple_recode; [apply (triple_flock_exclusive TempSchedule)|intros ?|]; apply _|done|].
      intros [[]|e] d H; [split; [done|apply H]|done].
    + eapply triple_conseq; [by apply triple_schedule_locked|by intros d []|done].
  - intros outcome. eapply triple_seq; [apply triple_trigger|intros ?; by apply triple_ret; [apply _|]|apply _|done].
  - apply _.
  - done.
Qed.

(** * The runner *)

Definition knows_intent (n : bytes) (i : UpgradeIntent) (d : Disk) : Prop :=
  exists ib, content root d n s_intent = Some ib /\ UpgradeIntent_parse ib = Ok i.

(** The operation is ready to run: its intent is known, its state is there and
    not final, and nobody else can change it. *)
Definition ready (n : bytes) (i : UpgradeIntent) (d : Disk) : Prop :=
  held TempRun d /\ knows_intent n i d /\ file d n s_state <> None /\ terminal root d n = false.

(** The result is recorded, the state not yet. *)
Definition recorded (n : bytes) (i : UpgradeIntent) (s : OperationState) (d : Disk) : Prop :=
  ready n i d /\ exists t detail, content root d n s_result = Some (result_record i s t detail).

Lemma knows_intent_file n i d d' : (forall j, file d n s_intent = Some j -> file d' n s_intent = Some j) ->
  knows_intent n i d -> knows_intent n i d'.
Proof.
  intros H (ib & E & P). exists ib. split; [|done].
  pose proof (content_some _ _ _ _ _ E) as N. destruct (file d n s_intent) as [j|] eqn:Ej; [|done].
  rewrite (content_ext _ d d'); [done|]. rewrite Ej. by apply H.
Qed.

Lemma knows_intent_stable n i : opname n -> Stable (knows_intent n i).
Proof. intros O d d' HR. apply knows_intent_file. intros j. by apply (r_intent _ _ _ _ HR). Qed.

Lemma ready_dir n i d : opname n -> ready n i d -> has_dir root n d.
Proof. intros O ([HI _] & _ & E & _). by apply (inv_tree _ _ HI n s_state). Qed.

(** [ready] depends on the intent and the state only. *)
Lemma ready_ext n i d d' : held TempRun d' -> file d' n s_intent = file d n s_intent ->
  file d' n s_state = file d n s_state -> ready n i d -> ready n i d'.
Proof.
  intros H Ei Es (_ & K & S & T). split_and!; [done| |by rewrite Es|by rewrite (terminal_ext _ _ _ _ Es)].
  apply (knows_intent_file n i d); [|done]. intros j. by rewrite Ei.
Qed.

Lemma ready_stable n i : opname n -> Stable (ready n i).
Proof.
  intros O d d' HR (H & K & S & T).
  assert (file d' n s_state = file d n s_state) as Es by (apply (r_state_held _ _ _ _ HR); [done|apply H|done]).
  split_and!; [by apply (held_stable root tid _ d)|by apply (knows_intent_stable n i O d)|by rewrite Es|].
  by rewrite (terminal_ext _ _ _ _ Es).
Qed.

Lemma recorded_stable n i s : opname n -> Stable (recorded n i s).
Proof.
  intros O d d' HR [H (t & x & E)]. split; [by apply (ready_stable n i O d)|]. exists t, x.
  rewrite (content_ext _ d d'); [done|]. apply (r_result_held _ _ _ _ HR); [done|apply H].
Qed.

Lemma record_state : s_state ∈ [s_intent; s_state; s_result].
Proof. rewrite !elem_of_cons. auto. Qed.
Lemma record_result : s_result ∈ [s_intent; s_state; s_result].
Proof. rewrite !elem_of_cons. auto. Qed.
Lemma record_intent : s_intent ∈ [s_intent; s_state; s_result].
Proof. rewrite !elem_of_cons. auto. Qed.

Lemma ready_temp n i d d' : opname n -> ready n i d -> temp_move root TempRun n d d' -> ready n i d'.
Proof.
  intros O H M. apply (ready_ext n i d); [| | |done].
  - apply (temp_move_held root tid TempRun TempRun n d); [done|apply H|by eapply ready_dir|apply H].
  - by apply (temp_move_record root _ _ _ _ _ _ M), record_intent.
  - by apply (temp_move_record root _ _ _ _ _ _ M), record_state.
Qed.

Lemma triple_write_running n i : opname n ->
  triple (ready n i) (write_atomic (root ++ [n]) s_state (state_line OpRunning) TempRun)
    (post (fun _ => ready n i) (ready n i)).
Proof.
  intros O. pose proof (ready_stable n i O) as SR.
  eapply triple_conseq; [apply (triple_write_atomic root tid TempRun n s_state (state_line OpRunning)
    (ready n i) (ready n i))|done|].
  - done.
  - apply record_state.
  - intros d H. split; [apply H|by eapply ready_dir].
  - done.
  - done.
  - intros d d' H M. by apply (ready_temp n i d).
  - intros d d' j H HL HN Hk Hj HF. pose proof (state_at_line root d' n OpRunning j Hj Hk) as Es. split.
    + apply (move_state _ _ _ _ _ _ OpRunning); try done; [apply H|apply H|apply H|by rewrite Hj].
    + intros HG. pose proof H as (Hh & K & _). split_and!; [by apply (held_after root tid _ d)| |by rewrite Hj|].
      * apply (knows_intent_file n i d); [|done]. intros k. rewrite HF; [done|done|].
        intros _. apply not_temp_record, record_intent.
      * unfold terminal. by rewrite Es.
  - intros [[]|e] d H; [done|]. by destruct H.
Qed.

Lemma triple_write_result n i s t detail : opname n ->
  triple (ready n i) (write_atomic (root ++ [n]) s_result (result_record i s t detail) TempRun)
    (post (fun _ => recorded n i s) (held TempRun)).
Proof.
  intros O. pose proof (ready_stable n i O) as SR. pose proof (recorded_stable n i s O) as SC.
  eapply triple_conseq; [apply (triple_write_atomic root tid TempRun n s_result (result_record i s t detail)
    (ready n i) (recorded n i s))|done|].
  - done.
  - apply record_result.
  - intros d H. split; [apply H|by eapply ready_dir].
  - done.
  - done.
  - intros d d' H M. by apply (ready_temp n i d).
  - intros d d' j H HL HN Hk Hj HF. split.
    + apply move_result; [done|apply H|apply H].
    + intros HG. split.
      * apply (ready_ext n i d); [by apply (held_after root tid _ d); [apply H| |]| | |done].
        -- apply HF; [done|]. intros _. apply not_temp_record, record_intent.
        -- apply HF; [done|]. intros _. apply not_temp_record, record_state.
      * exists t, detail. rewrite content_file, Hj. destruct j as [k u m l]. simpl in Hk. by subst k.
  - intros [[]|e] d H; [done|]. destruct H as [H|[H _]]; apply H.
Qed.

Lemma triple_write_state n i s : opname n -> is_terminal s = true ->
  triple (recorded n i s) (write_atomic (root ++ [n]) s_state (state_line s) TempRun)
    (post (fun _ => held TempRun) (held TempRun)).
Proof.
  intros O Ht. pose proof (recorded_stable n i s O) as SC.
  eapply triple_conseq; [apply (triple_write_atomic root tid TempRun n s_state (state_line s)
    (recorded n i s) (held TempRun))|done|].
  - done.
  - apply record_state.
  - intros d [H _]. split; [apply H|by eapply ready_dir].
  - done.
  - apply _.
  - intros d d' [H (t & x & E)] M. split; [by apply (ready_temp n i d)|]. exists t, x.
    rewrite (content_ext _ d d'); [done|]. by apply (temp_move_record root _ _ _ _ _ _ M), record_result.
  - intros d d' j [H (t & x & E)] HL HN Hk Hj HF.
    pose proof (state_at_line root d' n s j Hj Hk) as Es. split.
    + apply (move_state _ _ _ _ _ _ s); try done; [apply H|apply H|apply H|by rewrite Hj|].
      intros _. destruct H as (_ & (ib & E1 & E2) & _). exists ib, i, t, x. split_and!; [|done|].
      * rewrite (content_ext _ d d'); [done|]. apply HF; [done|]. intros _. apply not_temp_record, record_intent.
      * rewrite (content_ext _ d d'); [done|]. apply HF; [done|]. intros _. apply not_temp_record, record_result.
    + intros HG. apply (held_after root tid _ d); [apply H|done|done].
  - intros [[]|e] d H; [done|]. destruct H as [[H _]|H]; apply H.
Qed.

Abbreviation ending := (post (fun _ => held TempRun) (held TempRun)).

Lemma triple_write_terminal n i s detail : opname n -> is_terminal s = true ->
  triple (ready n i) (write_terminal (root ++ [n]) i s detail) ending.
Proof.
  intros O Ht. pose proof (ready_stable n i O) as SR. unfold write_terminal.
  eapply triple_seq; [apply triple_read; [by reading|done]| |done|by intros e d H; apply H].
  intros [completed|]; [|apply triple_throw; [done|by intros d H; apply H]].
  eapply triple_seq; [by apply triple_write_result| |apply _|done]. intros ?. by apply triple_write_state.
Qed.

Lemma triple_refuse n i failure : opname n -> triple (ready n i) (refuse (root ++ [n]) i failure) ending.
Proof.
  intros O. unfold refuse. eapply triple_seq with (M := fun _ => held TempRun) (X := held TempRun);
    [|intros ?; apply held_throw|apply _|done].
  eapply triple_catch; [by apply triple_write_terminal|intros r; apply Stable_post; [intros ?|]; apply _|by intros [] d].
Qed.

Lemma triple_finish n i detail : opname n -> triple (ready n i) (finish (root ++ [n]) i detail) ending.
Proof.
  intros O. unfold finish.
  eapply triple_seq; [by apply triple_write_terminal|intros ?; apply held_ret|apply _|done].
Qed.

Lemma held_outside o d d' : dk_locks d' = dk_locks d ->
  (forall q, dk_nodes d' !! (root ++ q) = dk_nodes d !! (root ++ q)) -> held o d -> held o d'.
Proof. intros HL HN H. apply (held_after root tid _ d); [done|by apply outside_guar|done]. Qed.

Lemma triple_spawn_ready command n i : opname n ->
  triple (ready n i) (spawn command) (post (fun _ => ready n i) (ready n i)).
Proof.
  intros O. apply triple_spawn; [by apply ready_stable|]. intros d d' HL HN H.
  apply (ready_ext n i d); [by apply (held_outside _ d); [| |apply H]| | |done]; by apply outside_file.
Qed.

(** Removing the staging directory touches no operation. *)
Lemma below_apart r staging q : staging_apart root r -> (1 <= length staging)%nat ->
  take (length staging - 1) staging = staging_root r -> below staging (root ++ q) = false.
Proof.
  intros [H1 H2] L E. unfold below in *. rewrite bool_decide_eq_false in H1, H2 |- *. intros B.
  assert (length (staging_root r) = length staging - 1)%nat as LS by (rewrite <- E, length_take; lia).
  assert (staging_root r = take (length staging - 1) (root ++ q)) as ES.
  { transitivity (take (length staging - 1) (take (length staging) (root ++ q))); [by rewrite B|].
    rewrite take_take. f_equal. lia. }
  destruct (decide (length staging <= length root)%nat) as [D|D].
  - apply H1. rewrite LS, ES. by rewrite take_app_le by lia.
  - apply H2. rewrite ES, take_take, take_app_le, firstn_all2; [done|lia|lia].
Qed.

Lemma remove_nodes_outside (removed : list path) d :
  (forall q, root ++ q ∉ removed) ->
  let d' := foldr remove_node d removed in
  dk_locks d' = dk_locks d /\ forall q, dk_nodes d' !! (root ++ q) = dk_nodes d !! (root ++ q).
Proof.
  induction removed as [|p removed IH]; simpl; intros H; [by split|].
  destruct IH as [HL HN]; [intros q; specialize (H q); rewrite not_elem_of_cons in H; apply H|].
  split; [done|]. intros q. rewrite lookup_delete_ne; [apply HN|].
  intros ->. specialize (H q). rewrite not_elem_of_cons in H. by destruct H.
Qed.

Lemma triple_cleanup_staging r package_root : staging_apart root r ->
  triple (held TempRun) (cleanup_staging r package_root) ending.
Proof.
  intros A. unfold cleanup_staging. set (staging := take _ package_root).
  destruct (_ && _) eqn:Ec; [|apply held_ret].
  apply andb_true_iff in Ec as [[_ L%bool_decide_eq_true]%andb_true_iff E%bool_decide_eq_true].
  eapply triple_seq with (M := fun _ => held TempRun) (X := held TempRun); [|intros ?; apply held_ret|apply _|done].
  eapply triple_catch with (M := fun _ => held TempRun); [|intros ?; apply _|done].
  apply triple_act; [apply _|intros ?; apply _|]. intros d c res d' H _ Er.
  set (doomed := filter _ _) in Er.
  assert (forall q, root ++ q ∉ doomed) as HD.
  { intros q. unfold doomed. rewrite list_elem_of_filter. intros [B _].
    rewrite (below_apart r staging q A L E) in B. done. }
  assert (forall k q, root ++ q ∉ take k doomed) as HT.
  { intros k q I. apply (HD q). by apply (elem_of_take _ k doomed) in I as (? & ?%list_elem_of_lookup_2 & _). }
  assert (exists removed, d' = foldr remove_node d removed /\ forall q, root ++ q ∉ removed) as (removed & -> & HR).
  { destruct (ch_fault c); injection Er as _ <-; eexists; split; try reflexivity; [apply HT|apply HD]. }
  destruct (remove_nodes_outside removed d HR) as [HL HN].
  split; [by apply outside_guar|by apply (held_outside _ d)].
Qed.

(** * Execution *)

Lemma reads_sha256 p : read_only (sha256_file p).
Proof. unfold sha256_file. by reading. Qed.
#[local] Hint Resolve reads_sha256 : reads.

Lemma reads_sha256_if_present p : read_only (sha256_if_present p).
Proof. unfold sha256_if_present. by reading. Qed.

Lemma reads_to_string p : read_only (read_to_string p).
Proof. unfold read_to_string. by reading. Qed.
#[local] Hint Resolve reads_sha256_if_present reads_to_string : reads.

Lemma reads_commit p : read_only (read_installation_commit p).
Proof. unfold read_installation_commit. by reading. Qed.

Lemma reads_marker p b : read_only (validate_verified_marker p b).
Proof. unfold validate_verified_marker. by reading. Qed.
#[local] Hint Resolve reads_commit reads_marker : reads.

Section Execute.
Context (r : UpgradeRunner) (n : bytes) (i : UpgradeIntent).
Hypothesis O : opname n.
Hypothesis apart : staging_apart root r.

#[local] Instance ready_st : Stable (ready n i) := ready_stable n i O.

Lemma ready_held d : ready n i d -> held TempRun d.
Proof. by intros []. Qed.

(** A step that only looks, then the rest. *)
Lemma triple_look {A} (m : Up A) (k : A -> Up OperationState) :
  read_only m -> (forall a, triple (ready n i) (k a) ending) -> triple (ready n i) (pbind m k) ending.
Proof.
  intros Hm Hk. eapply triple_seq; [by apply triple_read; [|apply _]|exact Hk|apply _|].
  intros e d H. by apply ready_held.
Qed.

Lemma triple_or_refuse {A} (m : Up A) wrap (k : A -> Up OperationState) :
  triple (ready n i) m (post (fun _ => ready n i) (ready n i)) ->
  (forall a, triple (ready n i) (k a) ending) ->
  triple (ready n i) (or_refuse (root ++ [n]) i m wrap k) ending.
Proof.
  intros Hm Hk. unfold or_refuse.
  eapply triple_seq with (M := fun _ => ready n i) (X := ready n i); [| |apply _|intros e d; apply ready_held].
  - eapply triple_catch; [exact Hm|intros res; apply Stable_post; [intros ?|]; apply _|by intros [] d].
  - intros [a|e]; [apply Hk|by apply triple_refuse].
Qed.

Lemma triple_verify_package archive digest :
  triple (ready n i) (verify_package r archive digest) (post (fun _ => ready n i) (ready n i)).
Proof.
  unfold verify_package.
  eapply triple_seq; [apply triple_read; [by reading|apply _]| |apply _|done]. intros ?.
  eapply triple_seq; [apply triple_recode; [by apply triple_spawn_ready|intros ?; apply _|apply _]| |apply _|done].
  intros output. apply triple_read; [|apply _]. by reading.
Qed.

Lemma triple_lifecycle package_root :
  triple (ready n i) (run_lifecycle r package_root) (post (fun _ => ready n i) (ready n i)).
Proof.
  unfold run_lifecycle.
  eapply triple_seq; [apply triple_read; [by reading|apply _]| |apply _|done]. intros ?.
  eapply triple_seq; [apply triple_recode; [by apply triple_spawn_ready|intros ?; apply _|apply _]| |apply _|done].
  intros output. apply triple_read; [|apply _]. by reading.
Qed.

Lemma triple_restart : triple (ready n i) (if is_real_host r then restart_services else pret tt)
  (post (fun _ => ready n i) (ready n i)).
Proof.
  destruct (is_real_host r); [|by apply triple_ret; [apply _|]]. unfold restart_services.
  eapply triple_seq; [apply triple_recode; [by apply triple_spawn_ready|intros ?; apply _|apply _]| |apply _|done].
  intros output. apply triple_read; [|apply _]. by reading.
Qed.

Lemma triple_conclude package_root detail :
  triple (ready n i) (outcome <- pcatch (finish (root ++ [n]) i detail) ;;
                      cleanup_staging r package_root ;;; plift outcome) ending.
Proof.
  eapply triple_seq with (M := fun _ => held TempRun) (X := held TempRun); [| |apply _|done].
  - eapply triple_catch; [by apply triple_finish|intros res; apply Stable_post; [intros ?|]; apply _|by intros [] d].
  - intros outcome. eapply triple_seq; [by apply triple_cleanup_staging| |apply _|done]. intros ?.
    unfold plift. apply triple_done; [apply _|]. by destruct outcome.
Qed.

Lemma triple_replace package_root digest agent privd replaced :
  triple (ready n i) (replace_binaries r (root ++ [n]) i package_root digest agent privd replaced) ending.
Proof.
  unfold replace_binaries.
  eapply triple_seq; [by apply triple_write_running| |apply _|intros e d; apply ready_held]. intros ?.
  assert (forall (m : Fs bytes unit) (k : result bytes unit -> Up OperationState),
    triple (ready n i) m (post (fun _ => ready n i) (ready n i)) ->
    (forall a, triple (ready n i) (k a) ending) -> triple (ready n i) (pbind (pcatch m) k) ending) as caught.
  { intros m k Hm Hk. eapply triple_seq with (M := fun _ => ready n i) (X := ready n i);
      [|exact Hk|apply _|intros e d; apply ready_held].
    eapply triple_catch; [exact Hm|intros res; apply Stable_post; [intros ?|]; apply _|by intros [] d]. }
  destruct replaced.
  - apply caught; [apply triple_restart|]. intros [x|x]; [apply triple_conclude|by apply triple_refuse].
  - apply caught; [apply triple_lifecycle|]. intros [x|x]; [|by apply triple_refuse].
    apply triple_look; [by reading|]. intros installed_agent.
    apply triple_look; [by reading|]. intros installed_privd.
    destruct (_ || _); [by apply triple_refuse|].
    apply triple_look; [by reading|]. intros commit.
    destruct (negb _); [by apply triple_refuse|apply triple_conclude].
Qed.

Lemma triple_execute : triple (ready n i) (execute_upgrade r (root ++ [n]) i) ending.
Proof.
  unfold execute_upgrade. case_bool_decide; [by apply triple_refuse|].
  apply triple_or_refuse; [apply triple_read; [by reading|apply _]|]. intros ?.
  apply triple_look; [by reading|]. intros digest. case_bool_decide; [by apply triple_refuse|].
  apply triple_or_refuse; [apply triple_verify_package|]. intros package_root.
  apply triple_or_refuse; [apply triple_read; [by reading|apply _]|]. intros ?.
  apply triple_or_refuse; [apply triple_read; [by reading|apply _]|]. intros ?.
  apply triple_or_refuse; [apply triple_read; [by reading|apply _]|]. intros ?.
  apply triple_look; [by reading|]. intros agent. apply triple_look; [by reading|]. intros privd.
  apply triple_look; [by reading|]. intros installed_agent.
  apply triple_look; [by reading|]. intros installed_privd.
  apply triple_look; [by reading|]. intros commit.
  destruct (negb _ && _); [by apply triple_refuse|apply triple_replace].
Qed.

Lemma triple_run_locked :
  triple (fun d => held TempRun d /\ knows_intent n i d) (run_locked r (root ++ [n]) i) ending.
Proof.
  unfold run_locked. pose proof (knows_intent_stable n i O) as SK.
  set (P := fun d => held TempRun d /\ knows_intent n i d).
  assert (Stable P) as SP by (apply Stable_and; apply _).
  assert (forall d d', G d d' -> knows_intent n i d -> knows_intent n i d') as KG.
  { intros d d' HG. apply knows_intent_file. intros j. by apply (guar_intent _ _ _ _ HG). }
  eapply triple_seq with (M := fun _ => P) (X := held TempRun); [| |apply _|done].
  { eapply triple_conseq; [apply (triple_frame R G reliable tid (held TempRun) (knows_intent n i));
      [by apply triple_cleanup|done|done]|done|]. intros [x|x] d [H1 H2]; [by split|done]. }
  intros ?. eapply triple_seq with (X := P)
    (M := fun s d => held TempRun d /\ knows_intent n i d /\ state_at root d n = Some s); [| |done|by intros e d []].
  - apply triple_state; [done| |by intros d s []].
    intros s d d' HR (H & K & E). split_and!; [by apply (held_stable root tid _ d)|by apply (SK d)|].
    rewrite (state_at_ext root d d'); [done|]. apply (r_state_held _ _ _ _ HR); [done|apply H|].
    by eapply state_at_some.
  - intros s. assert (Stable (fun d => held TempRun d /\ knows_intent n i d /\ state_at root d n = Some s)) as SS.
    { intros d d' HR (H & K & E). split_and!; [by apply (held_stable root tid _ d)|by apply (SK d)|].
      rewrite (state_at_ext root d d'); [done|]. apply (r_state_held _ _ _ _ HR); [done|apply H|].
      by eapply state_at_some. }
    destruct (is_terminal s) eqn:Es; [apply triple_ret; [done|by intros d []]|].
    eapply triple_conseq; [apply triple_execute| |done]. intros d (H & K & E). split_and!; [done|done| |].
    + by eapply state_at_some.
    + unfold terminal. by rewrite E.
Qed.

End Execute.

Lemma canonical_operation operation u : parse_canonical_operation operation = Ok u ->
  length u = 16%nat /\ uuid_version u = 7.
Proof.
  unfold parse_canonical_operation. destruct (_ || _); [done|].
  destruct (uuid_parse_str operation) as [v|] eqn:E; [|done]. apply uuid_parse_length in E.
  destruct (uuid_version v =? 7) eqn:V; [|done]. simpl. case_bool_decide; [done|].
  intros Hu. injection Hu as <-. split; [done|lia].
Qed.

Lemma triple_load_intent n : opname n ->
  triple Inv (load_intent (root ++ [n])) (post (fun i d => Inv d /\ knows_intent n i d) Inv).
Proof.
  intros O. unfold load_intent. rewrite <- app_assoc. simpl.
  eapply triple_seq; [apply triple_read; [by reading|apply _]| |apply _|done]. intros ?.
  set (M := fun b d => Inv d /\ forall i, UpgradeIntent_parse b = Ok i -> knows_intent n i d).
  assert (forall b, Stable (M b)) as SM.
  { intros b d d' HR [H K]. split; [by apply (Inv_stable d)|]. intros i E.
    by apply (knows_intent_stable n i O d), K. }
  eapply triple_seq with (M := M) (X := Inv); [| |apply _|done].
  - apply triple_recode; [|done|apply _]. apply triple_content; [apply _|done|].
    intros d b H E. split; [done|]. intros i Ei. by exists b.
  - intros b. case_match; [apply triple_throw; [apply SM|by intros d []]|].
    unfold plift. apply triple_done; [apply SM|]. intros d [HI K].
    destruct (UpgradeIntent_parse b) as [i|e] eqn:E; simpl; [|done]. split; [done|by apply K].
Qed.

Lemma triple_run r operation : operations_dir r = root -> staging_apart root r ->
  triple Inv (run_upgrade r operation) (post (fun _ => Inv) Inv).
Proof.
  intros E A. unfold run_upgrade. rewrite E. unfold plift.
  destruct (parse_canonical_operation operation) as [u|e] eqn:Eu; [|by apply triple_throw; [apply _|]].
  apply canonical_operation in Eu as [L V]. unfold pbind at 1. simpl.
  assert (opname (uuid_to_string u)) as O by (unfold opname; by rewrite opname_of).
  set (n := uuid_to_string u) in *.
  eapply triple_seq; [apply triple_read; [by reading|apply _]| |apply _|done]. intros ?.
  eapply triple_seq; [by apply triple_load_intent| |apply _|done]. intros i. simpl.
  assert (Stable (fun d => Inv d /\ knows_intent n i d)) as SP.
  { apply Stable_and; [apply _|by apply knows_intent_stable]. }
  eapply triple_seq; [apply triple_read; [by reading|done]| |done|by intros e d []]. intros s.
  destruct (is_terminal s); [apply triple_ret; [done|by intros d []]|].
  apply (triple_with_lock TempRun (fun d => Inv d /\ knows_intent n i d)); [|done| |by intros d []].
  - unfold acquire_execution.
    assert (forall d d', G d d' -> knows_intent n i d -> knows_intent n i d') as KG.
    { intros d d' HG. apply knows_intent_file. intros j. by apply (guar_intent _ _ _ _ HG). }
    pose proof (knows_intent_stable n i O) as SK.
    eapply triple_seq with (M := fun _ d => Inv d /\ knows_intent n i d) (X := Inv); [| |apply _|done].
    + eapply triple_conseq; [apply (triple_frame R G reliable tid Inv (knows_intent n i));
        [apply triple_lock_open; by right|done|done]|done|]. intros [x|x] d [H1 H2]; [by split|done].
    + intros ?. apply triple_recode; [|intros ?; apply Stable_and; [apply held_stable|exact SP]|apply _].
      eapply triple_conseq; [apply (triple_frame R G reliable tid Inv (knows_intent n i));
        [apply (triple_flock_try TempRun)|done|done]|done|].
      intros [x|x] d [H1 H2]; simpl in *; [|done]. split_and!; [done|by eapply held_inv|done].
  - eapply triple_conseq; [apply (triple_run_locked r n i O A)|by intros d (H & _ & K)|done].
Qed.

Lemma reads_results limit : read_only (read_recent_results root limit).
Proof.
  unfold read_recent_results. apply read_only_pbind; [by reading|]. intros [names|[]]; try by reading.
  apply read_only_pbind; [|by reading]. induction names as [|name names IH]; simpl; [by reading|].
  unfold plift. by reading.
Qed.

End Runner.
