(* ===== verification/UpgradeText.v ===== *)
(** The text of the durable upgrade records reads back as the record. *)

From stdpp Require Import base list gmap numbers countable strings.
From Stdlib Require Import ZArith Lia Bool.
From Stdlib Require Import Strings.Byte.
From S2P Require Import Prelude Bytes Text Authorization ConfigProfile Executor.
From S2P Require Import Concurrency Files Utf8 UpgradeRecords.

Local Open Scope Z_scope.

(** A byte that may stand in a value of a record line. *)
Definition line_byte (b : byte) : bool := is_ascii b && negb (bool_decide (b = x0a)).

Lemma line_byte_forall l : forallb line_byte l = true -> forallb is_ascii l = true /\ x0a ∉ l.
Proof.
  induction l as [|b l IH]; simpl; [split; [done|apply not_elem_of_nil]|].
  unfold line_byte at 1. rewrite !andb_true_iff. intros [[A N] H]. destruct (IH H) as [H1 H2].
  apply negb_true_iff, bool_decide_eq_false in N. split; [done|]. apply not_elem_of_cons. split; [congruence|done].
Qed.

Lemma line_byte_weaken (P : byte -> bool) l :
  (forall b, P b = true -> line_byte b = true) -> forallb P l = true -> forallb line_byte l = true.
Proof. intros H. rewrite !forallb_forall. intros HP x Hx. by apply H, HP. Qed.

Lemma alphanumeric_line b : is_ascii_alphanumeric b = true -> line_byte b = true.
Proof. by destruct b. Qed.
Lemma digit_line b : is_ascii_digit b = true -> line_byte b = true.
Proof. by destruct b. Qed.
Lemma lower_hex_line b : lower_hexdigit b = true -> line_byte b = true.
Proof. by destruct b. Qed.
Lemma uuid_char_line b : is_ascii_hexdigit b || bool_decide (b = x2d) = true -> line_byte b = true.
Proof. by destruct b. Qed.
Lemma identifier_line b : is_ascii_alphanumeric b || bool_decide (b = x2d) = true -> line_byte b = true.
Proof. by destruct b. Qed.

(** * Versions and architectures are plain text *)

Lemma forallb_join (P : byte -> bool) c parts : P c = true ->
  forallb (forallb P) parts = true -> forallb P (join c parts) = true.
Proof.
  intros Hc. induction parts as [|p [|q rest] IH]; simpl; [done|by rewrite andb_true_r|].
  rewrite andb_true_iff. intros [H1 H2]. rewrite forallb_app. simpl in *. by rewrite H1, Hc, IH.
Qed.

Lemma valid_number_line v : valid_number v = true -> forallb line_byte v = true.
Proof.
  unfold valid_number. rewrite negb_true_iff, !orb_false_iff, negb_false_iff. intros [_ H].
  by apply (line_byte_weaken _ _ digit_line).
Qed.

Lemma valid_identifier_line pre v : valid_identifier pre v = true -> forallb line_byte v = true.
Proof.
  unfold valid_identifier. destruct (is_empty v); [done|].
  destruct (forallb is_ascii_digit v) eqn:E; intros H.
  - by apply (line_byte_weaken _ _ digit_line).
  - by apply (line_byte_weaken _ _ identifier_line).
Qed.

Lemma valid_identifier_list_line pre v : valid_identifier_list v pre = true -> forallb line_byte v = true.
Proof.
  unfold valid_identifier_list. destruct (is_empty v); [done|]. intros H.
  rewrite <- (join_split_on x2e v). apply forallb_join; [done|].
  rewrite forallb_forall in H |- *. intros p Hp. by eapply valid_identifier_line, H.
Qed.

Lemma version_line v : valid_target_version v = true -> forallb line_byte v = true /\ v <> [].
Proof.
  unfold valid_target_version. destruct (_ || _) eqn:EL; [done|]. intros H. split.
  2:{ intros ->. done. }
  revert H. clear EL.
  assert (forall core, match split_on x2e core with
      [major; minor; patch] => valid_number major && valid_number minor && valid_number patch
      | _ => false end = true -> forallb line_byte core = true) as HC.
  { intros core H. rewrite <- (join_split_on x2e core). apply forallb_join; [done|].
    destruct (split_on x2e core) as [|a [|b [|c []]]]; try done. simpl.
    rewrite !andb_true_iff in H. destruct H as [[Ha Hb] Hc].
    by rewrite !valid_number_line. }
  assert (forall core, (let '(core, prerelease_ok) :=
      match split_once x2d core with
      | Some (core, prerelease) => (core, valid_identifier_list prerelease true)
      | None => (core, true) end in
      if negb prerelease_ok then false
      else match split_on x2e core with
        [major; minor; patch] => valid_number major && valid_number minor && valid_number patch
        | _ => false end) = true -> forallb line_byte core = true) as HP.
  { intros core. destruct (split_once x2d core) as [[c p]|] eqn:Es; simpl; [|apply HC].
    apply split_once_Some in Es as [-> _]. destruct (valid_identifier_list p true) eqn:Ep; simpl; [|done].
    intros H%HC. rewrite forallb_app, H. simpl. by eapply valid_identifier_list_line. }
  destruct (split_once x2b v) as [[core build]|] eqn:Es; simpl; [|apply HP].
  apply split_once_Some in Es as [-> _]. destruct (valid_identifier_list build false) eqn:Eb; simpl; [|done].
  intros H%HP. rewrite forallb_app, H. simpl. by eapply valid_identifier_list_line.
Qed.

Lemma architecture_line a : valid_architecture a = true -> forallb line_byte a = true /\ a <> [].
Proof.
  unfold valid_architecture. simpl. rewrite orb_false_r. intros [E|E]%orb_true_iff;
    apply bool_decide_eq_true in E; by subst.
Qed.

Section Lines.
Context {crypto : Crypto} {text : RecordText} {platform : Platform}.

(** * Lines *)

Definition line_of (key : String.string) (value : bytes) : bytes := str key ++ [x3d] ++ value.

Arguments line_of : simpl never.
Arguments bounded_detail : simpl never.
Arguments to_string : simpl never.

Definition good_line (kv : String.string * bytes) : Prop :=
  forallb line_byte (str kv.1) = true /\ forallb line_byte kv.2 = true /\ kv.2 <> [].

Definition render_lines (lines : list (String.string * bytes)) : bytes :=
  concat ((fun kv => record_line kv.1 kv.2) <$> lines).

Lemma render_lines_join lines :
  render_lines lines = join x0a (((fun kv => line_of kv.1 kv.2) <$> lines) ++ [[]]).
Proof.
  induction lines as [|[key value] lines IH]; [done|].
  change (render_lines ((key, value) :: lines)) with (record_line key value ++ render_lines lines). rewrite IH.
  unfold record_line, line_of. rewrite <- !app_assoc.
  destruct lines as [|[k' v'] rest]; simpl; by rewrite <- ?app_assoc.
Qed.

Lemma good_line_chars kv : good_line kv -> forallb line_byte (line_of kv.1 kv.2) = true.
Proof. intros (H1 & H2 & _). unfold line_of. by rewrite !forallb_app, H1, H2. Qed.

Lemma render_lines_ascii lines : Forall good_line lines -> forallb is_ascii (render_lines lines) = true.
Proof.
  induction 1 as [|kv lines H _ IH]; [done|].
  change (render_lines (kv :: lines)) with (record_line kv.1 kv.2 ++ render_lines lines).
  destruct H as (H1 & H2 & _). unfold record_line. rewrite !forallb_app, IH.
  apply line_byte_forall in H1 as [-> _], H2 as [-> _]. done.
Qed.

Lemma pop_empty_snoc (l : list bytes) : pop_empty (l ++ [[]]) = l.
Proof. unfold pop_empty. rewrite rev_app_distr. simpl. apply rev_involutive. Qed.

Lemma decode_render_lines lines : Forall good_line lines ->
  decode_record_lines (render_lines lines) (length lines)
  = Ok ((fun kv => line_of kv.1 kv.2) <$> lines).
Proof.
  intros H. unfold decode_record_lines. rewrite utf8_valid_ascii by (by apply render_lines_ascii). simpl.
  rewrite render_lines_join, split_on_join, pop_empty_snoc.
  - rewrite bool_decide_false; [done|]. rewrite length_fmap. tauto.
  - by destruct lines.
  - apply Forall_app. split; [|repeat constructor; apply not_elem_of_nil].
    apply Forall_fmap. eapply Forall_impl; [exact H|]. intros kv Hkv.
    by apply line_byte_forall, good_line_chars.
Qed.

Lemma parse_line_of key value : forallb line_byte value = true -> value <> [] ->
  parse_line_value (line_of key value) key = Ok value.
Proof.
  intros H N. unfold parse_line_value, line_of. rewrite app_assoc, strip_prefix_app.
  apply line_byte_forall in H as [_ H].
  assert (contains x0a value = false) as ->.
  { apply not_true_is_false. unfold contains. rewrite existsb_exists.
    intros (x & Hx & E%bool_decide_eq_true). subst. apply H. by apply list_elem_of_In. }
  by destruct value.
Qed.

Lemma uuid_line u : length u = 16%nat -> forallb line_byte (uuid_to_string u) = true /\ uuid_to_string u <> [].
Proof.
  intros L. split; [apply (line_byte_weaken _ _ uuid_char_line); by apply uuid_string_chars|].
  intros E. pose proof (uuid_string_length u L) as X. by rewrite E in X.
Qed.

Lemma hex_line b : length b = 32%nat -> forallb line_byte (hex_encode b) = true /\ hex_encode b <> [].
Proof.
  intros L. split; [apply (line_byte_weaken _ _ lower_hex_line), hex_encode_chars|].
  intros E. pose proof (hex_encode_length b) as X. rewrite E, L in X. done.
Qed.

Lemma parse_uuid_of key u : length u = 16%nat -> uuid_version u = 7 ->
  parse_line_uuid (line_of key (uuid_to_string u)) key = Ok u.
Proof.
  intros L V. unfold parse_line_uuid. destruct (uuid_line u L) as [H N]. rewrite parse_line_of by done. simpl.
  by rewrite uuid_parse_to_string, V, bool_decide_false by tauto.
Qed.

Lemma parse_digest_of key b : length b = 32%nat ->
  parse_line_digest (line_of key (hex_encode b)) key = Ok b.
Proof.
  intros L. unfold parse_line_digest. destruct (hex_line b L) as [H N]. rewrite parse_line_of by done. simpl.
  rewrite (hex_encode_chars b), bool_decide_false by (rewrite (hex_encode_length b), L; lia). simpl.
  by rewrite hex_decode_encode, bool_decide_true.
Qed.

(** * Records *)

Record intent_ok (i : UpgradeIntent) : Prop := {
  ok_operation : length (ui_operation_id i) = 16%nat /\ uuid_version (ui_operation_id i) = 7;
  ok_command : length (ui_command_id i) = 16%nat /\ uuid_version (ui_command_id i) = 7;
  ok_version : valid_target_version (ui_target_version i) = true;
  ok_package : length (ui_package_sha256 i) = 32%nat;
  ok_architecture : valid_architecture (ui_architecture i) = true;
  ok_semantic : length (ui_semantic_payload_sha256 i) = 32%nat }.

Definition intent_lines (i : UpgradeIntent) : list (String.string * bytes) :=
  [("schema", to_string RECORD_SCHEMA_VERSION);
   ("operation_id", uuid_to_string (ui_operation_id i));
   ("command_id", uuid_to_string (ui_command_id i));
   ("target_version", ui_target_version i);
   ("package_sha256", hex_encode (ui_package_sha256 i));
   ("architecture", ui_architecture i);
   ("semantic_payload_sha256", hex_encode (ui_semantic_payload_sha256 i))]%string.

Lemma render_intent_lines i : render i = render_lines (intent_lines i).
Proof. unfold render, render_lines, intent_lines. simpl. by rewrite app_nil_r. Qed.

Lemma intent_lines_good i : intent_ok i -> Forall good_line (intent_lines i).
Proof.
  intros [[O1 O2] [C1 C2] V P A S]. unfold intent_lines, good_line. repeat constructor; simpl;
    try (by apply uuid_line); try (by apply hex_line);
    try (by apply version_line); try (by apply architecture_line); done.
Qed.

(** Selects the lines of a record whose number of lines is known. *)
Ltac read_lines :=
  unfold record_at; cbn [fmap list_fmap  fst snd lookup list_lookup default from_option id].

Lemma intent_round_trip i : intent_ok i -> UpgradeIntent_parse (render i) = Ok i.
Proof.
  intros OK. pose proof (intent_lines_good i OK) as HG. destruct OK as [[O1 O2] [C1 C2] V P A S].
  unfold UpgradeIntent_parse. rewrite render_intent_lines.
  change 7%nat with (length (intent_lines i)). rewrite decode_render_lines by done. unfold intent_lines. read_lines.
  unfold expect_line. rewrite parse_line_of by done. simpl.
  rewrite !parse_uuid_of by done. simpl. destruct (version_line _ V) as [H1 H2].
  rewrite parse_line_of by done. simpl. rewrite V. simpl. rewrite !parse_digest_of by done. simpl.
  destruct (architecture_line _ A) as [H3 H4]. rewrite parse_line_of by done. simpl. rewrite A. simpl.
  by destruct i.
Qed.

Definition result_lines (i : UpgradeIntent) (s : OperationState) (t : Z) (detail : bytes)
  : list (String.string * bytes) :=
  [("schema", to_string RECORD_SCHEMA_VERSION);
   ("state", OperationState_as_str s);
   ("operation_id", uuid_to_string (ui_operation_id i));
   ("target_version", ui_target_version i);
   ("package_sha256", hex_encode (ui_package_sha256 i));
   ("completed_unix", to_string t);
   ("detail", bounded_detail detail)]%string.

Lemma bounded_detail_line detail : detail <> [] ->
  forallb line_byte (bounded_detail detail) = true /\ bounded_detail detail <> [].
Proof.
  intros N. split; [|by destruct detail].
  rewrite forallb_forall. intros x. unfold bounded_detail. rewrite <- list_elem_of_In, list_elem_of_fmap.
  intros (b & -> & _). by destruct b.
Qed.

Lemma decimal_digits fuel z : 0 <= z -> forallb is_ascii_digit (decimal fuel z) = true.
Proof.
  revert z. induction fuel as [|fuel IH]; intros z Hz; simpl; [done|].
  destruct (z <? 10) eqn:E.
  - simpl. rewrite digit_byte_digit by lia. done.
  - rewrite forallb_app, IH by (apply Z.div_pos; lia). simpl.
    rewrite digit_byte_digit; [done|]. apply Z.mod_pos_bound. lia.
Qed.

Lemma decimal_nonempty fuel z : decimal (S fuel) z <> [].
Proof. simpl. destruct (z <? 10); [done|]. intros E. by apply app_eq_nil in E as [_ E]. Qed.

Lemma to_string_line t : in_u64 t -> forallb line_byte (to_string t) = true /\ to_string t <> [].
Proof.
  intros H. split.
  - apply (line_byte_weaken _ _ digit_line), decimal_digits. unfold in_u64 in H. lia.
  - apply decimal_nonempty.
Qed.

Lemma state_parse_str s : OperationState_parse (OperationState_as_str s) = Ok s.
Proof. by destruct s. Qed.

Lemma state_line_good s : forallb line_byte (OperationState_as_str s) = true /\ OperationState_as_str s <> [].
Proof. by destruct s. Qed.

Lemma render_result_lines i s t detail : result_record i s t detail = render_lines (result_lines i s t detail).
Proof. unfold result_record, render_lines, result_lines. simpl. by rewrite app_nil_r. Qed.

Lemma length_str_lines_bound i s t detail : intent_ok i -> in_u64 t ->
  len (result_record i s t detail) <= 1024.
Proof.
  intros [[O1 _] _ V P _ _] Ht. unfold result_record, record_line, len. rewrite !length_app, !hex_encode_length, P.
  rewrite (uuid_string_length _ O1).
  assert (length (ui_target_version i) <= 128)%nat.
  { unfold valid_target_version in V. destruct (_ || _) eqn:E; [done|].
    apply orb_false_iff in E as [_ E]. unfold len, MAX_TARGET_VERSION_BYTES in E. lia. }
  assert (length (bounded_detail detail) <= 160)%nat.
  { unfold bounded_detail. rewrite length_fmap, length_take. unfold MAX_DETAIL_BYTES. lia. }
  assert (forall fuel z, length (decimal fuel z) <= fuel)%nat as HD.
  { induction fuel as [|fuel IH]; intros z; simpl; [done|]. destruct (z <? 10); simpl; [lia|].
    rewrite length_app. specialize (IH (z / 10)). simpl. lia. }
  assert (length (to_string t) <= 20)%nat by apply HD.
  assert (length (OperationState_as_str s) <= 11)%nat by (destruct s; vm_compute; lia).
  change (length (to_string RECORD_SCHEMA_VERSION)) with 1%nat.
  change (length (str "schema")) with 6%nat. change (length (str "state")) with 5%nat.
  change (length (str "operation_id")) with 12%nat. change (length (str "target_version")) with 14%nat.
  change (length (str "package_sha256")) with 14%nat. change (length (str "completed_unix")) with 14%nat.
  change (length (str "detail")) with 6%nat. simpl length. lia.
Qed.

Lemma result_round_trip i s t detail : intent_ok i -> is_terminal s = true -> 0 < t <= i64_max ->
  detail <> [] ->
  parse_result (ui_operation_id i) i (result_record i s t detail)
  = Ok (mkDurableUpgradeResult (ui_operation_id i) s (ui_target_version i) (ui_package_sha256 i) t
          (bounded_detail detail) (sha256 (result_record i s t detail))).
Proof.
  intros OK Hs Ht Hd. assert (in_u64 t) as Hu by (unfold in_u64, i64_max in *; lia).
  pose proof (length_str_lines_bound i s t detail OK Hu) as HB.
  destruct (bounded_detail_line detail Hd) as [D1 D2]. destruct (to_string_line t Hu) as [T1 T2].
  destruct (state_line_good s) as [S1 S2]. pose proof OK as [[O1 O2] _ V P _ _].
  destruct (version_line _ V) as [V1 V2].
  assert (Forall good_line (result_lines i s t detail)) as HG.
  { unfold result_lines, good_line. repeat constructor; simpl; try done;
      try (by apply uuid_line); by apply hex_line. }
  unfold parse_result. rewrite (proj2 (Z.ltb_ge _ _) HB).
  rewrite render_result_lines at 1. change 7%nat with (length (result_lines i s t detail)).
  rewrite decode_render_lines by done. unfold result_lines. read_lines. unfold expect_line. rewrite parse_line_of by done. simpl.
  rewrite parse_line_of by done. simpl. rewrite state_parse_str. simpl. rewrite parse_uuid_of by done. simpl.
  rewrite bool_decide_false by tauto. rewrite parse_line_of by done. simpl. rewrite parse_digest_of by done. simpl.
  rewrite !bool_decide_false by tauto. simpl. rewrite parse_line_of by done. simpl.
  unfold parse_u64. rewrite parse_unsigned_to_string by (unfold u64_max, in_u64 in *; lia). simpl.
  rewrite parse_line_of by done. simpl. rewrite Hs. simpl.
  rewrite (proj2 (Z.eqb_neq _ _)), (proj2 (Z.ltb_ge _ _)) by lia. done.
Qed.

End Lines.
