(* ===== verification/UpgradeTheorems.v ===== *)
(** The upgrade store under every interleaving of privd's handlers, upgrade
    runners and result reports, any of which may die at any call; every call may
    fail except the probes for existence, whose failure the code takes for
    absence. *)

From stdpp Require Import base list gmap numbers countable strings relations.
From Stdlib Require Import ZArith Lia Bool.
From Stdlib Require Import Strings.Byte.
From S2P Require Import Prelude Bytes Text Authorization ConfigProfile Executor.
From S2P Require Import Concurrency Files Utf8 UpgradeRecords Upgrader UpgradeRunner.
From S2P Require Import UpgradeFacts UpgradeProofs RunnerProofs UpgradeText.

Local Open Scope Z_scope.

Section Store.
Context {crypto : Crypto} {text : RecordText} {platform : Platform} {host : Host}.
Variable root : path.

(** The processes that work on the store. *)
Inductive startable : @Task Disk Choice -> Prop :=
| start_schedule s i : normal_names (us_operations_dir s) = root ->
    length (ui_operation_id i) = 16%nat -> uuid_version (ui_operation_id i) = 7 ->
    startable (task (schedule_and_trigger s i))
| start_run r operation : operations_dir r = root -> staging_apart root r ->
    startable (task (run_upgrade r operation))
| start_results limit : startable (task (read_recent_results root limit)).

(** Histories in which the environment makes permitted choices for the calls:
    which of them fail, what a child does, how much of a write is stored. *)
Definition upgrade_reach (permitted : Choice -> Prop)
  : Pool Disk Choice * Disk -> Pool Disk Choice * Disk -> Prop :=
  pool_reach permitted release_locks startable.

Lemma upgrade_reach_trans permitted p1 p2 p3 :
  upgrade_reach permitted p1 p2 -> upgrade_reach permitted p2 p3 -> upgrade_reach permitted p1 p3.
Proof. intros H1 H2. unfold upgrade_reach, pool_reach in *. by etransitivity. Qed.

(** No operation has been scheduled yet. *)
Definition fresh (d : Disk) : Prop :=
  forall n q, opname n -> dk_nodes d !! (root ++ n :: q) = None.

Lemma fresh_inv d : fresh d -> Inv root d.
Proof.
  intros F.
  assert (forall n, opname n -> node root d n = None) as N by (intros n O; by apply F).
  assert (forall n f, opname n -> file root d n f = None) as NF by (intros n f O; by apply F).
  split.
  - intros n f O H. by rewrite NF in H.
  - intros n m (O & H & _). by rewrite N in H.
  - intros n O H. by rewrite NF in H.
  - intros n s O E. apply state_at_some in E. by rewrite NF in E.
Qed.

Section Runs.
Hypothesis outside : children_outside root.

Lemma startable_wp tid t d : startable t -> Inv root d ->
  task_wp (Rely root) (Guar root) reliable tid t d.
Proof.
  intros [s i E L V|r operation E A|limit] HI; unfold task_wp.
  - eapply wp_mono; [|by eapply (triple_schedule root tid outside)]. done.
  - eapply wp_mono; [|by eapply (triple_run root tid outside)]. done.
  - eapply wp_mono; [|refine (triple_read root tid (Inv root) _ _ _ d HI); [apply reads_results|apply Inv_stable]]. done.
Qed.

Definition sound (p : Pool Disk Choice * Disk) : Prop :=
  pool_ok (Rely root) (Guar root) reliable (Inv root) p.

Lemma upgrade_sound d p : fresh d -> upgrade_reach reliable (∅, d) p -> sound p.
Proof.
  intros F H. eapply pool_sound; [..|exact H].
  - intros tid s. reflexivity.
  - intros tid s1 s2 s3 H1 H2. by transitivity s2.
  - intros tid tid' s s' N HI HG. by eapply guar_rely.
  - intros tid s s' HI HG. by eapply guar_inv.
  - intros tid tid' s N _. by apply release_rely.
  - apply release_inv.
  - apply startable_wp.
  - by apply fresh_inv.
Qed.

(** What no run changes once it is there. *)
Record Kept (d d' : Disk) : Prop := {
  kept_intent n i : opname n -> file root d n s_intent = Some i -> file root d' n s_intent = Some i;
  kept_terminal n : opname n -> terminal root d n = true ->
    file root d' n s_state = file root d n s_state /\ file root d' n s_result = file root d n s_result }.

Lemma upgrade_kept p p' : sound p -> upgrade_reach reliable p p' -> Kept p.2 p'.2.
Proof.
  intros HS H. eapply (pool_moves (Rely root) (Guar root) reliable (Inv root) release_locks startable);
    [..|exact HS|exact H].
  - intros tid s. reflexivity.
  - intros tid s1 s2 s3 H1 H2. by transitivity s2.
  - intros tid tid' s s' N HI HG. by eapply guar_rely.
  - intros tid s s' HI HG. by eapply guar_inv.
  - intros tid tid' s N _. by apply release_rely.
  - apply release_inv.
  - apply startable_wp.
  - intros s. by split.
  - intros s1 s2 s3 [I1 T1] [I2 T2]. split.
    + intros n i O L. by apply I2, I1.
    + intros n O T. destruct (T1 n O T) as [E1 E2]. destruct (T2 n O) as [E3 E4]; [by rewrite (terminal_ext _ _ _ _ E1)|].
      split; congruence.
  - intros tid s s' HI HG. split; [intros n i; by apply (guar_intent _ _ _ _ HG)|].
    intros n O T. by apply (guar_terminal _ _ _ _ HG).
  - intros tid s _. by split.
Qed.

End Runs.

(** C24. At most one operation of the node is scheduled and unfinished, whatever
    privd handlers, runners and reports do, in any interleaving, with any of
    them dying at any call and any call failing, except the probes for the
    existence of a file, which must answer ([reliable]: the code takes a failed
    [symlink_metadata(..).is_ok()] for absence), and as long as the programs
    they start stay out of the operations directory ([children_outside]). *)
Theorem single_active_upgrade d T d' n m : children_outside root -> fresh d ->
  upgrade_reach reliable (∅, d) (T, d') -> active root d' n -> active root d' m -> n = m.
Proof.
  intros HO F H. destruct (upgrade_sound HO d _ F H) as [HI _]. by apply (inv_single _ _ HI).
Qed.

(** C25. A committed intent never changes, and neither do the state and the
    result of a finished operation, in any later part of a history in which the
    probes for the existence of a file answer ([reliable]) and the programs that
    are started stay out of the operations directory; calls of every other kind
    may fail and processes may die at any point. *)
Theorem committed_upgrade_final d T1 d1 T2 d2 n : children_outside root -> fresh d ->
  upgrade_reach reliable (∅, d) (T1, d1) -> upgrade_reach reliable (T1, d1) (T2, d2) -> opname n ->
  (forall i, file root d1 n s_intent = Some i -> file root d2 n s_intent = Some i)
  /\ (terminal root d1 n = true ->
       state_at root d2 n = state_at root d1 n /\ content root d2 n s_result = content root d1 n s_result).
Proof.
  intros HO F H1 H2 O. pose proof (upgrade_sound HO d _ F H1) as HS.
  destruct (upgrade_kept HO _ _ HS H2) as [KI KT]. split; [by intros i; apply KI|].
  intros T. destruct (KT n O T) as [E1 E2]. split; [by apply state_at_ext|by apply content_ext].
Qed.

(** C26. An operation whose state is final has a result on disk that records
    that state for its own intent: the state is never ahead of its evidence, in
    every history in which the probes for the existence of a file answer
    ([reliable]) and the programs that are started stay out of the operations
    directory; calls of every other kind may fail and processes may die at any
    point. *)
Theorem terminal_upgrade_evidenced d T d' n s : children_outside root -> fresh d ->
  upgrade_reach reliable (∅, d) (T, d') -> opname n -> state_at root d' n = Some s -> is_terminal s = true ->
  exists intent_bytes i t detail, content root d' n s_intent = Some intent_bytes
    /\ UpgradeIntent_parse intent_bytes = Ok i
    /\ content root d' n s_result = Some (result_record i s t detail).
Proof.
  intros HO F H O E HT. destruct (upgrade_sound HO d _ F H) as [HI _]. exact (inv_evidence _ _ HI n s O E HT).
Qed.

End Store.

(** C27. The intent and the result of an operation read back from their text as
    what was recorded: a committed intent is the one that was authorized, and
    a result names the operation, release, final state and time it was written
    for, with its detail reduced to a bounded printable line. *)
Theorem upgrade_records_roundtrip {crypto : Crypto} {text : RecordText} {platform : Platform}
  (i : UpgradeIntent) (s : OperationState) (t : Z) (detail : bytes) :
  intent_ok i -> is_terminal s = true -> 0 < t <= i64_max -> detail <> [] ->
  UpgradeIntent_parse (render i) = Ok i
  /\ parse_result (ui_operation_id i) i (result_record i s t detail)
     = Ok (mkDurableUpgradeResult (ui_operation_id i) s (ui_target_version i) (ui_package_sha256 i) t
             (bounded_detail detail) (sha256 (result_record i s t detail)))
  /\ (length (bounded_detail detail) <= MAX_DETAIL_BYTES)%nat.
Proof.
  intros OK Hs Ht Hd. split_and!; [by apply intent_round_trip|by apply result_round_trip|].
  unfold bounded_detail. rewrite length_fmap, length_take. lia.
Qed.
