(* ===== verification/UpgradeWitnesses.v ===== *)
(** Concrete runs of the upgrade store: an operation is scheduled, refused by
    its runner and reported; a probe that fails hides a finished operation. *)

From stdpp Require Import base list gmap numbers countable strings relations.
From Stdlib Require Import ZArith Lia Bool.
From Stdlib Require Import Strings.Byte.
From S2P Require Import Prelude Bytes Text Authorization ConfigProfile Executor.
From S2P Require Import Concurrency Files Utf8 UpgradeRecords Upgrader UpgradeRunner.
From S2P Require Import UpgradeFacts UpgradeProofs RunnerProofs UpgradeText.
From S2P Require Import UpgradeTheorems EffectWitnesses AttestationTheorems.

Local Open Scope Z_scope.

(** * Text of identifiers and digests *)

Fixpoint hex_bytes (s : bytes) : option bytes :=
  match s with
  | [] => Some []
  | a :: b :: rest =>
      match hex_value a, hex_value b, hex_bytes rest with
      | Some x, Some y, Some l => Some (byte_of (16 * x + y) :: l)
      | _, _, _ => None
      end
  | [_] => None
  end.

Definition dash (s : bytes) : bytes :=
  take 8 s ++ [x2d] ++ take 4 (drop 8 s) ++ [x2d] ++ take 4 (drop 12 s) ++ [x2d]
  ++ take 4 (drop 16 s) ++ [x2d] ++ take 12 (drop 20 s).
Definition undash (s : bytes) : bytes :=
  take 8 s ++ take 4 (drop 9 s) ++ take 4 (drop 14 s) ++ take 4 (drop 19 s) ++ take 12 (drop 24 s).

Definition hyphenated (u : bytes) : bytes := dash (lower_hex_string u).
Definition parse_hyphenated (s : bytes) : option bytes :=
  match hex_bytes (undash s) with
  | Some u => if bool_decide (length u = 16%nat) then Some u else None
  | None => None
  end.

Lemma hex_string_cons x b : lower_hex_string (x :: b) = hex_pair x ++ lower_hex_string b.
Proof. reflexivity. Qed.

Lemma hex_bytes_pair x s : hex_bytes (hex_pair x ++ s) = match hex_bytes s with Some l => Some (x :: l) | None => None end.
Proof. by destruct x. Qed.

Lemma hex_bytes_string b : hex_bytes (lower_hex_string b) = Some b.
Proof. induction b as [|x b IH]; [done|]. by rewrite hex_string_cons, hex_bytes_pair, IH. Qed.

Lemma lower_hex_length b : length (lower_hex_string b) = (2 * length b)%nat.
Proof. induction b as [|x b IH]; [done|]. rewrite hex_string_cons, length_app, IH. simpl. lia. Qed.

Lemma lower_hex_chars b : forallb lower_hexdigit (lower_hex_string b) = true.
Proof. induction b as [|x b IH]; [done|]. rewrite hex_string_cons, forallb_app, IH. by destruct x. Qed.

(** Lists of a known length, taken apart. *)
Ltac explode s L :=
  repeat (destruct s as [|? s]; [discriminate L|]); destruct s; [|discriminate L].

Lemma undash_dash s : length s = 32%nat -> undash (dash s) = s.
Proof. intros L. explode s L. reflexivity. Qed.

Lemma dash_length s : length s = 32%nat -> length (dash s) = 36%nat.
Proof. intros L. explode s L. reflexivity. Qed.

Lemma forallb_take (P : byte -> bool) k l : forallb P l = true -> forallb P (take k l) = true.
Proof.
  intros H. rewrite <- (take_drop k l), forallb_app in H. by apply andb_true_iff in H as [H _].
Qed.

Lemma forallb_drop (P : byte -> bool) k l : forallb P l = true -> forallb P (drop k l) = true.
Proof.
  intros H. rewrite <- (take_drop k l), forallb_app in H. by apply andb_true_iff in H as [_ H].
Qed.

Lemma dash_chars (P : byte -> bool) s : P x2d = true -> forallb P s = true -> forallb P (dash s) = true.
Proof.
  intros H1 H2. unfold dash. rewrite !forallb_app. simpl. rewrite H1.
  by rewrite !forallb_take by (try apply forallb_drop; done).
Qed.

Definition up_crypto : Crypto :=
  {| VerifyingKey := bytes; Signature := bytes; key_as_bytes := fun k => k;
     signature_from_slice := Some; verify_strict := fun _ _ _ => false; sha256 := checksum;
     hex_encode := lower_hex_string; sha256_length := fun b => length_be 32 _;
     hex_encode_inj := lower_hex_string_inj |}.
#[local] Existing Instance up_crypto.

(** The text of identifiers where digests are written in lower case. *)
Definition plain_text (crypto : Crypto) (E : @hex_encode crypto = lower_hex_string) : RecordText.
Proof.
  refine {| uuid_parse_str := parse_hyphenated; uuid_to_string := hyphenated; hex_decode := hex_bytes |};
    rewrite ?E.
  - intros s u. unfold parse_hyphenated. destruct (hex_bytes _); [|done]. case_bool_decide; [|done].
    intros E0. by injection E0 as <-.
  - intros u L. unfold parse_hyphenated, hyphenated.
    rewrite undash_dash by (rewrite lower_hex_length, L; done).
    by rewrite hex_bytes_string, bool_decide_true.
  - intros u L. unfold hyphenated. apply dash_length. by rewrite lower_hex_length, L.
  - intros u L. apply dash_chars; [done|].
    apply forallb_forall. intros x Hx. pose proof (lower_hex_chars u) as H.
    rewrite forallb_forall in H. specialize (H x Hx). by destruct x.
  - apply hex_bytes_string.
  - apply lower_hex_length.
  - apply lower_hex_chars.
Defined.

#[local] Instance up_text : RecordText := plain_text up_crypto eq_refl.

#[local] Instance up_platform : Platform :=
  {| encoded_len := fun _ => 0; uuid_version := fun u => byte_val (default x00 (u !! 6%nat)) / 16;
     uuid_parses := fun _ => true; ARCH := str "aarch64" |}.

#[local] Instance up_host : Host :=
  {| trusted_euid := 0; io_error_text := fun _ => str "input/output error";
     child := fun _ _ d => (mkChildOutput true (Some 0) [] [], d) |}.

(** * A store *)

Definition up_dir : path := fixed_path "var/lib/ocservia-upgrade/operations".
Definition up_scheduler : UpgradeScheduler :=
  mkUpgradeScheduler (RootDir :: (Normal <$> up_dir)) TriggerDisabled.
Definition up_runner : UpgradeRunner := mkUpgradeRunner [] None.

Definition v7 (x : Z) : bytes := be 6 x ++ [x70; x01; x80; x02] ++ be 6 x.

Definition up_intent (version : String.string) : UpgradeIntent :=
  mkUpgradeIntent (v7 1) (v7 2) (str version) (be 32 3) (str "amd64") (be 32 4).
Definition first_intent : UpgradeIntent := up_intent "1.2.3".
Definition second_intent : UpgradeIntent := up_intent "1.2.4".
Definition op1 : bytes := hyphenated (v7 1).

Definition directory : Inode := mkInode Directory 0 (oct 7 5 5) 1.
Definition up_disk : Disk := mkDisk {[ [] := directory; [str "var"] := directory ]} ∅.

Definition good (k : nat) : Choice := mkChoice false false 0 (v7 (Z.of_nat k)) (Some (1700000000 * NANOS_PER_SECOND)) 0.
Definition bad_probe : Choice := mkChoice false true 0 [] None 0.
Definition good_run : list Choice := good <$> seq 10 60.

Definition after_schedule : Disk := snd (run_alone 1 (schedule_and_trigger up_scheduler first_intent) good_run up_disk).
Definition after_run : Disk := snd (run_alone 2 (run_upgrade up_runner op1) good_run (release_locks 1 after_schedule)).

Example scheduled_result :
  fst (run_alone 1 (schedule_and_trigger up_scheduler first_intent) good_run up_disk) = Some (Ok Scheduled).
Proof. vm_compute. reflexivity. Qed.

Example refused_result :
  fst (run_alone 2 (run_upgrade up_runner op1) good_run (release_locks 1 after_schedule))
  = Some (Err (store_package "intent architecture mismatches this host")).
Proof. vm_compute. reflexivity. Qed.

Lemma up_outside : children_outside up_dir.
Proof. intros command k d. done. Qed.

Lemma up_fresh : fresh up_dir up_disk.
Proof.
  intros n q _. unfold up_disk. simpl. rewrite lookup_insert_ne by done. by rewrite lookup_singleton_ne.
Qed.

Lemma good_reliable : Forall reliable good_run.
Proof. apply Forall_fmap, Forall_forall. intros k _. reflexivity. Qed.

Lemma up_runner_apart : staging_apart up_dir up_runner.
Proof. split; reflexivity. Qed.

Lemma reach_alone {E A} (m : Fs E A) tid choices d r : startable up_dir (task m) ->
  Forall reliable choices -> fst (run_alone tid m choices d) = Some r ->
  upgrade_reach up_dir reliable (∅, d) (∅, release_locks tid (snd (run_alone tid m choices d))).
Proof.
  intros HS HP HR. destruct (run_alone tid m choices d) as [x d'] eqn:E1. simpl in *. subst x.
  by eapply run_alone_reach.
Qed.

Lemma up_start_schedule : startable up_dir (task (schedule_and_trigger up_scheduler first_intent)).
Proof. apply start_schedule; reflexivity. Qed.

Lemma up_start_run : startable up_dir (task (run_upgrade up_runner op1)).
Proof. refine (start_run up_dir up_runner op1 _ up_runner_apart). vm_compute. reflexivity. Qed.

Lemma reach_schedule : upgrade_reach up_dir reliable (∅, up_disk) (∅, release_locks 1 after_schedule).
Proof.
  exact (reach_alone (schedule_and_trigger up_scheduler first_intent) 1 good_run up_disk _ up_start_schedule
           good_reliable scheduled_result).
Qed.

Lemma reach_run : upgrade_reach up_dir reliable (∅, release_locks 1 after_schedule) (∅, release_locks 2 after_run).
Proof.
  exact (reach_alone (run_upgrade up_runner op1) 2 good_run (release_locks 1 after_schedule) _ up_start_run
           good_reliable refused_result).
Qed.

Lemma reach_first_run : upgrade_reach up_dir reliable (∅, up_disk) (∅, release_locks 2 after_run).
Proof. exact (upgrade_reach_trans _ _ _ _ _ reach_schedule reach_run). Qed.

Lemma op1_name : opname op1.
Proof. unfold opname. vm_compute. discriminate. Qed.

Lemma single_active_upgrade_witness :
  active up_dir (release_locks 1 after_schedule) op1
  /\ forall n, active up_dir (release_locks 1 after_schedule) n -> n = op1.
Proof.
  assert (active up_dir (release_locks 1 after_schedule) op1) as H.
  { split; [apply op1_name|]. split; vm_compute; [discriminate|reflexivity]. }
  split; [exact H|]. intros n Hn.
  exact (single_active_upgrade up_dir up_disk ∅ (release_locks 1 after_schedule) n op1 up_outside up_fresh
           reach_schedule Hn H).
Defined.

(** The finished operation is delivered again. *)
Definition after_redelivery : Disk :=
  snd (run_alone 3 (schedule_and_trigger up_scheduler first_intent) good_run (release_locks 2 after_run)).

Example redelivery_result :
  fst (run_alone 3 (schedule_and_trigger up_scheduler first_intent) good_run (release_locks 2 after_run))
  = Some (Ok AlreadyScheduled).
Proof. vm_compute. reflexivity. Qed.

Lemma reach_redelivery :
  upgrade_reach up_dir reliable (∅, release_locks 2 after_run) (∅, release_locks 3 after_redelivery).
Proof.
  exact (reach_alone (schedule_and_trigger up_scheduler first_intent) 3 good_run (release_locks 2 after_run) _ up_start_schedule
           good_reliable redelivery_result).
Qed.

Lemma committed_upgrade_final_witness :
  terminal up_dir (release_locks 2 after_run) op1 = true
  /\ state_at up_dir (release_locks 3 after_redelivery) op1 = state_at up_dir (release_locks 2 after_run) op1
  /\ content up_dir (release_locks 3 after_redelivery) op1 s_result
     = content up_dir (release_locks 2 after_run) op1 s_result.
Proof.
  assert (terminal up_dir (release_locks 2 after_run) op1 = true) as H by (vm_compute; reflexivity).
  split; [exact H|].
  exact (proj2 (committed_upgrade_final up_dir up_disk ∅ _ ∅ _ op1 up_outside up_fresh
                  reach_first_run reach_redelivery op1_name) H).
Defined.

Lemma terminal_upgrade_evidenced_witness :
  state_at up_dir (release_locks 2 after_run) op1 = Some OpFailed
  /\ exists intent_bytes i t detail,
      content up_dir (release_locks 2 after_run) op1 s_intent = Some intent_bytes
      /\ UpgradeIntent_parse intent_bytes = Ok i
      /\ content up_dir (release_locks 2 after_run) op1 s_result = Some (result_record i OpFailed t detail).
Proof.
  assert (state_at up_dir (release_locks 2 after_run) op1 = Some OpFailed) as H by (vm_compute; reflexivity).
  split; [exact H|].
  exact (terminal_upgrade_evidenced up_dir up_disk ∅ _ op1 OpFailed up_outside up_fresh
           reach_first_run op1_name H eq_refl).
Defined.

Lemma upgrade_records_roundtrip_witness :
  UpgradeIntent_parse (render first_intent) = Ok first_intent
  /\ (exists bytes, parse_result (v7 1) first_intent (result_record first_intent OpFailed 1700000000 (str "refused"))
       = Ok bytes).
Proof.
  assert (intent_ok first_intent) as OK by (split; try split; vm_compute; reflexivity).
  destruct (upgrade_records_roundtrip first_intent OpFailed 1700000000 (str "refused") OK eq_refl)
    as (H1 & H2 & _); [by vm_compute|done|].
  split; [exact H1|eexists; exact H2].
Defined.

(** * A probe that fails *)

Definition unlucky_run : list Choice := take 11 good_run ++ [bad_probe; bad_probe] ++ drop 20 good_run.

Definition after_reset : Disk :=
  snd (run_alone 3 (schedule_and_trigger up_scheduler second_intent) unlucky_run (release_locks 2 after_run)).

(** Why the theorems ask that probes answer: [read_operation_pieces] finds an
    operation through [symlink_metadata(..).is_ok()], which takes every failure
    for absence. When the two probes of this redelivery fail, the immutable
    intent is replaced by a different one and the failed operation becomes
    accepted again. *)
Example failed_probe_resets_operation :
  state_at up_dir after_run op1 = Some OpFailed
  /\ content up_dir after_run op1 s_intent = Some (render first_intent)
  /\ fst (run_alone 3 (schedule_and_trigger up_scheduler second_intent) unlucky_run (release_locks 2 after_run))
     = Some (Ok Scheduled)
  /\ state_at up_dir after_reset op1 = Some OpAccepted
  /\ content up_dir after_reset op1 s_intent = Some (render second_intent).
Proof. split_and!; vm_compute; reflexivity. Qed.
