(* ===== verification/PrivdProtocol.v ===== *)
(** The protocol between the Agent and the privileged daemon,
    [rust/crates/agent-protocol]: its messages, error classes and frames. *)

From stdpp Require Import base list gmap numbers countable strings.
From Stdlib Require Import ZArith Lia Bool Strings.Byte.
From S2P Require Import Prelude Bytes Text Contracts Authorization.
From S2P Require Import EffectRecords EffectStore Attestation.

Local Open Scope Z_scope.

(** [occtl terminate id] exists from version 1.4.2 on. *)
Definition supports_session_terminate (version : bytes) : bool :=
  match parse_u32 <$> split_on x2e version with
  | [Some major; Some minor; Some patch] =>
      (1 <? major) || ((major =? 1) && ((4 <? minor) || ((minor =? 4) && (2 <=? patch))))
  | _ => false
  end.

(** * Requests *)

Record CertificateCsrRequest := mkCertificateCsrRequest {
  ccr_certificate_id : bytes; ccr_common_name : bytes; ccr_dns_names : list bytes; ccr_key_bits : Z }.
Record CertificateRevokeRequest := mkCertificateRevokeRequest {
  crr_certificate_id : bytes; crr_certificate_version : Z }.
Record CertificateP12Request := mkCertificateP12Request {
  cpr_certificate_id : bytes; cpr_artifact_id : bytes; cpr_certificate_chain_pem : bytes;
  cpr_sealed_password : option SealedSecretV1; cpr_certificate_version : Z; cpr_operation_id : bytes;
  cpr_artifact_expires_at_unix_seconds : Z }.
Record ArtifactReadRequest := mkArtifactReadRequest {
  arr_grant : option ArtifactGrantV1; arr_offset : Z;
  arr_connection_fence : option ConnectionFenceV2; arr_fence_binding : option FenceBindingV2 }.
Record ArtifactConsumeRequest := mkArtifactConsumeRequest {
  acr_grant : option ArtifactGrantV1; acr_sha256 : bytes; acr_size : Z; acr_confirm_only : bool;
  acr_connection_fence : option ConnectionFenceV2; acr_fence_binding : option FenceBindingV2 }.
Record ConfigPlanRequest := mkConfigPlanRequest { cplr_candidate : bytes; cplr_candidate_hash : bytes }.
Record ConfigApplyRequest := mkConfigApplyRequest {
  car_candidate : bytes; car_candidate_hash : bytes; car_expected_current_hash : bytes;
  car_desired_revision : Z }.
Record SessionMutationRequest := mkSessionMutationRequest { smr_session_id : bytes; smr_boot_id : bytes }.
Record IpBanRemoveRequest := mkIpBanRemoveRequest { ibr_ip : bytes }.
Record UserSecretRequest := mkUserSecretRequest {
  usr_username : bytes; usr_sealed_password : bytes; usr_secret_key_id : bytes; usr_desired_revision : Z }.
Record UserDisableRequest := mkUserDisableRequest { udr_username : bytes; udr_desired_revision : Z }.
Record UserEnableRequest := mkUserEnableRequest { uer_username : bytes; uer_desired_revision : Z }.
Record GroupApplyRequest := mkGroupApplyRequest {
  gar_group_name : bytes; gar_members : list bytes; gar_desired_revision : Z }.
Record DesiredEffectObserveRequest := mkDesiredEffectObserveRequest {
  der_mutation_kind : bytes; der_resource_key : bytes; der_desired_revision : Z }.

Inductive Operation :=
| ReqServiceStatus
| ReqOcservVersion
| ReqSessionList
| ReqIpBanList
| ReqConfigFingerprint
| ReqUserList
| ReqGroupList
| ReqDesiredEffectObserve (value : DesiredEffectObserveRequest)
| ReqConfigPlan (value : ConfigPlanRequest)
| ReqArtifactRead (value : ArtifactReadRequest)
| ReqUpgradeResultList
| ReqSessionDisconnect (value : SessionMutationRequest)
| ReqSessionTerminate (value : SessionMutationRequest)
| ReqIpBanRemove (value : IpBanRemoveRequest)
| ReqServiceReload
| ReqUserCreate (value : UserSecretRequest)
| ReqUserDisable (value : UserDisableRequest)
| ReqUserPasswordRotate (value : UserSecretRequest)
| ReqGroupApply (value : GroupApplyRequest)
| ReqUserEnable (value : UserEnableRequest)
| ReqConfigApply (value : ConfigApplyRequest)
| ReqCertificateCsr (value : CertificateCsrRequest)
| ReqCertificateRevoke (value : CertificateRevokeRequest)
| ReqCertificateP12 (value : CertificateP12Request)
| ReqArtifactConsume (value : ArtifactConsumeRequest).

Inductive PrivilegedRequestMode := ModeUnspecified | ModeExecute | ModeReconcile.

#[export] Instance PrivilegedRequestMode_eq_dec : EqDecision PrivilegedRequestMode.
Proof. solve_decision. Defined.

Definition PrivilegedRequestMode_try_from (v : Z) : option PrivilegedRequestMode :=
  match v with 0 => Some ModeUnspecified | 1 => Some ModeExecute | 2 => Some ModeReconcile | _ => None end.

Record PrivdRequest := mkPrivdRequest {
  pq_request_id : bytes; pq_deadline_unix_ms : Z; pq_accepted_at : option Timestamp;
  pq_authorization_command : option CommandEnvelope; pq_privileged_mode : Z;
  pq_operation : option Operation }.

(** * Results *)

Record CertificateCsrResult := mkCertificateCsrResult {
  cres_certificate_id : bytes; cres_csr_der : bytes; cres_public_key_sha256 : bytes }.
Record CertificateRevokeResult := mkCertificateRevokeResult {
  rres_certificate_id : bytes; rres_key_removed : bool }.
Record AgentUpgradeScheduledResult := mkAgentUpgradeScheduledResult {
  ures_operation_id : bytes; ures_target_version : bytes; ures_package_sha256 : bytes }.
Record UpgradeOperationResult := mkUpgradeOperationResult {
  uor_operation_id : bytes; uor_state : bytes; uor_target_version : bytes; uor_completed_unix_ms : Z;
  uor_detail : bytes; uor_package_sha256 : bytes;
  uor_privileged_result_proof : option AgentUpgradeResultProof }.
Record ArtifactData := mkArtifactData {
  ad_artifact_id : bytes; ad_grant_id : bytes; ad_offset : Z; ad_data : bytes; ad_eof : bool;
  ad_sha256 : bytes }.
Record CertificateArtifactResult := mkCertificateArtifactResult {
  cart_certificate_id : bytes; cart_artifact_id : bytes; cart_artifact_sha256 : bytes;
  cart_artifact_size : Z }.
Record ConfigPlanResult := mkConfigPlanResult {
  cpres_candidate_hash : bytes; cpres_diff_redacted : bytes; cpres_warnings : list bytes;
  cpres_current_unchanged : bool; cpres_staging_cleaned : bool; cpres_current_hash : bytes;
  cpres_materialized_hash : bytes }.
Record ConfigApplyResult := mkConfigApplyResult {
  cares_candidate_hash : bytes; cares_previous_hash : bytes; cares_observed_hash : bytes;
  cares_applied_revision : Z; cares_healthy : bool; cares_rolled_back : bool;
  cares_failed_critical : bool; cares_failure_code : bytes }.
Record ObservedUser := mkObservedUser { ou_username : bytes; ou_enabled : bool }.
Record ObservedGroup := mkObservedGroup { og_group_name : bytes; og_members : list bytes }.
Record ServiceStatus := mkServiceStatus {
  sst_load_state : bytes; sst_active_state : bytes; sst_sub_state : bytes }.
Record Session := mkSession {
  ses_id : bytes; ses_username : bytes; ses_remote_ip : bytes; ses_vpn_ip : bytes }.
Record IpBan := mkIpBan { ban_ip : bytes; ban_seconds_remaining : option Z }.
Record ConfigFingerprint := mkConfigFingerprint { cfp_sha256 : bytes; cfp_size_bytes : Z }.

Inductive ErrorKind :=
| KindUnspecified | KindInvalidRequest | KindPermissionDenied | KindDeadlineExceeded
| KindCommandFailed | KindOutputLimit | KindMalformedOutput | KindUnavailable | KindCapacityExceeded.

#[export] Instance ErrorKind_eq_dec : EqDecision ErrorKind.
Proof. solve_decision. Defined.

Definition ErrorKind_values : list ErrorKind :=
  [KindUnspecified; KindInvalidRequest; KindPermissionDenied; KindDeadlineExceeded;
   KindCommandFailed; KindOutputLimit; KindMalformedOutput; KindUnavailable; KindCapacityExceeded].

Definition ErrorKind_value (k : ErrorKind) : Z :=
  match k with
  | KindUnspecified => 0 | KindInvalidRequest => 1 | KindPermissionDenied => 2
  | KindDeadlineExceeded => 3 | KindCommandFailed => 4 | KindOutputLimit => 5
  | KindMalformedOutput => 6 | KindUnavailable => 7 | KindCapacityExceeded => 8
  end.

Definition ErrorKind_try_from (v : Z) : option ErrorKind :=
  if v <? 0 then None else ErrorKind_values !! Z.to_nat v.

Record PrivdError := mkPrivdError { pe_kind : Z; pe_detail : bytes }.

Inductive Result :=
| ResServiceStatus (value : ServiceStatus)
| ResOcservVersion (version : bytes)
| ResSessionList (sessions : list Session)
| ResIpBanList (bans : list IpBan)
| ResConfigFingerprint (value : ConfigFingerprint)
| ResMutation (applied : bool)
| ResUserList (users : list ObservedUser)
| ResGroupList (groups : list ObservedGroup)
| ResDesiredEffectObservation (value : DesiredEffectObservation)
| ResConfigPlan (value : ConfigPlanResult)
| ResConfigApply (value : ConfigApplyResult)
| ResCertificateCsr (value : CertificateCsrResult)
| ResCertificateRevoke (value : CertificateRevokeResult)
| ResCertificateP12 (value : CertificateArtifactResult)
| ResArtifactData (value : ArtifactData)
| ResAgentUpgradeScheduled (value : AgentUpgradeScheduledResult)
| ResUpgradeResultList (results : list UpgradeOperationResult)
| ResError (value : PrivdError).

Record PrivdResponse := mkPrivdResponse {
  pr_request_id : bytes; pr_privileged_result_proof : option PrivilegedResultProof;
  pr_result : option Result }.

(** * Frames *)

Inductive FrameError := FrameEof | FrameSizeInvalid | FrameProtobufInvalid.

Definition read_exact (n : nat) (input : bytes) : option (bytes * bytes) :=
  if bool_decide (n <= length input)%nat then Some (take n input, drop n input) else None.

(** One message from the front of the stream, with what follows it. *)
Definition read_frame {M} (decode : bytes -> option M) (input : bytes) : result FrameError (M * bytes) :=
  match read_exact 4 input with
  | None => Err FrameEof
  | Some (header, input) =>
      let length := be_value header in
      if (length =? 0) || (MAX_FRAME_BYTES <? length) then Err FrameSizeInvalid
      else match read_exact (Z.to_nat length) input with
           | None => Err FrameEof
           | Some (body, rest) =>
               match decode body with
               | None => Err FrameProtobufInvalid
               | Some message => Ok (message, rest)
               end
           end
  end.

(** The bytes written for an encoded message. *)
Definition write_frame (encoded : bytes) : result FrameError bytes :=
  if is_empty encoded || (MAX_FRAME_BYTES <? len encoded) then Err FrameSizeInvalid
  else let? length := ok_or (u32_try_from (len encoded)) FrameSizeInvalid in
       Ok (be 4 length ++ encoded).

(** A frame reads back as its message and leaves the rest of the stream; a
    message is refused exactly when it is empty or over the limit. *)
Lemma frame_roundtrip {M} (decode : bytes -> option M) (m : M) encoded rest :
  decode encoded = Some m -> encoded <> [] -> len encoded <= MAX_FRAME_BYTES ->
  exists frame, write_frame encoded = Ok frame /\ read_frame decode (frame ++ rest) = Ok (m, rest).
Proof.
  intros D N L. unfold write_frame, MAX_FRAME_BYTES in *.
  assert (0 < len encoded) as P by (unfold len; destruct encoded; simpl; [done|lia]).
  assert (is_empty encoded = false) as -> by (by destruct encoded).
  rewrite (proj2 (Z.ltb_ge _ _) L). unfold u32_try_from. simpl orb.
  rewrite bool_decide_true by (unfold in_u32; lia). eexists. split; [reflexivity|].
  unfold read_frame, read_exact. rewrite <- app_assoc.
  rewrite bool_decide_true by (rewrite length_app, length_be; lia).
  rewrite take_app_length', drop_app_length' by (by rewrite length_be).
  rewrite be_value_be, Z.mod_small by (simpl; lia). unfold MAX_FRAME_BYTES.
  rewrite (proj2 (Z.ltb_ge _ _) L), (proj2 (Z.eqb_neq _ _)) by lia. simpl orb.
  assert (Z.to_nat (len encoded) = length encoded) as E by (unfold len; lia). rewrite E.
  rewrite bool_decide_true by (rewrite length_app; lia).
  rewrite take_app_length, drop_app_length. by rewrite D.
Qed.
