(* ===== verification/PrivdAuthority.v ===== *)
(** Which requests the privileged daemon accepts ([privd/src/lib.rs],
    [validate_request] and what it calls): the Controller's signature on the
    command or the artifact grant, the live owner term it is bound to, the
    shape of the payload, and the deadline. *)

From stdpp Require Import base list gmap numbers countable strings.
From Stdlib Require Import ZArith Lia Bool Strings.Byte.
From S2P Require Import Prelude Bytes Text Contracts ConfigProfile Authorization.
From S2P Require Import CommandAuthorization Executor EffectRecords EffectStore.
From S2P Require Import Utf8 UpgradeRecords Upgrader Attestation PrivdProtocol.

Local Open Scope Z_scope.

Definition MAX_REQUEST_LIFETIME_MS : Z := 30 * 1000.
Definition CONNECTION_FENCING_CAPABILITY : bytes := str "ocserv.fencing.v2".

Definition Privd (A : Type) : Type := result PrivdError A.

Definition error_of (kind : ErrorKind) (detail : bytes) : PrivdError :=
  mkPrivdError (ErrorKind_value kind) detail.
Definition error (kind : ErrorKind) (detail : String.string) : PrivdError := error_of kind (str detail).

Definition authorization_error (failure : AuthorizationError) : PrivdError :=
  error_of KindPermissionDenied (AuthorizationError_code failure).

(** A reading of the system clock: nanoseconds since the epoch. *)
Definition as_millis (now : Z) : Z := now / 1000000.
Definition as_secs (now : Z) : Z := now / NANOS_PER_SECOND.
Definition subsec_nanos (now : Z) : Z := now mod NANOS_PER_SECOND.

Definition clock_unavailable : PrivdError := error KindUnavailable "system clock unavailable".
Definition i64_seconds (now : Z) : Privd Z :=
  if bool_decide (in_i64 (as_secs now)) then Ok (as_secs now) else Err clock_unavailable.

Record ServerConfig `{Signer} := mkServerConfig {
  sc_agent_uid : Z; sc_node_id : bytes; sc_endpoint_id : bytes;
  sc_command_keys : ControllerCommandKeyring; sc_attestation_key : SigningKey;
  sc_upgrades : UpgradeScheduler }.

Record CommandEffectBinding := mkCommandEffectBinding {
  ceb_effect_kind : bytes; ceb_resource_key : bytes; ceb_effect_revision : Z }.

Inductive ValidatedRequest :=
| ValidRead
| ValidExecute (command : CommandEnvelope) (claims : CommandAuthorizationV1) (accepted_at : Timestamp)
| ValidReconcile (command : CommandEnvelope) (claims : CommandAuthorizationV1)
| ValidArtifactRead (claims : ArtifactGrantClaimsV1) (offset : Z)
| ValidArtifactConsume (claims : ArtifactGrantClaimsV1) (digest : bytes) (size : Z) (confirm_only : bool).

Definition artifact_identity (claims : ArtifactGrantClaimsV1) : ArtifactLeaseIdentity :=
  mkArtifactLeaseIdentity (agc_artifact_id claims) (agc_certificate_id claims)
    (agc_certificate_version claims) (agc_operation_id claims) (agc_authorized_subject claims)
    (agc_max_bytes claims) (agc_grant_id claims) (agc_expires_at_seconds claims).

Section Validation.
Context {crypto : Crypto} {signer : Signer} {text : RecordText} {platform : Platform}.

(** [Uuid::from_slice], version 7. *)
Definition uuid_slice_v7 (value : bytes) : bool :=
  bool_decide (length value = 16%nat) && (uuid_version value =? 7).

Definition validate_uuid (value : bytes) (detail : String.string) : Privd unit :=
  if uuid_slice_v7 value then Ok tt else Err (error KindInvalidRequest detail).

Definition validate_session (session_id boot_id : bytes) : Privd unit :=
  let? parsed := ok_or (parse_u64 session_id) (error KindInvalidRequest "session ID invalid") in
  if (parsed =? 0) || bool_decide (to_string parsed <> session_id)
     || bool_decide (uuid_parse_str boot_id = None)
  then Err (error KindInvalidRequest "session target invalid") else Ok tt.

Definition validate_candidate (candidate candidate_hash : bytes) : Privd unit :=
  if is_empty candidate || (len candidate >? 256 * 1024)
     || negb (len candidate_hash =? 32) || bool_decide (sha256 candidate <> candidate_hash)
  then Err (error KindInvalidRequest "configuration candidate binding invalid") else Ok tt.

Definition validate_upgrade_release (payload : AgentUpgrade) : Privd unit :=
  if negb (valid_target_version (au_target_version payload))
  then Err (error KindInvalidRequest "agent upgrade target version invalid")
  else if negb (len (au_package_sha256 payload) =? 32)
  then Err (error KindInvalidRequest "agent upgrade package digest invalid")
  else if negb (valid_architecture (au_architecture payload))
  then Err (error KindInvalidRequest "agent upgrade architecture invalid")
  else if bool_decide (runtime_architecture <> Some (au_architecture payload))
  then Err (error KindInvalidRequest "agent upgrade architecture does not match this host")
  else Ok tt.

Definition validate_sealed_secret (secret : option SealedSecretV1) (purpose : SealedSecretPurpose)
  : Privd unit :=
  let? secret := ok_or secret (error KindInvalidRequest "sealed secret required") in
  if bool_decide (SealedSecretVersion_try_from (ss_version secret) <> Some SecretV1)
     || bool_decide (SealedSecretPurpose_try_from (ss_purpose secret) <> Some purpose)
     || is_empty (ss_key_id secret) || (len (ss_key_id secret) >? 128)
     || (len (ss_ciphertext secret) <? 32) || (len (ss_ciphertext secret) >? 16 * 1024)
  then Err (error KindInvalidRequest "sealed secret invalid") else Ok tt.

(** [windows(2).any(|pair| pair[0] >= pair[1])]. *)
Fixpoint not_increasing (members : list bytes) : bool :=
  match members with
  | a :: (b :: _) as rest => bytes_leb b a || not_increasing rest
  | _ => false
  end.

Definition validate_user_secret (payload : UserSecret) : Privd unit :=
  let? _ := validate_sealed_secret (us_sealed_password_v1 payload) UserPassword in
  if negb (is_empty (us_sealed_password payload)) || negb (is_empty (us_secret_key_id payload))
  then Err (error KindInvalidRequest "user secret binding invalid") else Ok tt.

Definition validate_privileged_payload (command : CommandEnvelope) (claims : CommandAuthorizationV1)
  : Privd unit :=
  if existsb (fun value => negb (uuid_version value =? 7))
       [cl_command_id claims; cl_idempotency_key claims; cl_node_id claims; cl_operation_id claims]
  then Err (error KindInvalidRequest "signed command UUID identity invalid")
  else match env_payload command with
  | Some (PConfigPlan payload) => validate_candidate (cp_candidate payload) (cp_candidate_hash payload)
  | Some (PConfigApply payload) => validate_candidate (ca_candidate payload) (ca_candidate_hash payload)
  | Some (PCompleteConfigPlan _) | Some (PCompleteConfigApply _) =>
      let? _ := map_err authorization_error (semantic_payload_hash_v2 command) in Ok tt
  | Some (PSessionDisconnect payload) | Some (PSessionTerminate payload) =>
      validate_session (sm_session_id payload) (sm_boot_id payload)
  | Some (PIpBanRemove ip) =>
      let? parsed := ok_or (parse_ip ip) (error KindInvalidRequest "IP address invalid") in
      if bool_decide (ip_to_string parsed <> ip)
      then Err (error KindInvalidRequest "IP address must be canonical") else Ok tt
  | Some (PGroupApply payload) =>
      if (len (ga_members payload) >? MAX_MANAGED_RESOURCES) || not_increasing (ga_members payload)
      then Err (error KindInvalidRequest "group members invalid") else Ok tt
  | Some (PCertificateCsr payload) => validate_uuid (csr_certificate_id payload) "certificate ID invalid"
  | Some (PCertificateRevoke payload) =>
      let? _ := validate_uuid (rev_certificate_id payload) "certificate ID invalid" in
      if rev_certificate_version payload =? 0
      then Err (error KindInvalidRequest "certificate version invalid") else Ok tt
  | Some (PCertificateP12 payload) =>
      let? _ := validate_uuid (p12_certificate_id payload) "certificate ID invalid" in
      let? _ := validate_uuid (p12_artifact_id payload) "artifact ID invalid" in
      let? _ := validate_sealed_secret (p12_sealed_password_v1 payload) CertificateP12Password in
      if negb (is_empty (p12_sealed_password payload)) || negb (is_empty (p12_secret_key_id payload))
         || (p12_certificate_version payload =? 0)
         || bool_decide (p12_artifact_expires_at payload = None)
      then Err (error KindInvalidRequest "P12 secret binding invalid") else Ok tt
  | Some (PUserCreate payload) | Some (PUserPasswordRotate payload) => validate_user_secret payload
  | Some PServiceReload | Some (PUserDisable _) | Some (PUserEnable _) => Ok tt
  | Some (PAgentUpgrade payload) => validate_upgrade_release payload
  | _ => Err (error KindPermissionDenied "payload is not a privileged privd command")
  end.

(** * Owner terms *)

Definition verify_fence_carriers (cfg : ServerConfig) (fence : option ConnectionFenceV2)
  (binding : option FenceBindingV2) (now_seconds now_nanos : Z)
  : Privd (VerifiedConnectionFenceV2 * FenceBindingClaimsV2) :=
  match fence, binding with
  | Some fence, Some binding =>
      let? fence := map_err authorization_error
        (verify_connection_fence_v2_at (sc_command_keys cfg) fence (sc_node_id cfg) (sc_endpoint_id cfg)
           now_seconds now_nanos) in
      if lease_expired fence now_seconds now_nanos
      then Err (error KindPermissionDenied "connection-owner lease expired")
      else
        let? binding := map_err authorization_error
          (verify_fence_binding_v2_at (sc_command_keys cfg) binding (sc_node_id cfg) (sc_endpoint_id cfg)
             now_seconds now_nanos) in
        Ok (fence, binding)
  | _, _ => Err (error KindPermissionDenied "signed connection fence and binding required")
  end.

Definition verify_execution_fence (cfg : ServerConfig) (command : CommandEnvelope)
  (claims : CommandAuthorizationV1) (now_seconds now_nanos : Z) : Privd unit :=
  let? (fence, binding) := verify_fence_carriers cfg (env_connection_fence command)
    (env_fence_binding command) now_seconds now_nanos in
  if negb (fbc_operation_kind binding =? FenceOperationKind_value OperationCommand)
     || bool_decide (fbc_operation_id binding <> cl_command_id claims)
     || bool_decide (fbc_capability binding <> cl_required_capability claims)
     || negb (cl_expected_revision claims =? vcf_authorization_revision fence)
     || negb (existsb (fun c => bool_decide (c = fbc_capability binding)) (vcf_capabilities fence))
     || negb (matches_fence binding fence)
  then Err (error KindPermissionDenied "connection fence does not authorize this command") else Ok tt.

Definition verify_artifact_fence (cfg : ServerConfig) (fence : option ConnectionFenceV2)
  (binding : option FenceBindingV2) (operation_id : bytes) (now_seconds now_nanos : Z) : Privd unit :=
  let? (fence, binding) := verify_fence_carriers cfg fence binding now_seconds now_nanos in
  if negb (fbc_operation_kind binding =? FenceOperationKind_value OperationArtifact)
     || bool_decide (fbc_operation_id binding <> operation_id)
     || bool_decide (fbc_capability binding <> CONNECTION_FENCING_CAPABILITY)
     || negb (existsb (fun c => bool_decide (c = fbc_capability binding)) (vcf_capabilities fence))
     || negb (matches_fence binding fence)
  then Err (error KindPermissionDenied "connection fence does not authorize this artifact operation")
  else Ok tt.

Definition validate_artifact_claims (claims : ArtifactGrantClaimsV1) : Privd unit :=
  if existsb (fun value => negb (uuid_version value =? 7))
       [agc_node_id claims; agc_artifact_id claims; agc_certificate_id claims;
        agc_operation_id claims; agc_grant_id claims]
     || (agc_certificate_version claims =? 0) || (agc_max_bytes claims =? 0)
     || (64 * 1024 * 1024 <? agc_max_bytes claims) || is_empty (agc_authorized_subject claims)
     || (256 <? len (agc_authorized_subject claims))
  then Err (error KindInvalidRequest "artifact grant claims invalid") else Ok tt.

(** * Requests *)

(** The branches for a signed command. *)
Definition validate_signed (cfg : ServerConfig) (request : PrivdRequest) (command : CommandEnvelope)
  (mode : PrivilegedRequestMode) (effect_bound : CommandAuthorizationV1 -> bool) (now : Z)
  : Privd ValidatedRequest :=
  if bool_decide (mode = ModeUnspecified) || match pq_operation request with Some _ => true | None => false end
  then Err (error KindInvalidRequest "signed command request shape invalid")
  else
  let? now_seconds := i64_seconds now in
  let? claims := map_err authorization_error
    (verify_command (sc_command_keys cfg) command (sc_node_id cfg) now_seconds) in
  let? _ := validate_privileged_payload command claims in
  let delivery := default DeliveryUnspecified (CommandDeliveryMode_try_from (env_delivery_mode command)) in
  match mode, delivery with
  | ModeExecute, (ExecuteOrReplay | RetryIfEffectAbsent) =>
      let? accepted := ok_or (pq_accepted_at request)
        (error KindInvalidRequest "journal acceptance timestamp required") in
      if (ts_seconds accepted <? cl_issued_at_seconds claims)
         || (i64_saturating_add now_seconds 300 <? ts_seconds accepted)
         || negb ((0 <=? ts_nanos accepted) && (ts_nanos accepted <? 1000000000))
      then Err (error KindInvalidRequest "journal acceptance timestamp invalid")
      else
      let? _ := verify_execution_fence cfg command claims now_seconds (subsec_nanos now) in
      Ok (ValidExecute command claims accepted)
  | ModeReconcile, ReconcileOnly =>
      if negb (effect_bound claims)
      then Err (error KindInvalidRequest "command does not support privileged reconciliation")
      else Ok (ValidReconcile command claims)
  | _, _ => Err (error KindPermissionDenied "signed command delivery mode mismatch")
  end.

Definition validate_artifact_read (cfg : ServerConfig) (value : ArtifactReadRequest) (now : Z)
  : Privd ValidatedRequest :=
  let? grant := ok_or (arr_grant value) (error KindPermissionDenied "artifact grant required") in
  if negb (bool_decide (length (ag_artifact_id grant) = 16%nat))
  then Err (error KindInvalidRequest "artifact ID invalid")
  else
  let? now_seconds := i64_seconds now in
  let? claims := map_err authorization_error
    (verify_artifact_grant (sc_command_keys cfg) grant (sc_node_id cfg) (ag_artifact_id grant)
       (str "certificate_p12") (ag_max_bytes grant) now_seconds) in
  let? _ := validate_artifact_claims claims in
  let? _ := verify_artifact_fence cfg (arr_connection_fence value) (arr_fence_binding value)
    (agc_artifact_id claims) now_seconds (subsec_nanos now) in
  if agc_max_bytes claims <? arr_offset value
  then Err (error KindInvalidRequest "artifact offset invalid")
  else Ok (ValidArtifactRead claims (arr_offset value)).

Definition validate_artifact_consume (cfg : ServerConfig) (value : ArtifactConsumeRequest) (now : Z)
  : Privd ValidatedRequest :=
  let? grant := ok_or (acr_grant value) (error KindPermissionDenied "artifact grant required") in
  if negb (bool_decide (length (ag_artifact_id grant) = 16%nat))
  then Err (error KindInvalidRequest "artifact ID invalid")
  else
  let? now_seconds := i64_seconds now in
  let verify := if acr_confirm_only value then verify_artifact_grant_for_confirmation
                else verify_artifact_grant in
  let? claims := map_err authorization_error
    (verify (sc_command_keys cfg) grant (sc_node_id cfg) (ag_artifact_id grant)
       (str "certificate_p12") (ag_max_bytes grant) now_seconds) in
  let? _ := validate_artifact_claims claims in
  let? _ := verify_artifact_fence cfg (acr_connection_fence value) (acr_fence_binding value)
    (agc_grant_id claims) now_seconds (subsec_nanos now) in
  if negb (len (acr_sha256 value) =? 32) || (acr_size value =? 0)
     || (agc_max_bytes claims <? acr_size value)
  then Err (error KindInvalidRequest "artifact consumption evidence invalid")
  else Ok (ValidArtifactConsume claims (acr_sha256 value) (acr_size value) (acr_confirm_only value)).

(** The branches for a request without a command. *)
Definition validate_unsigned (cfg : ServerConfig) (request : PrivdRequest) (mode : PrivilegedRequestMode)
  (now : Z) : Privd ValidatedRequest :=
  if bool_decide (pq_accepted_at request <> None)
  then Err (error KindInvalidRequest "journal acceptance timestamp is only valid for execution")
  else if bool_decide (mode <> ModeUnspecified)
  then Err (error KindPermissionDenied "Controller command authorization required")
  else match pq_operation request with
  | Some (ReqArtifactRead value) => validate_artifact_read cfg value now
  | Some (ReqArtifactConsume value) => validate_artifact_consume cfg value now
  | Some (ReqServiceStatus | ReqOcservVersion | ReqSessionList | ReqIpBanList | ReqConfigFingerprint
          | ReqUserList | ReqGroupList | ReqUpgradeResultList) => Ok ValidRead
  | _ => Err (error KindPermissionDenied "Controller command authorization required")
  end.

(** * Effects *)

Definition joined (a b : bytes) : bytes := a ++ [x3a] ++ b.
Definition uuid_slice_to_string (value : bytes) : option bytes :=
  if bool_decide (length value = 16%nat) then Some (uuid_to_string value) else None.

Definition desired_effect_binding (command : CommandEnvelope) : option CommandEffectBinding :=
  let bound kind key revision := Some (mkCommandEffectBinding (str kind) key revision) in
  match env_payload command with
  | Some (PUserCreate p) => bound "user_create"%string (us_username p) (us_desired_revision p)
  | Some (PUserDisable p) => bound "user_disable"%string (ut_username p) (ut_desired_revision p)
  | Some (PUserEnable p) => bound "user_enable"%string (ut_username p) (ut_desired_revision p)
  | Some (PUserPasswordRotate p) =>
      bound "user_password_rotate"%string (us_username p) (us_desired_revision p)
  | Some (PGroupApply p) => bound "group_apply"%string (ga_group_name p) (ga_desired_revision p)
  | Some (PConfigApply p) => bound "config_apply"%string (str "ocserv.conf") (ca_desired_revision p)
  | Some (PCompleteConfigApply p) =>
      bound "config_apply"%string (str "ocserv.conf") (cca_desired_revision p)
  | _ => None
  end.

Definition effect_binding (command : CommandEnvelope) (claims : CommandAuthorizationV1)
  : option CommandEffectBinding :=
  let bound kind key revision := Some (mkCommandEffectBinding (str kind) key revision) in
  let revision := cl_expected_revision claims in
  match env_payload command with
  | Some (PSessionDisconnect p) =>
      bound "session_disconnect"%string (joined (sm_boot_id p) (sm_session_id p)) revision
  | Some (PSessionTerminate p) =>
      bound "session_terminate"%string (joined (sm_boot_id p) (sm_session_id p)) revision
  | Some (PIpBanRemove ip) => bound "ip_ban_remove"%string ip revision
  | Some PServiceReload => bound "service_reload"%string (str "ocserv.service") revision
  | Some (PUserCreate p) => bound "user_create"%string (us_username p) (us_desired_revision p)
  | Some (PUserDisable p) => bound "user_disable"%string (ut_username p) (ut_desired_revision p)
  | Some (PUserEnable p) => bound "user_enable"%string (ut_username p) (ut_desired_revision p)
  | Some (PUserPasswordRotate p) =>
      bound "user_password_rotate"%string (us_username p) (us_desired_revision p)
  | Some (PGroupApply p) => bound "group_apply"%string (ga_group_name p) (ga_desired_revision p)
  | Some (PConfigPlan p) => bound "config_plan"%string (hex_encode (cp_candidate_hash p)) revision
  | Some (PCompleteConfigPlan p) =>
      bound "config_plan"%string (hex_encode (ccp_candidate_hash p)) revision
  | Some (PConfigApply p) => bound "config_apply"%string (str "ocserv.conf") (ca_desired_revision p)
  | Some (PCompleteConfigApply p) =>
      bound "config_apply"%string (str "ocserv.conf") (cca_desired_revision p)
  | Some (PCertificateCsr p) =>
      id ← uuid_slice_to_string (csr_certificate_id p); bound "certificate_csr"%string id revision
  | Some (PCertificateRevoke p) =>
      id ← uuid_slice_to_string (rev_certificate_id p); bound "certificate_revoke"%string id revision
  | Some (PCertificateP12 p) =>
      certificate ← uuid_slice_to_string (p12_certificate_id p);
      artifact ← uuid_slice_to_string (p12_artifact_id p);
      bound "certificate_p12"%string (joined certificate artifact) revision
  | Some (PAgentUpgrade p) =>
      bound "agent_upgrade_prepare"%string
        (joined (au_target_version p) (hex_encode (au_package_sha256 p))) revision
  | _ => None
  end.

Definition adapter_effect (claims : CommandAuthorizationV1) : EffectIdentity :=
  mkEffectIdentity (cl_command_id claims) (cl_idempotency_key claims)
    (cl_semantic_payload_sha256 claims) (cl_expires_at_seconds claims).

Definition authorized_effect (command : CommandEnvelope) (claims : CommandAuthorizationV1)
  (binding : CommandEffectBinding) : AuthorizedEffectIdentity :=
  mkAuthorizedEffectIdentity (cl_node_id claims) (cl_command_id claims) (cl_operation_id claims)
    (cl_idempotency_key claims) (cl_semantic_payload_sha256 claims) (cl_action claims)
    (cl_expected_revision claims) (ceb_effect_kind binding) (ceb_resource_key binding)
    (ceb_effect_revision binding) (cl_expires_at_seconds claims)
    (bool_decide (CommandDeliveryMode_try_from (env_delivery_mode command) = Some RetryIfEffectAbsent)).

Definition fixed_host_effect (command : CommandEnvelope) : bool :=
  match env_payload command with
  | Some (PSessionDisconnect _) | Some (PSessionTerminate _) | Some (PIpBanRemove _)
  | Some PServiceReload => true
  | _ => false
  end.

Definition validate_request (cfg : ServerConfig) (request : PrivdRequest) (clock : option Z)
  : Privd (Z * ValidatedRequest) :=
  let? _ := validate_uuid (pq_request_id request) "request_id must be UUIDv7" in
  let? now := ok_or clock clock_unavailable in
  if negb (bool_decide (in_u64 (as_millis now))) then Err clock_unavailable
  else if pq_deadline_unix_ms request <=? as_millis now
  then Err (error KindDeadlineExceeded "request deadline exceeded")
  else
  let remaining := pq_deadline_unix_ms request - as_millis now in
  if MAX_REQUEST_LIFETIME_MS <? remaining
  then Err (error KindInvalidRequest "request deadline too far in future")
  else
  let mode := default ModeUnspecified (PrivilegedRequestMode_try_from (pq_privileged_mode request)) in
  let? validated :=
    match pq_authorization_command request with
    | Some command =>
        validate_signed cfg request command mode
          (fun claims => match effect_binding command claims with Some _ => true | None => false end) now
    | None => validate_unsigned cfg request mode now
    end in
  Ok (remaining, validated).

End Validation.
