(* ===== verification/Privd.v ===== *)
(** The privileged daemon of [privd/src/lib.rs]: what it does with an accepted
    request, as programs over the effect store, the upgrade store and the
    host.  The operations of the ocserv adapter are the interface
    [AdapterOps]: programs of their own, which the daemon may abandon at the
    request's deadline. *)

From stdpp Require Import base list gmap numbers countable strings.
From Stdlib Require Import ZArith Lia Bool Strings.Byte.
From S2P Require Import Prelude Bytes Text Contracts ConfigProfile Authorization.
From S2P Require Import CommandAuthorization Executor EffectRecords EffectStore EffectMachine.
From S2P Require Import Concurrency Files Utf8 UpgradeRecords Upgrader Attestation.
From S2P Require Import PrivdProtocol PrivdAuthority.

Local Open Scope Z_scope.
Local Open Scope prog_scope.

(** * The adapter *)

Inductive AdapterOp :=
| AServiceStatus
| AOcservVersion
| ASessionList
| AIpBanList
| AConfigFingerprint
| AUserList
| AGroupList
| AArtifactRead (identity : ArtifactLeaseIdentity) (offset : Z)
| AArtifactConsume (identity : ArtifactLeaseIdentity) (digest : bytes) (size : Z)
| AArtifactConfirmConsumed (identity : ArtifactLeaseIdentity) (digest : bytes) (size : Z)
| ADesiredEffectObserve (kind key : bytes) (revision : Z) (identity : EffectIdentity)
| ASessionDisconnect (session_id boot_id : bytes)
| ASessionTerminate (session_id boot_id : bytes)
| AIpBanRemove (ip : bytes)
| AServiceReload
| AUserCreate (username key_id ciphertext : bytes) (revision : Z) (effect : EffectIdentity)
| AUserDisable (username : bytes) (revision : Z) (effect : EffectIdentity)
| AUserEnable (username : bytes) (revision : Z) (effect : EffectIdentity)
| AUserPasswordRotate (username key_id ciphertext : bytes) (revision : Z) (effect : EffectIdentity)
| AGroupApply (group_name : bytes) (members : list bytes) (revision : Z) (effect : EffectIdentity)
| AConfigPlan (candidate candidate_hash : bytes)
| ACompleteConfigPlan (payload : CompleteConfigPlan)
| ACompleteConfigApply (payload : CompleteConfigApply) (effect : EffectIdentity)
| AConfigApply (candidate candidate_hash expected_current_hash : bytes) (revision : Z)
    (effect : EffectIdentity)
| ACertificateCsr (certificate_id common_name : bytes) (dns_names : list bytes) (key_bits : Z)
| ACertificateRevoke (certificate_id : bytes) (certificate_version : Z)
| ACertificateP12 (certificate_id artifact_id chain : bytes) (secret : SealedSecretV1)
    (certificate_version : Z) (operation_id : bytes) (expires_at : Z).

Definition op_result (op : AdapterOp) : Type :=
  match op with
  | AServiceStatus => ServiceStatus
  | AOcservVersion => bytes
  | ASessionList => list Session
  | AIpBanList => list IpBan
  | AConfigFingerprint => ConfigFingerprint
  | AUserList => list ObservedUser
  | AGroupList => list ObservedGroup
  | AArtifactRead _ _ => ArtifactData
  | ADesiredEffectObserve _ _ _ _ => DesiredEffectObservation
  | AConfigPlan _ _ | ACompleteConfigPlan _ => ConfigPlanResult
  | ACompleteConfigApply _ _ | AConfigApply _ _ _ _ _ => ConfigApplyResult
  | ACertificateCsr _ _ _ _ => CertificateCsrResult
  | ACertificateRevoke _ _ => CertificateRevokeResult
  | ACertificateP12 _ _ _ _ _ _ _ => CertificateArtifactResult
  | _ => bool
  end.

(** [.map(privd_response::Result::..)]. *)
Definition op_wrap (op : AdapterOp) : op_result op -> Result :=
  match op return op_result op -> Result with
  | AServiceStatus => ResServiceStatus
  | AOcservVersion => ResOcservVersion
  | ASessionList => ResSessionList
  | AIpBanList => ResIpBanList
  | AConfigFingerprint => ResConfigFingerprint
  | AUserList => ResUserList
  | AGroupList => ResGroupList
  | AArtifactRead _ _ => ResArtifactData
  | ADesiredEffectObserve _ _ _ _ => ResDesiredEffectObservation
  | AConfigPlan _ _ | ACompleteConfigPlan _ => ResConfigPlan
  | ACompleteConfigApply _ _ | AConfigApply _ _ _ _ _ => ResConfigApply
  | ACertificateCsr _ _ _ _ => ResCertificateCsr
  | ACertificateRevoke _ _ => ResCertificateRevoke
  | ACertificateP12 _ _ _ _ _ _ _ => ResCertificateP12
  | _ => ResMutation
  end.

(** The operations that only report the state of the host. *)
Definition reporting (op : AdapterOp) : bool :=
  match op with
  | AServiceStatus | AOcservVersion | ASessionList | AIpBanList | AConfigFingerprint | AUserList
  | AGroupList => true
  | _ => false
  end.

(** What the daemon relies on: the adapter's operations keep the records of
    authorized effects, which only the daemon writes, and the reporting ones
    change nothing. *)
Class AdapterOps := {
  HostState : Type;
  adapter (op : AdapterOp) : Prog (EffectDb * HostState) nat AdapterError (op_result op);
  io_text : IoError -> bytes;
  adapter_keeps op : stays (fun s s' => edb_authorized s'.1 = edb_authorized s.1) (adapter op);
  adapter_reports op : reporting op = true -> stays (fun s s' => s' = s) (adapter op) }.

(** Prost's encoding of responses: a representable response decodes as itself. *)
Class ResponseWire := {
  encode_response : PrivdResponse -> bytes;
  decode_response : bytes -> option PrivdResponse;
  encode_result : Result -> bytes;
  representable : PrivdResponse -> Prop;
  decode_encode r : representable r -> decode_response (encode_response r) = Some r }.

(** * The world of the daemon *)

Inductive ByWhom :=
| ByAdapter (op : AdapterOp)
| ByUpgrader (intent : UpgradeIntent).

(** The record of a run: the requests as they were judged, the calls on the
    records of authorized effects, the privileged operations started for a
    command, and the responses sent, each by the handler that did it. *)
Record Judged := mkJudged { jd_tid : nat; jd_request : PrivdRequest; jd_clock : option Z }.
Record Called := mkCalled { cd_tid : nat; cd_call : Call; cd_result : result AdapterError Output }.
Record Performed := mkPerformed {
  pf_tid : nat; pf_command : CommandEnvelope; pf_claims : CommandAuthorizationV1; pf_by : ByWhom }.
Record Sent := mkSent { sn_tid : nat; sn_request : PrivdRequest; sn_response : PrivdResponse }.

Record World {ops : AdapterOps} := mkWorld {
  pw_store : EffectDb; pw_host : HostState; pw_disk : Disk;
  pw_judged : list Judged; pw_calls : list Called; pw_performed : list Performed;
  pw_sent : list Sent }.

Arguments mkWorld {ops}.

(** What a handler meets at one step: the clock, failing database statements,
    an elapsed deadline, and the choices of adapter and file system. *)
Record Pick := mkPick {
  pk_clock : option Z; pk_faults : list bool; pk_elapsed : bool; pk_adapter : nat;
  pk_files : Choice }.

Inductive Elapsed := DeadlineElapsed.

(** A program of a part of the state, abandoned where its deadline may elapse. *)
Fixpoint awaiting {S T C D E A} (get : T -> S) (set : S -> T -> T) (pick : D -> C) (cut : D -> bool)
  (m : Prog S C E A) : Prog T D Elapsed (result E A) :=
  match m with
  | Done r => Done (Ok r)
  | Step a k =>
      Step (fun tid c t =>
              if cut c then Some (None, t)
              else match a tid (pick c) (get t) with
                   | None => None
                   | Some (b, s') => Some (Some b, set s' t)
                   end)
           (fun found => match found with
                         | None => Done (Err DeadlineElapsed)
                         | Some b => awaiting get set pick cut (k b)
                         end)
  end.

Section Daemon.
Context {crypto : Crypto} {signer : Signer} {text : RecordText} {platform : Platform} {host : Host}.
Context {ops : AdapterOps} {wire : ResponseWire}.
Variable cfg : ServerConfig.
(** The key of the effect store. *)
Variable store_key : bytes.

Abbreviation Prv A := (Prog World Pick Elapsed A).

Definition set_adapter_state (s : EffectDb * HostState) (w : World) : World :=
  mkWorld s.1 s.2 (pw_disk w) (pw_judged w) (pw_calls w) (pw_performed w) (pw_sent w).
Definition set_disk (d : Disk) (w : World) : World :=
  mkWorld (pw_store w) (pw_host w) d (pw_judged w) (pw_calls w) (pw_performed w) (pw_sent w).
Definition judge (j : Judged) (w : World) : World :=
  mkWorld (pw_store w) (pw_host w) (pw_disk w) (pw_judged w ++ [j]) (pw_calls w) (pw_performed w)
    (pw_sent w).
Definition note_call (d : EffectDb) (c : Called) (w : World) : World :=
  mkWorld d (pw_host w) (pw_disk w) (pw_judged w) (pw_calls w ++ [c]) (pw_performed w) (pw_sent w).
Definition note_performed (p : Performed) (w : World) : World :=
  mkWorld (pw_store w) (pw_host w) (pw_disk w) (pw_judged w) (pw_calls w) (pw_performed w ++ [p])
    (pw_sent w).
Definition note_sent (s : Sent) (w : World) : World :=
  mkWorld (pw_store w) (pw_host w) (pw_disk w) (pw_judged w) (pw_calls w) (pw_performed w)
    (pw_sent w ++ [s]).

(** Awaits an adapter operation. *)
Definition call_adapter (op : AdapterOp) : Prv (result AdapterError (op_result op)) :=
  awaiting (fun w => (pw_store w, pw_host w)) set_adapter_state pk_adapter pk_elapsed (adapter op).

(** Runs the upgrade store, which does not wait. *)
Definition call_upgrades {A} (m : Up A) : Prv (result UpgradeStoreError A) :=
  awaiting pw_disk set_disk pk_files (fun _ => false) m.

(** One method of the effect store on authorized effects, under its lock. *)
Definition call_store (op : StoreOp) : Prv (result AdapterError Output) :=
  act (fun tid c w =>
    let call := mkCall op (as_secs <$> pk_clock c) (pk_faults c) in
    let '(r, d) := run_call store_key (pw_store w) call in
    Some (Ok r, note_call d (mkCalled tid call r) w)).

Definition start_operation (command : CommandEnvelope) (claims : CommandAuthorizationV1) (by_whom : ByWhom)
  : Prv unit :=
  act (fun tid _ w => Some (Ok tt, note_performed (mkPerformed tid command claims by_whom) w)).

Definition read_clock : Prv (option Z) := act (fun _ c w => Some (Ok (pk_clock c), w)).

(** * Results *)

(** Text in octal, in at least four digits. *)
Fixpoint octal (fuel : nat) (z : Z) : bytes :=
  match fuel with
  | O => []
  | S fuel => if z <? 8 then [digit_byte z] else octal fuel (z / 8) ++ [digit_byte (z mod 8)]
  end.
Definition octal04 (z : Z) : bytes :=
  let text := octal 22 z in replicate (4 - length text) x30 ++ text.

Definition signed_text (z : Z) : bytes := if z <? 0 then x2d :: to_string (- z) else to_string z.
Definition debug_code (code : option Z) : bytes :=
  match code with None => str "None" | Some z => str "Some(" ++ signed_text z ++ str ")" end.

Definition AdapterError_fmt (e : AdapterError) : bytes :=
  match e with
  | InvalidResource => str "fixed resource path invalid"
  | ResourceMetadata resource reason actual expected =>
      let number := if bool_decide (reason = str "mode") || bool_decide (reason = str "writable_mode_bits")
                    then octal04 else to_string in
      str "resource=" ++ resource ++ str " reason=" ++ reason ++ str " actual=" ++ number actual
        ++ str " expected=" ++ number expected
  | ResourceIo resource reason source =>
      str "resource=" ++ resource ++ str " reason=" ++ reason ++ str ": " ++ io_text source
  | UserFileFormat reason line fields first_line =>
      str "resource=ocpasswd reason=" ++ reason ++ str " line=" ++ to_string line ++ str " fields="
        ++ to_string fields ++ str " expected_fields=3"
        ++ match first_line with None => [] | Some first => str " first_line=" ++ to_string first end
  | InvalidRequest => str "fixed operation argument invalid"
  | StaleBoot => str "session boot identity is stale"
  | Unavailable => str "fixed local resource unavailable"
  | DeadlineExceeded => str "fixed read operation timed out"
  | OutputLimit => str "fixed read operation output limit exceeded"
  | CapacityExceeded => str "authoritative state capacity exceeded"
  | CommandFailed code => str "fixed read operation failed (status " ++ debug_code code ++ str ")"
  | MalformedOutput => str "ocserv output format unsupported"
  | Io source => str "fixed local resource failed: " ++ io_text source
  end.

Definition adapter_error_kind (e : AdapterError) : ErrorKind :=
  match e with
  | InvalidResource | MalformedOutput | ResourceMetadata _ _ _ _ | UserFileFormat _ _ _ _ => KindMalformedOutput
  | InvalidRequest | StaleBoot => KindInvalidRequest
  | Unavailable | Io _ | ResourceIo _ _ _ => KindUnavailable
  | DeadlineExceeded => KindDeadlineExceeded
  | OutputLimit => KindOutputLimit
  | CapacityExceeded => KindCapacityExceeded
  | CommandFailed _ => KindCommandFailed
  end.

(** [chars().take(n)] on valid text: a character ends before the next byte
    that is not a continuation. *)
Fixpoint take_chars (n : nat) (l : bytes) : bytes :=
  match l with
  | [] => []
  | b :: rest =>
      if is_continuation b then b :: take_chars n rest
      else match n with O => [] | S n => b :: take_chars n rest end
  end.

Definition privd_error_from (e : AdapterError) : PrivdError :=
  error_of (adapter_error_kind e) (take_chars 256 (AdapterError_fmt e)).

Definition terminal_result_error_code (e : PrivdError) : option bytes :=
  match default KindUnspecified (ErrorKind_try_from (pe_kind e)) with
  | KindCapacityExceeded => Some (str "capacity_exceeded")
  | KindInvalidRequest | KindPermissionDenied | KindMalformedOutput => Some (str "privd_rejected")
  | _ => None
  end.

Definition finish_operation (operation_name : bytes) (r : result AdapterError Result) : Result :=
  match (match r with Ok value => value | Err failure => ResError (privd_error_from failure) end) with
  | ResError e => ResError (mkPrivdError (pe_kind e) (operation_name ++ str ": " ++ pe_detail e))
  | value => value
  end.

Definition deadline_error : Result := ResError (error KindDeadlineExceeded "request deadline exceeded").
Definition bare_response (r : Result) : PrivdResponse := mkPrivdResponse [] None (Some r).
Definition response_error (kind : ErrorKind) (detail : String.string) : PrivdResponse :=
  bare_response (ResError (error kind detail)).
Definition failed_response (failure : AdapterError) : PrivdResponse :=
  bare_response (ResError (privd_error_from failure)).

Definition decode_cached_response (encoded : bytes) : PrivdResponse :=
  let invalid := response_error KindUnavailable "cached authorized effect result invalid" in
  match decode_response encoded with
  | Some response =>
      if is_empty (pr_request_id response) && bool_decide (is_Some (pr_result response))
         && bool_decide (is_Some (pr_privileged_result_proof response))
      then response else invalid
  | None => invalid
  end.

(** * Receipts *)

Definition exact_result_bytes (r : Result) : option bytes :=
  match r with
  | ResMutation _ | ResConfigPlan _ | ResConfigApply _ | ResCertificateCsr _ | ResCertificateP12 _
  | ResCertificateRevoke _ | ResAgentUpgradeScheduled _ => Some (encode_result r)
  | ResError e => match terminal_result_error_code e with Some _ => Some [] | None => None end
  | _ => None
  end.

Definition privileged_result_kind (r : Result) : option PrivilegedResultKind :=
  match r with
  | ResMutation _ => Some RkMutation
  | ResConfigPlan _ => Some RkConfigPlan
  | ResConfigApply _ => Some RkConfigApply
  | ResCertificateCsr _ => Some RkCertificateCsr
  | ResCertificateP12 _ => Some RkCertificateP12
  | ResCertificateRevoke _ => Some RkCertificateRevoke
  | ResAgentUpgradeScheduled _ => Some RkAgentUpgradeScheduled
  | ResError e => match terminal_result_error_code e with Some _ => Some RkError | None => None end
  | _ => None
  end.

Definition privileged_command_kind (command : CommandEnvelope) : option PrivilegedCommandKind :=
  match env_payload command with
  | Some (PSessionDisconnect _) => Some CkSessionDisconnect
  | Some (PSessionTerminate _) => Some CkSessionTerminate
  | Some (PIpBanRemove _) => Some CkIpBanRemove
  | Some PServiceReload => Some CkServiceReload
  | Some (PUserCreate _) => Some CkUserCreate
  | Some (PUserDisable _) => Some CkUserDisable
  | Some (PUserEnable _) => Some CkUserEnable
  | Some (PUserPasswordRotate _) => Some CkUserPasswordRotate
  | Some (PGroupApply _) => Some CkGroupApply
  | Some (PConfigPlan _) | Some (PCompleteConfigPlan _) => Some CkConfigPlan
  | Some (PConfigApply _) | Some (PCompleteConfigApply _) => Some CkConfigApply
  | Some (PCertificateCsr _) => Some CkCertificateCsr
  | Some (PCertificateP12 _) => Some CkCertificateP12
  | Some (PCertificateRevoke _) => Some CkCertificateRevoke
  | Some (PAgentUpgrade _) => Some CkAgentUpgrade
  | _ => None
  end.

(** A binding that names a certificate without the facts of a new request. *)
Definition plain_certificate (certificate_id effect_record_id : bytes) : PrivdCertificateReceiptBindingV1 :=
  mkPrivdCertificateReceiptBindingV1 certificate_id [] [] [] effect_record_id.

(** The outer [None] is the error of the source. *)
Definition certificate_binding (command : CommandEnvelope) (r : Result) (effect_record_id : bytes)
  : option (option PrivdCertificateReceiptBindingV1) :=
  match env_payload command, r with
  | Some (PCertificateCsr request), ResCertificateCsr response =>
      match requested_subject_digest request with
      | Err _ => None
      | Ok subject =>
          Some (Some (mkPrivdCertificateReceiptBindingV1 (csr_certificate_id request)
            (sha256 (cres_csr_der response)) (cres_public_key_sha256 response) subject effect_record_id))
      end
  | Some (PCertificateCsr request), ResError e =>
      match terminal_result_error_code e with
      | Some _ => Some (Some (plain_certificate (csr_certificate_id request) effect_record_id))
      | None => None
      end
  | Some (PCertificateP12 request), _ =>
      Some (Some (plain_certificate (p12_certificate_id request) effect_record_id))
  | Some (PCertificateRevoke request), _ =>
      Some (Some (plain_certificate (rev_certificate_id request) effect_record_id))
  | Some (PCertificateCsr _), _ => None
  | _, _ => Some None
  end.

Definition ROOT_EFFECT_DOMAIN : bytes := str "ocservia/privd-root-effect-record/v1" ++ [x00].

Definition effect_record_id (claims : CommandAuthorizationV1) (binding : CommandEffectBinding) : bytes :=
  sha256 (ROOT_EFFECT_DOMAIN ++ sc_node_id cfg ++ cl_command_id claims ++ cl_operation_id claims
    ++ cl_idempotency_key claims ++ ceb_effect_kind binding ++ be 8 (len (ceb_resource_key binding))
    ++ ceb_resource_key binding ++ be 8 (ceb_effect_revision binding)).

Fixpoint index_of {A} `{EqDecision A} (a : A) (l : list A) : Z :=
  match l with [] => 0 | b :: rest => if bool_decide (a = b) then 0 else 1 + index_of a rest end.

Definition build_result_proof (command : CommandEnvelope) (claims : CommandAuthorizationV1)
  (accepted_at : Timestamp) (binding : CommandEffectBinding) (r : Result) (clock : option Z)
  : option PrivilegedResultProof :=
  completed ← clock;
  _ ← (if bool_decide (in_i64 (as_secs completed)) then Some tt else None);
  let completed_at := mkTimestamp (as_secs completed) (subsec_nanos completed) in
  result_bytes ← exact_result_bytes r;
  let record := effect_record_id claims binding in
  certificate ← certificate_binding command r record;
  _ ← (if cl_semantic_hash_version claims <=? 2147483647 then Some tt else None);
  command_kind ← privileged_command_kind command;
  result_kind ← privileged_result_kind r;
  error_code ← match r with ResError e => terminal_result_error_code e | _ => Some [] end;
  let receipt := mkPrivdResultReceiptV1 1 (sc_node_id cfg) (key_id (verifying_key (sc_attestation_key cfg)))
    (cl_command_id claims) (cl_operation_id claims) (cl_idempotency_key claims)
    (cl_semantic_hash_version claims) (cl_semantic_payload_sha256 claims)
    (index_of command_kind PrivilegedCommandKind_values) (index_of result_kind PrivilegedResultKind_values)
    (match r with ResError _ => 2 | _ => 1 end)
    (sha256 result_bytes) (sha256 error_code) record
    (Z.max (Z.max (ceb_effect_revision binding) (cl_expected_revision claims)) 1)
    (Some accepted_at) (Some completed_at) false certificate in
  match sign_receipt receipt (sc_attestation_key cfg) with Ok proof => Some proof | Err _ => None end.

(** * Commands *)

(** The operation of a signed payload.  The source unwraps the sealed secret
    and the artifact expiry, which [validate_privileged_payload] has required. *)
Definition signed_operation (command : CommandEnvelope) (claims : CommandAuthorizationV1)
  : option (bytes * AdapterOp) :=
  let effect := adapter_effect claims in
  match env_payload command with
  | Some (PSessionDisconnect p) =>
      Some (str "session_disconnect", ASessionDisconnect (sm_session_id p) (sm_boot_id p))
  | Some (PSessionTerminate p) =>
      Some (str "session_terminate", ASessionTerminate (sm_session_id p) (sm_boot_id p))
  | Some (PIpBanRemove ip) => Some (str "ip_ban_remove", AIpBanRemove ip)
  | Some PServiceReload => Some (str "service_reload", AServiceReload)
  | Some (PUserCreate p) =>
      secret ← us_sealed_password_v1 p;
      Some (str "user_create",
            AUserCreate (us_username p) (ss_key_id secret) (ss_ciphertext secret) (us_desired_revision p) effect)
  | Some (PUserDisable p) =>
      Some (str "user_disable", AUserDisable (ut_username p) (ut_desired_revision p) effect)
  | Some (PUserEnable p) =>
      Some (str "user_enable", AUserEnable (ut_username p) (ut_desired_revision p) effect)
  | Some (PUserPasswordRotate p) =>
      secret ← us_sealed_password_v1 p;
      Some (str "user_password_rotate",
            AUserPasswordRotate (us_username p) (ss_key_id secret) (ss_ciphertext secret)
              (us_desired_revision p) effect)
  | Some (PGroupApply p) =>
      Some (str "group_apply", AGroupApply (ga_group_name p) (ga_members p) (ga_desired_revision p) effect)
  | Some (PConfigPlan p) => Some (str "config_plan", AConfigPlan (cp_candidate p) (cp_candidate_hash p))
  | Some (PCompleteConfigPlan p) => Some (str "config_plan", ACompleteConfigPlan p)
  | Some (PCompleteConfigApply p) => Some (str "config_apply", ACompleteConfigApply p effect)
  | Some (PConfigApply p) =>
      Some (str "config_apply", AConfigApply (ca_candidate p) (ca_candidate_hash p)
              (ca_expected_current_hash p) (ca_desired_revision p) effect)
  | Some (PCertificateCsr p) =>
      Some (str "certificate_csr", ACertificateCsr (csr_certificate_id p) (csr_common_name p)
              (csr_dns_names p) (csr_key_bits p))
  | Some (PCertificateRevoke p) =>
      Some (str "certificate_revoke", ACertificateRevoke (rev_certificate_id p) (rev_certificate_version p))
  | Some (PCertificateP12 p) =>
      secret ← p12_sealed_password_v1 p; expires ← p12_artifact_expires_at p;
      Some (str "certificate_p12", ACertificateP12 (p12_certificate_id p) (p12_artifact_id p)
              (p12_certificate_chain_pem p) secret (p12_certificate_version p) (cl_operation_id claims)
              (ts_seconds expires))
  | _ => None
  end.

Definition execute_signed_payload (command : CommandEnvelope) (claims : CommandAuthorizationV1)
  : Prv (bytes * result AdapterError Result) :=
  match signed_operation command claims with
  | Some (name, op) =>
      start_operation command claims (ByAdapter op) ;;;
      outcome <- call_adapter op ;;
      pret (name, match outcome with Ok value => Ok (op_wrap op value) | Err failure => Err failure end)
  | None => pret (str "privileged_command", Err InvalidRequest)
  end.

Definition upgrade_store_error (failure : UpgradeStoreError) : AdapterError :=
  match failure with
  | StoreIo _ | StoreLifecycle _ => Unavailable
  | StoreInvalid _ | IdentityConflict | ActiveConflict | StoreUnsafe _ | StorePackage _ => InvalidRequest
  end.

Definition schedule_agent_upgrade (command : CommandEnvelope) (payload : AgentUpgrade)
  (claims : CommandAuthorizationV1) : Prv (result AdapterError Result) :=
  if negb (bool_decide (length (au_package_sha256 payload) = 32%nat)) then pret (Err InvalidRequest)
  else match UpgradeIntent_new (cl_operation_id claims) (cl_command_id claims) (au_target_version payload)
               (au_package_sha256 payload) (au_architecture payload) (cl_semantic_payload_sha256 claims) with
  | Err failure => pret (Err (upgrade_store_error failure))
  | Ok intent =>
      start_operation command claims (ByUpgrader intent) ;;;
      outcome <- call_upgrades (schedule_and_trigger (sc_upgrades cfg) intent) ;;
      match outcome with
      | Ok _ => pret (Ok (ResAgentUpgradeScheduled (mkAgentUpgradeScheduledResult (cl_operation_id claims)
                            (au_target_version payload) (au_package_sha256 payload))))
      | Err failure => pret (Err (upgrade_store_error failure))
      end
  end.

Definition replay_only_response (identity : AuthorizedEffectIdentity) : Prv PrivdResponse :=
  replayed <- call_store (OpReplayAuthorized identity) ;;
  match replayed with
  | Ok (OutReplay (Some encoded)) => pret (decode_cached_response encoded)
  | Ok _ => pret (response_error KindUnavailable "authorized effect outcome requires reconciliation")
  | Err failure => pret (failed_response failure)
  end.

Definition is_agent_upgrade (command : CommandEnvelope) : bool :=
  match env_payload command with Some (PAgentUpgrade _) => true | _ => false end.

(** What [prepare_authorized_effect] decides: a response, or the execution. *)
Definition admit_effect (command : CommandEnvelope) (claims : CommandAuthorizationV1)
  (binding : CommandEffectBinding) : Prv (option PrivdResponse) :=
  let identity := authorized_effect command claims binding in
  if aei_retry_if_absent identity
     && (fixed_host_effect command
         || bool_decide (env_protocol_version command = LEGACY_COMMAND_PROTOCOL_VERSION))
  then response <- replay_only_response identity ;; pret (Some response)
  else
    prepared <- call_store (OpPrepareAuthorized identity) ;;
    match prepared with
    | Ok (OutDecision DecideExecute) => pret None
    | Ok (OutDecision (DecideReplay encoded)) => pret (Some (decode_cached_response encoded))
    | Ok (OutDecision DecidePending) =>
        if is_agent_upgrade command then pret None
        else pret (Some (response_error KindUnavailable "authorized effect outcome requires reconciliation"))
    | Ok _ => pret (Some (failed_response Unavailable))
    | Err failure => pret (Some (failed_response failure))
    end.

(** The attestation and recording of a result. *)
Definition attest_result (command : CommandEnvelope) (claims : CommandAuthorizationV1)
  (accepted_at : Timestamp) (binding : option CommandEffectBinding) (r : Result) : Prv PrivdResponse :=
  if match r with ResError e => bool_decide (terminal_result_error_code e = None) | _ => false end
  then pret (bare_response r)
  else match binding with
  | None => pret (response_error KindUnavailable "root effect identity unavailable")
  | Some binding =>
      clock <- read_clock ;;
      match build_result_proof command claims accepted_at binding r clock with
      | None => pret (response_error KindUnavailable "result attestation unavailable")
      | Some proof =>
          let response := mkPrivdResponse [] (Some proof) (Some r) in
          completed <- call_store (OpCompleteAuthorized (authorized_effect command claims binding)
                                     (encode_response response)) ;;
          match completed with
          | Ok _ => pret response
          | Err failure => pret (failed_response failure)
          end
      end
  end.

Definition execute_command (command : CommandEnvelope) (claims : CommandAuthorizationV1)
  (accepted_at : Timestamp) : Prv PrivdResponse :=
  let binding := effect_binding command claims in
  settled <- match binding with
             | Some binding => admit_effect command claims binding
             | None => pret None
             end ;;
  match settled with
  | Some response => pret response
  | None =>
      outcome <- match env_payload command with
                 | Some (PAgentUpgrade payload) =>
                     r <- schedule_agent_upgrade command payload claims ;;
                     pret (str "agent_upgrade_prepare", r)
                 | _ => execute_signed_payload command claims
                 end ;;
      attest_result command claims accepted_at binding (finish_operation outcome.1 outcome.2)
  end.

Definition reconcile_command (command : CommandEnvelope) (claims : CommandAuthorizationV1)
  : Prv PrivdResponse :=
  match effect_binding command claims with
  | None => pret (response_error KindInvalidRequest "root effect binding unavailable")
  | Some root_binding =>
      replayed <- call_store (OpReplayAuthorized (authorized_effect command claims root_binding)) ;;
      match replayed with
      | Ok (OutReplay (Some encoded)) => pret (decode_cached_response encoded)
      | Err failure => pret (failed_response failure)
      | Ok _ =>
          match desired_effect_binding command with
          | None => pret (response_error KindInvalidRequest "desired effect binding unavailable")
          | Some binding =>
              observed <- call_adapter (ADesiredEffectObserve (ceb_effect_kind binding)
                            (ceb_resource_key binding) (ceb_effect_revision binding)
                            (adapter_effect claims)) ;;
              pret (bare_response (finish_operation (str "desired_effect_observe")
                match observed with
                | Ok value => Ok (ResDesiredEffectObservation value)
                | Err failure => Err failure
                end))
          end
      end
  end.

(** * Reports *)

Definition outcome_state (s : OperationState) : option AgentUpgradeOutcomeState :=
  match s with
  | OpSucceeded => Some OutcomeSucceeded
  | OpFailed => Some OutcomeFailed
  | OpRolledBack => Some OutcomeRolledBack
  | OpAccepted | OpRunning => None
  end.

Definition outcome_value (s : AgentUpgradeOutcomeState) : Z :=
  match s with
  | OutcomeUnspecified => 0 | OutcomeSucceeded => 1 | OutcomeFailed => 2 | OutcomeRolledBack => 3
  end.

(** One durable result with its proof, signed at the given time. *)
Definition report_result (r : DurableUpgradeResult) (clock : option Z) : Store UpgradeOperationResult :=
  let completed_unix_ms := dur_completed_unix r * 1000 in
  if negb (bool_decide (in_u64 completed_unix_ms))
  then Err (store_unsafe "durable result completion time overflows milliseconds")
  else
  let? state := ok_or (outcome_state (dur_state r)) (store_unsafe "durable result is not terminal") in
  let? now := ok_or clock (store_unsafe "system clock precedes the unix epoch") in
  if negb (bool_decide (in_u64 (as_millis now)))
  then Err (store_unsafe "attestation time overflows milliseconds")
  else
  let? proof := map_err (fun _ => store_unsafe "durable result proof claims are malformed")
    (sign_upgrade_result (mkAgentUpgradeResultProof 1 (sc_node_id cfg)
       (key_id (verifying_key (sc_attestation_key cfg))) (dur_operation_id r) (dur_target_version r)
       (dur_package_sha256 r) (outcome_value state) completed_unix_ms (dur_result_sha256 r) []
       (as_millis now)) (sc_attestation_key cfg)) in
  Ok (mkUpgradeOperationResult (dur_operation_id r) (OperationState_as_str (dur_state r))
        (dur_target_version r) completed_unix_ms (dur_detail r) (dur_package_sha256 r) (Some proof)).

Fixpoint report_results (results : list DurableUpgradeResult) : Prv (Store (list UpgradeOperationResult)) :=
  match results with
  | [] => pret (Ok [])
  | r :: rest =>
      clock <- read_clock ;;
      match report_result r clock with
      | Err failure => pret (Err failure)
      | Ok reported =>
          more <- report_results rest ;;
          pret (let? more := more in Ok (reported :: more))
      end
  end.

Definition list_upgrade_results : Prv (result AdapterError Result) :=
  found <- call_upgrades (read_recent_results (normal_names (us_operations_dir (sc_upgrades cfg))) 8) ;;
  match found with
  | Err _ => pret (Err (Io IoOs))
  | Ok results =>
      reported <- report_results results ;;
      pret (match reported with Ok l => Ok (ResUpgradeResultList l) | Err _ => Err (Io IoOs) end)
  end.

Definition report (name : String.string) (op : AdapterOp) : Prv Result :=
  outcome <- call_adapter op ;;
  pret (finish_operation (str name)
          match outcome with Ok value => Ok (op_wrap op value) | Err failure => Err failure end).

Definition execute_read (operation : option Operation) : Prv Result :=
  match operation with
  | None => pret (ResError (error KindInvalidRequest "read-only operation required"))
  | Some ReqServiceStatus => report "service_status" AServiceStatus
  | Some ReqOcservVersion => report "ocserv_version" AOcservVersion
  | Some ReqSessionList => report "session_list" ASessionList
  | Some ReqIpBanList => report "ip_ban_list" AIpBanList
  | Some ReqConfigFingerprint => report "config_fingerprint" AConfigFingerprint
  | Some ReqUserList => report "user_list" AUserList
  | Some ReqGroupList => report "group_list" AGroupList
  | Some ReqUpgradeResultList =>
      r <- list_upgrade_results ;; pret (finish_operation (str "upgrade_result_list") r)
  | Some _ => pret (ResError (error KindPermissionDenied "Controller command authorization required"))
  end.

(** * Requests *)

(** [tokio::time::timeout(deadline, ..)]. *)
Definition until_deadline {A} (m : Prv A) (expired : A) : Prv A :=
  outcome <- pcatch m ;;
  pret match outcome with Ok a => a | Err DeadlineElapsed => expired end.

Definition with_request_id (request_id : bytes) (r : PrivdResponse) : PrivdResponse :=
  mkPrivdResponse request_id (pr_privileged_result_proof r) (pr_result r).

(** The clock reading of [validate_request]. *)
Definition judge_request (request : PrivdRequest) : Prv (option Z) :=
  act (fun tid c w => Some (Ok (pk_clock c), judge (mkJudged tid request (pk_clock c)) w)).

Definition dispatch_attested (request : PrivdRequest) : Prv PrivdResponse :=
  let reply r := mkPrivdResponse (pq_request_id request) None (Some r) in
  clock <- judge_request request ;;
  match validate_request cfg request clock with
  | Err failure => pret (reply (ResError failure))
  | Ok (_, ValidRead) =>
      r <- until_deadline (execute_read (pq_operation request)) deadline_error ;; pret (reply r)
  | Ok (_, ValidExecute command claims accepted_at) =>
      r <- until_deadline (execute_command command claims accepted_at) (bare_response deadline_error) ;;
      pret (with_request_id (pq_request_id request) r)
  | Ok (_, ValidReconcile command claims) =>
      r <- until_deadline (reconcile_command command claims) (bare_response deadline_error) ;;
      pret (with_request_id (pq_request_id request) r)
  | Ok (_, ValidArtifactRead claims offset) =>
      r <- until_deadline (report "artifact_read" (AArtifactRead (artifact_identity claims) offset))
             deadline_error ;;
      pret (reply r)
  | Ok (_, ValidArtifactConsume claims digest size confirm_only) =>
      r <- until_deadline
             (report "artifact_consume"
                (if (confirm_only : bool) then AArtifactConfirmConsumed (artifact_identity claims) digest size
                 else AArtifactConsume (artifact_identity claims) digest size))
             deadline_error ;;
      pret (reply r)
  end.

Inductive ClientError := PeerRefused | RequestTimedOut | ResponseTimedOut | FrameFailed (e : FrameError).

(** One connection: the peer's user, the bytes it sent, and the response. *)
Definition handle_client (peer_uid : Z) (decode_request : bytes -> option PrivdRequest) (input : bytes)
  : Prog World Pick ClientError unit :=
  if negb (peer_uid =? sc_agent_uid cfg) then pthrow PeerRefused
  else
    in_time <- act (fun _ c w => Some (Ok (negb (pk_elapsed c)), w)) ;;
    if negb in_time then pthrow RequestTimedOut
    else match read_frame decode_request input with
    | Err e => pthrow (FrameFailed e)
    | Ok (request, _) =>
        response <- pmap_err (fun _ : Elapsed => RequestTimedOut) (dispatch_attested request) ;;
        match write_frame (encode_response response) with
        | Err e => pthrow (FrameFailed e)
        | Ok _ =>
            act (fun tid c w =>
              if pk_elapsed c then Some (Err ResponseTimedOut, w)
              else Some (Ok tt, note_sent (mkSent tid request response) w))
        end
    end.

End Daemon.
