(* ===== verification/PrivdFacts.v ===== *)
(** What the handlers of the privileged daemon keep true together: every
    privileged operation and every record of an effect stems from a request
    that was judged executable, an operation starts only after its own handler
    was told to execute, and every response that carries a receipt is one that
    was attested for the command. *)

From stdpp Require Import base list gmap numbers countable strings.
From Stdlib Require Import ZArith Lia Bool Strings.Byte.
From S2P Require Import Prelude Bytes Text Contracts ConfigProfile Authorization.
From S2P Require Import CommandAuthorization Executor EffectRecords EffectStore EffectMachine EffectTheorems.
From S2P Require Import Concurrency Files Utf8 UpgradeRecords Upgrader Attestation.
From S2P Require Import PrivdProtocol PrivdAuthority Privd.

Local Open Scope Z_scope.

(** * Counting *)

Definition count {A} (f : A -> bool) (l : list A) : nat := length (List.filter f l).

Lemma count_app {A} (f : A -> bool) l l' : count f (l ++ l') = (count f l + count f l')%nat.
Proof. unfold count. by rewrite List.filter_app, length_app. Qed.

Lemma count_none {A} (f : A -> bool) l : Forall (fun x => f x = false) l -> count f l = 0%nat.
Proof. unfold count. induction 1 as [|x l H _ IH]; simpl; [done|]. by rewrite H. Qed.

(** The elements with a given key. *)
Definition keyed {A} (key : A -> nat) (f : A -> bool) (k : nat) (x : A) : bool :=
  bool_decide (key x = k) && f x.

Fixpoint total (n : nat) (f : nat -> nat) : nat :=
  match n with O => O | S n => (f n + total n f)%nat end.

Lemma total_ext n f g : (forall k, f k = g k) -> total n f = total n g.
Proof. intros H. induction n as [|n IH]; simpl; [done|]. by rewrite H, IH. Qed.

Lemma total_plus n f g : total n (fun k => (f k + g k)%nat) = (total n f + total n g)%nat.
Proof. induction n as [|n IH]; simpl; lia. Qed.

Lemma total_le n f g : (forall k, (f k <= g k)%nat) -> (total n f <= total n g)%nat.
Proof. intros H. induction n as [|n IH]; simpl; [done|]. specialize (H n). lia. Qed.

Lemma total_indicator n j (b : bool) :
  total n (fun k => if bool_decide (j = k) && b then 1 else 0)%nat
  = (if bool_decide (j < n)%nat && b then 1 else 0)%nat.
Proof.
  induction n as [|n IH]; [done|]. cbn [total]. rewrite IH.
  destruct b; rewrite ?andb_true_r, ?andb_false_r; [|done]. repeat case_bool_decide; simpl; lia.
Qed.

Lemma count_total {A} (key : A -> nat) (f : A -> bool) l n : Forall (fun x => key x < n)%nat l ->
  count f l = total n (fun k => count (keyed key f k) l).
Proof.
  induction 1 as [|x l H _ IH].
  - simpl. induction n as [|n IH]; simpl; [done|]. by rewrite <- IH.
  - assert (forall g : A -> bool, count g (x :: l) = ((if g x then 1 else 0) + count g l)%nat) as C.
    { intros g. unfold count. simpl. by destruct (g x). }
    rewrite C, IH. rewrite (total_ext n _ _ (fun k => C (keyed key f k))).
    rewrite total_plus. f_equal. symmetry. etransitivity; [apply (total_indicator n (key x) (f x))|].
    by rewrite bool_decide_true.
Qed.

(** Compared key by key. *)
Lemma count_le {A B} (f : A -> bool) (g : B -> bool) (ka : A -> nat) (kb : B -> nat) l l' :
  (forall k, count (keyed ka f k) l <= count (keyed kb g k) l')%nat -> (count f l <= count g l')%nat.
Proof.
  intros H. set (n := S (max_list (ka <$> l) + max_list (kb <$> l'))).
  assert (Forall (fun x => ka x < n)%nat l) as F1.
  { apply Forall_forall. intros x Hx. apply (list_elem_of_fmap_2 ka), max_list_elem_of_le in Hx. lia. }
  assert (Forall (fun x => kb x < n)%nat l') as F2.
  { apply Forall_forall. intros x Hx. apply (list_elem_of_fmap_2 kb), max_list_elem_of_le in Hx. lia. }
  rewrite (count_total ka f l n F1), (count_total kb g l' n F2). by apply total_le.
Qed.

(** * The record of a run *)

Section Record.
Context {crypto : Crypto} {signer : Signer} {text : RecordText} {platform : Platform} {host : Host}.
Context {ops : AdapterOps} {wire : ResponseWire}.
Variable cfg : ServerConfig.
Variable store_key : bytes.

Definition called_op (x : Called) : StoreOp := call_op (cd_call x).

(** What the store told about a command, call by call. *)
Definition observed (c : bytes) (l : list Called) : list (option Z * option Event) :=
  (fun x => (call_clock (cd_call x), event_of c (called_op x) (cd_result x))) <$> l.

Definition retrying (command : CommandEnvelope) : bool :=
  bool_decide (CommandDeliveryMode_try_from (env_delivery_mode command) = Some RetryIfEffectAbsent).

Definition is_grant (c : bytes) (retry : bool) (x : Called) : bool :=
  match event_of c (called_op x) (cd_result x) with
  | Some (Executed r _) => Bool.eqb r retry
  | _ => false
  end.

Definition by_adapter (p : Performed) : bool := match pf_by p with ByAdapter _ => true | _ => false end.

Definition is_start (c : bytes) (retry : bool) (p : Performed) : bool :=
  by_adapter p && bool_decide (cl_command_id (pf_claims p) = c)
  && Bool.eqb (retrying (pf_command p)) retry.

Definition grants (tid : nat) (c : bytes) (retry : bool) (w : World) : nat :=
  count (keyed cd_tid (is_grant c retry) tid) (pw_calls w).
Definition starts (tid : nat) (c : bytes) (retry : bool) (w : World) : nat :=
  count (keyed pf_tid (is_start c retry) tid) (pw_performed w).

(** A request of the handler was judged to be [v]. *)
Definition judged_as (w : World) (tid : nat) (v : ValidatedRequest) : Prop :=
  exists request clock remaining, mkJudged tid request clock ∈ pw_judged w
    /\ validate_request cfg request clock = Ok (remaining, v).

(** A retry is executed only when its effect can be looked up on the host. *)
Definition repeatable (command : CommandEnvelope) : bool :=
  negb (retrying command && (fixed_host_effect command
    || bool_decide (env_protocol_version command = LEGACY_COMMAND_PROTOCOL_VERSION))).

Definition derived (p : Performed) : Prop :=
  match pf_by p with
  | ByAdapter op => (exists name, signed_operation (pf_command p) (pf_claims p) = Some (name, op))
      /\ repeatable (pf_command p) = true
  | ByUpgrader intent => exists payload, env_payload (pf_command p) = Some (PAgentUpgrade payload)
      /\ UpgradeIntent_new (cl_operation_id (pf_claims p)) (cl_command_id (pf_claims p))
           (au_target_version payload) (au_package_sha256 payload) (au_architecture payload)
           (cl_semantic_payload_sha256 (pf_claims p)) = Ok intent
  end.

(** The response an execution of the command produced, with its receipt. *)
Definition attested (w : World) (c : bytes) (r : PrivdResponse) : Prop :=
  exists tid command claims accepted binding value clock proof,
    judged_as w tid (ValidExecute command claims accepted) /\ cl_command_id claims = c
    /\ effect_binding command claims = Some binding
    /\ build_result_proof cfg command claims accepted binding value clock = Some proof
    /\ r = mkPrivdResponse [] (Some proof) (Some value).

Definition called_ok (w : World) (x : Called) : Prop :=
  match called_op x with
  | OpPrepareAuthorized id => exists command claims accepted binding,
      judged_as w (cd_tid x) (ValidExecute command claims accepted)
      /\ effect_binding command claims = Some binding /\ id = authorized_effect command claims binding
  | OpCompleteAuthorized id response => exists command claims accepted binding r,
      judged_as w (cd_tid x) (ValidExecute command claims accepted)
      /\ effect_binding command claims = Some binding /\ id = authorized_effect command claims binding
      /\ attested w (cl_command_id claims) r /\ response = encode_response r
  | OpReplayAuthorized id => True
  | _ => False
  end.

(** Every response recorded so far survives its encoding. *)
Definition all_representable (w : World) : Prop :=
  forall x id r, x ∈ pw_calls w -> called_op x = OpCompleteAuthorized id (encode_response r) ->
    representable r.

Definition plain_error (r : PrivdResponse) : Prop :=
  pr_privileged_result_proof r = None /\ exists e, pr_result r = Some (ResError e).

Definition answered (w : World) (c : bytes) (r : PrivdResponse) : Prop :=
  plain_error r \/ (all_representable w -> attested w c r).

Definition answer_ok (w : World) (request : PrivdRequest) (clock : option Z) (response : PrivdResponse) : Prop :=
  match validate_request cfg request clock with
  | Ok (_, ValidExecute _ claims _) => exists r, answered w (cl_command_id claims) r
      /\ response = with_request_id (pq_request_id request) r
  | Ok (_, ValidReconcile _ claims) => exists r, response = with_request_id (pq_request_id request) r
      /\ (pr_privileged_result_proof r = None \/ (all_representable w -> attested w (cl_command_id claims) r))
  | _ => pr_privileged_result_proof response = None
  end.

Record Inv (w : World) : Prop := {
  iv_performed p : p ∈ pw_performed w -> derived p
    /\ exists accepted, judged_as w (pf_tid p) (ValidExecute (pf_command p) (pf_claims p) accepted);
  iv_calls x : x ∈ pw_calls w -> called_ok w x;
  iv_phase c : phase_run Unseen (observed c (pw_calls w)) (phase (pw_store w) c);
  iv_count tid c retry : (starts tid c retry w <= grants tid c retry w)%nat;
  iv_sent s : s ∈ pw_sent w -> exists clock, mkJudged (sn_tid s) (sn_request s) clock ∈ pw_judged w
    /\ answer_ok w (sn_request s) clock (sn_response s) }.

(** * Growth *)

Record grown (own : nat -> Prop) (w w' : World) : Prop := {
  gr_judged : exists l, pw_judged w' = pw_judged w ++ l;
  gr_calls : exists l, pw_calls w' = pw_calls w ++ l /\ Forall (fun x => own (cd_tid x)) l;
  gr_performed : exists l, pw_performed w' = pw_performed w ++ l /\ Forall (fun p => own (pf_tid p)) l;
  gr_sent : exists l, pw_sent w' = pw_sent w ++ l }.

Definition Guar (tid : nat) (w w' : World) : Prop := (Inv w -> Inv w') /\ grown (eq tid) w w'.
Definition Rely (tid : nat) (w w' : World) : Prop := (Inv w -> Inv w') /\ grown (fun t => t <> tid) w w'.

Lemma grown_refl own w : grown own w w.
Proof. split; exists []; rewrite ?app_nil_r; repeat split; constructor. Qed.

Lemma grown_trans own w1 w2 w3 : grown own w1 w2 -> grown own w2 w3 -> grown own w1 w3.
Proof.
  intros [[j1 J1] (c1 & C1 & O1) (p1 & P1 & Q1) [s1 S1]] [[j2 J2] (c2 & C2 & O2) (p2 & P2 & Q2) [s2 S2]].
  split; [exists (j1 ++ j2)|exists (c1 ++ c2)|exists (p1 ++ p2)|exists (s1 ++ s2)];
    rewrite ?J2, ?J1, ?C2, ?C1, ?P2, ?P1, ?S2, ?S1, <- ?app_assoc; rewrite ?Forall_app; done.
Qed.

Lemma grown_weaken (own own' : nat -> Prop) w w' :
  (forall t, own t -> own' t) -> grown own w w' -> grown own' w w'.
Proof.
  intros H [J (c & C & O) (p & P & Q) S0]. split; [done| | |done].
  - exists c. split; [done|]. eapply Forall_impl; [exact O|]. intros x. apply H.
  - exists p. split; [done|]. eapply Forall_impl; [exact Q|]. intros x. apply H.
Qed.

#[export] Instance privd_rely_preorder tid : PreOrder (Rely tid).
Proof.
  split.
  - intros w. split; [done|apply grown_refl].
  - intros w1 w2 w3 [I1 G1] [I2 G2]. split; [tauto|by eapply grown_trans].
Qed.

Section Monotone.
Context (own : nat -> Prop) (w w' : World) (HG : grown own w w').

Lemma grown_judged j : j ∈ pw_judged w -> j ∈ pw_judged w'.
Proof. destruct (gr_judged _ _ _ HG) as [l ->]. set_solver. Qed.

Lemma grown_calls x : x ∈ pw_calls w -> x ∈ pw_calls w'.
Proof. destruct (gr_calls _ _ _ HG) as (l & -> & _). set_solver. Qed.

Lemma judged_as_mono tid v : judged_as w tid v -> judged_as w' tid v.
Proof. intros (q & k & m & L & E). exists q, k, m. split; [by apply grown_judged|done]. Qed.

Lemma attested_mono c r : attested w c r -> attested w' c r.
Proof.
  intros (tid & cmd & cl & acc & b & v & k & pf & J & H). exists tid, cmd, cl, acc, b, v, k, pf.
  split; [by apply judged_as_mono|done].
Qed.

Lemma representable_mono : all_representable w' -> all_representable w.
Proof. intros H x id r Hx. by apply (H x id r), grown_calls. Qed.

Lemma answered_mono c r : answered w c r -> answered w' c r.
Proof. intros [H|H]; [by left|right]. intros HR. by apply attested_mono, H, representable_mono. Qed.

Lemma answer_ok_mono request clock response :
  answer_ok w request clock response -> answer_ok w' request clock response.
Proof.
  unfold answer_ok. destruct (validate_request cfg request clock) as [[? []]|]; try done.
  - intros (r & A & ->). exists r. split; [by apply answered_mono|done].
  - intros (r & -> & [N|A]); exists r; (split; [done|]); [by left|right].
    intros HR. by apply attested_mono, A, representable_mono.
Qed.

Lemma called_ok_mono x : called_ok w x -> called_ok w' x.
Proof.
  unfold called_ok. destruct (called_op x); try done.
  - intros (cmd & cl & acc & b & J & H). exists cmd, cl, acc, b. split; [by apply judged_as_mono|done].
  - intros (cmd & cl & acc & b & r & J & E & I0 & A & H). exists cmd, cl, acc, b, r.
    split_and!; [by apply judged_as_mono|done|done|by apply attested_mono|done].
Qed.

End Monotone.

Lemma inv_grow own w w' : Inv w -> grown own w w' ->
  (forall p, p ∈ pw_performed w' -> p ∈ pw_performed w \/ (derived p
     /\ exists accepted, judged_as w' (pf_tid p) (ValidExecute (pf_command p) (pf_claims p) accepted))) ->
  (forall x, x ∈ pw_calls w' -> x ∈ pw_calls w \/ called_ok w' x) ->
  (forall c, phase_run Unseen (observed c (pw_calls w')) (phase (pw_store w') c)) ->
  (forall tid c retry, (starts tid c retry w' <= grants tid c retry w')%nat) ->
  (forall s, s ∈ pw_sent w' -> s ∈ pw_sent w \/
     exists clock, mkJudged (sn_tid s) (sn_request s) clock ∈ pw_judged w'
       /\ answer_ok w' (sn_request s) clock (sn_response s)) -> Inv w'.
Proof.
  intros [I1 I2 I3 I4 I5] HG H1 H2 H3 H4 H5. split; [| |done|done|].
  - intros p [Hp|Hp]%H1; [|done]. destruct (I1 p Hp) as [D [acc J]]. split; [done|]. exists acc.
    by eapply judged_as_mono.
  - intros x [Hx|Hx]%H2; [|done]. by eapply called_ok_mono, I2.
  - intros s [Hs|Hs]%H5; [|done]. destruct (I5 s Hs) as (k & J & A). exists k.
    split; [by eapply grown_judged|by eapply answer_ok_mono].
Qed.

(** A step that only moves the store, the host or the disk. *)
Lemma inv_same w w' : Inv w -> pw_judged w' = pw_judged w -> pw_calls w' = pw_calls w ->
  pw_performed w' = pw_performed w -> pw_sent w' = pw_sent w ->
  edb_authorized (pw_store w') = edb_authorized (pw_store w) -> Inv w'.
Proof.
  intros HI J C P S0 A.
  assert (grown (fun _ => True) w w') as HG.
  { split; exists []; rewrite ?app_nil_r; repeat split; try done; constructor. }
  eapply inv_grow; [exact HI|exact HG|..].
  - intros p Hp. left. congruence.
  - intros x Hx. left. congruence.
  - intros c. rewrite C. unfold phase. rewrite A. apply (iv_phase w HI).
  - intros tid c retry. unfold starts, grants. rewrite P, C. apply (iv_count w HI).
  - intros s Hs. left. congruence.
Qed.

Lemma grown_same own w w' : pw_judged w' = pw_judged w -> pw_calls w' = pw_calls w ->
  pw_performed w' = pw_performed w -> pw_sent w' = pw_sent w -> grown own w w'.
Proof. intros J C P S0. split; exists []; rewrite ?app_nil_r; repeat split; try done; constructor. Qed.

Lemma inv_judge j w : Inv w -> Inv (judge j w).
Proof.
  intros HI. eapply (inv_grow (fun _ => True)); [exact HI|..]; try (by intros; left).
  - split; [by exists [j]|exists []|exists []|exists []]; rewrite ?app_nil_r; repeat split; constructor.
  - apply (iv_phase w HI).
  - apply (iv_count w HI).
Qed.

Lemma phase_run_snoc p l p' clock ev p'' : phase_run p l p' -> phase_step clock p' ev p'' ->
  phase_run p (l ++ [(clock, ev)]) p''.
Proof.
  induction 1 as [p|p clock' ev' p1 l p2 H1 H2 IH]; intros HS; simpl.
  - econstructor; [done|constructor].
  - econstructor; [done|by apply IH].
Qed.

Lemma grown_call tid d call r w : grown (eq tid) w (note_call d (mkCalled tid call r) w).
Proof.
  split; [exists []|eexists [_]|exists []|exists []]; simpl; rewrite ?app_nil_r; repeat split; try done;
    repeat constructor.
Qed.

Lemma inv_call tid call r d w : Inv w -> run_call store_key (pw_store w) call = (r, d) ->
  called_ok (note_call d (mkCalled tid call r) w) (mkCalled tid call r) ->
  Inv (note_call d (mkCalled tid call r) w).
Proof.
  intros HI HR HC. eapply (inv_grow (eq tid)); [exact HI|apply grown_call|..]; try (by intros; left).
  - intros x [Hx|Hx%list_elem_of_singleton]%elem_of_app; [by left|right]. by subst.
  - intros c. simpl. unfold observed. rewrite fmap_app. eapply phase_run_snoc; [apply (iv_phase w HI)|].
    by eapply run_call_refines.
  - intros t c retry. pose proof (iv_count w HI t c retry) as H. unfold starts, grants in *. simpl.
    rewrite count_app. lia.
Qed.

Lemma grown_performed tid p w : pf_tid p = tid -> grown (eq tid) w (note_performed p w).
Proof.
  intros E. split; [exists []|exists []|exists [p]|exists []]; simpl; rewrite ?app_nil_r; repeat split; try done;
    repeat constructor. by rewrite E.
Qed.

Lemma inv_performed tid p w : Inv w -> pf_tid p = tid -> derived p ->
  (exists accepted, judged_as w tid (ValidExecute (pf_command p) (pf_claims p) accepted)) ->
  (by_adapter p = true -> (starts tid (cl_command_id (pf_claims p)) (retrying (pf_command p)) w
                           < grants tid (cl_command_id (pf_claims p)) (retrying (pf_command p)) w)%nat) ->
  Inv (note_performed p w).
Proof.
  intros HI E D [acc J] HC. eapply (inv_grow (eq tid)); [exact HI|by apply grown_performed|..];
    try (by intros; left).
  - intros q [Hq|Hq%list_elem_of_singleton]%elem_of_app; [by left|right]. subst q. split; [done|].
    exists acc. rewrite E. eapply (judged_as_mono (eq tid)); [by apply grown_performed|done].
  - apply (iv_phase w HI).
  - intros t c retry. pose proof (iv_count w HI t c retry) as H. unfold starts, grants in *. simpl.
    rewrite count_app. unfold count at 2. simpl. destruct (keyed pf_tid (is_start c retry) t p) eqn:K; simpl; [|lia].
    unfold keyed, is_start in K. rewrite !andb_true_iff in K. destruct K as (T & (B & C) & R).
    apply bool_decide_eq_true in T, C. apply eqb_prop in R. subst. specialize (HC B). lia.
Qed.

Lemma inv_sent s w : Inv w -> (exists clock, mkJudged (sn_tid s) (sn_request s) clock ∈ pw_judged w
    /\ answer_ok w (sn_request s) clock (sn_response s)) -> Inv (note_sent s w).
Proof.
  intros HI (k & J & A).
  assert (grown (fun _ => True) w (note_sent s w)) as HG.
  { split; [exists []|exists []|exists []|exists [s]]; simpl; rewrite ?app_nil_r; repeat split; constructor. }
  eapply inv_grow; [exact HI|exact HG|..]; try (by intros; left).
  - apply (iv_phase w HI).
  - apply (iv_count w HI).
  - intros s' [Hs|Hs%list_elem_of_singleton]%elem_of_app; [by left|right]. subst s'.
    exists k. split; [done|by eapply answer_ok_mono].
Qed.

(** * What the record of calls tells *)

(** A response is replayed, or completes the command, only when it was
    recorded before. *)
Definition known (response : bytes) (past : list (option Event)) (p : Phase) : Prop :=
  forall e, p = Completed response e -> exists e', Some (Recorded response e') ∈ past.

Lemma phase_run_known response past p l p' :
  phase_run p l p' -> known response past p ->
  known response (past ++ l.*2) p'
  /\ (Some (Replayed response) ∈ l.*2 -> exists e', Some (Recorded response e') ∈ past ++ l.*2).
Proof.
  intros R. revert past. induction R as [p|p clock ev p1 l p2 HS HR IH]; intros past K; simpl.
  - rewrite app_nil_r. split; [done|]. by intros H%not_elem_of_nil.
  - assert (known response (past ++ [ev]) p1) as K1.
    { intros e E. subst p1. inversion HS; subst; try (by eexists; apply elem_of_app; right; left).
      all: destruct (K _ eq_refl) as [e' H]; exists e'; apply elem_of_app; by left. }
    destruct (IH _ K1) as [K2 R2]. rewrite <- app_assoc in K2, R2. simpl in K2, R2. split; [done|].
    intros [E|H]%elem_of_cons; [|by apply R2]. subst ev. inversion HS; subst.
    destruct (K _ eq_refl) as [e' H]. exists e'. apply elem_of_app. by left.
Qed.

Definition recorded (w : World) (c response : bytes) : Prop :=
  exists x id, x ∈ pw_calls w /\ called_op x = OpCompleteAuthorized id response /\ aei_command_id id = c.

Lemma event_recorded c op r response e : event_of c op r = Some (Recorded response e) ->
  exists id, op = OpCompleteAuthorized id response /\ aei_command_id id = c.
Proof.
  destruct op, r as [[]|]; try done; simpl; unfold for_command; try case_bool_decide; try done;
    try (by destruct decision); try (by destruct response0); intros [= <- <-]; eauto.
Qed.

(** What a call by this handler replays was recorded for the command. *)
Lemma replay_recorded w x c response : Inv w -> x ∈ pw_calls w ->
  event_of c (called_op x) (cd_result x) = Some (Replayed response) -> recorded w c response.
Proof.
  intros HI Hx E. destruct (phase_run_known response [] _ _ _ (iv_phase w HI c)) as [_ H]; [done|].
  simpl in H. destruct H as [e' H].
  { unfold observed. rewrite <- list_fmap_compose. apply list_elem_of_fmap. by exists x. }
  unfold observed in H. rewrite <- list_fmap_compose in H. apply list_elem_of_fmap in H as (y & Ey & Hy).
  simpl in Ey. symmetry in Ey. apply event_recorded in Ey as (id & E1 & E2). by exists y, id.
Qed.

Lemma recorded_answer w c response : Inv w -> recorded w c response ->
  answered w c (decode_cached_response response).
Proof.
  intros HI (x & id & Hx & E & Ec). right. intros HR. pose proof (iv_calls w HI x Hx) as C.
  unfold called_ok in C. rewrite E in C. destruct C as (cmd & cl & acc & b & r & J & B & I0 & A & R).
  subst id response. simpl in Ec. subst c. pose proof (HR x _ r Hx E) as P.
  unfold decode_cached_response. rewrite (decode_encode r P).
  pose proof A as (t & ? & ? & ? & ? & v & ? & pf & _ & _ & _ & _ & Er).
  rewrite (f_equal pr_request_id Er), (f_equal pr_result Er), (f_equal pr_privileged_result_proof Er). simpl.
  exact A.
Qed.

End Record.
