(* ===== verification/PrivdProofs.v ===== *)
(** Every handler of the privileged daemon keeps to the protocol of
    [PrivdFacts]. *)

From stdpp Require Import base list gmap numbers countable strings.
From Stdlib Require Import ZArith Lia Bool Strings.Byte.
From S2P Require Import Prelude Bytes Text Contracts ConfigProfile Authorization.
From S2P Require Import CommandAuthorization Executor EffectRecords EffectStore EffectMachine EffectTheorems.
From S2P Require Import Concurrency Files Utf8 UpgradeRecords Upgrader Attestation.
From S2P Require Import PrivdProtocol PrivdAuthority Privd PrivdFacts.

Local Open Scope Z_scope.
Local Open Scope prog_scope.

(** * Accepted commands *)

Section Accepted.
Context {crypto : Crypto} {signer : Signer} {text : RecordText} {platform : Platform}.
Variable cfg : ServerConfig.

(** What the judgement of an execution has checked. *)
Record executable (request : PrivdRequest) (now seconds : Z) (command : CommandEnvelope)
  (claims : CommandAuthorizationV1) (accepted : Timestamp) : Prop := {
  ex_carrier : pq_authorization_command request = Some command;
  ex_clock : i64_seconds now = Ok seconds;
  ex_in_time : as_millis now < pq_deadline_unix_ms request <= as_millis now + MAX_REQUEST_LIFETIME_MS;
  ex_signed : verify_command (sc_command_keys cfg) command (sc_node_id cfg) seconds = Ok claims;
  ex_payload : validate_privileged_payload command claims = Ok tt;
  ex_mode : CommandDeliveryMode_try_from (env_delivery_mode command) = Some ExecuteOrReplay
            \/ CommandDeliveryMode_try_from (env_delivery_mode command) = Some RetryIfEffectAbsent;
  ex_fence : verify_execution_fence cfg command claims seconds (subsec_nanos now) = Ok tt }.

Lemma unsigned_kind request mode now v : validate_unsigned cfg request mode now = Ok v ->
  match v with ValidExecute _ _ _ | ValidReconcile _ _ => False | _ => True end.
Proof.
  unfold validate_unsigned, validate_artifact_read, validate_artifact_consume.
  intros H. invert_ok H; by subst v.
Qed.

Lemma validated_execute request clock remaining command claims accepted :
  validate_request cfg request clock = Ok (remaining, ValidExecute command claims accepted) ->
  exists now seconds, clock = Some now /\ executable request now seconds command claims accepted.
Proof.
  unfold validate_request. destruct (validate_uuid _ _); [|done].
  destruct clock as [now|]; [|done]. simpl. destruct (bool_decide _); [|done]. simpl.
  destruct (Z.leb_spec (pq_deadline_unix_ms request) (as_millis now)) as [|L1]; [done|].
  destruct (Z.ltb_spec MAX_REQUEST_LIFETIME_MS (pq_deadline_unix_ms request - as_millis now)) as [|L2]; [done|].
  destruct (pq_authorization_command request) as [cmd|] eqn:EC.
  2:{ destruct (validate_unsigned cfg request _ now) as [v|] eqn:EU; [|done]. intros [= _ ->].
      by apply unsigned_kind in EU. }
  unfold validate_signed. destruct (_ || _); [done|].
  destruct (i64_seconds now) as [seconds|] eqn:ES; [|done].
  destruct (verify_command _ _ _ _) as [cl|] eqn:EV; [|done]. simpl.
  destruct (validate_privileged_payload cmd cl) as [[]|] eqn:EP; [|done].
  destruct (default ModeUnspecified _); [done| |].
  2:{ destruct (default DeliveryUnspecified _); try done. by destruct (effect_binding cmd cl). }
  destruct (default DeliveryUnspecified _) eqn:EM; try done.
  all: destruct (pq_accepted_at request) as [acc|]; [|done]; simpl; destruct (_ || _); [done|];
    destruct (verify_execution_fence _ _ _ _ _) as [[]|] eqn:EF; [|done]; intros [= <- <- <- <-];
    exists now, seconds; split; [done|]; split; try done; try lia;
    destruct (CommandDeliveryMode_try_from (env_delivery_mode cmd)) as [[]|]; simpl in EM; try done; auto.
Qed.

Lemma validate_uuid_ok value detail u : validate_uuid value detail = Ok u -> length value = 16%nat.
Proof.
  unfold validate_uuid, uuid_slice_v7. destruct (bool_decide (length value = 16%nat)) eqn:E; [|done].
  intros _. by apply bool_decide_eq_true in E.
Qed.

(** An accepted payload has an effect binding. *)
Lemma payload_bound command claims : validate_privileged_payload command claims = Ok tt ->
  is_Some (effect_binding command claims).
Proof.
  unfold validate_privileged_payload, effect_binding. destruct (existsb _ _); [done|].
  destruct (env_payload command) as [[]|]; try done; unfold uuid_slice_to_string; intros H; try by eexists.
  - apply validate_uuid_ok in H. rewrite bool_decide_true by done. by eexists.
  - destruct (validate_uuid (p12_certificate_id p) _) eqn:E1; [|done]. apply validate_uuid_ok in E1.
    destruct (validate_uuid (p12_artifact_id p) _) eqn:E2; [|done]. apply validate_uuid_ok in E2.
    rewrite !bool_decide_true by done. by eexists.
  - destruct (validate_uuid (rev_certificate_id p) _) eqn:E1; [|done]. apply validate_uuid_ok in E1.
    rewrite bool_decide_true by done. by eexists.
Qed.

(** The unwrapped fields of an accepted payload are present. *)
Lemma payload_operation command claims : validate_privileged_payload command claims = Ok tt ->
  is_agent_upgrade command = false -> is_Some (signed_operation command claims).
Proof.
  unfold validate_privileged_payload, signed_operation, is_agent_upgrade. destruct (existsb _ _); [done|].
  destruct (env_payload command) as [[]|]; try done; intros H _; try by eexists.
  all: unfold validate_user_secret, validate_sealed_secret in H.
  - destruct (us_sealed_password_v1 p); [by eexists|done].
  - destruct (us_sealed_password_v1 p); [by eexists|done].
  - destruct (validate_uuid _ _); [|done]. destruct (validate_uuid _ _); [|done].
    destruct (p12_sealed_password_v1 p); [|done]. simpl in H. destruct (_ || _) eqn:E in H; [done|].
    destruct (_ || _) eqn:E2 in H; [done|]. rewrite !orb_false_iff in E2. destruct E2 as [_ E2].
    destruct (p12_artifact_expires_at p); [by eexists|]. by rewrite bool_decide_true in E2.
Qed.

End Accepted.

Section Handlers.
Context {crypto : Crypto} {signer : Signer} {text : RecordText} {platform : Platform} {host : Host}.
Context {ops : AdapterOps} {wire : ResponseWire}.
Variable cfg : ServerConfig.
Variable store_key : bytes.
Variable tid : nat.

Abbreviation Inv := (Inv cfg).
Abbreviation Rely := (Rely cfg tid).
Abbreviation Guar := (Guar cfg tid).
Abbreviation any := (fun _ : Pick => True).
Abbreviation triple := (triple Rely Guar any tid).
Abbreviation Stable := (Stable Rely).
Abbreviation starts := (starts tid).
Abbreviation grants := (grants tid).

#[local] Hint Resolve grown_refl : core.

Lemma guar_refl w : Guar w w.
Proof. split; [done|apply grown_refl]. Qed.

(** * Stable assertions *)

#[local] Instance Inv_stable : Stable Inv.
Proof. intros w w' [H _]. exact H. Qed.

#[local] Instance judged_as_stable t v : Stable (fun w => judged_as cfg w t v).
Proof. intros w w' [_ H]. by apply (judged_as_mono _ _ _ _ H). Qed.

#[local] Instance judged_in_stable j : Stable (fun w => j ∈ pw_judged w).
Proof. intros w w' [_ H]. by apply (grown_judged _ _ _ H). Qed.

#[local] Instance answered_stable c r : Stable (fun w => answered cfg w c r).
Proof. intros w w' [_ H]. by apply (answered_mono _ _ _ _ H). Qed.

#[local] Instance answer_ok_stable request clock r : Stable (fun w => answer_ok cfg w request clock r).
Proof. intros w w' [_ H]. by apply (answer_ok_mono _ _ _ _ H). Qed.

Lemma counts_rely c retry w w' : Rely w w' ->
  starts c retry w' = starts c retry w /\ grants c retry w' = grants c retry w.
Proof.
  intros [_ HG]. unfold starts, grants.
  destruct (gr_calls _ _ _ HG) as (lc & -> & Oc), (gr_performed _ _ _ HG) as (lp & -> & Op).
  rewrite !count_app, (count_none _ lc), (count_none _ lp), !Nat.add_0_r; [done| |].
  - eapply Forall_impl; [exact Op|]. intros p Hp. unfold keyed. by rewrite bool_decide_false.
  - eapply Forall_impl; [exact Oc|]. intros x Hx. unfold keyed. by rewrite bool_decide_false.
Qed.

(** This handler was told to execute, and has not started yet. *)
Definition permit (c : bytes) (retry : bool) (w : World) : Prop := (starts c retry w < grants c retry w)%nat.

#[local] Instance permit_stable c retry : Stable (permit c retry).
Proof. intros w w' [E1 E2]%(counts_rely c retry) H. unfold permit. by rewrite E1, E2. Qed.

(** Assertions about the record of the run only. *)
Class Noted (K : World -> Prop) : Prop := noted w w' :
  pw_judged w' = pw_judged w -> pw_calls w' = pw_calls w -> pw_performed w' = pw_performed w ->
  pw_sent w' = pw_sent w -> K w -> K w'.

#[local] Instance noted_and K K' : Noted K -> Noted K' -> Noted (fun w => K w /\ K' w).
Proof. intros H1 H2 w w' J C P S0 [HK HK']. split; [by eapply H1|by eapply H2]. Qed.

#[local] Instance noted_imp (p : Prop) K : Noted K -> Noted (fun w => p -> K w).
Proof. intros H1 w w' J C P S0 HK Hp. eapply H1; eauto. Qed.

#[local] Instance judged_as_noted t v : Noted (fun w => judged_as cfg w t v).
Proof. intros w w' J _ _ _. unfold judged_as. by rewrite J. Qed.

#[local] Instance permit_noted c retry : Noted (permit c retry).
Proof. intros w w' _ C P _. unfold permit, PrivdFacts.starts, PrivdFacts.grants. by rewrite C, P. Qed.

Lemma same_notes_step w w' K : Noted K -> pw_judged w' = pw_judged w -> pw_calls w' = pw_calls w ->
  pw_performed w' = pw_performed w -> pw_sent w' = pw_sent w ->
  edb_authorized (pw_store w') = edb_authorized (pw_store w) ->
  Inv w /\ K w -> Guar w w' /\ Inv w' /\ K w'.
Proof.
  intros N J C P S0 A [HI HK]. split_and!.
  - split; [intros _; by eapply inv_same|by apply grown_same].
  - by eapply inv_same.
  - by eapply N.
Qed.

(** * Calls *)

Lemma triple_awaiting {S C E A} (get : World -> S) set (pick : Pick -> C) cut (P : S -> S -> Prop)
  (m : Prog S C E A) K : stays P m -> Stable K ->
  (forall w s, P (get w) s -> K w -> Guar w (set s w) /\ K (set s w)) ->
  triple K (awaiting get set pick cut m) (post (fun _ => K) K).
Proof.
  intros HM HK HS. induction m as [r|B a k IH]; intros w Hw.
  - split; [done|]. intros w1 HR. by apply (HK w).
  - intros w1 HR c b w2 _ Eb. assert (K w1) as HK1 by (by apply (HK w)).
    destruct (cut c).
    { injection Eb as <- <-. split; [apply guar_refl|]. split; [done|]. intros w2 HR2. by apply (HK w1). }
    destruct (a tid (pick c) (get w1)) as [[b' s']|] eqn:Ea; [|done]. injection Eb as <- <-.
    destruct (HM _ _ _ _ _ Ea) as [HP Hk]. destruct (HS w1 s' HP HK1) as [HG HK2].
    split; [done|]. by apply IH.
Qed.

Lemma stays_any {S C E A} (m : Prog S C E A) : stays (fun _ _ => True) m.
Proof. induction m as [r|B a k IH]; simpl; [done|]. intros t c s b s' _. split; [done|apply IH]. Qed.

Lemma triple_adapter op K : Stable K -> Noted K ->
  triple (fun w => Inv w /\ K w) (call_adapter op)
    (post (fun _ w => Inv w /\ K w) (fun w => Inv w /\ K w)).
Proof.
  intros HK HN. eapply triple_awaiting; [apply adapter_keeps|apply _|].
  intros w [d h] A H. apply (same_notes_step w _ K HN); try done.
Qed.

Lemma triple_upgrades {A} (m : Up A) K : Stable K -> Noted K ->
  triple (fun w => Inv w /\ K w) (call_upgrades m)
    (post (fun _ w => Inv w /\ K w) (fun w => Inv w /\ K w)).
Proof.
  intros HK HN. eapply triple_awaiting; [apply stays_any|apply _|].
  intros w d _ H. apply (same_notes_step w _ K HN); try done.
Qed.

Lemma triple_clock K : Stable K -> triple K read_clock (post (fun _ => K) K).
Proof.
  intros HK. apply triple_act; [done|intros []; apply _|].
  intros w c r w' H _ E. injection E as <- <-. split; [apply guar_refl|done].
Qed.

Lemma triple_store op K Q : Stable K -> (forall r, Stable (Q r)) ->
  (forall w call r d, Inv w /\ K w -> call_op call = op -> run_call store_key (pw_store w) call = (r, d) ->
     let w' := note_call d (mkCalled tid call r) w in
     called_ok cfg w' (mkCalled tid call r) /\ (Inv w' -> Q r w')) ->
  triple (fun w => Inv w /\ K w) (call_store store_key op)
    (post (fun r w => Inv w /\ Q r w) (fun w => Inv w /\ K w)).
Proof.
  intros HK HQ H. apply triple_act; [apply _|intros [r|]; apply _|].
  intros w c r w' Hw _ E. cbv zeta in E. destruct (run_call store_key _ _) as [out d] eqn:ER.
  destruct (H w (mkCall op (as_secs <$> pk_clock c) (pk_faults c)) out d Hw eq_refl ER) as [HC Hq]. destruct Hw as [HI HKw].
  injection E as <- <-. assert (Inv (note_call d (mkCalled tid (mkCall op (as_secs <$> pk_clock c) (pk_faults c)) out) w)) as HI'.
  { by eapply inv_call. }
  split; [|split; [done|by apply Hq]]. split; [done|apply grown_call].
Qed.

(** * Commands *)

Section Command.
Variables (command : CommandEnvelope) (claims : CommandAuthorizationV1) (accepted : Timestamp).

Abbreviation c := (cl_command_id claims).
Abbreviation retry := (retrying command).

Definition admitted (w : World) : Prop := judged_as cfg w tid (ValidExecute command claims accepted).

#[local] Instance admitted_stable : Stable admitted.
Proof. apply judged_as_stable. Qed.
#[local] Instance admitted_noted : Noted admitted.
Proof. apply judged_as_noted. Qed.

Lemma admitted_mono own w w' : grown own w w' -> admitted w -> admitted w'.
Proof. intros H. apply (judged_as_mono _ _ _ _ H). Qed.

(** Postconditions of the parts of an execution. *)
Definition concluded {E} : result E PrivdResponse -> World -> Prop :=
  post (fun r w => Inv w /\ admitted w /\ answered cfg w c r) (fun w => Inv w /\ admitted w).

Lemma triple_answer {E} r (K : World -> Prop) : Stable K -> (forall w, K w -> Inv w /\ admitted w) ->
  (forall w, K w -> answered cfg w c r) -> triple K (pret r) (concluded (E := E)).
Proof. intros HK H HA. apply triple_ret; [done|]. intros w Hw. destruct (H w Hw). auto. Qed.

Lemma plain_answered r w : plain_error r -> answered cfg w c r.
Proof. by left. Qed.

Lemma response_error_plain kind detail : plain_error (response_error kind detail).
Proof. split; [done|]. by eexists. Qed.
Lemma failed_response_plain failure : plain_error (failed_response failure).
Proof. split; [done|]. by eexists. Qed.
#[local] Hint Resolve response_error_plain failed_response_plain plain_answered : core.

(** A replayed response. *)
Lemma call_recorded op call out d w response : Inv (note_call d (mkCalled tid call out) w) ->
  call_op call = op -> event_of c op out = Some (Replayed response) ->
  recorded (note_call d (mkCalled tid call out) w) c response.
Proof.
  intros HI Eo Ev. eapply (replay_recorded cfg _ (mkCalled tid call out)); [exact HI| |].
  - simpl. set_solver.
  - unfold called_op. simpl. by rewrite Eo.
Qed.

Lemma event_for id ev : aei_command_id id = c -> for_command c id ev = Some ev.
Proof. intros E. unfold for_command. by rewrite bool_decide_true. Qed.

Lemma triple_replay_only binding : triple (fun w => Inv w /\ admitted w)
  (replay_only_response store_key (authorized_effect command claims binding)) concluded.
Proof.
  unfold replay_only_response. set (id := authorized_effect command claims binding).
  set (Q := fun (r : result AdapterError Output) w => admitted w /\
    match r with Ok (OutReplay (Some response)) => answered cfg w c (decode_cached_response response) | _ => True end).
  assert (forall r, Stable (Q r)) as HQ.
  { intros r. apply Stable_and; [apply _|]. destruct r as [[]|]; try apply Stable_pure. destruct response; apply _. }
  eapply triple_seq; [apply (triple_store (OpReplayAuthorized id) admitted Q); [apply _|exact HQ|]| |apply _|done].
  - intros w call out d [HI HA] Eo ER. split; [by unfold called_ok, called_op; simpl; rewrite Eo|].
    intros HI'. split; [eapply admitted_mono; [apply grown_call|done]|].
    destruct out as [[| [response|] | | | | | |]|]; try done. eapply recorded_answer; [exact HI'|].
    eapply call_recorded; [exact HI'|exact Eo|]. simpl. by apply event_for.
  - intros [out|failure].
    + assert (triple (fun w => Inv w /\ Q (Ok out) w) (pret (response_error KindUnavailable
        "authorized effect outcome requires reconciliation")) (concluded (E := Elapsed))) as HD.
      { apply triple_answer; [apply _|by intros w (HI & HA & _)|auto]. }
      destruct out as [| [response|] | | | | | |]; try exact HD.
      apply triple_answer; [apply _|by intros w (HI & HA & _)|by intros w (_ & _ & H)].
    + apply triple_answer; [apply _|by intros w (HI & HA & _)|auto].
Qed.

Definition admission (r : option PrivdResponse) (w : World) : Prop :=
  Inv w /\ admitted w /\
  match r with
  | Some response => answered cfg w c response
  | None => repeatable command = true /\ (is_agent_upgrade command = false -> permit c retry w)
  end.

#[local] Instance admission_stable r : Stable (admission r).
Proof. unfold admission. destruct r; apply _. Qed.

Lemma triple_admit binding : effect_binding command claims = Some binding ->
  triple (fun w => Inv w /\ admitted w) (admit_effect store_key command claims binding)
    (post admission (fun w => Inv w /\ admitted w)).
Proof.
  intros EB. unfold admit_effect. set (id := authorized_effect command claims binding).
  destruct (_ && _) eqn:ER.
  { eapply triple_seq; [apply triple_replay_only| |apply _|done].
    intros r. apply triple_ret; [apply _|done]. }
  assert (repeatable command = true) as HR by (unfold repeatable; simpl in ER; unfold retrying; by rewrite ER). clear ER.
  set (Q := fun (r : result AdapterError Output) w => admitted w /\
    match r with
    | Ok (OutDecision (DecideReplay response)) => answered cfg w c (decode_cached_response response)
    | Ok (OutDecision DecideExecute) => permit c retry w
    | _ => True
    end).
  assert (forall r, Stable (Q r)) as HQ.
  { intros r. apply Stable_and; [apply _|]. destruct r as [[decision| | | | | | |]|]; try apply Stable_pure.
    destruct decision; apply _. }
  eapply triple_seq; [apply (triple_store (OpPrepareAuthorized id) admitted Q); [apply _|exact HQ|]| |apply _|done].
  - intros w call out d [HI HA] Eo ER. assert (admitted (note_call d (mkCalled tid call out) w)) as HA'.
    { eapply admitted_mono; [apply grown_call|done]. }
    split; [unfold called_ok, called_op; simpl; rewrite Eo; by exists command, claims, accepted, binding|].
    intros HI'. split; [done|]. destruct out as [[[|response|]| | | | | | |]|]; try done.
    + pose proof (iv_count _ _ HI tid c retry) as HC. unfold permit, PrivdFacts.starts, PrivdFacts.grants in *. simpl.
      rewrite count_app. unfold count at 3. simpl.
      assert (keyed cd_tid (is_grant c retry) tid (mkCalled tid call (Ok (OutDecision DecideExecute))) = true) as ->.
      { unfold keyed, is_grant, called_op. simpl. rewrite bool_decide_true, Eo by done. simpl.
        rewrite event_for by done. apply eqb_reflx. }
      simpl. lia.
    + eapply recorded_answer; [exact HI'|]. eapply call_recorded; [exact HI'|exact Eo|]. simpl. by apply event_for.
  - intros r. assert (forall response, plain_error response ->
      triple (fun w => Inv w /\ Q r w) (pret (Some response)) (post (E := Elapsed) admission (fun w => Inv w /\ admitted w))) as HP.
    { intros response HP. apply triple_ret; [apply _|]. intros w (HI & HA & _). split_and!; auto. }
    destruct r as [[[|response|]| | | | | | |]|failure]; try (by apply HP).
    + apply triple_ret; [apply _|]. intros w (HI & HA & H). split_and!; auto.
    + apply triple_ret; [apply _|]. by intros w (HI & HA & H).
    + destruct (is_agent_upgrade command) eqn:EU; [|by apply HP].
      apply triple_ret; [apply _|]. intros w (HI & HA & _). split_and!; [done|done|done|]. by rewrite EU.
Qed.

(** * Execution *)

Abbreviation going := (fun w => Inv w /\ admitted w).

Lemma triple_start by_whom : derived (mkPerformed tid command claims by_whom) ->
  triple (fun w => going w /\ (by_adapter (mkPerformed tid command claims by_whom) = true -> permit c retry w))
    (start_operation command claims by_whom) (post (fun _ => going) going).
Proof.
  intros D. apply triple_act; [apply _|intros []; apply _|].
  intros w pick r w' ((HI & HA) & HP) _ E. injection E as <- <-.
  set (p := mkPerformed tid command claims by_whom) in *.
  assert (grown (eq tid) w (note_performed p w)) as HG by (by apply grown_performed).
  assert (Inv (note_performed p w)) as HI' by (eapply inv_performed; [done|done|done|by exists accepted|exact HP]).
  split; [by split|]. split; [done|by eapply admitted_mono].
Qed.

Lemma triple_payload : repeatable command = true -> triple (fun w => going w /\ permit c retry w)
  (execute_signed_payload command claims) (post (fun _ => going) going).
Proof.
  intros HR. unfold execute_signed_payload. destruct (signed_operation command claims) as [[name op]|] eqn:EO.
  2:{ apply triple_ret; [apply _|by intros w [H _]]. }
  eapply triple_seq with (M := fun _ => going) (X := going); [|intros _|apply _|done].
  - eapply triple_conseq; [apply (triple_start (ByAdapter op)); split; [by exists name|done]| |by intros r w H].
    intros w [H HP]. by split.
  - eapply triple_seq; [apply (triple_adapter op admitted); apply _|intros r|apply _|done].
    apply triple_ret; [apply _|done].
Qed.

Lemma triple_upgrade payload : env_payload command = Some (PAgentUpgrade payload) ->
  triple going (schedule_agent_upgrade cfg command payload claims) (post (fun _ => going) going).
Proof.
  intros EP. unfold schedule_agent_upgrade. destruct (negb _); [apply triple_ret; [apply _|done]|].
  destruct (UpgradeIntent_new _ _ _ _ _ _) as [intent|failure] eqn:EI; [|apply triple_ret; [apply _|done]].
  eapply triple_seq with (M := fun _ => going) (X := going); [|intros _|apply _|done].
  - eapply triple_conseq; [apply (triple_start (ByUpgrader intent)); by exists payload| |by intros r w H].
    intros w H. by split.
  - eapply triple_seq; [apply (triple_upgrades _ admitted); apply _|intros r|apply _|done].
    destruct r; (apply triple_ret; [apply _|done]).
Qed.

(** * Attestation *)

#[local] Instance attested_stable id r : Stable (fun w => attested cfg w id r).
Proof. intros w w' [_ H]. by apply (attested_mono _ _ _ _ H). Qed.

Lemma triple_attest binding r : effect_binding command claims = Some binding ->
  triple going (attest_result cfg store_key command claims accepted (Some binding) r) concluded.
Proof.
  intros EB. unfold attest_result. destruct (match r with ResError _ => _ | _ => _ end) eqn:ER.
  { apply triple_answer; [apply _|done|]. intros w _. left. split; [done|].
    destruct r; try done. by eexists. }
  eapply triple_seq; [apply (triple_clock going); apply _|intros clock|apply _|done].
  destruct (build_result_proof _ _ _ _ _ _ _) as [proof|] eqn:EP.
  2:{ apply triple_answer; [apply _|done|auto]. }
  set (response := mkPrivdResponse [] (Some proof) (Some r)).
  set (id := authorized_effect command claims binding).
  assert (forall w, admitted w -> attested cfg w c response) as HA.
  { intros w J. by exists tid, command, claims, accepted, binding, r, clock, proof. }
  set (Q := fun (_ : result AdapterError Output) w => admitted w /\ attested cfg w c response).
  eapply triple_seq; [apply (triple_store (OpCompleteAuthorized id (encode_response response)) admitted Q)| |apply _|done].
  - apply _.
  - intros out. apply _.
  - intros w call out d [HI J] Eo _. assert (admitted (note_call d (mkCalled tid call out) w)) as J'.
    { eapply admitted_mono; [apply grown_call|done]. }
    split; [|intros _; split; auto]. unfold called_ok, called_op. simpl. rewrite Eo.
    exists command, claims, accepted, binding, response. split_and!; auto.
  - intros [out|failure].
    + apply triple_answer; [apply _|by intros w (HI & J & _)|]. intros w (_ & _ & H). by right.
    + apply triple_answer; [apply _|by intros w (HI & J & _)|auto].
Qed.

Lemma triple_execute_command : validate_privileged_payload command claims = Ok tt ->
  triple going (execute_command cfg store_key command claims accepted) concluded.
Proof.
  intros HV. destruct (payload_bound _ _ HV) as [binding EB]. unfold execute_command. rewrite EB.
  eapply triple_seq; [by apply triple_admit| |apply _|done].
  intros [response|].
  { apply triple_answer; [apply _|by intros w (HI & J & _)|by intros w (_ & _ & H)]. }
  assert (forall name value, triple going (attest_result cfg store_key command claims accepted (Some binding)
    (finish_operation name value)) concluded) as HT by (intros; by apply triple_attest).
  destruct (is_agent_upgrade command) eqn:EU; unfold is_agent_upgrade in EU.
  - destruct (env_payload command) as [[]|] eqn:EP; try done.
    eapply triple_seq with (M := fun _ => going) (X := going); [|intros [name value]; apply HT|apply _|done].
    eapply triple_seq with (M := fun _ => going) (X := going); [|intros value|apply _|done].
    + eapply triple_conseq; [by apply (triple_upgrade p)| |by intros ? w H]. by intros w (HI & J & _).
    + apply triple_ret; [apply _|done].
  - eapply triple_seq with (M := fun _ => going) (X := going); [|intros [name value]; apply HT|apply _|done].
    assert (triple (admission None) (execute_signed_payload command claims) (post (fun _ => going) going)) as HP.
    { intros w (HI & J & R & P). apply triple_payload; [done|]. split; [done|by apply P]. }
    destruct (env_payload command) as [[]|] eqn:EP; try exact HP. done.
Qed.

End Command.

(** * Reconciliation *)

Definition reconciled (id : bytes) (r : PrivdResponse) (w : World) : Prop :=
  pr_privileged_result_proof r = None \/ (all_representable w -> attested cfg w id r).

#[local] Instance reconciled_stable id r : Stable (reconciled id r).
Proof.
  intros w w' [_ HG] [N|H]; [by left|right]. intros HR.
  apply (attested_mono _ _ _ _ HG), H. by apply (representable_mono _ _ _ HG).
Qed.

Lemma answered_reconciled w id r : answered cfg w id r -> reconciled id r w.
Proof. intros [[N _]|H]; [by left|by right]. Qed.

Lemma triple_reconcile command claims K : Stable K -> Noted K ->
  (forall own w w', grown own w w' -> K w -> K w') ->
  triple (fun w => Inv w /\ K w) (reconcile_command store_key command claims)
    (post (fun r w => (Inv w /\ K w) /\ reconciled (cl_command_id claims) r w) (fun w => Inv w /\ K w)).
Proof.
  intros HK HN HM. assert (forall r P, Stable P -> pr_privileged_result_proof r = None ->
    (forall w, P w -> Inv w /\ K w) -> triple P (pret r) (post (E := Elapsed) (fun r w => (Inv w /\ K w)
      /\ reconciled (cl_command_id claims) r w) (fun w => Inv w /\ K w))) as HP.
  { intros r P HS N H. apply triple_ret; [done|]. intros w Hw. split; [auto|by left]. }
  unfold reconcile_command. destruct (effect_binding command claims) as [binding|]; [|apply HP; try apply _; auto].
  set (id := authorized_effect command claims binding).
  set (Q := fun (r : result AdapterError Output) w => K w /\ match r with
    | Ok (OutReplay (Some response)) => reconciled (cl_command_id claims) (decode_cached_response response) w
    | _ => True end).
  assert (forall r, Stable (Q r)) as HQ.
  { intros r. apply Stable_and; [apply _|]. destruct r as [[]|]; try apply Stable_pure. destruct response; apply _. }
  eapply triple_seq; [apply (triple_store (OpReplayAuthorized id) K Q); [apply _|exact HQ|]| |apply _|done].
  - intros w call out d [HI HA] Eo ER. split; [by unfold called_ok, called_op; simpl; rewrite Eo|].
    intros HI'. split; [eapply HM; [apply grown_call|done]|].
    destruct out as [[| [response|] | | | | | |]|]; try done. eapply answered_reconciled, recorded_answer; [exact HI'|].
    eapply call_recorded; [exact HI'|exact Eo|]. simpl. by apply event_for.
  - intros out. assert (triple (fun w => Inv w /\ Q out w)
      (match desired_effect_binding command with
       | None => pret (response_error KindInvalidRequest "desired effect binding unavailable")
       | Some binding => observed <- call_adapter (ADesiredEffectObserve (ceb_effect_kind binding)
           (ceb_resource_key binding) (ceb_effect_revision binding) (adapter_effect claims)) ;;
           pret (bare_response (finish_operation (str "desired_effect_observe")
             match observed with Ok value => Ok (ResDesiredEffectObservation value) | Err failure => Err failure end))
       end) (post (fun r w => (Inv w /\ K w) /\ reconciled (cl_command_id claims) r w) (fun w => Inv w /\ K w))) as HD.
    { destruct (desired_effect_binding command) as [b|].
      2:{ apply HP; [apply _|done|by intros w (? & ? & _)]. }
      eapply triple_seq with (M := fun _ w => Inv w /\ K w) (X := fun w => Inv w /\ K w); [| |apply _|done].
      - eapply triple_conseq; [apply (triple_adapter _ K); apply _| |done]. by intros w (? & ? & _).
      - intros r. apply HP; [apply _|done|done]. }
    destruct out as [[| [response|] | | | | | |]|]; try exact HD.
    + apply triple_ret; [apply _|]. by intros w (HI & HA & H).
    + apply HP; [apply _|done|by intros w (? & ? & _)].
Qed.

(** * Reports *)

Lemma triple_report name op K : Stable K -> Noted K ->
  triple (fun w => Inv w /\ K w) (report name op)
    (post (fun _ w => Inv w /\ K w) (fun w => Inv w /\ K w)).
Proof.
  intros HK HN. unfold report. eapply triple_seq; [apply (triple_adapter op K); apply _|intros r|apply _|done].
  apply triple_ret; [apply _|done].
Qed.

Lemma triple_results results K : Stable K ->
  triple K (report_results cfg results) (post (fun _ => K) K).
Proof.
  intros HK. induction results as [|r rest IH]; simpl; [by apply triple_ret|].
  eapply triple_seq; [by apply (triple_clock K)|intros clock|done|done].
  destruct (report_result cfg r clock); [|by apply triple_ret].
  eapply triple_seq; [exact IH|intros more|done|done]. by apply triple_ret.
Qed.

Lemma triple_list_results K : Stable K -> Noted K ->
  triple (fun w => Inv w /\ K w) (list_upgrade_results cfg)
    (post (fun _ w => Inv w /\ K w) (fun w => Inv w /\ K w)).
Proof.
  intros HK HN. unfold list_upgrade_results.
  eapply triple_seq; [apply (triple_upgrades _ K); apply _|intros [results|e]|apply _|done].
  - eapply triple_seq; [apply triple_results; apply _|intros r|apply _|done]. by apply triple_ret; [apply _|].
  - by apply triple_ret; [apply _|].
Qed.

Lemma triple_execute_read operation K : Stable K -> Noted K ->
  triple (fun w => Inv w /\ K w) (execute_read cfg operation)
    (post (fun _ w => Inv w /\ K w) (fun w => Inv w /\ K w)).
Proof.
  intros HK HN. destruct operation as [[]|]; simpl; try (by apply triple_report);
    try (by apply triple_ret; [apply _|]).
  eapply triple_seq; [by apply triple_list_results|intros r|apply _|done]. by apply triple_ret; [apply _|].
Qed.

(** * Requests *)

Lemma triple_deadline {A} P (m : Prog World Pick Elapsed A) (expired : A) M X :
  triple P m (post M X) -> (forall a, Stable (M a)) -> Stable X -> (forall w, X w -> M expired w) ->
  triple P (until_deadline m expired) (post M X).
Proof.
  intros Hm HM HX HE. unfold until_deadline.
  eapply triple_seq with (X := X); [by apply (triple_caught _ _ _ _ _ _ _ _ X Hm)| |done|done].
  intros [a|[]]; (apply triple_ret; [first [apply HM|apply HX]|]); auto.
Qed.

#[local] Instance judged_in_noted j : Noted (fun w => j ∈ pw_judged w).
Proof. intros w w' J _ _ _. by rewrite J. Qed.

Lemma triple_judge request : triple Inv (judge_request request)
  (post (fun clock w => Inv w /\ mkJudged tid request clock ∈ pw_judged w) Inv).
Proof.
  apply triple_act; [apply _|intros []; apply _|]. intros w pick r w' HI _ E. injection E as <- <-.
  assert (Inv (judge (mkJudged tid request (pk_clock pick)) w)) as HI' by (by apply inv_judge).
  split; [split; [done|]|split; [done|simpl; set_solver]].
  split; [eexists [_]|exists []|exists []|exists []]; simpl; rewrite ?app_nil_r; repeat split; constructor.
Qed.

(** What a handler has when it writes its response. *)
Definition replying (request : PrivdRequest) (r : PrivdResponse) (w : World) : Prop :=
  Inv w /\ exists clock, mkJudged tid request clock ∈ pw_judged w /\ answer_ok cfg w request clock r.

Lemma triple_unproved {A} request clock (m : Prog World Pick Elapsed A) (expired : A) (reply : A -> PrivdResponse) :
  (forall a w, answer_ok cfg w request clock (reply a)) ->
  let J := fun w => mkJudged tid request clock ∈ pw_judged w in
  triple (fun w => Inv w /\ J w) m (post (fun _ w => Inv w /\ J w) (fun w => Inv w /\ J w)) ->
  triple (fun w => Inv w /\ J w) (r <- until_deadline m expired ;; pret (reply r)) (post (replying request) Inv).
Proof.
  intros HA J Hm. eapply triple_seq with (X := fun w => Inv w /\ J w).
  - eapply triple_deadline; [exact Hm|intros a; apply _|apply _|by intros w H].
  - intros a. apply triple_ret; [apply _|]. intros w [HI HJ]. split; [done|]. exists clock. split; [done|apply HA].
  - apply _.
  - by intros e w [HI _].
Qed.

Lemma triple_dispatch request :
  triple Inv (dispatch_attested cfg store_key request) (post (replying request) Inv).
Proof.
  unfold dispatch_attested. eapply triple_seq; [apply triple_judge|intros clock|apply _|done].
  set (J := fun w => mkJudged tid request clock ∈ pw_judged w).
  destruct (validate_request cfg request clock) as [[remaining v]|failure] eqn:EV.
  2:{ apply triple_ret; [apply _|]. intros w [HI HJ]. split; [done|]. exists clock. split; [done|].
      unfold answer_ok. by rewrite EV. }
  destruct v as [|command claims accepted|command claims|claims offset|claims digest size confirm].
  - apply triple_unproved; [intros; unfold answer_ok; by rewrite EV|]. by apply triple_execute_read; apply _.
  - destruct (validated_execute _ _ _ _ _ _ _ EV) as (now & seconds & -> & HX).
    eapply triple_seq with (M := fun r w => (Inv w /\ J w) /\ answered cfg w (cl_command_id claims) r)
      (X := fun w => Inv w /\ J w); [| |apply _|by intros e w [HI _]].
    + eapply triple_deadline; [|intros a; apply _|apply _|].
      * eapply triple_conseq; [eapply (triple_frame Rely Guar any tid _ J)|..].
        { apply (triple_execute_command command claims accepted), (ex_payload _ _ _ _ _ _ _ HX). }
        { apply _. }
        { intros w w' [_ HG]. apply (grown_judged _ _ _ HG). }
        { intros w [HI HJ]. split_and!; [done| |done]. by exists request, (Some now), remaining. }
        { intros [r|e] w; simpl; [intros ((HI & _ & HA) & HJ)|intros ((HI & _) & HJ)]; auto. }
      * intros w H. split; [done|]. left. split; [done|]. by eexists.
    + intros r. apply triple_ret; [apply _|]. intros w ((HI & HJ) & HA). split; [done|]. exists (Some now).
      split; [done|]. unfold answer_ok. rewrite EV. by exists r.
  - eapply triple_seq with (M := fun r w => (Inv w /\ J w) /\ reconciled (cl_command_id claims) r w)
      (X := fun w => Inv w /\ J w); [| |apply _|by intros e w [HI _]].
    + eapply triple_deadline; [apply triple_reconcile|intros a; apply _|apply _|]; try apply _.
      * intros own w w' HG. apply (grown_judged _ _ _ HG).
      * intros w H. split; [done|by left].
    + intros r. apply triple_ret; [apply _|]. intros w ((HI & HJ) & HA). split; [done|]. exists clock.
      split; [done|]. unfold answer_ok. rewrite EV. by exists r.
  - apply triple_unproved; [intros; unfold answer_ok; by rewrite EV|]. by apply triple_report; apply _.
  - apply triple_unproved; [intros; unfold answer_ok; by rewrite EV|]. by apply triple_report; apply _.
Qed.

Lemma triple_client uid decode_request input :
  triple Inv (handle_client cfg store_key uid decode_request input) (post (fun _ => Inv) Inv).
Proof.
  unfold handle_client. destruct (negb _); [by apply triple_throw; [apply _|]|].
  eapply triple_seq with (M := fun _ => Inv) (X := Inv); [|intros in_time|apply _|done].
  { apply triple_act; [apply _|intros []; apply _|]. intros w pick r w' HI _ E. injection E as <- <-.
    split; [apply guar_refl|done]. }
  destruct (negb in_time); [by apply triple_throw; [apply _|]|].
  destruct (read_frame decode_request input) as [[request rest]|e]; [|by apply triple_throw; [apply _|]].
  eapply triple_seq with (X := Inv); [|intros response|apply _|done].
  { apply triple_recode; [apply triple_dispatch|intros r; apply _|apply _]. }
  destruct (write_frame (encode_response response)); [|by apply triple_throw; [apply _|intros w []]].
  apply triple_act; [apply _|intros []; apply _|]. intros w pick r w' [HI HJ] _ E.
  destruct (pk_elapsed pick); injection E as <- <-; [split; [apply guar_refl|done]|].
  set (s := mkSent tid request response). assert (Inv (note_sent s w)) as HI' by (by apply inv_sent).
  split; [split; [done|]|done].
  split; [exists []|exists []|exists []|exists [s]]; simpl; rewrite ?app_nil_r; repeat split; constructor.
Qed.

End Handlers.
