(* ===== verification/PrivdTheorems.v ===== *)
(** The privileged daemon under every interleaving of its handlers: what it
    performs was authorized, is performed at most once, and is answered with a
    receipt. *)

From stdpp Require Import base list gmap numbers countable strings relations.
From Stdlib Require Import ZArith Lia Bool Strings.Byte.
From S2P Require Import Prelude Bytes Text Contracts ConfigProfile Authorization.
From S2P Require Import CommandAuthorization TranscriptFacts SignedAuthority Executor.
From S2P Require Import EffectRecords EffectStore EffectMachine EffectTheorems Transport FenceTheorems.
From S2P Require Import Concurrency Files Utf8 UpgradeRecords Upgrader Attestation AttestationTheorems.
From S2P Require Import UpgradeRunner UpgradeFacts UpgradeProofs RunnerProofs.
From S2P Require Import PrivdProtocol PrivdAuthority Privd PrivdFacts PrivdProofs.

Local Open Scope Z_scope.
Local Open Scope prog_scope.

Section Theorems.
Context {crypto : Crypto} {signer : Signer} {text : RecordText} {platform : Platform} {host : Host}.
Context {ops : AdapterOps} {wire : ResponseWire}.
Variable cfg : ServerConfig.
Variable store_key : bytes.

(** * Runs *)

(** The daemon serves connections, each by a handler of its own. *)
Inductive serving : @Task World Pick -> Prop :=
| serve_client uid decode_request input :
    serving (task (handle_client cfg store_key uid decode_request input)).

(** A handler that ends gives up its file locks. *)
Definition hang_up (tid : nat) (w : World) : World := set_disk (release_locks tid (pw_disk w)) w.

Definition daemon_reach : Pool World Pick * World -> Pool World Pick * World -> Prop :=
  pool_reach (fun _ => True) hang_up serving.

(** A store without records of authorized effects, and an empty record. *)
Record starting (w : World) : Prop := {
  st_store : edb_authorized (pw_store w) = ∅;
  st_judged : pw_judged w = []; st_calls : pw_calls w = [];
  st_performed : pw_performed w = []; st_sent : pw_sent w = [] }.

Lemma starting_inv w : starting w -> Inv cfg w.
Proof.
  intros [A J C P S0]. split.
  - intros p. rewrite P. by intros ?%not_elem_of_nil.
  - intros x. rewrite C. by intros ?%not_elem_of_nil.
  - intros c. rewrite C. unfold phase. rewrite A, lookup_empty. constructor.
  - intros tid c retry. unfold starts, grants. rewrite P, C. done.
  - intros s. rewrite S0. by intros ?%not_elem_of_nil.
Qed.

Lemma hang_up_step own tid w : (Inv cfg w -> Inv cfg (hang_up tid w)) /\ grown own w (hang_up tid w).
Proof. split; [intros H; by eapply inv_same|by apply grown_same]. Qed.

Lemma daemon_sound w0 T w : starting w0 -> daemon_reach (∅, w0) (T, w) -> Inv cfg w.
Proof.
  intros HS H. refine (proj1 (pool_sound (Rely cfg) (Guar cfg) (fun _ => True) (Inv cfg) hang_up serving
    _ _ _ _ _ _ _ w0 (T, w) (starting_inv _ HS) H)).
  - intros tid s. reflexivity.
  - intros tid s1 s2 s3 H1 H2. by transitivity s2.
  - intros tid tid' s s' N _ [HI HG]. split; [done|]. eapply grown_weaken; [|exact HG]. by intros t <-.
  - intros tid s s' HI [HG _]. by apply HG.
  - intros tid tid' s N _. apply hang_up_step.
  - intros tid s. by apply (hang_up_step (eq tid)).
  - intros tid t s [uid decode input] HI. unfold task_wp.
    eapply wp_mono; [|by apply triple_client]. done.
Qed.

(** * Authority *)

(** The Rust types of the carriers in a request. *)
Definition typed_request (request : PrivdRequest) : Prop :=
  forall command, pq_authorization_command request = Some command ->
    wf_envelope command /\ (forall f, env_connection_fence command = Some f -> wf_fence f)
    /\ (forall b, env_fence_binding command = Some b -> wf_binding b).

Definition typed_run (w : World) : Prop := forall j, j ∈ pw_judged w -> typed_request (jd_request j).

Lemma fence_carriers_ok fence binding seconds nanos vf b :
  verify_fence_carriers cfg fence binding seconds nanos = Ok (vf, b) ->
  exists f fb, fence = Some f /\ binding = Some fb
    /\ verify_connection_fence_v2_at (sc_command_keys cfg) f (sc_node_id cfg) (sc_endpoint_id cfg) seconds nanos = Ok vf
    /\ verify_fence_binding_v2_at (sc_command_keys cfg) fb (sc_node_id cfg) (sc_endpoint_id cfg) seconds nanos = Ok b
    /\ lease_expired vf seconds nanos = false.
Proof.
  unfold verify_fence_carriers. destruct fence as [f|], binding as [fb|]; try done.
  destruct (verify_connection_fence_v2_at _ _ _ _ _ _) as [vf'|] eqn:E1; [|done]. simpl.
  destruct (lease_expired vf' _ _) eqn:L; [done|].
  destruct (verify_fence_binding_v2_at _ _ _ _ _ _) as [b'|] eqn:E2; [|done]. simpl. intros [= -> ->].
  by exists f, fb.
Qed.

Lemma execution_fence_ok command claims seconds nanos :
  verify_execution_fence cfg command claims seconds nanos = Ok tt ->
  exists vf b, verify_fence_carriers cfg (env_connection_fence command) (env_fence_binding command) seconds nanos
      = Ok (vf, b)
    /\ fbc_operation_kind b = FenceOperationKind_value OperationCommand
    /\ fbc_operation_id b = cl_command_id claims /\ fbc_capability b = cl_required_capability claims
    /\ cl_expected_revision claims = vcf_authorization_revision vf
    /\ fbc_capability b ∈ vcf_capabilities vf /\ matches_fence b vf = true.
Proof.
  unfold verify_execution_fence. destruct (verify_fence_carriers _ _ _ _ _) as [[vf b]|]; [|done]. simpl.
  destruct (_ || _) eqn:G; [done|]. intros _. rewrite !orb_false_iff in G.
  destruct G as (((((G0 & G1) & G2) & G3) & G5) & G4). exists vf, b.
  apply bool_decide_eq_false, dec_stable in G1, G2. apply negb_false_iff in G0, G3, G4, G5.
  apply existsb_exists in G5 as (c & Hin & ->%bool_decide_eq_true). apply list_elem_of_In in Hin.
  split_and!; try done; lia.
Qed.

(** The authority under which an operation was performed: a command the
    Controller signed for this node over the payload it is derived from, judged
    before the request's deadline and the command's expiry at a clock the
    handler read, under an owner term in force at that same reading: signed by
    the Controller for this node and endpoint, unexpired, with its lease
    running, of the revision the command expects, and bound to this command and
    its capability. *)
Definition authorized (signed : Statement -> Prop) (w : World) (p : Performed) : Prop :=
  let c := pf_claims p in
  signed (SCommand c) /\ cl_node_id c = sc_node_id cfg
  /\ (exists v m, SemanticPayloadHashVersion_try_from (cl_semantic_hash_version c) = Some v
        /\ semantic_preimage (pf_command p) v = Ok m /\ cl_semantic_payload_sha256 c = sha256 m)
  /\ exists request now seconds term binding,
       mkJudged (pf_tid p) request (Some now) ∈ pw_judged w
       /\ pq_authorization_command request = Some (pf_command p)
       /\ as_millis now < pq_deadline_unix_ms request
       /\ i64_seconds now = Ok seconds /\ seconds < cl_expires_at_seconds c
       /\ in_force signed (sc_node_id cfg) (sc_endpoint_id cfg) seconds (subsec_nanos now)
            seconds (subsec_nanos now) term binding
       /\ cl_expected_revision c = cfc_authorization_revision term
       /\ fbc_operation_kind binding = FenceOperationKind_value OperationCommand
       /\ fbc_operation_id binding = cl_command_id c
       /\ fbc_capability binding = cl_required_capability c.

Lemma judged_authorized signed w tid command claims accepted by_whom :
  unforged (sc_command_keys cfg) signed -> typed_run w ->
  judged_as cfg w tid (ValidExecute command claims accepted) ->
  authorized signed w (mkPerformed tid command claims by_whom).
Proof.
  intros Hu HT (request & clock & remaining & HJ & EV).
  destruct (validated_execute _ _ _ _ _ _ _ EV) as (now & seconds & -> & HX).
  destruct (HT _ HJ command (ex_carrier _ _ _ _ _ _ _ HX)) as (We & Wf & Wb).
  destruct (verified_command_signed _ _ _ _ _ _ Hu We (ex_signed _ _ _ _ _ _ _ HX)) as [Hs Hh].
  pose proof (verify_command_ok _ _ _ _ _ (ex_signed _ _ _ _ _ _ _ HX)) as (_ & Hn & _ & Hexp & _).
  destruct (execution_fence_ok _ _ _ _ (ex_fence _ _ _ _ _ _ _ HX)) as (vf & b & HF & B0 & B1 & B2 & B3 & B4 & B5).
  destruct (fence_carriers_ok _ _ _ _ _ _ HF) as (f & fb & Ef & Eb & V1 & V2 & L).
  destruct (verified_in_force _ signed _ _ _ _ _ _ _ _ _ _ Hu (Wf _ Ef) (Wb _ Eb) V1 V2 B5 B4 L)
    as (term & HT1 & [_ _ R]).
  unfold authorized. cbn [pf_claims pf_command pf_tid]. split_and!; [done|done|done|].
  exists request, now, seconds, term, b. split_and!; try done; try congruence.
  - apply HX.
  - apply (ex_in_time _ _ _ _ _ _ _ HX).
  - apply HX.
  - destruct Hexp as [?|M]; [done|]. destruct (ex_mode _ _ _ _ _ _ _ HX) as [D|D]; by rewrite M in D.
Qed.

(** C1. Nothing privileged happens without the Controller: in every run of the
    daemon, whatever the connections send and however their handlers
    interleave, fail or are cut off by their deadlines, each privileged
    operation the daemon started (on the adapter or the upgrade store) is the
    one its command's payload stands for, and that command was signed by the
    Controller for this node; at the clock reading with which its request was
    judged, the request's deadline and the command's expiry had not passed, and
    an owner term the Controller signed for this node and endpoint, at the
    revision the command expects, was unexpired with its signed lease still
    running, and bound by an unexpired signed binding to this command and its
    capability. *)
Theorem privileged_operation_authorized signed w0 T w p :
  unforged (sc_command_keys cfg) signed -> starting w0 -> daemon_reach (∅, w0) (T, w) -> typed_run w ->
  p ∈ pw_performed w -> derived p /\ authorized signed w p.
Proof.
  intros Hu HS HR HT Hp. destruct (iv_performed _ _ (daemon_sound _ _ _ HS HR) p Hp) as [D [acc J]].
  split; [done|]. destruct p as [tid command claims by_whom]. by eapply judged_authorized.
Qed.

(** * At most once *)

Lemma observed_clocks c t l : monotone_from t (cd_call <$> l) -> clocks_from t (observed c l).
Proof.
  revert t. induction l as [|x l IH]; intros t; simpl; [done|].
  intros [N M]. specialize (IH _ M). by destruct (call_clock (cd_call x)).
Qed.

Lemma grants_executions c retry l : count (is_grant c retry) l = executions retry (observed c l).
Proof.
  induction l as [|x l IH]; [done|]. unfold count, executions in *. simpl. unfold is_grant at 1.
  destruct (event_of c (called_op x) (cd_result x)) as [[r e| | |]|]; try done.
  destruct (Bool.eqb r retry); simpl; by rewrite IH.
Qed.

(** C2. A privileged operation of the adapter is started at most once for each
    command and delivery mode, by all handlers together, as long as the clock
    read by the store's calls does not go back and the Controller signs a
    command with one expiry; a retry of an effect that cannot be looked up on
    the host (a session, ban or reload command, or any command of the legacy
    protocol) is never started. *)
Theorem privileged_operation_at_most_once signed w0 T w t c expires retry :
  unforged (sc_command_keys cfg) signed -> starting w0 -> daemon_reach (∅, w0) (T, w) -> typed_run w ->
  monotone_from t (cd_call <$> pw_calls w) ->
  (forall claims, signed (SCommand claims) -> cl_command_id claims = c -> cl_expires_at_seconds claims = expires) ->
  (count (is_start c retry) (pw_performed w) <= 1)%nat
  /\ forall p, p ∈ pw_performed w -> is_start c true p = true ->
       fixed_host_effect (pf_command p) = false
       /\ env_protocol_version (pf_command p) <> LEGACY_COMMAND_PROTOCOL_VERSION.
Proof.
  intros Hu HS HR HT HM HE. pose proof (daemon_sound _ _ _ HS HR) as HI. split.
  - transitivity (count (is_grant c retry) (pw_calls w)).
    { apply (count_le _ _ pf_tid cd_tid). intros tid. apply (iv_count _ _ HI). }
    rewrite grants_executions.
    assert (Forall (fun x => event_expires expires (snd x)) (observed c (pw_calls w))) as V.
    { apply Forall_fmap, Forall_forall. intros x Hx. apply event_of_expires.
      pose proof (iv_calls _ _ HI x Hx) as C. unfold called_ok in C. unfold op_expires.
      assert (forall tid command claims accepted, judged_as cfg w tid (ValidExecute command claims accepted) ->
        cl_command_id claims = c -> cl_expires_at_seconds claims = expires) as HX.
      { intros tid command claims accepted J. apply HE.
        apply (judged_authorized signed w tid command claims accepted (ByAdapter AServiceStatus) Hu HT J). }
      destruct (called_op x); try done.
      - destruct C as (cmd & cl & acc & b & J & _ & ->). simpl. eauto.
      - destruct C as (cmd & cl & acc & b & r & J & _ & -> & _). simpl. eauto. }
    pose proof (phase_run_budget expires t _ _ _ retry (iv_phase _ _ HI c) I V (observed_clocks _ _ _ HM)) as B.
    simpl in B. destruct (t <? expires); lia.
  - intros p Hp Hst. destruct (iv_performed _ _ HI p Hp) as [D _]. unfold is_start, by_adapter in Hst.
    unfold derived in D. destruct (pf_by p); [|done]. destruct D as [_ D]. unfold repeatable in D.
    rewrite !andb_true_iff in Hst. destruct Hst as [_ R]. apply eqb_prop in R. rewrite R in D.
    apply negb_true_iff, orb_false_iff in D as [D1 D2%bool_decide_eq_false]. done.
Qed.

(** * Receipts *)

(** The receipt speaks of this node, this command and exactly this result. *)
Definition attests (c : bytes) (response : PrivdResponse) : Prop :=
  exists proof receipt value result,
    pr_privileged_result_proof response = Some proof /\ pr_result response = Some value
    /\ verify_receipt proof (verifying_key (sc_attestation_key cfg)) = Ok receipt
    /\ prr_node_id receipt = sc_node_id cfg /\ prr_command_id receipt = c
    /\ exact_result_bytes value = Some result /\ prr_result_bytes_sha256 receipt = sha256 result
    /\ prr_terminal_state receipt = match value with ResError _ => 2 | _ => 1 end.

Lemma built_receipt command claims accepted binding value clock proof :
  build_result_proof cfg command claims accepted binding value clock = Some proof ->
  exists completed result receipt, clock = Some completed /\ exact_result_bytes value = Some result
    /\ sign_receipt receipt (sc_attestation_key cfg) = Ok proof
    /\ prr_node_id receipt = sc_node_id cfg /\ prr_command_id receipt = cl_command_id claims
    /\ prr_result_bytes_sha256 receipt = sha256 result
    /\ prr_terminal_state receipt = match value with ResError _ => 2 | _ => 1 end
    /\ prr_accepted_at receipt = Some accepted
    /\ prr_completed_at receipt = Some (mkTimestamp (as_secs completed) (subsec_nanos completed)).
Proof.
  unfold build_result_proof, mbind, option_bind. cbv zeta. intros E0.
  repeat match type of E0 with
  | match ?o with Some _ => _ | None => _ end = Some _ => let x := fresh "x" in let Ex := fresh "Ex" in
      destruct o as [x|] eqn:Ex; [|discriminate E0]
  end.
  destruct (sign_receipt _ _) as [p|] eqn:ES; [|discriminate E0]. injection E0 as ->.
  eexists _, _, _. split_and!; [reflexivity|reflexivity|exact ES|reflexivity..].
Qed.

Lemma built_proof command claims accepted binding value clock proof :
  build_result_proof cfg command claims accepted binding value clock = Some proof ->
  attests (cl_command_id claims) (mkPrivdResponse [] (Some proof) (Some value)).
Proof.
  intros (completed & result & receipt & _ & E1 & ES & E2 & E3 & E4 & E5 & _)%built_receipt.
  apply signed_receipt in ES as [_ V]. by exists proof, receipt, value, result.
Qed.

Lemma attested_attests w c r id : attested cfg w c r -> attests c (with_request_id id r).
Proof.
  intros (tid & command & claims & accepted & binding & value & clock & proof & _ & <- & _ & HB & ->).
  destruct (built_proof _ _ _ _ _ _ _ HB) as (p & rec & v & b & H). by exists p, rec, v, b.
Qed.

Lemma answered_attests w c r id : all_representable w -> answered cfg w c r ->
  plain_error (with_request_id id r) \/ attests c (with_request_id id r).
Proof. intros HR [[N E]|H]; [by left|right]. by eapply attested_attests, H. Qed.

(** C3. The daemon claims nothing it cannot prove: in every run in which the
    recorded responses survive their encoding, each response sent to an
    execution request is a plain error without a receipt, or carries a receipt
    that verifies under the daemon's key, names this node and the command of
    the request, covers exactly the bytes of the result, and calls it
    succeeded only when it is not an error.  Every other response carries such
    a receipt or none, and only a reconciliation can have one. *)
Theorem execution_answers_attested w0 T w s :
  starting w0 -> daemon_reach (∅, w0) (T, w) -> all_representable w -> s ∈ pw_sent w ->
  exists clock, mkJudged (sn_tid s) (sn_request s) clock ∈ pw_judged w
    /\ match validate_request cfg (sn_request s) clock with
       | Ok (_, ValidExecute _ claims _) =>
           plain_error (sn_response s) \/ attests (cl_command_id claims) (sn_response s)
       | Ok (_, ValidReconcile _ claims) =>
           pr_privileged_result_proof (sn_response s) = None \/ attests (cl_command_id claims) (sn_response s)
       | _ => pr_privileged_result_proof (sn_response s) = None
       end.
Proof.
  intros HS HR HP Hs. destruct (iv_sent _ _ (daemon_sound _ _ _ HS HR) s Hs) as (clock & HJ & HA).
  exists clock. split; [done|]. unfold answer_ok in HA.
  destruct (validate_request cfg (sn_request s) clock) as [[remaining []]|]; try done.
  - destruct HA as (r & A & ->). by eapply answered_attests.
  - destruct HA as (r & -> & [N|A]); [by left|right]. by eapply attested_attests, A.
Qed.

(** A journal acceptance time ahead of the daemon's clock is admitted by
    [validate_request], up to 300 seconds, but no result of such an execution
    can be attested before the clock has reached it: the receipt demands that
    acceptance precede completion.  The operation has been performed by then,
    and its record stays unfinished. *)
Theorem future_acceptance_unattested command claims accepted binding value completed :
  as_secs completed < ts_seconds accepted ->
  build_result_proof cfg command claims accepted binding value (Some completed) = None.
Proof.
  intros L. destruct (build_result_proof _ _ _ _ _ _ _) as [proof|] eqn:E; [|done]. exfalso.
  apply built_receipt in E as (d & result & receipt & [= <-] & _ & ES & _ & _ & _ & _ & E1 & E2).
  apply signed_receipt in ES as [V _]. apply receipt_times in V as (a & d & A & D & V).
  rewrite E1 in A. rewrite E2 in D. injection A as <-. injection D as <-. simpl in V. lia.
Qed.

(** * Requests without authority *)

Lemma unsigned_reads request clock remaining v : validate_request cfg request clock = Ok (remaining, v) ->
  pq_authorization_command request = None ->
  match pq_operation request with Some (ReqArtifactRead _) | Some (ReqArtifactConsume _) => false | _ => true end = true ->
  v = ValidRead.
Proof.
  unfold validate_request. intros E HN HO. rewrite HN in E. invert_ok E. unfold validate_unsigned in Hstep1.
  destruct (bool_decide (pq_accepted_at request <> None)); [done|].
  destruct (bool_decide (_ <> ModeUnspecified)); [done|].
  destruct (pq_operation request) as [[]|]; try done; congruence.
Qed.

(** What a request that the daemon merely reports on may touch: nothing. *)
Definition untouched (w w' : World) : Prop :=
  pw_store w' = pw_store w /\ pw_host w' = pw_host w /\ pw_disk w' = pw_disk w
  /\ pw_calls w' = pw_calls w /\ pw_performed w' = pw_performed w.

#[local] Hint Extern 0 (stays _ (pret _)) => exact I : core.
#[local] Hint Extern 0 (stays _ (Done _)) => exact I : core.

Lemma stays_awaiting {S T C D E A} (get : T -> S) (set : S -> T -> T) (pick : D -> C) cut
  (P : S -> S -> Prop) (Q : T -> T -> Prop) (m : Prog S C E A) :
  (forall t, Q t t) -> (forall t s, P (get t) s -> Q t (set s t)) -> stays P m ->
  stays Q (awaiting get set pick cut m).
Proof.
  intros HQ HPQ. induction m as [r|B a k IH]; simpl; [done|]. intros Hm tid c t b t' E0.
  destruct (cut c); [by injection E0 as <- <-|].
  destruct (a tid (pick c) (get t)) as [[b' s']|] eqn:Ea; [|done]. injection E0 as <- <-.
  destruct (Hm _ _ _ _ _ Ea) as [HP HB]. split; [by apply HPQ|by apply IH].
Qed.

Lemma stays_report name op : reporting op = true -> stays untouched (report name op).
Proof.
  intros H. apply stays_bind; [|done]. eapply stays_awaiting; [done| |by apply adapter_reports].
  intros w s ->. done.
Qed.

Lemma read_only_stays {E A} (m : Fs E A) : read_only m -> stays (fun d d' => d' = d) m.
Proof.
  induction m as [r|B a k IH]; simpl; [done|]. intros [H1 H2] tid c d b d' E0.
  split; [by eapply H1|by apply IH].
Qed.

Lemma stays_clock : stays untouched read_clock.
Proof. intros tid c w b w' E0. by injection E0 as <- <-. Qed.

Lemma stays_results results : stays untouched (report_results cfg results).
Proof.
  induction results as [|r rest IH]; [done|]. cbn [report_results].
  apply (stays_bind untouched read_clock); [apply stays_clock|]. intros clock.
  destruct (report_result cfg r clock); [|done]. by apply stays_bind.
Qed.

Lemma stays_list : stays untouched (list_upgrade_results cfg).
Proof.
  apply stays_bind.
  - eapply stays_awaiting; [done| |apply read_only_stays, reads_results]. by intros w s ->.
  - intros [results|e]; [|done]. apply stays_bind; [apply stays_results|done].
Qed.

Lemma stays_execute_read operation : stays untouched (execute_read cfg operation).
Proof.
  destruct operation as [[]|]; try done; try (by apply stays_report).
  apply stays_bind; [apply stays_list|done].
Qed.

(** A connection without a command or an artifact grant cannot change
    anything: whatever the request asks for, no step of its handling touches
    the effect store, the host, the upgrade records, or starts an operation,
    whether it is served, refused or cut off. *)
Theorem unsigned_request_changes_nothing request :
  pq_authorization_command request = None ->
  match pq_operation request with Some (ReqArtifactRead _) | Some (ReqArtifactConsume _) => false | _ => true end = true ->
  stays untouched (dispatch_attested cfg store_key request).
Proof.
  intros HN HO. apply stays_bind; [|intros clock].
  { intros tid c w b w' E0. by injection E0 as <- <-. }
  destruct (validate_request cfg request clock) as [[remaining v]|failure] eqn:EV; [|done].
  apply unsigned_reads in EV; [|done|done]. subst v. apply stays_bind; [|done].
  apply stays_then; [apply stays_then; [apply stays_execute_read|done]|]. by intros [[]|].
Qed.
End Theorems.
