(* ===== verification/PrivdWitnesses.v ===== *)
(** A concrete run of the privileged daemon: a reload command is executed and
    attested, its redelivery is answered from the record. *)

From stdpp Require Import base list gmap numbers countable strings relations.
From Stdlib Require Import ZArith Lia Bool Strings.Byte.
From S2P Require Import Prelude Bytes Text Contracts ConfigProfile Authorization.
From S2P Require Import CommandAuthorization TranscriptFacts SignedAuthority Executor.
From S2P Require Import EffectRecords EffectStore EffectMachine EffectTheorems EffectWitnesses.
From S2P Require Import Concurrency Files Utf8 UpgradeRecords Upgrader UpgradeRunner Attestation AttestationTheorems.
From S2P Require Import UpgradeTheorems UpgradeWitnesses.
From S2P Require Import PrivdProtocol PrivdAuthority Privd PrivdFacts PrivdTheorems.

Local Open Scope Z_scope.
Local Open Scope prog_scope.

(** * What the Controller signed *)

(** In place of the digest: the last 32 bytes. *)
Definition last_bytes (b : bytes) : bytes := drop (length b) (replicate 32 x00 ++ b).

Lemma last_bytes_length b : length (last_bytes b) = 32%nat.
Proof. unfold last_bytes. rewrite length_drop, length_app, length_replicate. lia. Qed.

Definition reload_preimage : bytes :=
  str "ocservia.command.semantic-hash.v2" ++ [x00] ++ v7 3 ++ be 8 8 ++ be 4 105.

Definition reload_fence_carrier : ConnectionFenceV2 :=
  mkConnectionFenceV2 1 (str "key") (be 16 1) (v7 3) (be 32 3) (be 16 4) 5 6 (be 16 7) 8
    [str "ocserv.service.reload"] (Some (mkTimestamp 1040 0)) (Some (mkTimestamp 1000 0))
    (Some (mkTimestamp 1050 0)) [].

Definition reload_binding_carrier : FenceBindingV2 :=
  mkFenceBindingV2 1 (str "key") 1 (v7 1) (be 16 1) (v7 3) (be 32 3) (be 16 4) 5 6 (be 16 7) 8
    (str "ocserv.service.reload") (Some (mkTimestamp 1000 0)) (Some (mkTimestamp 1045 0)) [].

Definition reload_envelope : CommandEnvelope :=
  mkCommandEnvelope (str "1.2") [] (v7 1) (v7 2) (v7 3) 0
    (Some (mkTimestamp 1000 0)) (Some (mkTimestamp 1060 0)) 8 [] (str "operator") []
    1 2 (last_bytes reload_preimage) (v7 4) (str "service.reload") (str "ocserv.service.reload") [] []
    (Some (mkCommandAuthorizationProof 1 (str "key") [])) (Some reload_fence_carrier)
    (Some reload_binding_carrier) (Some PServiceReload).

Definition reload_claims : CommandAuthorizationV1 :=
  match claims_from_envelope_v1 reload_envelope with
  | Ok c => c
  | Err _ => mkCommandAuthorizationV1 0 [] [] [] [] [] [] [] [] [] None None 0 0 [] 0 0 0 0 0 0
  end.

Definition reload_fence : ConnectionFenceClaimsV2 :=
  match connection_fence_claims_v2 reload_fence_carrier with Ok c => c | Err _ => sample_fence end.
Definition reload_binding : FenceBindingClaimsV2 :=
  match fence_binding_claims_v2 reload_binding_carrier with Ok c => c | Err _ => sample_binding end.

Definition reload_statements : list Statement :=
  [SCommand reload_claims; SFence reload_fence; SBinding reload_binding].

Definition reload_messages : list bytes := message_of <$> reload_statements.

#[local] Instance daemon_crypto : Crypto :=
  {| VerifyingKey := bool; Signature := bytes; key_as_bytes := fun k => if k then [x01] else [x00];
     signature_from_slice := Some;
     verify_strict := fun k m s => if k then bool_decide (m = s) else bool_decide (m ∈ reload_messages);
     sha256 := last_bytes; hex_encode := lower_hex_string;
     sha256_length := last_bytes_length; hex_encode_inj := lower_hex_string_inj |}.
#[local] Instance daemon_signer : Signer :=
  {| SigningKey := unit; verifying_key := fun _ : unit => true : VerifyingKey; sign := fun _ m => m;
     verifying_key_from_bytes := root_key_from_bytes;
     sign_verifies := root_sign_verifies []; from_bytes_as_bytes := root_key_bytes |}.
#[local] Instance daemon_text : RecordText := plain_text daemon_crypto eq_refl.
#[local] Existing Instance up_platform.
#[local] Existing Instance up_host.

Definition daemon_config : ServerConfig :=
  mkServerConfig _ _ 1000 (v7 3) (be 32 3) (mkKeyring {[ str "key" := false ]}) tt up_scheduler.

Lemma reload_envelope_wf : wf_envelope reload_envelope.
Proof. wf_sample. Qed.

Lemma reload_unforged : unforged (sc_command_keys daemon_config) (fun st => st ∈ reload_statements).
Proof.
  intros id key m s K V. cbn [sc_command_keys daemon_config keys] in K.
  apply lookup_singleton_Some in K as [_ <-]. apply bool_decide_eq_true in V.
  unfold reload_messages in V. apply list_elem_of_fmap in V as (st & -> & Hst). exists st. split; [done|].
  assert (Forall (fun st => wf_statement st /\ statement_bytes st = Ok (message_of st)) reload_statements) as F.
  { repeat constructor; try (by vm_compute); try (by wf_sample).
    all: apply (claims_from_envelope_wf reload_envelope); [apply reload_envelope_wf|by vm_compute]. }
  rewrite Forall_forall in F. by apply F.
Qed.

(** * A host and a wire *)

(** Only the reload works; it counts itself. *)
#[local] Instance reload_ops : AdapterOps.
Proof.
  refine {| HostState := Z;
    adapter := fun op => match op return Prog (EffectDb * Z) nat AdapterError (op_result op) with
      | AServiceReload => act (fun _ _ s => Some (Ok true, (s.1, s.2 + 1)))
      | _ => Done (Err Unavailable)
      end;
    io_text := fun _ => str "input/output error" |}.
  - intros []; try exact I. intros tid c s b s' [= <- <-]. split; [done|exact I].
  - intros []; try exact (fun _ => I). discriminate.
Defined.

#[local] Instance Timestamp_eq_dec : EqDecision Timestamp.
Proof. solve_decision. Defined.
#[local] Instance receipt_binding_eq_dec : EqDecision PrivdCertificateReceiptBindingV1.
Proof. solve_decision. Defined.
#[local] Instance receipt_eq_dec : EqDecision PrivdResultReceiptV1.
Proof. solve_decision. Defined.
#[local] Instance proof_eq_dec : EqDecision PrivilegedResultProof.
Proof. solve_decision. Defined.

Definition second (n : Z) : Z := n * NANOS_PER_SECOND.

(** The encoding of the one result this host produces. *)
Definition mutation_bytes (r : Result) : bytes := match r with ResMutation true => [x01] | _ => [x00] end.
Definition toy_wire (decoded : option PrivdResponse) (encode : PrivdResponse -> bytes) : ResponseWire :=
  {| encode_response := encode; decode_response := fun b => if bool_decide (b = [x01]) then decoded else None;
     encode_result := mutation_bytes;
     representable := fun r => encode r = [x01] /\ decoded = Some r;
     decode_encode := ltac:(intros r [E1 E2]; cbv beta; rewrite E1, E2; reflexivity) |}.

Definition reload_proof : option PrivilegedResultProof :=
  build_result_proof (wire := toy_wire None (fun _ => [])) daemon_config reload_envelope
    reload_claims (mkTimestamp 1001 0)
    (mkCommandEffectBinding (str "service_reload") (str "ocserv.service") 8) (ResMutation true) (Some (second 1003)).

Definition reload_response : option PrivdResponse :=
  match reload_proof with
  | Some proof => Some (mkPrivdResponse [] (Some proof) (Some (ResMutation true)))
  | None => None
  end.

Definition encode_reload (r : PrivdResponse) : bytes :=
  match pr_request_id r, pr_result r with
  | [], Some (ResMutation true) => if bool_decide (pr_privileged_result_proof r = reload_proof) then [x01] else [x00]
  | _, _ => [x00]
  end.

#[local] Instance reload_wire : ResponseWire := toy_wire reload_response encode_reload.

Example reload_attested : bool_decide (is_Some reload_proof) = true.
Proof. vm_compute. reflexivity. Qed.

(** * A run *)

Definition reload_request (deadline : Z) (accepted : Z) : PrivdRequest :=
  mkPrivdRequest (v7 9) deadline (Some (mkTimestamp accepted 0)) (Some reload_envelope) 1 None.

(** The toy transport: the frame [x01] carries the request. *)
Definition decode_with (request : PrivdRequest) (b : bytes) : option PrivdRequest :=
  if bool_decide (b = [x01]) then Some request else None.
Definition reload_client (n : Z) : Prog World Pick ClientError unit :=
  handle_client daemon_config store_key 1000 (decode_with (reload_request (1000 * n + 20000) 1001)) (be 4 1 ++ [x01]).

Definition at_second (n : Z) : Pick := mkPick (Some (second n)) [] false 0 (good 0).
Definition first_world : World := mkWorld empty_store (0 : HostState) up_disk [] [] [] [].

Definition served (tid : nat) (n : Z) (w : World) : option (result ClientError unit) * World :=
  run_alone tid (reload_client n) (at_second <$> [n; n; n + 1; n + 1; n + 1; n + 2; n + 2; n + 3; n + 3]) w.

Definition executed_world : World := hang_up 1 (snd (served 1 1001 first_world)).
Definition replayed_world : World := hang_up 2 (snd (served 2 1010 executed_world)).

Definition reload_performed : Performed := mkPerformed 1 reload_envelope reload_claims (ByAdapter AServiceReload).

Definition answer_of (s : Sent) : option Result := pr_result (sn_response s).
Definition clock_of (x : Called) : option Z := call_clock (cd_call x).
Definition recorded_bytes (x : Called) : option bytes :=
  match called_op x with OpCompleteAuthorized _ b => Some b | _ => None end.
Definition judgement (j : Judged) : option bytes :=
  match validate_request daemon_config (jd_request j) (jd_clock j) with
  | Ok (_, ValidExecute _ claims _) => Some (cl_command_id claims)
  | _ => None
  end.

(** What a run left behind. *)
Definition summary (w : World) :=
  (pw_host w, pw_performed w, jd_request <$> pw_judged w, judgement <$> pw_judged w, clock_of <$> pw_calls w,
   recorded_bytes <$> pw_calls w, answer_of <$> pw_sent w).

(** The two connections, one after the other. *)
Definition both_served {A} (observe : option (result ClientError unit) -> option (result ClientError unit) -> World -> A) : A :=
  (fun first => (fun second => observe first.1 second.1 (hang_up 2 second.2)) (served 2 1010 (hang_up 1 first.2)))
    (served 1 1001 first_world).

(** The command is executed once and its redelivery answered from the record. *)
Lemma replayed_run :
  both_served (fun first second w => (first, second, summary w))
  = (Some (Ok tt), Some (Ok tt), (1, [reload_performed],
       [reload_request 1021000 1001; reload_request 1030000 1001], [Some (v7 1); Some (v7 1)],
       [Some 1002; Some 1003; Some 1011], [None; Some [x01]; None],
       [Some (ResMutation true); Some (ResMutation true)])).
Proof. vm_compute. reflexivity. Qed.

Lemma replayed_facts :
  fst (served 1 1001 first_world) = Some (Ok tt) /\ fst (served 2 1010 executed_world) = Some (Ok tt)
  /\ pw_performed replayed_world = [reload_performed]
  /\ jd_request <$> pw_judged replayed_world = [reload_request 1021000 1001; reload_request 1030000 1001]
  /\ judgement <$> pw_judged replayed_world = [Some (v7 1); Some (v7 1)]
  /\ clock_of <$> pw_calls replayed_world = [Some 1002; Some 1003; Some 1011]
  /\ recorded_bytes <$> pw_calls replayed_world = [None; Some [x01]; None]
  /\ answer_of <$> pw_sent replayed_world = [Some (ResMutation true); Some (ResMutation true)].
Proof.
  pose proof replayed_run as R. unfold both_served, summary in R. cbv beta in R.
  fold executed_world in R. fold replayed_world in R.
  rewrite !pair_eq in R. destruct R as [[R1 R2] [[[[[[_ R3] R4] R5] R6] R7] R8]].
  exact (conj R1 (conj R2 (conj R3 (conj R4 (conj R5 (conj R6 (conj R7 R8))))))).
Qed.

Lemma first_starting : starting first_world.
Proof. by split. Qed.

Lemma replayed_reach : daemon_reach daemon_config store_key (∅, first_world) (∅, replayed_world).
Proof.
  destruct replayed_facts as (R1 & R2 & _). unfold daemon_reach, pool_reach. etransitivity.
  - apply (run_alone_reach (fun _ => True) hang_up (serving daemon_config store_key) (reload_client 1001) ∅ 1
      (at_second <$> [1001; 1001; 1002; 1002; 1002; 1003; 1003; 1004; 1004]) first_world (Ok tt)
      (snd (served 1 1001 first_world)) (lookup_empty (M := gmap nat) 1%nat)).
    + constructor.
    + by apply Forall_forall.
    + etransitivity; [apply surjective_pairing|]. apply f_equal2; [exact R1|reflexivity].
  - apply (run_alone_reach (fun _ => True) hang_up (serving daemon_config store_key) (reload_client 1010) ∅ 2
      (at_second <$> [1010; 1010; 1011; 1011; 1011; 1012; 1012; 1013; 1013]) executed_world (Ok tt)
      (snd (served 2 1010 executed_world)) (lookup_empty (M := gmap nat) 2%nat)).
    + constructor.
    + by apply Forall_forall.
    + etransitivity; [apply surjective_pairing|]. apply f_equal2; [exact R2|reflexivity].
Qed.

Lemma reload_typed deadline accepted : typed_request (reload_request deadline accepted).
Proof.
  intros command [= <-]. split; [apply reload_envelope_wf|]. split.
  - intros f [= <-]. wf_sample.
  - intros b [= <-]. wf_sample.
Qed.

Lemma replayed_typed : typed_run replayed_world.
Proof.
  intros j Hj. destruct replayed_facts as (_ & _ & _ & E & _).
  apply (list_elem_of_fmap_2 jd_request) in Hj. rewrite E in Hj.
  apply elem_of_cons in Hj as [->|Hj%list_elem_of_singleton]; [|rewrite Hj]; apply reload_typed.
Qed.

Lemma privileged_operation_authorized_witness :
  derived reload_performed
  /\ authorized daemon_config (fun st => st ∈ reload_statements) replayed_world reload_performed.
Proof.
  apply (privileged_operation_authorized daemon_config store_key (fun st => st ∈ reload_statements) first_world ∅
    replayed_world reload_performed reload_unforged first_starting replayed_reach replayed_typed).
  destruct replayed_facts as (_ & _ & E & _). rewrite E. by apply list_elem_of_singleton.
Defined.

Lemma privileged_operation_at_most_once_witness :
  count (is_start (v7 1) false) (pw_performed replayed_world) = 1%nat
  /\ (count (is_start (v7 1) false) (pw_performed replayed_world) <= 1)%nat.
Proof.
  destruct replayed_facts as (_ & _ & EP & _ & _ & EC & _).
  split; [rewrite EP; vm_compute; reflexivity|].
  apply (privileged_operation_at_most_once daemon_config store_key (fun st => st ∈ reload_statements) first_world ∅
    replayed_world 0 (v7 1) 1060 false reload_unforged first_starting replayed_reach replayed_typed).
  - clear EP. destruct (pw_calls replayed_world) as [|x1 [|x2 [|x3 [|]]]]; try discriminate EC.
    injection EC as E1 E2 E3. unfold clock_of in *. simpl. rewrite E1, E2, E3. simpl. lia.
  - clear EP EC. intros claims H _.
    repeat (apply elem_of_cons in H as [H|H]; [first [discriminate H|injection H as ->; vm_compute; reflexivity]|]).
    destruct (not_elem_of_nil _ H).
Defined.

Lemma replayed_representable : all_representable replayed_world.
Proof.
  intros x id r Hx E. destruct replayed_facts as (_ & _ & _ & _ & _ & _ & F & _).
  apply (list_elem_of_fmap_2 recorded_bytes) in Hx. rewrite F in Hx. clear F.
  unfold recorded_bytes in Hx. rewrite E in Hx. clear E.
  apply elem_of_cons in Hx as [Hx|[Hx|[Hx|Hx%not_elem_of_nil]%elem_of_cons]%elem_of_cons];
    [discriminate Hx| |discriminate Hx|destruct Hx].
  injection Hx as F'. change (encode_reload r = [x01]) in F'. split; [exact F'|].
  destruct r as [rid proof value]. unfold encode_reload, reload_response in *.
  cbn [pr_request_id pr_result pr_privileged_result_proof] in *.
  destruct rid; [|discriminate F']. destruct value as [[]|]; try discriminate F'.
  destruct applied; [|discriminate F']. destruct (bool_decide (proof = reload_proof)) eqn:D; [|discriminate F'].
  apply bool_decide_eq_true in D. subst proof. pose proof reload_attested as A.
  apply bool_decide_eq_true in A as [pf A]. by rewrite A.
Qed.

Lemma replayed_sent :
  exists s, s ∈ pw_sent replayed_world /\ pr_result (sn_response s) = Some (ResMutation true).
Proof.
  destruct replayed_facts as (_ & _ & _ & _ & _ & _ & _ & R).
  destruct (pw_sent replayed_world) as [|s rest]; [discriminate R|]. injection R as R _. exists s. by split; [left|].
Qed.

Lemma replayed_judged j : j ∈ pw_judged replayed_world ->
  exists remaining command claims accepted, cl_command_id claims = v7 1
    /\ validate_request daemon_config (jd_request j) (jd_clock j) = Ok (remaining, ValidExecute command claims accepted).
Proof.
  intros Hj. destruct replayed_facts as (_ & _ & _ & _ & F & _).
  apply (list_elem_of_fmap_2 judgement) in Hj. rewrite F in Hj. clear F.
  assert (judgement j = Some (v7 1)) as HJ.
  { by apply elem_of_cons in Hj as [?|?%list_elem_of_singleton]. }
  clear Hj. unfold judgement in HJ.
  destruct (validate_request daemon_config (jd_request j) (jd_clock j)) as [[rem []]|]; try discriminate HJ.
  injection HJ as HJ. eauto 10.
Qed.

Lemma execution_answers_attested_witness :
  exists s, s ∈ pw_sent replayed_world /\ pr_result (sn_response s) = Some (ResMutation true)
    /\ attests daemon_config (v7 1) (sn_response s).
Proof.
  destruct replayed_sent as (s & Hs & R). exists s. split; [exact Hs|split; [exact R|]].
  destruct (execution_answers_attested daemon_config store_key first_world ∅ replayed_world s first_starting
    replayed_reach replayed_representable Hs) as (clock & HJ & H).
  destruct (replayed_judged _ HJ) as (rem & command & claims & accepted & <- & E). cbn [jd_request jd_clock] in E.
  rewrite E in H. destruct H as [[_ [e X]]|H]; [|exact H]. rewrite R in X. discriminate X.
Defined.

(** A request accepted five minutes ahead is judged executable. *)
Lemma future_acceptance_unattested_witness :
  validate_request daemon_config (reload_request 1021000 1301) (Some (second 1001))
    = Ok (20000, ValidExecute reload_envelope reload_claims (mkTimestamp 1301 0))
  /\ build_result_proof daemon_config reload_envelope reload_claims (mkTimestamp 1301 0)
       (mkCommandEffectBinding (str "service_reload") (str "ocserv.service") 8) (ResMutation true)
       (Some (second 1003)) = None.
Proof.
  split; [vm_compute; reflexivity|]. apply future_acceptance_unattested. vm_compute. reflexivity.
Defined.

Lemma unsigned_request_changes_nothing_witness :
  stays untouched (dispatch_attested daemon_config store_key
    (mkPrivdRequest (v7 9) 1021000 None None 0 (Some ReqServiceStatus))).
Proof. apply unsigned_request_changes_nothing; reflexivity. Defined.
