(* ===== verification/AdapterText.v ===== *)
(** The texts the adapter of [rust/crates/ocserv-adapter/src/lib.rs] reads and
    writes: configuration candidates and their redacted difference, the
    profile and the text of a complete configuration ([complete_config.rs]), the
    ocpasswd user file and the rewriting of its groups, and the output of
    [systemctl], [ocserv] and [occtl].  The JSON parser is [SerdeJson]. *)

From stdpp Require Import base list gmap numbers sorting strings.
From Stdlib Require Import ZArith Lia Bool Strings.Byte.
From S2P Require Import Prelude Bytes Text Contracts Executor Utf8 EffectRecords PrivdProtocol.

Local Open Scope Z_scope.

Definition MAX_CONFIG_PLAN_BYTES : Z := 256 * 1024.
Definition MAX_USER_FILE_BYTES : Z := 16 * 1024 * 1024.

(** * Substrings *)

(** [str::split_once] and [str::contains] of a string. *)
Fixpoint split_once_str (sep s : bytes) : option (bytes * bytes) :=
  match strip_prefix sep s with
  | Some after => Some ([], after)
  | None =>
      match s with
      | [] => None
      | b :: r =>
          match split_once_str sep r with
          | Some (before, after) => Some (b :: before, after)
          | None => None
          end
      end
  end.

Definition contains_str (sep s : bytes) : bool := bool_decide (split_once_str sep s <> None).

Definition ends_with (suffix s : bytes) : bool := bool_decide (strip_suffix suffix s <> None).

(** [sort_by(|left, right| key(left).cmp(key(right)))] *)
Definition key_order {A} (key : A -> bytes) (a b : A) : Prop := bytes_leb (key a) (key b) = true.

#[export] Instance key_order_dec {A} (key : A -> bytes) a b : Decision (key_order key a b).
Proof. unfold key_order. apply _. Defined.

Definition u64_saturating_add (a b : Z) : Z := Z.min u64_max (a + b).

(** * Configuration candidates *)

Definition CONFIG_DIRECTIVES : list bytes := str <$>
  ["auth"; "ca-cert"; "cert-user-oid"; "cookie-timeout"; "dns"; "ipv4-network"; "max-clients";
   "max-same-clients"; "route"; "server-cert"; "server-key"; "socket-file"; "tcp-port";
   "udp-port"]%string.

Definition CANDIDATE_HEADER : bytes := str "# generated by ocservia config-plan/v1".
Definition DIRECTIVE_SEPARATOR : bytes := str " = ".

Definition valid_label_byte (value : byte) : bool :=
  is_ascii_alphanumeric value || bool_decide (value = x2e) || bool_decide (value = x5f)
  || bool_decide (value = x2d).
Definition valid_secret_key_byte (value : byte) : bool :=
  valid_label_byte value || bool_decide (value = x2f).

(** The provider of [${secret:provider:key}]. *)
Definition parse_secret_placeholder (value : bytes) : option bytes :=
  match strip_prefix (str "${secret:") value with
  | None => None
  | Some value =>
  match strip_suffix (str "}") value with
  | None => None
  | Some body =>
  match split_once x3a body with
  | None => None
  | Some (provider, key) =>
      if is_empty provider || is_empty key || contains_str (str "..") key
         || negb (forallb valid_label_byte provider) || negb (forallb valid_secret_key_byte key)
      then None else Some provider
  end end end.

Definition is_some {A} (o : option A) : bool := match o with Some _ => true | None => false end.

(** The conditions under which one directive is refused. *)
Definition directive_refused (name value : bytes) : bool :=
  contains_str (str "{{") value || contains_str (str "}}") value || contains_str (str "../") value
  || (contains_str (str "${") value && negb (is_some (parse_secret_placeholder value)))
  || (is_some (parse_secret_placeholder value)
      && negb (one_of name ["server-key"; "server-cert"; "ca-cert"]%string))
  || (one_of name ["server-key"; "server-cert"; "ca-cert"]%string
      && negb (is_some (parse_secret_placeholder value)))
  || (bool_decide (name = str "socket-file") && negb (bool_decide (value = str "/run/ocserv.socket")))
  || (bool_decide (name = str "auth")
      && negb (bool_decide (value = str "plain[passwd=/etc/ocserv/ocpasswd]"))).

(** The loop over the lines; the names already seen. *)
Fixpoint validate_directives (seen : list bytes) (ls : list bytes) : Adapt (list bytes) :=
  match ls with
  | [] => Ok seen
  | line :: rest =>
      let? (name, value) := ok_or (split_once_str DIRECTIVE_SEPARATOR line) InvalidRequest in
      if negb (bool_decide (name ∈ CONFIG_DIRECTIVES)) || bool_decide (name ∈ seen)
         || is_empty value || (4096 <? len value)
      then Err InvalidRequest
      else if directive_refused name value then Err InvalidRequest
      else validate_directives (name :: seen) rest
  end.

Definition validate_config_candidate (candidate : bytes) : Adapt unit :=
  if contains x0d candidate || contains x00 candidate || negb (ends_with [x0a] candidate)
  then Err InvalidRequest
  else match lines candidate with
  | [] => Err InvalidRequest
  | first :: rest =>
      if negb (bool_decide (first = CANDIDATE_HEADER)) then Err InvalidRequest
      else let? seen := validate_directives [] rest in
           if is_empty seen then Err InvalidRequest else Ok tt
  end.

(** [config_apply] takes no candidate with a secret reference. *)
Definition names_secret (candidate : bytes) : bool :=
  existsb (contains_str (str "${secret:")) (lines candidate).

Definition valid_dns_name (value : bytes) : bool :=
  negb (is_empty value) && (len value <=? 253)
  && negb (starts_with [x2e] value) && negb (ends_with [x2e] value)
  && forallb (fun label =>
       negb (is_empty label) && (len label <=? 63)
       && negb (starts_with [x2d] label) && negb (ends_with [x2d] label)
       && forallb (fun b => is_ascii_alphanumeric b || bool_decide (b = x2d)) label)
     (split_on x2e value).

(** The value of a directive as the diff shows it. *)
Definition safe_value (value : bytes) : bytes :=
  match parse_secret_placeholder value with
  | Some provider => str "<secret-ref:" ++ provider ++ str ">"
  | None => value
  end.

Fixpoint redacted_lines (ls : list bytes) : Adapt bytes :=
  match ls with
  | [] => Ok []
  | line :: rest =>
      if starts_with [x23] line then redacted_lines rest
      else
      let? (name, value) := ok_or (split_once_str DIRECTIVE_SEPARATOR line) InvalidRequest in
      let? others := redacted_lines rest in
      Ok (str "+ " ++ name ++ DIRECTIVE_SEPARATOR ++ safe_value value ++ [x0a] ++ others)
  end.

Definition REDACTED_CURRENT : bytes := str "- <current configuration redacted>" ++ [x0a].

Definition redacted_candidate_diff (candidate : bytes) : Adapt bytes :=
  let? body := redacted_lines (lines candidate) in
  let output := REDACTED_CURRENT ++ body in
  if MAX_CONFIG_PLAN_BYTES <? len output then Err OutputLimit else Ok output.

(** What the syntax check of ocserv is given: the directives that hold no
    secret reference, and whether one was left out. *)
Fixpoint parser_lines (ls : list bytes) : Adapt (bytes * bool) :=
  match ls with
  | [] => Ok ([], false)
  | line :: rest =>
      let? (_, value) := ok_or (split_once_str DIRECTIVE_SEPARATOR line) InvalidRequest in
      let? (others, unresolved) := parser_lines rest in
      if is_some (parse_secret_placeholder value) then Ok (others, true)
      else Ok (line ++ [x0a] ++ others, unresolved)
  end.

Definition parser_candidate (candidate : bytes) : Adapt (bytes * bool) :=
  let? (body, unresolved) := parser_lines (tail (lines candidate)) in
  Ok (CANDIDATE_HEADER ++ [x0a] ++ body, unresolved).

(** * The complete configuration ([complete_config.rs]) *)

(** Ocserv keeps these across a reload. *)
Definition STARTUP_BINDINGS : list bytes := str <$>
  ["auth"; "tcp-port"; "udp-port"; "run-as-user"; "run-as-group"; "socket-file"; "server-cert";
   "server-key"; "ca-cert"]%string.
Definition RELOADED_BINDINGS : list bytes := str <$>
  ["cookie-timeout"; "device"; "dns"; "ipv4-network"; "max-clients"; "max-same-clients"; "route";
   "use-occtl"]%string.

(** The lines that are read. *)
Definition profile_line (line : bytes) : bool := negb (is_empty line) && negb (starts_with [x23] line).

Fixpoint profile_entries (values : gmap bytes bytes) (ls : list bytes) : Adapt (gmap bytes bytes) :=
  match ls with
  | [] => Ok values
  | line :: rest =>
      let? (name, value) := ok_or (split_once_str DIRECTIVE_SEPARATOR line) InvalidResource in
      if negb (bool_decide (name ∈ STARTUP_BINDINGS)) && negb (bool_decide (name ∈ RELOADED_BINDINGS))
      then Err InvalidResource
      else if is_empty value || bool_decide (values !! name <> None) then Err InvalidResource
      else profile_entries (<[name := value]> values) rest
  end.

Definition profile_values (b : bytes) : Adapt (gmap bytes bytes) :=
  if negb (utf8_valid b) then Err InvalidResource
  else if contains x0d b || contains x00 b || (MAX_CONFIG_PLAN_BYTES <? len b) then Err InvalidResource
  else profile_entries ∅ (List.filter profile_line (trim <$> lines b)).

Definition validate_reload_bindings (current candidate : bytes) : Adapt unit :=
  let? current := profile_values current in
  let? candidate := profile_values candidate in
  if existsb (fun name => negb (bool_decide (current !! name = candidate !! name))) STARTUP_BINDINGS
  then Err InvalidResource else Ok tt.

Record TlsManifest := mkTlsManifest {
  tm_node_id : bytes; tm_secret_ref_id : bytes; tm_version : bytes; tm_certificate_sha256 : bytes;
  tm_spki_sha256 : bytes; tm_ca_sha256 : bytes }.

Definition COMPLETE_HEADER : bytes := str "# generated by ocservia complete-config/v1" ++ [x0a].
Definition FIXED_WORKER_CONFIG : bytes :=
  str "run-as-user = ocservia-vpn" ++ [x0a] ++ str "run-as-group = ocservia-vpn" ++ [x0a]
  ++ str "use-occtl = true" ++ [x0a].
Definition PROVIDER : bytes := str "node-local-tls-v1".

(** The text of a directive in the configuration and in what is shown of it. *)
Definition directive_texts (path_of : bytes -> Adapt bytes) (shown : bytes)
    (directive : CompleteConfigDirective) : Adapt (bytes * bytes) :=
  let? value := ok_or (ccd_value directive) InvalidRequest in
  match value with
  | Literal value =>
      Ok (if bool_decide (ccd_name directive = str "auth") then [x22] ++ value ++ [x22] else value, value)
  | Tls _ => let? p := path_of (ccd_name directive) in Ok (p, shown)
  end.

Definition config_line (name value : bytes) : bytes := name ++ DIRECTIVE_SEPARATOR ++ value ++ [x0a].

Fixpoint render_directives (path_of : bytes -> Adapt bytes) (shown : bytes)
    (directives : list CompleteConfigDirective) (materialized redacted : bytes) : Adapt (bytes * bytes) :=
  match directives with
  | [] => Ok (materialized, redacted)
  | directive :: rest =>
      let? (value, safe) := directive_texts path_of shown directive in
      render_directives path_of shown rest (materialized ++ config_line (ccd_name directive) value)
        (redacted ++ config_line (ccd_name directive) safe)
  end.

(** * The user file *)

Definition valid_key_id (value : bytes) : bool :=
  negb (is_empty value) && (len value <=? 128)
  && forallb (fun b => is_ascii_alphanumeric b || bool_decide (b = x5f) || bool_decide (b = x2e)
                       || bool_decide (b = x2d)) value.

Record SecretUserRecord := mkSecretUserRecord {
  sur_username : bytes; sur_groups : bytes; sur_hash : bytes }.

#[export] Instance SecretUserRecord_eq_dec : EqDecision SecretUserRecord.
Proof. solve_decision. Defined.

(** The groups a field names: [*] and [x] say that there is none. *)
Definition names_group (group : bytes) : bool :=
  negb (is_empty group) && negb (one_of group ["*"; "x"]%string).

Definition group_names (field : bytes) : list bytes := List.filter names_group (split_on x2c field).

(** The loop over the groups of one record. *)
Fixpoint count_groups (malformed : AdapterError) (groups : list bytes) (memberships : Z) : Adapt Z :=
  match groups with
  | [] => Ok memberships
  | group :: rest =>
      if is_ok (validate_name group) then
        let memberships := u64_saturating_add memberships 1 in
        if MAX_MANAGED_RESOURCES <? memberships then Err OutputLimit
        else count_groups malformed rest memberships
      else Err malformed
  end.

(** The records so far, how many memberships they hold, and the line that
    names each user. *)
Record UserScan := mkUserScan {
  us_records : list SecretUserRecord; us_memberships : Z; us_seen : gmap bytes Z }.

Definition malformed_line (reason : String.string) (line_number fields : Z) : AdapterError :=
  UserFileFormat (str reason) line_number fields None.

Definition scan_user_line (line_number : Z) (line : bytes) (s : UserScan) : Adapt UserScan :=
  let fields := len (split_on x3a line) in
  let malformed reason := malformed_line reason line_number fields in
  if bool_decide (len (us_records s) = MAX_MANAGED_RESOURCES) then Err OutputLimit
  else match split_on x3a line with
  | [username; groups; hash] =>
      if is_empty hash then Err (malformed "empty_hash"%string)
      else if negb (is_ok (validate_name username)) then Err (malformed "invalid_username"%string)
      else match us_seen s !! username with
      | Some first_line =>
          Err (UserFileFormat (str "duplicate_username") line_number fields (Some first_line))
      | None =>
          let? memberships :=
            count_groups (malformed "invalid_group"%string) (group_names groups) (us_memberships s) in
          Ok (mkUserScan (us_records s ++ [mkSecretUserRecord username groups hash]) memberships
                (<[username := line_number]> (us_seen s)))
      end
  | _ => Err (malformed "field_count"%string)
  end.

Fixpoint scan_user_lines (index : Z) (ls : list bytes) (s : UserScan) : Adapt UserScan :=
  match ls with
  | [] => Ok s
  | line :: rest =>
      if is_empty line then scan_user_lines (index + 1) rest s
      else let? s := scan_user_line (index + 1) line s in
           scan_user_lines (index + 1) rest s
  end.

Definition parse_secret_user_records (b : bytes) : Adapt (list SecretUserRecord) :=
  if MAX_USER_FILE_BYTES <? len b then Err OutputLimit
  else if negb (utf8_valid b) then Err (malformed_line "invalid_utf8"%string 0 0)
  else
    let? s := scan_user_lines 0 (lines b) (mkUserScan [] 0 ∅) in
    Ok (merge_sort (key_order sur_username) (us_records s)).

(** A hash that starts with [!] is a locked password. *)
Definition observed_user (record : SecretUserRecord) : ObservedUser :=
  mkObservedUser (sur_username record) (negb (starts_with [x21] (sur_hash record))).

Definition parse_user_file (b : bytes) : Adapt (list ObservedUser) :=
  let? records := parse_secret_user_records b in
  Ok (merge_sort (key_order ou_username) (observed_user <$> records)).

(** [grouped.entry(group).or_default().push(username)] for each group of each
    record, in file order. *)
Definition add_member (username : bytes) (grouped : gmap bytes (list bytes)) (group : bytes)
  : gmap bytes (list bytes) :=
  <[group := default [] (grouped !! group) ++ [username]]> grouped.

Definition group_members (records : list SecretUserRecord) : gmap bytes (list bytes) :=
  foldl (fun grouped record =>
           foldl (add_member (sur_username record)) grouped (group_names (sur_groups record)))
        ∅ records.

Definition parse_groups_from_user_file (b : bytes) : Adapt (list ObservedGroup) :=
  let? records := parse_secret_user_records b in
  Ok (merge_sort (key_order og_group_name)
        ((fun '(group_name, members) =>
            mkObservedGroup group_name (merge_sort (key_order id) members))
         <$> map_to_list (group_members records))).

Definition find_user_metadata (b username : bytes) : Adapt (option (bytes * bool)) :=
  let? records := parse_secret_user_records b in
  Ok ((fun record => (sur_groups record, starts_with [x21] (sur_hash record)))
      <$> List.find (fun record => bool_decide (sur_username record = username)) records).

Inductive SecretApplyMode := MustBeAbsent | MustExist.

#[export] Instance SecretApplyMode_eq_dec : EqDecision SecretApplyMode.
Proof. solve_decision. Defined.

Definition mutation_kind (mode : SecretApplyMode) : bytes :=
  match mode with
  | MustBeAbsent => str "user_create"
  | MustExist => str "user_password_rotate"
  end.

(** ** Rewriting one group *)

(** The members of a request, each a valid name above the one before. *)
Fixpoint increasing_names (previous : bytes) (members : list bytes) : Adapt unit :=
  match members with
  | [] => Ok tt
  | member :: rest =>
      let? _ := validate_name member in
      if bytes_leb member previous then Err InvalidRequest else increasing_names member rest
  end.

Definition validate_group_request (group_name : bytes) (members : list bytes) (desired_revision : Z)
  : Adapt unit :=
  let? _ := validate_name group_name in
  if (MAX_MANAGED_RESOURCES <? len members) || (desired_revision =? 0) then Err InvalidRequest
  else increasing_names [] members.

(** [Vec::dedup]: equal neighbours collapse. *)
Fixpoint dedup (l : list bytes) : list bytes :=
  match l with
  | a :: ((b :: _) as rest) => if bool_decide (a = b) then dedup rest else a :: dedup rest
  | _ => l
  end.

Definition rewritten_groups (group_name : bytes) (requested : list bytes) (record : SecretUserRecord)
  : list bytes :=
  let groups := List.filter (fun group => negb (bool_decide (group = group_name)))
                  (group_names (sur_groups record)) in
  let groups := if bool_decide (sur_username record ∈ requested) then groups ++ [group_name]
                else groups in
  dedup (merge_sort (key_order id) groups).

Definition group_field (groups : list bytes) : bytes :=
  if is_empty groups then str "*" else join x2c groups.

(** One record as a line of the file. *)
Definition user_line (record : SecretUserRecord) : bytes :=
  sur_username record ++ [x3a] ++ sur_groups record ++ [x3a] ++ sur_hash record ++ [x0a].

Definition rewrite_record (group_name : bytes) (requested : list bytes) (record : SecretUserRecord)
  : SecretUserRecord :=
  mkSecretUserRecord (sur_username record)
    (group_field (rewritten_groups group_name requested record)) (sur_hash record).

(** The part of [group_apply] that computes the new contents of the file. *)
Definition group_contents (group_name : bytes) (members : list bytes) (b : bytes) : Adapt bytes :=
  let? records := parse_secret_user_records b in
  if negb (forallb (fun member => bool_decide (member ∈ sur_username <$> records)) members)
  then Err InvalidRequest
  else
    let output := concat (user_line <$> (rewrite_record group_name members <$> records)) in
    let? _ := map_err (fun e => match e with OutputLimit => CapacityExceeded | other => other end)
                (parse_secret_user_records output) in
    Ok output.

(** * Output of the fixed commands *)

Definition utf8 (b : bytes) : Adapt bytes := if utf8_valid b then Ok b else Err MalformedOutput.

Fixpoint status_values (ls : list bytes) (values : gmap bytes bytes) : Adapt (gmap bytes bytes) :=
  match ls with
  | [] => Ok values
  | line :: rest =>
      if is_empty line then status_values rest values
      else
      let? (key, value) := ok_or (split_once x3d line) MalformedOutput in
      if is_some (values !! key) || (64 <? len value) then Err MalformedOutput
      else status_values rest (<[key := value]> values)
  end.

Definition required_value (values : gmap bytes bytes) (key : bytes) : Adapt bytes :=
  let? value := ok_or (values !! key) MalformedOutput in
  if is_empty value || negb (forallb (fun b => is_ascii_lowercase b || bool_decide (b = x2d)) value)
  then Err MalformedOutput else Ok value.

Definition parse_service_status (b : bytes) : Adapt ServiceStatus :=
  let? text := utf8 b in
  let? values := status_values (lines text) ∅ in
  let? load_state := required_value values (str "LoadState") in
  let? active_state := required_value values (str "ActiveState") in
  let? sub_state := required_value values (str "SubState") in
  Ok (mkServiceStatus load_state active_state sub_state).

Definition parse_version (b : bytes) : Adapt bytes :=
  let? text := utf8 b in
  let text := trim text in
  if 4096 <? len text then Err MalformedOutput
  else
  let? first_line := ok_or (head (lines text)) MalformedOutput in
  let? version :=
    ok_or (match strip_prefix (str "ocserv ") first_line with
           | Some version => Some version
           | None => strip_prefix (str "OpenConnect VPN Server ") first_line
           end) MalformedOutput in
  if negb (starts_with (str "1.2.") version || starts_with (str "1.3.") version
           || starts_with (str "1.4.") version || bool_decide (version = str "1.5.0")
           || bool_decide (version = str "1.6.0"))
     || (32 <? len version)
     || negb (forallb (fun b => is_ascii_digit b || bool_decide (b = x2e)) version)
  then Err MalformedOutput else Ok version.

(** [serde_json::Value]; a number is an unsigned or a negative integer or a
    float, an object a map of its members. *)
Inductive JsonValue :=
| JNull
| JBool (b : bool)
| JPosInt (n : Z)
| JNegInt (n : Z)
| JFloat (text : bytes)
| JString (s : bytes)
| JArray (items : list JsonValue)
| JObject (members : list (bytes * JsonValue)).

Class SerdeJson := {
  json_from_slice : bytes -> option JsonValue;
  tls_manifest_from_slice : bytes -> option TlsManifest }.

Definition as_array (v : JsonValue) : option (list JsonValue) :=
  match v with JArray items => Some items | _ => None end.
Definition as_object (v : JsonValue) : option (list (bytes * JsonValue)) :=
  match v with JObject members => Some members | _ => None end.
Definition as_str (v : JsonValue) : option bytes := match v with JString s => Some s | _ => None end.
Definition as_u64 (v : JsonValue) : option Z :=
  match v with JPosInt n => if bool_decide (in_u64 n) then Some n else None | _ => None end.

Definition json_get (object : list (bytes * JsonValue)) (name : bytes) : option JsonValue :=
  snd <$> List.find (fun member => bool_decide (member.1 = name)) object.

Definition json_string (object : list (bytes * JsonValue)) (name : bytes) : Adapt bytes :=
  ok_or (json_get object name ≫= as_str) MalformedOutput.

Definition validated_token (value : bytes) (limit : Z) : Adapt bytes :=
  if is_empty value || (limit <? len value) || has_control value then Err MalformedOutput else Ok value.

Definition canonical_ip (value : bytes) : Adapt bytes :=
  match parse_ip value with Some ip => Ok (ip_to_string ip) | None => Err MalformedOutput end.

Definition parse_session (item : JsonValue) : Adapt Session :=
  let? object := ok_or (as_object item) MalformedOutput in
  let? id := ok_or (id ← json_get object (str "ID") ≫= as_u64; if 0 <? id then Some id else None)
               MalformedOutput in
  let? username := json_string object (str "Username") in
  let? username := validated_token username 128 in
  let? remote := json_string object (str "Remote IP") in
  let? remote_ip := canonical_ip remote in
  let vpn := match json_get object (str "IPv4") with
             | Some v => Some v
             | None => json_get object (str "IPv6")
             end in
  let? vpn := ok_or (vpn ≫= as_str) MalformedOutput in
  let? vpn_ip := canonical_ip vpn in
  Ok (mkSession (to_string id) username remote_ip vpn_ip).

Fixpoint collect {A B} (f : A -> Adapt B) (l : list A) : Adapt (list B) :=
  match l with
  | [] => Ok []
  | a :: rest => let? b := f a in let? bs := collect f rest in Ok (b :: bs)
  end.

Section JsonOutput.
Context {json : SerdeJson}.

Definition json_items (b : bytes) : Adapt (list JsonValue) :=
  let? value := ok_or (json_from_slice b) MalformedOutput in
  let? items := ok_or (as_array value) MalformedOutput in
  if 4096 <? len items then Err MalformedOutput else Ok items.

Definition parse_sessions (b : bytes) : Adapt (list Session) :=
  let? items := json_items b in collect parse_session items.

Definition parse_ip_bans (b : bytes) : Adapt (list IpBan) :=
  let? items := json_items b in
  collect (fun item =>
    let? object := ok_or (as_object item) MalformedOutput in
    let? ip := json_string object (str "IP") in
    let? ip := canonical_ip ip in
    Ok (mkIpBan ip None)) items.

End JsonOutput.

Definition numeric_session_id (value : bytes) : Adapt bytes :=
  let? parsed := ok_or (parse_u64 value) InvalidRequest in
  if (parsed =? 0) || negb (bool_decide (to_string parsed = value)) then Err InvalidRequest else Ok value.
