(* ===== verification/AdapterTextFacts.v ===== *)
(** Facts about the texts of the adapter: lines and fields, valid UTF-8 cut at
    ASCII separators, the order of the records, and what a parsed user file
    is. *)

From stdpp Require Import base list gmap numbers sorting strings.
From Stdlib Require Import ZArith Lia Bool Strings.Byte.
From S2P Require Import Prelude Bytes Text Executor Utf8 EffectRecords PrivdProtocol AdapterText.

Local Open Scope Z_scope.

(** * Lines *)

Lemma strip_suffix_Some p l r : strip_suffix p l = Some r -> l = r ++ p.
Proof.
  unfold strip_suffix. destruct (strip_prefix _ _) as [t|] eqn:E; [|done]. intros [= <-].
  apply strip_prefix_Some in E. apply (f_equal (@rev byte)) in E.
  by rewrite rev_involutive, rev_app_distr, rev_involutive in E.
Qed.

Lemma strip_suffix_app p l : strip_suffix p (l ++ p) = Some l.
Proof. unfold strip_suffix. by rewrite rev_app_distr, strip_prefix_app, rev_involutive. Qed.

Lemma strip_cr_id line : last line <> Some x0d -> strip_cr line = line.
Proof.
  unfold strip_cr. intros N. destruct (strip_suffix _ _) eqn:E; [|done].
  apply strip_suffix_Some in E. subst line. by rewrite last_snoc in N.
Qed.

Lemma strip_cr_prefix line : exists tail, line = strip_cr line ++ tail.
Proof.
  unfold strip_cr. destruct (strip_suffix _ _) eqn:E; [|exists []; by rewrite app_nil_r].
  eexists. by apply strip_suffix_Some.
Qed.

Lemma strip_cr_free c line : c ∉ line -> c ∉ strip_cr line.
Proof.
  intros N H. apply N. destruct (strip_cr_prefix line) as [tail ->]. apply elem_of_app. by left.
Qed.

(** A text made of terminated lines reads back as those lines. *)
Lemma lines_concat ls :
  Forall (fun l => (x0a ∉ l) /\ last l <> Some x0d) ls ->
  lines (concat ((fun l => l ++ [x0a]) <$> ls)) = ls.
Proof.
  intros F. unfold lines. induction F as [|l ls [Hn Hc] F IH]; [done|].
  rewrite fmap_cons, concat_cons, <- app_assoc. simpl app. rewrite split_on_app by done.
  simpl. pose proof (split_on_nonempty x0a (concat ((fun l => l ++ [x0a]) <$> ls))) as Hne.
  destruct (split_on x0a _) as [|q rest]; [done|]. by rewrite strip_cr_id, IH.
Qed.

Lemma line_pieces_all (P : bytes -> Prop) pieces :
  (forall l, P l -> P (strip_cr l)) -> Forall P pieces -> Forall P (line_pieces pieces).
Proof.
  intros Hs F. induction F as [|l rest Hl F IH]; [constructor|]. simpl.
  destruct rest; [destruct (is_empty l); by repeat constructor|]. constructor; auto.
Qed.

Lemma lines_free text : Forall (fun l => x0a ∉ l) (lines text).
Proof. apply line_pieces_all; [intros l; apply strip_cr_free|apply split_on_parts]. Qed.

(** * UTF-8 at ASCII separators *)

Lemma utf8_valid_app a b : utf8_valid a = true -> utf8_valid (a ++ b) = utf8_valid b.
Proof.
  remember (length a) as n eqn:Hn. assert (length a <= n)%nat as Hle by lia. clear Hn.
  revert a Hle. induction n as [|n IH]; intros [|x a]; simpl length; intros Hle; try done; try lia.
  simpl. destruct (byte_val x <? 128); [apply IH; lia|].
  destruct a as [|y a]; [done|]. simpl app. simpl in Hle.
  destruct (between 194 223 x).
  { destruct (is_continuation y); [apply IH; lia|done]. }
  destruct a as [|z a]; [done|]. simpl app. simpl in Hle.
  destruct (between 224 239 x).
  { intros [C V]%andb_true_iff. rewrite C. apply IH; [lia|done]. }
  destruct a as [|w a]; [done|]. simpl app. simpl in Hle.
  intros [C V]%andb_true_iff. rewrite C. apply IH; [lia|done].
Qed.

(** A byte below 128 is never inside a character. *)
Lemma utf8_valid_cut a c b :
  byte_val c < 128 -> utf8_valid (a ++ c :: b) = true -> utf8_valid a = true /\ utf8_valid b = true.
Proof.
  intros Hc. assert ((byte_val c <? 128) = true) as Hlt by lia.
  assert (forall lo hi, 128 <= lo -> between lo hi c = false) as Hno
    by (intros; unfold between; lia).
  remember (length a) as n eqn:Hn. assert (length a <= n)%nat as Hle by lia. clear Hn.
  revert a Hle. induction n as [|n IH]; intros [|x a]; simpl length; intros Hle; try lia;
    try (simpl; by rewrite Hlt).
  simpl. destruct (byte_val x <? 128); [apply IH; lia|].
  destruct a as [|y a]; simpl app; simpl in Hle.
  { intros H. exfalso. destruct (between 194 223 x).
    { unfold is_continuation in H. by rewrite Hno in H. }
    destruct b as [|d b]; [done|]. destruct (between 224 239 x).
    { rewrite Hno in H by (destruct (byte_val x =? 224); lia). done. }
    destruct b as [|e b]; [done|].
    rewrite (Hno _ (if byte_val x =? 244 then 143 else 191)) in H
      by (destruct (byte_val x =? 240); lia).
    by rewrite andb_false_r in H. }
  destruct (between 194 223 x).
  { intros [C V]%andb_true_iff. rewrite C. apply IH; [lia|done]. }
  destruct a as [|z a]; simpl app; simpl in Hle.
  { intros H. exfalso. destruct (between 224 239 x).
    { unfold is_continuation in H. by rewrite Hno, andb_false_r in H. }
    destruct b as [|e b]; [done|]. unfold is_continuation at 1 in H.
    by rewrite Hno, andb_false_r in H. }
  destruct (between 224 239 x).
  { intros [C V]%andb_true_iff. rewrite C. apply IH; [lia|done]. }
  destruct a as [|w a]; simpl app; simpl in Hle.
  { intros H. exfalso. unfold is_continuation at 2 in H. by rewrite Hno, andb_false_r in H. }
  intros [C V]%andb_true_iff. rewrite C. apply IH; [lia|done].
Qed.

Lemma utf8_valid_split c s :
  byte_val c < 128 -> utf8_valid s = true -> Forall (fun part => utf8_valid part = true) (split_on c s).
Proof.
  intros Hc V. rewrite <- (join_split_on c s) in V. generalize dependent (split_on c s).
  intros parts. induction parts as [|p [|q parts] IH]; simpl; intros V; [constructor|by constructor|].
  apply utf8_valid_cut in V as [V1 V2]; [|done]. constructor; auto.
Qed.

Lemma utf8_valid_prefix_cr line : utf8_valid line = true -> utf8_valid (strip_cr line) = true.
Proof.
  unfold strip_cr. destruct (strip_suffix _ _) eqn:E; [|done]. apply strip_suffix_Some in E as ->.
  by intros [V _]%utf8_valid_cut.
Qed.

Lemma lines_utf8 text :
  utf8_valid text = true -> Forall (fun l => utf8_valid l = true) (lines text).
Proof.
  intros V. apply line_pieces_all; [apply utf8_valid_prefix_cr|by apply utf8_valid_split].
Qed.

(** * Order of the records *)

Section KeyOrder.
Context {A : Type} (key : A -> bytes).

#[global] Instance key_order_total : Total (key_order key).
Proof.
  intros a b. unfold key_order. destruct (bytes_leb (key a) (key b)) eqn:E; [by left|right].
  apply bytes_leb_nlt in E. apply bytes_leb_spec. by left.
Qed.

#[global] Instance key_order_trans : Transitive (key_order key).
Proof.
  intros a b c. unfold key_order. rewrite !bytes_leb_spec. intros [H1|H1] [H2|H2]; rewrite ?H1.
  - left. by transitivity (key b).
  - left. by rewrite <- H2.
  - by left.
  - by right.
Qed.

Lemma key_order_antisym a b : key_order key a b -> key_order key b a -> key a = key b.
Proof.
  unfold key_order. rewrite !bytes_leb_spec. intros [H1|H1] [H2|H2]; try done.
  exfalso. apply (irreflexivity bytes_lt (key a)). by transitivity (key b).
Qed.

(** Strictly increasing keys: the lists that sorting by unique keys gives. *)
Definition key_sorted (l : list A) : Prop := StronglySorted (fun a b => bytes_lt (key a) (key b)) l.

Lemma key_sorted_NoDup l : key_sorted l -> NoDup (key <$> l).
Proof.
  induction 1 as [|a l S IH F]; simpl; constructor; [|done].
  intros (b & E & Hb)%list_elem_of_fmap. rewrite Forall_forall in F.
  apply F in Hb. rewrite <- E in Hb. by apply (irreflexivity bytes_lt) in Hb.
Qed.

Lemma merge_sort_key_sorted l : NoDup (key <$> l) -> key_sorted (merge_sort (key_order key) l).
Proof.
  intros N. pose proof (StronglySorted_merge_sort (key_order key) l) as S.
  assert (NoDup (key <$> merge_sort (key_order key) l)) as N'
    by (by rewrite (merge_sort_Permutation (key_order key) l)).
  clear N. unfold key_sorted. induction S as [|a m S IH F]; [constructor|].
  rewrite fmap_cons, NoDup_cons in N'. destruct N' as [Ha N']. constructor; [by apply IH|].
  rewrite Forall_forall in F |- *. intros b Hb. pose proof (F b Hb) as L.
  apply bytes_leb_spec in L as [L|E]; [done|]. destruct Ha. rewrite E. by apply list_elem_of_fmap_2.
Qed.

Lemma merge_sort_sorted l : key_sorted l -> merge_sort (key_order key) l = l.
Proof.
  intros S. apply (StronglySorted_unique_strong (key_order key)).
  - intros a b Ha Hb L1 L2. pose proof (key_order_antisym _ _ L1 L2) as E.
    rewrite merge_sort_Permutation in Ha.
    apply key_sorted_NoDup in S. apply list_elem_of_lookup in Ha as [i Hi], Hb as [j Hj].
    assert (i = j) as ->; [|by simplify_eq].
    eapply (NoDup_lookup (key <$> l)); [done|by rewrite list_lookup_fmap, Hi|].
    by rewrite list_lookup_fmap, Hj, E.
  - apply StronglySorted_merge_sort; apply _.
  - unfold key_sorted in S. induction S as [|a m S IH F]; constructor; [done|].
    eapply Forall_impl; [exact F|]. intros b L. apply bytes_leb_spec. by left.
  - apply merge_sort_Permutation.
Qed.

Lemma key_sorted_fmap {B} (f : B -> A) (key' : B -> bytes) (l : list B) :
  (forall b, key (f b) = key' b) ->
  StronglySorted (fun a b => bytes_lt (key' a) (key' b)) l -> key_sorted (f <$> l).
Proof.
  intros E. induction 1 as [|b l S IH F]; [constructor|]. constructor; [done|].
  apply Forall_fmap. eapply Forall_impl; [exact F|]. intros c. simpl. by rewrite !E.
Qed.

End KeyOrder.

(** * What a parsed user file is *)

Lemma validate_name_bytes name :
  validate_name name = Ok tt ->
  name <> [] /\ len name <= 64 /\ Forall (fun b => name_rest b = true) name.
Proof.
  unfold validate_name. destruct (_ || _) eqn:G; [done|]. intros _. split_guards.
  destruct name as [|b name]; [done|]. split_and!; [done|lia|].
  cbn [all_bytes_first] in *. split_guards. constructor.
  - unfold name_rest. unfold name_first in *.
    by match goal with H : is_ascii_alphanumeric b = true |- _ => rewrite H end.
  - apply List.Forall_forall. by apply forallb_forall.
Qed.

(** A name holds no separator of the file, and is not the placeholder [*]. *)
Lemma name_free name c :
  validate_name name = Ok tt -> name_rest c = false -> c ∉ name.
Proof.
  intros (_ & _ & F)%validate_name_bytes N H. rewrite Forall_forall in F. apply F in H. congruence.
Qed.

(** One record: a valid name, a password hash, valid group names, nothing
    that would end a field or a line. *)
Record wf_user (r : SecretUserRecord) : Prop := {
  wu_username : validate_name (sur_username r) = Ok tt;
  wu_groups : Forall (fun g => validate_name g = Ok tt) (group_names (sur_groups r));
  wu_groups_field : (x3a ∉ sur_groups r) /\ (x0a ∉ sur_groups r) /\ utf8_valid (sur_groups r) = true;
  wu_hash : sur_hash r <> [];
  wu_hash_field : (x3a ∉ sur_hash r) /\ (x0a ∉ sur_hash r) /\ utf8_valid (sur_hash r) = true }.

Definition memberships (rs : list SecretUserRecord) : Z :=
  len (concat ((fun r => group_names (sur_groups r)) <$> rs)).

Record wf_users (rs : list SecretUserRecord) : Prop := {
  wf_each : Forall wf_user rs;
  wf_count : len rs <= MAX_MANAGED_RESOURCES;
  wf_memberships : memberships rs <= MAX_MANAGED_RESOURCES }.

(** The state of the scan after some lines. *)
Record scanned (s : UserScan) : Prop := {
  sc_users : wf_users (us_records s);
  sc_memberships : us_memberships s = memberships (us_records s);
  sc_seen u : is_Some (us_seen s !! u) <-> u ∈ sur_username <$> us_records s;
  sc_unique : NoDup (sur_username <$> us_records s) }.

Lemma memberships_app rs rs' : memberships (rs ++ rs') = memberships rs + memberships rs'.
Proof. unfold memberships. rewrite fmap_app, concat_app. unfold len. rewrite length_app. lia. Qed.

Lemma memberships_one r : memberships [r] = len (group_names (sur_groups r)).
Proof. unfold memberships. simpl. by rewrite app_nil_r. Qed.

(** Counting the groups of a record: all are valid and there is room. *)
Lemma count_groups_spec malformed groups m :
  0 <= m <= MAX_MANAGED_RESOURCES ->
  count_groups malformed groups m =
    (if forallb (fun g => is_ok (validate_name g)) groups
     then if MAX_MANAGED_RESOURCES <? m + len groups then Err OutputLimit else Ok (m + len groups)
     else count_groups malformed groups m).
Proof.
  revert m. induction groups as [|g groups IH]; intros m Hm.
  { cbn [count_groups forallb]. assert (m + len (@nil bytes) = m) as -> by (unfold len; simpl; lia).
    by rewrite (proj2 (Z.ltb_ge _ _)) by lia. }
  cbn [count_groups forallb]. destruct (is_ok (validate_name g)); cbn [andb]; [|done].
  assert (u64_saturating_add m 1 = m + 1) as -> by
    (unfold u64_saturating_add, u64_max, MAX_MANAGED_RESOURCES in *; lia).
  assert (len (g :: groups) = 1 + len groups) as -> by (unfold len; simpl; lia).
  pose proof (len_nonneg groups).
  destruct (MAX_MANAGED_RESOURCES <? m + 1) eqn:E1.
  - destruct (forallb _ _); [|done]. by rewrite (proj2 (Z.ltb_lt _ _)) by lia.
  - rewrite IH by lia. destruct (forallb _ _); [|done]. by rewrite Z.add_assoc.
Qed.

Lemma count_groups_valid malformed groups m m' :
  count_groups malformed groups m = Ok m' -> Forall (fun g => validate_name g = Ok tt) groups.
Proof.
  revert m. induction groups as [|g groups IH]; intros m; simpl; [constructor|].
  destruct (validate_name g) as [[]|] eqn:E; simpl; [|done]. destruct (_ <? _); [done|].
  intros H. constructor; eauto.
Qed.

Lemma names_valid groups :
  forallb (fun g => is_ok (validate_name g)) groups = true <->
  Forall (fun g => validate_name g = Ok tt) groups.
Proof.
  rewrite forallb_forall, Forall_forall. setoid_rewrite list_elem_of_In. split; intros H g Hg.
  - specialize (H g Hg). by destruct (validate_name g) as [[]|].
  - by rewrite (H g Hg).
Qed.

(** Adding one record to the scan. *)
Definition scan_add (r : SecretUserRecord) (n : Z) (s : UserScan) : UserScan :=
  mkUserScan (us_records s ++ [r]) (us_memberships s + len (group_names (sur_groups r)))
    (<[sur_username r := n]> (us_seen s)).

Lemma scanned_add r n s :
  scanned s -> wf_user r -> sur_username r ∉ sur_username <$> us_records s ->
  len (us_records s) < MAX_MANAGED_RESOURCES ->
  us_memberships s + len (group_names (sur_groups r)) <= MAX_MANAGED_RESOURCES ->
  scanned (scan_add r n s).
Proof.
  intros [[We Wc Wm] M D U] W N L R. split; simpl.
  - split; [by apply Forall_app; auto|unfold len in *; rewrite length_app; simpl; lia|].
    rewrite memberships_app, memberships_one. lia.
  - rewrite memberships_app, memberships_one. lia.
  - intros u. rewrite fmap_app, elem_of_app. simpl. rewrite list_elem_of_singleton.
    destruct (decide (u = sur_username r)) as [->|Hu].
    + rewrite lookup_insert_eq. split; [by right|by eexists].
    + rewrite lookup_insert_ne by done. rewrite D. naive_solver.
  - rewrite fmap_app. apply NoDup_app. split_and!; [done| |apply NoDup_singleton].
    intros u Hu Hr%list_elem_of_singleton. by subst.
Qed.

Lemma scan_user_line_ok n line s s' :
  (x0a ∉ line) -> utf8_valid line = true -> scanned s -> scan_user_line n line s = Ok s' ->
  exists r, s' = scan_add r n s /\ wf_user r
    /\ line = sur_username r ++ [x3a] ++ sur_groups r ++ [x3a] ++ sur_hash r /\ scanned s'.
Proof.
  intros Hlf V Sc. unfold scan_user_line.
  case_bool_decide as L; [done|].
  pose proof (split_on_parts x3a line) as P. pose proof (utf8_valid_split x3a line ltac:(done) V) as U.
  pose proof (join_split_on x3a line) as J.
  destruct (split_on x3a line) as [|u [|g [|h [|? ?]]]]; try done.
  destruct (is_empty h) eqn:Eh; [done|].
  destruct (validate_name u) as [[]|] eqn:Eu; simpl; [|done].
  destruct (us_seen s !! u) eqn:Es; [done|].
  destruct (count_groups _ _ _) as [m|] eqn:Em; [|done]. intros [= <-].
  pose proof (count_groups_valid _ _ _ _ Em) as Hg. destruct Sc as [W M D N].
  rewrite count_groups_spec in Em
    by (rewrite M; split; [apply len_nonneg|apply W]).
  rewrite (proj2 (names_valid _) Hg) in Em. destruct (_ <? _) eqn:R; [done|]. injection Em as <-.
  simpl in J. subst line. decompose_Forall.
  repeat rewrite ?not_elem_of_app, ?not_elem_of_cons in Hlf. destruct_and! Hlf.
  exists (mkSecretUserRecord u g h).
  assert (wf_user (mkSecretUserRecord u g h)) by (split; simpl; auto; by destruct h).
  split_and!; [done|done|done|]. apply scanned_add; [done|done| | |simpl; lia].
  - simpl. rewrite <- D, Es. by intros [? ?].
  - destruct W as [_ Wc _]. lia.
Qed.

Lemma scan_user_lines_ok ls : forall index s s',
  Forall (fun l => x0a ∉ l) ls -> Forall (fun l => utf8_valid l = true) ls -> scanned s ->
  scan_user_lines index ls s = Ok s' -> scanned s'.
Proof.
  induction ls as [|l ls IH]; intros index s s' F V Sc; simpl; [by intros [= <-]|].
  inversion F; inversion V; subst. destruct (is_empty l); [by apply IH|].
  destruct (scan_user_line _ _ _) as [t|] eqn:E; [|done]. apply IH; [done|done|].
  by apply scan_user_line_ok in E as (r & _ & _ & _ & ?).
Qed.

Lemma scanned_start : scanned (mkUserScan [] 0 ∅).
Proof.
  split; simpl; [split; simpl; [constructor|done|done]|done| |constructor].
  intros u. rewrite lookup_empty. split; [by intros [? ?]|by intros ?%not_elem_of_nil].
Qed.

(** The records of a file are well formed and strictly ordered by name. *)
Lemma parse_records_wf b rs :
  parse_secret_user_records b = Ok rs -> wf_users rs /\ key_sorted sur_username rs.
Proof.
  unfold parse_secret_user_records. destruct (_ <? _); [done|].
  destruct (utf8_valid b) eqn:V; [|done]. simpl.
  destruct (scan_user_lines _ _ _) as [s|] eqn:E; [|done]. intros [= <-].
  apply scan_user_lines_ok in E as [[We Wc Wm] M D U];
    [|apply lines_free|by apply lines_utf8|apply scanned_start].
  pose proof (merge_sort_Permutation (key_order sur_username) (us_records s)) as P.
  split; [split|by apply merge_sort_key_sorted].
  - by rewrite P.
  - unfold len. by rewrite P.
  - unfold memberships, len in *. by rewrite P.
Qed.

(** ** Writing the records *)

(** The hash as a line reader keeps it. *)
Definition no_final_cr (r : SecretUserRecord) : Prop := last (sur_hash r) <> Some x0d.

Definition record_text (r : SecretUserRecord) : bytes :=
  sur_username r ++ [x3a] ++ sur_groups r ++ [x3a] ++ sur_hash r.

Lemma user_line_text r : user_line r = record_text r ++ [x0a].
Proof. unfold user_line, record_text. by rewrite <- !app_assoc. Qed.

Lemma record_text_fields r :
  wf_user r -> split_on x3a (record_text r) = [sur_username r; sur_groups r; sur_hash r].
Proof.
  intros [Wu _ [Wg _] _ [Wh _]]. unfold record_text. simpl app.
  rewrite split_on_app by (by eapply name_free). by rewrite split_on_app, split_on_free.
Qed.

Lemma name_utf8 name : validate_name name = Ok tt -> utf8_valid name = true.
Proof.
  intros (_ & _ & F)%validate_name_bytes. apply utf8_valid_ascii, forallb_forall.
  intros b Hb%list_elem_of_In. rewrite Forall_forall in F. apply F in Hb.
  revert Hb. by destruct b.
Qed.

Lemma record_text_line r :
  wf_user r -> no_final_cr r ->
  ((x0a ∉ record_text r) /\ last (record_text r) <> Some x0d) /\ utf8_valid (record_text r) = true.
Proof.
  intros [Wu _ [_ [Wg Vg]] Wh0 [_ [Wh Vh]]] C. unfold record_text, no_final_cr in *.
  split_and!.
  - rewrite !not_elem_of_app. split_and!; try done; [by eapply name_free|set_solver..].
  - destruct (sur_hash r) as [|b h _] using rev_ind; [done|].
    rewrite !app_assoc, last_snoc. by rewrite last_snoc in C.
  - rewrite utf8_valid_app by (by apply name_utf8). rewrite utf8_valid_ascii_app; [done|done|].
    rewrite utf8_valid_app by done. by rewrite utf8_valid_ascii_app.
Qed.

Lemma scan_user_line_text n r s :
  wf_user r -> scanned s -> (sur_username r ∉ sur_username <$> us_records s) ->
  scan_user_line n (record_text r) s =
    (if bool_decide (len (us_records s) = MAX_MANAGED_RESOURCES)
        || (MAX_MANAGED_RESOURCES <? us_memberships s + len (group_names (sur_groups r)))
     then Err OutputLimit else Ok (scan_add r n s)).
Proof.
  intros W [Wf M D U] N. unfold scan_user_line. rewrite record_text_fields by done.
  destruct (bool_decide _); [done|]. destruct W as [Wu Wg _ Wh _].
  assert (is_empty (sur_hash r) = false) as -> by (by destruct (sur_hash r)).
  rewrite Wu. cbn [is_ok negb].
  assert (us_seen s !! sur_username r = None) as ->.
  { destruct (us_seen s !! sur_username r) eqn:E; [|done]. destruct N. apply D. by rewrite E. }
  rewrite count_groups_spec by (rewrite M; split; [apply len_nonneg|apply Wf]).
  rewrite (proj2 (names_valid _) Wg). cbn [orb]. destruct (_ <? _); [done|]. by destruct r.
Qed.

(** Scanning the lines of well-formed records takes all of them, unless there
    are too many records or memberships. *)
Lemma scan_records rs : forall index s,
  Forall wf_user rs -> scanned s -> NoDup (sur_username <$> us_records s ++ rs) ->
  if (len (us_records s ++ rs) <=? MAX_MANAGED_RESOURCES)
     && (memberships (us_records s ++ rs) <=? MAX_MANAGED_RESOURCES)
  then exists s', scan_user_lines index (record_text <$> rs) s = Ok s' /\ us_records s' = us_records s ++ rs
  else scan_user_lines index (record_text <$> rs) s = Err OutputLimit.
Proof.
  induction rs as [|r rs IH]; intros index s F Sc N.
  { rewrite app_nil_r. destruct Sc as [[_ Wc Wm] _ _ _].
    rewrite !(proj2 (Z.leb_le _ _)) by done. simpl. eauto. }
  inversion F as [|? ? W F']; subst. simpl.
  assert (sur_username r ∉ sur_username <$> us_records s) as Nr.
  { rewrite fmap_app, fmap_cons, NoDup_app in N. destruct N as (_ & N & _).
    intros H. apply (N _ H). by left. }
  assert (is_empty (record_text r) = false) as ->.
  { destruct W as [(Wn & _)%validate_name_bytes _ _ _ _]. unfold record_text.
    by destruct (sur_username r). }
  rewrite scan_user_line_text by done.
  rewrite memberships_app. change (r :: rs) with ([r] ++ rs). rewrite memberships_app, memberships_one.
  assert (len (us_records s ++ [r] ++ rs) = len (us_records s) + 1 + len rs) as ->
    by (unfold len; rewrite !length_app; simpl; lia).
  pose proof (len_nonneg rs). pose proof (len_nonneg (concat ((fun r => group_names (sur_groups r)) <$> rs))).
  change (len (concat _)) with (memberships rs) in *.
  rewrite <- (sc_memberships _ Sc). pose proof (wf_count _ (sc_users _ Sc)).
  destruct (bool_decide _ || _) eqn:G.
  { apply orb_true_iff in G as [G%bool_decide_eq_true|G].
    - by rewrite (proj2 (Z.leb_gt _ _)) by lia.
    - rewrite (proj2 (Z.leb_gt (us_memberships s + _) _)) by lia. by rewrite andb_false_r. }
  split_guards.
  assert (scanned (scan_add r (index + 1) s)) as Sc' by (apply scanned_add; [done|done|done|lia|lia]).
  specialize (IH (index + 1) (scan_add r (index + 1) s) F' Sc').
  cbn [scan_add us_records] in IH. rewrite <- app_assoc in IH. specialize (IH N).
  rewrite !memberships_app, memberships_one in IH.
  assert (len (us_records s ++ [r] ++ rs) = len (us_records s) + 1 + len rs) as E
    by (unfold len; rewrite !length_app; simpl; lia).
  rewrite E, <- (sc_memberships _ Sc) in IH. exact IH.
Qed.

Definition render_users (rs : list SecretUserRecord) : bytes := concat (user_line <$> rs).

Lemma render_users_lines rs :
  Forall wf_user rs -> Forall no_final_cr rs -> lines (render_users rs) = record_text <$> rs.
Proof.
  intros W C. unfold render_users.
  replace (user_line <$> rs) with ((fun l => l ++ [x0a]) <$> (record_text <$> rs)).
  2:{ rewrite <- list_fmap_compose. apply list_fmap_ext. intros i r _. symmetry. apply user_line_text. }
  apply lines_concat, Forall_fmap, Forall_forall. intros r Hr. rewrite Forall_forall in W, C.
  by destruct (record_text_line r (W r Hr) (C r Hr)) as [? _].
Qed.

Lemma render_utf8 rs : Forall wf_user rs -> Forall no_final_cr rs -> utf8_valid (render_users rs) = true.
Proof.
  intros W C. unfold render_users. induction rs as [|r rs IH]; [done|].
  inversion W; inversion C; subst. rewrite fmap_cons, concat_cons, user_line_text, <- app_assoc.
  rewrite utf8_valid_app by (by apply record_text_line).
  rewrite utf8_valid_ascii_app; [done|done|by apply IH].
Qed.

(** Parsing what was written, on every list of well-formed records. *)
Lemma parse_render rs :
  Forall wf_user rs -> Forall no_final_cr rs -> key_sorted sur_username rs ->
  parse_secret_user_records (render_users rs) =
    (if (len (render_users rs) <=? MAX_USER_FILE_BYTES) && (len rs <=? MAX_MANAGED_RESOURCES)
        && (memberships rs <=? MAX_MANAGED_RESOURCES)
     then Ok rs else Err OutputLimit).
Proof.
  intros W C S. unfold parse_secret_user_records. rewrite Z.ltb_antisym.
  destruct (_ <=? MAX_USER_FILE_BYTES); [|done]. cbn [negb andb].
  rewrite render_utf8, render_users_lines by done. cbn [negb].
  pose proof (scan_records rs 0 (mkUserScan [] 0 ∅) W scanned_start (key_sorted_NoDup _ _ S)) as H.
  cbn [us_records app] in H. destruct (_ && _); [|by rewrite H].
  destruct H as (s' & -> & ->). by rewrite merge_sort_sorted.
Qed.
