(* ===== verification/UserFileTheorems.v ===== *)
(** The user file as a store of users and groups: what reading it guarantees,
    that writing and reading are inverse, and what rewriting one group does to
    the groups and users that are then observed. *)

From stdpp Require Import base list gmap numbers sorting strings.
From Stdlib Require Import ZArith Lia Bool Strings.Byte.
From S2P Require Import Prelude Bytes Text Executor Utf8 EffectRecords PrivdProtocol AdapterText.
From S2P Require Import AdapterTextFacts.

Local Open Scope Z_scope.

(** * Group fields *)

Lemma filter_all {A} (f : A -> bool) l : Forall (fun a => f a = true) l -> List.filter f l = l.
Proof. induction 1 as [|a l H F IH]; [done|]. simpl. by rewrite H, IH. Qed.

Lemma elem_of_filter {A} (f : A -> bool) l a : a ∈ List.filter f l <-> a ∈ l /\ f a = true.
Proof. rewrite !list_elem_of_In. apply filter_In. Qed.

Lemma group_names_spec field h : h ∈ group_names field <-> h ∈ split_on x2c field /\ names_group h = true.
Proof. apply elem_of_filter. Qed.

(** A list of groups written as a field reads back as that list. *)
Lemma group_names_field groups :
  Forall (fun g => validate_name g = Ok tt) groups -> Forall (fun g => names_group g = true) groups ->
  group_names (group_field groups) = groups.
Proof.
  intros V N. unfold group_field, group_names. destruct groups as [|g groups]; [done|].
  cbn [is_empty]. rewrite split_on_join; [by apply filter_all|done|].
  eapply Forall_impl; [exact V|]. intros h Hh. by eapply name_free.
Qed.

Lemma join_parts_free c sep groups :
  c <> sep -> Forall (fun g : bytes => c ∉ g) groups -> c ∉ join sep groups.
Proof.
  intros Hc F. induction F as [|g groups Hg F IH]; [apply not_elem_of_nil|]. simpl.
  destruct groups; [done|]. rewrite not_elem_of_app, not_elem_of_cons. done.
Qed.

Lemma join_utf8 groups :
  Forall (fun g => utf8_valid g = true) groups -> utf8_valid (join x2c groups) = true.
Proof.
  intros F. induction F as [|g groups Hg F IH]; [done|]. simpl. destruct groups; [done|].
  rewrite utf8_valid_app by done. exact IH.
Qed.

Lemma group_field_free c groups :
  name_rest c = false -> c <> x2c -> c <> x2a -> Forall (fun g => validate_name g = Ok tt) groups ->
  c ∉ group_field groups.
Proof.
  intros N H1 H2 V. unfold group_field. destruct (is_empty groups).
  - change (str "*") with [x2a]. by rewrite list_elem_of_singleton.
  - apply join_parts_free; [done|]. eapply Forall_impl; [exact V|]. intros g Hg. by eapply name_free.
Qed.

Lemma group_field_utf8 groups :
  Forall (fun g => validate_name g = Ok tt) groups -> utf8_valid (group_field groups) = true.
Proof.
  intros V. unfold group_field. destruct (is_empty groups); [done|].
  apply join_utf8. eapply Forall_impl; [exact V|]. apply name_utf8.
Qed.

(** * Rewriting the groups of a record *)

Lemma elem_of_dedup l h : h ∈ dedup l <-> h ∈ l.
Proof.
  induction l as [|a [|b l] IH]; [done|done|]. cbn [dedup]. case_bool_decide as E.
  - rewrite IH. subst. rewrite !elem_of_cons. naive_solver.
  - rewrite elem_of_cons, IH. by rewrite (elem_of_cons (b :: l)).
Qed.

Lemma dedup_sorted l : StronglySorted (key_order id) l -> key_sorted id (dedup l).
Proof.
  induction 1 as [|a l S IH F]; [constructor|]. destruct l as [|b l]; [by repeat constructor|].
  change (dedup (a :: b :: l)) with (if bool_decide (a = b) then dedup (b :: l) else a :: dedup (b :: l)).
  case_bool_decide as E; [exact IH|]. constructor; [exact IH|].
  apply Forall_forall. intros h Hh.
  rewrite elem_of_dedup in Hh. inversion F as [|? ? Hb F']; subst.
  apply bytes_leb_spec in Hb as [Hb|Hb]; [|done]. unfold id in *.
  inversion S as [|? ? S' Fb]; subst. apply elem_of_cons in Hh as [->|Hh]; [done|].
  rewrite Forall_forall in Fb. apply Fb, bytes_leb_spec in Hh as [Hh|<-]; [|done].
  by transitivity b.
Qed.

Lemma names_group_name g : validate_name g = Ok tt -> g <> str "x" -> names_group g = true.
Proof.
  intros V N. unfold names_group. destruct g as [|c g]; [done|].
  assert (c :: g <> str "*") as Hs by (intros E; injection E as -> ->; done).
  unfold one_of. simpl. by rewrite !bool_decide_false.
Qed.

Section Rewrite.
Context (group_name : bytes) (requested : list bytes).
Hypothesis group_valid : validate_name group_name = Ok tt.

Lemma elem_of_rewritten r h :
  h ∈ rewritten_groups group_name requested r <->
  if decide (h = group_name) then sur_username r ∈ requested else h ∈ group_names (sur_groups r).
Proof.
  unfold rewritten_groups. rewrite elem_of_dedup, merge_sort_Permutation.
  case_bool_decide as E; rewrite ?elem_of_app, ?list_elem_of_singleton, elem_of_filter;
    destruct (decide (h = group_name)) as [->|Hh].
  - naive_solver.
  - rewrite bool_decide_false by done. naive_solver.
  - rewrite bool_decide_true by done. naive_solver.
  - rewrite bool_decide_false by done. naive_solver.
Qed.

Lemma rewritten_sorted r : key_sorted id (rewritten_groups group_name requested r).
Proof. apply dedup_sorted, StronglySorted_merge_sort; apply _. Qed.

Lemma rewritten_valid r :
  wf_user r -> Forall (fun g => validate_name g = Ok tt) (rewritten_groups group_name requested r).
Proof.
  intros W. apply Forall_forall. intros h Hh%elem_of_rewritten.
  destruct (decide (h = group_name)) as [->|_]; [done|].
  pose proof (wu_groups _ W) as F. rewrite Forall_forall in F. by apply F.
Qed.

Lemma rewrite_record_wf r : wf_user r -> wf_user (rewrite_record group_name requested r) .
Proof.
  intros W. pose proof (rewritten_valid r W) as V. split; simpl; try apply W.
  - apply Forall_forall. intros h [Hh N]%group_names_spec. unfold group_field in Hh.
    destruct (rewritten_groups _ _ _) as [|g gs] eqn:E; cbn [is_empty] in Hh.
    + apply list_elem_of_singleton in Hh as ->. done.
    + rewrite split_on_join in Hh; [rewrite Forall_forall in V; by apply V|done|].
      eapply Forall_impl; [exact V|]. intros k Hk. by eapply name_free.
  - split_and!; [by apply group_field_free..|by apply group_field_utf8].
Qed.

Hypothesis group_listed : group_name <> str "x".

(** The groups the rewritten record is then read to have. *)
Lemma rewrite_record_groups r :
  wf_user r ->
  group_names (sur_groups (rewrite_record group_name requested r)) =
  rewritten_groups group_name requested r.
Proof.
  intros W. apply group_names_field; [by apply rewritten_valid|]. apply Forall_forall.
  intros h Hh%elem_of_rewritten. destruct (decide (h = group_name)) as [->|_];
    [by apply names_group_name|]. by apply group_names_spec in Hh as [_ ?].
Qed.

End Rewrite.

Lemma rewrite_records_wf g ms rs :
  validate_name g = Ok tt -> Forall wf_user rs -> Forall wf_user (rewrite_record g ms <$> rs).
Proof.
  intros V F. apply Forall_fmap. eapply Forall_impl; [exact F|]. intros r W. by apply rewrite_record_wf.
Qed.

(** What [group_apply] computes: the rewritten records, if they fit. *)
Lemma group_contents_eq g ms b rs :
  validate_name g = Ok tt -> parse_secret_user_records b = Ok rs -> Forall no_final_cr rs ->
  group_contents g ms b =
    (let output := render_users (rewrite_record g ms <$> rs) in
     if negb (forallb (fun m => bool_decide (m ∈ sur_username <$> rs)) ms) then Err InvalidRequest
     else if (len output <=? MAX_USER_FILE_BYTES) && (len rs <=? MAX_MANAGED_RESOURCES)
             && (memberships (rewrite_record g ms <$> rs) <=? MAX_MANAGED_RESOURCES)
     then Ok output else Err CapacityExceeded).
Proof.
  intros V P C. unfold group_contents. rewrite P. apply parse_records_wf in P as [W S].
  destruct (negb _); [done|]. cbv zeta. fold (render_users (rewrite_record g ms <$> rs)).
  rewrite parse_render.
  - assert (len (rewrite_record g ms <$> rs) = len rs) as -> by (unfold len; by rewrite length_fmap).
    by destruct (_ && _).
  - by apply rewrite_records_wf; [|apply W].
  - apply Forall_fmap. eapply Forall_impl; [exact C|]. by intros r.
  - by eapply key_sorted_fmap.
Qed.

(** * The observed groups *)

(** The users a list of records puts in a group, in the order of the records. *)
Definition users_in (h : bytes) (rs : list SecretUserRecord) : list bytes :=
  concat ((fun r => (fun _ => sur_username r)
             <$> List.filter (fun g => bool_decide (g = h)) (group_names (sur_groups r))) <$> rs).

Definition no_empty (m : gmap bytes (list bytes)) : Prop := forall h l, m !! h = Some l -> l <> [].

Lemma add_members u gs : forall m,
  no_empty m ->
  no_empty (foldl (add_member u) m gs) /\
  forall h, default [] (foldl (add_member u) m gs !! h) =
            default [] (m !! h) ++ ((fun _ => u) <$> List.filter (fun g => bool_decide (g = h)) gs).
Proof.
  induction gs as [|g gs IH]; intros m N; simpl; [split; [done|intros; by rewrite app_nil_r]|].
  destruct (IH (add_member u m g)) as [N' E].
  { unfold add_member. intros h l. destruct (decide (h = g)) as [->|Hh].
    - rewrite lookup_insert_eq. intros [= <-]. by destruct (default [] _).
    - rewrite lookup_insert_ne by done. apply N. }
  split; [exact N'|]. intros h. rewrite E. unfold add_member. destruct (decide (g = h)) as [->|Hh].
  - rewrite lookup_insert_eq, bool_decide_true by done. simpl. by rewrite <- app_assoc.
  - by rewrite lookup_insert_ne, bool_decide_false.
Qed.

Lemma group_members_spec rs :
  no_empty (group_members rs) /\ forall h, default [] (group_members rs !! h) = users_in h rs.
Proof.
  unfold group_members, users_in.
  assert (forall m, no_empty m ->
    let m' := foldl (fun grouped record => foldl (add_member (sur_username record)) grouped
                       (group_names (sur_groups record))) m rs in
    no_empty m' /\ forall h, default [] (m' !! h) = default [] (m !! h) ++ users_in h rs) as H.
  { induction rs as [|r rs IH]; intros m N; [split; [done|intros; by rewrite app_nil_r]|].
    destruct (add_members (sur_username r) (group_names (sur_groups r)) m N) as [N' E].
    destruct (IH _ N') as [N'' E']. split; [exact N''|]. intros h. simpl. rewrite E', E.
    by rewrite <- app_assoc. }
  destruct (H ∅) as [N E]; [intros h l; by rewrite lookup_empty|].
  split; [exact N|]. intros h. rewrite E. by rewrite lookup_empty.
Qed.

Lemma group_members_lookup rs h l :
  group_members rs !! h = Some l <-> l = users_in h rs /\ l <> [].
Proof.
  destruct (group_members_spec rs) as [N E]. specialize (E h). split.
  - intros H. rewrite H in E. split; [done|by eapply N].
  - intros [-> H]. rewrite <- E in *. by destruct (group_members rs !! h).
Qed.

(** Exactly the groups with a member are observed, with their members. *)
Lemma observed_group b rs gl h l :
  parse_secret_user_records b = Ok rs -> parse_groups_from_user_file b = Ok gl ->
  mkObservedGroup h l ∈ gl <->
  l = merge_sort (key_order id) (users_in h rs) /\ users_in h rs <> [].
Proof.
  intros P. unfold parse_groups_from_user_file. rewrite P. intros [= <-].
  rewrite merge_sort_Permutation, list_elem_of_fmap. split.
  - intros ([h' m] & E & Hm%elem_of_map_to_list). injection E as -> ->.
    apply group_members_lookup in Hm as [-> Hm]. done.
  - intros [-> Hm]. exists (h, users_in h rs). split; [done|].
    by apply elem_of_map_to_list, group_members_lookup.
Qed.

Lemma elem_of_users_in h rs u :
  u ∈ users_in h rs <-> exists r, r ∈ rs /\ sur_username r = u /\ h ∈ group_names (sur_groups r).
Proof.
  unfold users_in. rewrite list_elem_of_In, in_concat. split.
  - intros (l & Hl%list_elem_of_In & Hu%list_elem_of_In).
    apply list_elem_of_fmap in Hl as (r & -> & Hr).
    apply list_elem_of_fmap in Hu as (g & -> & [Hg E]%elem_of_filter).
    apply bool_decide_eq_true in E as ->. eauto.
  - intros (r & Hr & <- & Hg).
    eexists. split; apply list_elem_of_In; [by apply list_elem_of_fmap_2|].
    apply list_elem_of_fmap. exists h. split; [done|]. apply elem_of_filter.
    split; [done|by apply bool_decide_eq_true].
Qed.

#[local] Instance key_order_id_antisym : AntiSymm (=) (key_order (@id bytes)).
Proof. intros a b. apply (key_order_antisym id). Qed.

(** Strictly increasing lists with the same elements are equal. *)
Lemma key_sorted_ext l l' :
  key_sorted id l -> key_sorted id l' -> (forall u, u ∈ l <-> u ∈ l') -> l = l'.
Proof.
  intros S S' E. rewrite <- (merge_sort_sorted id l), <- (merge_sort_sorted id l') by done.
  assert (l ≡ₚ l') as P.
  { apply NoDup_Permutation; [..|exact E];
      [apply key_sorted_NoDup in S|apply key_sorted_NoDup in S']; by rewrite list_fmap_id in *. }
  apply (StronglySorted_unique (key_order id)).
  - apply StronglySorted_merge_sort; apply _.
  - apply StronglySorted_merge_sort; apply _.
  - by rewrite !merge_sort_Permutation.
Qed.

Lemma increasing_sorted previous members :
  increasing_names previous members = Ok tt ->
  key_sorted id members /\ Forall (fun m => bytes_lt previous m) members.
Proof.
  revert previous. induction members as [|m members IH]; intros previous; simpl; [repeat constructor|].
  destruct (validate_name m); [|done]. destruct (bytes_leb m previous) eqn:L; [done|].
  apply bytes_leb_nlt in L. intros [S F]%IH. split; [by constructor|]. constructor; [done|].
  eapply Forall_impl; [exact F|]. intros k. by transitivity m.
Qed.

(** The groups observed are among the groups the records name. *)
Lemma observed_groups_few b rs groups :
  parse_secret_user_records b = Ok rs -> parse_groups_from_user_file b = Ok groups ->
  NoDup (og_group_name <$> groups) /\ len groups <= memberships rs.
Proof.
  intros P. unfold parse_groups_from_user_file. rewrite P. intros [= <-].
  set (of_pair := fun '(h, l) => mkObservedGroup h (merge_sort (key_order id) l)).
  pose proof (merge_sort_Permutation (key_order og_group_name)
                (of_pair <$> map_to_list (group_members rs))) as Perm.
  assert (og_group_name <$> (of_pair <$> map_to_list (group_members rs))
          = (map_to_list (group_members rs)).*1) as E.
  { rewrite <- list_fmap_compose. apply list_fmap_ext. by intros i [h l] _. }
  assert (NoDup (map_to_list (group_members rs)).*1) as N by apply NoDup_fst_map_to_list.
  split; [by rewrite Perm, E|]. unfold len, memberships, len. rewrite Perm, length_fmap.
  rewrite <- (length_fmap fst). apply inj_le, submseteq_length, NoDup_submseteq; [done|].
  intros h ([h' l] & -> & H%elem_of_map_to_list)%list_elem_of_fmap. simpl.
  apply group_members_lookup in H as [-> H].
  destruct (users_in h' rs) as [|u us] eqn:Eu; [done|].
  assert (u ∈ users_in h' rs) as Hu by (rewrite Eu; by left).
  apply elem_of_users_in in Hu as (r & Hr & _ & Hg).
  rewrite list_elem_of_In, in_concat. eexists. split; [|by apply list_elem_of_In].
  apply list_elem_of_In. apply list_elem_of_fmap. by exists r.
Qed.

Lemma parse_user_file_eq b rs :
  parse_secret_user_records b = Ok rs -> parse_user_file b = Ok (observed_user <$> rs).
Proof.
  intros P. unfold parse_user_file. rewrite P. apply parse_records_wf in P as [_ S].
  rewrite merge_sort_sorted; [done|]. by eapply key_sorted_fmap.
Qed.

(** * Theorems *)

(** C36. Bounds and shape: a user file the adapter reads holds at most 384
    users and 384 memberships, each user once and in the order of the names,
    with a valid name of 1 to 64 bytes, a nonempty hash and valid group names;
    the users and the groups reported from it are at most 384 each, without
    repetition. *)
Theorem user_file_bounded b rs :
  parse_secret_user_records b = Ok rs ->
  wf_users rs /\ key_sorted sur_username rs
  /\ Forall (fun r => 1 <= len (sur_username r) <= 64) rs
  /\ exists users groups,
       parse_user_file b = Ok users /\ parse_groups_from_user_file b = Ok groups
       /\ len users <= MAX_MANAGED_RESOURCES /\ len groups <= MAX_MANAGED_RESOURCES
       /\ NoDup (ou_username <$> users) /\ NoDup (og_group_name <$> groups).
Proof.
  intros P. pose proof (parse_records_wf _ _ P) as [W S]. split_and!; [done|done| |].
  { eapply Forall_impl; [apply W|]. intros r Wr.
    destruct (validate_name_bytes _ (wu_username _ Wr)) as (Hn & Hl & _).
    destruct (sur_username r); [done|]. unfold len in *. simpl in *. lia. }
  rewrite (parse_user_file_eq _ _ P). destruct (parse_groups_from_user_file b) as [groups|] eqn:G.
  2:{ unfold parse_groups_from_user_file in G. by rewrite P in G. }
  destruct (observed_groups_few _ _ _ P G) as [Ng Lg].
  exists (observed_user <$> rs), groups. split_and!; try done.
  - unfold len. rewrite length_fmap. apply W.
  - pose proof (wf_memberships _ W). lia.
  - rewrite <- list_fmap_compose. by apply key_sorted_NoDup in S.
Qed.

(** Round trip: a list of well-formed user records in the order of the
    names, written as [group_apply] writes them, reads back as the same
    records, as long as the text stays within 16 MiB and no hash ends in a
    carriage return. *)
Theorem user_file_round_trip rs :
  wf_users rs -> key_sorted sur_username rs -> Forall no_final_cr rs ->
  len (render_users rs) <= MAX_USER_FILE_BYTES ->
  parse_secret_user_records (render_users rs) = Ok rs.
Proof.
  intros [We Wc Wm] S C L. rewrite parse_render by done. by rewrite !(proj2 (Z.leb_le _ _)).
Qed.

Lemma users_in_ext h rs rs' :
  Forall2 (fun r r' => sur_username r = sur_username r' /\
             (h ∈ group_names (sur_groups r) <-> h ∈ group_names (sur_groups r'))) rs rs' ->
  forall u, u ∈ users_in h rs <-> u ∈ users_in h rs'.
Proof.
  intros F u. rewrite !elem_of_users_in. split; intros (r & Hr & Hu & Hg).
  - apply list_elem_of_lookup in Hr as [i Hi].
    destruct (Forall2_lookup_l _ _ _ _ _ F Hi) as (r' & Hi' & E & G).
    exists r'. split_and!; [by eapply list_elem_of_lookup_2|congruence|by apply G].
  - apply list_elem_of_lookup in Hr as [i Hi].
    destruct (Forall2_lookup_r _ _ _ _ _ F Hi) as (r' & Hi' & E & G).
    exists r'. split_and!; [by eapply list_elem_of_lookup_2|congruence|by apply G].
Qed.

(** The users of the rewritten group, each counted once. *)
Lemma users_in_rewritten g ms rs :
  validate_name g = Ok tt -> g <> str "x" -> Forall wf_user rs -> key_sorted sur_username rs ->
  key_sorted id (users_in g (rewrite_record g ms <$> rs)).
Proof.
  intros V X W S. unfold users_in. rewrite <- list_fmap_compose. unfold compose.
  induction S as [|r rs S IH F]; [constructor|]. inversion W as [|? ? Wr W']; subst.
  rewrite fmap_cons, concat_cons, rewrite_record_groups by done. cbn [sur_username rewrite_record].
  pose proof (key_sorted_NoDup _ _ (rewritten_sorted g ms r)) as N. rewrite list_fmap_id in N.
  assert (List.filter (fun h => bool_decide (h = g)) (rewritten_groups g ms r) = []
          \/ List.filter (fun h => bool_decide (h = g)) (rewritten_groups g ms r) = [g]) as [-> | ->].
  { clear -N. induction N as [|h l Hh N IH]; [by left|]. simpl. case_bool_decide as E; [|exact IH].
    subst. right. destruct IH as [-> | IH]; [done|]. destruct Hh.
    assert (g ∈ List.filter (fun h => bool_decide (h = g)) l) as Hg by (rewrite IH; by left).
    by apply elem_of_filter in Hg as [? _]. }
  - by apply IH.
  - simpl. constructor; [by apply IH|]. apply Forall_forall. intros u Hu.
    rewrite list_elem_of_In, in_concat in Hu. destruct Hu as (l & Hl & Hu).
    apply list_elem_of_In in Hl, Hu. apply list_elem_of_fmap in Hl as (r' & -> & Hr').
    apply list_elem_of_fmap in Hu as (? & -> & _). rewrite Forall_forall in F. by apply F.
Qed.

Lemma rewritten_related g ms rs :
  validate_name g = Ok tt -> g <> str "x" -> Forall wf_user rs ->
  Forall2 (fun r r' => sur_username r' = sur_username r /\ sur_hash r' = sur_hash r /\
      forall h, h ∈ group_names (sur_groups r') <->
        if decide (h = g) then sur_username r ∈ ms else h ∈ group_names (sur_groups r))
    rs (rewrite_record g ms <$> rs).
Proof.
  intros V X F. apply Forall2_fmap_r. induction F as [|r rs W F IH]; constructor; [|done].
  split_and!; [done|done|]. intros h. by rewrite rewrite_record_groups, elem_of_rewritten.
Qed.

(** A user is observed in a group when a record puts it there. *)
Lemma observed_member b rs gl h u :
  parse_secret_user_records b = Ok rs -> parse_groups_from_user_file b = Ok gl ->
  (exists l, mkObservedGroup h l ∈ gl /\ u ∈ l) <-> u ∈ users_in h rs.
Proof.
  intros P G. split.
  - intros (l & [-> _]%(observed_group _ _ _ _ _ P G) & Hu). by rewrite merge_sort_Permutation in Hu.
  - intros Hu. exists (merge_sort (key_order id) (users_in h rs)). split; [|by rewrite merge_sort_Permutation].
    apply (observed_group _ _ _ _ _ P G). split; [done|]. intros E. rewrite E in Hu.
    by apply not_elem_of_nil in Hu.
Qed.

(** The rewritten group has exactly the requested members. *)
Lemma users_in_requested g ms rs :
  validate_name g = Ok tt -> g <> str "x" -> Forall wf_user rs -> key_sorted sur_username rs ->
  key_sorted id ms -> forallb (fun m => bool_decide (m ∈ sur_username <$> rs)) ms = true ->
  users_in g (rewrite_record g ms <$> rs) = ms.
Proof.
  intros V X W S Sm Sub. pose proof (rewritten_related g ms rs V X W) as Rel.
  apply key_sorted_ext; [by apply users_in_rewritten|done|]. intros u. rewrite elem_of_users_in. split.
  - intros (r' & Hr' & <- & Hg). apply list_elem_of_lookup in Hr' as [i Hi].
    destruct (Forall2_lookup_r _ _ _ _ _ Rel Hi) as (r & Hi' & -> & _ & Hm).
    apply Hm in Hg. by rewrite decide_True in Hg.
  - intros Hu. rewrite forallb_forall in Sub.
    pose proof (Sub u (proj1 (list_elem_of_In _ _) Hu)) as Hin.
    apply bool_decide_eq_true, list_elem_of_fmap in Hin as (r & -> & Hr).
    apply list_elem_of_lookup in Hr as [i Hi].
    destruct (Forall2_lookup_l _ _ _ _ _ Rel Hi) as (r' & Hi' & Hn & _ & Hm).
    exists r'. split_and!; [by eapply list_elem_of_lookup_2|done|].
    apply Hm. by rewrite decide_True.
Qed.

(** The contents computed are the rewritten records. *)
Lemma group_contents_records b rs g ms out :
  parse_secret_user_records b = Ok rs -> Forall no_final_cr rs -> validate_name g = Ok tt ->
  group_contents g ms b = Ok out ->
  parse_secret_user_records out = Ok (rewrite_record g ms <$> rs)
  /\ forallb (fun m => bool_decide (m ∈ sur_username <$> rs)) ms = true.
Proof.
  intros P C V G. rewrite (group_contents_eq _ _ _ _ V P C) in G. cbv zeta in G.
  destruct (forallb _ ms) eqn:Sub; [|done]. destruct (_ && _) eqn:Fit; [|done]. injection G as <-.
  pose proof (parse_records_wf _ _ P) as [W S]. split; [|done]. rewrite parse_render.
  - assert (len (rewrite_record g ms <$> rs) = len rs) as -> by (unfold len; by rewrite length_fmap).
    by rewrite Fit.
  - apply rewrite_records_wf; [done|apply W].
  - apply Forall_fmap. eapply Forall_impl; [exact C|]. by intros r.
  - by eapply key_sorted_fmap.
Qed.

Lemma groups_readable b rs :
  parse_secret_user_records b = Ok rs -> exists gl, parse_groups_from_user_file b = Ok gl.
Proof. intros P. unfold parse_groups_from_user_file. rewrite P. eauto. Qed.


(** Errors: on a readable user file whose users include the requested
    members, the only way [group_apply] fails to compute the new contents is
    that they would exceed the capacity (16 MiB or 384 memberships), and it
    then says so. *)
Theorem group_apply_fails_on_capacity b rs g ms :
  parse_secret_user_records b = Ok rs -> Forall no_final_cr rs -> validate_name g = Ok tt ->
  (forall m, m ∈ ms -> m ∈ sur_username <$> rs) ->
  if (len (render_users (rewrite_record g ms <$> rs)) <=? MAX_USER_FILE_BYTES)
     && (memberships (rewrite_record g ms <$> rs) <=? MAX_MANAGED_RESOURCES)
  then group_contents g ms b = Ok (render_users (rewrite_record g ms <$> rs))
  else group_contents g ms b = Err CapacityExceeded.
Proof.
  intros P C V Sub. rewrite (group_contents_eq _ _ _ _ V P C). cbv zeta.
  rewrite (proj2 (forallb_forall _ ms)).
  2:{ intros m Hm%list_elem_of_In. by apply bool_decide_eq_true, Sub. }
  pose proof (parse_records_wf _ _ P) as [W _].
  rewrite (proj2 (Z.leb_le (len rs) _)) by apply W. rewrite andb_true_r. simpl negb. cbv iota.
  by destruct (_ && _).
Qed.

(** The name [x] is accepted for a group and then never observed: the file
    format uses it for no group, so however the file was written no observed
    group has that name. *)
Theorem group_x_never_observed b groups :
  parse_groups_from_user_file b = Ok groups ->
  validate_name (str "x") = Ok tt /\ forall l, mkObservedGroup (str "x") l ∉ groups.
Proof.
  intros G. split; [done|]. intros l H. unfold parse_groups_from_user_file in G.
  destruct (parse_secret_user_records b) as [rs|] eqn:P; [|done].
  assert (parse_groups_from_user_file b = Ok groups) as G'
    by (unfold parse_groups_from_user_file; by rewrite P).
  apply (observed_group _ _ _ _ _ P G') in H as [_ H].
  destruct (users_in (str "x") rs) as [|u us] eqn:E; [done|].
  assert (u ∈ users_in (str "x") rs) as Hu by (rewrite E; by left).
  apply elem_of_users_in in Hu as (r & _ & _ & [_ Hx]%group_names_spec). done.
Qed.

(** * Witnesses *)

Definition sample_file : bytes :=
  str "carol:staff,x:$5$c" ++ [x0a] ++ str "alice:*:!$5$a" ++ [x0a; x0a] ++ str "bob:staff:$5$b".

Definition sample_records : list SecretUserRecord :=
  [mkSecretUserRecord (str "alice") (str "*") (str "!$5$a");
   mkSecretUserRecord (str "bob") (str "staff") (str "$5$b");
   mkSecretUserRecord (str "carol") (str "staff,x") (str "$5$c")].

Lemma sample_parsed : parse_secret_user_records sample_file = Ok sample_records.
Proof. vm_compute. reflexivity. Qed.

Lemma sample_no_cr : Forall no_final_cr sample_records.
Proof. by repeat constructor. Qed.

(** The sample file holds three users, one of them locked, and one group. *)
Lemma user_file_bounded_witness : wf_users sample_records /\ key_sorted sur_username sample_records.
Proof.
  destruct (user_file_bounded sample_file sample_records sample_parsed) as (W & S & _).
  exact (conj W S).
Defined.

Lemma user_file_round_trip_witness :
  parse_secret_user_records (render_users sample_records) = Ok sample_records.
Proof.
  pose proof (parse_records_wf _ _ sample_parsed) as [W S].
  apply (user_file_round_trip sample_records W S sample_no_cr). vm_compute. discriminate.
Defined.

(** Putting alice and bob in the group [staff] drops carol from it. *)
Definition staff_file : bytes :=
  str "alice:staff:!$5$a" ++ [x0a] ++ str "bob:staff:$5$b" ++ [x0a] ++ str "carol:*:$5$c" ++ [x0a].

Lemma staff_contents :
  group_contents (str "staff") [str "alice"; str "bob"] sample_file = Ok staff_file.
Proof. vm_compute. reflexivity. Qed.


Lemma group_apply_fails_on_capacity_witness :
  group_contents (str "staff") [str "alice"; str "bob"] sample_file =
  Ok (render_users (rewrite_record (str "staff") [str "alice"; str "bob"] <$> sample_records)).
Proof.
  apply (group_apply_fails_on_capacity sample_file sample_records (str "staff")
    [str "alice"; str "bob"] sample_parsed sample_no_cr); [reflexivity|].
  intros m H. rewrite elem_of_cons, list_elem_of_singleton in H. simpl.
  destruct H as [-> | ->]; set_solver.
Defined.

(** The group [x] with the member alice is written and not read back. *)
Definition x_file : bytes :=
  str "alice:x:!$5$a" ++ [x0a] ++ str "bob:staff:$5$b" ++ [x0a] ++ str "carol:staff:$5$c" ++ [x0a].

Lemma group_x_never_observed_witness :
  group_contents (str "x") [str "alice"] sample_file = Ok x_file
  /\ mkObservedGroup (str "x") [str "alice"]
       ∉ [mkObservedGroup (str "staff") [str "bob"; str "carol"]].
Proof.
  split; [vm_compute; reflexivity|].
  apply (group_x_never_observed x_file [mkObservedGroup (str "staff") [str "bob"; str "carol"]]).
  vm_compute. reflexivity.
Defined.
