(* ===== verification/CandidateTheorems.v ===== *)
(** Configuration candidates: an accepted candidate is exactly a list of
    allowed directives, its redacted difference shows no secret reference, and
    what the plan has ocserv check is what the apply publishes; the text of a
    complete configuration reads back as its directives. *)

From stdpp Require Import base list gmap numbers sorting strings.
From Stdlib Require Import ZArith Lia Bool Strings.Byte.
From S2P Require Import Prelude Bytes Text Contracts ConfigProfile ConfigTheorems Executor EffectRecords Utf8.
From S2P Require Import PrivdProtocol AdapterText AdapterTextFacts.

Local Open Scope Z_scope.

(** * Substrings *)

Lemma split_once_str_Some sep s before after :
  split_once_str sep s = Some (before, after) -> s = before ++ sep ++ after.
Proof.
  revert before. induction s as [|b s IH]; intros before; simpl.
  - destruct (strip_prefix sep []) eqn:E; [|done]. intros [= <- <-].
    apply strip_prefix_Some in E. done.
  - destruct (strip_prefix sep (b :: s)) eqn:E.
    + intros [= <- <-]. by apply strip_prefix_Some in E.
    + destruct (split_once_str sep s) as [[x y]|]; [|done]. intros [= <- <-].
      simpl. f_equal. by apply IH.
Qed.

Lemma contains_str_false sep s : contains_str sep s = false <-> split_once_str sep s = None.
Proof.
  unfold contains_str. destruct (split_once_str sep s).
  - by rewrite bool_decide_true.
  - rewrite bool_decide_false; [done|]. intros H. by apply H.
Qed.

(** A pair of bytes is found in a text as it is in its parts, when no part
    ends inside it. *)
Section Pair.
Context (a c : byte).

Lemma pair_cons b s :
  contains_str [a; c] (b :: s) =
  (bool_decide (a = b) && match s with d :: _ => bool_decide (c = d) | [] => false end)
  || contains_str [a; c] s.
Proof.
  unfold contains_str. cbn [split_once_str strip_prefix].
  destruct (decide (a = b)) as [->|E].
  - rewrite (bool_decide_true (b = b)) by done. cbn [andb]. destruct s as [|d s].
    + reflexivity.
    + destruct (decide (c = d)) as [->|E'].
      * rewrite (bool_decide_true (d = d)) by done. cbn [orb]. by rewrite bool_decide_true.
      * rewrite (bool_decide_false (c = d)) by done. cbn [orb].
        apply bool_decide_ext. by destruct (split_once_str _ (d :: s)) as [[? ?]|].
  - rewrite (bool_decide_false (a = b)) by done. cbn [andb orb].
    apply bool_decide_ext. by destruct (split_once_str _ s) as [[? ?]|].
Qed.

Lemma pair_skip p s : a ∉ p -> contains_str [a; c] (p ++ s) = contains_str [a; c] s.
Proof.
  induction p as [|b p IH]; [done|]. intros [N1 N2]%not_elem_of_cons. simpl app.
  rewrite pair_cons, bool_decide_false by done. by apply IH.
Qed.

Lemma pair_line v s :
  a <> x0a -> c <> x0a ->
  contains_str [a; c] (v ++ x0a :: s) = contains_str [a; c] v || contains_str [a; c] s.
Proof.
  intros Ha Hc. induction v as [|b v IH].
  - simpl app. rewrite pair_cons, bool_decide_false by done. cbn. done.
  - simpl app. rewrite !pair_cons, IH. rewrite orb_assoc. f_equal. f_equal. f_equal.
    destruct v; [|done]. simpl. by rewrite bool_decide_false.
Qed.

End Pair.

(** * The lines of a candidate *)

Lemma split_on_snoc c s : split_on c (s ++ [c]) = split_on c s ++ [[]].
Proof.
  induction s as [|b s IH]; simpl; [by rewrite bool_decide_true|].
  case_bool_decide; rewrite IH; [done|].
  pose proof (split_on_nonempty c s). by destruct (split_on c s).
Qed.

Lemma line_pieces_snoc ps : line_pieces (ps ++ [[]]) = strip_cr <$> ps.
Proof.
  induction ps as [|p ps IH]; [done|]. simpl. rewrite IH. by destruct ps.
Qed.

Lemma join_snoc ps : ps <> [] -> join x0a ps ++ [x0a] = concat ((fun l => l ++ [x0a]) <$> ps).
Proof.
  intros N. induction ps as [|p [|q ps] IH]; [done|simpl; by rewrite app_nil_r|].
  change (join x0a (p :: q :: ps)) with (p ++ x0a :: join x0a (q :: ps)).
  rewrite fmap_cons, concat_cons, <- IH by done. by rewrite <- !app_assoc.
Qed.

(** A text that ends its last line and holds no carriage return is the text
    of its lines. *)
Lemma lines_inverse text :
  x0d ∉ text -> ends_with [x0a] text = true ->
  text = concat ((fun l => l ++ [x0a]) <$> lines text).
Proof.
  unfold ends_with. rewrite bool_decide_eq_true. intros N E.
  destruct (strip_suffix [x0a] text) as [s|] eqn:Es; [|done]. apply strip_suffix_Some in Es as ->.
  apply not_elem_of_app in N as [N _].
  unfold lines. rewrite split_on_snoc, line_pieces_snoc.
  replace (strip_cr <$> split_on x0a s) with (split_on x0a s).
  - rewrite <- join_snoc by apply split_on_nonempty. by rewrite join_split_on.
  - rewrite <- (join_split_on x0a s) in N. generalize dependent (split_on x0a s). intros ps N.
    induction ps as [|p ps IH]; [done|]. simpl. f_equal.
    + rewrite strip_cr_id; [done|]. intros L%last_Some_elem_of.
      apply N. destruct ps; simpl; [done|]. apply elem_of_app. by left.
    + apply IH. destruct ps; [apply not_elem_of_nil|]. simpl in N.
      apply not_elem_of_app in N as [_ N]. by apply not_elem_of_cons in N as [_ N].
Qed.

(** * Accepted candidates *)

Definition secret_reference (value : bytes) : bool := is_some (parse_secret_placeholder value).

(** The policy on one directive. *)
Record allowed_directive (name value : bytes) : Prop := {
  ad_name : name ∈ CONFIG_DIRECTIVES;
  ad_length : 1 <= len value <= 4096;
  ad_clean : contains_str (str "{{") value = false /\ contains_str (str "}}") value = false
             /\ contains_str (str "../") value = false;
  ad_secret : secret_reference value = true <->
              name = str "server-key" \/ name = str "server-cert" \/ name = str "ca-cert";
  ad_plain : secret_reference value = false -> contains_str (str "${") value = false;
  ad_socket : name = str "socket-file" -> value = str "/run/ocserv.socket";
  ad_auth : name = str "auth" -> value = str "plain[passwd=/etc/ocserv/ocpasswd]" }.

Definition directive_line (d : bytes * bytes) : bytes := d.1 ++ DIRECTIVE_SEPARATOR ++ d.2.

Definition candidate_text (ds : list (bytes * bytes)) : bytes :=
  concat ((fun l => l ++ [x0a]) <$> (CANDIDATE_HEADER :: (directive_line <$> ds))).

Lemma one_of_secret name :
  one_of name ["server-key"; "server-cert"; "ca-cert"]%string = true <->
  name = str "server-key" \/ name = str "server-cert" \/ name = str "ca-cert".
Proof. unfold one_of. simpl. rewrite !orb_true_iff, !bool_decide_eq_true. naive_solver. Qed.

Lemma directive_allowed name value :
  name ∈ CONFIG_DIRECTIVES -> is_empty value = false -> (4096 <? len value) = false ->
  directive_refused name value = false -> allowed_directive name value.
Proof.
  intros N E L R. unfold directive_refused in R. repeat rewrite orb_false_iff in R.
  destruct R as [[[[[[[R1 R2] R3] R4] R5] R6] R7] R8]. split; unfold secret_reference; try done.
  - split; [|lia]. destruct value; [done|]. unfold len. simpl. lia.
  - rewrite <- one_of_secret. destruct (is_some _), (one_of _ _); simpl in *; done.
  - intros H. rewrite H in R4. simpl in R4. by rewrite andb_true_r in R4.
  - intros ->. rewrite bool_decide_true in R7 by done. simpl in R7. by split_guards.
  - intros ->. rewrite bool_decide_true in R8 by done. simpl in R8. by split_guards.
Qed.

Lemma validate_directives_ok ls : forall seen seen',
  validate_directives seen ls = Ok seen' -> NoDup seen ->
  exists ds, Forall2 (fun l d => split_once_str DIRECTIVE_SEPARATOR l = Some d) ls ds
    /\ Forall (fun d => allowed_directive d.1 d.2) ds /\ seen' = rev ds.*1 ++ seen /\ NoDup seen'.
Proof.
  induction ls as [|l ls IH]; intros seen seen'; simpl.
  { intros [= <-] N. exists []. by repeat constructor. }
  destruct (split_once_str _ l) as [[name value]|] eqn:E; [|done]. simpl.
  destruct (_ || _) eqn:G; [done|]. destruct (directive_refused name value) eqn:R; [done|].
  intros H N. split_guards.
  destruct (IH _ _ H) as (ds & F & A & -> & N'); [by constructor|].
  exists ((name, value) :: ds). split_and!; [by constructor| |simpl; by rewrite <- app_assoc|done].
  constructor; [by apply directive_allowed|done].
Qed.

Lemma accepted_candidate c :
  validate_config_candidate c = Ok tt ->
  exists ds, c = candidate_text ds /\ ds <> [] /\ NoDup ds.*1
    /\ lines c = CANDIDATE_HEADER :: (directive_line <$> ds)
    /\ Forall (fun d => split_once_str DIRECTIVE_SEPARATOR (directive_line d) = Some d) ds
    /\ Forall (fun d => allowed_directive d.1 d.2) ds.
Proof.
  unfold validate_config_candidate. destruct (_ || _) eqn:G; [done|].
  apply orb_false_iff in G as [[G1 G2]%orb_false_iff G3]. apply negb_false_iff in G3.
  destruct (lines c) as [|first rest] eqn:L; [done|]. case_bool_decide as E; [|done]. simpl.
  destruct (validate_directives [] rest) as [seen|] eqn:V; [|done].
  destruct (is_empty seen) eqn:Es; [done|]. intros _.
  apply validate_directives_ok in V as (ds & F & A & -> & N); [|constructor].
  rewrite app_nil_r in *. exists ds. subst first.
  assert (rest = directive_line <$> ds) as ->.
  { clear -F. induction F as [|l d ls ds E F IH]; [done|]. destruct d as [n v].
    apply split_once_str_Some in E. simpl. by rewrite E, IH. }
  assert (x0d ∉ c) as Hr.
  { intros H%list_elem_of_In. apply not_true_iff_false in G1. apply G1, existsb_exists.
    exists x0d. split; [done|by apply bool_decide_eq_true]. }
  split_and!; try done.
  - by rewrite (lines_inverse c), L.
  - by intros ->.
  - by rewrite <- Permutation_rev in N.
  - clear -F. induction ds as [|d ds IH]; [constructor|]. inversion F; subst. constructor; auto.
Qed.

(** An accepted candidate is, byte for byte, the fixed header and one line
    per directive: at least one, each an allowed directive at most once, a
    secret reference exactly for the keys and certificates, the socket and the
    password file at their fixed paths. *)
Theorem candidate_is_allowed_directives c :
  validate_config_candidate c = Ok tt ->
  exists ds, c = candidate_text ds /\ ds <> [] /\ NoDup ds.*1
    /\ Forall (fun d => allowed_directive d.1 d.2) ds.
Proof. intros (ds & E & N & U & _ & _ & A)%accepted_candidate. by exists ds. Qed.

(** * The redacted difference *)

Definition shown (d : bytes * bytes) : bytes :=
  str "+ " ++ d.1 ++ DIRECTIVE_SEPARATOR ++ safe_value d.2 ++ [x0a].

(** A decidable fact about constants. *)
Ltac by_computation := refine (bool_decide_eq_true_1 _ _); vm_compute; reflexivity.

(** No directive starts a comment or holds a dollar sign. *)
Lemma directive_name_clean n :
  n ∈ CONFIG_DIRECTIVES -> n <> [] /\ starts_with [x23] n = false /\ x24 ∉ n.
Proof.
  assert (forallb (fun n => negb (is_empty n) && negb (starts_with [x23] n)
            && bool_decide (x24 ∉ n)) CONFIG_DIRECTIVES = true) as F by (vm_compute; reflexivity).
  rewrite forallb_forall in F. intros H%list_elem_of_In%F.
  rewrite !andb_true_iff, !negb_true_iff, bool_decide_eq_true in H. destruct H as [[H1 H2] H3].
  by destruct n.
Qed.

Lemma starts_with_app b p s : p <> [] -> starts_with [b] (p ++ s) = starts_with [b] p.
Proof.
  destruct p as [|x p]; [done|]. intros _. unfold starts_with. cbn [app strip_prefix].
  destruct (bool_decide (b = x)); [|done]. apply bool_decide_ext. naive_solver.
Qed.

Lemma redacted_directives ds :
  Forall (fun d => split_once_str DIRECTIVE_SEPARATOR (directive_line d) = Some d) ds ->
  Forall (fun d => allowed_directive d.1 d.2) ds ->
  redacted_lines (directive_line <$> ds) = Ok (concat (shown <$> ds)).
Proof.
  intros F A. induction F as [|d ds E F IH]; [done|]. inversion A as [|? ? Ad A']; subst.
  rewrite !fmap_cons, concat_cons. cbn [redacted_lines].
  destruct (directive_name_clean _ (ad_name _ _ Ad)) as (Hn & Hc & _).
  unfold directive_line at 1. rewrite starts_with_app by done.
  rewrite Hc, E. destruct d as [n v]. cbn [ok_or]. rewrite IH by done. unfold shown at 2. cbn [fst snd].
  by rewrite <- !app_assoc.
Qed.

Lemma provider_clean value provider : parse_secret_placeholder value = Some provider -> x24 ∉ provider.
Proof.
  unfold parse_secret_placeholder. destruct (strip_prefix _ _); [|done].
  destruct (strip_suffix _ _); [|done]. destruct (split_once _ _) as [[p k]|]; [|done].
  destruct (_ || _) eqn:G; [done|]. intros [= <-]. repeat rewrite orb_false_iff in G.
  destruct G as [[_ G] _]. rewrite negb_false_iff, forallb_forall in G.
  intros H%list_elem_of_In%G. done.
Qed.

Lemma shown_clean name value rest :
  allowed_directive name value -> contains_str (str "${") rest = false ->
  contains_str (str "${") (shown (name, value) ++ rest) = false.
Proof.
  intros A R. unfold shown. rewrite <- !app_assoc. change (str "${") with [x24; x7b] in *.
  destruct (directive_name_clean _ (ad_name _ _ A)) as (_ & _ & Hn).
  rewrite pair_skip by by_computation. cbn [fst snd].
  rewrite pair_skip by done. rewrite pair_skip by by_computation.
  simpl app. rewrite pair_line by done. rewrite R, orb_false_r. unfold safe_value.
  destruct (parse_secret_placeholder value) as [provider|] eqn:E.
  - rewrite pair_skip by by_computation.
    rewrite pair_skip by (by eapply provider_clean). done.
  - apply (ad_plain _ _ A). unfold secret_reference. by rewrite E.
Qed.

(** The difference of an accepted candidate is the fixed first line and
    one line per directive in order, in which a secret reference is shown by
    its provider only; the text never holds a reference, so no secret key is
    disclosed. *)
Theorem diff_hides_secret_keys c diff :
  validate_config_candidate c = Ok tt -> redacted_candidate_diff c = Ok diff ->
  (exists ds, c = candidate_text ds /\ diff = REDACTED_CURRENT ++ concat (shown <$> ds))
  /\ contains_str (str "${") diff = false /\ len diff <= MAX_CONFIG_PLAN_BYTES.
Proof.
  intros (ds & Ec & N & U & L & F & A)%accepted_candidate. unfold redacted_candidate_diff.
  rewrite L. cbn [redacted_lines].
  assert (starts_with [x23] CANDIDATE_HEADER = true) as -> by (vm_compute; reflexivity).
  rewrite redacted_directives by done. destruct (_ <? _) eqn:Lm; [done|]. intros E.
  assert (diff = REDACTED_CURRENT ++ concat (shown <$> ds)) as -> by congruence.
  split_and!; [by exists ds| |by apply Z.ltb_ge].
  change (str "${") with [x24; x7b]. rewrite pair_skip by by_computation.
  clear -A. induction A as [|[n v] ds Ad A IH]; [vm_compute; reflexivity|].
  rewrite fmap_cons, concat_cons. by apply shown_clean.
Qed.

(** * The candidate the syntax check sees *)

Lemma contains_str_app sep p s : contains_str sep (p ++ sep ++ s) = true.
Proof.
  destruct (contains_str sep (p ++ sep ++ s)) eqn:E; [done|]. exfalso.
  apply contains_str_false in E. induction p as [|b p IH].
  - simpl app in E. destruct (sep ++ s) as [|x t] eqn:Et; simpl in E.
    + apply app_eq_nil in Et as [-> ->]. done.
    + rewrite <- Et, strip_prefix_app in E. done.
  - simpl in E. destruct (strip_prefix sep _); [done|].
    destruct (split_once_str sep (p ++ sep ++ s)) as [[? ?]|] eqn:E'; [done|]. by apply IH.
Qed.

Lemma secret_reference_prefix value :
  secret_reference value = true -> exists rest, value = str "${secret:" ++ rest.
Proof.
  unfold secret_reference, parse_secret_placeholder.
  destruct (strip_prefix (str "${secret:") value) as [rest|] eqn:E; [|done].
  intros _. exists rest. by apply strip_prefix_Some.
Qed.

Lemma parser_directives ds :
  Forall (fun d => split_once_str DIRECTIVE_SEPARATOR (directive_line d) = Some d) ds ->
  parser_lines (directive_line <$> ds) =
    Ok (concat ((fun d => directive_line d ++ [x0a])
                <$> List.filter (fun d => negb (secret_reference d.2)) ds),
        existsb (fun d => secret_reference d.2) ds).
Proof.
  induction 1 as [|[n v] ds E F IH]; [done|].
  rewrite fmap_cons. cbn [parser_lines List.filter existsb]. rewrite E. cbn [ok_or]. rewrite IH.
  cbn [snd]. fold (secret_reference v). destruct (secret_reference v); cbn [negb orb]; [done|].
  rewrite fmap_cons, concat_cons. by rewrite <- app_assoc.
Qed.

(** C38. The syntax check covers what is published: a candidate that the apply
    accepts (valid and naming no secret) is the very text the plan gave ocserv
    to check, with nothing left out; for any accepted candidate the check is
    given the other directives, and the plan warns exactly when one was left
    out. *)
Theorem plan_checks_what_apply_publishes c :
  validate_config_candidate c = Ok tt ->
  (names_secret c = false -> parser_candidate c = Ok (c, false))
  /\ exists ds, c = candidate_text ds /\
       parser_candidate c =
         Ok (candidate_text (List.filter (fun d => negb (secret_reference d.2)) ds),
             existsb (fun d => secret_reference d.2) ds).
Proof.
  intros (ds & Ec & N & U & L & F & A)%accepted_candidate.
  assert (parser_candidate c =
    Ok (candidate_text (List.filter (fun d => negb (secret_reference d.2)) ds),
        existsb (fun d => secret_reference d.2) ds)) as P.
  { unfold parser_candidate. rewrite L. cbn [tail]. rewrite parser_directives by done.
    unfold candidate_text. rewrite fmap_cons, concat_cons, <- list_fmap_compose. done. }
  split; [|by exists ds]. intros S. rewrite P.
  assert (Forall (fun d => secret_reference d.2 = false) ds) as Hs.
  { apply Forall_forall. intros [n v] Hd. apply not_true_iff_false. intros H.
    apply secret_reference_prefix in H as [rest Hv]. cbn [snd] in Hv.
    unfold names_secret in S. rewrite L in S. apply not_true_iff_false in S. apply S.
    apply existsb_exists. exists (directive_line (n, v)). split.
    - right. by apply list_elem_of_In, list_elem_of_fmap_2.
    - unfold directive_line. cbn [fst snd]. rewrite Hv, app_assoc. apply contains_str_app. }
  f_equal. f_equal.
  - rewrite Ec. f_equal. clear -Hs. induction Hs as [|d ds H Hs IH]; [done|]. simpl.
    by rewrite H, IH.
  - clear -Hs. induction Hs as [|d ds H Hs IH]; [done|]. simpl. by rewrite H.
Qed.

(** * Witnesses *)

Definition sample_candidate : bytes :=
  candidate_text [(str "tcp-port", str "443"); (str "server-key", str "${secret:vault:tls/key}")].

Definition plain_candidate : bytes :=
  candidate_text [(str "tcp-port", str "443"); (str "max-clients", str "64")].

Lemma candidate_is_allowed_directives_witness :
  validate_config_candidate sample_candidate = Ok tt /\
  exists ds, sample_candidate = candidate_text ds /\ NoDup ds.*1.
Proof.
  assert (validate_config_candidate sample_candidate = Ok tt) as V by (vm_compute; reflexivity).
  split; [exact V|].
  destruct (candidate_is_allowed_directives sample_candidate V) as (ds & E & _ & N & _).
  exists ds. exact (conj E N).
Defined.

Definition sample_diff : bytes :=
  str "- <current configuration redacted>" ++ [x0a] ++ str "+ tcp-port = 443" ++ [x0a]
  ++ str "+ server-key = <secret-ref:vault>" ++ [x0a].

Lemma diff_hides_secret_keys_witness :
  redacted_candidate_diff sample_candidate = Ok sample_diff /\
  contains_str (str "${") sample_diff = false.
Proof.
  assert (redacted_candidate_diff sample_candidate = Ok sample_diff) as D by (vm_compute; reflexivity).
  split; [exact D|].
  apply (diff_hides_secret_keys sample_candidate sample_diff); [vm_compute; reflexivity|exact D].
Defined.

Lemma plan_checks_what_apply_publishes_witness :
  parser_candidate plain_candidate = Ok (plain_candidate, false).
Proof.
  apply (plan_checks_what_apply_publishes plain_candidate); vm_compute; reflexivity.
Defined.

(** What the adapter reports from the output of [occtl]: bounded lists whose
    session identifiers are the ones a later request may name. *)

Lemma collect_ok {A B} (f : A -> Adapt B) l l' :
  collect f l = Ok l' -> Forall2 (fun a b => f a = Ok b) l l'.
Proof.
  revert l'. induction l as [|a l IH]; intros l'; simpl; [intros [= <-]; constructor|].
  destruct (f a) as [b|] eqn:E; [|done]. destruct (collect f l) as [bs|]; [|done].
  intros [= <-]. constructor; auto.
Qed.

Lemma numeric_session_id_to_string id :
  in_u64 id -> 0 < id -> numeric_session_id (to_string id) = Ok (to_string id).
Proof.
  intros I P. unfold numeric_session_id, parse_u64. unfold in_u64 in I.
  rewrite parse_unsigned_to_string by (unfold u64_max; lia). cbn [ok_or].
  rewrite (proj2 (Z.eqb_neq _ _)) by lia. by rewrite bool_decide_true.
Qed.

Lemma as_u64_range v n : as_u64 v = Some n -> in_u64 n.
Proof. destruct v; simpl; try done. case_bool_decide; [|done]. by intros [= <-]. Qed.

Lemma validated_token_ok value limit token :
  validated_token value limit = Ok token ->
  1 <= len token <= limit /\ has_control token = false.
Proof.
  unfold validated_token. destruct (_ || _) eqn:G; [done|]. intros [= <-].
  apply orb_false_iff in G as [[G1 G2]%orb_false_iff G3]. split; [|done].
  apply Z.ltb_ge in G2. destruct value; [done|]. unfold len in *. cbn [length] in *. lia.
Qed.

Lemma canonical_ip_ok value text : canonical_ip value = Ok text -> exists ip, text = ip_to_string ip.
Proof. unfold canonical_ip. destruct (parse_ip value); [|done]. intros [= <-]. eauto. Qed.

Lemma parse_session_ok item s :
  parse_session item = Ok s ->
  numeric_session_id (ses_id s) = Ok (ses_id s)
  /\ 1 <= len (ses_username s) <= 128 /\ has_control (ses_username s) = false
  /\ (exists ip, ses_remote_ip s = ip_to_string ip) /\ (exists ip, ses_vpn_ip s = ip_to_string ip).
Proof.
  unfold parse_session. intros H. invert_ok H. subst s.
  cbn [ses_id ses_username ses_remote_ip ses_vpn_ip].
  split; [|split; [|split; [|split]]].
  - destruct (json_get a (str "ID")) as [v|]; [|done]. cbn [mbind option_bind] in Hstep0.
    destruct (as_u64 v) as [n|] eqn:E; [|done]. cbn [mbind option_bind] in Hstep0.
    destruct (0 <? n) eqn:Hn; [|done]. injection Hstep0 as <-. apply as_u64_range in E.
    apply numeric_session_id_to_string; [done|by apply Z.ltb_lt].
  - by apply validated_token_ok in Hstep2 as [? _].
  - by apply validated_token_ok in Hstep2 as [_ ?].
  - by apply canonical_ip_ok in Hstep4.
  - by apply canonical_ip_ok in Hstep6.
Qed.

Lemma json_items_few {json : SerdeJson} b items : json_items b = Ok items -> len items <= 4096.
Proof.
  unfold json_items. intros H. invert_ok H. subst. by apply Z.ltb_ge.
Qed.

(** Composition of the report with the request: every session the adapter
    reports carries an identifier that [session_disconnect] and
    [session_terminate] accept as it stands, a name of 1 to 128 bytes without
    control characters and addresses in the standard notation; at most 4096
    are reported. *)
Theorem reported_sessions_addressable {json : SerdeJson} b sessions :
  parse_sessions b = Ok sessions ->
  len sessions <= 4096 /\
  Forall (fun s => numeric_session_id (ses_id s) = Ok (ses_id s)
    /\ 1 <= len (ses_username s) <= 128 /\ has_control (ses_username s) = false
    /\ (exists ip, ses_remote_ip s = ip_to_string ip)
    /\ (exists ip, ses_vpn_ip s = ip_to_string ip)) sessions.
Proof.
  unfold parse_sessions. intros H. destruct (json_items b) as [items|] eqn:E; [|done].
  apply json_items_few in E. apply collect_ok in H. split.
  - unfold len in *. by rewrite <- (Forall2_length _ _ _ H).
  - clear E. induction H as [|item s items sessions Hs F IH]; constructor; [|done].
    by eapply parse_session_ok.
Qed.

Definition sample_json : JsonValue :=
  JArray [JObject [(str "ID", JPosInt 7); (str "Username", JString (str "alice"));
                   (str "Remote IP", JString (str "192.0.2.10"));
                   (str "IPv6", JString (str "2001:db8:0:0::1"))]].

(** A parser that knows one text. *)
Definition one_text : SerdeJson :=
  {| json_from_slice := fun b => if bool_decide (b = str "sessions") then Some sample_json else None;
     tls_manifest_from_slice := fun _ => None |}.

Lemma reported_sessions_addressable_witness :
  numeric_session_id (str "7") = Ok (str "7").
Proof.
  destruct (reported_sessions_addressable (json := one_text) (str "sessions")
    [mkSession (str "7") (str "alice") (str "192.0.2.10") (str "2001:db8::1")]) as [_ F];
    [vm_compute; reflexivity|].
  inversion F as [|s l H _]. exact (proj1 H).
Defined.

(** * The text of a complete configuration *)

(** Printable without blanks, and not empty. *)
Definition graphic (v : bytes) : Prop := forallb is_ascii_graphic v = true /\ v <> [].

Lemma digit_graphic b : is_ascii_digit b = true -> is_ascii_graphic b = true.
Proof. unfold is_ascii_digit, is_ascii_graphic. lia. Qed.

Lemma forallb_weaken {A} (f g : A -> bool) l :
  (forall x, f x = true -> g x = true) -> forallb f l = true -> forallb g l = true.
Proof. rewrite !forallb_forall. auto. Qed.

Lemma graphic_app a b : graphic a -> forallb is_ascii_graphic b = true -> graphic (a ++ b).
Proof. intros [Ha N] Hb. split; [by rewrite forallb_app, Ha|]. by destruct a. Qed.

Lemma parse_digits_graphic max s : forall acc v,
  parse_digits max acc s = Some v -> forallb is_ascii_graphic s = true.
Proof.
  induction s as [|b s IH]; intros acc v; simpl; [done|].
  destruct (is_ascii_digit b) eqn:E; [|done]. rewrite digit_graphic by done.
  destruct (_ >? _); [done|]. apply IH.
Qed.

Lemma parse_unsigned_graphic max s v : parse_unsigned max s = Some v -> graphic s.
Proof.
  intros H. split; [|by intros ->]. destruct s as [|b s]; [done|].
  destruct (decide (b = x2b)) as [->|N].
  - destruct s; [done|]. exact (parse_digits_graphic _ _ _ _ H).
  - apply (parse_digits_graphic max (b :: s) 0 v). rewrite <- H. by destruct b.
Qed.

Lemma read_digits_graphic s : forall acc count v n rest,
  read_digits acc count s = Some (v, n, rest) ->
  exists digits, s = digits ++ rest /\ forallb is_ascii_graphic digits = true.
Proof.
  induction s as [|b s IH]; intros acc count v n rest; simpl; [intros [= _ _ <-]; by exists []|].
  destruct (is_ascii_digit b) eqn:E; [|intros [= _ _ <-]; by exists []].
  destruct (_ || _); [done|]. intros (digits & -> & Hd)%IH. exists (b :: digits).
  split; [done|]. simpl. by rewrite digit_graphic.
Qed.

Lemma read_octet_graphic s v rest :
  read_octet s = Some (v, rest) ->
  exists digits, s = digits ++ rest /\ forallb is_ascii_graphic digits = true.
Proof.
  unfold read_octet. destruct (read_digits 0 0 s) as [[[value count] r]|] eqn:E; [|done].
  destruct (count =? 0)%nat; [done|]. destruct (_ && _); [done|]. intros [= _ <-].
  by eapply read_digits_graphic.
Qed.

Lemma read_dot_graphic s rest : read_dot s = Some rest -> s = [x2e] ++ rest.
Proof. destruct s as [|[] s]; simpl; try done. by intros [= ->]. Qed.

Lemma parse_ipv4_graphic s a : parse_ipv4 s = Some a -> graphic s /\ len s <= 15.
Proof.
  unfold parse_ipv4. destruct (Z.gtb_spec (len s) 15) as [|Hl]; [done|].
  destruct (read_ipv4_addr s) as [[a' rest]|] eqn:E; [|done].
  destruct rest; [|done]. intros _. split; [|lia]. unfold read_ipv4_addr in E.
  repeat match type of E with
  | match read_octet ?x with _ => _ end = _ =>
      destruct (read_octet x) as [[? ?]|] eqn:?; [|done]
  | match read_dot ?x with _ => _ end = _ => destruct (read_dot x) as [?|] eqn:?; [|done]
  end.
  injection E as _ ->.
  repeat match goal with
  | H : read_octet _ = Some _ |- _ => apply read_octet_graphic in H as (? & -> & ?)
  | H : read_dot _ = Some _ |- _ => apply read_dot_graphic in H as ->
  end.
  split; [|by intros [_ ?]%app_nil].
  rewrite !forallb_app. repeat (apply andb_true_iff; split); done.
Qed.

Lemma decimal_short fuel z : (length (decimal fuel z) <= fuel)%nat.
Proof.
  revert z. induction fuel as [|fuel IH]; intros z; simpl; [lia|].
  destruct (z <? 10); simpl; [lia|]. rewrite length_app. simpl. pose proof (IH (z / 10)). lia.
Qed.

Lemma network_graphic v : network v = true -> graphic v /\ len v <= 128.
Proof.
  unfold network. destruct (split_once x2f v) as [[address bits]|] eqn:Es; [|done].
  destruct (parse_ipv4 address) as [a|] eqn:Ea; [|done].
  destruct (parse_u32 bits) as [n|] eqn:En; [|done].
  rewrite !andb_true_iff. intros [[_ E%bool_decide_eq_true] _].
  apply split_once_Some in Es as [-> _]. split.
  - apply parse_ipv4_graphic in Ea as [Ga _]. apply parse_unsigned_graphic in En as [Gn _].
    apply graphic_app; [done|]. simpl. exact Gn.
  - rewrite <- E. unfold len, ipv4_to_string. rewrite !length_app. simpl.
    pose proof (fun z => decimal_short 20 z) as D. unfold to_string.
    pose proof (D (octet0 a)); pose proof (D (octet1 a)); pose proof (D (octet2 a));
      pose proof (D (octet3 a)); pose proof (D n). lia.
Qed.

Lemma label_graphic v max : label v max = true -> graphic v /\ len v <= max.
Proof.
  unfold label. rewrite !andb_true_iff. intros [[[N%negb_true_iff L%Z.leb_le] _] H].
  split; [|done]. split; [|by intros ->].
  assert (forall b, label_byte b = true -> is_ascii_graphic b = true) as Hb by (by intros []).
  destruct v as [|b v]; [done|]. simpl in H |- *. apply andb_true_iff in H as [H1 H2].
  rewrite Hb by (unfold label_byte; by rewrite H1). by eapply forallb_weaken.
Qed.

(** The names of the profile, and those the worker's fixed lines have. *)
Definition PROFILE_NAMES : list bytes := str <$>
  ["auth"; "socket-file"; "device"; "ipv4-network"; "route"; "dns"; "tcp-port"; "udp-port";
   "max-clients"; "max-same-clients"; "cookie-timeout"; "server-cert"; "server-key"; "ca-cert"]%string.
Definition FIXED_ENTRIES : list (bytes * bytes) :=
  [(str "run-as-user", str "ocservia-vpn"); (str "run-as-group", str "ocservia-vpn");
   (str "use-occtl", str "true")].

Lemma literal_entry name v :
  literal name v = true -> (name ∈ PROFILE_NAMES) /\ graphic v /\ len v <= 128.
Proof.
  unfold literal, is_count_directive.
  assert (forall k : nat, forall x, PROFILE_NAMES !! k = Some x -> x ∈ PROFILE_NAMES) as Hk
    by (intros k x; apply list_elem_of_lookup_2).
  case_bool_decide as E; [|case_bool_decide as E0; [|case_bool_decide as E1; [|case_bool_decide as E2;
    [|case_bool_decide as E3; [|case_bool_decide as E4]]]]]; subst.
  - intros ->%bool_decide_eq_true. split; [by apply (Hk 0%nat)|]. by split.
  - intros ->%bool_decide_eq_true. split; [by apply (Hk 1%nat)|]. by split.
  - intros [[G L]%label_graphic _]%andb_true_iff. split; [by apply (Hk 2%nat)|]. split; [done|lia].
  - intros H%network_graphic. split; [by apply (Hk 3%nat)|done].
  - intros [->%bool_decide_eq_true|H%network_graphic]%orb_true_iff;
      (split; [by apply (Hk 4%nat)|]); [by split|done].
  - destruct (parse_ipv4 v) as [a|] eqn:Ea; [|done]. intros _. split; [by apply (Hk 5%nat)|].
    apply parse_ipv4_graphic in Ea as [G L]. split; [done|lia].
  - destruct (_ || _) eqn:En; [|done]. destruct (parse_u32 v) as [n|] eqn:Ev; [|done].
    destruct (bool_decide (to_string n <> v)) eqn:Ez; [done|]. intros _.
    apply bool_decide_eq_false, dec_stable in Ez. split.
    + rewrite !orb_true_iff, !bool_decide_eq_true in En.
      destruct En as [[[[->| ->]| ->]| ->]| ->];
        [by apply (Hk 6%nat)|by apply (Hk 7%nat)|by apply (Hk 8%nat)|by apply (Hk 9%nat)|by apply (Hk 10%nat)].
    + split; [by eapply parse_unsigned_graphic|]. rewrite <- Ez. unfold len, to_string.
      pose proof (decimal_short 20 n). lia.
Qed.

Lemma tls_entry name : tls_directive name = true -> name ∈ PROFILE_NAMES.
Proof.
  unfold tls_directive. rewrite !orb_true_iff, !bool_decide_eq_true.
  intros [[->| ->]| ->]; [apply (list_elem_of_lookup_2 _ 11)|apply (list_elem_of_lookup_2 _ 12)
    |apply (list_elem_of_lookup_2 _ 13)]; reflexivity.
Qed.

(** ** One line *)

Definition line_text (e : bytes * bytes) : bytes := e.1 ++ DIRECTIVE_SEPARATOR ++ e.2.

(** An entry that the checker of a profile takes as it is. *)
Record proper_entry (e : bytes * bytes) : Prop := {
  pe_name : graphic e.1; pe_value : graphic e.2; pe_hash : head e.1 <> Some x23;
  pe_known : e.1 ∈ STARTUP_BINDINGS \/ e.1 ∈ RELOADED_BINDINGS }.

Definition is_printable (b : byte) : bool := (32 <=? byte_val b) && (byte_val b <=? 126).

Lemma graphic_printable b : is_ascii_graphic b = true -> is_printable b = true.
Proof. unfold is_ascii_graphic, is_printable. lia. Qed.

Lemma printable_kept l b :
  forallb is_printable l = true -> is_ascii_graphic b = true -> trim_is_empty (l ++ [b]) = false.
Proof.
  intros Hl Hb. induction l as [|a l IH]; [by destruct b|]. simpl in Hl.
  apply andb_true_iff in Hl as [Ha Hl]. specialize (IH Hl). by destruct a; try discriminate Ha.
Qed.

Lemma trim_end_graphic l b :
  forallb is_printable l = true -> is_ascii_graphic b = true -> trim_end (l ++ [b]) = l ++ [b].
Proof.
  intros Hl Hb. induction l as [|a l IH].
  - pose proof (printable_kept [] b eq_refl Hb) as E. simpl app in *. unfold trim_end. by rewrite E.
  - pose proof (printable_kept (a :: l) b Hl Hb) as E. simpl in Hl. apply andb_true_iff in Hl as [_ Hl].
    change ((a :: l) ++ [b]) with (a :: (l ++ [b])) in *. cbn [trim_end]. by rewrite E, IH.
Qed.

Lemma white_head_graphic b l : is_ascii_graphic b = true -> white_head (b :: l) = None.
Proof. intros H. destruct b; try discriminate H; by destruct l as [|? [|? ?]]. Qed.

Lemma graphic_split v : graphic v -> exists l b, v = l ++ [b] /\ forallb is_ascii_graphic l = true
  /\ is_ascii_graphic b = true.
Proof.
  intros [G N]. destruct v as [|a v] using rev_ind; [done|]. exists v, a.
  rewrite forallb_app in G. apply andb_true_iff in G as [G1 G2]. simpl in G2.
  rewrite andb_true_r in G2. done.
Qed.

Lemma line_trimmed e : graphic e.1 -> graphic e.2 -> trim (line_text e) = line_text e.
Proof.
  intros [Gn Nn] (l & b & E & Gl & Gb)%graphic_split. unfold line_text, trim. rewrite E.
  destruct (e.1) as [|a n] eqn:En; [done|]. simpl in Gn. apply andb_true_iff in Gn as [Ga Gn].
  simpl length. cbn [app]. cbn [trim_start]. rewrite white_head_graphic by done.
  rewrite !app_comm_cons, !app_assoc. apply trim_end_graphic; [|done].
  rewrite !forallb_app. cbn [forallb]. rewrite graphic_printable by done.
  rewrite (forallb_weaken _ _ _ graphic_printable Gn), (forallb_weaken _ _ _ graphic_printable Gl).
  reflexivity.
Qed.

Lemma line_split e : graphic e.1 -> split_once_str DIRECTIVE_SEPARATOR (line_text e) = Some e.
Proof.
  destruct e as [n v]. intros [G _]. unfold line_text. cbn [fst snd] in *. induction n as [|a n IH].
  - cbn [app]. destruct v; reflexivity.
  - simpl in G. apply andb_true_iff in G as [Ga G]. cbn [app split_once_str].
    assert (strip_prefix DIRECTIVE_SEPARATOR (a :: n ++ DIRECTIVE_SEPARATOR ++ v) = None) as ->
      by (by destruct a).
    by rewrite IH.
Qed.

Lemma line_kept e : graphic e.1 -> head e.1 <> Some x23 -> profile_line (line_text e) = true.
Proof.
  intros [_ N] H. destruct e as [[|a n] v]; [done|]. unfold profile_line, line_text, starts_with. simpl in *.
  rewrite (bool_decide_false (x23 = a)) by congruence. reflexivity.
Qed.

Lemma line_plain e : graphic e.1 -> graphic e.2 -> forallb is_printable (line_text e) = true.
Proof.
  intros [G1 _] [G2 _]. unfold line_text. rewrite !forallb_app.
  by rewrite (forallb_weaken _ _ _ graphic_printable G1), (forallb_weaken _ _ _ graphic_printable G2).
Qed.

Lemma printable_line l : forallb is_printable l = true -> (x0a ∉ l) /\ last l <> Some x0d.
Proof.
  intros H. rewrite forallb_forall in H. split.
  - intros Hx%list_elem_of_In%H. done.
  - by intros Hx%last_Some_elem_of%list_elem_of_In%H.
Qed.

(** ** The entries of a text *)

Lemma profile_entries_lines es : forall values,
  Forall proper_entry es -> NoDup es.*1 -> Forall (fun e => values !! e.1 = None) es ->
  profile_entries values (line_text <$> es) = Ok (list_to_map es ∪ values).
Proof.
  induction es as [|[n v] es IH]; intros values P ND F; [simpl; by rewrite (left_id_L ∅ (∪))|].
  inversion_clear P as [|? ? Pe Pes]. cbn [fmap list_fmap] in ND. apply NoDup_cons in ND as [Nn ND].
  inversion_clear F as [|? ? Fe Fes]. cbn [fmap list_fmap profile_entries].
  rewrite line_split by apply Pe. cbn [ok_or].
  cbn [fst] in *.
  assert (negb (bool_decide (n ∈ STARTUP_BINDINGS)) && negb (bool_decide (n ∈ RELOADED_BINDINGS)) = false) as ->.
  { destruct (pe_known _ Pe) as [Hk|Hk]; cbn [fst] in Hk; rewrite (bool_decide_true _ Hk);
      [done|]. apply andb_false_r. }
  assert (is_empty v = false) as -> by (destruct (pe_value _ Pe) as [_ N]; cbn [snd] in N; by destruct v).
  rewrite Fe, bool_decide_false by (intros H; by apply H). cbn [orb].
  rewrite IH; [|done|done|].
  - cbn [list_to_map foldr uncurry]. f_equal. rewrite <- insert_union_l.
    rewrite insert_union_r; [done|]. by apply not_elem_of_list_to_map_1.
  - rewrite Forall_forall in Fes |- *. intros e He. rewrite lookup_insert_ne; [by apply Fes|].
    intros ->. apply Nn, list_elem_of_fmap. by exists e.
Qed.

(** The text of entries under a header, as the checker of a profile reads it. *)
Definition HEADER_LINE : bytes := str "# generated by ocservia complete-config/v1".

Definition entries_text (es : list (bytes * bytes)) : bytes :=
  concat ((fun l => l ++ [x0a]) <$> (HEADER_LINE :: (line_text <$> es))).

Lemma entries_printable es : Forall proper_entry es ->
  Forall (fun l => forallb is_printable l = true) (HEADER_LINE :: (line_text <$> es)).
Proof.
  intros F. apply Forall_cons. split; [done|]. apply Forall_fmap. eapply Forall_impl; [exact F|].
  intros e Pe. apply line_plain; apply Pe.
Qed.

(** Bytes that a text of printable lines does not have. *)
Lemma printable_text ls (f : byte -> bool) :
  Forall (fun l => forallb is_printable l = true) ls -> (forall b, is_printable b = true -> f b = true) ->
  f x0a = true -> forallb f (concat ((fun l => l ++ [x0a]) <$> ls)) = true.
Proof.
  intros F Hf Ha. induction F as [|l ls Hl F IH]; [done|]. rewrite fmap_cons, concat_cons, !forallb_app, IH.
  rewrite (forallb_weaken _ _ _ Hf Hl). simpl. by rewrite Ha.
Qed.

Lemma absent_byte c l : forallb (fun b => negb (bool_decide (b = c))) l = true -> contains c l = false.
Proof.
  intros H. apply not_true_iff_false. unfold contains. rewrite existsb_exists. intros (b & Hb & E).
  rewrite forallb_forall in H. specialize (H b Hb). by rewrite E in H.
Qed.

Lemma profile_lines_kept es : Forall proper_entry es ->
  List.filter profile_line (trim <$> (line_text <$> es)) = line_text <$> es.
Proof.
  intros F. induction F as [|e es Pe F IH]; [done|]. cbn [fmap list_fmap List.filter].
  rewrite line_trimmed by apply Pe. rewrite line_kept by apply Pe. f_equal. exact IH.
Qed.

Lemma profile_values_entries es :
  Forall proper_entry es -> NoDup es.*1 -> len (entries_text es) <= MAX_CONFIG_PLAN_BYTES ->
  profile_values (entries_text es) = Ok (list_to_map es).
Proof.
  intros P ND L. pose proof (entries_printable es P) as F. unfold profile_values.
  rewrite utf8_valid_ascii by (apply printable_text; [done|by intros []|done]). cbn [negb].
  rewrite !absent_byte by (apply printable_text; [done|by intros []|done]).
  rewrite (proj2 (Z.ltb_ge _ _) L). cbn [orb].
  unfold entries_text. rewrite lines_concat by (eapply Forall_impl; [exact F|apply printable_line]).
  cbn [fmap list_fmap List.filter]. change (profile_line (trim HEADER_LINE)) with false. cbv iota.
  rewrite (profile_lines_kept es P), profile_entries_lines; [by rewrite (right_id_L ∅ (∪))|done|done|].
  by apply Forall_true.
Qed.

(** ** The entries of a candidate *)

(** What is written for a directive. *)
Definition written (path_of : bytes -> Adapt bytes) (shown : bytes) (d : CompleteConfigDirective)
    (e : bytes * bytes) : Prop :=
  e.1 = ccd_name d /\ exists safe, directive_texts path_of shown d = Ok (e.2, safe).

Lemma render_entries path_of shown ds : forall m r m' r',
  render_directives path_of shown ds m r = Ok (m', r') ->
  exists es, Forall2 (written path_of shown) ds es
    /\ m' = m ++ concat ((fun l => l ++ [x0a]) <$> (line_text <$> es)).
Proof.
  induction ds as [|d ds IH]; intros m r m' r'; simpl.
  - intros [= <- <-]. exists []. split; [constructor|]. by rewrite app_nil_r.
  - destruct (directive_texts path_of shown d) as [[v safe]|] eqn:E; [|done].
    intros (es & F & ->)%IH. exists ((ccd_name d, v) :: es). split.
    + constructor; [|done]. split; [done|]. by exists safe.
    + unfold config_line. cbn [fmap list_fmap concat]. unfold line_text at 2. cbn [fst snd].
      by rewrite <- !app_assoc.
Qed.

(** The names of the profile and the fixed entries are taken as they are. *)
Lemma profile_names_proper :
  Forall (fun n => graphic n /\ head n <> Some x23 /\ len n <= 16
    /\ (n ∈ STARTUP_BINDINGS \/ n ∈ RELOADED_BINDINGS) /\ n ∉ FIXED_ENTRIES.*1) PROFILE_NAMES.
Proof.
  assert (forall n, forallb is_ascii_graphic n && negb (is_empty n) && negb (starts_with [x23] n)
    && (len n <=? 16) && (bool_decide (n ∈ STARTUP_BINDINGS) || bool_decide (n ∈ RELOADED_BINDINGS))
    && bool_decide (n ∉ FIXED_ENTRIES.*1) = true ->
    graphic n /\ head n <> Some x23 /\ len n <= 16
    /\ (n ∈ STARTUP_BINDINGS \/ n ∈ RELOADED_BINDINGS) /\ n ∉ FIXED_ENTRIES.*1) as H.
  { intros n. rewrite !andb_true_iff, orb_true_iff, !bool_decide_eq_true, Z.leb_le.
    intros [[[[[G N] S] L] K] X]. split_and!; try done.
    - split; [done|]. by intros ->.
    - destruct n as [|a n]; [done|]. intros [= ->]. done. }
  apply Forall_forall. intros n Hn. apply H. revert n Hn. apply Forall_forall.
  apply (bool_decide_unpack _). vm_compute. exact I.
Qed.

Lemma fixed_entries_proper : Forall proper_entry FIXED_ENTRIES.
Proof.
  repeat constructor; try done; apply (bool_decide_unpack _); vm_compute; exact I.
Qed.

Section Candidate.
Context (candidate : CompleteConfigCandidate) (transcript : bytes).
Hypothesis accepted_candidate : canonical candidate = Ok transcript.
Context (path_of : bytes -> Adapt bytes) (shown : bytes).
(** The paths of the certificate files have no blanks and are not too long. *)
Hypothesis plain_paths : forall name p, path_of name = Ok p -> graphic p /\ len p <= 4096.

Lemma candidate_profile : exists w w', profile w (ccc_directives candidate) w'.
Proof.
  destruct (canonical_ok _ _ accepted_candidate) as (w & W & _).
  eexists _, w. by eapply walk_directives_profile.
Qed.

Lemma candidate_few : (length (ccc_directives candidate) <= 14)%nat.
Proof.
  revert accepted_candidate. unfold canonical. intros H. destruct (_ || _) eqn:G in H; [done|].
  apply orb_false_iff in G as [_ G%negb_false_iff%andb_true_iff]. destruct G as [_ G%Z.leb_le].
  change (len REQUIRED) with 12 in G. unfold len in G. lia.
Qed.

Lemma candidate_names : NoDup (ccd_name <$> ccc_directives candidate).
Proof.
  destruct candidate_profile as (w & w' & P). apply NoDup_alt. intros i j x.
  rewrite !list_lookup_fmap, !fmap_Some. intros (di & Hi & ->) (dj & Hj & E).
  destruct (Nat.lt_trichotomy i j) as [L|[->|L]]; [|done|]; exfalso.
  - pose proof (pr_sorted _ _ _ P i j _ _ L Hi Hj) as B. rewrite E in B. by apply (irreflexivity bytes_lt) in B.
  - pose proof (pr_sorted _ _ _ P j i _ _ L Hj Hi) as B. rewrite E in B. by apply (irreflexivity bytes_lt) in B.
Qed.

Lemma written_proper d e :
  d ∈ ccc_directives candidate -> written path_of shown d e ->
  proper_entry e /\ (e.1 ∈ PROFILE_NAMES) /\ len (line_text e) <= 4115.
Proof.
  intros Hd [En (safe & Et)]. destruct candidate_profile as (w & w' & P).
  destruct (pr_valued _ _ _ P d Hd) as [v Ev]. unfold directive_texts in Et. rewrite Ev in Et. cbn [ok_or] in Et.
  assert ((e.1 ∈ PROFILE_NAMES) /\ graphic e.2 /\ len e.2 <= 4096) as (Hn & Hg & Hl).
  { destruct v as [l|r].
    - pose proof (pr_literal _ _ _ P d l Hd Ev) as (N & [G0 G1] & L)%literal_entry. rewrite En. split; [done|].
      case_bool_decide; injection Et as <- _; [|split; [done|lia]].
      split; [|unfold len in *; simpl; rewrite length_app; simpl; lia].
      split; [|done]. simpl. by rewrite forallb_app, G0.
    - destruct (pr_tls _ _ _ P d r Hd Ev) as [Ht _]. rewrite En. split; [by apply tls_entry|].
      destruct (path_of (ccd_name d)) as [p|] eqn:Ep; [|done]. injection Et as <- _. by eapply plain_paths. }
  pose proof profile_names_proper as F. rewrite Forall_forall in F. destruct (F _ Hn) as (Gn & Hh & Ln & Hk & _).
  split; [by split|]. split; [done|]. unfold line_text, len in *. rewrite !length_app.
  change (length DIRECTIVE_SEPARATOR) with 3%nat. lia.
Qed.

Lemma lines_short k ls :
  Forall (fun l => len l <= k) ls -> len (concat ((fun l => l ++ [x0a]) <$> ls)) <= Z.of_nat (length ls) * (k + 1).
Proof.
  induction 1 as [|l ls Hl F IH]; [done|]. rewrite fmap_cons, concat_cons. unfold len in *.
  rewrite !length_app. simpl. lia.
Qed.

(** The text of an accepted candidate reads back as its directives and the
    worker's fixed lines. *)
Lemma candidate_reads_back es :
  Forall2 (written path_of shown) (ccc_directives candidate) es ->
  profile_values (entries_text (es ++ FIXED_ENTRIES)) = Ok (list_to_map (es ++ FIXED_ENTRIES))
  /\ NoDup (es ++ FIXED_ENTRIES).*1.
Proof.
  intros F.
  assert (Forall (fun e => proper_entry e /\ (e.1 ∈ PROFILE_NAMES) /\ len (line_text e) <= 4115) es) as Fe.
  { apply Forall_forall. intros e He. apply list_elem_of_lookup in He as [i Hi].
    destruct (Forall2_lookup_r _ _ _ _ _ F Hi) as (d & Hd & W).
    apply (written_proper d); [by eapply list_elem_of_lookup_2|done]. }
  assert (es.*1 = ccd_name <$> ccc_directives candidate) as En.
  { clear Fe. induction F as [|d e ds es' [E _] F IH]; [done|]. cbn [fmap list_fmap]. by rewrite E, IH. }
  assert (NoDup (es ++ FIXED_ENTRIES).*1) as ND.
  { rewrite fmap_app. apply NoDup_app. split_and!.
    - rewrite En. apply candidate_names.
    - intros n (e & -> & He)%list_elem_of_fmap. rewrite Forall_forall in Fe. destruct (Fe e He) as (_ & Hn & _).
      pose proof profile_names_proper as Fp. rewrite Forall_forall in Fp. by apply Fp in Hn as (_ & _ & _ & _ & ?).
    - apply (bool_decide_unpack _). vm_compute. exact I. }
  split; [|done]. apply profile_values_entries; [|done|].
  - apply Forall_app. split; [|apply fixed_entries_proper]. eapply Forall_impl; [exact Fe|]. by intros e [? _].
  - unfold entries_text. etrans; [apply (lines_short 4115)|].
    + apply Forall_cons. split; [done|]. apply Forall_fmap, Forall_app. split.
      * eapply Forall_impl; [exact Fe|]. by intros e (_ & _ & ?).
      * by repeat constructor.
    + cbn [length]. rewrite length_fmap, length_app, <- (Forall2_length _ _ _ F).
      pose proof candidate_few. change (length FIXED_ENTRIES) with 3%nat. unfold MAX_CONFIG_PLAN_BYTES. lia.
Qed.

End Candidate.
