(* ===== verification/HostFiles.v ===== *)
(** The host as the ocserv adapter meets it: a file system whose open files
    stay with their inode when a name is replaced, the mutexes and staging
    guards of the process, the effect store, and child processes.  Every system
    call is one step; it may fail for reasons of its own, and a failing write
    leaves a prefix of the data.  A symbolic link is a node that opening
    refuses: the fixed resources are not links, and links are not followed.
    Contents survive the end of the process; loss of power is not part of the
    model, so that the calls that flush to the medium change nothing. *)

From stdpp Require Import base list gmap numbers countable strings functions.
From Stdlib Require Import ZArith Lia Bool Strings.Byte.
From S2P Require Import Prelude Bytes Text Sql EffectRecords EffectStore Concurrency Files.

Local Open Scope Z_scope.
Local Open Scope prog_scope.

(** * State *)

(** An inode: what it is, who owns it, its mode, links and modification time
    in nanoseconds. *)
Record Node := mkNode {
  nd_kind : FileKind; nd_uid : Z; nd_gid : Z; nd_mode : Z; nd_nlink : Z; nd_modified : Z }.

#[export] Instance Node_eq_dec : EqDecision Node.
Proof. solve_decision. Defined.

Definition node_is_dir (n : Node) : bool := bool_decide (nd_kind n = Directory).
Definition node_is_file (n : Node) : bool := match nd_kind n with Regular _ => true | _ => false end.
Definition node_is_symlink (n : Node) : bool := bool_decide (nd_kind n = Symlink).

(** The names, the inodes they lead to, the next unused inode, and the holder
    of the advisory lock of an inode. *)
Record HostDisk := mkHostDisk {
  hd_names : gmap path nat; hd_nodes : gmap nat Node; hd_next : nat; hd_flocks : gmap nat nat }.

(** The mutexes of [Adapter]. *)
Inductive Mutex := UserFileLock | ConfigPlanLock | CertificateArtifactLock.

#[export] Instance Mutex_eq_dec : EqDecision Mutex.
Proof. solve_decision. Defined.

(** The host as one process sees it; [hs_armed] are the staging files that each
    operation removes when it ends or is abandoned. *)
Record HostState := mkHostState {
  hs_disk : HostDisk; hs_mutex : Mutex -> option nat; hs_armed : gmap nat (list path) }.

Abbreviation AdapterState := (EffectDb * HostState)%type.

Inductive HostIo := HostNotFound | HostExists | HostLoop | HostOther.

#[export] Instance HostIo_eq_dec : EqDecision HostIo.
Proof. solve_decision. Defined.

(** What an operation meets at one step: a failing call, how much of a failing
    write was stored, the next [Uuid::now_v7], the clock in seconds and
    nanoseconds, how a child behaves, failing statements of the database, a
    failure to open it, which removals of a drop fail, and whether the caller
    gives the operation up here. *)
Record HostChoice := mkHostChoice {
  hc_fault : bool; hc_written : nat; hc_uuid : bytes; hc_clock : option Z; hc_nanos : Z;
  hc_child : nat; hc_statements : list bool; hc_open : option AdapterError;
  hc_kept : list bool; hc_abandon : bool }.

Abbreviation Hst E A := (Prog AdapterState HostChoice E A).

Definition set_host_disk (d : HostDisk) (s : AdapterState) : AdapterState :=
  (s.1, mkHostState d (hs_mutex s.2) (hs_armed s.2)).

Definition node_at (d : HostDisk) (p : path) : option Node := hd_names d !! p ≫= (hd_nodes d !!.).

(** The identity of the process. *)
Class HostIds := { geteuid : Z; getegid : Z }.

(** * System calls *)

Definition sys {A} (f : HostDisk -> result HostIo (A * HostDisk)) : Hst HostIo A :=
  act (fun _ c s =>
    if hc_fault c then Some (Err HostOther, s)
    else match f (hs_disk s.2) with
         | Ok (a, d) => Some (Ok a, set_host_disk d s)
         | Err e => Some (Err e, s)
         end).

(** A call that looks at the disk. *)
Definition look {A} (f : HostDisk -> result HostIo A) : Hst HostIo A :=
  sys (fun d => match f d with Ok a => Ok (a, d) | Err e => Err e end).

Definition put_node (n : nat) (node : Node) (d : HostDisk) : HostDisk :=
  mkHostDisk (hd_names d) (<[n := node]> (hd_nodes d)) (hd_next d) (hd_flocks d).

Definition bind_name (p : path) (n : nat) (d : HostDisk) : HostDisk :=
  mkHostDisk (<[p := n]> (hd_names d)) (hd_nodes d) (hd_next d) (hd_flocks d).

Definition drop_name (p : path) (d : HostDisk) : HostDisk :=
  mkHostDisk (delete p (hd_names d)) (hd_nodes d) (hd_next d) (hd_flocks d).

Definition new_node (p : path) (node : Node) (d : HostDisk) : nat * HostDisk :=
  (hd_next d, mkHostDisk (<[p := hd_next d]> (hd_names d)) (<[hd_next d := node]> (hd_nodes d))
                (S (hd_next d)) (hd_flocks d)).

Definition directory_of (p : path) : option path :=
  match rev p with [] => None | _ :: up => Some (rev up) end.

Definition in_directory (p : path) (d : HostDisk) : bool :=
  match directory_of p with
  | None => false
  | Some up => match node_at d up with Some n => node_is_dir n | None => false end
  end.

(** [open] of an existing file for reading: the inode stays with the handle. *)
Definition open_file (p : path) : Hst HostIo nat :=
  look (fun d => match hd_names d !! p with
    | None => Err HostNotFound
    | Some n =>
        match hd_nodes d !! n with
        | None => Err HostNotFound
        | Some node => if node_is_symlink node then Err HostLoop else Ok n
        end
    end).

(** [open] with [DIRECTORY]. *)
Definition open_directory (p : path) : Hst HostIo nat :=
  look (fun d => match hd_names d !! p with
    | None => Err HostNotFound
    | Some n =>
        match hd_nodes d !! n with
        | None => Err HostNotFound
        | Some node =>
            if node_is_symlink node then Err HostLoop
            else if node_is_dir node then Ok n else Err HostOther
        end
    end).

Definition fstat (n : nat) : Hst HostIo Node :=
  look (fun d => match hd_nodes d !! n with Some node => Ok node | None => Err HostOther end).

(** Reading an open file to its end. *)
Definition read_handle (n : nat) : Hst HostIo bytes :=
  look (fun d => match hd_nodes d !! n with
    | Some (mkNode (Regular b) _ _ _ _ _) => Ok b
    | _ => Err HostOther
    end).

(** [fs::read]. *)
Definition read_file (p : path) : Hst HostIo bytes := n <- open_file p ;; read_handle n.

(** [metadata] of a path, without following a link. *)
Definition stat (p : path) : Hst HostIo Node :=
  look (fun d => match node_at d p with Some node => Ok node | None => Err HostNotFound end).

(** [Path::exists]: any failure counts as absence. *)
Definition path_exists {E} (p : path) : Hst E bool :=
  act (fun _ c s =>
    if hc_fault c then Some (Ok false, s)
    else Some (Ok (bool_decide (node_at (hs_disk s.2) p <> None)), s)).

Definition entries (p : path) (d : HostDisk) : list bytes :=
  omap (fun kv => child_name p kv.1) (map_to_list (hd_names d)).

Definition list_directory (p : path) : Hst HostIo (list bytes) :=
  look (fun d => match node_at d p with
    | Some node => if node_is_dir node then Ok (entries p d) else Err HostOther
    | None => Err HostNotFound
    end).

(** [next_entry] of an open directory. *)
Definition next_entry : Hst HostIo unit := look (fun _ => Ok tt).

Definition rename_file (source target : path) : Hst HostIo unit :=
  sys (fun d => match hd_names d !! source with
    | None => Err HostNotFound
    | Some n =>
        if negb (in_directory target d) then Err HostNotFound
        else if match node_at d target with Some node => node_is_dir node | None => false end
        then Err HostOther
        else Ok (tt, bind_name target n (drop_name source d))
    end).

Definition unlink (p : path) (d : HostDisk) : result HostIo HostDisk :=
  match node_at d p with
  | None => Err HostNotFound
  | Some node => if node_is_dir node then Err HostOther else Ok (drop_name p d)
  end.

Definition remove_path (p : path) : Hst HostIo unit :=
  sys (fun d => match unlink p d with Ok d' => Ok (tt, d') | Err e => Err e end).

(** [fsync] of an open file and of a directory. *)
Definition sync_handle (n : nat) : Hst HostIo unit := look (fun _ => Ok tt).

Definition flush_directory (p : path) : Hst HostIo unit :=
  look (fun d => if bool_decide (node_at d p <> None) then Ok tt else Err HostNotFound).

(** Changes of an open file. *)
Definition change_node (n : nat) (f : Node -> Node) : Hst HostIo unit :=
  sys (fun d => match hd_nodes d !! n with
    | Some node => Ok (tt, put_node n (f node) d)
    | None => Err HostOther
    end).

Definition chown_handle (n : nat) (uid gid : Z) : Hst HostIo unit :=
  change_node n (fun i => mkNode (nd_kind i) uid gid (nd_mode i) (nd_nlink i) (nd_modified i)).

Definition chmod_handle (n : nat) (mode : Z) : Hst HostIo unit :=
  change_node n (fun i => mkNode (nd_kind i) (nd_uid i) (nd_gid i) mode (nd_nlink i) (nd_modified i)).

(** [set_permissions] of a path. *)
Definition chmod_path (p : path) (mode : Z) : Hst HostIo unit :=
  sys (fun d => match hd_names d !! p with
    | None => Err HostNotFound
    | Some n =>
        match hd_nodes d !! n with
        | None => Err HostNotFound
        | Some i => Ok (tt, put_node n (mkNode (nd_kind i) (nd_uid i) (nd_gid i) mode (nd_nlink i)
                                          (nd_modified i)) d)
        end
    end).

Definition appended (b : bytes) (now : Z) (i : Node) : Node :=
  match nd_kind i with
  | Regular old => mkNode (Regular (old ++ b)) (nd_uid i) (nd_gid i) (nd_mode i) (nd_nlink i) now
  | _ => i
  end.

Definition append_handle (n : nat) (b : bytes) (now : Z) (d : HostDisk) : HostDisk :=
  match hd_nodes d !! n with Some i => put_node n (appended b now i) d | None => d end.

Definition write_handle (n : nat) (b : bytes) : Hst HostIo unit :=
  act (fun _ c s =>
    let stored := if hc_fault c then take (hc_written c) b else b in
    Some (if hc_fault c then Err HostOther else Ok tt,
          set_host_disk (append_handle n stored (hc_nanos c) (hs_disk s.2)) s)).

Section Identified.
Context {ids : HostIds}.

(** [open] with [CREATE] and [EXCL]. *)
Definition create_exclusive (p : path) (mode : Z) : Hst HostIo nat :=
  act (fun _ c s =>
    let d := hs_disk s.2 in
    if hc_fault c then Some (Err HostOther, s)
    else if bool_decide (hd_names d !! p <> None) then Some (Err HostExists, s)
    else if negb (in_directory p d) then Some (Err HostNotFound, s)
    else let '(n, d') := new_node p (mkNode (Regular []) geteuid getegid mode 1 (hc_nanos c)) d in
         Some (Ok n, set_host_disk d' s)).

(** [open] with [CREATE]. *)
Definition open_or_create (p : path) (mode : Z) : Hst HostIo nat :=
  act (fun _ c s =>
    let d := hs_disk s.2 in
    if hc_fault c then Some (Err HostOther, s)
    else match hd_names d !! p with
    | Some n =>
        match hd_nodes d !! n with
        | Some node =>
            if node_is_symlink node || node_is_dir node then Some (Err HostOther, s) else Some (Ok n, s)
        | None => Some (Err HostOther, s)
        end
    | None =>
        if negb (in_directory p d) then Some (Err HostNotFound, s)
        else let '(n, d') := new_node p (mkNode (Regular []) geteuid getegid mode 1 (hc_nanos c)) d in
             Some (Ok n, set_host_disk d' s)
    end).
End Identified.

(** [flock] with [LockExclusive] waits for the holder. *)
Definition flock_handle (n : nat) : Hst HostIo unit :=
  act (fun tid c s =>
    let d := hs_disk s.2 in
    if hc_fault c then Some (Err HostOther, s)
    else match hd_flocks d !! n with
         | Some _ => None
         | None => Some (Ok tt, set_host_disk (mkHostDisk (hd_names d) (hd_nodes d) (hd_next d)
                                                 (<[n := tid]> (hd_flocks d))) s)
         end).

(** [flock] with [NonBlockingLockShared].  Shared holders do not exclude each
    other, and nothing in the model waits for them. *)
Definition flock_shared (n : nat) : Hst HostIo unit :=
  look (fun d => match hd_flocks d !! n with Some _ => Err HostOther | None => Ok tt end).

Definition now_uuid {E} : Hst E bytes := act (fun _ c s => Some (Ok (hc_uuid c), s)).
(** The seconds of [SystemTime::now] since the epoch. *)
Definition now_seconds : Hst AdapterError Z :=
  act (fun _ c s => Some (ok_or (hc_clock c) Unavailable, s)).

Definition now_nanos {E} : Hst E Z := act (fun _ c s => Some (Ok (hc_nanos c), s)).

(** * Guards *)

(** [Mutex::lock().await]. *)
Definition lock_mutex {E} (m : Mutex) : Hst E unit :=
  act (fun tid _ s => match hs_mutex s.2 m with
    | Some _ => None
    | None => Some (Ok tt, (s.1, mkHostState (hs_disk s.2) (<[m := Some tid]> (hs_mutex s.2))
                                   (hs_armed s.2)))
    end).

Definition armed_by (tid : nat) (s : HostState) : list path := default [] (hs_armed s !! tid).

Definition set_armed (tid : nat) (l : list path) (s : AdapterState) : AdapterState :=
  (s.1, mkHostState (hs_disk s.2) (hs_mutex s.2) (<[tid := l]> (hs_armed s.2))).

(** [StagingFile::new]. *)
Definition arm {E} (p : path) : Hst E unit :=
  act (fun tid _ s => Some (Ok tt, set_armed tid (p :: armed_by tid s.2) s)).

(** [StagingFile::disarm]. *)
Definition disarm {E} (p : path) : Hst E unit :=
  act (fun tid _ s =>
    Some (Ok tt, set_armed tid (List.filter (fun q => negb (bool_decide (q = p))) (armed_by tid s.2)) s)).

(** The removals of a drop, last guard first; one that fails is ignored. *)
Fixpoint remove_each (ps : list path) (kept : list bool) (d : HostDisk) : HostDisk :=
  match ps with
  | [] => d
  | p :: rest =>
      let d := if default false (head kept) then d
               else match unlink p d with Ok d' => d' | Err _ => d end in
      remove_each rest (tail kept) d
  end.

Definition release_flocks (tid : nat) (d : HostDisk) : HostDisk :=
  mkHostDisk (hd_names d) (hd_nodes d) (hd_next d) (filter (fun kv => kv.2 <> tid) (hd_flocks d)).

Definition release_mutexes (tid : nat) (held : Mutex -> option nat) (m : Mutex) : option nat :=
  if bool_decide (held m = Some tid) then None else held m.

(** The guards of an operation are dropped: its staging files are removed, then
    its locks are given up. *)
Definition drop_guards (tid : nat) (kept : list bool) (s : HostState) : HostState :=
  mkHostState (release_flocks tid (remove_each (armed_by tid s) kept (hs_disk s)))
    (release_mutexes tid (hs_mutex s)) (delete tid (hs_armed s)).

(** The process dies: its locks are gone, its staging files stay. *)
Definition die (tid : nat) (s : HostState) : HostState :=
  mkHostState (release_flocks tid (hs_disk s)) (release_mutexes tid (hs_mutex s))
    (delete tid (hs_armed s)).

(** A scope that owns guards. *)
Definition scoped {E A} (m : Hst E A) : Hst E A :=
  pthen m (fun r =>
    Step (fun tid c s => Some (tt, (s.1, drop_guards tid (hc_kept c) s.2))) (fun _ => Done r)).

(** An operation its caller may give up at any step, as a timeout does: what
    it holds is dropped where it stands.  A call that is under way then has
    either happened or does not happen. *)
Fixpoint abandonable {E A} (m : Hst E A) : Hst E (option A) :=
  match m with
  | Done (Ok a) => Done (Ok (Some a))
  | Done (Err e) => Done (Err e)
  | Step a k =>
      Step (fun tid c s =>
              if hc_abandon c then Some (None, (s.1, drop_guards tid (hc_kept c) s.2))
              else match a tid c s with Some (b, s') => Some (Some b, s') | None => None end)
           (fun b => match b with Some b => abandonable (k b) | None => Done (Ok None) end)
  end.

(** * The effect store and child processes *)

(** [EffectStore::open]: finding and checking the database may fail. *)
Definition open_store : Hst AdapterError unit :=
  act (fun _ c s => match hc_open c with Some e => Some (Err e, s) | None => Some (Ok tt, s) end).

(** One method of the open store. *)
Definition effect {A} (m : option Z -> Eff A) : Hst AdapterError A :=
  act (fun _ c s =>
    let '(r, conn) := m (hc_clock c) (mkConn s.1 (hc_statements c)) in
    Some (r, (conn_db conn, s.2))).

(** How a child ends: it cannot be started, its pipes fail, it exceeds the
    deadline and is killed, or it exits with a code and its output. *)
Inductive ChildEnd :=
| NotSpawned
| PipesFailed
| TimedOut
| Exited (code : option Z) (stdout stderr : bytes).

Class Children := {
  child_run : path -> list bytes -> bytes -> nat -> HostDisk -> ChildEnd * HostDisk }.

Record Captured := mkCaptured { cap_stdout : bytes; cap_stderr : bytes }.

(** [map_err(AdapterError::Io)]. *)
Definition os {A} (m : Hst HostIo A) : Hst AdapterError A := pmap_err (fun _ => Io IoOs) m.

Section Processes.
Context {children : Children} (output_bytes : Z).

(** [read_bounded]: what is kept of a stream, and whether there was more. *)
Definition read_bounded (stream : bytes) : bytes * bool :=
  (take (Z.to_nat output_bytes) stream, output_bytes <? len stream).

Definition child_outcome (e : ChildEnd) : Adapt Captured :=
  match e with
  | NotSpawned | PipesFailed => Err (Io IoOs)
  | TimedOut => Err DeadlineExceeded
  | Exited code stdout stderr =>
      let '(stdout, stdout_exceeded) := read_bounded stdout in
      let '(stderr, stderr_exceeded) := read_bounded stderr in
      if stdout_exceeded || stderr_exceeded then Err OutputLimit
      else if negb (bool_decide (code = Some 0)) then Err (CommandFailed code)
      else Ok (mkCaptured stdout stderr)
  end.

Definition execute_with_input (program : path) (args : list bytes) (input : bytes)
  : Hst AdapterError Captured :=
  act (fun _ c s =>
    let '(e, d) := child_run program args input (hc_child c) (hs_disk s.2) in
    Some (child_outcome e, set_host_disk d s)).

Definition execute_program (program : path) (args : list bytes) : Hst AdapterError Captured :=
  execute_with_input program args [].
End Processes.
