(* ===== verification/Adapter.v ===== *)
(** The operations of [Adapter] in [rust/crates/ocserv-adapter/src/lib.rs] on
    the host: reports, configuration plan and apply with its recovery, the
    complete configuration of [complete_config.rs] with its TLS files, the user
    file with its staging and publication, sessions, and the clean-up of stale
    files.  Every operation is a program over the host state of [HostFiles];
    several may be under way, and each may be given up by its caller. *)

From stdpp Require Import base list gmap numbers countable strings sorting.
From Stdlib Require Import ZArith Lia Bool Strings.Byte.
From S2P Require Import Prelude Bytes Text Contracts ConfigProfile Authorization Sql Executor Utf8.
From S2P Require Import EffectRecords EffectStore Concurrency Files UpgradeRecords.
From S2P Require Import PrivdProtocol AdapterText HostFiles.

Local Open Scope Z_scope.
Local Open Scope prog_scope.

Definition MAX_CONFIG_BYTES : Z := 1024 * 1024.
Definition USER_FILE_MODE : Z := oct 6 0 0.

(** The root-controlled fixed resources; paths are absolute. *)
Record FixedResources := mkFixedResources {
  fr_systemctl : path; fr_ocserv : path; fr_occtl : path; fr_config : path; fr_boot_id : path;
  fr_ocpasswd : path; fr_user_file : path; fr_openssl : path; fr_user_secret_key : path;
  fr_user_secret_key_id : bytes; fr_p12_secret_key : path; fr_p12_secret_key_id : bytes;
  fr_certificate_key_dir : path; fr_config_tls_root : path }.

Definition path_text (p : path) : bytes := concat ((fun name => x2f :: name) <$> p).

(** [Path::to_str]. *)
Definition path_to_str (p : path) : Adapt bytes :=
  if forallb utf8_valid p then Ok (path_text p) else Err InvalidResource.

(** [path.parent().ok_or(InvalidResource)] and [path.file_name()]. *)
Definition parent_of (p : path) : Adapt path := ok_or (directory_of p) InvalidResource.
Definition file_name (p : path) : Adapt bytes := ok_or (last p) InvalidResource.
Definition file_name_str (p : path) : Adapt bytes :=
  match last p with
  | Some name => if utf8_valid name then Ok name else Err InvalidResource
  | None => Err InvalidResource
  end.

Section Adapter.
Context {crypto : Crypto} {text : RecordText} {platform : Platform} {ids : HostIds}.
Context {children : Children} {json : SerdeJson}.
Variable resources : FixedResources.
Variable output_bytes : Z.
(** The key of the effect store. *)
Variable store_key : bytes.

Abbreviation Ad A := (Hst AdapterError A).

Definition run_child (program : path) (args : list bytes) : Ad Captured :=
  execute_program output_bytes program args.

(** * Reports *)

Definition service_status : Ad ServiceStatus :=
  output <- run_child (fr_systemctl resources)
    (str <$> ["show"; "ocserv.service"; "--property=LoadState"; "--property=ActiveState";
              "--property=SubState"; "--no-pager"]%string) ;;
  plift (parse_service_status (cap_stdout output)).

Definition ocserv_version : Ad bytes :=
  output <- run_child (fr_ocserv resources) [str "--version"] ;;
  plift (parse_version (if is_empty (cap_stderr output) then cap_stdout output else cap_stderr output)).

Definition session_list : Ad (list Session) :=
  output <- run_child (fr_occtl resources) (str <$> ["--json"; "show"; "users"]%string) ;;
  plift (parse_sessions (cap_stdout output)).

Definition ip_ban_list : Ad (list IpBan) :=
  output <- run_child (fr_occtl resources) (str <$> ["--json"; "show"; "ip"; "bans"]%string) ;;
  plift (parse_ip_bans (cap_stdout output)).

Definition config_fingerprint : Ad ConfigFingerprint :=
  n <- os (open_file (fr_config resources)) ;;
  b <- os (read_handle n) ;;
  let b := take (Z.to_nat (MAX_CONFIG_BYTES + 1)) b in
  if MAX_CONFIG_BYTES <? len b then pthrow OutputLimit
  else pret (mkConfigFingerprint (hex_encode (sha256 b)) (len b)).

(** * Files of the configuration *)

Record FileIdentity := mkFileIdentity { fi_mode : Z; fi_uid : Z; fi_gid : Z }.

Definition file_identity (p : path) : Ad FileIdentity :=
  i <- os (stat p) ;;
  pret (mkFileIdentity (Z.land (nd_mode i) (oct 7 7 7)) (nd_uid i) (nd_gid i)).

Definition reject_symlink (p : path) : Ad unit :=
  found <- pcatch (stat p) ;;
  match found with
  | Ok i => if node_is_symlink i then pthrow InvalidResource else pret tt
  | Err HostNotFound => pret tt
  | Err _ => pthrow (Io IoOs)
  end.

Definition lock_config_file (config : path) : Ad unit :=
  up <- plift (parent_of config) ;;
  let p := up ++ [str ".ocservia-config.lock"] in
  reject_symlink p ;;;
  n <- os (open_or_create p (oct 6 0 0)) ;;
  os (flock_handle n).

Definition sync_parent (up : path) : Ad unit := os (flush_directory up).

Definition atomic_replace (staging target : path) : Ad unit :=
  n <- os (open_file staging) ;;
  os (sync_handle n) ;;;
  os (rename_file staging target) ;;;
  up <- plift (parent_of target) ;;
  sync_parent up.

Definition write_new_synced (p : path) (b : bytes) (identity : FileIdentity) : Ad unit :=
  n <- os (create_exclusive p (fi_mode identity)) ;;
  os (chown_handle n (fi_uid identity) (fi_gid identity)) ;;;
  os (chmod_handle n (fi_mode identity)) ;;;
  os (write_handle n b) ;;;
  os (sync_handle n).

(** [StagingFile::remove]. *)
Definition remove_staging (p : path) : Ad unit :=
  found <- pcatch (remove_path p) ;;
  match found with
  | Ok _ | Err HostNotFound => disarm p
  | Err _ => pthrow (Io IoOs)
  end.

(** * Planning *)

Definition plan_name (id : bytes) : bytes := str ".ocservia-plan-" ++ uuid_to_string id.

Definition config_plan (candidate candidate_hash : bytes) : Ad ConfigPlanResult :=
  if is_empty candidate || (MAX_CONFIG_PLAN_BYTES <? len candidate)
     || negb (len candidate_hash =? 32) || negb (bool_decide (sha256 candidate = candidate_hash))
  then pthrow InvalidRequest
  else if negb (utf8_valid candidate) then pthrow InvalidRequest
  else
  plift (validate_config_candidate candidate) ;;;
  scoped (
    lock_mutex ConfigPlanLock ;;;
    lock_config_file (fr_config resources) ;;;
    before <- config_fingerprint ;;
    up <- plift (parent_of (fr_config resources)) ;;
    id <- now_uuid ;;
    let staging_path := up ++ [plan_name id] in
    arm staging_path ;;;
    n <- os (create_exclusive staging_path (oct 6 0 0)) ;;
    checked <- plift (parser_candidate candidate) ;;
    let '(parsed, unresolved) := checked in
    os (write_handle n parsed) ;;;
    os (sync_handle n) ;;;
    p <- plift (path_to_str staging_path) ;;
    run_child (fr_ocserv resources) [str "-t"; str "-c"; p] ;;;
    let warnings := if (unresolved : bool) then [str "secret_references_unresolved"] else [] in
    remove_staging staging_path ;;;
    after <- config_fingerprint ;;
    if negb (bool_decide (cfp_sha256 before = cfp_sha256 after
                          /\ cfp_size_bytes before = cfp_size_bytes after))
    then pthrow Unavailable
    else
    diff <- plift (redacted_candidate_diff candidate) ;;
    still <- path_exists staging_path ;;
    current <- plift (ok_or (hex_decode (cfp_sha256 before)) MalformedOutput) ;;
    pret (mkConfigPlanResult candidate_hash diff warnings true (negb (still : bool)) current [])).

(** * Health of the service *)

Definition service_reload : Ad bool :=
  run_child (fr_systemctl resources)
    (str <$> ["reload"; "ocserv.service"; "--no-ask-password"]%string) ;;;
  pret true.

Definition config_health : Ad unit :=
  p <- plift (path_to_str (fr_config resources)) ;;
  run_child (fr_ocserv resources) [str "-t"; str "-c"; p] ;;;
  service_reload ;;;
  status <- service_status ;;
  if negb (bool_decide (sst_load_state status = str "loaded"))
     || negb (bool_decide (sst_active_state status = str "active"))
     || negb (bool_decide (sst_sub_state status = str "running"))
  then pthrow Unavailable
  else session_list ;;; pret tt.

(** * Recovery copies *)

Definition BACKUP : bytes := str ".ocservia-backup-".
Definition SUCCESS : bytes := str ".ocservia-success-".
Definition APPLY : bytes := str ".ocservia-apply-".

Fixpoint each_entry (step : bytes -> Ad unit) (names : list bytes) : Ad unit :=
  match names with
  | [] => os next_entry
  | name :: rest => os next_entry ;;; step name ;;; each_entry step rest
  end.

Fixpoint remove_paths (ps : list path) : Ad unit :=
  match ps with
  | [] => pret tt
  | p :: rest => os (remove_path p) ;;; remove_paths rest
  end.

(** The ten retained copies with the greatest names are kept. *)
Definition prune_config_backups : Ad unit :=
  up <- plift (parent_of (fr_config resources)) ;;
  names <- os (list_directory up) ;;
  each_entry (fun _ => pret tt) names ;;;
  let backups := merge_sort (key_order id) (List.filter (starts_with SUCCESS) names) in
  remove_paths ((fun name => up ++ [name]) <$> take (length backups - 10) backups) ;;;
  sync_parent up.

Definition is_recovery_name (name : bytes) : bool := starts_with BACKUP name || starts_with SUCCESS name.

(** The recovery copies with the expected digest. *)
Fixpoint matching_copies (up : path) (expected_hash : bytes) (names : list bytes) : Ad (list bytes) :=
  match names with
  | [] => os next_entry ;;; pret []
  | name :: rest =>
      os next_entry ;;;
      if negb (is_recovery_name name) then matching_copies up expected_hash rest
      else
        b <- os (read_file (up ++ [name])) ;;
        others <- matching_copies up expected_hash rest ;;
        pret (if (len b <=? MAX_CONFIG_BYTES) && bool_decide (sha256 b = expected_hash)
              then name :: others else others)
  end.

Definition greatest (names : list bytes) : option bytes := last (merge_sort (key_order id) names).

Definition find_config_recovery (expected_hash : bytes) : Ad (option path) :=
  up <- plift (parent_of (fr_config resources)) ;;
  names <- os (list_directory up) ;;
  copies <- matching_copies up expected_hash names ;;
  pret ((fun name => up ++ [name]) <$>
        match greatest (List.filter (starts_with BACKUP) copies) with
        | Some name => Some name
        | None => greatest (List.filter (starts_with SUCCESS) copies)
        end).

(** * Applying *)

Definition CONFIG_APPLY : bytes := str "config_apply".
Definition OCSERV_CONF : bytes := str "ocserv.conf".

Definition mark_config_applied (revision : Z) (identity : EffectIdentity) : Ad unit :=
  effect (fun clock => mark_applied store_key clock CONFIG_APPLY OCSERV_CONF revision identity).
Definition mark_config_absent (revision : Z) (identity : EffectIdentity) : Ad unit :=
  effect (fun clock => mark_absent store_key clock CONFIG_APPLY OCSERV_CONF revision identity).

(** The candidate is already in place: the copy of what it replaced decides. *)
Definition recover_config (candidate_hash expected_current_hash : bytes) (revision : Z)
  (identity : EffectIdentity) : Ad ConfigApplyResult :=
  up <- plift (parent_of (fr_config resources)) ;;
  backup <- find_config_recovery expected_current_hash ;;
  healthy <- pcatch config_health ;;
  if is_ok healthy then
    match backup with
    | None => pthrow Unavailable
    | Some p =>
        (if match last p with Some name => starts_with BACKUP name | None => false end then
           id <- now_uuid ;;
           os (rename_file p (up ++ [SUCCESS ++ uuid_to_string id])) ;;;
           sync_parent up ;;;
           prune_config_backups
         else pret tt) ;;;
        mark_config_applied revision identity ;;;
        pret (mkConfigApplyResult candidate_hash expected_current_hash candidate_hash revision
                true false false [])
    end
  else
    let failed := mkConfigApplyResult candidate_hash expected_current_hash [] 0 false false true
                    (str "recovery_rollback_failed") in
    match backup with
    | None => pret failed
    | Some p =>
        replaced <- pcatch (atomic_replace p (fr_config resources)) ;;
        if negb (is_ok replaced) then pret failed
        else
        healthy <- pcatch config_health ;;
        if negb (is_ok healthy) then pret failed
        else
        observed <- config_fingerprint ;;
        if negb (bool_decide (cfp_sha256 observed = hex_encode expected_current_hash)) then pret failed
        else
        mark_config_absent revision identity ;;;
        pret (mkConfigApplyResult candidate_hash expected_current_hash expected_current_hash 0
                true true false (str "recovered_health_check_failed"))
    end.

(** Putting the copy back after a failed health check. *)
Definition roll_back (backup_path : path) (before : ConfigFingerprint) : Ad ConfigFingerprint :=
  atomic_replace backup_path (fr_config resources) ;;;
  disarm backup_path ;;;
  config_health ;;;
  observed <- config_fingerprint ;;
  if negb (bool_decide (cfp_sha256 observed = cfp_sha256 before)) then pthrow Unavailable
  else pret observed.

(** The candidate is in place: the health of the service decides. *)
Definition conclude_config (candidate_hash : bytes) (before : ConfigFingerprint)
  (previous_hash : bytes) (revision : Z) (identity : EffectIdentity) (up : path) (id : bytes)
  : Ad ConfigApplyResult :=
  let backup_path := up ++ [BACKUP ++ uuid_to_string id] in
  healthy <- pcatch config_health ;;
  if is_ok healthy then
    os (rename_file backup_path (up ++ [SUCCESS ++ uuid_to_string id])) ;;;
    disarm backup_path ;;;
    sync_parent up ;;;
    prune_config_backups ;;;
    observed <- config_fingerprint ;;
    mark_config_applied revision identity ;;;
    observed_hash <- plift (ok_or (hex_decode (cfp_sha256 observed)) MalformedOutput) ;;
    pret (mkConfigApplyResult candidate_hash previous_hash observed_hash revision true false false [])
  else
    rollback <- pcatch (roll_back backup_path before) ;;
    match rollback with
    | Ok observed =>
        mark_config_absent revision identity ;;;
        observed_hash <- plift (ok_or (hex_decode (cfp_sha256 observed)) MalformedOutput) ;;
        pret (mkConfigApplyResult candidate_hash previous_hash observed_hash 0 true true false
                (str "health_check_failed"))
    | Err _ =>
        pret (mkConfigApplyResult candidate_hash previous_hash [] 0 false false true
                (str "rollback_failed"))
    end.

(** The candidate replaces the configuration, of which a copy is kept. *)
Definition publish_config (candidate candidate_hash : bytes) (before : ConfigFingerprint)
  (previous_hash : bytes) (revision : Z) (identity : EffectIdentity) (complete : bool)
  : Ad ConfigApplyResult :=
  up <- plift (parent_of (fr_config resources)) ;;
  id <- now_uuid ;;
  let stage_path := up ++ [APPLY ++ uuid_to_string id] in
  let backup_path := up ++ [BACKUP ++ uuid_to_string id] in
  arm stage_path ;;;
  arm backup_path ;;;
  owner <- file_identity (fr_config resources) ;;
  current <- os (read_file (fr_config resources)) ;;
  write_new_synced backup_path current owner ;;;
  write_new_synced stage_path candidate owner ;;;
  sync_parent up ;;;
  (if (complete : bool) then
     p <- plift (path_to_str stage_path) ;;
     run_child (fr_ocserv resources) [str "-t"; str "-c"; p] ;;; pret tt
   else pret tt) ;;;
  disarm backup_path ;;;
  atomic_replace stage_path (fr_config resources) ;;;
  disarm stage_path ;;;
  conclude_config candidate_hash before previous_hash revision identity up id.

(** What runs under the two locks. *)
Definition apply_known (candidate candidate_hash expected_current_hash : bytes)
  (revision : Z) (identity : EffectIdentity) (complete : bool) : Ad ConfigApplyResult :=
  before <- config_fingerprint ;;
  before_bytes <- os (read_file (fr_config resources)) ;;
  previous_hash <- plift (ok_or (hex_decode (cfp_sha256 before)) MalformedOutput) ;;
  if negb (bool_decide (previous_hash = expected_current_hash))
     && negb (bool_decide (previous_hash = candidate_hash))
  then pthrow Unavailable
  else
  plift (if (complete : bool) then validate_reload_bindings before_bytes candidate else Ok tt) ;;;
  open_store ;;;
  preparation <- effect (fun clock => prepare store_key clock CONFIG_APPLY OCSERV_CONF revision
                           identity before_bytes candidate) ;;
  match (preparation : PrepareEffect) with
  | AlreadyApplied =>
      if negb (bool_decide (previous_hash = candidate_hash)) then pthrow Unavailable
      else pret (mkConfigApplyResult candidate_hash expected_current_hash candidate_hash revision
                   true false false [])
  | Proceed =>
      if bool_decide (previous_hash = candidate_hash)
      then recover_config candidate_hash expected_current_hash revision identity
      else publish_config candidate candidate_hash before previous_hash revision identity complete
  end.

Definition apply_under_locks (candidate candidate_hash expected_current_hash : bytes)
  (revision : Z) (identity : EffectIdentity) (complete : bool) : Ad ConfigApplyResult :=
  lock_mutex ConfigPlanLock ;;;
  lock_config_file (fr_config resources) ;;;
  apply_known candidate candidate_hash expected_current_hash revision identity complete.

Definition apply_validated_config (candidate candidate_hash expected_current_hash : bytes)
  (revision : Z) (identity : EffectIdentity) (complete : bool) : Ad ConfigApplyResult :=
  scoped (apply_under_locks candidate candidate_hash expected_current_hash revision identity complete).

Definition config_apply (candidate candidate_hash expected_current_hash : bytes) (revision : Z)
  (identity : EffectIdentity) : Ad ConfigApplyResult :=
  if is_empty candidate || (MAX_CONFIG_PLAN_BYTES <? len candidate)
     || negb (len candidate_hash =? 32) || negb (len expected_current_hash =? 32) || (revision =? 0)
     || negb (bool_decide (sha256 candidate = candidate_hash))
  then pthrow InvalidRequest
  else if negb (utf8_valid candidate) then pthrow InvalidRequest
  else
  plift (validate_config_candidate candidate) ;;;
  if names_secret candidate then pthrow InvalidRequest
  else apply_validated_config candidate candidate_hash expected_current_hash revision identity false.

(** * The user file *)

Definition authoritative_user_owner : Z * Z := (geteuid, if geteuid =? 0 then 0 else getegid).

Definition check_resource (resource reason : String.string) (actual expected : Z) : Ad unit :=
  if actual =? expected then pret tt
  else pthrow (ResourceMetadata (str resource) (str reason) actual expected).

Definition bool_number (b : bool) : Z := if b then 1 else 0.

Definition validate_user_directory (n : nat) (uid : Z) : Ad unit :=
  i <- os (fstat n) ;;
  check_resource "ocpasswd_parent" "file_type_directory" (bool_number (node_is_dir i)) 1 ;;;
  check_resource "ocpasswd_parent" "owner_uid" (nd_uid i) uid ;;;
  check_resource "ocpasswd_parent" "writable_mode_bits" (Z.land (nd_mode i) (oct 0 2 2)) 0.

(** Every directory from the root down is opened and checked. *)
Fixpoint descend (uid : Z) (base : path) (names : list bytes) : Ad path :=
  match names with
  | [] => pret base
  | name :: rest =>
      let next := base ++ [name] in
      n <- os (open_directory next) ;;
      validate_user_directory n uid ;;;
      descend uid next rest
  end.

(** The directory of a file, its name, and the owner its files must have; the
    daemon checks the whole way when it runs as root. *)
Definition open_user_directory (p : path) : Ad (path * bytes * Z * Z) :=
  name <- plift (file_name p) ;;
  let '(uid, gid) := authoritative_user_owner in
  up <- plift (parent_of p) ;;
  if uid =? 0 then
    n <- os (open_directory []) ;;
    validate_user_directory n uid ;;;
    directory <- descend uid [] up ;;
    pret (directory, name, uid, gid)
  else
    n <- os (open_directory up) ;;
    validate_user_directory n uid ;;;
    pret (up, name, uid, gid).

Definition validate_authoritative_user_file (n : nat) (uid gid : Z) : Ad Node :=
  i <- os (fstat n) ;;
  check_resource "ocpasswd" "file_type_regular" (bool_number (node_is_file i)) 1 ;;;
  check_resource "ocpasswd" "link_count" (nd_nlink i) 1 ;;;
  check_resource "ocpasswd" "owner_uid" (nd_uid i) uid ;;;
  check_resource "ocpasswd" "group_gid" (nd_gid i) gid ;;;
  check_resource "ocpasswd" "mode" (Z.land (nd_mode i) (oct 7 7 7)) USER_FILE_MODE ;;;
  pret i.

Definition set_authoritative_user_metadata (n : nat) (uid gid : Z) : Ad unit :=
  os (chown_handle n uid gid) ;;; os (chmod_handle n (oct 6 0 0)).

Definition read_user_file (p : path) (optional : bool) : Ad bytes :=
  place <- open_user_directory p ;;
  let '(directory, name, uid, gid) := place in
  found <- pcatch (open_file (directory ++ [name])) ;;
  match found with
  | Err HostNotFound =>
      if optional then pret []
      else pthrow (ResourceIo (str "ocpasswd") (str "open_failed") IoOs)
  | Err HostLoop => pthrow (ResourceIo (str "ocpasswd") (str "symlink") IoOs)
  | Err _ => pthrow (ResourceIo (str "ocpasswd") (str "open_failed") IoOs)
  | Ok n =>
      validate_authoritative_user_file n uid gid ;;;
      b <- os (read_handle n) ;;
      let b := take (Z.to_nat (MAX_USER_FILE_BYTES + 1)) b in
      if MAX_USER_FILE_BYTES <? len b then pthrow OutputLimit else pret b
  end.

Definition read_optional_user_file (p : path) : Ad bytes := read_user_file p true.

Definition normalize_and_read_user_staging (p : path) : Ad bytes :=
  place <- open_user_directory p ;;
  let '(directory, name, uid, gid) := place in
  n <- os (open_file (directory ++ [name])) ;;
  i <- os (fstat n) ;;
  if negb (node_is_file i) || negb (nd_nlink i =? 1) then pthrow InvalidResource
  else
  set_authoritative_user_metadata n uid gid ;;;
  os (sync_handle n) ;;;
  read_user_file p false.

Definition publish_user_staging (staging target : path) : Ad unit :=
  if negb (bool_decide (directory_of staging = directory_of target)) then pthrow InvalidResource
  else
  place <- open_user_directory target ;;
  let '(directory, target_name, uid, gid) := place in
  staging_name <- plift (file_name staging) ;;
  n <- os (open_file (directory ++ [staging_name])) ;;
  validate_authoritative_user_file n uid gid ;;;
  found <- pcatch (open_file (directory ++ [target_name])) ;;
  match found with
  | Ok m => validate_authoritative_user_file m uid gid ;;; pret tt
  | Err HostNotFound => pret tt
  | Err _ => pthrow (Io IoOs)
  end ;;;
  os (rename_file (directory ++ [staging_name]) (directory ++ [target_name])) ;;;
  m <- os (open_file (directory ++ [target_name])) ;;
  validate_authoritative_user_file m uid gid ;;;
  if negb (bool_decide (m = n)) then pthrow InvalidResource
  else os (sync_handle m) ;;; os (flush_directory directory).

Definition user_staging_prefix (name : bytes) : bytes := [x2e] ++ name ++ str ".ocservia-".

(** The staging file of an operation: created with the contents given. *)
Definition stage_user_file (b : bytes) : Ad path :=
  let p := fr_user_file resources in
  up <- plift (parent_of p) ;;
  name <- plift (file_name_str p) ;;
  id <- now_uuid ;;
  let staging_name := user_staging_prefix name ++ uuid_to_string id in
  arm (up ++ [staging_name]) ;;;
  read_optional_user_file p ;;;
  place <- open_user_directory p ;;
  let '(directory, _, uid, gid) := place in
  n <- os (create_exclusive (directory ++ [staging_name]) (oct 6 0 0)) ;;
  set_authoritative_user_metadata n uid gid ;;;
  os (write_handle n b) ;;;
  os (sync_handle n) ;;;
  pret (up ++ [staging_name]).

Definition commit_desired_staging (staging : path) (before kind key : bytes) (revision : Z)
  (identity : EffectIdentity) : Ad unit :=
  after <- normalize_and_read_user_staging staging ;;
  plift (parse_secret_user_records after) ;;;
  open_store ;;;
  preparation <- effect (fun clock => prepare store_key clock kind key revision identity before after) ;;
  match (preparation : PrepareEffect) with
  | AlreadyApplied => remove_staging staging
  | Proceed =>
      publish_user_staging staging (fr_user_file resources) ;;;
      disarm staging ;;;
      effect (fun clock => mark_applied store_key clock kind key revision identity)
  end.

Definition user_list : Ad (list ObservedUser) :=
  b <- read_optional_user_file (fr_user_file resources) ;;
  plift (parse_user_file b).

Definition group_list : Ad (list ObservedGroup) :=
  b <- read_optional_user_file (fr_user_file resources) ;;
  plift (parse_groups_from_user_file b).

(** The snapshot taken before enrollment. *)
Definition host_preflight : Ad unit :=
  user_list ;;; group_list ;;; ocserv_version ;;; config_fingerprint ;;; service_status ;;;
  session_list ;;; ip_ban_list ;;; pret tt.

(** * Sessions and bans *)

Definition ensure_boot_id (expected : bytes) : Ad unit :=
  if negb (is_some (uuid_parse_str expected)) then pthrow InvalidRequest
  else
  actual <- os (read_file (fr_boot_id resources)) ;;
  if negb (utf8_valid actual) then pthrow (Io IoOs)
  else if negb (bool_decide (trim actual = expected)) then pthrow StaleBoot else pret tt.

Definition session_disconnect (session_id boot_id : bytes) : Ad bool :=
  ensure_boot_id boot_id ;;;
  id <- plift (numeric_session_id session_id) ;;
  run_child (fr_occtl resources) [str "disconnect"; str "id"; id] ;;;
  pret true.

Definition session_terminate (session_id boot_id : bytes) : Ad bool :=
  ensure_boot_id boot_id ;;;
  id <- plift (numeric_session_id session_id) ;;
  version <- ocserv_version ;;
  if negb (supports_session_terminate version) then pthrow InvalidRequest
  else
  run_child (fr_occtl resources) [str "terminate"; str "id"; id] ;;;
  pret true.

Definition ip_ban_remove (ip : bytes) : Ad bool :=
  canonical <- plift (canonical_ip ip) ;;
  if negb (bool_decide (canonical = ip)) then pthrow InvalidRequest
  else run_child (fr_occtl resources) [str "unban"; str "ip"; canonical] ;;; pret true.

(** * Users *)

(** The password must be non-empty, at most 1024 bytes and of one line. *)
Definition bad_password (password : bytes) : bool :=
  is_empty password || (1024 <? len password)
  || existsb (fun b => bool_decide (b = x00) || bool_decide (b = x0d) || bool_decide (b = x0a)) password.

Definition scratch_of (staging : path) : Ad (bytes * path) :=
  staging_text <- plift (path_to_str staging) ;;
  up <- plift (parent_of staging) ;;
  name <- plift (file_name staging) ;;
  pret (staging_text, up ++ [name ++ str ".tmp"]).

Definition user_secret_apply (username key_id sealed_password : bytes) (revision : Z)
  (identity : EffectIdentity) (mode : SecretApplyMode) : Ad bool :=
  plift (validate_name username) ;;;
  if negb (valid_key_id key_id) || negb (bool_decide (key_id = fr_user_secret_key_id resources))
     || (len sealed_password <? 32) || (4096 <? len sealed_password) || (revision =? 0)
  then pthrow InvalidRequest
  else scoped (
    lock_mutex UserFileLock ;;;
    current <- read_optional_user_file (fr_user_file resources) ;;
    records <- plift (parse_secret_user_records current) ;;
    let metadata := (fun record => (sur_groups record, starts_with [x21] (sur_hash record)))
                    <$> List.find (fun record => bool_decide (sur_username record = username)) records in
    if (bool_decide (mode = MustBeAbsent) && is_some metadata)
       || (bool_decide (mode = MustExist) && negb (is_some metadata))
    then pthrow InvalidRequest
    else if bool_decide (mode = MustBeAbsent) && (MAX_MANAGED_RESOURCES <=? len records)
    then pthrow CapacityExceeded
    else
    key <- plift (path_to_str (fr_user_secret_key resources)) ;;
    output <- execute_with_input output_bytes (fr_openssl resources)
      [str "pkeyutl"; str "-decrypt"; str "-inkey"; key; str "-pkeyopt";
       str "rsa_padding_mode:oaep"; str "-pkeyopt"; str "rsa_oaep_md:sha256"] sealed_password ;;
    let password := cap_stdout output in
    if bad_password password then pthrow MalformedOutput
    else
    let input := password ++ [x0a] ++ password ++ [x0a] in
    staging <- stage_user_file current ;;
    place <- scratch_of staging ;;
    let '(staging_text, scratch) := place in
    arm scratch ;;;
    execute_with_input output_bytes (fr_ocpasswd resources)
      ([str "-c"; staging_text]
       ++ match metadata with Some (groups, _) => [str "-g"; groups] | None => [] end
       ++ [username]) input ;;;
    (if match metadata with Some (_, disabled) => disabled | None => false end then
       run_child (fr_ocpasswd resources) [str "-c"; staging_text; str "-l"; username] ;;; pret tt
     else pret tt) ;;;
    commit_desired_staging staging current (mutation_kind mode) username revision identity ;;;
    pret true).

Definition user_create (username key_id sealed_password : bytes) (revision : Z)
  (identity : EffectIdentity) : Ad bool :=
  user_secret_apply username key_id sealed_password revision identity MustBeAbsent.

Definition user_password_rotate (username key_id sealed_password : bytes) (revision : Z)
  (identity : EffectIdentity) : Ad bool :=
  user_secret_apply username key_id sealed_password revision identity MustExist.

Definition user_lock_state (username : bytes) (revision : Z) (identity : EffectIdentity)
  (locked : bool) : Ad bool :=
  plift (validate_name username) ;;;
  if revision =? 0 then pthrow InvalidRequest
  else scoped (
    lock_mutex UserFileLock ;;;
    current <- read_optional_user_file (fr_user_file resources) ;;
    metadata <- plift (find_user_metadata current username) ;;
    if negb (is_some metadata) then pthrow InvalidRequest
    else
    staging <- stage_user_file current ;;
    place <- scratch_of staging ;;
    let '(staging_text, scratch) := place in
    arm scratch ;;;
    run_child (fr_ocpasswd resources)
      [str "-c"; staging_text; if locked then str "-l" else str "-u"; username] ;;;
    commit_desired_staging staging current
      (if locked then str "user_disable" else str "user_enable") username revision identity ;;;
    pret true).

Definition user_disable (username : bytes) (revision : Z) (identity : EffectIdentity) : Ad bool :=
  user_lock_state username revision identity true.
Definition user_enable (username : bytes) (revision : Z) (identity : EffectIdentity) : Ad bool :=
  user_lock_state username revision identity false.

Definition group_apply (group_name : bytes) (members : list bytes) (revision : Z)
  (identity : EffectIdentity) : Ad bool :=
  plift (validate_group_request group_name members revision) ;;;
  scoped (
    lock_mutex UserFileLock ;;;
    b <- read_optional_user_file (fr_user_file resources) ;;
    output <- plift (group_contents group_name members b) ;;
    staging <- stage_user_file output ;;
    commit_desired_staging staging b (str "group_apply") group_name revision identity ;;;
    pret true).

(** * Observation *)

Definition desired_effect_observe (kind key : bytes) (revision : Z) (identity : EffectIdentity)
  : Ad DesiredEffectObservation :=
  plift (validate_effect_identity kind key revision) ;;;
  if bool_decide (kind = CONFIG_APPLY) then
    scoped (
      lock_mutex ConfigPlanLock ;;;
      current <- os (read_file (fr_config resources)) ;;
      open_store ;;;
      effect (fun clock => observe store_key clock kind key revision identity current))
  else
    scoped (
      lock_mutex UserFileLock ;;;
      current <- read_optional_user_file (fr_user_file resources) ;;
      open_store ;;;
      effect (fun clock => observe store_key clock kind key revision identity current)).

(** * Stale files *)

(** A name made of a prefix and a version 7 UUID. *)
Definition stale_suffix (suffix : bytes) : bool :=
  match uuid_parse_str suffix with Some id => uuid_version id =? 7 | None => false end.

Definition stale_user_name (prefix name : bytes) : bool :=
  utf8_valid name &&
  match strip_prefix prefix name with
  | None => false
  | Some suffix =>
      stale_suffix (match strip_suffix (str ".tmp") suffix with Some rest => rest | None => suffix end)
  end.

Definition cleanup_stale_user_staging : Ad unit :=
  scoped (
    lock_mutex UserFileLock ;;;
    place <- open_user_directory (fr_user_file resources) ;;
    let '(directory, _, uid, gid) := place in
    up <- plift (parent_of (fr_user_file resources)) ;;
    name <- plift (file_name_str (fr_user_file resources)) ;;
    names <- os (list_directory up) ;;
    each_entry (fun candidate =>
      if stale_user_name (user_staging_prefix name) candidate then
        n <- os (open_file (directory ++ [candidate])) ;;
        i <- os (fstat n) ;;
        let expected_gid := if nd_gid i =? gid then gid else getegid in
        validate_authoritative_user_file n uid expected_gid ;;;
        os (remove_path (directory ++ [candidate]))
      else pret tt) names).

Definition cleanup_stale_config_plans : Ad unit :=
  scoped (
    lock_mutex ConfigPlanLock ;;;
    up <- plift (parent_of (fr_config resources)) ;;
    names <- os (list_directory up) ;;
    each_entry (fun candidate =>
      if utf8_valid candidate
         && match strip_prefix (str ".ocservia-plan-") candidate with
            | Some suffix => stale_suffix suffix
            | None => false
            end
      then os (remove_path (up ++ [candidate])) else pret tt) names).

Definition cleanup_stale_config_apply_staging : Ad unit :=
  scoped (
    lock_mutex ConfigPlanLock ;;;
    up <- plift (parent_of (fr_config resources)) ;;
    names <- os (list_directory up) ;;
    each_entry (fun candidate =>
      if utf8_valid candidate
         && match strip_prefix APPLY candidate with
            | Some suffix => stale_suffix suffix
            | None => false
            end
      then os (remove_path (up ++ [candidate])) else pret tt) names ;;;
    sync_parent up).

(** * The complete configuration ([complete_config.rs]) *)

Definition closed (i : Node) : bool := Z.land (nd_mode i) (oct 0 2 2) =? 0.

(** Every directory on the way, checked before it is used. *)
Fixpoint descend_closed (uid : Z) (base : path) (n : nat) (names : list bytes) : Ad nat :=
  match names with
  | [] => pret n
  | name :: rest =>
      i <- os (fstat n) ;;
      if negb (node_is_dir i) || (negb (nd_uid i =? 0) && negb (nd_uid i =? uid)) || negb (closed i)
      then pthrow InvalidResource
      else
      m <- os (open_directory (base ++ [name])) ;;
      descend_closed uid (base ++ [name]) m rest
  end.

Definition safe_file (p : path) (mode : Z) : Ad nat :=
  name <- plift (file_name p) ;;
  up <- plift (parent_of p) ;;
  root <- os (open_directory []) ;;
  let '(uid, gid) := authoritative_user_owner in
  n <- descend_closed uid [] root up ;;
  i <- os (fstat n) ;;
  if negb (node_is_dir i) || negb (nd_uid i =? uid) || negb (closed i) then pthrow InvalidResource
  else
  f <- os (open_file (up ++ [name])) ;;
  i <- os (fstat f) ;;
  if negb (node_is_file i) || negb (nd_nlink i =? 1) || negb (nd_uid i =? uid)
     || negb (nd_gid i =? gid) || negb (Z.land (nd_mode i) 4095 =? mode)
  then pthrow InvalidResource else pret f.

Definition read_public_file (p : path) (max : Z) : Ad bytes :=
  f <- safe_file p (oct 4 0 0) ;;
  b <- os (read_handle f) ;;
  let b := take (Z.to_nat (max + 1)) b in
  if is_empty b || (max <? len b) then pthrow OutputLimit else pret b.

Record Materialized := mkMaterialized { mz_bytes : bytes; mz_redacted : bytes }.

Definition node_len (i : Node) : Z := match nd_kind i with Regular b => len b | _ => 0 end.

(** The first reference to a certificate. *)
Fixpoint tls_reference (directives : list CompleteConfigDirective) : option NodeLocalTlsReference :=
  match directives with
  | [] => None
  | directive :: rest =>
      match ccd_value directive with Some (Tls reference) => Some reference | _ => tls_reference rest end
  end.

Definition manifest_agrees (manifest : TlsManifest) (node_id : bytes) (reference : NodeLocalTlsReference)
  : bool :=
  bool_decide (tm_node_id manifest = uuid_to_string node_id)
  && bool_decide (tm_secret_ref_id manifest = uuid_to_string (tls_secret_ref_id reference))
  && bool_decide (tm_version manifest = tls_version reference)
  && bool_decide (tm_certificate_sha256 manifest = hex_encode (tls_certificate_sha256 reference))
  && bool_decide (tm_spki_sha256 manifest = hex_encode (tls_spki_sha256 reference))
  && bool_decide (tm_ca_sha256 manifest = hex_encode (tls_ca_sha256 reference)).

Definition openssl (args : list String.string) (input : bytes) : Ad Captured :=
  execute_with_input output_bytes (fr_openssl resources) (str <$> args) input.

(** What openssl prints of the basic constraints; the lossy decoding turns no
    invalid byte into one of these texts. *)
Definition says_leaf (stdout : bytes) : bool :=
  existsb (fun line => bool_decide (trim line = str "CA:FALSE")) (lines stdout).
Definition says_authority (stdout : bytes) : bool :=
  existsb (fun line => bool_decide (head (split_on x2c (trim line)) = Some (str "CA:TRUE"))) (lines stdout).

(** The certificate is the one referred to, belongs to the key, and is that of
    a server. *)
Definition check_certificate (reference : NodeLocalTlsReference) (cert_pem cert_path key_path : bytes)
  : Ad unit :=
  der <- openssl ["x509"; "-outform"; "DER"]%string cert_pem ;;
  if negb (bool_decide (sha256 (cap_stdout der) = tls_certificate_sha256 reference))
  then pthrow InvalidResource
  else
  public_pem <- openssl ["x509"; "-pubkey"; "-noout"]%string cert_pem ;;
  public_der <- openssl ["pkey"; "-pubin"; "-outform"; "DER"]%string (cap_stdout public_pem) ;;
  key_public <- run_child (fr_openssl resources)
    [str "pkey"; str "-in"; key_path; str "-pubout"; str "-outform"; str "DER"] ;;
  if negb (bool_decide (cap_stdout public_der = cap_stdout key_public))
     || negb (bool_decide (sha256 (cap_stdout public_der) = tls_spki_sha256 reference))
  then pthrow InvalidResource
  else
  constraints <- openssl ["x509"; "-noout"; "-ext"; "basicConstraints"]%string cert_pem ;;
  if negb (says_leaf (cap_stdout constraints)) then pthrow InvalidResource
  else
  run_child (fr_openssl resources)
    [str "verify"; str "-no-CAfile"; str "-no-CApath"; str "-no-CAstore"; str "-trusted"; cert_path;
     str "-partial_chain"; str "-purpose"; str "sslserver"; cert_path] ;;;
  pret tt.

Definition check_authority (reference : NodeLocalTlsReference) (ca : path) : Ad unit :=
  if is_empty (tls_ca_sha256 reference) then pret tt
  else
  ca_pem <- read_public_file ca (256 * 1024) ;;
  ca_der <- openssl ["x509"; "-outform"; "DER"]%string ca_pem ;;
  if negb (bool_decide (sha256 (cap_stdout ca_der) = tls_ca_sha256 reference)) then pthrow InvalidResource
  else
  constraints <- openssl ["x509"; "-noout"; "-ext"; "basicConstraints"]%string ca_pem ;;
  if negb (says_authority (cap_stdout constraints)) then pthrow InvalidResource
  else
  ca_path <- plift (path_to_str ca) ;;
  run_child (fr_openssl resources)
    [str "verify"; str "-no-CAfile"; str "-no-CApath"; str "-no-CAstore"; str "-trusted"; ca_path;
     str "-partial_chain"; ca_path] ;;;
  pret tt.

(** The file a directive names. *)
Definition tls_path (cert key ca : path) (name : bytes) : Adapt bytes :=
  if bool_decide (name = str "server-cert") then path_to_str cert
  else if bool_decide (name = str "server-key") then path_to_str key
  else if bool_decide (name = str "ca-cert") then path_to_str ca
  else Err InvalidRequest.

Definition shown_reference (reference : NodeLocalTlsReference) : bytes :=
  str "<secret-ref:" ++ uuid_to_string (tls_secret_ref_id reference) ++ [x3a] ++ PROVIDER ++ [x3a]
  ++ tls_version reference ++ str ">".

(** The text written for a candidate and the one shown for it. *)
Definition render_complete (directory : path) (reference : NodeLocalTlsReference)
  (directives : list CompleteConfigDirective) : Adapt Materialized :=
  let? (materialized, redacted) :=
    render_directives (tls_path (directory ++ [str "server-cert.pem"]) (directory ++ [str "server-key.pem"])
                         (directory ++ [str "ca-cert.pem"]))
      (shown_reference reference) directives COMPLETE_HEADER COMPLETE_HEADER in
  Ok (mkMaterialized (materialized ++ FIXED_WORKER_CONFIG) (redacted ++ FIXED_WORKER_CONFIG)).

Definition materialize_complete (candidate : CompleteConfigCandidate) (hash : bytes) : Ad Materialized :=
  transcript <- plift (map_err (fun _ => InvalidRequest) (canonical candidate)) ;;
  if negb (bool_decide (sha256 transcript = hash)) then pthrow InvalidRequest
  else
  lock <- safe_file (fr_config_tls_root resources ++ [str ".lock"]) (oct 6 0 0) ;;
  pmap_err (fun _ => Unavailable) (flock_shared lock) ;;;
  if negb (len (ccc_node_id candidate) =? 16) then pthrow InvalidRequest
  else
  reference <- plift (ok_or (tls_reference (ccc_directives candidate)) InvalidRequest) ;;
  if negb (len (tls_secret_ref_id reference) =? 16) then pthrow InvalidRequest
  else
  let directory := fr_config_tls_root resources
                   ++ [uuid_to_string (tls_secret_ref_id reference); tls_version reference] in
  b <- read_public_file (directory ++ [str "manifest.json"]) (16 * 1024) ;;
  manifest <- plift (ok_or (tls_manifest_from_slice b) InvalidResource) ;;
  if negb (manifest_agrees manifest (ccc_node_id candidate) reference) then pthrow InvalidResource
  else
  let cert := directory ++ [str "server-cert.pem"] in
  let key := directory ++ [str "server-key.pem"] in
  cert_pem <- read_public_file cert (256 * 1024) ;;
  key_file <- safe_file key (oct 4 0 0) ;;
  i <- os (fstat key_file) ;;
  if 64 * 1024 <? node_len i then pthrow InvalidResource
  else
  cert_path <- plift (path_to_str cert) ;;
  key_path <- plift (path_to_str key) ;;
  check_certificate reference cert_pem cert_path key_path ;;;
  check_authority reference (directory ++ [str "ca-cert.pem"]) ;;;
  plift (render_complete directory reference (ccc_directives candidate)).

Definition complete_config_plan (request : CompleteConfigPlan) : Ad ConfigPlanResult :=
  candidate <- plift (ok_or (ccp_candidate request) InvalidRequest) ;;
  materialized <- materialize_complete candidate (ccp_candidate_hash request) ;;
  scoped (
    lock_mutex ConfigPlanLock ;;;
    safe_file (fr_config resources) (oct 6 0 0) ;;;
    lock_config_file (fr_config resources) ;;;
    before <- config_fingerprint ;;
    current <- os (read_file (fr_config resources)) ;;
    plift (validate_reload_bindings current (mz_bytes materialized)) ;;;
    up <- plift (parent_of (fr_config resources)) ;;
    id <- now_uuid ;;
    let staging_path := up ++ [plan_name id] in
    arm staging_path ;;;
    write_new_synced staging_path (mz_bytes materialized)
      (mkFileIdentity (oct 6 0 0) authoritative_user_owner.1 authoritative_user_owner.2) ;;;
    p <- plift (path_to_str staging_path) ;;
    run_child (fr_ocserv resources) [str "-t"; str "-c"; p] ;;;
    remove_staging staging_path ;;;
    after <- config_fingerprint ;;
    if negb (bool_decide (cfp_sha256 before = cfp_sha256 after
                          /\ cfp_size_bytes before = cfp_size_bytes after))
    then pthrow Unavailable
    else
    diff <- plift (redacted_candidate_diff (mz_redacted materialized)) ;;
    still <- path_exists staging_path ;;
    hash <- plift (ok_or (hex_decode (cfp_sha256 before)) MalformedOutput) ;;
    pret (mkConfigPlanResult (ccp_candidate_hash request) diff [] true (negb (still : bool)) hash
            (sha256 (mz_bytes materialized)))).

(** What the request must say beside its candidate. *)
Definition stale_request (request : CompleteConfigApply) (candidate : CompleteConfigCandidate)
  (expiry : Timestamp) (now : Z) (materialized : bytes) : bool :=
  (ts_seconds expiry <? 0) || (ts_seconds expiry <=? now)
  || negb ((0 <=? ts_nanos expiry) && (ts_nanos expiry <? 1000000000))
  || negb (len (cca_plan_id request) =? 16)
  || (cca_desired_revision request <=? ccc_expected_revision candidate)
  || negb (len (cca_expected_current_hash request) =? 32)
  || negb (bool_decide (sha256 materialized = cca_materialized_hash request)).

Definition named_for (candidate_hash : bytes) (r : ConfigApplyResult) : ConfigApplyResult :=
  mkConfigApplyResult candidate_hash (cares_previous_hash r) (cares_observed_hash r)
    (cares_applied_revision r) (cares_healthy r) (cares_rolled_back r) (cares_failed_critical r)
    (cares_failure_code r).

Definition complete_config_apply (request : CompleteConfigApply) (identity : EffectIdentity)
  : Ad ConfigApplyResult :=
  candidate <- plift (ok_or (cca_candidate request) InvalidRequest) ;;
  materialized <- materialize_complete candidate (cca_candidate_hash request) ;;
  expiry <- plift (ok_or (cca_plan_expires_at request) InvalidRequest) ;;
  now <- now_seconds ;;
  if stale_request request candidate expiry now (mz_bytes materialized) then pthrow InvalidRequest
  else
  safe_file (fr_config resources) (oct 6 0 0) ;;;
  result <- apply_validated_config (mz_bytes materialized) (cca_materialized_hash request)
    (cca_expected_current_hash request) (cca_desired_revision request) identity true ;;
  pret (named_for (cca_candidate_hash request) result).

End Adapter.
