(* ===== verification/AdapterLogic.v ===== *)
(** Reasoning about the operations of the adapter that run side by side: the
    files each mutex protects, what the others may do meanwhile, and the rules
    of the system calls on files a mutex protects. *)

From stdpp Require Import functions base list gmap numbers countable strings.
From Stdlib Require Import ZArith Lia Bool Strings.Byte.
From S2P Require Import Prelude Bytes Text Authorization Sql Executor Utf8.
From S2P Require Import EffectRecords EffectStore Concurrency Files UpgradeRecords.
From S2P Require Import PrivdProtocol AdapterText AdapterTextFacts HostFiles Adapter.

Local Open Scope Z_scope.
Local Open Scope prog_scope.

(** * Disks *)

Definition content (d : HostDisk) (n : nat) : option bytes :=
  match hd_nodes d !! n with
  | Some i => match nd_kind i with Regular b => Some b | _ => None end
  | None => None
  end.

(** No two names lead to one inode, and inodes are numbered below the next. *)
Record wf_disk (d : HostDisk) : Prop := {
  wd_inj p q n : hd_names d !! p = Some n -> hd_names d !! q = Some n -> p = q;
  wd_below p n : hd_names d !! p = Some n -> (n < hd_next d)%nat }.

(** A path leads to the same inode in the same state. *)
Definition same_at (d d' : HostDisk) (p : path) : Prop :=
  hd_names d' !! p = hd_names d !! p
  /\ forall n, hd_names d !! p = Some n -> hd_nodes d' !! n = hd_nodes d !! n.

Lemma same_at_refl d p : same_at d d p.
Proof. by split. Qed.

Lemma same_at_content d d' p n :
  same_at d d' p -> hd_names d !! p = Some n -> content d' n = content d n.
Proof. intros [_ S] H. unfold content. by rewrite (S n H). Qed.

(** Only the paths given change. *)
Definition touches (X : list path) (d d' : HostDisk) : Prop :=
  wf_disk d' /\ forall q, q ∉ X -> same_at d d' q.

Lemma touches_same d : wf_disk d -> touches [] d d.
Proof. intros W. split; [done|]. intros q _. apply same_at_refl. Qed.

Lemma touches_put d p n i :
  wf_disk d -> hd_names d !! p = Some n -> touches [p] d (put_node n i d).
Proof.
  intros W H. split; [split; apply W|]. intros q Hq. split; [done|]. intros k Hk. simpl.
  rewrite lookup_insert_ne; [done|]. intros ->. apply Hq, list_elem_of_singleton. by eapply W.
Qed.

Lemma touches_new d p i d' n :
  wf_disk d -> hd_names d !! p = None -> new_node p i d = (n, d') ->
  touches [p] d d' /\ hd_names d' !! p = Some n /\ hd_nodes d' !! n = Some i.
Proof.
  intros W H E. injection E as <- <-. split_and!; simpl; [|apply lookup_insert_eq..].
  split; [split; simpl|].
  - intros a b n. destruct (decide (a = p)) as [->|Ha], (decide (b = p)) as [->|Hb];
      rewrite ?lookup_insert_eq, ?lookup_insert_ne by done; intros E1 E2; simplify_eq.
    + done.
    + apply W in E2. lia.
    + apply W in E1. lia.
    + by eapply W.
  - intros a n. destruct (decide (a = p)) as [->|Ha]; rewrite ?lookup_insert_eq, ?lookup_insert_ne by done.
    + intros [= <-]. lia.
    + intros E%W. lia.
  - intros q Hq. assert (p <> q) as N by (intros ->; by apply Hq, list_elem_of_singleton).
    split; simpl; [by rewrite lookup_insert_ne|]. intros k Hk. rewrite lookup_insert_ne; [done|].
    apply W in Hk. lia.
Qed.

Lemma touches_drop d p : wf_disk d -> touches [p] d (drop_name p d).
Proof.
  intros W. split; [split; simpl|].
  - intros a b n Ha Hb. apply lookup_delete_Some in Ha as [_ Ha], Hb as [_ Hb]. by eapply W.
  - intros a n Ha. apply lookup_delete_Some in Ha as [_ Ha]. by eapply W.
  - intros q Hq. split; simpl; [|done]. rewrite lookup_delete_ne; [done|].
    intros ->. by apply Hq, list_elem_of_singleton.
Qed.

Lemma touches_rename d source target n :
  wf_disk d -> hd_names d !! source = Some n ->
  touches [source; target] d (bind_name target n (drop_name source d)).
Proof.
  intros W H. split; [split; simpl|].
  - intros a b k. destruct (decide (a = target)) as [->|Ha], (decide (b = target)) as [->|Hb];
      rewrite ?lookup_insert_eq, ?lookup_insert_ne by done;
      rewrite ?lookup_delete_Some; intros E1 E2; simplify_eq; [done|..].
    + destruct E2 as [N E2]. by pose proof (wd_inj _ W _ _ _ H E2).
    + destruct E1 as [N E1]. by pose proof (wd_inj _ W _ _ _ H E1).
    + destruct E1, E2. by eapply W.
  - intros a k. destruct (decide (a = target)) as [->|Ha];
      rewrite ?lookup_insert_eq, ?lookup_insert_ne by done; rewrite ?lookup_delete_Some.
    + intros [= <-]. by eapply W.
    + intros [_ E]. by eapply W.
  - intros q Hq. rewrite !not_elem_of_cons in Hq. destruct Hq as (Hs & Ht & _).
    split; simpl; [|done]. by rewrite lookup_insert_ne, lookup_delete_ne.
Qed.

Lemma touches_trans X Y d d' d'' : touches X d d' -> touches Y d' d'' -> touches (X ++ Y) d d''.
Proof.
  intros [_ S] [W S']. split; [done|]. intros q Hq. apply not_elem_of_app in Hq as [Hx Hy].
  destruct (S q Hx) as [E1 E2], (S' q Hy) as [E3 E4]. split; [congruence|].
  intros n Hn. rewrite E4 by congruence. by apply E2.
Qed.

Lemma touches_flocks X d d' f :
  touches X d d' -> touches X d (mkHostDisk (hd_names d') (hd_nodes d') (hd_next d') f).
Proof. intros [[W1 W2] S]. split; [by split|exact S]. Qed.

Lemma touches_remove ps : forall kept d, wf_disk d -> touches ps d (remove_each ps kept d).
Proof.
  induction ps as [|p ps IH]; intros kept d W; simpl; [by apply touches_same|].
  assert (touches [p] d (if default false (head kept) then d
            else match unlink p d with Ok d' => d' | Err _ => d end)) as T.
  { assert (touches [p] d d) as T0 by (split; [done|]; intros; apply same_at_refl).
    destruct (default false (head kept)); [done|]. unfold unlink.
    destruct (node_at d p) as [i|]; [|done]. destruct (node_is_dir i); [done|].
    by apply touches_drop. }
  eapply (touches_trans [p] ps); [exact T|]. apply IH, T.
Qed.

(** * What the mutexes protect *)

Definition config_area (resources : FixedResources) (p : path) : Prop :=
  p = fr_config resources
  \/ exists up name, directory_of (fr_config resources) = Some up /\ p = up ++ [name]
       /\ starts_with (str ".ocservia-") name = true.

Definition user_area (resources : FixedResources) (p : path) : Prop :=
  p = fr_user_file resources
  \/ exists up file name, directory_of (fr_user_file resources) = Some up
       /\ last (fr_user_file resources) = Some file /\ p = up ++ [name]
       /\ starts_with (user_staging_prefix file) name = true.

Definition area (resources : FixedResources) (m : Mutex) (p : path) : Prop :=
  match m with
  | ConfigPlanLock => config_area resources p
  | UserFileLock => user_area resources p
  | CertificateArtifactLock => False
  end.

(** The configuration and the user file have no name in common, the
    configuration is not named like its staging files, and ocpasswd is a
    program of its own. *)
Record separate (resources : FixedResources) : Prop := {
  sep_areas p : config_area resources p -> user_area resources p -> False;
  sep_config name : last (fr_config resources) = Some name ->
    starts_with (str ".ocservia-") name = false;
  sep_program : fr_ocpasswd resources ∉
    [fr_systemctl resources; fr_ocserv resources; fr_occtl resources; fr_openssl resources] }.

(** The path of the second file that ocpasswd keeps until it renames it. *)
Definition scratch_path (p : path) : path :=
  match directory_of p, last p with
  | Some up, Some name => up ++ [name ++ str ".tmp"]
  | _, _ => p
  end.

(** Children leave the files of the adapter alone; ocpasswd changes the file it
    is given and its scratch file. *)
Record tame (resources : FixedResources) {children : Children} : Prop := {
  tame_wf program args input k d : wf_disk d -> wf_disk (child_run program args input k d).2;
  tame_quiet program args input k d m p :
    program <> fr_ocpasswd resources -> area resources m p ->
    same_at d (child_run program args input k d).2 p;
  tame_ocpasswd rest input k d m p q :
    area resources m p -> p <> q -> p <> scratch_path q ->
    same_at d (child_run (fr_ocpasswd resources) (str "-c" :: path_text q :: rest) input k d).2 p }.

Existing Class separate.
Existing Class tame.

(** Assertions by outcome are stable when the cases are. *)
Ltac stable_post := intros ?; apply Stable_post; [intros ?|]; apply _.

Section Sharing.
Context {crypto : Crypto} {text : RecordText} {platform : Platform} {ids : HostIds}.
Context {children : Children} {json : SerdeJson}.
Variable resources : FixedResources.
Hypothesis apart : separate resources.
(** The digests a configuration may have. *)
Variable approved : bytes -> Prop.

Abbreviation area := (area resources).

Definition holds (m : Mutex) (tid : nat) (s : AdapterState) : Prop := hs_mutex s.2 m = Some tid.
Abbreviation disk s := (hs_disk (snd s)).

Lemma area_unique m m' p : area m p -> area m' p -> m = m'.
Proof.
  destruct m, m'; simpl; try done; intros H1 H2; exfalso; by eapply (sep_areas _ apart).
Qed.

(** The configuration is there with an approved digest, the user file can be
    read if it is there, and a staging file belongs to an operation that holds
    the mutex of its area. *)
Definition config_good (d : HostDisk) : Prop :=
  exists n b, hd_names d !! fr_config resources = Some n /\ content d n = Some b
    /\ approved (sha256 b).

Definition user_good (d : HostDisk) : Prop :=
  forall n b, hd_names d !! fr_user_file resources = Some n -> content d n = Some b ->
    is_ok (parse_secret_user_records b) = true.

Record Good (s : AdapterState) : Prop := {
  g_wf : wf_disk (disk s);
  g_config : config_good (disk s);
  g_user : user_good (disk s);
  g_armed t p : p ∈ armed_by t s.2 ->
    (exists m, area m p /\ holds m t s) /\ p <> fr_config resources /\ p <> fr_user_file resources }.

(** What one operation may rely on, and what it guarantees to the others. *)
Record Rely (tid : nat) (s s' : AdapterState) : Prop := {
  r_good : Good s -> Good s';
  r_holds m : holds m tid s -> holds m tid s';
  r_area m p : holds m tid s -> area m p -> same_at (disk s) (disk s') p;
  r_armed : armed_by tid s'.2 = armed_by tid s.2 }.

Record Guar (tid : nat) (s s' : AdapterState) : Prop := {
  u_good : Good s -> Good s';
  u_holds m t : t <> tid -> holds m t s -> holds m t s';
  u_area m t p : Good s -> t <> tid -> holds m t s -> area m p -> same_at (disk s) (disk s') p;
  u_armed t : t <> tid -> armed_by t s'.2 = armed_by t s.2 }.

#[local] Instance Rely_preorder tid : PreOrder (Rely tid).
Proof.
  split.
  - intros s. split; auto using same_at_refl.
  - intros s1 s2 s3 [G1 H1 A1 M1] [G2 H2 A2 M2]. split; [auto|auto| |congruence].
    intros m p Hm Hp. destruct (A1 m p Hm Hp) as [E1 E2], (A2 m p (H1 m Hm) Hp) as [E3 E4].
    split; [congruence|]. intros n Hn. rewrite E4 by congruence. by apply E2.
Qed.

Lemma host_guar_rely tid tid' s s' : tid <> tid' -> Good s -> Guar tid s s' -> Rely tid' s s'.
Proof. intros N Hg [G1 H1 A1 M1]. split; eauto. Qed.

(** ** Own steps *)

Variable tid : nat.
Abbreviation Stable := (Stable (Rely tid)).
Abbreviation triple := (triple (Rely tid) (Guar tid) (fun _ : HostChoice => True) tid).

(** Files under a mutex this operation holds: name, inode and contents. *)
Record own (m : Mutex) (h : gmap path (nat * bytes)) (s : AdapterState) : Prop := {
  own_good : Good s;
  own_holds : holds m tid s;
  own_file p n b : h !! p = Some (n, b) ->
    area m p /\ hd_names (disk s) !! p = Some n /\ content (disk s) n = Some b }.

#[global] Instance Stable_own m h : Stable (own m h).
Proof.
  intros s s' R [G1 H1 F1]. split; [by apply (r_good _ _ _ R)|by apply (r_holds _ _ _ R)|].
  intros p n b Hp. destruct (F1 p n b Hp) as (A & N & C).
  pose proof (r_area _ _ _ R m p H1 A) as S. split; [done|]. split; [by rewrite (proj1 S)|].
  by rewrite (same_at_content _ _ _ _ S N).
Qed.

#[global] Instance Stable_good : Stable Good.
Proof. intros s s' R. apply (r_good _ _ _ R). Qed.

Lemma own_weaken m h h' s : h' ⊆ h -> own m h s -> own m h' s.
Proof. intros Hh [G1 H1 F1]. split; [done|done|]. intros p n b Hp. by eapply F1, lookup_weaken. Qed.

Lemma own_any m h s : own m h s -> own m ∅ s.
Proof. apply own_weaken, map_empty_subseteq. Qed.

(** Only the files given, among those a mutex protects, change. *)
Definition limits (X : list path) (d d' : HostDisk) : Prop :=
  wf_disk d' /\ forall m q, area m q -> q ∉ X -> same_at d d' q.

Lemma touches_limits X d d' : touches X d d' -> limits X d d'.
Proof. intros [W S]. split; [done|]. intros m q _. apply S. Qed.

Lemma config_in : area ConfigPlanLock (fr_config resources).
Proof. by left. Qed.

Lemma user_in : area UserFileLock (fr_user_file resources).
Proof. by left. Qed.

Lemma good_limits X s d' :
  Good s -> limits X (disk s) d' ->
  (fr_config resources ∈ X -> config_good d') -> (fr_user_file resources ∈ X -> user_good d') ->
  Good (set_host_disk d' s).
Proof.
  intros G1 [W S] HC HU. split; simpl; [done| | |intros t p; by apply (g_armed _ G1)].
  - destruct (decide (fr_config resources ∈ X)) as [Hin|Hout]; [by apply HC|].
    destruct (g_config _ G1) as (n & b & N & C & A). exists n, b.
    pose proof (S _ _ config_in Hout) as Sc. split_and!; [by rewrite (proj1 Sc)| |done].
    by rewrite (same_at_content _ _ _ _ Sc N).
  - destruct (decide (fr_user_file resources ∈ X)) as [Hin|Hout]; [by apply HU|].
    intros n b N C. pose proof (S _ _ user_in Hout) as Sc. rewrite (proj1 Sc) in N.
    rewrite (same_at_content _ _ _ _ Sc N) in C. by eapply (g_user _ G1).
Qed.

(** A change of files in the area of a mutex that is held. *)
Lemma own_limits m h h' X s d' :
  own m h s -> limits X (disk s) d' -> (forall q, q ∈ X -> area m q) ->
  (fr_config resources ∈ X -> config_good d') -> (fr_user_file resources ∈ X -> user_good d') ->
  (forall p n b, h' !! p = Some (n, b) ->
     ((p ∉ X) /\ h !! p = Some (n, b)) \/
     (area m p /\ hd_names d' !! p = Some n /\ content d' n = Some b)) ->
  Guar tid s (set_host_disk d' s) /\ own m h' (set_host_disk d' s).
Proof.
  intros [G1 H1 F1] L HX HC HU HF. pose proof (good_limits X s d' G1 L HC HU) as G2.
  destruct L as [W S]. split; split; try done.
  - intros m' t p _ Ht Hh Ha. apply (S m'); [done|]. intros Hp. apply HX in Hp.
    assert (m' = m) as -> by (by eapply area_unique). unfold holds in *. congruence.
  - intros p n b Hp. destruct (HF p n b Hp) as [[Hx Hh]|H]; [|done].
    destruct (F1 p n b Hh) as (A & N & C). pose proof (S _ _ A Hx) as Sp.
    split_and!; [done|simpl; by rewrite (proj1 Sp)|]. simpl. by rewrite (same_at_content _ _ _ _ Sp N).
Qed.

Lemma own_touch m h h' X s d' :
  own m h s -> touches X (disk s) d' -> (forall q, q ∈ X -> area m q) ->
  (fr_config resources ∈ X -> config_good d') -> (fr_user_file resources ∈ X -> user_good d') ->
  (forall p n b, h' !! p = Some (n, b) ->
     ((p ∉ X) /\ h !! p = Some (n, b)) \/
     (area m p /\ hd_names d' !! p = Some n /\ content d' n = Some b)) ->
  Guar tid s (set_host_disk d' s) /\ own m h' (set_host_disk d' s).
Proof. intros O T. by apply own_limits, touches_limits. Qed.

Lemma host_guar_same s : Guar tid s s.
Proof. split; auto using same_at_refl. Qed.

(** * Rules *)

(** A program that needs a witness for its precondition. *)
Lemma triple_some {E A X} (P : X -> AdapterState -> Prop) (m : Hst E A) Q :
  (forall x, triple (P x) m Q) -> triple (fun s => exists x, P x s) m Q.
Proof. intros H s [x Hx]. by apply (H x). Qed.

Lemma triple_know {E A} (p : Prop) P (m : Hst E A) Q :
  (p -> triple P m Q) -> triple (fun s => P s /\ p) m Q.
Proof. intros H s [HP Hp]. by apply H. Qed.

(** Steps that change nothing, with what they tell about the disk. *)
Lemma triple_sys_look {A} P (f : HostDisk -> result HostIo A) (V : A -> Prop) :
  Stable P -> (forall s a, P s -> f (disk s) = Ok a -> V a) ->
  triple P (look f) (post (fun a s => P s /\ V a) P).
Proof.
  intros HS HV. apply triple_act; [done|intros [a|e]; apply _|].
  intros s c r s' HP _ E. destruct (hc_fault c); [injection E as <- <-; split; [apply host_guar_same|done]|].
  destruct (f (disk s)) as [a|e] eqn:Ef; injection E as <- <-.
  - assert (set_host_disk (hs_disk s.2) s = s) as -> by (destruct s as [? [? ? ?]]; done).
    split; [apply host_guar_same|]. split; [done|by eapply HV].
  - split; [apply host_guar_same|done].
Qed.

Lemma triple_looks {A} P (f : HostDisk -> result HostIo A) :
  Stable P -> triple P (look f) (post (fun _ => P) P).
Proof.
  intros HS. eapply triple_conseq; [by apply (triple_sys_look P f (fun _ => True))|done|].
  by intros [a|e] s; simpl; [intros [H _]|].
Qed.

Lemma triple_pure {E A} P (f : Action (S := AdapterState) (C := HostChoice) (result E A)) :
  (forall t c s r s', f t c s = Some (r, s') -> s' = s) -> Stable P ->
  triple P (act f) (post (fun _ => P) P).
Proof.
  intros Hf HS. apply triple_act; [done|intros [a|e]; apply _|].
  intros s c r s' HP _ Ef. apply Hf in Ef as ->. split; [apply host_guar_same|]. by destruct r.
Qed.

Lemma triple_now_uuid {E} P : Stable P -> triple P (now_uuid (E := E)) (post (fun _ => P) P).
Proof. intros HS. apply triple_pure; [|done]. intros t c s r s' H. by injection H as _ <-. Qed.

Lemma triple_open_store P : Stable P -> triple P open_store (post (fun _ => P) P).
Proof.
  intros HS. apply triple_pure; [|done]. intros t c s r s' H. by destruct (hc_open c); injection H as _ <-.
Qed.

Lemma triple_path_exists {E} P p : Stable P -> triple P (path_exists (E := E) p) (post (fun _ => P) P).
Proof.
  intros HS. apply triple_pure; [|done]. intros t c s r s' H. by destruct (hc_fault c); injection H as _ <-.
Qed.

(** ** Files under a mutex *)

Section Owned.
Context (m : Mutex) (h : gmap path (nat * bytes)).

Lemma host_create p mode :
  area m p -> p <> fr_user_file resources ->
  triple (own m h) (create_exclusive p mode)
    (post (fun n => own m (<[p := (n, [])]> h)) (own m h)).
Proof.
  intros A U. apply triple_act; [apply _|stable_post|].
  intros s c r s' O _ E. cbv beta zeta in E. destruct (hc_fault c); [injection E as <- <-; split; [apply host_guar_same|done]|].
  destruct (bool_decide _) eqn:Ep; [injection E as <- <-; split; [apply host_guar_same|done]|].
  apply bool_decide_eq_false in Ep.
  destruct (negb _); [injection E as <- <-; split; [apply host_guar_same|done]|].
  destruct (new_node _ _ _) as [n d'] eqn:En. injection E as <- <-.
  assert (hd_names (disk s) !! p = None) as Np by (apply dec_stable; exact Ep).
  pose proof (touches_new _ _ _ _ _ (g_wf _ (own_good _ _ _ O)) Np En) as (T & N & C).
  eapply own_touch; [done|exact T|by intros q ->%list_elem_of_singleton| | |].
  - intros Hc%list_elem_of_singleton. destruct (g_config _ (own_good _ _ _ O)) as (k & b & Hk & _).
    congruence.
  - by intros Hu%list_elem_of_singleton.
  - intros q k b. destruct (decide (q = p)) as [->|Hq].
    + rewrite lookup_insert_eq. intros [= <- <-]. right. unfold content. by rewrite C.
    + rewrite lookup_insert_ne by done. intros Hh. left. by rewrite list_elem_of_singleton.
Qed.

Lemma triple_change p n b f :
  h !! p = Some (n, b) -> p <> fr_config resources -> p <> fr_user_file resources ->
  (forall i, nd_kind (f i) = nd_kind i) ->
  triple (own m h) (change_node n f) (post (fun _ => own m h) (own m h)).
Proof.
  intros Hp Hc Hu Hf. apply triple_act; [apply _|stable_post|].
  intros s c r s' O _ E. cbv beta zeta in E. destruct (hc_fault c); [injection E as <- <-; split; [apply host_guar_same|done]|].
  destruct (hd_nodes (disk s) !! n) as [i|] eqn:Ei; injection E as <- <-;
    [|split; [apply host_guar_same|done]].
  destruct (own_file _ _ _ O p n b Hp) as (A & N & C).
  eapply own_touch; [done|by apply touches_put; [apply (g_wf _ (own_good _ _ _ O))|]
    |by intros q ->%list_elem_of_singleton| | |].
  - by intros ?%list_elem_of_singleton.
  - by intros ?%list_elem_of_singleton.
  - intros q k b' Hq. destruct (decide (q = p)) as [->|Hqp]; [right|left; by rewrite list_elem_of_singleton].
    simplify_eq. split_and!; [done|done|]. unfold content in *. simpl.
    rewrite lookup_insert_eq, Hf. by rewrite Ei in C.
Qed.

Lemma host_write p n b0 b :
  h !! p = Some (n, b0) -> p <> fr_config resources -> p <> fr_user_file resources ->
  triple (own m h) (write_handle n b)
    (post (fun _ => own m (<[p := (n, b0 ++ b)]> h)) (own m (delete p h))).
Proof.
  intros Hp Hc Hu.
  assert (forall s b1 now, own m h s ->
    Guar tid s (set_host_disk (append_handle n b1 now (disk s)) s) /\
    own m (<[p := (n, b0 ++ b1)]> h) (set_host_disk (append_handle n b1 now (disk s)) s)) as Hs.
  { intros s b1 now O. destruct (own_file _ _ _ O p n b0 Hp) as (A & N & C).
    unfold append_handle. unfold content in C. destruct (hd_nodes (disk s) !! n) as [i|] eqn:Ei; [|done].
    destruct (nd_kind i) eqn:Ek; try done. injection C as ->.
    eapply own_touch; [done|by apply touches_put; [apply (g_wf _ (own_good _ _ _ O))|]
      |by intros q ->%list_elem_of_singleton| | |].
    - by intros ?%list_elem_of_singleton.
    - by intros ?%list_elem_of_singleton.
    - intros q k b' Hq. destruct (decide (q = p)) as [->|Hqp].
      + rewrite lookup_insert_eq in Hq. injection Hq as <- <-. right. split_and!; [done|done|].
        unfold content. simpl. rewrite lookup_insert_eq. unfold appended. by rewrite Ek.
      + rewrite lookup_insert_ne in Hq by done. left. by rewrite list_elem_of_singleton. }
  apply triple_act; [apply _|stable_post|].
  intros s c r s' O _ E. cbv beta zeta in E. destruct (hc_fault c); injection E as <- <-.
  - destruct (Hs s (take (hc_written c) b) (hc_nanos c) O) as [G1 O1]. split; [done|].
    eapply own_weaken; [|exact O1].
    rewrite <- (delete_insert_eq h p (n, b0 ++ take (hc_written c) b)). apply delete_subseteq.
  - apply Hs, O.
Qed.

Lemma host_rename source target n b :
  h !! source = Some (n, b) -> area m target -> source <> fr_config resources ->
  source <> fr_user_file resources -> source <> target ->
  (target = fr_config resources -> approved (sha256 b)) ->
  (target = fr_user_file resources -> is_ok (parse_secret_user_records b) = true) ->
  triple (own m h) (rename_file source target)
    (post (fun _ => own m (<[target := (n, b)]> (delete source h))) (own m h)).
Proof.
  intros Hp At Hc Hu Hst Ac Au. apply triple_act; [apply _|stable_post|].
  intros s c r s' O _ E. cbv beta zeta in E. destruct (hc_fault c); [injection E as <- <-; split; [apply host_guar_same|done]|].
  destruct (own_file _ _ _ O source n b Hp) as (A & N & C). rewrite N in E.
  destruct (negb _); [injection E as <- <-; split; [apply host_guar_same|done]|].
  match type of E with context [if ?g then Err HostOther else _] => destruct g end;
    [injection E as <- <-; split; [apply host_guar_same|done]|]. injection E as <- <-.
  set (d' := bind_name target n (drop_name source (disk s))).
  assert (hd_names d' !! target = Some n) as Nt by apply lookup_insert_eq.
  assert (content d' n = Some b) as Ct by exact C.
  eapply own_touch; [done|by apply touches_rename; [apply (g_wf _ (own_good _ _ _ O))|]| | | |].
  - intros q [Hq|Hq%list_elem_of_singleton]%elem_of_cons; by subst.
  - intros [Et|Et%list_elem_of_singleton]%elem_of_cons; [done|].
    exists n, b. split_and!; [by rewrite Et|done|]. by apply Ac.
  - intros [Et|Et%list_elem_of_singleton]%elem_of_cons; [done|].
    intros n' b' N' C'. rewrite Et, Nt in N'. injection N' as <-. rewrite Ct in C'. injection C' as <-.
    by apply Au.
  - intros q k b' Hq. destruct (decide (q = target)) as [->|Hqt].
    + rewrite lookup_insert_eq in Hq. injection Hq as <- <-. by right.
    + rewrite lookup_insert_ne in Hq by done. apply lookup_delete_Some in Hq as [Hqs Hq].
      left. split; [|done]. rewrite !not_elem_of_cons. split_and!; [congruence|done|apply not_elem_of_nil].
Qed.

Lemma triple_remove p :
  area m p -> p <> fr_config resources -> p <> fr_user_file resources ->
  triple (own m h) (remove_path p) (post (fun _ => own m (delete p h)) (own m h)).
Proof.
  intros A Hc Hu. apply triple_act; [apply _|stable_post|].
  intros s c r s' O _ E. cbv beta zeta in E. destruct (hc_fault c); [injection E as <- <-; split; [apply host_guar_same|done]|].
  unfold unlink in E. destruct (node_at (disk s) p) as [i|];
    [|injection E as <- <-; split; [apply host_guar_same|done]].
  destruct (node_is_dir i); injection E as <- <-; [split; [apply host_guar_same|done]|].
  eapply own_touch; [done|by apply touches_drop, (g_wf _ (own_good _ _ _ O))
    |by intros q ->%list_elem_of_singleton| | |].
  - by intros ?%list_elem_of_singleton.
  - by intros ?%list_elem_of_singleton.
  - intros q k b [Hq Hh]%lookup_delete_Some. left. by rewrite list_elem_of_singleton.
Qed.

End Owned.

(** ** Guards *)

Lemma triple_lock {E} m : triple Good (lock_mutex (E := E) m) (post (fun _ => own m ∅) (own m ∅)).
Proof.
  apply triple_act; [apply _|stable_post|]. intros s c r s' G1 _ Ef. cbv beta in Ef.
  destruct (hs_mutex s.2 m) as [t|] eqn:Em; [done|]. injection Ef as <- <-.
  assert (forall m' t, holds m' t s ->
    holds m' t (s.1, mkHostState (disk s) (<[m := Some tid]> (hs_mutex s.2)) (hs_armed s.2))) as HH.
  { intros m' t Ht. unfold holds in *. simpl. rewrite fn_lookup_insert_ne; [done|]. congruence. }
  assert (Good (s.1, mkHostState (disk s) (<[m := Some tid]> (hs_mutex s.2)) (hs_armed s.2))) as G2.
  { split; [apply G1..|]. intros t p Hp. destruct (g_armed _ G1 t p Hp) as ((m' & A & Ht) & Hn).
    split; [|done]. exists m'. eauto. }
  split; split; auto using same_at_refl.
  - unfold holds. simpl. by rewrite fn_lookup_insert.
  - intros p n b. by rewrite lookup_empty.
Qed.

Lemma armed_set_eq t l s : armed_by t (set_armed t l s).2 = l.
Proof. unfold armed_by. simpl. by rewrite lookup_insert_eq. Qed.

Lemma armed_set_ne t t' l s : t' <> t -> armed_by t' (set_armed t l s).2 = armed_by t' s.2.
Proof. intros N. unfold armed_by. simpl. by rewrite lookup_insert_ne. Qed.

Lemma own_set_armed m h l s :
  own m h s ->
  (forall p, p ∈ l -> p ∈ armed_by tid s.2 \/
     (area m p /\ p <> fr_config resources /\ p <> fr_user_file resources)) ->
  Guar tid s (set_armed tid l s) /\ own m h (set_armed tid l s).
Proof.
  intros [G1 H1 F1] Hl. assert (Good (set_armed tid l s)) as G2.
  { split; [apply G1..|]. intros t p. destruct (decide (t = tid)) as [->|Ht].
    - rewrite armed_set_eq. intros Hp. destruct (Hl p Hp) as [Ho|(A & Hc & Hu)];
        [by apply (g_armed _ G1)|]. split; [|done]. by exists m.
    - rewrite armed_set_ne by done. apply (g_armed _ G1). }
  split; split; auto using same_at_refl. intros t Ht. by apply armed_set_ne.
Qed.

Lemma triple_arm {E} m h p :
  area m p -> p <> fr_config resources -> p <> fr_user_file resources ->
  triple (own m h) (arm (E := E) p) (post (fun _ => own m h) (own m h)).
Proof.
  intros A Hc Hu. apply triple_act; [apply _|stable_post|]. intros s c r s' O _ Ef.
  injection Ef as <- <-. apply own_set_armed; [done|]. intros q [->|Hq]%elem_of_cons; eauto.
Qed.

Lemma triple_disarm {E} m h p : triple (own m h) (disarm (E := E) p) (post (fun _ => own m h) (own m h)).
Proof.
  apply triple_act; [apply _|stable_post|]. intros s c r s' O _ Ef.
  injection Ef as <- <-. apply own_set_armed; [done|]. intros q Hq. left.
  rewrite list_elem_of_In in Hq |- *. by apply filter_In in Hq as [? _].
Qed.

(** The end of an operation, and of the process, gives up what it held. *)
Lemma release_others t held m : held m = Some t -> t <> tid -> release_mutexes tid held m = Some t.
Proof. intros H N. unfold release_mutexes. rewrite bool_decide_false; [done|]. congruence. Qed.

Lemma armed_delete t s l :
  t <> tid -> default [] (delete tid (hs_armed s) !! t) = l <-> armed_by t s = l.
Proof. intros N. unfold armed_by. by rewrite lookup_delete_ne. Qed.

Lemma ended_good s d' :
  Good s -> limits (armed_by tid s.2) (disk s) d' ->
  Good (s.1, mkHostState d' (release_mutexes tid (hs_mutex s.2)) (delete tid (hs_armed s.2)))
  /\ Guar tid s (s.1, mkHostState d' (release_mutexes tid (hs_mutex s.2)) (delete tid (hs_armed s.2))).
Proof.
  intros G1 L.
  assert (Good (s.1, mkHostState d' (release_mutexes tid (hs_mutex s.2)) (delete tid (hs_armed s.2)))) as G2.
  { destruct (good_limits _ s d' G1 L) as [W C U _].
    - intros Hc. by destruct (g_armed _ G1 _ _ Hc) as (_ & ? & _).
    - intros Hu. by destruct (g_armed _ G1 _ _ Hu) as (_ & _ & ?).
    - split; [done|done|done|]. intros t p. unfold armed_by at 1. simpl.
      destruct (decide (t = tid)) as [->|Ht]; [rewrite lookup_delete_eq; by intros ?%not_elem_of_nil|].
      rewrite lookup_delete_ne by done. intros Hp.
      destruct (g_armed _ G1 t p Hp) as ((m & A & H) & Hn). split; [|done]. exists m.
      split; [done|]. by apply release_others. }
  split; [done|]. split; [done| | |].
  - intros m t Ht H. by apply release_others.
  - intros m t p _ Ht H A. apply (proj2 L m); [done|]. intros Hp.
    destruct (g_armed _ G1 _ _ Hp) as ((m' & A' & H') & _).
    assert (m' = m) as -> by (by eapply area_unique). unfold holds in *. congruence.
  - intros t Ht. by apply armed_delete.
Qed.

Lemma dropped_good s kept :
  Good s -> Good (s.1, drop_guards tid kept s.2) /\ Guar tid s (s.1, drop_guards tid kept s.2).
Proof.
  intros G1. apply ended_good; [done|].
  by apply touches_limits, (touches_flocks _ _ (remove_each (armed_by tid s.2) kept (disk s))),
    touches_remove, (g_wf _ G1).
Qed.

Lemma dead_good s : Good s -> Good (s.1, die tid s.2) /\ Guar tid s (s.1, die tid s.2).
Proof.
  intros G1. apply ended_good; [done|]. apply touches_limits.
  apply (touches_flocks _ _ (disk s)). split; [apply (g_wf _ G1)|]. intros. apply same_at_refl.
Qed.

Lemma triple_scoped {E A} P (m : Hst E A) :
  triple P m (fun _ => Good) -> triple P (scoped m) (fun _ => Good).
Proof.
  intros H. eapply triple_then; [exact H|]. intros r s G1 s1 HR c b s2 _ Ef. injection Ef as <- <-.
  apply (r_good _ _ _ HR) in G1. destruct (dropped_good s1 (hc_kept c) G1) as [G2 U]. split; [done|].
  split; [done|]. intros s3 HR3. by apply (r_good _ _ _ HR3).
Qed.

End Sharing.
