(* ===== verification/AdapterProofs.v ===== *)
(** The operations of the adapter, one by one: each keeps what the others rely
    on, and the replacements of the configuration and of the user file publish
    what was checked. *)

From stdpp Require Import functions base list gmap numbers countable strings sorting.
From Stdlib Require Import ZArith Lia Bool Strings.Byte.
From S2P Require Import Prelude Bytes Text Contracts Authorization Sql Executor Utf8.
From S2P Require Import EffectRecords EffectStore Concurrency Files UpgradeRecords.
From S2P Require Import PrivdProtocol AdapterText AdapterTextFacts HostFiles Adapter AdapterLogic.

Local Open Scope Z_scope.
Local Open Scope prog_scope.

Section Steps.
Context {crypto : Crypto} {text : RecordText} {platform : Platform} {ids : HostIds}.
Context {children : Children} {json : SerdeJson}.
Variable resources : FixedResources.
Hypothesis apart : separate resources.
Hypothesis tamed : tame resources.
Variable approved : bytes -> Prop.
Variable output_bytes : Z.
Variable store_key : bytes.
Variable tid : nat.

Abbreviation area := (area resources).
Abbreviation Good := (Good resources approved).
Abbreviation own := (own resources approved tid).
Abbreviation Rely := (Rely resources approved tid).
Abbreviation Guar := (Guar resources approved tid).
Abbreviation Stable := (Stable Rely).
Abbreviation triple := (triple Rely Guar (fun _ : HostChoice => True) tid).
Abbreviation disk s := (hs_disk (snd s)).

(** * Assertions that quiet steps keep *)

(** What only depends on the protected files, the mutexes and the guards. *)
Class Calm (P : AdapterState -> Prop) : Prop := {
  calm_stable :: Stable P;
  calm_good s : P s -> Good s;
  calm_quiet s d' : P s -> limits resources [] (disk s) d' -> P (set_host_disk d' s);
  calm_db s d : P s -> P (d, s.2) }.

Lemma good_db s d : Good s -> Good (d, s.2).
Proof. intros [W C U A]. by split. Qed.

Lemma quiet_guar s d' : Good s -> limits resources [] (disk s) d' -> Guar s (set_host_disk d' s).
Proof.
  intros G1 L. split; [|done| |done].
  - intros _. eapply good_limits; [done|exact L|by intros ?%not_elem_of_nil..].
  - intros m t p _ _ _ A. apply (proj2 L m); [done|apply not_elem_of_nil].
Qed.

#[global] Instance Calm_good : Calm Good.
Proof.
  split; [apply _|done| |apply good_db].
  intros s d' G1 L. eapply good_limits; [done|exact L|by intros ?%not_elem_of_nil..].
Qed.

#[global] Instance Calm_own m h : Calm (own m h).
Proof.
  split; [apply _|apply own_good| |].
  - intros s d' O L. eapply own_limits; [done|exact O|exact L|by intros ? ?%not_elem_of_nil
      |by intros ?%not_elem_of_nil..|]. intros p n b Hp. left. split; [apply not_elem_of_nil|done].
  - intros s d [G1 H1 F1]. split; [by apply good_db|done|done].
Qed.

#[global] Instance Calm_know P (p : Prop) : Calm P -> Calm (fun s => P s /\ p).
Proof.
  intros [S0 G0 Q0 D0]. split; [apply _|naive_solver| |].
  - intros s d' [HP Hp] L. split; [by apply Q0|done].
  - intros s d [HP Hp]. split; [by apply D0|done].
Qed.

#[global] Instance Calm_some {X} (P : X -> AdapterState -> Prop) :
  (forall x, Calm (P x)) -> Calm (fun s => exists x, P x s).
Proof.
  intros H. split; [apply Stable_exist; intros x; apply H| | |].
  - intros s [x HP]. by apply (H x).
  - intros s d' [x HP] L. exists x. by apply (H x).
  - intros s d [x HP]. exists x. by apply (H x).
Qed.

(** * Steps *)

Lemma triple_os {A} P (m : Hst HostIo A) M X :
  triple P m (post M X) -> (forall a, Stable (M a)) -> Stable X -> triple P (os m) (post M X).
Proof. apply triple_recode. Qed.

Lemma triple_child P program args input :
  Calm P -> program <> fr_ocpasswd resources ->
  triple P (execute_with_input output_bytes program args input) (post (fun _ => P) P).
Proof.
  intros CP N. apply triple_act; [apply _|stable_post|]. intros s c r s' HP _ Ef.
  destruct (child_run _ _ _ _ _) as [e d'] eqn:Ec. injection Ef as <- <-.
  pose proof (calm_good s HP) as G1.
  assert (limits resources [] (disk s) d') as L.
  { pose proof (tame_wf _ tamed program args input (hc_child c) _ (g_wf _ _ _ G1)) as W.
    rewrite Ec in W. split; [done|]. intros m q A _.
    pose proof (tame_quiet _ tamed program args input (hc_child c) (disk s) m q N A) as S.
    by rewrite Ec in S. }
  split; [by apply quiet_guar|]. pose proof (calm_quiet s d' HP L) as HP'.
  by destruct (child_outcome output_bytes e).
Qed.

Lemma host_run P program args :
  Calm P -> program <> fr_ocpasswd resources ->
  triple P (run_child output_bytes program args) (post (fun _ => P) P).
Proof. intros CP N. by apply triple_child. Qed.

Lemma triple_effect {A} P (m : option Z -> Eff A) :
  Calm P -> triple P (effect m) (post (fun _ => P) P).
Proof.
  intros CP. apply triple_act; [apply _|stable_post|]. intros s c r s' HP _ Ef.
  destruct (m (hc_clock c) _) as [r0 conn]. injection Ef as <- <-.
  split; [split; [apply good_db|done|intros; apply same_at_refl|done]|].
  pose proof (calm_db s (conn_db conn) HP) as HP'. by destruct r0.
Qed.

(** The lock file of the configuration. *)
Lemma triple_lock_file m h p mode :
  area m p -> p <> fr_config resources -> p <> fr_user_file resources ->
  triple (own m h) (open_or_create p mode) (post (fun _ => own m (delete p h)) (own m h)).
Proof.
  intros A Hc Hu. apply triple_act; [apply _|stable_post|].
  intros s c r s' O _ Ef. cbv beta zeta in Ef.
  assert (own m (delete p h) s) as O'.
  { eapply own_weaken; [|exact O]. apply delete_subseteq. }
  destruct (hc_fault c); [injection Ef as <- <-; split; [apply host_guar_same|done]|].
  destruct (hd_names (disk s) !! p) as [n|] eqn:En.
  { destruct (hd_nodes (disk s) !! n) as [i|]; [destruct (_ || _)|]; injection Ef as <- <-;
      (split; [apply host_guar_same|done]). }
  destruct (negb _); [injection Ef as <- <-; split; [apply host_guar_same|done]|].
  destruct (new_node _ _ _) as [n d'] eqn:Ed. injection Ef as <- <-.
  pose proof (touches_new _ _ _ _ _ (g_wf _ _ _ (own_good _ _ _ _ _ _ O)) En Ed) as (T & N & C).
  eapply own_touch; [done|exact O|exact T|by intros q ->%list_elem_of_singleton| | |].
  - by intros ?%list_elem_of_singleton.
  - by intros ?%list_elem_of_singleton.
  - intros q k b [Hq Hh]%lookup_delete_Some. left. by rewrite list_elem_of_singleton.
Qed.

Lemma triple_flock P n : Calm P -> triple P (flock_handle n) (post (fun _ => P) P).
Proof.
  intros CP. apply triple_act; [apply _|stable_post|]. intros s c r s' HP _ Ef. cbv beta zeta in Ef.
  destruct (hc_fault c); [injection Ef as <- <-; split; [apply host_guar_same|done]|].
  destruct (hd_flocks _ !! n); [done|]. injection Ef as <- <-.
  set (d' := mkHostDisk _ _ _ _).
  assert (limits resources [] (disk s) d') as L.
  { apply touches_limits, (touches_flocks _ _ (disk s)), touches_same.
    apply (g_wf _ _ _ (calm_good s HP)). }
  split; [apply quiet_guar; [by apply calm_good|done]|by apply calm_quiet].
Qed.

(** * Programs that keep an assertion *)

Definition calm {E A} (P : AdapterState -> Prop) (m : Hst E A) : Prop :=
  triple P m (post (fun _ => P) P).

Section Calm.
Context (P : AdapterState -> Prop) `{CP : Calm P}.

Lemma calm_bind {E A B} (m : Hst E A) (k : A -> Hst E B) :
  calm P m -> (forall a, calm P (k a)) -> calm P (pbind m k).
Proof. intros Hm Hk. eapply triple_seq; [exact Hm|exact Hk|apply _|done]. Qed.

Lemma calm_done {E A} (r : result E A) : calm P (Done r).
Proof. apply triple_done; [apply _|]. by destruct r. Qed.

Lemma calm_recode {E F A} (f : E -> F) (m : Hst E A) : calm P m -> calm P (pmap_err f m).
Proof. intros Hm. apply triple_recode; [exact Hm|apply _|apply _]. Qed.

Lemma calm_os {A} (m : Hst HostIo A) : calm P m -> calm P (os m).
Proof. apply calm_recode. Qed.

Lemma calm_catch {E F A} (m : Hst E A) : calm P m -> calm P (pcatch (F := F) m).
Proof.
  intros Hm. eapply triple_catch; [exact Hm|intros r; apply Stable_post; apply _|]. by intros [a|e] s.
Qed.

Lemma calm_look {A} (f : HostDisk -> result HostIo A) : calm P (look f).
Proof. apply triple_looks. apply _. Qed.

Lemma calm_child program args input :
  program ∈ [fr_systemctl resources; fr_ocserv resources; fr_occtl resources; fr_openssl resources] ->
  calm P (execute_with_input output_bytes program args input).
Proof.
  intros H. apply triple_child; [done|]. intros ->. by apply (sep_program _ apart) in H.
Qed.

Lemma calm_run program args :
  program ∈ [fr_systemctl resources; fr_ocserv resources; fr_occtl resources; fr_openssl resources] ->
  calm P (run_child output_bytes program args).
Proof. apply calm_child. Qed.

Lemma calm_read p : calm P (read_file p).
Proof. apply calm_bind; [apply calm_look|intros n; apply calm_look]. Qed.

Lemma calm_now_uuid {E} : calm P (now_uuid (E := E)).
Proof. apply triple_now_uuid. apply _. Qed.

Lemma calm_now_seconds : calm P now_seconds.
Proof. apply triple_pure; [|apply _]. intros t c s r s' H. by injection H as _ <-. Qed.

Lemma calm_open_store : calm P open_store.
Proof. apply triple_open_store. apply _. Qed.

Lemma calm_path_exists {E} p : calm P (path_exists (E := E) p).
Proof. apply triple_path_exists. apply _. Qed.

Lemma calm_effect {A} (m : option Z -> Eff A) : calm P (effect m).
Proof. by apply triple_effect. Qed.

Lemma calm_flock n : calm P (flock_handle n).
Proof. by apply triple_flock. Qed.

Lemma calm_each step names : (forall name, calm P (step name)) -> calm P (each_entry step names).
Proof.
  intros Hs. induction names as [|name names IH]; [apply calm_os, calm_look|].
  apply calm_bind; [apply calm_os, calm_look|]. intros _. apply calm_bind; [apply Hs|]. intros _. exact IH.
Qed.

End Calm.

End Steps.

Ltac fixed_program := rewrite !elem_of_cons; auto 10.

(** Follows the structure of a program that keeps its assertion. *)
Ltac keep :=
  repeat first
    [ progress intros
    | match goal with
      | |- calm _ _ _ _ (pbind _ _) => apply calm_bind
      | |- calm _ _ _ _ (Done _) => apply calm_done
      | |- calm _ _ _ _ (pret _) => apply calm_done
      | |- calm _ _ _ _ (pthrow _) => apply calm_done
      | |- calm _ _ _ _ (plift _) => apply calm_done
      | |- calm _ _ _ _ (os _) => apply calm_os
      | |- calm _ _ _ _ (pmap_err _ _) => apply calm_recode
      | |- calm _ _ _ _ (pcatch _) => apply calm_catch
      | |- calm _ _ _ _ (look _) => apply calm_look
      | |- calm _ _ _ _ (read_file _) => apply calm_read
      | |- calm _ _ _ _ (open_file _) => apply calm_look
      | |- calm _ _ _ _ (open_directory _) => apply calm_look
      | |- calm _ _ _ _ (fstat _) => apply calm_look
      | |- calm _ _ _ _ (stat _) => apply calm_look
      | |- calm _ _ _ _ (read_handle _) => apply calm_look
      | |- calm _ _ _ _ (list_directory _) => apply calm_look
      | |- calm _ _ _ _ next_entry => apply calm_look
      | |- calm _ _ _ _ (sync_handle _) => apply calm_look
      | |- calm _ _ _ _ (flush_directory _) => apply calm_look
      | |- calm _ _ _ _ (sync_parent _) => apply calm_os
      | |- calm _ _ _ _ (run_child _ _ _) => apply calm_run; [apply _..|fixed_program]
      | |- calm _ _ _ _ (execute_with_input _ _ _ _) => apply calm_child; [apply _..|fixed_program]
      | |- calm _ _ _ _ now_uuid => apply calm_now_uuid
      | |- calm _ _ _ _ open_store => apply calm_open_store
      | |- calm _ _ _ _ (path_exists _) => apply calm_path_exists
      | |- calm _ _ _ _ (effect _) => apply calm_effect
      | |- calm _ _ _ _ (flock_handle _) => apply calm_flock
      | |- calm _ _ _ _ (flock_shared _) => apply calm_look
      | |- calm _ _ _ _ now_seconds => apply calm_now_seconds
      | |- calm _ _ _ _ (each_entry _ _) => apply calm_each
      | |- calm _ _ _ _ (check_resource _ _ _ _) => unfold check_resource
      | |- calm _ _ _ _ (match ?x with _ => _ end) => destruct x
      | |- calm _ _ _ _ (if ?x then _ else _) => destruct x
      | |- calm _ _ _ _ (let '(_, _) := ?x in _) => destruct x
      end
    | apply _
    | assumption ].

Section Proofs.
Context {crypto : Crypto} {text : RecordText} {platform : Platform} {ids : HostIds}.
Context {children : Children} {json : SerdeJson}.
Variable resources : FixedResources.
Hypothesis apart : separate resources.
Hypothesis tamed : tame resources.
Variable approved : bytes -> Prop.
Variable output_bytes : Z.
Variable store_key : bytes.
Variable tid : nat.

Abbreviation area := (area resources).
Abbreviation Good := (Good resources approved).
Abbreviation own := (own resources approved tid).
Abbreviation Rely := (Rely resources approved tid).
Abbreviation Guar := (Guar resources approved tid).
Abbreviation Stable := (Stable Rely).
Abbreviation triple := (triple Rely Guar (fun _ : HostChoice => True) tid).
Abbreviation disk s := (hs_disk (snd s)).
Abbreviation Calm := (Calm resources approved tid).
Abbreviation calm := (calm resources approved tid).

Section Reports.
Context (P : AdapterState -> Prop) `{CP : Calm P}.

Lemma calm_service_status : calm P (service_status resources output_bytes).
Proof. unfold service_status. keep. Qed.
Lemma calm_ocserv_version : calm P (ocserv_version resources output_bytes).
Proof. unfold ocserv_version. keep. Qed.
Lemma calm_session_list : calm P (session_list resources output_bytes).
Proof. unfold session_list. keep. Qed.
Lemma calm_ip_ban_list : calm P (ip_ban_list resources output_bytes).
Proof. unfold ip_ban_list. keep. Qed.
Lemma calm_fingerprint : calm P (config_fingerprint resources).
Proof. unfold config_fingerprint. keep. Qed.
Lemma calm_reload : calm P (service_reload resources output_bytes).
Proof. unfold service_reload. keep. Qed.
Lemma calm_health : calm P (config_health resources output_bytes).
Proof.
  unfold config_health. keep; [apply calm_reload|apply calm_service_status|apply calm_session_list].
Qed.
Lemma calm_user_directory n uid : calm P (validate_user_directory n uid).
Proof. unfold validate_user_directory. keep. Qed.
Lemma calm_descend uid names : forall base, calm P (descend uid base names).
Proof.
  induction names as [|name names IH]; intros base; simpl; keep; [apply calm_user_directory|apply IH].
Qed.
Lemma calm_open_user_directory p : calm P (open_user_directory p).
Proof. unfold open_user_directory. keep; first [apply calm_user_directory|apply calm_descend]. Qed.
Lemma calm_validate_user_file n uid gid : calm P (validate_authoritative_user_file n uid gid).
Proof. unfold validate_authoritative_user_file. keep. Qed.
Lemma calm_read_user_file p optional : calm P (read_user_file p optional).
Proof.
  unfold read_user_file. keep; first [apply calm_open_user_directory|apply calm_validate_user_file].
Qed.
Lemma calm_boot_id expected : calm P (ensure_boot_id resources expected).
Proof. unfold ensure_boot_id. keep. Qed.
Lemma calm_descend_closed uid names : forall base n, calm P (descend_closed uid base n names).
Proof. induction names as [|name names IH]; intros base n; simpl; keep; apply IH. Qed.
Lemma calm_safe_file p mode : calm P (safe_file p mode).
Proof. unfold safe_file. keep; apply calm_descend_closed. Qed.
Lemma calm_read_public p max : calm P (read_public_file p max).
Proof. unfold read_public_file. keep. apply calm_safe_file. Qed.
Lemma calm_certificate reference cert_pem cert_path key_path :
  calm P (check_certificate resources output_bytes reference cert_pem cert_path key_path).
Proof. unfold check_certificate, openssl. keep. Qed.
Lemma calm_authority reference ca : calm P (check_authority resources output_bytes reference ca).
Proof. unfold check_authority, openssl. keep. apply calm_read_public. Qed.
Lemma calm_materialize candidate hash : calm P (materialize_complete resources output_bytes candidate hash).
Proof.
  unfold materialize_complete.
  keep; first [apply calm_safe_file|apply calm_read_public|apply calm_certificate|apply calm_authority].
Qed.
End Reports.

(** * Names *)

Lemma starts_with_long q r x : starts_with (q ++ r) x = true -> starts_with q x = true.
Proof.
  unfold starts_with. rewrite !bool_decide_eq_true. intros H.
  destruct (strip_prefix (q ++ r) x) as [rest|] eqn:E; [|done]. apply strip_prefix_Some in E as ->.
  rewrite <- app_assoc, strip_prefix_app. done.
Qed.

Lemma starts_with_refl q r : starts_with q (q ++ r) = true.
Proof. unfold starts_with. rewrite strip_prefix_app. by apply bool_decide_eq_true. Qed.

Lemma last_app_one {A} (l : list A) x : last (l ++ [x]) = Some x.
Proof. apply last_snoc. Qed.

Lemma directory_of_app (up : path) name : directory_of (up ++ [name]) = Some up.
Proof. unfold directory_of. rewrite rev_app_distr. simpl. by rewrite rev_involutive. Qed.

Lemma directory_of_Some p up : directory_of p = Some up -> exists name, p = up ++ [name].
Proof.
  unfold directory_of. destruct (rev p) as [|name rest] eqn:E; [done|]. intros [= <-].
  exists name. apply (f_equal (@rev bytes)) in E. by rewrite rev_involutive in E.
Qed.

(** Names next to the configuration that only the adapter uses. *)
Lemma config_name up name :
  directory_of (fr_config resources) = Some up -> starts_with (str ".ocservia-") name = true ->
  area ConfigPlanLock (up ++ [name]) /\ up ++ [name] <> fr_config resources
  /\ up ++ [name] <> fr_user_file resources.
Proof.
  intros Hu Hn. assert (area ConfigPlanLock (up ++ [name])) as A by (right; eauto 10).
  split_and!; [done| |].
  - intros E. pose proof (sep_config _ apart name) as N. rewrite <- E, last_app_one in N.
    by rewrite N in Hn.
  - intros E. apply (sep_areas _ apart (up ++ [name])); [done|]. rewrite E. by left.
Qed.

(** Names next to the user file that only the adapter and its child use. *)
Lemma user_name up file name :
  directory_of (fr_user_file resources) = Some up -> last (fr_user_file resources) = Some file ->
  starts_with (user_staging_prefix file) name = true ->
  area UserFileLock (up ++ [name]) /\ up ++ [name] <> fr_config resources
  /\ up ++ [name] <> fr_user_file resources.
Proof.
  intros Hu Hf Hn. assert (area UserFileLock (up ++ [name])) as A by (right; eauto 10).
  split_and!; [done| |].
  - intros E. apply (sep_areas _ apart (up ++ [name])); [|done]. rewrite E. by left.
  - intros E. rewrite <- E, last_app_one in Hf. injection Hf as ->.
    unfold starts_with in Hn. apply bool_decide_eq_true in Hn.
    destruct (strip_prefix _ file) as [rest|] eqn:Er; [|done]. apply strip_prefix_Some in Er.
    apply (f_equal length) in Er. unfold user_staging_prefix in Er. rewrite !length_app in Er.
    simpl in Er. lia.
Qed.

(** * Reading protected files *)

Section Reading.
Context (m : Mutex) (h : gmap path (nat * bytes)).

Lemma triple_open_known p n b :
  h !! p = Some (n, b) -> triple (own m h) (open_file p) (post (fun k s => own m h s /\ k = n) (own m h)).
Proof.
  intros Hp. apply triple_sys_look; [apply _|]. intros s k O Ef.
  destruct (own_file _ _ _ _ _ _ O p n b Hp) as (_ & N & _). rewrite N in Ef.
  destruct (hd_nodes _ !! n) as [i|]; [|done]. destruct (node_is_symlink i); [done|]. by injection Ef.
Qed.

Lemma triple_handle_known p n b :
  h !! p = Some (n, b) ->
  triple (own m h) (read_handle n) (post (fun x s => own m h s /\ x = b) (own m h)).
Proof.
  intros Hp. apply triple_sys_look; [apply _|]. intros s x O Ef.
  destruct (own_file _ _ _ _ _ _ O p n b Hp) as (_ & _ & C). unfold content in C.
  destruct (hd_nodes _ !! n) as [[k ? ? ? ? ?]|]; [|done]. simpl in C. destruct k; try done. congruence.
Qed.

Lemma triple_read_known p n b :
  h !! p = Some (n, b) ->
  triple (own m h) (read_file p) (post (fun x s => own m h s /\ x = b) (own m h)).
Proof.
  intros Hp. eapply triple_seq; [by eapply triple_open_known| |apply _|done].
  intros k. apply triple_know. intros ->. by eapply triple_handle_known.
Qed.

(** A path in the area leads to an inode. *)
#[local] Instance Stable_leads p n :
  area m p -> Stable (fun s => own m h s /\ hd_names (disk s) !! p = Some n).
Proof.
  intros A s s' R [O N]. split; [by apply (Stable_own _ _ _ _ _ s)|].
  by rewrite (proj1 (r_area _ _ _ _ _ R m p (own_holds _ _ _ _ _ _ O) A)).
Qed.

Lemma own_learn p n b s :
  area m p -> own m h s -> hd_names (disk s) !! p = Some n -> content (disk s) n = Some b ->
  own m (<[p := (n, b)]> h) s.
Proof.
  intros A [G1 H1 F1] N C. split; [done|done|]. intros q k b'. destruct (decide (q = p)) as [->|Hq].
  - rewrite lookup_insert_eq. intros [= <- <-]. done.
  - rewrite lookup_insert_ne by done. apply F1.
Qed.

Lemma own_extends p n b s :
  own m h s -> hd_names (disk s) !! p = Some n -> content (disk s) n = Some b ->
  h ⊆ <[p := (n, b)]> h.
Proof.
  intros O N C. apply map_subseteq_spec. intros q [k b'] Hq. destruct (decide (q = p)) as [->|Hqp].
  - destruct (own_file _ _ _ _ _ _ O p k b' Hq) as (_ & N' & C'). rewrite lookup_insert_eq. congruence.
  - by rewrite lookup_insert_ne.
Qed.

Lemma triple_open_learn p :
  area m p ->
  triple (own m h) (open_file p)
    (post (fun n s => own m h s /\ hd_names (disk s) !! p = Some n) (own m h)).
Proof.
  intros A. apply triple_act; [apply _| |].
  { intros r. apply Stable_post; [intros n; by apply Stable_leads|apply _]. }
  intros s c r s' O _ Ef. destruct (hc_fault c); [injection Ef as <- <-; split; [apply host_guar_same|done]|].
  destruct (hd_names (disk s) !! p) as [n|] eqn:En; [|injection Ef as <- <-; split; [apply host_guar_same|done]].
  destruct (hd_nodes (disk s) !! n) as [i|]; [|injection Ef as <- <-; split; [apply host_guar_same|done]].
  assert (set_host_disk (hs_disk s.2) s = s) as Es by (destruct s as [? [? ? ?]]; done).
  destruct (node_is_symlink i); injection Ef as <- <-; rewrite ?Es; (split; [apply host_guar_same|done]).
Qed.

Lemma triple_handle_learn p n :
  area m p ->
  triple (fun s => own m h s /\ hd_names (disk s) !! p = Some n) (read_handle n)
    (post (fun b s => own m (<[p := (n, b)]> h) s /\ h ⊆ <[p := (n, b)]> h) (own m h)).
Proof.
  intros A. apply triple_act; [by apply Stable_leads|stable_post|].
  intros s c r s' [O N] _ Ef. destruct (hc_fault c); [injection Ef as <- <-; split; [apply host_guar_same|done]|].
  assert (set_host_disk (hs_disk s.2) s = s) as Es by (destruct s as [? [? ? ?]]; done).
  destruct (hd_nodes (disk s) !! n) as [[k ? ? ? ? ?]|] eqn:Ei;
    [destruct k as [|b| |]|]; injection Ef as <- <-; try (split; [apply host_guar_same|done]).
  assert (content (disk s) n = Some b) as C by (unfold content; by rewrite Ei).
  rewrite Es. split; [apply host_guar_same|]. split; [by apply own_learn|by eapply own_extends].
Qed.

Lemma triple_read_learn p :
  area m p ->
  triple (own m h) (read_file p)
    (post (fun b s => exists n, own m (<[p := (n, b)]> h) s /\ h ⊆ <[p := (n, b)]> h) (own m h)).
Proof.
  intros A. eapply triple_seq; [by apply triple_open_learn| |apply _|done].
  intros n. eapply triple_conseq; [by apply triple_handle_learn|done|].
  intros [b|e] s; simpl; [|done]. intros O. by exists n.
Qed.

(** The metadata of a regular file. *)
Lemma triple_stat_learn p n :
  area m p ->
  triple (fun s => own m h s /\ hd_names (disk s) !! p = Some n) (fstat n)
    (post (fun i s => if node_is_file i then exists b, own m (<[p := (n, b)]> h) s else own m h s) (own m h)).
Proof.
  intros A. apply triple_act; [by apply Stable_leads| |].
  { intros r. apply Stable_post; [intros i; destruct (node_is_file i)|];
      first [apply Stable_own|apply Stable_exist; intros b; apply Stable_own]. }
  intros s c r s' [O N] _ Ef. destruct (hc_fault c); [injection Ef as <- <-; split; [apply host_guar_same|done]|].
  assert (set_host_disk (hs_disk s.2) s = s) as Es by (destruct s as [? [? ? ?]]; done).
  destruct (hd_nodes (disk s) !! n) as [i|] eqn:Ei; injection Ef as <- <-;
    [|split; [apply host_guar_same|done]].
  rewrite Es. split; [apply host_guar_same|]. simpl. unfold node_is_file. destruct (nd_kind i) as [|b| |] eqn:Ek;
    try done. exists b. apply own_learn; [done|done|done|]. unfold content. by rewrite Ei, Ek.
Qed.

End Reading.

(** The configuration is always there. *)
Lemma own_config h s :
  own ConfigPlanLock h s -> h !! fr_config resources = None ->
  exists n b, own ConfigPlanLock (<[fr_config resources := (n, b)]> h) s /\ approved (sha256 b).
Proof.
  intros O Hh. destruct (g_config _ _ _ (own_good _ _ _ _ _ _ O)) as (n & b & N & C & A).
  exists n, b. split; [|done]. apply own_learn; [by left|done|done|done].
Qed.

End Proofs.
