(* ===== verification/ConfigApplyProofs.v ===== *)
(** Planning and applying a configuration: the file is replaced in one step by
    a complete text with an approved digest, and the outcome reported is the
    one found on disk. *)

From stdpp Require Import functions base list gmap numbers countable strings sorting.
From Stdlib Require Import ZArith Lia Bool Strings.Byte.
From S2P Require Import Prelude Bytes Text Contracts Authorization Sql Executor Utf8.
From S2P Require Import EffectRecords EffectStore Concurrency Files UpgradeRecords.
From S2P Require Import PrivdProtocol AdapterText AdapterTextFacts HostFiles Adapter AdapterLogic.
From S2P Require Import AdapterProofs.

Local Open Scope Z_scope.
Local Open Scope prog_scope.

(** What a result says of the contents of the configuration. *)
Definition reported {crypto : Crypto} (named candidate_hash expected_hash : bytes) (revision : Z)
  (r : ConfigApplyResult) (b : bytes) : Prop :=
  cares_candidate_hash r = named /\ cares_previous_hash r = expected_hash
  /\ (cares_failed_critical r = false ->
      cares_healthy r = true /\ cares_observed_hash r = sha256 b
      /\ if cares_rolled_back r
         then cares_observed_hash r = expected_hash /\ cares_applied_revision r = 0
         else cares_observed_hash r = candidate_hash /\ cares_applied_revision r = revision).

Section ConfigApply.
Context {crypto : Crypto} {text : RecordText} {platform : Platform} {ids : HostIds}.
Context {children : Children} {json : SerdeJson}.
Variable resources : FixedResources.
Hypothesis apart : separate resources.
Hypothesis tamed : tame resources.
Variable approved : bytes -> Prop.
Variable output_bytes : Z.
Variable store_key : bytes.
Variable tid : nat.

Abbreviation area := (area resources).
Abbreviation Good := (Good resources approved).
Abbreviation own := (own resources approved tid).
Abbreviation Rely := (Rely resources approved tid).
Abbreviation Guar := (Guar resources approved tid).
Abbreviation Stable := (Stable Rely).
Abbreviation triple := (triple Rely Guar (fun _ : HostChoice => True) tid).
Abbreviation calm := (calm resources approved tid).
Abbreviation config := (fr_config resources).
Abbreviation locked := (own ConfigPlanLock).

(** * Pieces *)

Lemma triple_fingerprint h n b :
  h !! config = Some (n, b) ->
  triple (locked h) (config_fingerprint resources)
    (post (fun f s => locked h s /\ cfp_sha256 f = hex_encode (sha256 b)) (locked h)).
Proof.
  intros Hc. eapply triple_seq; [apply triple_os; [by eapply triple_open_known|apply _|apply _]| |apply _|done].
  intros k. apply triple_know. intros ->.
  eapply triple_seq; [apply triple_os; [by eapply triple_handle_known|apply _|apply _]| |apply _|done].
  intros x. apply triple_know. intros ->. cbv zeta.
  destruct (MAX_CONFIG_BYTES <? _) eqn:L; [apply triple_throw; [apply _|done]|].
  apply triple_ret; [apply _|]. intros s O. split; [done|]. simpl. f_equal. f_equal.
  apply take_ge. apply Z.ltb_ge in L. unfold len in L. rewrite length_take in L.
  unfold MAX_CONFIG_BYTES in *. lia.
Qed.

(** A system call whose failure only leaves the mutex known. *)
Lemma triple_os_any {A} P m h (x : Hst HostIo A) M :
  triple P x (post M (own m h)) -> (forall a, Stable (M a)) -> triple P (os x) (post M (own m ∅)).
Proof.
  intros Hx HM. eapply triple_conseq; [apply triple_os; [exact Hx|exact HM|apply _]|done|].
  intros [a|e] s; simpl; [done|apply own_any].
Qed.

(** A program that keeps what is known, followed by what only knows the mutex
    when it fails. *)
Lemma triple_kept {E A} m h (x : Hst E A) (M : A -> AdapterState -> Prop) :
  calm (own m h) x -> (forall a s, own m h s -> M a s) -> triple (own m h) x (post M (own m ∅)).
Proof.
  intros Hx HM. eapply triple_conseq; [exact Hx|done|].
  intros [a|e] s; simpl; [apply HM|apply own_any].
Qed.

Lemma seq_kept {E A B} m h (x : Hst E A) (k : A -> Hst E B) Q :
  calm (own m h) x -> (forall a, triple (own m h) (k a) Q) ->
  (forall e s, own m ∅ s -> Q (Err e) s) -> triple (own m h) (pbind x k) Q.
Proof.
  intros Hx Hk HQ. eapply (triple_seq _ _ _ _ _ _ (fun _ => own m h) (own m ∅));
    [by apply triple_kept|exact Hk|apply _|exact HQ].
Qed.

Lemma triple_write_new m h p b owner :
  area m p -> p <> config -> p <> fr_user_file resources ->
  triple (own m h) (write_new_synced p b owner)
    (post (fun _ s => exists n, own m (<[p := (n, b)]> h) s) (own m ∅)).
Proof.
  intros A Hc Hu. unfold write_new_synced.
  eapply triple_seq; [eapply triple_os_any; [by apply host_create|apply _]| |apply _|done].
  intros n. assert (<[p := (n, [] : bytes)]> h !! p = Some (n, [])) as Hp by apply lookup_insert_eq.
  eapply triple_seq;
    [eapply triple_os_any; [eapply triple_change; [done|exact Hp|done..]|apply _]| |apply _|done].
  intros []. eapply triple_seq;
    [eapply triple_os_any; [eapply triple_change; [done|exact Hp|done..]|apply _]| |apply _|done].
  intros []. eapply triple_seq;
    [eapply triple_os_any; [eapply host_write; [done|exact Hp|done..]|apply _]| |apply _|done].
  intros []. rewrite insert_insert_eq. simpl app.
  apply triple_kept; [apply calm_os; [apply _|apply calm_look; apply _]|]. intros [] s O. by exists n.
Qed.

Lemma config_replace m h source target n b :
  h !! source = Some (n, b) -> area m target -> source <> config ->
  source <> fr_user_file resources -> source <> target ->
  (target = config -> approved (sha256 b)) ->
  (target = fr_user_file resources -> is_ok (parse_secret_user_records b) = true) ->
  triple (own m h) (atomic_replace source target)
    (post (fun _ => own m (<[target := (n, b)]> (delete source h))) (own m ∅)).
Proof.
  intros Hs A Hc Hu Hst Ac Au. unfold atomic_replace.
  apply seq_kept; [keep| |done]. intros k. apply seq_kept; [keep| |done]. intros [].
  eapply triple_seq; [eapply triple_os_any; [by eapply host_rename|apply _]| |apply _|done].
  intros []. apply seq_kept; [keep| |done]. intros up. apply triple_kept; [keep|done].
Qed.

(** The names of the copies and staging files next to the configuration. *)
Lemma near_config up name :
  directory_of config = Some up -> starts_with (str ".ocservia-") name = true ->
  area ConfigPlanLock (up ++ [name]) /\ up ++ [name] <> config
  /\ up ++ [name] <> fr_user_file resources.
Proof. by apply config_name. Qed.

(** A pure step, with the reason why it succeeded. *)
Lemma seq_lift {E A B} P (r : result E A) (k : A -> Hst E B) Q :
  Stable P -> (forall a, r = Ok a -> triple P (k a) Q) -> (forall e s, P s -> Q (Err e) s) ->
  triple P (pbind (plift r) k) Q.
Proof.
  intros HS Hk HE. unfold pbind, plift. simpl. destruct r as [a|e]; [by apply Hk|].
  apply triple_done; [done|]. apply HE.
Qed.

Lemma calm_lift {E A B} P (r : result E A) (k : A -> Hst E B) :
  Stable P -> (forall a, r = Ok a -> calm P (k a)) -> calm P (pbind (plift r) k).
Proof. intros HS Hk. by apply seq_lift. Qed.

Lemma parent_of_Ok p up : parent_of p = Ok up -> directory_of p = Some up.
Proof. unfold parent_of. destruct (directory_of p); [|done]. by intros [= ->]. Qed.

Lemma lock_config_calm : calm (locked ∅) (lock_config_file config).
Proof.
  unfold lock_config_file. apply calm_lift; [apply _|]. intros up Hup%parent_of_Ok. cbv zeta.
  destruct (near_config up (str ".ocservia-config.lock") Hup eq_refl) as (A & Hc & Hu).
  apply calm_bind; [apply _|unfold reject_symlink; keep|]. intros _.
  apply calm_bind; [apply _| |intros n; keep].
  apply calm_os; [apply _|]. eapply triple_conseq; [by apply (triple_lock_file resources apart approved tid ConfigPlanLock ∅)|done|].
  intros [n|e] s; simpl; [by rewrite delete_empty|done].
Qed.

(** Removing retained copies. *)
Lemma remove_paths_calm m h ps :
  Forall (fun p => area m p /\ p <> config /\ p <> fr_user_file resources /\ h !! p = None) ps ->
  calm (own m h) (remove_paths ps).
Proof.
  induction 1 as [|p ps (A & Hc & Hu & Hh) F IH]; simpl; [keep|].
  apply calm_bind; [apply _| |intros _; exact IH]. apply calm_os; [apply _|].
  eapply triple_conseq; [by apply triple_remove|done|]. intros [u|e] s; simpl; [|done].
  by rewrite delete_id.
Qed.

Lemma prune_calm h :
  (forall up name, directory_of config = Some up -> starts_with SUCCESS name = true ->
     h !! (up ++ [name]) = None) ->
  calm (locked h) (prune_config_backups resources).
Proof.
  intros Hh. unfold prune_config_backups. apply calm_lift; [apply _|]. intros up Hup%parent_of_Ok.
  apply calm_bind; [apply _|keep|]. intros names. apply calm_bind; [apply _|keep|]. intros _. cbv zeta.
  apply calm_bind; [apply _| |intros _; keep]. apply remove_paths_calm, Forall_fmap, Forall_forall.
  intros name Hn%elem_of_take. destruct Hn as (i & Hn%list_elem_of_lookup_2 & _).
  rewrite merge_sort_Permutation, list_elem_of_In in Hn. apply filter_In in Hn as [_ Hn].
  destruct (near_config up name Hup) as (A & Hc & Hu);
    [by apply (starts_with_long (str ".ocservia-") (str "success-"))|].
  split_and!; [done|done|done|by apply Hh].
Qed.

(** * Finding a copy *)

(** Copies known to have the expected digest. *)
Definition copies_known (h : gmap path (nat * bytes)) (up : path) (expected : bytes)
  (names : list bytes) : Prop :=
  forall name, name ∈ names -> is_recovery_name name = true /\
    exists n b, h !! (up ++ [name]) = Some (n, b) /\ sha256 b = expected.

Lemma copies_known_mono h h' up expected names :
  h ⊆ h' -> copies_known h up expected names -> copies_known h' up expected names.
Proof.
  intros Hs K name Hn. destruct (K name Hn) as (Hr & n & b & Hp & E). split; [done|].
  exists n, b. split; [by eapply lookup_weaken|done].
Qed.

Lemma recovery_name_near name : is_recovery_name name = true -> starts_with (str ".ocservia-") name = true.
Proof.
  unfold is_recovery_name. intros [H|H]%orb_true_iff.
  - by apply (starts_with_long (str ".ocservia-") (str "backup-")).
  - by apply (starts_with_long (str ".ocservia-") (str "success-")).
Qed.

Lemma triple_copies up expected names : directory_of config = Some up -> forall h,
  triple (locked h) (matching_copies up expected names)
    (post (fun l s => exists h', locked h' s /\ (h ⊆ h' /\ copies_known h' up expected l)) (locked ∅)).
Proof.
  intros Hup. induction names as [|name names IH]; intros h; simpl.
  { apply seq_kept; [keep| |done]. intros _. apply triple_ret; [apply _|]. intros s O.
    exists h. split_and!; [done|done|]. by intros name ?%not_elem_of_nil. }
  apply seq_kept; [keep| |done]. intros _.
  destruct (is_recovery_name name) eqn:Hr; simpl; [|apply IH].
  destruct (near_config up name Hup (recovery_name_near _ Hr)) as (A & _ & _).
  eapply (triple_seq _ _ _ _ _ _
    (fun b s => exists n, locked (<[up ++ [name] := (n, b)]> h) s
                          /\ h ⊆ <[up ++ [name] := (n, b)]> h) (locked ∅));
    [eapply triple_os_any; [by apply triple_read_learn|] | |apply _|done].
  { intros b. apply Stable_exist. intros n. apply Stable_and; apply _. }
  intros b. apply triple_some. intros n. apply triple_know. intros Hext.
  eapply triple_seq; [apply IH| |apply _|done].
  intros others. apply triple_some. intros h'. apply triple_know. intros [Hs K].
  apply triple_ret; [apply _|]. intros s O. exists h'. split; [done|].
  split; [by etransitivity|]. destruct (_ && _) eqn:G; [|done].
  apply andb_true_iff in G as [_ G%bool_decide_eq_true].
  intros name' [->|Hn]%elem_of_cons; [|by apply K]. split; [done|]. exists n, b. split; [|done].
  eapply lookup_weaken; [|exact Hs]. apply lookup_insert_eq.
Qed.

Lemma greatest_in names name : greatest names = Some name -> name ∈ names.
Proof.
  unfold greatest. intros H%last_Some_elem_of. by rewrite merge_sort_Permutation in H.
Qed.

Lemma triple_recovery h expected :
  triple (locked h) (find_config_recovery resources expected)
    (post (fun o s => match o with
       | None => locked h s
       | Some p => exists n b, locked (<[p := (n, b)]> h) s /\ (sha256 b = expected /\ p <> config
           /\ p <> fr_user_file resources /\ exists up name, directory_of config = Some up /\ p = up ++ [name])
       end) (locked ∅)).
Proof.
  unfold find_config_recovery. apply seq_lift; [apply _| |intros e s; apply own_any].
  intros up Hup%parent_of_Ok. apply seq_kept; [keep| |done]. intros names.
  eapply triple_seq; [by apply triple_copies| |apply _|done].
  intros l. apply triple_some. intros h'. apply triple_know. intros [Hs K].
  apply triple_ret; [apply _|]. intros s O.
  assert (forall name, name ∈ l -> exists n b, locked (<[up ++ [name] := (n, b)]> h) s /\
    (sha256 b = expected /\ up ++ [name] <> config /\ up ++ [name] <> fr_user_file resources
     /\ exists up' name', directory_of config = Some up' /\ up ++ [name] = up' ++ [name'])) as Hl.
  { intros name Hn. destruct (K name Hn) as (Hr & n & b & Hp & E).
    destruct (near_config up name Hup (recovery_name_near _ Hr)) as (_ & Hc & Hu).
    exists n, b. split_and!; [|done|done|done|by exists up, name].
    eapply own_weaken; [|exact O]. by apply insert_subseteq_l. }
  destruct (greatest (List.filter (starts_with BACKUP) l)) as [name|] eqn:Eb.
  - apply greatest_in in Eb. rewrite list_elem_of_In in Eb. apply filter_In in Eb as [Eb _].
    by apply Hl, list_elem_of_In.
  - destruct (greatest (List.filter (starts_with SUCCESS) l)) as [name|] eqn:Es; simpl.
    + apply greatest_in in Es. rewrite list_elem_of_In in Es. apply filter_In in Es as [Es _].
      by apply Hl, list_elem_of_In.
    + by eapply own_weaken.
Qed.

(** * Outcomes *)

Abbreviation holding n b := (<[config := (n, b)]> (∅ : gmap path (nat * bytes))).

Lemma triple_pre {E A} (P P' : AdapterState -> Prop) (m : Hst E A) Q :
  (forall s, P s -> P' s) -> triple P' m Q -> triple P m Q.
Proof. intros HP H. by eapply triple_conseq. Qed.

Lemma holding_success n b up name :
  directory_of config = Some up -> starts_with SUCCESS name = true ->
  holding n b !! (up ++ [name]) = None.
Proof.
  intros Hup Hn. destruct (near_config up name Hup) as (_ & Hc & _);
    [by apply (starts_with_long (str ".ocservia-") (str "success-"))|].
  by rewrite lookup_insert_ne.
Qed.

Lemma holding_in n b p x : p <> config -> holding n b ⊆ <[p := x]> (holding n b).
Proof. intros Hp. apply insert_subseteq. by rewrite lookup_insert_ne. Qed.

(** Two kinds of copy have different names. *)
Lemma backup_not_success name : starts_with BACKUP name = true -> starts_with SUCCESS name = true -> False.
Proof.
  unfold starts_with. rewrite !bool_decide_eq_true. intros H1 H2.
  destruct (strip_prefix BACKUP name) eqn:E1; [|done]. destruct (strip_prefix SUCCESS name) eqn:E2; [|done].
  apply strip_prefix_Some in E1, E2. rewrite E1 in E2. discriminate E2.
Qed.

(** Retaining a backup under the name of a success. *)
Lemma triple_retain h up name id n b k c :
  directory_of config = Some up -> starts_with BACKUP name = true ->
  h !! (up ++ [name]) = Some (k, c) -> holding n b ⊆ h ->
  triple (locked h) (os (rename_file (up ++ [name]) (up ++ [SUCCESS ++ uuid_to_string id])))
    (post (fun _ => locked (holding n b)) (locked ∅)).
Proof.
  intros Hup Hn Hp Hh.
  destruct (near_config up name Hup) as (A & Hc & Hu);
    [by apply (starts_with_long (str ".ocservia-") (str "backup-"))|].
  destruct (near_config up (SUCCESS ++ uuid_to_string id) Hup) as (A' & Hc' & Hu');
    [apply (starts_with_long (str ".ocservia-") (str "success-")), starts_with_refl|].
  assert (up ++ [name] <> up ++ [SUCCESS ++ uuid_to_string id]) as Hd.
  { intros [_ [= ->]]%app_inj_2; [|done]. exact (backup_not_success _ Hn (starts_with_refl _ _)). }
  eapply triple_conseq; [eapply triple_os_any; [by eapply host_rename|apply _]|done|].
  intros [u|e] s; simpl; [|done]. apply own_weaken.
  apply insert_subseteq_l; [|apply map_empty_subseteq].
  rewrite (lookup_insert_ne _ _ _ _ Hc'), (lookup_delete_ne _ _ _ Hc).
  eapply lookup_weaken; [|exact Hh]. apply lookup_insert_eq.
Qed.

Lemma config_not_user : config <> fr_user_file resources.
Proof. intros E. apply (sep_areas _ apart config); [by left|]. rewrite E. by left. Qed.

Section Outcome.
Context (candidate_hash expected_hash : bytes) (revision : Z) (identity : EffectIdentity).
Hypothesis approved_candidate : approved candidate_hash.
Hypothesis approved_expected : approved expected_hash.
(** The texts that may be in place when nothing went wrong. *)
Variable intended : bytes -> Prop.

(** The configuration found when an apply returns is the one it reports, and an
    intended one unless the apply reports that it went back or failed. *)
Definition found (r : ConfigApplyResult) (s : AdapterState) : Prop :=
  exists n b, locked (holding n b) s
    /\ (reported candidate_hash candidate_hash expected_hash revision r b
        /\ (cares_failed_critical r = false -> cares_rolled_back r = false -> intended b)).

#[local] Instance Stable_found r : Stable (found r).
Proof. apply Stable_exist. intros n. apply Stable_exist. intros b. apply Stable_and; apply _. Qed.

Lemma found_critical h r s :
  locked h s -> cares_candidate_hash r = candidate_hash -> cares_previous_hash r = expected_hash ->
  cares_failed_critical r = true -> found r s.
Proof.
  intros O E1 E2 E3. apply own_any in O.
  destruct (own_config resources approved tid ∅ s O (lookup_empty _)) as (n & b & O' & _).
  exists n, b. split; [done|]. unfold reported. rewrite E3. split_and!; [done|done|discriminate|discriminate].
Qed.

Abbreviation apply_post := (post (E := AdapterError) found (locked ∅)).

Lemma triple_recover n b :
  sha256 b = candidate_hash -> intended b ->
  triple (locked (holding n b))
    (recover_config resources output_bytes store_key candidate_hash expected_hash revision identity)
    apply_post.
Proof.
  intros Hb Hi. unfold recover_config. apply seq_lift; [apply _| |intros e s; apply own_any].
  intros up Hup%parent_of_Ok.
  eapply triple_seq; [apply triple_recovery| |apply _|done].
  intros [p|].
  2:{ apply seq_kept; [apply calm_catch; [apply _|apply calm_health; apply _]| |done]. intros healthy.
      destruct (is_ok healthy); [apply triple_throw; [apply _|intros s; apply own_any]|].
      apply triple_ret; [apply _|]. intros s O. by eapply found_critical. }
  apply triple_some. intros np. apply triple_some. intros bp. apply triple_know.
  intros (Hbp & Hpc & Hpu & up' & name & Hup' & ->).
  apply seq_kept; [apply calm_catch; [apply _|apply calm_health; apply _]| |done]. intros healthy.
  destruct (is_ok healthy).
  - eapply (triple_seq _ _ _ _ _ _ (fun _ => locked (holding n b)) (locked ∅)); [| |apply _|done].
    { rewrite last_snoc. destruct (starts_with BACKUP name) eqn:Hn.
      - apply seq_kept; [keep| |done]. intros id. assert (up' = up) as -> by congruence.
        eapply triple_seq; [eapply (triple_retain _ _ _ _ n b); [done|done|apply lookup_insert_eq|]| |apply _|done].
        { by apply holding_in. }
        intros []. apply seq_kept; [keep| |done]. intros []. apply triple_kept; [|done].
        apply prune_calm. apply holding_success.
      - apply triple_ret; [apply _|]. intros s. apply own_weaken. by apply holding_in. }
    intros []. apply seq_kept; [unfold mark_config_applied; keep| |done]. intros [].
    apply triple_ret; [apply _|]. intros s O. exists n, b. split; [done|].
    unfold reported. simpl. by rewrite Hb.
  - cbv zeta. eapply (triple_seq _ _ _ _ _ _ (post (fun _ => locked (holding np bp)) (locked ∅)) (locked ∅));
      [apply triple_caught; [|apply _|apply _]| |apply _|done].
    { eapply triple_conseq; [eapply config_replace; [apply lookup_insert_eq|exact (config_in resources)|done|done|done| |]|done|].
      - by rewrite Hbp.
      - intros E. by destruct config_not_user.
      - intros [u|e] s; simpl; [|done]. apply own_weaken, insert_mono, map_empty_subseteq. }
    intros [u|e]; simpl negb; cbv iota;
      [apply (triple_pre _ (locked (holding np bp))); [done|]
      |apply (triple_pre _ (locked ∅)); [done|];
       apply triple_ret; [apply _|]; intros s O; by eapply found_critical].
    apply seq_kept; [apply calm_catch; [apply _|apply calm_health; apply _]| |done]. intros healthy'.
    destruct (is_ok healthy'); simpl;
      [|apply triple_ret; [apply _|]; intros s O; by eapply found_critical].
    eapply (triple_seq _ _ _ _ _ _ (fun f s => locked (holding np bp) s
              /\ cfp_sha256 f = hex_encode (sha256 bp)) (locked (holding np bp)));
      [eapply triple_fingerprint, lookup_insert_eq| |apply _|intros e s; apply own_any].
    intros f. apply triple_know. intros Hf.
    destruct (negb _); [apply triple_ret; [apply _|]; intros s O; by eapply found_critical|].
    apply seq_kept; [unfold mark_config_absent; keep| |done]. intros [].
    apply triple_ret; [apply _|]. intros s O. exists np, bp. split; [done|].
    unfold reported. simpl. by rewrite Hbp.
Qed.

Lemma triple_roll_back h backup_path before n b :
  h !! backup_path = Some (n, b) -> area ConfigPlanLock backup_path -> backup_path <> config ->
  backup_path <> fr_user_file resources -> approved (sha256 b) ->
  triple (locked h) (roll_back resources output_bytes backup_path before)
    (post (fun f s => locked (holding n b) s /\ cfp_sha256 f = hex_encode (sha256 b)) (locked ∅)).
Proof.
  intros Hp A Hc Hu Ab. unfold roll_back.
  eapply (triple_seq _ _ _ _ _ _ (fun _ => locked (holding n b)) (locked ∅)); [| |apply _|done].
  { eapply triple_conseq; [eapply config_replace; [exact Hp|exact (config_in resources)|done|done|done|done|]|done|].
    - intros E. by destruct config_not_user.
    - intros [u|e] s; simpl; [|done]. apply own_weaken, insert_mono, map_empty_subseteq. }
  intros []. apply seq_kept; [apply triple_disarm| |done]. intros [].
  apply seq_kept; [apply calm_health; apply _| |done]. intros [].
  eapply (triple_seq _ _ _ _ _ _ (fun f s => locked (holding n b) s
            /\ cfp_sha256 f = hex_encode (sha256 b)) (locked (holding n b)));
    [eapply triple_fingerprint, lookup_insert_eq| |apply _|intros e s; apply own_any].
  intros f. destruct (negb _); [apply triple_throw|apply triple_ret]; try apply _; [|done].
  intros s [O _]. by eapply own_any.
Qed.

Lemma hex_digest f b (x : bytes) :
  cfp_sha256 f = hex_encode (sha256 b) ->
  ok_or (hex_decode (cfp_sha256 f)) MalformedOutput = Ok x -> x = sha256 b.
Proof. intros ->. rewrite hex_decode_encode. simpl. congruence. Qed.

(** After the candidate is in place: it is kept and the copy retained, or the
    copy is put back. *)
Lemma config_conclude candidate before n b k up id :
  directory_of config = Some up -> sha256 candidate = candidate_hash -> intended candidate ->
  sha256 b = expected_hash ->
  triple (locked (<[config := (n, candidate)]> (<[up ++ [BACKUP ++ uuid_to_string id] := (k, b)]> ∅)))
    (conclude_config resources output_bytes store_key candidate_hash before expected_hash revision
       identity up id)
    apply_post.
Proof.
  intros Hup Hcand Hi Hb. unfold conclude_config.
  set (backup_path := up ++ [BACKUP ++ uuid_to_string id]).
  destruct (near_config up (BACKUP ++ uuid_to_string id) Hup) as (A & Hc & Hu);
    [apply (starts_with_long (str ".ocservia-") (str "backup-")), starts_with_refl|].
  fold backup_path in A, Hc, Hu.
  set (h := <[config := (n, candidate)]> (<[backup_path := (k, b)]> ∅)).
  assert (h !! backup_path = Some (k, b)) as Hp.
  { unfold h. rewrite lookup_insert_ne by congruence. apply lookup_insert_eq. }
  apply seq_kept; [apply calm_catch; [apply _|apply calm_health; apply _]| |done]. intros healthy.
  destruct (is_ok healthy).
  - eapply (triple_seq _ _ _ _ _ _ (fun _ => locked (holding n candidate)) (locked ∅)); [| |apply _|done].
    { eapply triple_retain; [exact Hup|apply starts_with_refl|exact Hp|].
      apply insert_mono, map_empty_subseteq. }
    intros []. apply seq_kept; [apply triple_disarm| |done]. intros [].
    apply seq_kept; [keep| |done]. intros [].
    apply seq_kept; [apply prune_calm, holding_success| |done]. intros [].
    eapply (triple_seq _ _ _ _ _ _ (fun f s => locked (holding n candidate) s
              /\ cfp_sha256 f = hex_encode (sha256 candidate)) (locked (holding n candidate)));
      [eapply triple_fingerprint, lookup_insert_eq| |apply _|intros e s; apply own_any].
    intros f. apply triple_know. intros Hf.
    apply seq_kept; [unfold mark_config_applied; keep| |done]. intros [].
    apply seq_lift; [apply _| |intros e s; apply own_any]. intros x ->%(hex_digest _ _ _ Hf).
    apply triple_ret; [apply _|]. intros s O. exists n, candidate. split; [done|].
    unfold reported. simpl. by rewrite Hcand.
  - eapply (triple_seq _ _ _ _ _ _ (post (fun f s => locked (holding k b) s
        /\ cfp_sha256 f = hex_encode (sha256 b)) (locked ∅)) (locked ∅));
      [apply triple_caught; [apply (triple_roll_back h); [done..|by rewrite Hb]|apply _|apply _]| |apply _|done].
    intros [f|e].
    + apply triple_know. intros Hf.
      apply seq_kept; [unfold mark_config_absent; keep| |done]. intros [].
      apply seq_lift; [apply _| |intros e s; apply own_any]. intros x ->%(hex_digest _ _ _ Hf).
      apply triple_ret; [apply _|]. intros s O. exists k, b. split; [done|].
      unfold reported. simpl. by rewrite Hb.
    + apply (triple_pre _ (locked ∅)); [done|]. apply triple_ret; [apply _|].
      intros s O. by eapply found_critical.
Qed.

(** The copy is complete before the candidate takes the place of the
    configuration. *)
Lemma triple_publish candidate before n b complete :
  sha256 candidate = candidate_hash -> intended candidate -> sha256 b = expected_hash ->
  triple (locked (holding n b))
    (publish_config resources output_bytes store_key candidate candidate_hash before expected_hash
       revision identity complete)
    apply_post.
Proof.
  intros Hcand Hi Hb. unfold publish_config. apply seq_lift; [apply _| |intros e s; apply own_any].
  intros up Hup%parent_of_Ok. apply seq_kept; [keep| |done]. intros id. cbv zeta.
  set (stage_path := up ++ [APPLY ++ uuid_to_string id]).
  set (backup_path := up ++ [BACKUP ++ uuid_to_string id]).
  destruct (near_config up (BACKUP ++ uuid_to_string id) Hup) as (Ab & Hbc & Hbu);
    [apply (starts_with_long (str ".ocservia-") (str "backup-")), starts_with_refl|].
  destruct (near_config up (APPLY ++ uuid_to_string id) Hup) as (As & Hsc & Hsu);
    [apply (starts_with_long (str ".ocservia-") (str "apply-")), starts_with_refl|].
  fold stage_path in As, Hsc, Hsu. fold backup_path in Ab, Hbc, Hbu.
  assert (stage_path <> backup_path) as Hsb.
  { intros E. apply app_inj_2 in E as [_ E]; [|done]. injection E as E. discriminate E. }
  apply seq_kept; [by apply triple_arm| |done]. intros [].
  apply seq_kept; [by apply triple_arm| |done]. intros [].
  apply seq_kept; [unfold file_identity; keep| |done]. intros owner.
  eapply (triple_seq _ _ _ _ _ _ (fun x s => locked (holding n b) s /\ x = b) (locked ∅));
    [eapply triple_os_any; [eapply triple_read_known, lookup_insert_eq|apply _]| |apply _|done].
  intros x. apply triple_know. intros ->.
  eapply triple_seq; [by apply triple_write_new| |apply _|done].
  intros []. apply triple_some. intros nb.
  eapply triple_seq; [by apply triple_write_new| |apply _|done].
  intros []. apply triple_some. intros ns.
  apply seq_kept; [keep| |done]. intros [].
  apply seq_kept; [keep| |done]. intros [].
  apply seq_kept; [apply triple_disarm| |done]. intros [].
  eapply triple_seq; [eapply config_replace; [apply lookup_insert_eq|exact (config_in resources)|done|done|done| |]| |apply _|done].
  { by rewrite Hcand. }
  { intros E. by destruct config_not_user. }
  intros []. apply seq_kept; [apply triple_disarm| |done]. intros [].
  eapply triple_pre; [|by apply (config_conclude candidate before ns b nb up id)].
  intros s. apply own_weaken. apply insert_mono, insert_subseteq_l; [|apply map_empty_subseteq].
  rewrite lookup_delete_ne by done. rewrite lookup_insert_ne by done. apply lookup_insert_eq.
Qed.

End Outcome.

(** * The operation *)

Section Operation.
Context (candidate candidate_hash expected_hash : bytes) (revision : Z) (identity : EffectIdentity).
(** Whoever may have the configuration that is to be replaced, or the candidate,
    may have both. *)
Definition approves : Prop := forall x, approved x -> x = expected_hash \/ x = candidate_hash ->
  approved candidate_hash /\ approved expected_hash.
Hypothesis approval : approves.
Hypothesis digest : sha256 candidate = candidate_hash.

(** What the apply has found before it changes anything: the expected text or
    the candidate, with the candidate's startup bindings if it is complete. *)
Record accepted (complete : bool) (b : bytes) : Prop := {
  ac_digest : sha256 b = expected_hash \/ sha256 b = candidate_hash;
  ac_bindings : complete = true -> validate_reload_bindings b candidate = Ok tt }.

(** What may be in place when the apply reports success: the candidate, or the
    text before if its digest is the candidate's. *)
Definition in_place (b x : bytes) : Prop := x = candidate \/ (x = b /\ sha256 b = candidate_hash).

(** What follows the two locks, on a known configuration. *)
Lemma triple_apply_known complete n b :
  approved (sha256 b) ->
  triple (locked (holding n b))
    (apply_known resources output_bytes store_key candidate candidate_hash expected_hash revision
       identity complete)
    (post (E := AdapterError) (fun r s => found candidate_hash expected_hash revision (in_place b) r s
       /\ accepted complete b) (locked ∅)).
Proof.
  intros Ab. unfold apply_known.
  eapply (triple_seq _ _ _ _ _ _ (fun f s => locked (holding n b) s
            /\ cfp_sha256 f = hex_encode (sha256 b)) (locked (holding n b)));
    [eapply triple_fingerprint, lookup_insert_eq| |apply _|intros e s; apply own_any].
  intros before. apply triple_know. intros Hbefore.
  eapply (triple_seq _ _ _ _ _ _ (fun x s => locked (holding n b) s /\ x = b) (locked ∅));
    [eapply triple_os_any; [eapply triple_read_known, lookup_insert_eq|apply _]| |apply _|done].
  intros x. apply triple_know. intros ->.
  apply seq_lift; [apply _| |intros e s; apply own_any]. intros x ->%(hex_digest _ _ _ Hbefore).
  destruct (_ && _) eqn:Hg; [apply triple_throw; [apply _|intros s; apply own_any]|].
  assert (sha256 b = expected_hash \/ sha256 b = candidate_hash) as El.
  { apply andb_false_iff in Hg as [Hg|Hg]; apply negb_false_iff, bool_decide_eq_true in Hg; auto. }
  apply seq_lift; [apply _| |intros e s; apply own_any]. intros [] Hv.
  assert (accepted complete b) as Acc by (split; [done|by intros ->]).
  eapply (triple_conseq _ _ _ _ _ _ _ _ (post (found candidate_hash expected_hash revision (in_place b)) (locked ∅)));
    [|done|intros [a|e] s; simpl; auto].
  apply seq_kept; [keep| |done]. intros [].
  apply seq_kept; [keep| |done]. intros [|].
  2:{ destruct (bool_decide (sha256 b = candidate_hash)) eqn:Hc; simpl;
        [|apply triple_throw; [apply _|intros s; apply own_any]].
      apply bool_decide_eq_true in Hc. apply triple_ret; [apply _|].
      intros s O. exists n, b. split; [done|]. unfold reported. simpl. rewrite Hc. split; [done|].
      intros _ _. by right. }
  destruct (bool_decide (sha256 b = candidate_hash)) eqn:Hc; simpl in Hg.
  - apply bool_decide_eq_true in Hc. destruct (approval _ Ab (or_intror Hc)) as [Ac Ae].
    apply triple_recover; try done. by right.
  - rewrite andb_true_r in Hg. apply negb_false_iff, bool_decide_eq_true in Hg.
    destruct (approval _ Ab (or_introl Hg)) as [Ac Ae]. rewrite Hg. apply triple_publish; try done. by left.
Qed.

Lemma triple_apply_body complete :
  triple Good
    (apply_under_locks resources output_bytes store_key candidate
       candidate_hash expected_hash revision identity complete)
    (post (E := AdapterError) (fun r s => exists b, found candidate_hash expected_hash revision (in_place b) r s
       /\ (approved (sha256 b) /\ accepted complete b)) Good).
Proof.
  unfold apply_under_locks. assert (forall m h s, own m h s -> Good s) as OG by (intros m h s; apply own_good).
  eapply triple_seq; [apply triple_lock; exact apart| |apply _|intros e s; apply OG].
  intros []. eapply triple_seq; [apply lock_config_calm| |apply _|intros e s; apply OG]. intros [].
  apply (triple_pre _ (fun s => exists n b, locked (holding n b) s /\ approved (sha256 b))).
  { intros s O. by apply own_config. }
  apply triple_some. intros n. apply triple_some. intros b. apply triple_know. intros Ab.
  eapply triple_conseq; [by apply triple_apply_known|done|].
  intros [a|e] s; simpl; [|apply OG]. intros [F A]. by exists b.
Qed.

Lemma apply_good complete :
  triple Good
    (apply_validated_config resources output_bytes store_key candidate
       candidate_hash expected_hash revision identity complete)
    (fun _ => Good).
Proof.
  unfold apply_validated_config. apply triple_scoped; [exact apart|].
  eapply triple_conseq; [apply triple_apply_body|done|]. intros [r|e] s; simpl; [|done].
  intros (b0 & (n & b & O & _) & _). by eapply own_good.
Qed.

End Operation.

Lemma config_apply_good candidate candidate_hash expected_hash revision identity :
  approves candidate_hash expected_hash ->
  triple Good
    (config_apply resources output_bytes store_key candidate candidate_hash
       expected_hash revision identity)
    (fun _ => Good).
Proof.
  intros Ap. unfold config_apply. destruct (_ || _) eqn:G0; [by apply triple_done; [apply _|]|].
  apply orb_false_iff in G0 as [_ Hd%negb_false_iff%bool_decide_eq_true].
  destruct (negb _); [by apply triple_done; [apply _|]|].
  apply seq_lift; [apply _| |done]. intros _ _.
  destruct (names_secret _); [by apply triple_done; [apply _|]|]. by apply apply_good.
Qed.

(** An operation under a mutex that keeps what is known of it. *)
Lemma locked_good {E A} m (x : Hst E A) :
  calm (own m ∅) x -> triple Good (scoped (lock_mutex m ;;; x)) (fun _ => Good).
Proof.
  intros Hx. apply triple_scoped; [exact apart|].
  eapply triple_seq; [apply triple_lock; exact apart| |apply _|intros e s; apply own_good].
  intros []. eapply triple_conseq; [exact Hx|done|]. intros [a|e] s; apply own_good.
Qed.

Lemma calm_forget {E A} m h (x : Hst E A) :
  calm (own m ∅) x -> triple (own m h) x (post (fun _ => own m ∅) (own m ∅)).
Proof. intros Hx. eapply triple_pre; [|exact Hx]. intros s. apply own_any. Qed.

(** The staging file of a plan is removed. *)
Lemma remove_plan_calm up id :
  directory_of config = Some up -> calm (locked ∅) (remove_staging (up ++ [plan_name id])).
Proof.
  intros Hup. destruct (near_config up (plan_name id) Hup) as (A & Hc & Hu);
    [apply (starts_with_long (str ".ocservia-") (str "plan-")), starts_with_refl|].
  unfold remove_staging. apply calm_bind; [apply _| |].
  { apply calm_catch; [apply _|]. eapply triple_conseq; [by apply triple_remove|done|].
    intros [u|e] s; simpl; [|done]. by rewrite delete_empty. }
  intros [u|[| | |]]; keep; apply triple_disarm.
Qed.

Lemma config_plan_good candidate candidate_hash :
  triple Good (config_plan resources output_bytes candidate candidate_hash) (fun _ => Good).
Proof.
  unfold config_plan. destruct (_ || _); [by apply triple_done; [apply _|]|].
  destruct (negb _); [by apply triple_done; [apply _|]|].
  apply seq_lift; [apply _| |done]. intros _ _. apply locked_good.
  assert (forall h s, locked h s -> locked ∅ s) as OA.
  { intros h s. apply own_any. }
  apply calm_bind; [apply _|apply lock_config_calm|]. intros [].
  apply calm_bind; [apply _|apply calm_fingerprint; apply _|]. intros before.
  apply calm_lift; [apply _|]. intros up Hup%parent_of_Ok.
  apply calm_bind; [apply _|keep|]. intros id. cbv zeta.
  destruct (near_config up (plan_name id) Hup) as (A & Hc & Hu);
    [apply (starts_with_long (str ".ocservia-") (str "plan-")), starts_with_refl|].
  set (staging_path := up ++ [plan_name id]) in *.
  apply calm_bind; [apply _|by apply triple_arm|]. intros [].
  eapply triple_seq; [eapply triple_os_any; [by apply host_create|apply _]| |apply _|done].
  intros n. apply seq_lift; [apply _| |intros e s; apply OA]. intros [parsed unresolved] _.
  eapply triple_seq; [eapply triple_os_any; [eapply host_write;
    [exact apart|apply lookup_insert_eq|done|done]|apply _]| |apply _|done].
  intros []. apply calm_forget.
  keep; first [by apply remove_plan_calm|apply calm_fingerprint; apply _].
Qed.

Lemma complete_plan_good request :
  triple Good (complete_config_plan resources output_bytes request) (fun _ => Good).
Proof.
  unfold complete_config_plan. apply seq_lift; [apply _| |done]. intros candidate _.
  eapply triple_seq; [apply calm_materialize; [done|done|apply _]| |apply _|done].
  intros materialized. apply locked_good.
  apply calm_bind; [apply _|apply calm_safe_file; apply _|]. intros _.
  apply calm_bind; [apply _|apply lock_config_calm|]. intros [].
  apply calm_bind; [apply _|apply calm_fingerprint; apply _|]. intros before.
  apply calm_bind; [apply _|keep|]. intros current.
  apply calm_lift; [apply _|]. intros [] _.
  apply calm_lift; [apply _|]. intros up Hup%parent_of_Ok.
  apply calm_bind; [apply _|keep|]. intros id. cbv zeta.
  destruct (near_config up (plan_name id) Hup) as (A & Hc & Hu);
    [apply (starts_with_long (str ".ocservia-") (str "plan-")), starts_with_refl|].
  set (staging_path := up ++ [plan_name id]) in *.
  apply calm_bind; [apply _|by apply triple_arm|]. intros [].
  eapply triple_seq; [by apply triple_write_new| |apply _|done].
  intros []. apply triple_some. intros n. apply calm_forget.
  keep; first [by apply remove_plan_calm|apply calm_fingerprint; apply _].
Qed.

Lemma fresh_digest request candidate expiry now b :
  stale_request request candidate expiry now b = false -> sha256 b = cca_materialized_hash request.
Proof. unfold stale_request. intros [_ H%negb_false_iff%bool_decide_eq_true]%orb_false_iff. exact H. Qed.

(** A complete apply publishes the text whose digest the request names. *)
Lemma complete_apply_good request identity :
  approves (cca_materialized_hash request) (cca_expected_current_hash request) ->
  triple Good (complete_config_apply resources output_bytes store_key request identity) (fun _ => Good).
Proof.
  intros Ap. unfold complete_config_apply. apply seq_lift; [apply _| |done]. intros candidate _.
  eapply triple_seq; [apply calm_materialize; [done|done|apply _]| |apply _|done]. intros materialized.
  apply seq_lift; [apply _| |done]. intros expiry _.
  eapply triple_seq; [apply calm_now_seconds; apply _| |apply _|done]. intros now.
  destruct (stale_request _ _ _ _ _) eqn:Hs; [by apply triple_done; [apply _|]|].
  eapply triple_seq; [apply calm_safe_file; apply _| |apply _|done]. intros f. cbv beta.
  eapply (triple_seq _ _ _ _ _ _ (fun _ => Good) Good); [| |apply _|done].
  - eapply triple_conseq; [apply apply_good; [done|by eapply fresh_digest]|done|]. by intros [r|e] s.
  - intros r. by apply triple_done; [apply _|].
Qed.

(** Removing stale files next to the configuration. *)
Lemma remove_stale_calm (prefix suffix : bytes) up (test : bytes -> bool) names :
  directory_of config = Some up -> prefix = str ".ocservia-" ++ suffix ->
  (forall name, test name = true -> starts_with prefix name = true) ->
  calm (locked ∅) (each_entry (fun name => if test name then os (remove_path (up ++ [name])) else pret tt) names).
Proof.
  intros Hup -> Ht. apply calm_each; [apply _|]. intros name. destruct (test name) eqn:E; [|keep].
  destruct (near_config up name Hup) as (A & Hc & Hu); [by eapply starts_with_long, Ht|].
  apply calm_os; [apply _|]. eapply triple_conseq; [by apply triple_remove|done|].
  intros [u|e] s; simpl; [|done]. by rewrite delete_empty.
Qed.

Lemma stale_prefix prefix name (f : bytes -> bool) :
  utf8_valid name && match strip_prefix prefix name with Some x => f x | None => false end = true ->
  starts_with prefix name = true.
Proof.
  unfold starts_with. rewrite andb_true_iff, bool_decide_eq_true. intros [_ H] E. by rewrite E in H.
Qed.

Lemma cleanup_plans_good : triple Good (cleanup_stale_config_plans resources) (fun _ => Good).
Proof.
  apply locked_good. apply calm_lift; [apply _|]. intros up Hup%parent_of_Ok.
  apply calm_bind; [apply _|keep|]. intros names.
  eapply (remove_stale_calm _ (str "plan-")); [done|reflexivity|].
  intros name. apply stale_prefix.
Qed.

Lemma cleanup_apply_good : triple Good (cleanup_stale_config_apply_staging resources) (fun _ => Good).
Proof.
  apply locked_good. apply calm_lift; [apply _|]. intros up Hup%parent_of_Ok.
  apply calm_bind; [apply _|keep|]. intros names. apply calm_bind; [apply _| |intros _; keep].
  eapply (remove_stale_calm _ (str "apply-")); [done|reflexivity|].
  intros name. apply stale_prefix.
Qed.

Lemma observe_good kind key revision identity :
  triple Good (desired_effect_observe resources store_key kind key revision identity) (fun _ => Good).
Proof.
  unfold desired_effect_observe. apply seq_lift; [apply _| |done]. intros _ _.
  case_bool_decide; apply locked_good; keep.
  apply calm_read_user_file. apply _.
Qed.

End ConfigApply.
