(* ===== verification/UserOperationProofs.v ===== *)
(** Changing the user file: a staging file is written, checked and renamed over
    it, so that it holds the old contents or the checked new ones at every
    moment. *)

From stdpp Require Import functions base list gmap numbers countable strings sorting.
From Stdlib Require Import ZArith Lia Bool Strings.Byte.
From S2P Require Import Prelude Bytes Text Contracts Authorization Sql Executor EffectRecords.
From S2P Require Import EffectStore Concurrency Files Utf8 UpgradeRecords.
From S2P Require Import PrivdProtocol AdapterText AdapterTextFacts HostFiles Adapter.
From S2P Require Import AdapterLogic AdapterProofs ConfigApplyProofs.

Local Open Scope Z_scope.
Local Open Scope prog_scope.

Section UserStaging.
Context {crypto : Crypto} {text : RecordText} {platform : Platform} {ids : HostIds}.
Context {children : Children} {json : SerdeJson}.
Variable resources : FixedResources.
Hypothesis apart : separate resources.
Hypothesis tamed : tame resources.
Variable approved : bytes -> Prop.
Variable output_bytes : Z.
Variable store_key : bytes.
Variable tid : nat.

Abbreviation area := (area resources).
Abbreviation Good := (Good resources approved).
Abbreviation own := (own resources approved tid).
Abbreviation Rely := (Rely resources approved tid).
Abbreviation Guar := (Guar resources approved tid).
Abbreviation Stable := (Stable Rely).
Abbreviation triple := (triple Rely Guar (fun _ : HostChoice => True) tid).
Abbreviation calm := (calm resources approved tid).
Abbreviation config := (fr_config resources).
Abbreviation user := (fr_user_file resources).
Abbreviation users := (own UserFileLock).

(** What is known of the user file. *)
Variable K : gmap path (nat * bytes).
Hypothesis only_user : forall p, p <> user -> K !! p = None.

Abbreviation with_staging p n b := (<[p := (n, b)]> K).

Lemma only_subset p x : p <> user -> K ⊆ <[p := x]> K.
Proof. intros Hp. by apply insert_subseteq, only_user. Qed.

Lemma forget_staging p n b s : p <> user -> users (with_staging p n b) s -> users K s.
Proof. intros Hp. by apply own_weaken, only_subset. Qed.

Lemma as_calm {E A} P (x : Hst E A) : calm P x -> triple P x (post (fun _ => P) P).
Proof. done. Qed.

(** * Places *)

Definition placed (p : path) (place : path * bytes * Z * Z) : Prop :=
  p = place.1.1.1 ++ [place.1.1.2] /\ directory_of p = Some place.1.1.1 /\ last p = Some place.1.1.2.

Lemma triple_descend P uid names : Calm resources approved tid P -> forall base,
  triple P (descend uid base names) (post (fun d s => P s /\ d = base ++ names) P).
Proof.
  intros CP. induction names as [|name names IH]; intros base; simpl.
  { apply triple_ret; [apply _|]. intros s HP. by rewrite app_nil_r. }
  eapply triple_seq; [apply calm_os; [apply _|apply calm_look; apply _]| |apply _|done].
  intros n. eapply triple_seq; [apply calm_user_directory; apply _| |apply _|done].
  intros []. eapply triple_conseq; [apply IH|done|]. intros [d|e] s; simpl; [|done].
  by rewrite <- app_assoc.
Qed.

Lemma triple_place P p :
  Calm resources approved tid P ->
  triple P (open_user_directory p) (post (fun place s => P s /\ placed p place) P).
Proof.
  intros CP. unfold open_user_directory. apply seq_lift; [apply _| |done]. intros name Hn.
  unfold file_name in Hn. destruct (last p) as [x|] eqn:El; [|done]. injection Hn as ->.
  destruct authoritative_user_owner as [uid gid].
  apply seq_lift; [apply _| |done]. intros up Hup%parent_of_Ok.
  assert (p = up ++ [name]) as Hp.
  { destruct (directory_of_Some _ _ Hup) as [x ->]. rewrite last_snoc in El. by injection El as ->. }
  destruct (uid =? 0).
  - eapply triple_seq; [apply calm_os; [apply _|apply calm_look; apply _]| |apply _|done].
    intros n. eapply triple_seq; [apply calm_user_directory; apply _| |apply _|done].
    intros []. eapply triple_seq; [by apply triple_descend| |apply _|done].
    intros d. apply triple_know. intros ->. by apply triple_ret; [apply _|].
  - eapply triple_seq; [apply calm_os; [apply _|apply calm_look; apply _]| |apply _|done].
    intros n. eapply triple_seq; [apply calm_user_directory; apply _| |apply _|done].
    intros []. by apply triple_ret; [apply _|].
Qed.

(** * Staging *)

Lemma user_metadata p n b uid gid :
  p <> config -> p <> user ->
  triple (users (with_staging p n b)) (set_authoritative_user_metadata n uid gid)
    (post (fun _ => users (with_staging p n b)) (users (with_staging p n b))).
Proof.
  intros Hc Hu. unfold set_authoritative_user_metadata.
  eapply triple_seq; [apply triple_os; [eapply triple_change; [done|apply lookup_insert_eq|done..]|apply _..]
    | |apply _|done].
  intros []. apply triple_os; [eapply triple_change; [done|apply lookup_insert_eq|done..]|apply _..].
Qed.

(** The staging files of this operation and of its child. *)
Definition staging_of (p : path) : Prop :=
  exists up file id, directory_of user = Some up /\ last user = Some file
    /\ p = up ++ [user_staging_prefix file ++ uuid_to_string id].

Lemma staging_near p : staging_of p ->
  area UserFileLock p /\ p <> config /\ p <> user
  /\ area UserFileLock (scratch_path p) /\ scratch_path p <> config /\ scratch_path p <> user.
Proof.
  intros (up & file & id & Hup & Hf & ->).
  destruct (user_name resources apart up file (user_staging_prefix file ++ uuid_to_string id) Hup Hf)
    as (A & Hc & Hu); [apply starts_with_refl|].
  unfold scratch_path. rewrite directory_of_app, last_snoc, <- app_assoc.
  destruct (user_name resources apart up file (user_staging_prefix file ++ (uuid_to_string id ++ str ".tmp"))
    Hup Hf) as (A' & Hc' & Hu'); [apply starts_with_refl|]. done.
Qed.

Lemma triple_stage b :
  triple (users K) (stage_user_file resources b)
    (post (fun p s => exists n, users (with_staging p n b) s /\ staging_of p) (users K)).
Proof.
  unfold stage_user_file. cbv zeta. apply seq_lift; [apply _| |done]. intros up Hup%parent_of_Ok.
  apply seq_lift; [apply _| |done]. intros file Hf.
  assert (last user = Some file) as Hl.
  { unfold file_name_str in Hf. destruct (last user); [|done]. destruct (utf8_valid _); [|done]. congruence. }
  eapply triple_seq; [apply calm_now_uuid; apply _| |apply _|done]. intros id.
  assert (staging_of (up ++ [user_staging_prefix file ++ uuid_to_string id])) as St by (by exists up, file, id).
  destruct (staging_near _ St) as (A & Hc & Hu & _).
  set (p := up ++ [user_staging_prefix file ++ uuid_to_string id]) in *.
  eapply triple_seq; [by apply triple_arm| |apply _|done]. intros [].
  eapply triple_seq; [apply calm_read_user_file; apply _| |apply _|done]. intros ?.
  eapply triple_seq; [apply triple_place; apply _| |apply _|done]. intros [[[directory name] uid] gid].
  apply triple_know. intros (_ & Hd & _). simpl in Hd. assert (directory = up) as Ed by congruence. rewrite Ed.
  fold p. eapply triple_seq; [apply triple_os; [by apply host_create|apply _..]| |apply _|done].
  intros n. assert (forall e' s, users (with_staging p n e') s -> users K s) as F.
  { intros e' s. by apply forget_staging. }
  eapply triple_seq; [by apply user_metadata| |apply _|intros e s; apply F]. intros [].
  eapply triple_seq; [apply triple_os; [eapply host_write; [done|apply lookup_insert_eq|done..]|apply _..]
    | |apply _|].
  2:{ intros e s. apply own_weaken. rewrite delete_insert_eq, delete_id by (by apply only_user). done. }
  intros []. rewrite insert_insert_eq. simpl app.
  eapply triple_seq; [apply calm_os; [apply _|apply calm_look; apply _]| |apply _|intros e s; apply F].
  intros []. apply triple_ret; [apply _|]. intros s O. by exists n.
Qed.

(** ocpasswd changes the staging file and its own scratch file. *)
Lemma triple_ocpasswd p rest input :
  staging_of p ->
  triple (users K)
    (execute_with_input output_bytes (fr_ocpasswd resources) (str "-c" :: path_text p :: rest) input)
    (post (fun _ => users K) (users K)).
Proof.
  intros St. destruct (staging_near p St) as (A & Hc & Hu & A' & Hc' & Hu').
  apply triple_act; [apply _|stable_post|]. intros s c r s' O _ Ef.
  destruct (child_run _ _ _ _ _) as [e d'] eqn:Ec. injection Ef as <- <-.
  assert (limits resources [p; scratch_path p] (hs_disk s.2) d') as L.
  { pose proof (tame_wf _ tamed (fr_ocpasswd resources) (str "-c" :: path_text p :: rest) input (hc_child c)
      _ (g_wf _ _ _ (own_good _ _ _ _ _ _ O))) as W. rewrite Ec in W. split; [done|].
    intros m q Aq Hq. rewrite !not_elem_of_cons in Hq. destruct Hq as (N1 & N2 & _).
    pose proof (tame_ocpasswd _ tamed rest input (hc_child c) (hs_disk s.2) m q p Aq N1 N2) as S.
    by rewrite Ec in S. }
  assert (Guar s (set_host_disk d' s) /\ users K (set_host_disk d' s)) as [G1 O1].
  { eapply own_limits; [done|exact O|exact L| | | |].
    - intros q Hq. rewrite elem_of_cons, list_elem_of_singleton in Hq. by destruct Hq; subst q.
    - intros [Eq|Eq%list_elem_of_singleton]%elem_of_cons; congruence.
    - intros [Eq|Eq%list_elem_of_singleton]%elem_of_cons; congruence.
    - intros q k x Hq. left. split; [|done]. destruct (decide (q = user)) as [->|N];
        [|by rewrite only_user in Hq].
      rewrite !not_elem_of_cons. split_and!; [congruence|congruence|apply not_elem_of_nil]. }
  split; [done|]. by destruct (child_outcome output_bytes e).
Qed.

(** * Publication *)

Lemma triple_read_staging p n b :
  triple (users (with_staging p n b)) (read_user_file p false)
    (post (fun x s => users (with_staging p n b) s /\ x = b) (users (with_staging p n b))).
Proof.
  unfold read_user_file. eapply triple_seq; [apply triple_place; apply _| |apply _|done].
  intros [[[directory name] uid] gid]. apply triple_know. intros (Hp & _ & _). simpl in Hp. rewrite <- Hp.
  eapply (triple_seq _ _ _ _ _ _ (post (fun k s => users (with_staging p n b) s /\ k = n)
      (users (with_staging p n b))) (users (with_staging p n b)));
    [apply triple_caught; [eapply triple_open_known, lookup_insert_eq|apply _..]| |apply _|done].
  intros [k|[| | |]]; try (apply triple_throw; [apply Stable_own|done]).
  apply (triple_know _ _ _ (k = n)). intros ->.
  eapply triple_seq; [apply calm_validate_user_file; apply _| |apply _|done]. intros ?.
  eapply triple_seq; [apply triple_os; [eapply triple_handle_known, lookup_insert_eq|apply _..]| |apply _|done].
  intros x. apply triple_know. intros ->. cbv zeta.
  destruct (_ <? _) eqn:L; [apply triple_throw; [apply _|done]|].
  apply triple_ret; [apply _|]. intros s O. split; [done|].
  apply take_ge. apply Z.ltb_ge in L. unfold len in L. rewrite length_take in L.
  unfold MAX_USER_FILE_BYTES in *. lia.
Qed.

(** The rest of the normalization once the file is open and regular. *)
Lemma triple_normalized p n b uid gid :
  p <> config -> p <> user ->
  triple (users (with_staging p n b))
    (set_authoritative_user_metadata n uid gid ;;; os (sync_handle n) ;;; read_user_file p false)
    (post (fun x s => users (with_staging p n b) s /\ x = b) (users (with_staging p n b))).
Proof.
  intros Hc Hu. eapply triple_seq; [by apply user_metadata| |apply _|done]. intros [].
  eapply triple_seq; [apply calm_os; [apply _|apply calm_look; apply _]| |apply _|done].
  intros []. apply triple_read_staging.
Qed.

(** The contents that will be published, of a staging file that is known or of
    one a child has changed. *)
Lemma triple_normalize_known p n b :
  staging_of p ->
  triple (users (with_staging p n b)) (normalize_and_read_user_staging p)
    (post (fun x s => users (with_staging p n b) s /\ x = b) (users K)).
Proof.
  intros St. destruct (staging_near p St) as (A & Hc & Hu & _).
  assert (forall s, users (with_staging p n b) s -> users K s) as F by (intros s; by apply forget_staging).
  eapply (triple_conseq _ _ _ _ _ (users (with_staging p n b)) _ _ (post (fun x s => users (with_staging p n b) s /\ x = b)
    (users (with_staging p n b)))); [|done|intros [x|e] s; simpl; [done|apply F]].
  unfold normalize_and_read_user_staging. eapply triple_seq; [apply triple_place; apply _| |apply _|done].
  intros [[[directory name] uid] gid]. apply triple_know. intros (Hp & _ & _). simpl in Hp. rewrite <- Hp.
  eapply triple_seq; [apply triple_os; [eapply triple_open_known, lookup_insert_eq|apply _..]| |apply _|done].
  intros k. apply triple_know. intros ->.
  eapply triple_seq; [apply calm_os; [apply _|apply calm_look; apply _]| |apply _|done]. intros i.
  destruct (_ || _); [apply triple_throw; [apply _|done]|]. by apply triple_normalized.
Qed.

Lemma triple_normalize_learn p :
  staging_of p ->
  triple (users K) (normalize_and_read_user_staging p)
    (post (fun x s => exists n, users (with_staging p n x) s) (users K)).
Proof.
  intros St. destruct (staging_near p St) as (A & Hc & Hu & _).
  unfold normalize_and_read_user_staging. eapply triple_seq; [apply triple_place; apply _| |apply _|done].
  intros [[[directory name] uid] gid]. apply triple_know. intros (Hp & _ & _). simpl in Hp. rewrite <- Hp.
  eapply (triple_seq _ _ _ _ _ _ (fun n s => users K s /\ hd_names (hs_disk s.2) !! p = Some n) (users K));
    [apply triple_os; [by apply triple_open_learn|intros n; by apply Stable_leads|apply _]| |apply _|done].
  intros n. eapply (triple_seq _ _ _ _ _ _ (fun i s => if node_is_file i then exists b, users (with_staging p n b) s
      else users K s) (users K)); [apply triple_os; [by apply triple_stat_learn| |apply _]| |apply _|done].
  { intros i. destruct (node_is_file i); [|apply Stable_own]. apply Stable_exist. intros b. apply Stable_own. }
  intros i. destruct (node_is_file i); simpl; [|apply triple_throw; [apply Stable_own|done]].
  apply triple_some. intros b.
  destruct (negb _); [apply triple_throw; [apply Stable_own|intros s; by apply forget_staging]|].
  eapply triple_conseq; [by apply triple_normalized|done|]. intros [x|e] s; simpl; [|by apply forget_staging].
  intros [O ->]. by exists n.
Qed.

(** The user file holds what it held, or the new contents. *)
Definition settled (after : bytes) (s : AdapterState) : Prop :=
  users K s \/ exists n, users {[user := (n, after)]} s.

#[global] Instance Stable_settled after : Stable (settled after).
Proof.
  intros s s' R [O|[n O]]; [left|right; exists n]; by apply (Stable_own _ _ _ _ _ s).
Qed.

Lemma triple_publish_user p n after :
  staging_of p -> is_ok (parse_secret_user_records after) = true ->
  triple (users (with_staging p n after)) (publish_user_staging p user)
    (post (fun _ s => exists n, users {[user := (n, after)]} s) (settled after)).
Proof.
  intros St Hok. destruct (staging_near p St) as (A & Hc & Hu & _).
  assert (forall s, users (with_staging p n after) s -> settled after s) as F.
  { intros s O. left. by eapply forget_staging. }
  assert (forall s, users {[user := (n, after)]} s -> settled after s) as F' by (intros s O; right; by exists n).
  unfold publish_user_staging. destruct (negb _) eqn:Hd; [apply triple_throw; [apply _|exact F]|].
  apply negb_false_iff, bool_decide_eq_true in Hd.
  eapply triple_seq; [apply triple_place; apply _| |apply _|intros e s; apply F].
  intros [[[directory name] uid] gid]. apply triple_know. intros (Hp & Hup & Hl). simpl in Hp, Hup, Hl.
  apply seq_lift; [apply _| |intros e s; apply F]. intros file Hf.
  assert (directory ++ [file] = p) as Ep.
  { rewrite Hup in Hd. destruct (directory_of_Some _ _ Hd) as [x ->]. unfold file_name in Hf.
    rewrite last_snoc in Hf. simpl in Hf. congruence. }
  rewrite Ep, <- Hp.
  eapply triple_seq; [apply triple_os; [eapply triple_open_known, lookup_insert_eq|apply _..]| |apply _|intros e s; apply F].
  intros k. apply triple_know. intros ->.
  eapply triple_seq; [apply calm_validate_user_file; apply _| |apply _|intros e s; apply F]. intros ?.
  eapply triple_seq; [apply calm_catch; [apply _|apply calm_look; apply _]| |apply _|intros e s; apply F].
  intros found. eapply (triple_seq _ _ _ _ _ _ (fun _ => users (with_staging p n after)) (users (with_staging p n after)));
    [| |apply _|intros e s; apply F].
  { apply as_calm. destruct found as [m|[| | |]]; keep. apply calm_validate_user_file. apply _. }
  intros [].
  eapply (triple_seq _ _ _ _ _ _ (fun _ => users {[user := (n, after)]}) (users (with_staging p n after)));
    [| |apply _|intros e s; apply F].
  { eapply triple_conseq; [apply triple_os; [eapply host_rename;
      [done|apply lookup_insert_eq|exact (user_in resources)|done|done|done| |done]|apply _..]|done|].
    { intros E. by destruct (config_not_user resources apart). }
    intros [u|e] s; simpl; [|done]. apply own_weaken. apply insert_subseteq_l; [|apply map_empty_subseteq].
    apply lookup_insert_eq. }
  intros []. apply (triple_conseq _ _ _ _ _ (users {[user := (n, after)]}) _ _
    (post (fun _ => users {[user := (n, after)]}) (users {[user := (n, after)]}))); [apply as_calm|done|].
  { apply calm_bind; [apply _|apply calm_os; [apply _|apply calm_look; apply _]|]. intros m.
    apply calm_bind; [apply _|apply calm_validate_user_file; apply _|]. intros ?. keep. }
  intros [u|e] s; simpl; [intros O; by exists n|apply F'].
Qed.

Lemma triple_remove_staging p n b :
  staging_of p ->
  triple (users (with_staging p n b)) (remove_staging p) (post (fun _ => users K) (users K)).
Proof.
  intros St. destruct (staging_near p St) as (A & Hc & Hu & _). unfold remove_staging.
  eapply (triple_seq _ _ _ _ _ _ (fun _ => users K) (users K)); [| |apply _|done].
  { eapply triple_catch; [by apply triple_remove|intros r; apply Stable_post; apply _|].
    intros [u|e] s; simpl; [|by apply forget_staging]. apply own_weaken.
    by rewrite delete_insert_eq, delete_id by (by apply only_user). }
  intros r. apply as_calm. destruct r as [u|[| | |]]; keep; apply triple_disarm.
Qed.

(** The rest of the commit once the contents are known. *)
Lemma triple_commit_read p n after before kind key revision identity :
  staging_of p ->
  triple (users (with_staging p n after))
    (plift (parse_secret_user_records after) ;;;
     open_store ;;;
     preparation <- effect (fun clock => prepare store_key clock kind key revision identity before after) ;;
     match (preparation : PrepareEffect) with
     | AlreadyApplied => remove_staging p
     | Proceed =>
         publish_user_staging p user ;;;
         disarm p ;;;
         effect (fun clock => mark_applied store_key clock kind key revision identity)
     end)
    (fun _ s => settled after s /\ (users K s \/ is_ok (parse_secret_user_records after) = true)).
Proof.
  intros St. destruct (staging_near p St) as (A & Hc & Hu & _).
  assert (forall s, users (with_staging p n after) s -> users K s) as F by (intros s; by apply forget_staging).
  assert (forall s, users (with_staging p n after) s ->
    settled after s /\ (users K s \/ is_ok (parse_secret_user_records after) = true)) as F'.
  { intros s O. split; left; by apply F. }
  apply seq_lift; [apply _| |intros e; apply F']. intros records Hr.
  assert (is_ok (parse_secret_user_records after) = true) as Hok by (by rewrite Hr).
  apply (triple_conseq _ _ _ _ _ (users (with_staging p n after)) _ _ (post (fun _ => settled after) (settled after)));
    [|done|intros [u|e] s; simpl; auto].
  assert (forall s, users (with_staging p n after) s -> settled after s) as F2 by (intros s O; left; by apply F).
  eapply triple_seq; [apply calm_open_store; apply _| |apply _|intros e; apply F2]. intros [].
  eapply triple_seq; [apply calm_effect; apply _| |apply _|intros e; apply F2]. intros [|].
  - eapply triple_seq; [by apply triple_publish_user| |apply _|done]. intros []. apply triple_some. intros k.
    eapply (triple_conseq _ _ _ _ _ (users {[user := (k, after)]}) _ _ (post (fun _ => users {[user := (k, after)]}) (users {[user := (k, after)]})));
      [|done|intros [u|e] s; simpl; intros O; right; by exists k].
    apply calm_bind; [apply _|apply triple_disarm|intros []; keep].
  - apply (triple_conseq _ _ _ _ _ (users (with_staging p n after)) _ _
      (post (fun _ => users K) (users K))); [|done|].
    { by apply triple_remove_staging. }
    intros [u|e] s; simpl; intros O; by left.
Qed.

End UserStaging.

(** The operations on the user file: what each leaves behind when it returns,
    fails or finds its effect already applied. *)

Section UserOperations.
Context {crypto : Crypto} {text : RecordText} {platform : Platform} {ids : HostIds}.
Context {children : Children} {json : SerdeJson}.
Variable resources : FixedResources.
Hypothesis apart : separate resources.
Hypothesis tamed : tame resources.
Variable approved : bytes -> Prop.
Variable output_bytes : Z.
Variable store_key : bytes.
Variable tid : nat.

Abbreviation area := (area resources).
Abbreviation Good := (Good resources approved).
Abbreviation own := (own resources approved tid).
Abbreviation Rely := (Rely resources approved tid).
Abbreviation Guar := (Guar resources approved tid).
Abbreviation Stable := (Stable Rely).
Abbreviation triple := (triple Rely Guar (fun _ : HostChoice => True) tid).
Abbreviation calm := (calm resources approved tid).
Abbreviation config := (fr_config resources).
Abbreviation user := (fr_user_file resources).
Abbreviation users := (own UserFileLock).

(** * Under the mutex *)

Section Locked.
Variable K : gmap path (nat * bytes).
Hypothesis only_user : forall p, p <> user -> K !! p = None.
Abbreviation with_staging p n b := (<[p := (n, b)]> K).
Abbreviation settled := (settled resources approved tid K).
Abbreviation staging_of := (staging_of resources).

(** What an operation leaves: the user file as it was, or new contents that can
    be read and satisfy [V]. *)
Definition leaves (V : bytes -> Prop) (s : AdapterState) : Prop :=
  users K s \/ exists n after, users {[user := (n, after)]} s
    /\ (is_ok (parse_secret_user_records after) = true /\ V after).

Lemma leaves_good V s : leaves V s -> Good s.
Proof. intros [O|(n & after & O & _)]; by eapply own_good. Qed.

Lemma settled_leaves (V : bytes -> Prop) after s :
  settled after s /\ (users K s \/ is_ok (parse_secret_user_records after) = true) -> V after ->
  leaves V s.
Proof. intros [[O|[n O]] [O'|H]] HV; try by left. right. by exists n, after. Qed.

Lemma triple_commit_known p n b before kind key revision identity :
  staging_of p ->
  triple (users (with_staging p n b))
    (commit_desired_staging resources store_key p before kind key revision identity)
    (fun _ => leaves (eq b)).
Proof.
  intros St. unfold commit_desired_staging.
  eapply triple_seq; [by apply triple_normalize_known| |apply _|intros e s; by left].
  intros x. apply triple_know. intros ->.
  eapply triple_conseq; [by apply triple_commit_read|done|]. intros r s H. by apply (settled_leaves _ b).
Qed.

Lemma triple_commit_learn p before kind key revision identity :
  staging_of p ->
  triple (users K) (commit_desired_staging resources store_key p before kind key revision identity)
    (fun _ => leaves (fun _ => True)).
Proof.
  intros St. unfold commit_desired_staging.
  eapply triple_seq; [by apply triple_normalize_learn| |apply _|intros e s; by left].
  intros x. apply triple_some. intros n.
  eapply triple_conseq; [by apply triple_commit_read|done|]. intros r s H. by apply (settled_leaves _ x).
Qed.

(** The result of a commit does not change what it leaves. *)
Lemma seq_leaves {E A B} P V (x : Hst E A) (b : B) :
  triple P x (fun _ => leaves V) -> triple P (x ;;; pret b) (fun _ => leaves V).
Proof.
  intros Hx. assert (Stable (leaves V)) as HS.
  { intros s s' R [O|(n & after & O & H)]; [left|right; exists n, after; split; [|done]];
      by apply (Stable_own _ _ _ _ _ s). }
  eapply triple_bind; [exact Hx|intros a; by apply triple_done|done|done].
Qed.

(** The scratch file of the child is named after the staging file. *)
Lemma scratch_of_Ok {B} P p (k : bytes * path -> Hst AdapterError B) Q :
  Stable P -> staging_of p -> triple P (k (path_text p, scratch_path p)) Q ->
  (forall e s, P s -> Q (Err e) s) -> triple P (pbind (scratch_of p) k) Q.
Proof.
  intros HS (up & file & id & _ & _ & ->) Hk HE. unfold scratch_of.
  unfold scratch_path in Hk. rewrite directory_of_app, last_snoc in Hk.
  unfold path_to_str, parent_of, file_name. rewrite directory_of_app, last_snoc.
  destruct (forallb utf8_valid _); [exact Hk|]. apply triple_done; [done|]. apply HE.
Qed.

(** ** Reading the user file *)

(** A file that is there is not reported as absent. *)
Lemma triple_open_present p n b :
  K !! p = Some (n, b) ->
  triple (users K) (open_file p)
    (fun r s => users K s /\ match r with Ok k => k = n | Err e => e <> HostNotFound end).
Proof.
  intros Hp. apply triple_act; [apply _|intros [k|e]; apply _|].
  intros s c r s' O _ Ef. destruct (own_file _ _ _ _ _ _ O p n b Hp) as (_ & N & C). rewrite N in Ef.
  assert (set_host_disk (hs_disk s.2) s = s) as Es by (destruct s as [? [? ? ?]]; done).
  destruct (hc_fault c); [injection Ef as <- <-; split; [apply host_guar_same|done]|].
  unfold content in C. destruct (hd_nodes _ !! n) as [i|]; [|done].
  destruct (node_is_symlink i); injection Ef as <- <-; rewrite ?Es; (split; [apply host_guar_same|done]).
Qed.

(** Contents that agree with what is known. *)
Definition agrees (b : bytes) : Prop := forall n0 b0, K !! user = Some (n0, b0) -> b = b0.

Lemma triple_read_current :
  triple (users K) (read_optional_user_file user)
    (post (fun b s => users K s /\ agrees b) (users K)).
Proof.
  unfold read_optional_user_file. destruct (K !! user) as [[n0 b0]|] eqn:EK.
  2:{ eapply (triple_conseq _ _ _ _ _ (users K)); [apply calm_read_user_file; apply _|done|]. intros [b|e] s; simpl; [|done].
      intros O. split; [done|]. intros n0 b0 H. congruence. }
  unfold read_user_file. eapply triple_seq; [apply triple_place; apply _| |apply _|done].
  intros [[[directory name] uid] gid]. apply triple_know. intros (Hp & _ & _). simpl in Hp. rewrite <- Hp.
  eapply (triple_seq _ _ _ _ _ _ (fun r s => users K s /\ match r with Ok k => k = n0 | Err e => e <> HostNotFound end)
    (users K)); [eapply triple_catch; [by eapply triple_open_present|intros [k|e]; apply _|done]| |apply _|done].
  intros r. apply triple_know. intros Hr.
  destruct r as [k|[| | |]]; try done; try (apply triple_throw; [apply _|done]). rewrite Hr.
  eapply triple_seq; [apply calm_validate_user_file; apply _| |apply _|done]. intros ?.
  eapply triple_seq; [apply triple_os; [by eapply triple_handle_known|apply _..]| |apply _|done].
  intros x. apply triple_know. intros ->. cbv zeta.
  destruct (_ <? _) eqn:L; [apply triple_throw; [apply _|done]|].
  apply triple_ret; [apply _|]. intros s O. split; [done|]. intros n1 b1 H. rewrite EK in H. injection H as _ <-.
  apply take_ge. apply Z.ltb_ge in L. unfold len in L. rewrite length_take in L.
  unfold MAX_USER_FILE_BYTES in *. lia.
Qed.

(** ** The operations *)

Lemma triple_group group_name members revision identity :
  triple (users K)
    (b <- read_optional_user_file user ;;
     output <- plift (group_contents group_name members b) ;;
     staging <- stage_user_file resources output ;;
     commit_desired_staging resources store_key staging b (str "group_apply") group_name revision identity ;;;
     pret true)
    (fun _ => leaves (fun after => exists b, agrees b /\ group_contents group_name members b = Ok after)).
Proof.
  eapply triple_seq; [apply triple_read_current| |apply _|intros e s; by left].
  intros b. apply triple_know. intros Hb.
  apply seq_lift; [apply _| |intros e s; by left]. intros output Hg.
  eapply triple_seq; [by apply triple_stage| |apply _|intros e s; by left].
  intros p. apply triple_some. intros n. apply triple_know. intros St.
  apply seq_leaves. eapply triple_conseq; [by apply triple_commit_known|done|].
  intros r s [O|(k & after & O & H & <-)]; [by left|]. right. exists k, output. split_and!; eauto.
Qed.

(** From the staging file on, when ocpasswd edits it. *)
Lemma triple_edit {A} current (edit : path -> bytes -> Hst AdapterError A) V :
  (forall p n b, staging_of p ->
     triple (users (with_staging p n b)) (edit p (path_text p)) (fun _ => leaves V)) ->
  triple (users K)
    (staging <- stage_user_file resources current ;;
     place <- scratch_of staging ;;
     let '(staging_text, scratch) := place in
     arm scratch ;;; edit staging staging_text)
    (fun _ => leaves V).
Proof.
  intros He. eapply triple_seq; [by apply triple_stage| |apply _|intros e s; by left].
  intros p. apply triple_some. intros n. apply triple_know. intros St.
  destruct (staging_near resources apart p St) as (_ & _ & Hu & A' & Hc & Hu').
  assert (forall s, users (with_staging p n current) s -> leaves V s) as F.
  { intros s O. left. by eapply (forget_staging _ _ _ K only_user p n current). }
  apply scratch_of_Ok; [apply _|done| |intros e; apply F].
  eapply triple_seq; [by apply triple_arm| |apply _|intros e; apply F]. intros []. by apply He.
Qed.

Lemma triple_lock_state username revision identity (off : bool) :
  triple (users K)
    (current <- read_optional_user_file user ;;
     metadata <- plift (find_user_metadata current username) ;;
     if negb (is_some metadata) then pthrow InvalidRequest
     else
     staging <- stage_user_file resources current ;;
     place <- scratch_of staging ;;
     let '(staging_text, scratch) := place in
     arm scratch ;;;
     run_child output_bytes (fr_ocpasswd resources)
       [str "-c"; staging_text; if off then str "-l" else str "-u"; username] ;;;
     commit_desired_staging resources store_key staging current
       (if off then str "user_disable" else str "user_enable") username revision identity ;;;
     pret true)
    (fun _ => leaves (fun _ => True)).
Proof.
  eapply triple_seq; [apply triple_read_current| |apply _|intros e s; by left].
  intros current. apply triple_know. intros _.
  apply seq_lift; [apply _| |intros e s; by left]. intros metadata _.
  destruct (negb _); [apply triple_done; [apply _|intros s; by left]|].
  apply (triple_edit current (fun staging staging_text =>
    run_child output_bytes (fr_ocpasswd resources)
      [str "-c"; staging_text; if off then str "-l" else str "-u"; username] ;;;
    commit_desired_staging resources store_key staging current
      (if off then str "user_disable" else str "user_enable") username revision identity ;;;
    pret true)).
  intros p n b St. destruct (staging_near resources apart p St) as (_ & _ & Hu & _).
  apply (triple_pre _ _ _ _ (users K)).
  { intros s. by apply (forget_staging _ _ _ K only_user p n b). }
  eapply triple_seq; [by apply triple_ocpasswd| |apply _|intros e s; by left].
  intros ?. apply seq_leaves. by apply triple_commit_learn.
Qed.

(** The same, and the account locked again when it was locked. *)
Lemma triple_secret current key_args username input locked_before kind revision identity :
  triple (users K)
    (staging <- stage_user_file resources current ;;
     place <- scratch_of staging ;;
     let '(staging_text, scratch) := place in
     arm scratch ;;;
     execute_with_input output_bytes (fr_ocpasswd resources)
       ([str "-c"; staging_text] ++ key_args ++ [username]) input ;;;
     (if (locked_before : bool) then
        run_child output_bytes (fr_ocpasswd resources) [str "-c"; staging_text; str "-l"; username] ;;; pret tt
      else pret tt) ;;;
     commit_desired_staging resources store_key staging current kind username revision identity ;;;
     pret true)
    (fun _ => leaves (fun _ => True)).
Proof.
  apply (triple_edit current (fun staging staging_text =>
    execute_with_input output_bytes (fr_ocpasswd resources)
      ([str "-c"; staging_text] ++ key_args ++ [username]) input ;;;
    (if locked_before then
       run_child output_bytes (fr_ocpasswd resources) [str "-c"; staging_text; str "-l"; username] ;;; pret tt
     else pret tt) ;;;
    commit_desired_staging resources store_key staging current kind username revision identity ;;;
    pret true)).
  intros p n b St. destruct (staging_near resources apart p St) as (_ & _ & Hu & _).
  apply (triple_pre _ _ _ _ (users K)).
  { intros s. by apply (forget_staging _ _ _ K only_user p n b). }
  eapply triple_seq; [by apply triple_ocpasswd| |apply _|intros e s; by left]. intros ?.
  eapply (triple_seq _ _ _ _ _ _ (fun _ => users K) (users K)); [| |apply _|intros e s; by left].
  { destruct locked_before; [|by apply triple_ret; [apply _|]].
    eapply triple_seq; [by apply triple_ocpasswd| |apply _|done]. intros ?. by apply triple_ret; [apply _|]. }
  intros ?. apply seq_leaves. by apply triple_commit_learn.
Qed.

End Locked.

(** * Whole operations *)

Lemma only_empty p : p <> user -> (∅ : gmap path (nat * bytes)) !! p = None.
Proof. intros _. apply lookup_empty. Qed.

Lemma under_user_lock {A} (x : Hst AdapterError A) V :
  triple (users ∅) x (fun _ => leaves ∅ V) ->
  triple Good (scoped (lock_mutex UserFileLock ;;; x)) (fun _ => Good).
Proof.
  intros Hx. apply triple_scoped; [exact apart|].
  eapply triple_seq; [by apply triple_lock| |apply _|intros e s; apply own_good].
  intros []. eapply triple_conseq; [exact Hx|done|]. intros r s. apply leaves_good.
Qed.

Lemma group_apply_good group_name members revision identity :
  triple Good (group_apply resources store_key group_name members revision identity) (fun _ => Good).
Proof.
  unfold group_apply. apply seq_lift; [apply _| |done]. intros _ _.
  eapply under_user_lock, triple_group. apply only_empty.
Qed.

Lemma user_lock_state_good username revision identity off :
  triple Good (user_lock_state resources output_bytes store_key username revision identity off)
    (fun _ => Good).
Proof.
  unfold user_lock_state. apply seq_lift; [apply _| |done]. intros _ _.
  destruct (revision =? 0); [by apply triple_done; [apply _|]|].
  eapply under_user_lock, triple_lock_state. apply only_empty.
Qed.

Lemma user_secret_apply_good username key_id sealed_password revision identity mode :
  triple Good
    (user_secret_apply resources output_bytes store_key username key_id sealed_password revision
       identity mode) (fun _ => Good).
Proof.
  unfold user_secret_apply. apply seq_lift; [apply _| |done]. intros _ _.
  destruct (_ || _); [by apply triple_done; [apply _|]|].
  apply (under_user_lock _ (fun _ => True)).
  eapply triple_seq; [by apply triple_read_current| |apply _|intros e s; by left].
  intros current. apply triple_know. intros _.
  apply seq_lift; [apply _| |intros e s; by left]. intros records _. cbv zeta.
  destruct (_ || _); [apply triple_done; [apply _|intros s; by left]|].
  destruct (_ && _); [apply triple_done; [apply _|intros s; by left]|].
  apply seq_lift; [apply _| |intros e s; by left]. intros key _.
  eapply triple_seq; [apply (calm_child resources apart tamed approved output_bytes tid (users ∅));
    [fixed_program]| |apply _|intros e s; by left].
  intros output. destruct (bad_password _); [apply triple_done; [apply _|intros s; by left]|].
  apply triple_secret. apply only_empty.
Qed.

(** Removing what earlier operations have left. *)
Lemma cleanup_users_good : triple Good (cleanup_stale_user_staging resources) (fun _ => Good).
Proof.
  apply (under_user_lock _ (fun _ => True)).
  eapply triple_seq; [apply triple_place; apply _| |apply _|intros e s; by left].
  intros [[[directory name] uid] gid]. apply triple_know. intros (Hp & Hd & Hl). simpl in Hp, Hd, Hl.
  apply seq_lift; [apply _| |intros e s; by left]. intros up _.
  apply seq_lift; [apply _| |intros e s; by left]. intros file Hf.
  assert (file = name) as ->.
  { unfold file_name_str in Hf. rewrite Hl in Hf. destruct (utf8_valid _); [|done]. by injection Hf. }
  eapply triple_seq; [apply (calm_os resources approved tid (users ∅)), calm_look; apply _| |apply _|intros e s; by left].
  intros names. eapply (triple_conseq _ _ _ _ _ (users ∅)); [apply (calm_each resources approved tid (users ∅))|done|].
  2:{ intros [u|e] s O; by left. }
  intros candidate. destruct (stale_user_name _ candidate) eqn:Hs; [|keep].
  destruct (user_name resources apart directory name candidate Hd Hl) as (A & Hc & Hu).
  { unfold stale_user_name in Hs. apply andb_true_iff in Hs as [_ Hs]. unfold starts_with.
    apply bool_decide_eq_true. intros E. by rewrite E in Hs. }
  apply calm_bind; [apply _|keep|]. intros n. apply calm_bind; [apply _|keep|]. intros i. cbv zeta.
  apply calm_bind; [apply _|apply calm_validate_user_file; apply _|]. intros ?.
  apply calm_os; [apply _|]. eapply triple_conseq; [by apply triple_remove|done|].
  intros [u|e] s; simpl; [|done]. by rewrite delete_empty.
Qed.

End UserOperations.
