(* ===== verification/AdapterTheorems.v ===== *)
(** The operations of the adapter together: whatever interleaves, fails, is
    given up by its caller or dies, the configuration is always a complete text
    with an approved digest and the user file can always be read; and what an
    operation reports is what it has left on disk. *)

From stdpp Require Import functions base list gmap numbers countable strings sorting relations.
From Stdlib Require Import ZArith Lia Bool Strings.Byte.
From S2P Require Import Prelude Bytes Text Contracts ConfigProfile Authorization Sql Executor EffectRecords.
From S2P Require Import EffectStore Concurrency Files Utf8 UpgradeRecords SemanticFacts.
From S2P Require Import PrivdProtocol AdapterText AdapterTextFacts HostFiles Adapter.
From S2P Require Import ConfigTheorems CandidateTheorems AdapterLogic AdapterProofs ConfigApplyProofs UserOperationProofs.

Local Open Scope Z_scope.
Local Open Scope prog_scope.

(** * Runs of one operation *)

Section Runs.
Context {S C : Type}.

Lemma run_wp {E A} (R G : S -> S -> Prop) permitted tid (m : Prog S C E A) Q : forall choices s r s',
  (forall s, R s s) -> Forall permitted choices -> wp R G permitted tid m Q s ->
  run_alone tid m choices s = (Some r, s') -> Q r s'.
Proof.
  induction m as [r0|B a k IH]; simpl; intros choices s r s' HR HP W Hrun.
  - injection Hrun as -> ->. exact (proj1 W).
  - destruct choices as [|c rest]; [done|]. inversion_clear HP as [|? ? Hc Hrest].
    destruct (a tid c s) as [[b s1]|] eqn:Ea; [|done].
    destruct (W s (HR s) c b s1 Hc Ea) as [_ W']. by eapply IH.
Qed.

Lemma run_then {E F A B} (m : Prog S C E A) (k : result E A -> Prog S C F B) tid : forall choices s r s',
  run_alone tid (pthen m k) choices s = (Some r, s') ->
  exists c1 c2 r1 s1, run_alone tid m c1 s = (Some r1, s1) /\ run_alone tid (k r1) c2 s1 = (Some r, s').
Proof.
  induction m as [r0|D a c IH]; simpl; intros choices s r s' Hrun.
  - by exists [], choices, r0, s.
  - destruct choices as [|ch rest]; [done|]. destruct (a tid ch s) as [[b s1]|] eqn:Ea; [|done].
    destruct (IH b rest s1 r s' Hrun) as (c1 & c2 & r1 & s2 & H1 & H2).
    exists (ch :: c1), c2, r1, s2. by rewrite Ea.
Qed.
End Runs.

(** Runs that succeed. *)

Lemma run_bind_ok {S C E A B} (m : Prog S C E A) (k : A -> Prog S C E B) tid choices s b s' :
  run_alone tid (pbind m k) choices s = (Some (Ok b), s') ->
  exists c1 c2 a s1, run_alone tid m c1 s = (Some (Ok a), s1) /\ run_alone tid (k a) c2 s1 = (Some (Ok b), s').
Proof.
  intros (c1 & c2 & r1 & s1 & H1 & H2)%run_then. destruct r1 as [a|e]; [|by destruct c2].
  by exists c1, c2, a, s1.
Qed.

Lemma run_lift_ok {S C E A B} (r : result E A) (k : A -> Prog S C E B) tid choices s b s' :
  run_alone tid (pbind (plift r) k) choices s = (Some (Ok b), s') ->
  exists a, r = Ok a /\ run_alone tid (k a) choices s = (Some (Ok b), s').
Proof. destruct r as [a|e]; simpl; [by exists a|by destruct choices]. Qed.

Lemma run_triple {crypto : Crypto} {E A} resources approved tid P (m : Hst E A) Q choices s r s' :
  triple (Rely resources approved tid) (Guar resources approved tid) (fun _ => True) tid P m Q ->
  P s -> run_alone tid m choices s = (Some r, s') -> Q r s'.
Proof.
  intros H HP Hrun. eapply run_wp; [intros x; apply Rely_preorder| |by apply H|exact Hrun].
  by apply Forall_true.
Qed.

Lemma run_scoped {E A} (m : Hst E A) tid choices s r s' :
  run_alone tid (scoped m) choices s = (Some r, s') ->
  exists c1 s1 kept, run_alone tid m c1 s = (Some r, s1) /\ s' = (s1.1, drop_guards tid kept s1.2).
Proof.
  intros (c1 & c2 & r1 & s1 & H1 & H2)%run_then. simpl in H2. destruct c2 as [|c c2]; [done|].
  injection H2 as -> <-. by exists c1, s1, (hc_kept c).
Qed.

Definition with_mutex (m : Mutex) (tid : nat) (s : AdapterState) : AdapterState :=
  (s.1, mkHostState (hs_disk s.2) (<[m := Some tid]> (hs_mutex s.2)) (hs_armed s.2)).

Lemma run_lock {E A} m (x : Hst E A) tid choices s r s' :
  run_alone tid (lock_mutex m ;;; x) choices s = (Some r, s') ->
  hs_mutex s.2 m = None /\ exists c1, run_alone tid x c1 (with_mutex m tid s) = (Some r, s').
Proof.
  simpl. destruct choices as [|c rest]; [done|]. destruct (hs_mutex s.2 m); [done|].
  intros H. split; [done|]. by exists rest.
Qed.

(** * All operations together *)

Section Together.
Context {crypto : Crypto} {text : RecordText} {platform : Platform} {ids : HostIds}.
Context {children : Children} {json : SerdeJson}.
Variable resources : FixedResources.
Variable approved : bytes -> Prop.
Variable output_bytes : Z.
Variable store_key : bytes.

Abbreviation Good := (Good resources approved).
Abbreviation Rely := (Rely resources approved).
Abbreviation Guar := (Guar resources approved).
Abbreviation anything := (fun _ : HostChoice => True).

(** What the daemon and its start-up call. *)
Inductive operation : forall A, Hst AdapterError A -> Prop :=
| op_plan candidate hash : operation _ (config_plan resources output_bytes candidate hash)
| op_apply candidate hash expected revision identity :
    approves approved hash expected ->
    operation _ (config_apply resources output_bytes store_key candidate
                   hash expected revision identity)
| op_complete_plan request : operation _ (complete_config_plan resources output_bytes request)
| op_complete_apply request identity :
    approves approved (cca_materialized_hash request) (cca_expected_current_hash request) ->
    operation _ (complete_config_apply resources output_bytes store_key request identity)
| op_group name members revision identity :
    operation _ (group_apply resources store_key name members revision identity)
| op_create username key sealed revision identity :
    operation _ (user_create resources output_bytes store_key username key sealed revision identity)
| op_rotate username key sealed revision identity :
    operation _ (user_password_rotate resources output_bytes store_key username key sealed revision identity)
| op_disable username revision identity :
    operation _ (user_disable resources output_bytes store_key username revision identity)
| op_enable username revision identity :
    operation _ (user_enable resources output_bytes store_key username revision identity)
| op_observe kind key revision identity :
    operation _ (desired_effect_observe resources store_key kind key revision identity)
| op_clean_users : operation _ (cleanup_stale_user_staging resources)
| op_clean_plans : operation _ (cleanup_stale_config_plans resources)
| op_clean_applies : operation _ (cleanup_stale_config_apply_staging resources)
| op_users : operation _ (user_list resources)
| op_groups : operation _ (group_list resources)
| op_preflight : operation _ (host_preflight resources output_bytes)
| op_sessions : operation _ (session_list resources output_bytes)
| op_bans : operation _ (ip_ban_list resources output_bytes)
| op_status : operation _ (service_status resources output_bytes)
| op_version : operation _ (ocserv_version resources output_bytes)
| op_fingerprint : operation _ (config_fingerprint resources)
| op_reload : operation _ (service_reload resources output_bytes)
| op_disconnect session boot : operation _ (session_disconnect resources output_bytes session boot)
| op_terminate session boot : operation _ (session_terminate resources output_bytes session boot)
| op_unban ip : operation _ (ip_ban_remove resources output_bytes ip).

(** Each runs on its own and may be given up. *)
Inductive serving_host : @Task AdapterState HostChoice -> Prop :=
| serve_operation A (m : Hst AdapterError A) : operation A m -> serving_host (task (abandonable m)).

Definition adapter_reach : Pool AdapterState HostChoice * AdapterState ->
  Pool AdapterState HostChoice * AdapterState -> Prop :=
  pool_reach anything (fun tid s => (s.1, die tid s.2)) serving_host.

Section Proof.
Hypothesis apart : separate resources.
Hypothesis tamed : tame resources.

Lemma calm_is_good {E A} tid (m : Hst E A) :
  calm resources approved tid Good m ->
  triple (Rely tid) (Guar tid) anything tid Good m (fun _ => Good).
Proof. intros H. eapply triple_conseq; [exact H|done|]. by intros [a|e] s. Qed.

Lemma operation_good tid A (m : Hst AdapterError A) :
  operation A m -> triple (Rely tid) (Guar tid) anything tid Good m (fun _ => Good).
Proof.
  destruct 1 as [| ? ? ? ? ? Ap | | ? ? Ap | | | | | | | | | | | | | | | | | | | | | ].
  - exact (config_plan_good resources apart tamed approved _ tid _ _).
  - exact (config_apply_good resources apart tamed approved _ _ tid _ _ _ _ _ Ap).
  - exact (complete_plan_good resources apart tamed approved _ tid _).
  - exact (complete_apply_good resources apart tamed approved _ _ tid _ _ Ap).
  - exact (group_apply_good resources apart approved _ tid _ _ _ _).
  - exact (user_secret_apply_good resources apart tamed approved _ _ tid _ _ _ _ _ _).
  - exact (user_secret_apply_good resources apart tamed approved _ _ tid _ _ _ _ _ _).
  - exact (user_lock_state_good resources apart tamed approved _ _ tid _ _ _ _).
  - exact (user_lock_state_good resources apart tamed approved _ _ tid _ _ _ _).
  - exact (observe_good resources apart approved _ tid _ _ _ _).
  - exact (cleanup_users_good resources apart approved tid).
  - exact (cleanup_plans_good resources apart approved tid).
  - exact (cleanup_apply_good resources apart approved tid).
  - apply calm_is_good. unfold user_list. keep. apply calm_read_user_file. apply _.
  - apply calm_is_good. unfold group_list. keep. apply calm_read_user_file. apply _.
  - apply calm_is_good. unfold host_preflight, user_list, group_list.
    keep; first [apply calm_read_user_file|apply calm_ocserv_version|apply calm_fingerprint
      |apply calm_service_status|apply calm_session_list|apply calm_ip_ban_list]; first [done|apply _].
  - apply calm_is_good. by apply calm_session_list; [..|apply _].
  - apply calm_is_good. by apply calm_ip_ban_list; [..|apply _].
  - apply calm_is_good. by apply calm_service_status; [..|apply _].
  - apply calm_is_good. by apply calm_ocserv_version; [..|apply _].
  - apply calm_is_good. apply calm_fingerprint. apply _.
  - apply calm_is_good. by apply calm_reload; [..|apply _].
  - apply calm_is_good. unfold session_disconnect. keep. apply calm_boot_id. apply _.
  - apply calm_is_good. unfold session_terminate.
    keep; [apply calm_boot_id; apply _|by apply calm_ocserv_version; [..|apply _]].
  - apply calm_is_good. unfold ip_ban_remove. keep.
Qed.

(** Giving an operation up keeps what the others rely on. *)
Lemma abandonable_wp {E A} tid (m : Hst E A) Q : forall s,
  Good s -> wp (Rely tid) (Guar tid) anything tid m Q s ->
  wp (Rely tid) (Guar tid) anything tid (abandonable m) (fun _ _ => True) s.
Proof.
  induction m as [[a|e]|B a k IH]; simpl; intros s G0 W; [done|done|].
  intros s1 R c b s2 Hc Ef. pose proof (r_good _ _ _ _ _ R G0) as G1.
  destruct (hc_abandon c).
  - injection Ef as <- <-. destruct (dropped_good resources apart approved tid s1 (hc_kept c) G1) as [_ U].
    by split.
  - destruct (a tid c s1) as [[b' s']|] eqn:Ea; [|done]. injection Ef as <- <-.
    destruct (W s1 R c b' s' Hc Ea) as [U W']. split; [done|]. apply IH; [|done].
    by apply (u_good _ _ _ _ _ U).
Qed.

Lemma adapter_sound s0 T s : Good s0 -> adapter_reach (∅, s0) (T, s) -> Good s.
Proof.
  intros G0 H.
  refine (proj1 (pool_sound Rely Guar anything Good (fun tid s => (s.1, die tid s.2)) serving_host
    _ _ _ _ _ _ _ s0 (T, s) G0 H)).
  - intros tid x. apply Rely_preorder.
  - intros tid x y z. apply Rely_preorder.
  - intros tid tid' x y N Gx U. by eapply host_guar_rely.
  - intros tid x y Gx U. by apply (u_good _ _ _ _ _ U).
  - intros tid tid' x N Gx. eapply host_guar_rely; [exact N|done|by apply dead_good].
  - intros tid x Gx. by apply dead_good.
  - intros tid t x [A m Hm] Gx. simpl. eapply abandonable_wp; [done|by apply operation_good].
Qed.

End Proof.

(** A host before the daemon serves: the configuration is there with an approved
    digest, the user file can be read if it is there, and no operation is under
    way. *)
Record host_ready (s : AdapterState) : Prop := {
  hr_disk : wf_disk (hs_disk s.2);
  hr_config : config_good resources approved (hs_disk s.2);
  hr_user : user_good resources (hs_disk s.2);
  hr_idle : hs_armed s.2 = ∅ }.

Lemma ready_good s : host_ready s -> Good s.
Proof.
  intros [W C U I]. split; try done. intros t p. unfold armed_by. rewrite I, lookup_empty.
  by intros ?%not_elem_of_nil.
Qed.


End Together.

(** * What one operation leaves *)

Section Alone.
Context {crypto : Crypto} {text : RecordText} {platform : Platform} {ids : HostIds}.
Context {children : Children} {json : SerdeJson}.
Variable resources : FixedResources.
Variable output_bytes : Z.
Variable store_key : bytes.

(** The contents of a path. *)
Definition holds_text (d : HostDisk) (p : path) (b : bytes) : Prop :=
  exists n, hd_names d !! p = Some n /\ content d n = Some b.

Lemma holds_text_unique d p b b' : holds_text d p b -> holds_text d p b' -> b = b'.
Proof. intros (n & N & C) (n' & N' & C'). congruence. Qed.

(** The end of an operation removes only staging files. *)
Lemma dropped_text approved tid kept s p b :
  Good resources approved s -> p = fr_config resources \/ p = fr_user_file resources ->
  holds_text (hs_disk s.2) p b -> holds_text (hs_disk (drop_guards tid kept s.2)) p b.
Proof.
  intros G0 Hp (n & N & C).
  assert (same_at (hs_disk s.2) (hs_disk (drop_guards tid kept s.2)) p) as S.
  { apply (touches_flocks _ _ _ (hd_flocks (hs_disk (drop_guards tid kept s.2)))
      (touches_remove (armed_by tid s.2) kept _ (g_wf _ _ _ G0))). intros Hin.
    destruct (g_armed _ _ _ G0 tid p Hin) as (_ & N1 & N2). by destruct Hp. }
  exists n. split; [by rewrite (proj1 S)|]. by rewrite (same_at_content _ _ _ _ S N).
Qed.

Lemma own_text approved tid m h p n b s :
  own resources approved tid m h s -> h !! p = Some (n, b) -> holds_text (hs_disk s.2) p b.
Proof. intros O H. destruct (own_file _ _ _ _ _ _ O p n b H) as (_ & N & C). by exists n. Qed.

Lemma good_text approved s : Good resources approved s ->
  exists b, holds_text (hs_disk s.2) (fr_config resources) b.
Proof. intros G0. destruct (g_config _ _ _ G0) as (n & b & N & C & _). by exists b, n. Qed.

(** ** What a complete configuration is rendered from *)

Definition tls_directory_of (reference : NodeLocalTlsReference) : path :=
  fr_config_tls_root resources ++ [uuid_to_string (tls_secret_ref_id reference); tls_version reference].

Record rendered (candidate : CompleteConfigCandidate) (reference : NodeLocalTlsReference) (m : Materialized)
  : Prop := {
  rd_canonical : exists transcript, canonical candidate = Ok transcript;
  rd_reference : tls_reference (ccc_directives candidate) = Some reference;
  rd_id : length (tls_secret_ref_id reference) = 16%nat;
  rd_text : render_complete (tls_directory_of reference) reference (ccc_directives candidate) = Ok m }.

Lemma materialize_run candidate hash tid choices s m s' :
  run_alone tid (materialize_complete resources output_bytes candidate hash) choices s = (Some (Ok m), s') ->
  exists reference, rendered candidate reference m.
Proof.
  unfold materialize_complete. intros (t & Et & Hrun)%run_lift_ok. apply map_err_ok in Et.
  destruct (negb _); [done|].
  apply run_bind_ok in Hrun as (? & ? & ? & ? & _ & Hrun).
  apply run_bind_ok in Hrun as (? & ? & ? & ? & _ & Hrun). destruct (negb _); [done|].
  apply run_lift_ok in Hrun as (reference & Er%ok_or_Some & Hrun). exists reference.
  destruct (negb (len (tls_secret_ref_id reference) =? 16)) eqn:Ei; [done|].
  apply run_bind_ok in Hrun as (? & ? & ? & ? & _ & Hrun).
  apply run_lift_ok in Hrun as (? & _ & Hrun). destruct (negb (manifest_agrees _ _ _)); [done|].
  apply run_bind_ok in Hrun as (? & ? & ? & ? & _ & Hrun).
  apply run_bind_ok in Hrun as (? & ? & ? & ? & _ & Hrun).
  apply run_bind_ok in Hrun as (? & ? & ? & ? & _ & Hrun). destruct (_ <? node_len _); [done|].
  apply run_lift_ok in Hrun as (? & _ & Hrun). apply run_lift_ok in Hrun as (? & _ & Hrun).
  apply run_bind_ok in Hrun as (? & ? & ? & ? & _ & Hrun).
  apply run_bind_ok in Hrun as (? & ? & ? & ? & _ & Hrun).
  split; [by exists t|done|unfold len in Ei; lia|].
  by injection Hrun.
Qed.

(** ** Steps that leave the configuration alone *)

Section Kept.
Hypothesis apart : separate resources.
Hypothesis tamed : tame resources.

Definition kept_config (s s' : AdapterState) : Prop :=
  wf_disk (hs_disk s.2) ->
  wf_disk (hs_disk s'.2) /\ same_at (hs_disk s.2) (hs_disk s'.2) (fr_config resources).

Lemma kept_refl s : kept_config s s.
Proof. intros W. split; [done|apply same_at_refl]. Qed.

Lemma kept_trans s1 s2 s3 : kept_config s1 s2 -> kept_config s2 s3 -> kept_config s1 s3.
Proof.
  intros H1 H2 W. destruct (H1 W) as [W2 [N1 C1]], (H2 W2) as [W3 [N2 C2]].
  split; [done|]. split; [congruence|]. intros n Hn. rewrite C2 by congruence. by apply C1.
Qed.

Lemma kept_run {E A} (m : Hst E A) tid choices s r s' b :
  stays kept_config m -> run_alone tid m choices s = (r, s') -> wf_disk (hs_disk s.2) ->
  holds_text (hs_disk s.2) (fr_config resources) b -> holds_text (hs_disk s'.2) (fr_config resources) b.
Proof.
  intros H Hrun W (n & N & C).
  pose proof (stays_run kept_config m tid kept_refl kept_trans H choices s W) as [_ S]. rewrite Hrun in S. cbn [snd] in S.
  exists n. split; [by rewrite (proj1 S)|]. by rewrite (same_at_content _ _ _ _ S N).
Qed.

Lemma kept_look {A} (f : HostDisk -> result HostIo A) : stays kept_config (look f).
Proof.
  apply stays_act. intros tid c s r s' E. destruct (hc_fault c); [injection E as _ <-; apply kept_refl|].
  destruct (f _); injection E as _ <-; intros W; (split; [done|apply same_at_refl]).
Qed.

Lemma kept_child program args input :
  program ∈ [fr_systemctl resources; fr_ocserv resources; fr_occtl resources; fr_openssl resources] ->
  stays kept_config (execute_with_input output_bytes program args input).
Proof.
  intros Hp. apply stays_act. intros tid c s r s' E W.
  pose proof (tame_wf _ tamed program args input (hc_child c) _ W) as W'.
  assert (program <> fr_ocpasswd resources) as N by (intros ->; by apply (sep_program _ apart) in Hp).
  pose proof (tame_quiet _ tamed program args input (hc_child c) (hs_disk s.2) _ _ N (config_in resources)) as S.
  destruct (child_run _ _ _ _ _) as [e d]. injection E as _ <-. done.
Qed.

Lemma kept_flock n : stays kept_config (flock_handle n).
Proof.
  apply stays_act. intros tid c s r s' E W. cbv beta zeta in E.
  destruct (hc_fault c); [injection E as _ <-; by apply kept_refl|].
  destruct (hd_flocks _ !! n); [done|]. injection E as _ <-.
  destruct (touches_flocks _ _ _ (<[n := tid]> (hd_flocks (hs_disk s.2))) (touches_same _ W)) as [W' S].
  split; [exact W'|apply S, not_elem_of_nil].
Qed.

Lemma kept_lock_file p mode : p <> fr_config resources -> stays kept_config (open_or_create p mode).
Proof.
  intros Hp. apply stays_act. intros tid c s r s' E W. cbv beta zeta in E.
  destruct (hc_fault c); [injection E as _ <-; by apply kept_refl|].
  destruct (hd_names _ !! p) as [n|] eqn:En.
  { destruct (hd_nodes _ !! n); [destruct (_ || _)|]; injection E as _ <-; by apply kept_refl. }
  destruct (negb _); [injection E as _ <-; by apply kept_refl|].
  destruct (new_node _ _ _) as [n d] eqn:Ed. injection E as _ <-.
  destruct (touches_new _ _ _ _ _ W En Ed) as [[W' S] _]. split; [done|].
  apply S. by intros <-%list_elem_of_singleton.
Qed.

Ltac keep_config :=
  repeat first
    [ progress intros
    | match goal with
      | |- stays _ (pbind _ _) => apply stays_bind
      | |- stays _ (Done _) => apply stays_done
      | |- stays _ (pret _) => apply stays_done
      | |- stays _ (pthrow _) => apply stays_done
      | |- stays _ (plift _) => apply stays_done
      | |- stays _ (os _) => apply stays_map_err
      | |- stays _ (pmap_err _ _) => apply stays_map_err
      | |- stays _ (pcatch _) => apply stays_catch
      | |- stays _ (open_file _) => apply kept_look
      | |- stays _ (open_directory _) => apply kept_look
      | |- stays _ (fstat _) => apply kept_look
      | |- stays _ (stat _) => apply kept_look
      | |- stays _ (read_handle _) => apply kept_look
      | |- stays _ (flock_shared _) => apply kept_look
      | |- stays _ (flock_handle _) => apply kept_flock
      | |- stays _ (run_child _ _ _) => apply kept_child; fixed_program
      | |- stays _ (execute_with_input _ _ _ _) => apply kept_child; fixed_program
      | |- stays _ (match ?x with _ => _ end) => destruct x
      | |- stays _ (let '(_, _) := ?x in _) => destruct x
      end ].

Lemma kept_safe_file p mode : stays kept_config (safe_file p mode).
Proof.
  assert (forall uid names base n, stays kept_config (descend_closed uid base n names)) as HD.
  { intros uid names. induction names as [|name names IH]; intros base n; cbn [descend_closed]; keep_config; apply IH. }
  unfold safe_file. keep_config. apply HD.
Qed.

Lemma kept_read_public p max : stays kept_config (read_public_file p max).
Proof. unfold read_public_file. keep_config. apply kept_safe_file. Qed.

Lemma kept_materialize candidate hash :
  stays kept_config (materialize_complete resources output_bytes candidate hash).
Proof.
  unfold materialize_complete, check_certificate, check_authority, openssl.
  keep_config; first [apply kept_safe_file|apply kept_read_public].
Qed.

Lemma kept_lock_config tid choices s s' b : wf_disk (hs_disk s.2) ->
  holds_text (hs_disk s.2) (fr_config resources) b ->
  run_alone tid (lock_config_file (fr_config resources)) choices s = (Some (Ok tt), s') ->
  holds_text (hs_disk s'.2) (fr_config resources) b.
Proof.
  intros W Hb Hrun. eapply (kept_run (lock_config_file (fr_config resources))); [|exact Hrun|done|done].
  unfold lock_config_file, reject_symlink, pbind at 1, plift. simpl.
  destruct (parent_of (fr_config resources)) as [up|] eqn:Hup; [|done]. apply parent_of_Ok in Hup. keep_config.
  apply kept_lock_file. by apply (config_name resources apart up (str ".ocservia-config.lock") Hup eq_refl).
Qed.
End Kept.

(** The paths of the certificate files are plain when their root is. *)
Definition plain_root : Prop :=
  graphic (path_text (fr_config_tls_root resources))
  /\ len (path_text (fr_config_tls_root resources)) <= 3900.

Lemma reference_label ds : forall w w' reference,
  walk_directives w ds = Ok w' -> tls_reference ds = Some reference ->
  label (tls_version reference) 64 = true.
Proof.
  induction ds as [|d ds IH]; intros w w' reference; [done|]. cbn [walk_directives tls_reference].
  destruct (step_directive w d) as [w1|] eqn:E; [|done]. destruct (ccd_value d) as [[l|r]|] eqn:Ev; intros H.
  - by apply (IH w1 w').
  - intros [= <-]. unfold step_directive in E. rewrite Ev in E. cbn [ok_or] in E.
    destruct (bytes_leb _ _); [done|]. destruct (append_length _ _); [|done].
    destruct (_ || _) eqn:G in E; [done|]. rewrite !orb_false_iff in G.
    decompose [and] G. by apply negb_false_iff.
  - by apply (IH w1 w').
Qed.

Lemma path_text_app p q : path_text (p ++ q) = path_text p ++ path_text q.
Proof. unfold path_text. by rewrite fmap_app, concat_app. Qed.

Lemma path_text_cons name p : path_text (name :: p) = [x2f] ++ name ++ path_text p.
Proof. reflexivity. Qed.

Lemma plain_tls_path reference name p :
  plain_root -> length (tls_secret_ref_id reference) = 16%nat -> label (tls_version reference) 64 = true ->
  tls_path (tls_directory_of reference ++ [str "server-cert.pem"])
    (tls_directory_of reference ++ [str "server-key.pem"]) (tls_directory_of reference ++ [str "ca-cert.pem"])
    name = Ok p ->
  graphic p /\ len p <= 4096.
Proof.
  intros [Gr Lr] Hi [[Gv _] Lv]%label_graphic Hp.
  assert (forallb is_ascii_graphic (uuid_to_string (tls_secret_ref_id reference)) = true) as Gu.
  { eapply forallb_weaken; [|by apply uuid_string_chars]. by intros []. }
  assert (forall file, forallb is_ascii_graphic file = true -> len file <= 16 ->
    graphic (path_text (tls_directory_of reference ++ [file]))
    /\ len (path_text (tls_directory_of reference ++ [file])) <= 4096) as H.
  { intros file Gf Lf. unfold tls_directory_of. rewrite !path_text_app, !path_text_cons.
    change (path_text []) with (@nil byte). rewrite <- app_assoc. split.
    - apply graphic_app; [done|]. by rewrite !forallb_app, Gu, Gv, Gf.
    - unfold len in *. rewrite !length_app, uuid_string_length by done. simpl. lia. }
  unfold tls_path, path_to_str in Hp. repeat case_bool_decide; try done;
    (destruct (forallb utf8_valid _) in Hp; [|done]); injection Hp as <-; by apply H.
Qed.

(** The text written for an accepted candidate is a profile that holds exactly
    its directives and the worker's fixed lines. *)
Lemma rendered_reads_back candidate reference m :
  plain_root -> rendered candidate reference m ->
  exists es, Forall2 (written (tls_path (tls_directory_of reference ++ [str "server-cert.pem"])
      (tls_directory_of reference ++ [str "server-key.pem"]) (tls_directory_of reference ++ [str "ca-cert.pem"]))
      (shown_reference reference)) (ccc_directives candidate) es
    /\ profile_values (mz_bytes m) = Ok (list_to_map (es ++ FIXED_ENTRIES))
    /\ NoDup (es ++ FIXED_ENTRIES).*1.
Proof.
  intros [Gr Lr] [[t Hc] Hr Hi Ht]. unfold render_complete in Ht.
  destruct (render_directives _ _ _ _ _) as [[mat red]|] eqn:E; [|done]. injection Ht as <-.
  apply render_entries in E as (es & F & ->). exists es. split; [done|].
  assert (COMPLETE_HEADER = HEADER_LINE ++ [x0a]) as Eh by reflexivity.
  assert (FIXED_WORKER_CONFIG = concat ((fun l => l ++ [x0a]) <$> (line_text <$> FIXED_ENTRIES))) as Ef
    by reflexivity.
  assert (mz_bytes (mkMaterialized
    ((COMPLETE_HEADER ++ concat ((fun l => l ++ [x0a]) <$> (line_text <$> es))) ++ FIXED_WORKER_CONFIG)
    (red ++ FIXED_WORKER_CONFIG)) = entries_text (es ++ FIXED_ENTRIES)) as ->.
  { cbn [mz_bytes]. rewrite Ef, Eh. unfold entries_text. rewrite fmap_app.
    rewrite fmap_cons, concat_cons, fmap_app, concat_app. by rewrite <- !app_assoc. }
  eapply candidate_reads_back; [exact Hc| |exact F]. intros name p. apply plain_tls_path; [done|done|].
  destruct (canonical_ok _ _ Hc) as (w & W & _). by eapply reference_label.
Qed.

Section Config.
Context (candidate_hash expected_hash : bytes) (revision : Z).
Variable b0 : bytes.

(** The digests the configuration may have when it started as [b0]: another one
    only if [b0] is the text the command expects or proposes. *)
Definition may_become (x : bytes) : Prop :=
  x = sha256 b0
  \/ ((sha256 b0 = expected_hash \/ sha256 b0 = candidate_hash)
      /\ (x = expected_hash \/ x = candidate_hash)).

Lemma may_become_approves : approves may_become candidate_hash expected_hash.
Proof. intros x Hx He. unfold may_become in *. naive_solver. Qed.

Lemma own_may_become tid m h s :
  own resources (eq (sha256 b0)) tid m h s -> own resources may_become tid m h s.
Proof.
  intros [[W (n & b & N & C & E) U A] H F]. split; [|done|done]. split; try done.
  exists n, b. split_and!; [done|done|]. by left.
Qed.

Lemma good_may_become s : Good resources (eq (sha256 b0)) s -> Good resources may_become s.
Proof.
  intros [W (n & b & N & C & E) U A]. split; try done. exists n, b. split_and!; [done|done|]. by left.
Qed.

(** What an apply has left and said when it returns. *)
Definition truthful (named : bytes) (r : result AdapterError ConfigApplyResult) (s' : AdapterState) : Prop :=
  exists b, holds_text (hs_disk s'.2) (fr_config resources) b /\ may_become (sha256 b)
    /\ match r with
       | Ok result => reported named candidate_hash expected_hash revision result b
       | Err _ => True
       end
    /\ (sha256 b0 <> expected_hash -> sha256 b0 <> candidate_hash -> is_ok r = false).

Lemma error_truthful named e s' : Good resources may_become s' -> truthful named (Err e) s'.
Proof.
  intros G1. destruct (g_config _ _ _ G1) as (n & b & N & C & E). exists b.
  split_and!; [by exists n|done|done|done].
Qed.

Section Runs.
Hypothesis apart : separate resources.
Hypothesis tamed : tame resources.
Variable tid : nat.

(** A run that returns a result: it is the truth, the configuration it found was
    accepted, and what it leaves when nothing went wrong is the candidate, or
    what it found if that has the candidate's digest. *)
Lemma validated_truthful candidate identity complete choices s result s' b1 :
  sha256 candidate = candidate_hash -> Good resources (eq (sha256 b0)) s ->
  holds_text (hs_disk s.2) (fr_config resources) b1 ->
  run_alone tid (apply_validated_config resources output_bytes store_key candidate candidate_hash
                   expected_hash revision identity complete) choices s = (Some (Ok result), s') ->
  truthful candidate_hash (Ok result) s'
  /\ accepted candidate candidate_hash expected_hash complete b1
  /\ exists b, holds_text (hs_disk s'.2) (fr_config resources) b
       /\ (cares_failed_critical result = false -> cares_rolled_back result = false ->
           in_place candidate candidate_hash b1 b).
Proof.
  intros Hd G0 Hb1 Hrun. apply run_scoped in Hrun as (c1 & s1 & kept & Hrun & ->).
  apply run_lock in Hrun as [HN [c2 Hrun]].
  apply run_bind_ok in Hrun as (c4 & c5 & [] & s3 & H3 & Hrun).
  assert (own resources (eq (sha256 b0)) tid ConfigPlanLock ∅ (with_mutex ConfigPlanLock tid s)) as O2.
  { refine (run_triple _ _ _ _ _ _ [mkHostChoice false 0 [] None 0 0 [] None [] false] _ (Ok tt) _ (triple_lock (E := AdapterError) resources (eq (sha256 b0)) tid _) G0 _).
    simpl. by rewrite HN. }
  pose proof (kept_lock_config apart _ _ _ _ b1 (g_wf _ _ _ (own_good _ _ _ _ _ _ O2)) Hb1 H3) as Hb3.
  pose proof (run_triple _ _ _ _ _ _ _ _ _ _ (lock_config_calm resources apart (eq (sha256 b0)) tid) O2 H3) as O3.
  destruct (own_config resources (eq (sha256 b0)) tid ∅ s3 O3) as (n & b1' & O4 & E1); [done|].
  assert (b1' = b1) as ->.
  { eapply holds_text_unique; [|exact Hb3]. eapply own_text; [exact O4|apply lookup_insert_eq]. }
  assert (may_become (sha256 b1)) as A1 by (by left).
  pose proof (run_triple _ _ _ _ _ _ _ _ _ _ (triple_apply_known resources apart tamed may_become output_bytes
    store_key tid candidate candidate_hash expected_hash revision identity may_become_approves Hd
    complete n b1 A1) (own_may_become _ _ _ _ O4) Hrun) as [(k & b & O & Hrep & Hin) Acc].
  pose proof (own_good _ _ _ _ _ _ O) as G1.
  assert (holds_text (hs_disk s1.2) (fr_config resources) b) as Hb
    by (eapply own_text; [exact O|apply lookup_insert_eq]).
  assert (holds_text (hs_disk (drop_guards tid kept s1.2)) (fr_config resources) b) as Hb'
    by (eapply dropped_text; [exact G1|by left|done]).
  split; [|split; [done|by exists b]]. exists b. split_and!; [done| |done|].
  - destruct (g_config _ _ _ G1) as (n' & b' & N & C & E).
    assert (b' = b) as <-; [|done]. eapply holds_text_unique; [by exists n'|exact Hb].
  - intros N1 N2. destruct (ac_digest _ _ _ _ _ Acc); congruence.
Qed.

(** What comes before a complete apply changes no protected file. *)
Lemma complete_run request identity choices s result s' b1 :
  Good resources (eq (sha256 b0)) s -> holds_text (hs_disk s.2) (fr_config resources) b1 ->
  run_alone tid (complete_config_apply resources output_bytes store_key request identity) choices s
    = (Some (Ok result), s') ->
  exists candidate reference m s1 c1 r1, cca_candidate request = Some candidate
    /\ rendered candidate reference m
    /\ sha256 (mz_bytes m) = cca_materialized_hash request /\ Good resources (eq (sha256 b0)) s1
    /\ holds_text (hs_disk s1.2) (fr_config resources) b1
    /\ result = named_for (cca_candidate_hash request) r1
    /\ run_alone tid (apply_validated_config resources output_bytes store_key (mz_bytes m)
         (cca_materialized_hash request) (cca_expected_current_hash request)
         (cca_desired_revision request) identity true) c1 s1 = (Some (Ok r1), s').
Proof.
  intros G0 Hb1 Hrun. apply run_lift_ok in Hrun as (candidate & Ec%ok_or_Some & Hrun).
  apply run_bind_ok in Hrun as (c1 & c2 & m & s1 & H1 & Hrun).
  destruct (materialize_run _ _ _ _ _ _ _ H1) as [reference Hm].
  apply run_lift_ok in Hrun as (expiry & _ & Hrun).
  apply run_bind_ok in Hrun as (c3 & c4 & now & s2 & H2 & Hrun).
  destruct (stale_request _ _ _ _ _) eqn:Hs; [by destruct c4|].
  apply run_bind_ok in Hrun as (c5 & c6 & f & s3 & H3 & Hrun).
  apply run_bind_ok in Hrun as (c7 & c8 & r1 & s4 & H4 & Hrun).
  assert (s4 = s' /\ result = named_for (cca_candidate_hash request) r1) as [-> ->]
    by (destruct c8; by injection Hrun).
  pose proof (run_triple _ _ _ _ _ _ _ _ _ _ (calm_materialize resources apart tamed (eq (sha256 b0))
    output_bytes tid _ candidate (cca_candidate_hash request)) G0 H1) as G1.
  pose proof (run_triple _ _ _ _ _ _ _ _ _ _ (calm_now_seconds resources (eq (sha256 b0)) tid _) G1 H2) as G2.
  pose proof (run_triple _ _ _ _ _ _ _ _ _ _ (calm_safe_file resources (eq (sha256 b0)) tid _ _ _) G2 H3) as G3.
  exists candidate, reference, m, s3, c7, r1. split_and!; [done|done|by eapply fresh_digest|done| |done|done].
  eapply (kept_run _ _ _ _ _ _ _ (kept_safe_file _ _) H3 (g_wf _ _ _ G2)).
  assert (s2 = s1) as -> by (destruct c3; by injection H2).
  by apply (kept_run _ _ _ _ _ _ _ (kept_materialize apart tamed _ _) H1 (g_wf _ _ _ G0)).
Qed.

End Runs.

(** The two requests to replace the configuration, and the hash each is known
    by. *)
Inductive apply_request : bytes -> Hst AdapterError ConfigApplyResult -> Prop :=
| plain_request candidate identity :
    apply_request candidate_hash
      (config_apply resources output_bytes store_key candidate candidate_hash expected_hash revision identity)
| complete_request request identity :
    cca_materialized_hash request = candidate_hash -> cca_expected_current_hash request = expected_hash ->
    cca_desired_revision request = revision ->
    apply_request (cca_candidate_hash request)
      (complete_config_apply resources output_bytes store_key request identity).

Lemma apply_request_good named m tid :
  separate resources -> tame resources -> apply_request named m ->
  triple (Rely resources may_become tid) (Guar resources may_become tid) (fun _ => True) tid
    (Good resources may_become) m (fun _ => Good resources may_become).
Proof.
  intros Ha Ht [candidate identity|request identity Hc He Hr].
  - apply config_apply_good; [done|done|]. apply may_become_approves.
  - apply complete_apply_good; [done|done|]. rewrite Hc, He. apply may_become_approves.
Qed.

(** C7. An apply tells the truth, whatever fails, with a plain candidate or a
    complete configuration: when it returns a result that is not marked
    critical, the digest it reports is the digest of the configuration on disk
    at that moment, the candidate's with the revision applied or, when it
    reports a rollback, the expected one with revision 0.  When it returns an
    error or a critical failure, the configuration is still a complete text:
    the one before, the candidate, or the expected one; and a configuration
    that is neither the expected nor the candidate one is left untouched and no
    result is reported. *)
Theorem config_apply_truthful named m tid choices s r s' :
  separate resources -> tame resources ->
  host_ready resources (eq (sha256 b0)) s -> apply_request named m ->
  run_alone tid m choices s = (Some r, s') ->
  truthful named r s'.
Proof.
  intros Ha Ht Hr Hm Hrun. apply ready_good in Hr as G0. destruct r as [result|e].
  - destruct Hm as [candidate identity|request identity Hc He Hrev].
    + unfold config_apply in Hrun. destruct (_ || _) eqn:Hd; [done|].
      apply orb_false_iff in Hd as [_ Hd%negb_false_iff%bool_decide_eq_true].
      destruct (negb _); [done|]. apply run_lift_ok in Hrun as (u & _ & Hrun).
      destruct (names_secret candidate); [done|].
      destruct (good_text _ _ G0) as [b1 Hb1]. by eapply validated_truthful.
    + destruct (good_text _ _ G0) as [b1 Hb1].
      eapply complete_run in Hrun as (? & ? & m' & s1 & c1 & r1 & _ & _ & Hd & G1 & Hb2 & -> & Hrun); [|done..].
      rewrite Hc, He, Hrev in *. eapply validated_truthful in Hrun as [(b' & Hb & Hm & (_ & Hp) & He') _];
        [|done..]. exists b'. split_and!; try done.
  - eapply error_truthful, (run_triple _ _ _ _ _ _ _ _ _ _ (apply_request_good named m tid Ha Ht Hm));
      [by apply good_may_become|exact Hrun].
Qed.

End Config.

Lemma reload_bindings_agree current candidate :
  validate_reload_bindings current candidate = Ok tt ->
  exists vc vp, profile_values current = Ok vc /\ profile_values candidate = Ok vp
    /\ forall name, name ∈ STARTUP_BINDINGS -> vc !! name = vp !! name.
Proof.
  unfold validate_reload_bindings. intros E. invert_ok E. eexists _, _. split_and!; [done|done|].
  intros name Hn. apply dec_stable. intros N.
  apply not_true_iff_false in Hguard. apply Hguard, existsb_exists. exists name.
  split; [by apply list_elem_of_In|]. by rewrite bool_decide_false.
Qed.

(** What a complete configuration says: a profile with exactly the text of each
    directive of the candidate and the worker's fixed lines. *)
Definition says_candidate (candidate : CompleteConfigCandidate) (reference : NodeLocalTlsReference)
    (values : gmap bytes bytes) : Prop :=
  exists es, Forall2 (written (tls_path (tls_directory_of reference ++ [str "server-cert.pem"])
      (tls_directory_of reference ++ [str "server-key.pem"]) (tls_directory_of reference ++ [str "ca-cert.pem"]))
      (shown_reference reference)) (ccc_directives candidate) es
    /\ NoDup (es ++ FIXED_ENTRIES).*1 /\ values = list_to_map (es ++ FIXED_ENTRIES).

(** C8. Applying a complete configuration puts in place what the candidate says
    and never changes what ocserv reads only when it starts: when the apply
    reports the candidate in place (no rollback, no critical failure), the
    configuration on disk is a text with the digest the request names that reads
    back as exactly the candidate's directives, each once, with the worker's
    fixed lines (or it is the text that was there before, unchanged, and that
    text has this digest); and this text agrees with the configuration before
    on every startup binding (the authentication, the ports, the socket, the
    worker's user and group, the certificate files). *)
Theorem complete_apply_in_place b0 request identity tid choices s result s' :
  separate resources -> tame resources -> plain_root -> host_ready resources (eq (sha256 b0)) s ->
  holds_text (hs_disk s.2) (fr_config resources) b0 ->
  run_alone tid (complete_config_apply resources output_bytes store_key request identity) choices s
    = (Some (Ok result), s') ->
  cares_failed_critical result = false -> cares_rolled_back result = false ->
  exists candidate reference desired vc vp, cca_candidate request = Some candidate
    /\ sha256 desired = cca_materialized_hash request
    /\ (holds_text (hs_disk s'.2) (fr_config resources) desired
        \/ (holds_text (hs_disk s'.2) (fr_config resources) b0 /\ sha256 b0 = cca_materialized_hash request))
    /\ profile_values b0 = Ok vc /\ profile_values desired = Ok vp
    /\ says_candidate candidate reference vp
    /\ forall name, name ∈ STARTUP_BINDINGS -> vc !! name = vp !! name.
Proof.
  intros Ha Ht Hp G0%ready_good Hb0 Hrun Hf Hrb.
  eapply (complete_run b0) in Hrun as (candidate & reference & m & s1 & c1 & r1 & Ec & Hm & Hd & G1 & Hb1 & -> & Hrun);
    [|done..].
  eapply (validated_truthful _ _ _ b0) in Hrun as (_ & Acc & b & Hb & Hin); [|done..].
  apply ac_bindings in Acc; [|done]. apply reload_bindings_agree in Acc as (vc & vp & Ev & Ep & Hall).
  destruct (rendered_reads_back _ _ _ Hp Hm) as (es & F & Em & ND).
  exists candidate, reference, (mz_bytes m), vc, vp. split_and!; try done.
  - destruct (Hin Hf Hrb) as [->|[-> E]]; [by left|by right].
  - exists es. split_and!; [done|done|congruence].
Qed.

End Alone.

(** What a change of the user file has done when it returns. *)

(** * Steps that leave the effect store alone *)

Definition same_db (s s' : AdapterState) : Prop := s'.1 = s.1.

Lemma same_db_run {E A} (m : Hst E A) tid choices s r s' :
  stays same_db m -> run_alone tid m choices s = (r, s') -> s'.1 = s.1.
Proof.
  intros H Hrun. pose proof (stays_run same_db m tid (fun s => eq_refl)) as HS.
  specialize (HS ltac:(unfold same_db; congruence) H choices s). by rewrite Hrun in HS.
Qed.

Lemma same_db_sys {A} (f : HostDisk -> result HostIo (A * HostDisk)) : stays same_db (sys f).
Proof.
  apply stays_act. intros tid c s b s' E0. destruct (hc_fault c); [by injection E0 as _ <-|].
  by destruct (f _) as [[a d]|e]; injection E0 as _ <-.
Qed.

Lemma same_db_create {ids : HostIds} p mode : stays same_db (create_exclusive p mode).
Proof.
  apply stays_act. intros tid c s b s' E0. cbv beta zeta in E0.
  destruct (hc_fault c); [by injection E0 as _ <-|].
  destruct (bool_decide _); [by injection E0 as _ <-|].
  by destruct (negb _); injection E0 as _ <-.
Qed.

Lemma same_db_write n b : stays same_db (write_handle n b).
Proof. apply stays_act. intros tid c s r s' E0. by injection E0 as _ <-. Qed.

Ltac keep_db :=
  repeat first
    [ progress intros
    | match goal with
      | |- stays _ (pbind _ _) => apply stays_bind
      | |- stays _ (Done _) => apply stays_done
      | |- stays _ (pret _) => apply stays_done
      | |- stays _ (pthrow _) => apply stays_done
      | |- stays _ (plift _) => apply stays_done
      | |- stays _ (os _) => apply stays_map_err
      | |- stays _ (pcatch _) => apply stays_catch
      | |- stays _ (look _) => apply same_db_sys
      | |- stays _ (open_file _) => apply same_db_sys
      | |- stays _ (open_directory _) => apply same_db_sys
      | |- stays _ (fstat _) => apply same_db_sys
      | |- stays _ (read_handle _) => apply same_db_sys
      | |- stays _ (sync_handle _) => apply same_db_sys
      | |- stays _ (chown_handle _ _ _) => apply same_db_sys
      | |- stays _ (chmod_handle _ _) => apply same_db_sys
      | |- stays _ (write_handle _ _) => apply same_db_write
      | |- stays _ (create_exclusive _ _) => apply same_db_create
      | |- stays _ now_uuid => apply stays_act; let E0 := fresh in intros ? ? ? ? ? E0; by injection E0 as _ <-
      | |- stays _ (arm _) => apply stays_act; let E0 := fresh in intros ? ? ? ? ? E0; by injection E0 as _ <-
      | |- stays _ (check_resource _ _ _ _) => unfold check_resource
      | |- stays _ (match ?x with _ => _ end) => destruct x
      | |- stays _ (let '(_, _) := ?x in _) => destruct x
      end ].

Section Outcome.
Context {crypto : Crypto} {text : RecordText} {platform : Platform} {ids : HostIds}.
Variable resources : FixedResources.
Variable store_key : bytes.

Lemma same_db_place p : stays same_db (open_user_directory p).
Proof.
  assert (forall n uid, stays same_db (validate_user_directory n uid)) as HV.
  { intros n uid. unfold validate_user_directory. keep_db. }
  assert (forall uid names base, stays same_db (descend uid base names)) as HD.
  { intros uid names. induction names as [|name names IH]; intros base; cbn [descend]; keep_db; [apply HV|apply IH]. }
  unfold open_user_directory. keep_db; auto.
Qed.

Lemma same_db_read p optional : stays same_db (read_user_file p optional).
Proof.
  unfold read_user_file, validate_authoritative_user_file. keep_db; apply same_db_place.
Qed.

Lemma same_db_stage b : stays same_db (stage_user_file resources b).
Proof.
  unfold stage_user_file, read_optional_user_file, set_authoritative_user_metadata.
  keep_db; first [apply same_db_place|apply same_db_read].
Qed.

Lemma same_db_normalize p : stays same_db (normalize_and_read_user_staging p).
Proof.
  unfold normalize_and_read_user_staging, set_authoritative_user_metadata.
  keep_db; first [apply same_db_place|apply same_db_read].
Qed.

(** The state an operation finds under the mutex of the user file. *)
Lemma locked_known approved tid s n0 b0 :
  separate resources -> Good resources approved s -> hs_mutex s.2 UserFileLock = None ->
  hd_names (hs_disk s.2) !! fr_user_file resources = Some n0 -> content (hs_disk s.2) n0 = Some b0 ->
  own resources approved tid UserFileLock {[fr_user_file resources := (n0, b0)]}
    (with_mutex UserFileLock tid s).
Proof.
  intros Ha G0 Hm N C. split.
  - split; [apply G0..|]. intros t p Hp. destruct (g_armed _ _ _ G0 t p Hp) as ((m & A & Ht) & Hn).
    split; [|done]. exists m. split; [done|]. unfold holds in *. simpl. rewrite fn_lookup_insert_ne; [done|].
    congruence.
  - unfold holds. simpl. by rewrite fn_lookup_insert.
  - intros p n b Hp. apply lookup_singleton_Some in Hp as [<- [= <- <-]]. split; [apply user_in|done].
Qed.

Section Group.
Context (group_name : bytes) (members : list bytes) (revision : Z) (identity : EffectIdentity).
Context (approved : bytes -> Prop) (tid : nat) (n0 : nat) (b0 : bytes).
Hypothesis apart : separate resources.

Abbreviation user := (fr_user_file resources).
Abbreviation K := ({[user := (n0, b0)]} : gmap path (nat * bytes)).
Abbreviation users := (own resources approved tid UserFileLock).

Lemma only_K p : p <> user -> K !! p = None.
Proof. intros N. by rewrite lookup_singleton_ne. Qed.

(** The store had this effect recorded as applied before. *)
Definition recorded_applied (d : EffectDb) (after : bytes) : Prop :=
  exists clock faults,
    fst (prepare store_key clock (str "group_apply") group_name revision identity b0 after (mkConn d faults))
    = Ok AlreadyApplied.

(** From a staging file with known contents, a commit that succeeds has
    published them, unless they were applied before. *)
Lemma commit_run p n after choices s u s' :
  staging_of resources p -> users (<[p := (n, after)]> K) s ->
  run_alone tid (commit_desired_staging resources store_key p b0 (str "group_apply") group_name revision
                   identity) choices s = (Some (Ok u), s') ->
  (exists k, users {[user := (k, after)]} s') \/ (users K s' /\ recorded_applied s.1 after).
Proof.
  intros St O Hrun.
  apply run_bind_ok in Hrun as (c1 & c2 & x & s1 & H1 & Hrun).
  destruct (run_triple _ _ _ _ _ _ _ _ _ _ (triple_normalize_known resources apart approved tid K only_K p n after St)
    O H1) as [O1 ->]. pose proof (same_db_run _ _ _ _ _ _ (same_db_normalize p) H1) as D1.
  apply run_lift_ok in Hrun as (records & Hr & Hrun).
  apply run_bind_ok in Hrun as (c3 & c4 & [] & s2 & H2 & Hrun).
  assert (s2 = s1) as ->.
  { destruct c3 as [|c c3]; [done|]. simpl in H2. destruct (hc_open c); [done|]. by injection H2 as <-. }
  apply run_bind_ok in Hrun as (c5 & c6 & preparation & s3 & H3 & Hrun).
  pose proof (run_triple _ _ _ _ _ _ _ _ _ _ (calm_effect resources approved tid
    (users (<[p := (n, after)]> K)) _) O1 H3) as O3. simpl in O3.
  assert (exists clock faults, fst (prepare store_key clock (str "group_apply") group_name revision identity
    b0 after (mkConn s.1 faults)) = Ok preparation) as Hp.
  { destruct c5 as [|c c5]; [done|]. simpl in H3. rewrite D1 in H3.
    destruct (prepare _ _ _ _ _ _ _ _ _) as [rr conn] eqn:Ep. injection H3 as -> _.
    exists (hc_clock c), (hc_statements c). by rewrite Ep. }
  destruct preparation.
  - left. apply run_bind_ok in Hrun as (c7 & c8 & [] & s4 & H4 & Hrun).
    assert (is_ok (parse_secret_user_records after) = true) as Hok by (by rewrite Hr).
    destruct (run_triple _ _ _ _ _ _ _ _ _ _ (triple_publish_user resources apart approved tid K only_K p n after
      St Hok) O3 H4) as [k O4]. exists k.
    apply run_bind_ok in Hrun as (c9 & c10 & [] & s5 & H5 & H6).
    pose proof (run_triple _ _ _ _ _ _ _ _ _ _ (triple_disarm resources approved tid UserFileLock
      {[user := (k, after)]} p) O4 H5) as O5. simpl in O5.
    exact (run_triple _ _ _ _ _ _ _ _ _ _ (calm_effect resources approved tid
      (users {[user := (k, after)]}) _) O5 H6).
  - right. split; [|exact Hp].
    pose proof (run_triple _ _ _ _ _ _ _ _ _ _ (triple_remove_staging resources apart approved tid K only_K p n after
      St) O3 Hrun) as O4. exact O4.
Qed.

(** The body under the mutex, when it succeeds. *)
Lemma group_run choices s r s' :
  users K s ->
  run_alone tid
    (b <- read_optional_user_file user ;;
     output <- plift (group_contents group_name members b) ;;
     staging <- stage_user_file resources output ;;
     commit_desired_staging resources store_key staging b (str "group_apply") group_name revision identity ;;;
     pret true) choices s = (Some (Ok r), s') ->
  exists after, group_contents group_name members b0 = Ok after
    /\ ((exists k, users {[user := (k, after)]} s') \/ (users K s' /\ recorded_applied s.1 after)).
Proof.
  intros O Hrun. apply run_bind_ok in Hrun as (c1 & c2 & b & s1 & H1 & Hrun).
  destruct (run_triple _ _ _ _ _ _ _ _ _ _ (triple_read_current resources apart approved tid K) O H1) as [O1 Hb].
  specialize (Hb n0 b0 (lookup_singleton_eq _ _)). subst b.
  pose proof (same_db_run _ _ _ _ _ _ (same_db_read user true) H1) as D1.
  apply run_lift_ok in Hrun as (after & Hg & Hrun). exists after. split; [done|].
  apply run_bind_ok in Hrun as (c3 & c4 & p & s2 & H2 & Hrun).
  destruct (run_triple _ _ _ _ _ _ _ _ _ _ (triple_stage resources apart approved tid K only_K after) O1 H2)
    as (n & O2 & St).
  pose proof (same_db_run _ _ _ _ _ _ (same_db_stage _) H2) as D2.
  apply run_bind_ok in Hrun as (c5 & c6 & [] & s3 & H3 & Hrun).
  assert (s' = s3) as -> by (destruct c6; simpl in Hrun; congruence).
  rewrite <- D1, <- D2. by eapply commit_run.
Qed.

End Group.

(** C9. Changing a group is all or nothing, and reported as what it was: for
    every sequence of failing calls, when [group_apply] returns, the user file
    has either its old contents or exactly the old contents with the group's
    members replaced; when it reports success, the new contents are in place
    unless the effect store had this very effect recorded as applied before. *)
Theorem group_apply_all_or_nothing approved group_name members revision identity b0 tid choices s r s' :
  separate resources -> host_ready resources approved s ->
  holds_text (hs_disk s.2) (fr_user_file resources) b0 ->
  run_alone tid (group_apply resources store_key group_name members revision identity) choices s
    = (Some r, s') ->
  exists b, holds_text (hs_disk s'.2) (fr_user_file resources) b
    /\ (b = b0 \/ group_contents group_name members b0 = Ok b)
    /\ (is_ok r = true -> exists after, group_contents group_name members b0 = Ok after
         /\ (b = after \/ recorded_applied group_name revision identity b0 s.1 after)).
Proof.
  intros Ha Hr (n0 & N & C) Hrun. pose proof (ready_good _ _ _ Hr) as G0.
  unfold group_apply in Hrun. destruct (validate_group_request _ _ _) as [u|e].
  2:{ destruct choices; injection Hrun as <- <-; exists b0; (split_and!; [by exists n0|by left|done]). }
  apply run_scoped in Hrun as (c1 & s1 & kept & Hrun & ->).
  apply run_lock in Hrun as [Hm [c2 Hrun]].
  pose proof (locked_known approved tid s n0 b0 Ha G0 Hm N C) as O.
  assert (forall k b s2, own resources approved tid UserFileLock {[fr_user_file resources := (k, b)]} s2 ->
    holds_text (hs_disk (drop_guards tid kept s2.2)) (fr_user_file resources) b) as HT.
  { intros k b s2 O2. eapply dropped_text; [by eapply own_good|by right|].
    eapply own_text; [exact O2|apply lookup_singleton_eq]. }
  destruct r as [x|e].
  - destruct (group_run group_name members revision identity approved tid n0 b0 Ha _ _ _ _ O Hrun)
      as (after & Hg & [[k O2]|[O2 Hrec]]).
    + exists after. split_and!; [by eapply HT|by right|]. intros _. exists after. auto.
    + exists b0. split_and!; [by eapply HT|by left|]. intros _. exists after. auto.
  - destruct (run_triple _ _ _ _ _ _ _ _ _ _ (triple_group resources Ha approved store_key tid _
      (only_K n0 b0) group_name members revision identity) O Hrun) as [O2|(k & after & O2 & _ & b & Hb & Hg)].
    + exists b0. split_and!; [by eapply HT|by left|done].
    + exists after. split_and!; [by eapply HT| |done]. right.
      by rewrite <- (Hb n0 b0 (lookup_singleton_eq _ _)).
Qed.

End Outcome.
