(* ===== verification/AdapterWitnesses.v ===== *)
(** A host on which the operations of the adapter run: the paths the daemon is
    built with, programs that answer as they should, a configuration and a user
    file. *)

From stdpp Require Import functions base list gmap numbers countable strings sorting relations.
From Stdlib Require Import ZArith Lia Bool Strings.Byte.
From S2P Require Import Prelude Bytes Text Contracts Authorization Sql Executor Utf8.
From S2P Require Import EffectRecords EffectStore EffectWitnesses Concurrency Files UpgradeRecords UpgradeWitnesses.
From S2P Require Import UpgradeRunner PrivdProtocol AdapterText AdapterTextFacts HostFiles Adapter AdapterLogic.
From S2P Require Import ConfigProfile UserFileTheorems CandidateTheorems SemanticFacts.
From S2P Require Import AdapterProofs ConfigApplyProofs UserOperationProofs AdapterTheorems.

Local Open Scope Z_scope.
Local Open Scope prog_scope.

#[local] Existing Instance up_crypto.
#[local] Existing Instance up_text.
#[local] Existing Instance up_platform.
#[local] Instance root_ids : HostIds := {| geteuid := 0; getegid := 0 |}.
#[local] Instance host_json : SerdeJson := {| json_from_slice := fun _ => Some (JArray []);
     tls_manifest_from_slice := fun _ => None |}.

(** [FixedResources::default]. *)
Definition default_resources : FixedResources :=
  mkFixedResources (fixed_path "usr/bin/systemctl") (fixed_path "usr/sbin/ocserv")
    (fixed_path "usr/bin/occtl") (fixed_path "etc/ocserv/ocserv.conf")
    (fixed_path "proc/sys/kernel/random/boot_id") (fixed_path "usr/bin/ocpasswd")
    (fixed_path "etc/ocserv/ocpasswd") (fixed_path "usr/bin/openssl")
    (fixed_path "etc/ocservia/user-password-seal-private.pem") (str "user-default")
    (fixed_path "etc/ocservia/p12-password-seal-private.pem") (str "p12-default")
    (fixed_path "var/lib/ocservia-privd/certificates")
    (fixed_path "etc/ocservia-agent/config-tls").

(** Programs that change nothing; the service is running. *)
#[local] Instance healthy_programs : Children :=
  {| child_run := fun program args _ _ d =>
       (Exited (Some 0)
          (if bool_decide (program = fr_systemctl default_resources)
           then str "LoadState=loaded" ++ [x0a] ++ str "ActiveState=active" ++ [x0a]
                ++ str "SubState=running" ++ [x0a]
           else []) [], d) |}.

Lemma default_separate : separate default_resources.
Proof.
  split.
  - intros p [->|(up & name & Hup & -> & Hn)] [Hp|(up' & file & name' & Hup' & Hf & Hp & Hn')].
    + vm_compute in Hp. discriminate Hp.
    + vm_compute in Hup'. injection Hup' as <-. vm_compute in Hf. injection Hf as <-.
      vm_compute in Hp. injection Hp as <-. vm_compute in Hn'. discriminate Hn'.
    + vm_compute in Hup. injection Hup as <-. vm_compute in Hp. injection Hp as ->.
      vm_compute in Hn. discriminate Hn.
    + assert (Some up = Some up') as [= ->] by (rewrite <- Hup, <- Hup'; reflexivity). apply app_inj_2 in Hp as [_ [= <-]]; [|done].
      vm_compute in Hf. injection Hf as <-. revert Hn Hn'. unfold starts_with.
      rewrite !bool_decide_eq_true. intros H1 H2.
      destruct (strip_prefix (str ".ocservia-") name) eqn:E1; [|done].
      destruct (strip_prefix (user_staging_prefix _) name) eqn:E2; [|done].
      apply strip_prefix_Some in E1, E2. rewrite E1 in E2. discriminate E2.
  - intros name Hn. vm_compute in Hn. injection Hn as <-. reflexivity.
  - apply (bool_decide_unpack _). vm_compute. exact I.
Qed.

Lemma healthy_tame : tame default_resources.
Proof. split; intros; simpl; [done|apply same_at_refl..]. Qed.

(** * The disk *)

Definition dir_node : Node := mkNode Directory 0 0 (oct 7 5 5) 2 0.
Definition file_node (b : bytes) : Node := mkNode (Regular b) 0 0 (oct 6 0 0) 1 0.

Definition old_config : bytes := str "tcp-port = 443" ++ [x0a].
Definition host_disk : HostDisk :=
  mkHostDisk {[ [] := 0%nat; fixed_path "etc" := 1%nat; fixed_path "etc/ocserv" := 2%nat;
                fixed_path "etc/ocserv/ocserv.conf" := 3%nat; fixed_path "etc/ocserv/ocpasswd" := 4%nat ]}
    {[ 0%nat := dir_node; 1%nat := dir_node; 2%nat := dir_node; 3%nat := file_node old_config;
       4%nat := file_node sample_file ]} 5 ∅.

Definition host_before : AdapterState := (empty_store, mkHostState host_disk (fun _ => None) ∅).

Definition fine (k : Z) : HostChoice :=
  mkHostChoice false 0 (v7 k) (Some 1000) k 0 [] None [] false.
Definition fine_run : list HostChoice := (fun k => fine (Z.of_nat k)) <$> seq 1 120.

Definition effect_by (command : Z) : EffectIdentity :=
  mkEffectIdentity (v7 command) (v7 (command + 1)) (be 32 5) 100000.

(** * Runs *)

Lemma wf_disk_check d :
  NoDup (map_to_list (hd_names d)).*2 ->
  Forall (fun kv => (kv.2 < hd_next d)%nat) (map_to_list (hd_names d)) -> wf_disk d.
Proof.
  intros ND F. split.
  - intros p q n Hp Hq. apply elem_of_map_to_list in Hp, Hq.
    apply list_elem_of_lookup in Hp as [i Hi], Hq as [j Hj].
    assert (i = j) as ->.
    { eapply NoDup_lookup; [exact ND| |]; rewrite list_lookup_fmap, ?Hi, ?Hj; reflexivity. }
    congruence.
  - intros p n Hp. apply elem_of_map_to_list in Hp. rewrite Forall_forall in F. exact (F _ Hp).
Qed.

Lemma host_ready_before approved : approved (sha256 old_config) -> host_ready default_resources approved host_before.
Proof.
  intros A. split; [..|reflexivity].
  - apply wf_disk_check; [apply (bool_decide_unpack _)|apply (bool_decide_unpack _)]; vm_compute; exact I.
  - exists 3%nat, old_config. split_and!; [vm_compute; reflexivity..|done].
  - intros n b Hn Hb. assert (n = 4%nat) as -> by (vm_compute in Hn; congruence).
    assert (b = sample_file) as -> by (vm_compute in Hb; vm_compute; congruence).
    by rewrite sample_parsed.
Qed.

Definition applied : option (result AdapterError ConfigApplyResult) * AdapterState :=
  run_alone 1 (config_apply default_resources 65536 store_key plain_candidate
    (sha256 plain_candidate) (sha256 old_config) 7 (effect_by 50)) fine_run host_before.

Lemma applied_result :
  fst applied = Some (Ok (mkConfigApplyResult (sha256 plain_candidate) (sha256 old_config)
    (sha256 plain_candidate) 7 true false false [])).
Proof. vm_compute. reflexivity. Qed.

(** The apply reports the candidate, and the configuration on disk has its
    digest. *)
Lemma config_apply_truthful_witness :
  exists b, holds_text (hs_disk (snd applied).2) (fr_config default_resources) b
    /\ sha256 b = sha256 plain_candidate.
Proof.
  destruct (config_apply_truthful default_resources 65536 store_key (sha256 plain_candidate)
    (sha256 old_config) 7 old_config (sha256 plain_candidate) _ 1 fine_run host_before
    (Ok (mkConfigApplyResult (sha256 plain_candidate) (sha256 old_config)
      (sha256 plain_candidate) 7 true false false [])) (snd applied) default_separate healthy_tame
    (host_ready_before _ eq_refl) (plain_request _ _ _ _ _ _ plain_candidate (effect_by 50)))
    as (b & Hb & _ & (_ & _ & Hr) & _).
  - rewrite <- applied_result. apply surjective_pairing.
  - exists b. split; [exact Hb|]. destruct (Hr eq_refl) as (_ & Ho & _). exact (eq_sym Ho).
Defined.

Definition grouped : option (result AdapterError bool) * AdapterState :=
  run_alone 1 (group_apply default_resources store_key (str "staff") [str "alice"; str "bob"] 3
    (effect_by 60)) fine_run host_before.

Lemma grouped_result : fst grouped = Some (Ok true).
Proof. vm_compute. reflexivity. Qed.

(** The store had no record, so that the new contents are in place. *)
Lemma group_apply_all_or_nothing_witness :
  exists b, holds_text (hs_disk (snd grouped).2) (fr_user_file default_resources) b
    /\ (b = sample_file \/ b = staff_file).
Proof.
  destruct (group_apply_all_or_nothing default_resources store_key (fun _ => True) (str "staff")
    [str "alice"; str "bob"] 3 (effect_by 60) sample_file 1 fine_run host_before (Ok true) (snd grouped)
    default_separate (host_ready_before _ I)) as (b & Hb & Ho & _).
  - exists 4%nat. split; vm_compute; reflexivity.
  - rewrite <- grouped_result. apply surjective_pairing.
  - exists b. split; [exact Hb|]. destruct Ho as [->|Ho]; [by left|right].
    rewrite staff_contents in Ho. congruence.
Defined.

(** The caller gives the apply up while its files are staged. *)
Definition cut_run : list HostChoice :=
  take 24 fine_run ++ [mkHostChoice false 0 [] None 0 0 [] None [] true].

Definition abandoned : option (result AdapterError (option ConfigApplyResult)) * AdapterState :=
  run_alone 1 (abandonable (config_apply default_resources 65536 store_key plain_candidate
    (sha256 plain_candidate) (sha256 old_config) 7 (effect_by 50))) cut_run host_before.

Lemma abandoned_result : fst abandoned = Some (Ok None).
Proof. vm_compute. reflexivity. Qed.

Definition either_config (x : bytes) : Prop := x = sha256 old_config \/ x = sha256 plain_candidate.


(** * A complete configuration *)

(** The answer of openssl serves as the certificate, its key and its
    constraints. *)
Definition openssl_answer : bytes := str "    CA:FALSE" ++ [x0a].

Definition tls_ref : NodeLocalTlsReference :=
  mkNodeLocalTlsReference (v7 9) (str "v1") (sha256 openssl_answer) (sha256 openssl_answer) [].

Definition tls_programs : Children :=
  {| child_run := fun program args input k d =>
       if bool_decide (program = fr_openssl default_resources)
       then (Exited (Some 0) openssl_answer [], d)
       else @child_run healthy_programs program args input k d |}.

Definition manifest_json : SerdeJson :=
  {| json_from_slice := fun _ => Some (JArray []);
     tls_manifest_from_slice := fun _ =>
       Some (mkTlsManifest (uuid_to_string (v7 3)) (uuid_to_string (v7 9)) (str "v1")
               (hex_encode (sha256 openssl_answer)) (hex_encode (sha256 openssl_answer)) []) |}.

Definition literal_directive (name value : String.string) : CompleteConfigDirective :=
  mkCompleteConfigDirective (str name) (Some (Literal (str value))).

Definition complete_candidate (clients : String.string) : CompleteConfigCandidate :=
  mkCompleteConfigCandidate (v7 3) 6
    [literal_directive "auth" "plain[passwd=/etc/ocserv/ocpasswd]";
     literal_directive "cookie-timeout" "300"; literal_directive "device" "vpns";
     literal_directive "dns" "192.0.2.53"; literal_directive "ipv4-network" "198.51.100.0/24";
     literal_directive "max-clients" clients; literal_directive "max-same-clients" "2";
     mkCompleteConfigDirective (str "server-cert") (Some (Tls tls_ref));
     mkCompleteConfigDirective (str "server-key") (Some (Tls tls_ref));
     literal_directive "socket-file" "/run/ocserv.socket"; literal_directive "tcp-port" "443";
     literal_directive "udp-port" "443"].

Definition tls_directory : path := fixed_path "etc/ocservia-agent/config-tls" ++ [uuid_to_string (v7 9); str "v1"].

Definition complete_text (clients : String.string) : bytes :=
  match render_complete tls_directory tls_ref (ccc_directives (complete_candidate clients)) with
  | Ok m => mz_bytes m
  | Err _ => []
  end.

Definition secret_node (b : bytes) : Node := mkNode (Regular b) 0 0 (oct 4 0 0) 1 0.

Definition tls_disk : HostDisk :=
  mkHostDisk
    (<[fixed_path "etc/ocservia-agent" := 5%nat]> (<[fixed_path "etc/ocservia-agent/config-tls" := 6%nat]>
     (<[fixed_path "etc/ocservia-agent/config-tls" ++ [str ".lock"] := 7%nat]>
     (<[fixed_path "etc/ocservia-agent/config-tls" ++ [uuid_to_string (v7 9)] := 8%nat]>
     (<[tls_directory := 9%nat]> (<[tls_directory ++ [str "manifest.json"] := 10%nat]>
     (<[tls_directory ++ [str "server-cert.pem"] := 11%nat]>
     (<[tls_directory ++ [str "server-key.pem"] := 12%nat]> (hd_names host_disk)))))))))
    (<[3%nat := file_node (complete_text "10")]> (<[5%nat := dir_node]> (<[6%nat := dir_node]>
     (<[7%nat := file_node []]> (<[8%nat := dir_node]> (<[9%nat := dir_node]>
     (<[10%nat := secret_node (str "manifest")]> (<[11%nat := secret_node (str "certificate")]>
     (<[12%nat := secret_node (str "key")]> (hd_nodes host_disk)))))))))) 13 ∅.

Definition tls_host : AdapterState := (empty_store, mkHostState tls_disk (fun _ => None) ∅).

Definition complete_apply_request : CompleteConfigApply :=
  mkCompleteConfigApply (Some (complete_candidate "20"))
    (match canonical (complete_candidate "20") with Ok t => sha256 t | Err _ => [] end)
    (sha256 (complete_text "10")) (sha256 (complete_text "20")) 7 (v7 8) (Some (mkTimestamp 2000 0)).

Definition completed : option (result AdapterError ConfigApplyResult) * AdapterState :=
  @run_alone _ _ _ _ 1 (complete_config_apply (children := tls_programs) (json := manifest_json)
    default_resources 65536 store_key complete_apply_request (effect_by 50))
    ((fun k => fine (Z.of_nat k)) <$> seq 1 300) tls_host.

Definition completed_result : ConfigApplyResult :=
  mkConfigApplyResult (cca_candidate_hash complete_apply_request) (sha256 (complete_text "10"))
    (sha256 (complete_text "20")) 7 true false false [].

Lemma completed_ok : fst completed = Some (Ok completed_result).
Proof. vm_compute. reflexivity. Qed.

Lemma tls_tame : @tame default_resources tls_programs.
Proof.
  split; intros; cbn [child_run tls_programs]; destruct (bool_decide _); try done; apply same_at_refl.
Qed.

Lemma tls_ready : host_ready default_resources (eq (sha256 (complete_text "10"))) tls_host.
Proof.
  split; [..|reflexivity].
  - apply wf_disk_check; [apply (bool_decide_unpack _)|apply (bool_decide_unpack _)]; vm_compute; exact I.
  - exists 3%nat, (complete_text "10"). split_and!; [vm_compute; reflexivity..|done].
  - intros n b Hn Hb. assert (n = 4%nat) as -> by (vm_compute in Hn; congruence).
    assert (b = sample_file) as -> by (vm_compute in Hb; vm_compute; congruence).
    by rewrite sample_parsed.
Qed.

(** A change of the number of clients. *)
Lemma complete_apply_in_place_witness :
  exists candidate reference desired vc vp, cca_candidate complete_apply_request = Some candidate
    /\ sha256 desired = cca_materialized_hash complete_apply_request
    /\ (holds_text (hs_disk (snd completed).2) (fr_config default_resources) desired
        \/ (holds_text (hs_disk (snd completed).2) (fr_config default_resources) (complete_text "10")
            /\ sha256 (complete_text "10") = cca_materialized_hash complete_apply_request))
    /\ profile_values (complete_text "10") = Ok vc /\ profile_values desired = Ok vp
    /\ says_candidate default_resources candidate reference vp
    /\ forall name, name ∈ STARTUP_BINDINGS -> vc !! name = vp !! name.
Proof.
  apply (complete_apply_in_place (children := tls_programs) (json := manifest_json) default_resources
    65536 store_key (complete_text "10") complete_apply_request (effect_by 50) 1
    ((fun k => fine (Z.of_nat k)) <$> seq 1 300) tls_host completed_result (snd completed)
    default_separate tls_tame).
  - split; [split; [reflexivity|discriminate]|]. apply Z.leb_le. reflexivity.
  - exact tls_ready.
  - exists 3%nat. split; vm_compute; reflexivity.
  - rewrite <- completed_ok. apply surjective_pairing.
  - reflexivity.
  - reflexivity.
Defined.
