(* ===== verification/AgentClient.v ===== *)
(** The Agent's side of the protocol with the privileged daemon
    ([rust/crates/agent/src/lib.rs]: [Backoff], [PrivdClient], the host
    reads), and the world an Agent process runs in.

    An Agent process is a program ([Concurrency]) over the journal all Agents
    of the node share, the fence floor each process keeps in memory, and a
    record of what was activated, asked, answered and reported, which no
    definition reads.  Every call on the journal or the executor is one step,
    and so is every read or write on a socket; what a read returns and whether
    a call fails is the step's pick.  A process may end at any step. *)

From stdpp Require Import base list gmap numbers countable strings.
From Stdlib Require Import ZArith Lia Bool Strings.Byte.
From S2P Require Import Prelude Bytes Text Contracts ConfigProfile Authorization.
From S2P Require Import CommandAuthorization Sql Journal Telemetry Executor StrictWire.
From S2P Require Import EffectRecords EffectStore Attestation Concurrency Utf8 UpgradeRecords.
From S2P Require Import PrivdProtocol PrivdAuthority Privd.

Local Open Scope Z_scope.

(** * Messages of the session *)

Inductive HandshakeResult :=
| HandshakeUnspecified | HandshakeAccepted | HandshakePendingApproval | HandshakeRevoked
| HandshakeIncompatibleProtocol | HandshakeUpgradeRequired | HandshakeClockSkew
| HandshakeCapabilityRejected.

Definition HandshakeResult_value (r : HandshakeResult) : Z :=
  match r with
  | HandshakeUnspecified => 0 | HandshakeAccepted => 1 | HandshakePendingApproval => 2
  | HandshakeRevoked => 3 | HandshakeIncompatibleProtocol => 4 | HandshakeUpgradeRequired => 5
  | HandshakeClockSkew => 6 | HandshakeCapabilityRejected => 7
  end.

Definition CommandResultState_value (s : CommandResultState) : Z :=
  match s with
  | ResultStateUnspecified => 0 | ResultSucceeded => 1 | ResultFailed => 2 | ResultUnknown => 3
  | ResultRejected => 4
  end.

Definition PrivilegedRequestMode_value (m : PrivilegedRequestMode) : Z :=
  match m with ModeUnspecified => 0 | ModeExecute => 1 | ModeReconcile => 2 end.

Record SealingKeyDescriptorV1 := mkSealingKeyDescriptorV1 {
  skd_version : Z; skd_purpose : Z; skd_key_id : bytes; skd_public_key_sha256 : bytes }.

Record SessionHandshake := mkSessionHandshake {
  sh_protocol_major : Z; sh_protocol_minor : Z; sh_agent_version : bytes;
  sh_controller_version : bytes; sh_node_id : bytes; sh_endpoint_id : bytes;
  sh_capabilities : list bytes; sh_ocserv_version : bytes; sh_os_release : bytes;
  sh_boot_id : bytes; sh_agent_instance_id : bytes; sh_supported_compressions : list bytes;
  sh_max_message_size : Z; sh_time : option Timestamp; sh_nonce : bytes;
  sh_sealing_keys : list SealingKeyDescriptorV1 }.

Record SessionHandshakeResponse := mkSessionHandshakeResponse {
  shr_result : Z; shr_protocol_major : Z; shr_protocol_minor : Z; shr_max_message_size : Z;
  shr_controller_version : bytes; shr_negotiated_capabilities : list bytes;
  shr_session_grant : option SessionGrantV1; shr_connection_fence : option ConnectionFenceV2;
  shr_signature : bytes }.

Record CommandResult := mkCommandResult {
  cmr_command_id : bytes; cmr_idempotency_key : bytes; cmr_payload_sha256 : bytes; cmr_state : Z;
  cmr_result : bytes; cmr_error_code : bytes; cmr_accepted_at : option Timestamp;
  cmr_completed_at : option Timestamp; cmr_replayed : bool; cmr_semantic_payload_hash_version : Z;
  cmr_privileged_result_proof : option PrivilegedResultProof }.

Record ArtifactFetchRequest := mkArtifactFetchRequest {
  afr_artifact_id : bytes; afr_purpose : bytes; afr_max_bytes : Z; afr_grant : option ArtifactGrantV1;
  afr_connection_fence : option ConnectionFenceV2; afr_fence_binding : option FenceBindingV2 }.

Record ArtifactChunk := mkArtifactChunk {
  ach_artifact_id : bytes; ach_offset : Z; ach_data : bytes; ach_eof : bool; ach_sha256 : bytes }.

Record ArtifactConsumeFinalizeRequest := mkArtifactConsumeFinalizeRequest {
  acf_grant : option ArtifactGrantV1; acf_sha256 : bytes; acf_size : Z; acf_confirm_only : bool;
  acf_connection_fence : option ConnectionFenceV2; acf_fence_binding : option FenceBindingV2 }.

Record ArtifactConsumeFinalizeResponse := mkArtifactConsumeFinalizeResponse {
  acd_artifact_id : bytes; acd_grant_id : bytes; acd_consumed : bool }.

Record SessionObservation := mkSessionObservation {
  so_session_id : bytes; so_username : bytes; so_client_ip : bytes; so_connected_at : Timestamp;
  so_bytes_in : Z; so_bytes_out : Z }.
Record IpBanObservation := mkIpBanObservation { ib_ip : bytes; ib_seconds_remaining : option Z }.
Record UserObservation := mkUserObservation {
  uo_username : bytes; uo_enabled : bool; uo_revision : Z; uo_fingerprint_sha256 : bytes }.
Record GroupObservation := mkGroupObservation {
  go_group_name : bytes; go_members : list bytes; go_revision : Z; go_fingerprint_sha256 : bytes }.
(** The one metric the Agent samples has an integral value. *)
Record MetricSample := mkMetricSample { ms_sampled_at : Timestamp; ms_metric : bytes; ms_value : Z }.
Record TelemetryDropCounters := mkTelemetryDropCounters {
  tdc_security : Z; tdc_health : Z; tdc_aggregate : Z; tdc_raw : Z }.
Record AgentUpgradeResultReport := mkAgentUpgradeResultReport {
  aur_operation_id : bytes; aur_state : Z; aur_target_version : bytes; aur_completed_unix_ms : Z;
  aur_detail : bytes; aur_privileged_result_proof : option AgentUpgradeResultProof }.

(** The values [serde_json::json!] builds here. *)
Inductive Json :=
| JsonText (value : bytes)
| JsonNumber (value : Z)
| JsonObject (members : list (bytes * Json)).

Record ObservedSnapshot := mkObservedSnapshot {
  os_observed_at : Timestamp; os_boot_id : bytes; os_agent_instance_id : bytes;
  os_agent_version : bytes; os_ocserv_version : bytes; os_os_release : bytes; os_ocserv_json : bytes;
  os_system_json : bytes; os_path_json : bytes; os_dropped : TelemetryDropCounters;
  os_upgrade_results : list AgentUpgradeResultReport; os_architecture : bytes }.

Record TelemetryBatch := mkTelemetryBatch {
  tb_batch_id : bytes; tb_node_id : bytes; tb_sequence : Z; tb_priority : Z;
  tb_snapshot : ObservedSnapshot; tb_sessions : list SessionObservation;
  tb_samples : list MetricSample; tb_ip_bans : list IpBanObservation;
  tb_users : list UserObservation; tb_groups : list GroupObservation }.

(** Prost's codecs of these messages, and [serde_json::to_vec], which may fail. *)
Class AgentWire := {
  encode_request : PrivdRequest -> bytes;
  encode_handshake : SessionHandshake -> bytes;
  decode_handshake_response : bytes -> option SessionHandshakeResponse;
  encode_grant : SessionGrantV1 -> bytes;
  encode_command_event : CommandResult -> bytes;
  decode_fetch : bytes -> option ArtifactFetchRequest;
  decode_consume : bytes -> option ArtifactConsumeFinalizeRequest;
  encode_chunk : ArtifactChunk -> bytes;
  encode_consumed : ArtifactConsumeFinalizeResponse -> bytes;
  encode_proof : PrivilegedResultProof -> bytes;
  decode_proof : bytes -> option PrivilegedResultProof;
  encode_batch : TelemetryBatch -> bytes;
  json_to_vec : Json -> option bytes;
  release_version : bytes }.

(** * The world of the Agents of a node *)

(** What the record of a run tells of a process: the term it activated, a look
    at the journal's fence floor and the floor it then held, a reading of the
    clock, a request it sent to the privileged daemon and an answer it got, a
    command result, an artifact chunk and a telemetry payload it sent to the
    Controller. *)
Inductive Noted :=
| Activated (tid : nat) (fence : VerifiedConnectionFenceV2)
| Refreshed (tid : nat) (floor : Z)
| Clocked (tid : nat) (now : Z)
| Asked (tid : nat) (request : PrivdRequest)
| Answered (tid : nat) (request : PrivdRequest) (response : PrivdResponse)
| Reported (tid : nat) (envelope : CommandEnvelope) (result : CommandResult)
| Streamed (tid : nat) (chunk : ArtifactChunk)
| Shipped (tid : nat) (payload : bytes).

Record AgentWorld := mkAgentWorld {
  aw_journal : Db; aw_floors : gmap nat Z; aw_log : list Noted }.

(** What [tokio::select!] takes up next in a session. *)
Inductive SessionEvent :=
| ConnectionClosed | RelayFailed | SessionExpired | StreamAccepted | HeartbeatTick.

(** A read of a file: there is none, it fails, or it has this content. *)
Inductive FileRead := FileMissing | FileFailed | FileContent (content : bytes).

(** [ap_path] is the selected network path, if there is one: whether it is
    direct, whether it goes over a relay, its round-trip time in milliseconds. *)
Record AgentPick := mkAgentPick {
  ap_clock : Z; ap_faults : list bool; ap_ok : bool; ap_bytes : bytes; ap_uuid : bytes;
  ap_number : Z; ap_event : SessionEvent; ap_file : FileRead; ap_path : option (bool * bool * Z) }.

Inductive AgentError :=
| Invalid (detail : bytes)
| IoFailed
| ClockUnavailable
| DatabaseFailed (e : SqlError)
| AuthorizationFailed (e : AuthorizationError)
| WireFailed (e : StrictWireError)
| FrameFailed (e : FrameError)
| RelayFailover.

Definition invalid (detail : String.string) : AgentError := Invalid (str detail).

Abbreviation AgentProg := (Prog AgentWorld AgentPick).
Abbreviation Agent := (Prog AgentWorld AgentPick AgentError).

Definition set_aw_journal (d : Db) (w : AgentWorld) : AgentWorld :=
  mkAgentWorld d (aw_floors w) (aw_log w).
Definition set_floor (tid : nat) (floor : Z) (w : AgentWorld) : AgentWorld :=
  mkAgentWorld (aw_journal w) (<[tid := floor]> (aw_floors w)) (aw_log w).
Definition note (n : Noted) (w : AgentWorld) : AgentWorld :=
  mkAgentWorld (aw_journal w) (aw_floors w) (aw_log w ++ [n]).

(** A call that touches nothing of the world and may fail. *)
Definition host_call : Agent unit :=
  act (fun _ c w => Some (if ap_ok c then Ok tt else Err IoFailed, w)).

(** [SystemTime::now()], in nanoseconds since the epoch. *)
Definition system_time : Agent Z :=
  act (fun tid c w => Some (Ok (ap_clock c), note (Clocked tid (ap_clock c)) w)).

(** [SystemTime::now().duration_since(UNIX_EPOCH)?] *)
Definition since_epoch : Agent Z :=
  (now <- system_time ;; if now <? 0 then pthrow ClockUnavailable else pret now)%prog.

(** [i64::try_from(now.as_secs())?] *)
Definition unix_seconds_of (now : Z) : result AgentError Z :=
  if bool_decide (in_i64 (as_secs now)) then Ok (as_secs now) else Err ClockUnavailable.

Definition unix_seconds : Agent Z :=
  (now <- since_epoch ;; plift (unix_seconds_of now))%prog.

(** [Uuid::now_v7()] *)
Definition now_v7 : Agent bytes := act (fun _ c w => Some (Ok (ap_uuid c), w)).

(** [recv.read_exact] of [n] bytes, under its timeout. *)
Definition recv_exact (n : Z) : Agent bytes :=
  act (fun _ c w =>
    Some (if ap_ok c && (len (ap_bytes c) =? n) then Ok (ap_bytes c) else Err IoFailed, w)).

(** Writes an encoded message behind its length; [n] says what was sent.  A
    write that fails may still have reached the peer. *)
Definition send_framed (encoded : bytes) (n : nat -> Noted) : Agent unit :=
  act (fun tid c w =>
    match u32_try_from (len encoded) with
    | None => Some (Err IoFailed, w)
    | Some _ => Some (if ap_ok c then Ok tt else Err IoFailed, note (n tid) w)
    end).

Definition read_file {E} : AgentProg E FileRead := act (fun _ c w => Some (Ok (ap_file c), w)).

(** A method of [Journal]. *)
Definition on_journal {A} (m : Sql Db A) : Agent A :=
  act (fun _ c w =>
    let '(r, c') := m (mkConn (aw_journal w) (ap_faults c)) in
    Some (map_err DatabaseFailed r, set_aw_journal (conn_db c') w)).

(** A method of [CommandExecutor], on its own connection to the same file. *)
Definition on_executor {A} (m : Exec A) : AgentProg CommandError A :=
  act (fun _ c w =>
    let '(r, c') := m (mkConn (aw_journal w) (ap_faults c)) in
    Some (r, set_aw_journal (conn_db c') w)).

(** * Reconnection ([Backoff]) *)

Definition MILLISECOND : Z := 1000000.
Definition DURATION_MAX : Z := u64_max * NANOS_PER_SECOND + (NANOS_PER_SECOND - 1).

(** [Duration::saturating_mul] *)
Definition duration_saturating_mul (d n : Z) : Z := Z.min (d * n) DURATION_MAX.

Record Backoff := mkBackoff { bo_base : Z; bo_cap : Z }.

Definition Backoff_default : Backoff := mkBackoff (250 * MILLISECOND) (15 * NANOS_PER_SECOND).

Definition Backoff_new (base cap : Z) : result AgentError Backoff :=
  if (base =? 0) || (cap <? base) then Err (invalid "backoff bounds invalid")
  else Ok (mkBackoff base cap).

(** The greatest delay [delay] may draw, in milliseconds. *)
Definition max_delay (self : Backoff) (attempt : Z) : Z :=
  let exponent := Z.min attempt 31 in
  let multiplier := 2 ^ exponent in
  let ceiling := Z.min (duration_saturating_mul (bo_base self) multiplier) (bo_cap self) in
  Z.min (ceiling / MILLISECOND) u64_max.

(** The random number generator gives a number of the range asked for. *)
Definition delay (self : Backoff) (attempt : Z) : Agent Z :=
  act (fun _ c w =>
    if (0 <=? ap_number c) && (ap_number c <=? max_delay self attempt)
    then Some (Ok (ap_number c), w) else None).

(** * The client of the privileged daemon ([PrivdClient]) *)

Record PrivdClient := mkPrivdClient { pc_timeout : Z; pc_desired_timeout : Z }.

Definition PrivdClient_new (timeout : Z) : result AgentError PrivdClient :=
  if (timeout =? 0) || (30 * NANOS_PER_SECOND <? timeout) then Err (invalid "privd timeout invalid")
  else Ok (mkPrivdClient timeout (Z.min (duration_saturating_mul timeout 4) (30 * NANOS_PER_SECOND))).

(** The deadline of a request as the daemon compares it. *)
Definition deadline_unix_ms (now timeout : Z) : result AgentError Z :=
  let deadline := now + timeout in
  if negb (bool_decide (in_i64 (as_secs deadline))) then Err (invalid "privd deadline overflow")
  else if deadline <? 0 then Err (invalid "system clock unavailable")
  else if bool_decide (in_u64 (as_millis deadline)) then Ok (as_millis deadline)
  else Err (invalid "privd deadline overflow").

Section Client.
Context {wire : ResponseWire} {codec : AgentWire}.
Variable client : PrivdClient.
Local Open Scope prog_scope.

(** Writes the request on the socket. *)
Definition ask (request : PrivdRequest) : Agent unit :=
  act (fun tid c w =>
    match write_frame (encode_request request) with
    | Err e => Some (Err (FrameFailed e), w)
    | Ok _ => Some (if ap_ok c then Ok tt else Err IoFailed, note (Asked tid request) w)
    end).

(** Reads the response and checks that it answers this request. *)
Definition receive (request : PrivdRequest) : Agent PrivdResponse :=
  act (fun tid c w =>
    if negb (ap_ok c) then Some (Err IoFailed, w)
    else match read_frame decode_response (ap_bytes c) with
    | Err e => Some (Err (FrameFailed e), w)
    | Ok (response, _) =>
        if bool_decide (pr_request_id response <> pq_request_id request)
        then Some (Err (invalid "privd response correlation invalid"), w)
        else Some (Ok response, note (Answered tid request response) w)
    end).

Definition call_inner (operation : option Operation) (command : option CommandEnvelope)
    (mode : PrivilegedRequestMode) (timeout : Z) (accepted_at : option Timestamp)
    : Agent PrivdResponse :=
  now <- system_time ;;
  deadline <- plift (deadline_unix_ms now timeout) ;;
  request_id <- now_v7 ;;
  let request := mkPrivdRequest request_id deadline accepted_at command
    (PrivilegedRequestMode_value mode) operation in
  host_call ;;;
  ask request ;;;
  receive request.

Definition call (operation : Operation) : Agent PrivdResponse :=
  call_inner (Some operation) None ModeUnspecified (pc_timeout client) None.

Definition call_command (command : CommandEnvelope) (accepted_at : Z) : Agent PrivdResponse :=
  call_inner None (Some command) ModeExecute (pc_desired_timeout client)
    (Some (mkTimestamp accepted_at 0)).

Definition call_reconcile (command : CommandEnvelope) : Agent PrivdResponse :=
  call_inner None (Some command) ModeReconcile (pc_desired_timeout client) None.

Definition upgrade_results : Agent (list UpgradeOperationResult) :=
  response <- call ReqUpgradeResultList ;;
  match pr_result response with
  | Some (ResUpgradeResultList results) => pret results
  | Some (ResError failure) =>
      pthrow (Invalid (str "privd upgrade result list refused: " ++ pe_detail failure))
  | _ => pthrow (invalid "privd upgrade result list response invalid")
  end.

(** The routine observations.  The code overlaps the reads; they are taken
    here in the order in which it starts them. *)
Definition SNAPSHOT : list Operation :=
  [ReqServiceStatus; ReqOcservVersion; ReqSessionList; ReqIpBanList; ReqConfigFingerprint;
   ReqUserList; ReqGroupList].

Fixpoint call_each (operations : list Operation) : Agent (list PrivdResponse) :=
  match operations with
  | [] => pret []
  | operation :: rest =>
      response <- call operation ;;
      responses <- call_each rest ;;
      pret (response :: responses)
  end.

Definition snapshot : Agent (list PrivdResponse) := call_each SNAPSHOT.

End Client.

(** * The host *)

Definition ensure_unprivileged (effective_uid : Z) : result AgentError unit :=
  if effective_uid =? 0 then Err (invalid "ocservia-agent must not run as root") else Ok tt.

Definition host_value (max_bytes : Z) (found : FileRead) : result AgentError bytes :=
  match found with
  | FileContent content =>
      if is_empty content || (max_bytes <? len content)
      then Err (invalid "host identity value size invalid")
      else if negb (utf8_valid content) then Err (invalid "host identity value invalid")
      else let value := trim content in
           if is_empty value || has_control value then Err (invalid "host identity value invalid")
           else Ok value
  | _ => Err IoFailed
  end.

Definition read_host_value (max_bytes : Z) : Agent bytes :=
  (found <- read_file ;; plift (host_value max_bytes found))%prog.

Definition read_boot_id : Agent bytes := read_host_value 64.

(** [trim_matches] of the double quote. *)
Fixpoint trim_quotes_start (l : bytes) : bytes :=
  match l with
  | b :: r => if bool_decide (b = x22) then trim_quotes_start r else l
  | [] => []
  end.
Definition trim_quotes (l : bytes) : bytes := rev (trim_quotes_start (rev (trim_quotes_start l))).

Fixpoint find_id (l : list bytes) : option bytes :=
  match l with
  | [] => None
  | line :: rest =>
      match strip_prefix (str "ID=") line with
      | Some value => Some (trim_quotes value)
      | None => find_id rest
      end
  end.

Definition os_release_id (found : FileRead) : result AgentError bytes :=
  match found with
  | FileContent content =>
      if is_empty content || (8192 <? len content) then Err (invalid "os-release size invalid")
      else if negb (utf8_valid content) then Err (invalid "os-release invalid")
      else
      let? value := ok_or (find_id (lines content)) (invalid "os-release ID missing") in
      if is_empty value || (64 <? len value)
         || negb (forallb (fun b => is_ascii_lowercase b || is_ascii_digit b || bool_decide (b = x2d)) value)
      then Err (invalid "os-release ID invalid") else Ok value
  | _ => Err IoFailed
  end.

Definition read_os_release : Agent bytes :=
  (found <- read_file ;; plift (os_release_id found))%prog.
