(* ===== verification/AgentSession.v ===== *)
(** The Agent's sessions with the Controller ([rust/crates/agent/src/main.rs]):
    what a session may do (the handshake and its negotiation), the checks on
    what the Controller asks for, the activation of the owner term, how a
    command that needs the privileged daemon is carried out, and the streams
    the Controller opens. *)

From stdpp Require Import base list gmap numbers countable strings sorting.
From Stdlib Require Import ZArith Lia Bool Strings.Byte.
From S2P Require Import Prelude Bytes Text Contracts ConfigProfile Authorization.
From S2P Require Import CommandAuthorization Sql Journal Telemetry Executor StrictWire.
From S2P Require Import EffectRecords EffectStore Attestation Concurrency Utf8 UpgradeRecords.
From S2P Require Import PrivdProtocol PrivdAuthority Privd AgentClient.

Local Open Scope Z_scope.

Definition ARTIFACT_FETCH_FRAME : Z := Z.shiftl 1 31.
Definition ARTIFACT_CONSUME_FRAME : Z := Z.shiftl 3 30.
Definition ARTIFACT_FRAME_MASK : Z := Z.shiftl 3 30.

(** * Sessions *)

Record SessionGrantAuthority := mkSessionGrantAuthority {
  sga_negotiated_capabilities : gset bytes; sga_authorization_revision : Z;
  sga_expires_at_unix_seconds : Z }.

Inductive ActiveSessionAuthority :=
| SignedReadOnlyV11 (grant : SessionGrantAuthority)
| FencedV11 (grant : SessionGrantAuthority) (connection_fence : VerifiedConnectionFenceV2).

Definition authority_grant (self : ActiveSessionAuthority) : SessionGrantAuthority :=
  match self with SignedReadOnlyV11 grant | FencedV11 grant _ => grant end.

Definition fenced (self : ActiveSessionAuthority)
    : option (SessionGrantAuthority * VerifiedConnectionFenceV2) :=
  match self with
  | SignedReadOnlyV11 _ => None
  | FencedV11 grant connection_fence => Some (grant, connection_fence)
  end.

Definition fenced_artifact_authority (authority : ActiveSessionAuthority) (framed_length : Z)
    : result AgentError (SessionGrantAuthority * VerifiedConnectionFenceV2) :=
  let frame_kind := Z.land framed_length ARTIFACT_FRAME_MASK in
  if negb (frame_kind =? ARTIFACT_FETCH_FRAME) && negb (frame_kind =? ARTIFACT_CONSUME_FRAME)
  then Err (invalid "artifact frame kind invalid")
  else ok_or (fenced authority) (invalid "signed read-only session received an artifact stream").

Inductive AgentSessionMode :=
| ReadOnly (negotiated_capabilities : gset bytes)
| AuthorizedV11 (authority : ActiveSessionAuthority).

Definition expires_at_unix_seconds (self : AgentSessionMode) : option Z :=
  match self with
  | ReadOnly _ => None
  | AuthorizedV11 authority => Some (sga_expires_at_unix_seconds (authority_grant authority))
  end.

Definition supported_capabilities : list bytes :=
  READ_ONLY_SESSION_CAPABILITIES
  ++ [CONNECTION_FENCING_CAPABILITY; str "synthetic.noop"; str "synthetic.echo";
      str "command.semantic-hash.v1"; str "command.strict-wire.v1";
      str "privd_result_attestation_v1"; str "ocserv.session.disconnect";
      str "ocserv.session.terminate"; str "ocserv.ip_ban.remove"; str "ocserv.service.reload";
      str "ocserv.users.write"; str "ocserv.groups.write"; str "ocserv.config.plan";
      str "ocserv.config.apply"; str "ocserv.config.complete.plan";
      str "ocserv.config.complete.apply"; str "config.auth"; str "config.tls";
      str "config.sessions"; str "config.network"; str "config.limits"; str "config.runtime";
      str "ocserv.certificate.issue"; str "ocserv.certificate.revoke";
      str "ocserv.agent.upgrade.v2"; str "ocserv.agent.upgrade.v1"].

(** [left <= right] on a point in time given in seconds and nanoseconds. *)
Definition instant_le (left right : Z * Z) : bool :=
  (left.1 <? right.1) || ((left.1 =? right.1) && (left.2 <=? right.2)).

Definition same_capability_set (capabilities : list bytes) (expected : gset bytes) : bool :=
  (len capabilities =? Z.of_nat (size expected))
  && forallb (fun capability => bool_decide (capability ∈ expected)) capabilities.

Definition same_fence_term (left right : VerifiedConnectionFenceV2) : bool :=
  bool_decide (vcf_fence_id left = vcf_fence_id right)
  && bool_decide (vcf_owner_instance_id left = vcf_owner_instance_id right)
  && (vcf_owner_incarnation left =? vcf_owner_incarnation right)
  && (vcf_owner_epoch left =? vcf_owner_epoch right)
  && bool_decide (vcf_connection_id left = vcf_connection_id right)
  && (vcf_authorization_revision left =? vcf_authorization_revision right).

(** The loop over the negotiated capabilities: each one supported, in strictly
    increasing order. *)
Fixpoint valid_capabilities (supported : list bytes) (previous : option bytes) (l : list bytes) : bool :=
  match l with
  | [] => true
  | capability :: rest =>
      if negb (bool_decide (capability ∈ supported))
         || (match previous with Some value => bytes_leb capability value | None => false end)
      then false else valid_capabilities supported (Some capability) rest
  end.

Definition all_read_only (capabilities : list bytes) : bool :=
  forallb is_read_only_session_capability capabilities.

(** What the binary knows of the node and the Controller. *)
Record SessionContext `{Crypto} := mkSessionContext {
  cx_node_id : bytes; cx_endpoint_id : bytes; cx_boot_id : bytes; cx_os_release : bytes;
  cx_agent_instance_id : bytes; cx_command_keys : ControllerCommandKeyring;
  cx_sealing_keys : list SealingKeyDescriptorV1; cx_synthetic_barrier : bool }.
Arguments mkSessionContext {_}.

Section Session.
Context {crypto : Crypto} {platform : Platform} {text : RecordText} {prost : Prost}.
Context {wire : ResponseWire} {codec : AgentWire}.

(** ** Negotiation *)

Definition negotiate_authorized (response : SessionHandshakeResponse) (node_id endpoint_id : bytes)
    (command_keys : ControllerCommandKeyring) (secs nanos : Z)
    : result AgentError AgentSessionMode :=
  let? grant := ok_or (shr_session_grant response) (invalid "Controller session grant is required") in
  if negb (sg_protocol_major grant =? shr_protocol_major response)
     || negb (sg_protocol_minor grant =? shr_protocol_minor response)
     || bool_decide (sg_negotiated_capabilities grant <> shr_negotiated_capabilities response)
  then Err (invalid "Controller session grant response mismatch")
  else
  let? verified := map_err AuthorizationFailed
    (verify_session_grant command_keys grant node_id endpoint_id secs) in
  if bool_decide (vsg_negotiated_capabilities verified <> shr_negotiated_capabilities response)
  then Err (invalid "verified session capabilities do not match response")
  else
  let grant := mkSessionGrantAuthority (list_to_set (vsg_negotiated_capabilities verified))
    (vsg_authorization_revision verified) (vsg_expires_at_seconds verified) in
  if negb (bool_decide (CONNECTION_FENCING_CAPABILITY ∈ sga_negotiated_capabilities grant))
  then
    if bool_decide (shr_connection_fence response <> None)
    then Err (invalid "Controller returned an unexpected connection fence")
    else if negb (all_read_only (elements (sga_negotiated_capabilities grant)))
    then Err (invalid "Controller mutation session omitted connection fencing")
    else Ok (AuthorizedV11 (SignedReadOnlyV11 grant))
  else
  let? fence := ok_or (shr_connection_fence response)
    (invalid "Controller fencing session omitted its connection fence") in
  let? verified := map_err (fun _ => invalid "Controller connection fence is invalid")
    (verify_connection_fence_v2_at command_keys fence node_id endpoint_id secs nanos) in
  if negb (vcf_authorization_revision verified =? sga_authorization_revision grant)
     || negb (same_capability_set (vcf_capabilities verified) (sga_negotiated_capabilities grant))
  then Err (invalid "Controller connection fence authority mismatch")
  else Ok (AuthorizedV11 (FencedV11 grant verified)).

Definition negotiate_session_mode_at_instant (response : SessionHandshakeResponse)
    (supported : list bytes) (node_id endpoint_id : bytes)
    (command_keys : ControllerCommandKeyring) (secs nanos : Z) : result AgentError AgentSessionMode :=
  if negb (shr_protocol_major response =? 1) || (1 <? shr_protocol_minor response)
  then Err (invalid "Controller session protocol is unsupported")
  else if negb (valid_capabilities supported None (shr_negotiated_capabilities response))
  then Err (invalid "Controller negotiated capability set is invalid")
  else if shr_protocol_minor response =? 0
  then
    if bool_decide (shr_session_grant response <> None)
       || bool_decide (shr_connection_fence response <> None)
       || negb (all_read_only (shr_negotiated_capabilities response))
    then Err (invalid "Controller read-only session is invalid")
    else Ok (ReadOnly (list_to_set (shr_negotiated_capabilities response)))
  else negotiate_authorized response node_id endpoint_id command_keys secs nanos.

(** ** Checks on what the Controller asks for *)

(** The diagnostic of a read-only session: [Ok] means that the command comes
    from a stale owner. *)
Definition gate_signed_read_only_stale_diagnostic (command_keys : ControllerCommandKeyring)
    (fence_epoch_floor : Z) (node_id endpoint_id : bytes) (fence : ConnectionFenceV2)
    (secs nanos : Z) : result AgentError unit :=
  let? verified := map_err (fun _ => invalid "command connection fence is invalid")
    (verify_connection_fence_v2_at command_keys fence node_id endpoint_id secs nanos) in
  if lease_expired verified secs nanos
  then Err (invalid "command connection-owner lease has expired")
  else if vcf_owner_epoch verified <? fence_epoch_floor then Ok tt
  else Err (invalid "signed read-only session cannot authorize a non-stale command").

Definition verify_fenced_operation (command_keys : ControllerCommandKeyring)
    (grant : SessionGrantAuthority) (active_fence : VerifiedConnectionFenceV2)
    (fence_epoch_floor : Z) (node_id endpoint_id : bytes) (fence : option ConnectionFenceV2)
    (binding : option FenceBindingV2) (operation_kind : FenceOperationKind)
    (operation_id capability : bytes) (secs nanos : Z) : result AgentError unit :=
  let? fence := ok_or fence (invalid "fenced operation omitted its connection fence") in
  let? binding := ok_or binding (invalid "fenced operation omitted its fence binding") in
  let? verified := map_err (fun _ => invalid "operation connection fence is invalid")
    (verify_connection_fence_v2_at command_keys fence node_id endpoint_id secs nanos) in
  if lease_expired verified secs nanos
  then Err (invalid "operation connection-owner lease has expired")
  else if negb (vcf_owner_epoch active_fence =? fence_epoch_floor)
          || negb (vcf_owner_epoch verified =? fence_epoch_floor)
          || negb (same_fence_term verified active_fence)
          || negb (vcf_authorization_revision verified =? sga_authorization_revision grant)
          || negb (same_capability_set (vcf_capabilities verified) (sga_negotiated_capabilities grant))
  then Err (invalid "operation fence does not match the active session term")
  else
  let? claims := map_err (fun _ => invalid "operation fence binding is invalid")
    (verify_fence_binding_v2_at command_keys binding node_id endpoint_id secs nanos) in
  if negb (fbc_operation_kind claims =? FenceOperationKind_value operation_kind)
     || bool_decide (fbc_operation_id claims <> operation_id)
     || bool_decide (fbc_capability claims <> capability)
     || negb (bool_decide (capability ∈ sga_negotiated_capabilities grant))
     || negb (matches_fence claims verified)
  then Err (invalid "operation fence binding does not match its carrier")
  else Ok tt.

(** ** Results *)

Definition command_result (record : CommandRecord) (replayed : bool) : CommandResult :=
  let state := match rec_state record with
               | Succeeded => ResultSucceeded
               | Failed => ResultFailed
               | Unknown | Accepted | Running => ResultUnknown
               end in
  let proof := match rec_privileged_result_proof record with
               | Some encoded => decode_proof encoded
               | None => None
               end in
  let receipt := match proof with Some value => prp_receipt_v1 value | None => None end in
  let accepted := match receipt with Some value => prr_accepted_at value | None => None end in
  let completed := match receipt with Some value => prr_completed_at value | None => None end in
  mkCommandResult (rec_command_id record) (rec_idempotency_key record) (rec_payload_sha256 record)
    (CommandResultState_value state) (default [] (rec_result record))
    (default [] (rec_error_code record))
    (Some (default (mkTimestamp (rec_accepted_at record) 0) accepted))
    (Some (default (mkTimestamp (rec_updated_at record) 0) completed))
    ((match receipt with Some value => prr_replayed value | None => false end)
     || (bool_decide (proof = None) && replayed))
    (rec_payload_hash_version record) proof.

Definition unknown_result (record : CommandRecord) (code : bytes) : CommandResult :=
  let r := command_result record false in
  mkCommandResult (cmr_command_id r) (cmr_idempotency_key r) (cmr_payload_sha256 r)
    (CommandResultState_value ResultUnknown) [] code (cmr_accepted_at r) (cmr_completed_at r)
    (cmr_replayed r) (cmr_semantic_payload_hash_version r) (cmr_privileged_result_proof r).

Definition rejected_result (envelope : CommandEnvelope) (code : bytes) (now : Z) : CommandResult :=
  mkCommandResult (env_command_id envelope) (env_idempotency_key envelope) []
    (CommandResultState_value ResultRejected) [] code None (Some (mkTimestamp now 0)) false 0 None.

(** The encoded proof of a response and the second at which the daemon says
    the operation completed, when the proof has the form of one. *)
Definition response_proof (response : PrivdResponse) : option (bytes * Z) :=
  match pr_privileged_result_proof response with
  | None => None
  | Some proof =>
      if bool_decide (PrivdReceiptVersion_try_from (prp_version proof) <> Some ReceiptV1)
         || negb (len (prp_signature proof) =? 64)
      then None
      else match prp_receipt_v1 proof with
      | None => None
      | Some receipt =>
          if bool_decide (PrivdReceiptVersion_try_from (prr_receipt_version receipt) <> Some ReceiptV1)
          then None
          else match prr_completed_at receipt with
          | None => None
          | Some completed =>
              if ts_seconds completed <? 0 then None
              else let encoded := encode_proof proof in
                   if len encoded <=? 65536 then Some (encoded, ts_seconds completed) else None
          end
      end
  end.

Definition terminal_privd_error_code (kind : Z) : option bytes :=
  match unwrap_or (ErrorKind_try_from kind) KindUnspecified with
  | KindCapacityExceeded => Some (str "capacity_exceeded")
  | KindInvalidRequest | KindPermissionDenied | KindMalformedOutput => Some (str "privd_rejected")
  | _ => None
  end.

(** [Uuid::from_slice(..).ok().map(|id| ..)] *)
Definition certificate_resource (kind id : bytes) (envelope : CommandEnvelope)
    : option (bytes * bytes * Z) :=
  if len id =? 16 then Some (kind, uuid_to_string id, env_expected_revision envelope) else None.

Definition desired_resource (envelope : CommandEnvelope) : option (bytes * bytes * Z) :=
  match env_payload envelope with
  | Some (PUserCreate value) => Some (str "user", us_username value, us_desired_revision value)
  | Some (PUserDisable value) => Some (str "user", ut_username value, ut_desired_revision value)
  | Some (PUserEnable value) => Some (str "user", ut_username value, ut_desired_revision value)
  | Some (PUserPasswordRotate value) => Some (str "user", us_username value, us_desired_revision value)
  | Some (PGroupApply value) => Some (str "group", ga_group_name value, ga_desired_revision value)
  | Some (PConfigApply value) => Some (str "config", str "ocserv.conf", ca_desired_revision value)
  | Some (PCompleteConfigApply value) => Some (str "config", str "ocserv.conf", cca_desired_revision value)
  | Some (PCertificateCsr value) =>
      certificate_resource (str "certificate_key") (csr_certificate_id value) envelope
  | Some (PCertificateRevoke value) =>
      certificate_resource (str "certificate_revoke") (rev_certificate_id value) envelope
  | Some (PCertificateP12 value) =>
      certificate_resource (str "certificate_artifact") (p12_artifact_id value) envelope
  | _ => None
  end.

Definition desired_effect_identity (payload : Payload) : option (bytes * bytes * Z) :=
  match payload with
  | PUserCreate value => Some (str "user_create", us_username value, us_desired_revision value)
  | PUserDisable value => Some (str "user_disable", ut_username value, ut_desired_revision value)
  | PUserEnable value => Some (str "user_enable", ut_username value, ut_desired_revision value)
  | PUserPasswordRotate value =>
      Some (str "user_password_rotate", us_username value, us_desired_revision value)
  | PGroupApply value => Some (str "group_apply", ga_group_name value, ga_desired_revision value)
  | PConfigApply value => Some (str "config_apply", str "ocserv.conf", ca_desired_revision value)
  | PCompleteConfigApply value =>
      Some (str "config_apply", str "ocserv.conf", cca_desired_revision value)
  | _ => None
  end.

Definition observed_session (target : SessionMutation) (sessions : list Session)
    : ExternalEffectObservation :=
  if existsb (fun s => bool_decide (ses_id s = sm_session_id target)) sessions
  then Absent else AppliedExact.

Definition map_external_effect (payload : Payload) (r : Result) : ExternalEffectObservation :=
  match payload, r with
  | PSessionDisconnect target, ResSessionList sessions => observed_session target sessions
  | PSessionTerminate target, ResSessionList sessions => observed_session target sessions
  | PIpBanRemove ip, ResIpBanList bans =>
      if existsb (fun b => bool_decide (ban_ip b = ip)) bans then Absent else AppliedExact
  | payload, ResDesiredEffectObservation observation =>
      match desired_effect_identity payload with
      | Some _ =>
          match deo_state observation with
          | StateAppliedExact => AppliedExact
          | StateSupersededByNewerRevision => SupersededByNewerRevision
          | StateAbsent => Absent
          | StateUnknown | StateUnspecified => ObservationUnknown
          end
      | None => ObservationUnknown
      end
  | _, _ => ObservationUnknown
  end.

Definition is_external (payload : option Payload) : bool :=
  match payload with
  | Some (PSessionDisconnect _ | PSessionTerminate _ | PIpBanRemove _ | PServiceReload
         | PUserCreate _ | PUserDisable _ | PUserEnable _ | PUserPasswordRotate _ | PGroupApply _
         | PConfigPlan _ | PConfigApply _ | PCompleteConfigPlan _ | PCompleteConfigApply _
         | PCertificateCsr _ | PCertificateRevoke _ | PCertificateP12 _ | PAgentUpgrade _) => true
  | _ => false
  end.

Definition is_synthetic (payload : option Payload) : bool :=
  match payload with Some (PSyntheticNoop | PSyntheticEcho _) => true | _ => false end.

(** ** The owner term of a process *)

Variable client : PrivdClient.
Variable cx : SessionContext.
Local Open Scope prog_scope.

(** The floor a process keeps in memory; [main] loads it before any session. *)
Definition own_floor (tid : nat) (w : AgentWorld) : Z := default 0 (aw_floors w !! tid).

(** [journal.owner_fence_epoch_floor()?] into the local floor. *)
Definition load_floor : Agent Z :=
  act (fun tid c w =>
    let '(r, c') := owner_fence_epoch_floor (mkConn (aw_journal w) (ap_faults c)) in
    let w := set_aw_journal (conn_db c') w in
    match r with
    | Err e => Some (Err (DatabaseFailed e), w)
    | Ok durable => Some (Ok durable, set_floor tid durable w)
    end).

(** Raises the local floor to the durable one, and returns it. *)
Definition refresh_fence_epoch_floor : Agent Z :=
  act (fun tid c w =>
    let '(r, c') := owner_fence_epoch_floor (mkConn (aw_journal w) (ap_faults c)) in
    let w := set_aw_journal (conn_db c') w in
    match r with
    | Err e => Some (Err (DatabaseFailed e), w)
    | Ok durable =>
        let floor := Z.max (own_floor tid w) durable in
        Some (Ok floor, note (Refreshed tid floor) (set_floor tid floor w))
    end).

(** [raise_owner_fence_epoch_floor] and the assignments that follow it. *)
Definition raise_to_term (verified : VerifiedConnectionFenceV2) : Agent unit :=
  act (fun tid c w =>
    let '(r, c') := raise_owner_fence_epoch_floor (vcf_owner_epoch verified)
      (mkConn (aw_journal w) (ap_faults c)) in
    let w := set_aw_journal (conn_db c') w in
    match r with
    | Err e => Some (Err (DatabaseFailed e), w)
    | Ok durable =>
        let w := set_floor tid durable w in
        if negb (durable =? vcf_owner_epoch verified)
        then Some (Err (invalid "Controller connection fence epoch is not newer"), w)
        else Some (Ok tt, note (Activated tid verified) w)
    end).

Definition activate_session_connection_fence (session_mode : AgentSessionMode) (secs nanos : Z)
    : Agent unit :=
  match session_mode with
  | ReadOnly _ | AuthorizedV11 (SignedReadOnlyV11 _) => pret tt
  | AuthorizedV11 (FencedV11 _ verified) =>
      if lease_expired verified secs nanos
      then pthrow (invalid "Controller connection fence lease has expired")
      else if instant_le (vcf_expires_at_seconds verified, vcf_expires_at_nanos verified) (secs, nanos)
      then pthrow (invalid "Controller connection fence proof has expired")
      else
      floor <- refresh_fence_epoch_floor ;;
      if vcf_owner_epoch verified <=? floor
      then pthrow (invalid "Controller connection fence epoch is not newer")
      else raise_to_term verified
  end.

Definition negotiate_session_mode (response : SessionHandshakeResponse) (supported : list bytes)
    : Agent AgentSessionMode :=
  now <- since_epoch ;;
  secs <- plift (unix_seconds_of now) ;;
  plift (negotiate_session_mode_at_instant response supported (cx_node_id cx) (cx_endpoint_id cx)
    (cx_command_keys cx) secs (subsec_nanos now)).

Definition negotiate_and_activate_session (response : SessionHandshakeResponse)
    (supported : list bytes) : Agent AgentSessionMode :=
  session_mode <- negotiate_session_mode response supported ;;
  now <- since_epoch ;;
  secs <- plift (unix_seconds_of now) ;;
  activate_session_connection_fence session_mode secs (subsec_nanos now) ;;;
  (match shr_session_grant response with
   | Some grant => on_journal (record_verified_session_grant (encode_grant grant))
   | None => pret tt
   end) ;;;
  pret session_mode.

Definition session_capabilities : Agent (list bytes) :=
  response <- pcatch (call client ReqOcservVersion) ;;
  let terminate := match response with
                   | Ok (mkPrivdResponse _ _ (Some (ResOcservVersion version))) =>
                       supports_session_terminate version
                   | _ => false
                   end in
  pret (filter (fun capability => terminate = true \/ capability <> str "ocserv.session.terminate")
          supported_capabilities).

(** ** Commands *)

(** What the answer of the privileged daemon makes of a running command. *)
Definition conclude_external (envelope : CommandEnvelope) (command : ExternalCommand)
    (response : result AgentError PrivdResponse) (now : Z) : Exec CommandOutcome :=
  match response with
  | Err _ => mark_external_unknown command (str "privd_transport_unknown") now
  | Ok response =>
      match response_proof response with
      | None => mark_external_unknown command (str "privd_receipt_missing_or_malformed") now
      | Some (proof, completed_at) =>
          match pr_result response with
          | Some (ResMutation true as value) =>
              match desired_resource envelope with
              | Some (resource_type, resource_key, revision) =>
                  complete_external_applied_attested command resource_type resource_key revision
                    (encode_result value) proof completed_at
              | None => complete_external_attested command (Ok (encode_result value)) proof completed_at
              end
          | Some (ResConfigApply _ as value) =>
              match desired_resource envelope with
              | Some (resource_type, resource_key, revision) =>
                  complete_external_applied_attested command resource_type resource_key revision
                    (encode_result value) proof completed_at
              | None => efail (rejected "config_apply_invalid")
              end
          | Some (ResConfigPlan _ as value) | Some (ResCertificateCsr _ as value)
          | Some (ResCertificateRevoke _ as value) | Some (ResCertificateP12 _ as value)
          | Some (ResAgentUpgradeScheduled _ as value) =>
              complete_external_attested command (Ok (encode_result value)) proof completed_at
          | Some (ResError error) =>
              match terminal_privd_error_code (pe_kind error) with
              | Some code => complete_external_attested command (Err code) proof completed_at
              | None => mark_external_unknown command (str "privd_outcome_unknown") now
              end
          | _ => mark_external_unknown command (str "privd_outcome_unknown") now
          end
      end
  end.

Definition perform_external (envelope : CommandEnvelope) (command : ExternalCommand) (now : Z)
    : AgentProg CommandError CommandOutcome :=
  response <- pcatch (call_command client envelope (ext_accepted_at command)) ;;
  on_executor (conclude_external envelope command response now).

(** A session command can only be judged in the boot it was meant for. *)
Definition target_boot_current (payload : Payload) : AgentProg CommandError bool :=
  match payload with
  | PSessionDisconnect target | PSessionTerminate target =>
      found <- read_file ;;
      pret match found with
           | FileContent content =>
               utf8_valid content && bool_decide (trim content = sm_boot_id target)
           | _ => false
           end
  | _ => pret true
  end.

Definition observe_with (payload : Payload) (request : Agent PrivdResponse)
    : AgentProg CommandError ExternalEffectObservation :=
  response <- pcatch request ;;
  pret match response with
       | Ok response =>
           match pr_result response with
           | Some value => map_external_effect payload value
           | None => ObservationUnknown
           end
       | Err _ => ObservationUnknown
       end.

Definition observe_external_effect (envelope : CommandEnvelope)
    : AgentProg CommandError ExternalEffectObservation :=
  match env_payload envelope with
  | None => pret ObservationUnknown
  | Some (PConfigPlan _ | PCompleteConfigPlan _ | PCertificateCsr _ | PCertificateRevoke _
         | PCertificateP12 _) => pret Absent
  | Some payload =>
      current <- target_boot_current payload ;;
      if negb current then pret ObservationUnknown
      else match payload with
      | PSessionDisconnect _ | PSessionTerminate _ => observe_with payload (call client ReqSessionList)
      | PIpBanRemove _ => observe_with payload (call client ReqIpBanList)
      | payload =>
          match desired_effect_identity payload with
          | Some _ => observe_with payload (call_reconcile client envelope)
          | None => pret ObservationUnknown
          end
      end
  end.

Definition reconcile_external_command (envelope : CommandEnvelope) (context : CommandContext)
    (now : Z) : AgentProg CommandError CommandOutcome :=
  response <- pcatch (call_reconcile client envelope) ;;
  if match response with Ok r => bool_decide (is_Some (response_proof r)) | Err _ => false end
  then
    command <- on_executor (begin_attested_recovery envelope context) ;;
    on_executor (conclude_external envelope command response now)
  else
    observed <- observe_external_effect envelope ;;
    on_executor (reconcile_external envelope context observed).

Definition execute_external_command (envelope : CommandEnvelope) (context : CommandContext)
    (now : Z) : AgentProg CommandError CommandOutcome :=
  match unwrap_or (CommandDeliveryMode_try_from (env_delivery_mode envelope)) DeliveryUnspecified with
  | ExecuteOrReplay =>
      prepared <- on_executor (prepare_external envelope context) ;;
      match prepared with
      | PrepareExecute command => perform_external envelope command now
      | PrepareReplay outcome => pret outcome
      end
  | ReconcileOnly => reconcile_external_command envelope context now
  | RetryIfEffectAbsent =>
      command <- on_executor (retry_external envelope context) ;;
      perform_external envelope command now
  | DeliveryUnspecified => pthrow (rejected "delivery_mode_invalid")
  end.

End Session.

(** The streams the Controller opens in a session
    ([rust/crates/agent/src/main.rs]): commands, with the barrier file that
    holds up synthetic ones, artifact fetch and artifact consumption. *)

Section Streams.
Context {crypto : Crypto} {platform : Platform} {text : RecordText} {prost : Prost}.
Context {wire : ResponseWire} {codec : AgentWire}.
Variable client : PrivdClient.
Variable cx : SessionContext.
Local Open Scope prog_scope.

(** * The barrier file of synthetic commands *)

Definition synthetic_barrier_target (raw : bytes) : result AgentError (option bytes) :=
  if is_empty raw then Ok None
  else
  let value := match strip_suffix [x0a] raw with Some value => value | None => raw end in
  if is_empty value || contains x0a value || contains x0d value
  then Err (invalid "synthetic barrier target is invalid")
  else
  let? target := ok_or (uuid_parse_str value) (invalid "synthetic barrier target is not a UUID") in
  if bool_decide (uuid_to_string target <> value)
  then Err (invalid "synthetic barrier target is not canonical")
  else Ok (Some target).

Definition read_synthetic_barrier (found : FileRead) : result AgentError (option (option bytes)) :=
  match found with
  | FileMissing => Ok None
  | FileFailed => Err IoFailed
  | FileContent raw =>
      if negb (utf8_valid raw) then Err IoFailed
      else let? target := synthetic_barrier_target raw in Ok (Some target)
  end.

(** Polls the file until it is gone or names another command; a poll that
    finds neither is no step. *)
Definition await_barrier (command_id : bytes) : Agent unit :=
  act (fun _ c w =>
    match read_synthetic_barrier (ap_file c) with
    | Err e => Some (Err e, w)
    | Ok None => Some (Ok tt, w)
    | Ok (Some (Some target)) => if bool_decide (target <> command_id) then Some (Ok tt, w) else None
    | Ok (Some None) => None
    end).

Definition wait_for_synthetic_barrier (command_id : bytes) : Agent unit :=
  if negb (cx_synthetic_barrier cx) then pret tt
  else if negb (len command_id =? 16) then pthrow (invalid "synthetic barrier command ID is invalid")
  else
  found <- read_file ;;
  barrier <- plift (read_synthetic_barrier found) ;;
  match barrier with
  | None => pret tt
  | Some (Some target) =>
      if bool_decide (target <> command_id) then pret tt
      else host_call ;;; await_barrier command_id
  | Some None => await_barrier command_id
  end.

(** * Command streams *)

(** [decode_strict_command_envelope(bytes)?]; the decoder always ends. *)
Definition decode_command (b : bytes) : result AgentError CommandEnvelope :=
  match decode_strict_command_envelope b with
  | Some (Ok envelope) => Ok envelope
  | Some (Err e) => Err (WireFailed e)
  | None => Err (WireFailed Decode)
  end.

(** Whether the command comes from a stale owner; an error ends the session. *)
Definition authorize_command (authority : ActiveSessionAuthority) (floor : Z)
    (envelope : CommandEnvelope) (secs nanos : Z) : result AgentError bool :=
  match authority with
  | SignedReadOnlyV11 _ =>
      let? fence := ok_or (env_connection_fence envelope)
        (invalid "signed read-only session received an unfenced command") in
      let? _ := gate_signed_read_only_stale_diagnostic (cx_command_keys cx) floor (cx_node_id cx)
        (cx_endpoint_id cx) fence secs nanos in
      Ok true
  | FencedV11 grant connection_fence =>
      let? _ := verify_fenced_operation (cx_command_keys cx) grant connection_fence floor
        (cx_node_id cx) (cx_endpoint_id cx) (env_connection_fence envelope)
        (env_fence_binding envelope) OperationCommand (env_command_id envelope)
        (env_required_capability envelope) secs nanos in
      Ok false
  end.

Definition session_context (authority : ActiveSessionAuthority) (secs : Z) : CommandContext :=
  let grant := authority_grant authority in
  mkCommandContext (cx_node_id cx) (sga_authorization_revision grant)
    (sga_negotiated_capabilities grant) (sga_expires_at_unix_seconds grant) (cx_command_keys cx)
    secs false.

(** The result reported for an execution.  No delivery injects a crash, which
    the code marks as unreachable. *)
Definition execution_result (envelope : CommandEnvelope) (execution : result CommandError CommandOutcome)
    (now : Z) : result AgentError CommandResult :=
  match execution with
  | Ok outcome => Ok (command_result (out_record outcome) (out_replayed outcome))
  | Err (Rejected code) => Ok (rejected_result envelope code now)
  | Err Executor.IdentityConflict => Ok (rejected_result envelope (str "command_identity_conflict") now)
  | Err Executor.PayloadConflict => Ok (rejected_result envelope (str "idempotency_payload_conflict") now)
  | Err (PreEffectJournalFailure _) => Ok (rejected_result envelope (str "journal_unavailable") now)
  | Err (OutcomeUnknown code record _) => Ok (unknown_result record code)
  | Err (InjectedCrash _) => Err (invalid "crash injection is test-only")
  end.

Definition report_result (envelope : CommandEnvelope) (r : CommandResult) : Agent unit :=
  send_framed (encode_command_event r) (fun tid => Reported tid envelope r).

Definition run_command (envelope : CommandEnvelope) (context : CommandContext) (now : Z)
    : AgentProg CommandError CommandOutcome :=
  if is_external (env_payload envelope)
  then execute_external_command client envelope context now
  else on_executor (deliver envelope context).

Definition handle_command (authority : ActiveSessionAuthority) (framed_length : Z) : Agent unit :=
  if (framed_length =? 0) || (MAX_COMMAND_BYTES <? framed_length)
  then pthrow (invalid "command size invalid")
  else
  b <- recv_exact framed_length ;;
  envelope <- plift (decode_command b) ;;
  floor <- refresh_fence_epoch_floor ;;
  now <- since_epoch ;;
  secs <- plift (unix_seconds_of now) ;;
  stale_owner <- plift (authorize_command authority floor envelope secs (subsec_nanos now)) ;;
  if stale_owner : bool
  then report_result envelope (rejected_result envelope (str "stale_owner_epoch") secs)
  else
  (if is_synthetic (env_payload envelope)
   then wait_for_synthetic_barrier (env_command_id envelope) else pret tt) ;;;
  execution <- pcatch (run_command envelope (session_context authority secs) secs) ;;
  r <- plift (execution_result envelope execution secs) ;;
  report_result envelope r.

(** * Artifact streams *)

Definition check_fetch (authority : SessionGrantAuthority) (active_fence : VerifiedConnectionFenceV2)
    (floor : Z) (request : ArtifactFetchRequest) (grant : ArtifactGrantV1) (secs nanos : Z)
    : result AgentError unit :=
  let? _ := verify_fenced_operation (cx_command_keys cx) authority active_fence floor (cx_node_id cx)
    (cx_endpoint_id cx) (afr_connection_fence request) (afr_fence_binding request) OperationArtifact
    (afr_artifact_id request) CONNECTION_FENCING_CAPABILITY secs nanos in
  let? _ := map_err AuthorizationFailed (verify_artifact_grant (cx_command_keys cx) grant (cx_node_id cx)
    (afr_artifact_id request) (afr_purpose request) (afr_max_bytes request) secs) in
  Ok tt.

Definition MAX_ARTIFACT_CHUNK : Z := 256 * 1024.

(** The chunk of a response, checked against the request and the bytes sent. *)
Definition check_chunk (request : ArtifactFetchRequest) (grant : ArtifactGrantV1) (offset : Z)
    (response : PrivdResponse) : result AgentError ArtifactData :=
  match pr_result response with
  | Some (ResArtifactData data) =>
      if bool_decide (ad_artifact_id data <> afr_artifact_id request)
         || bool_decide (ad_grant_id data <> ag_grant_id grant)
         || negb (ad_offset data =? offset)
         || is_empty (ad_data data)
         || (MAX_ARTIFACT_CHUNK <? len (ad_data data))
         || (afr_max_bytes request <? Z.min (offset + len (ad_data data)) u64_max)
         || (ad_eof data && negb (len (ad_sha256 data) =? 32))
         || (negb (ad_eof data) && negb (is_empty (ad_sha256 data)))
      then Err (invalid "privd artifact chunk invalid") else Ok data
  | Some (ResError error) => Err (Invalid (pe_detail error))
  | _ => Err (invalid "privd artifact response invalid")
  end.

Definition artifact_read (request : ArtifactFetchRequest) (grant : ArtifactGrantV1) (offset : Z)
    : Agent PrivdResponse :=
  call client (ReqArtifactRead (mkArtifactReadRequest (Some grant) offset (afr_connection_fence request)
    (afr_fence_binding request))).

(** Reads and forwards the chunks: the bytes hashed so far, and at the end the
    digest the daemon announced.  Every turn moves the offset on, so
    [max_bytes] turns and one more are enough. *)
Fixpoint stream_chunks (fuel : nat) (request : ArtifactFetchRequest) (grant : ArtifactGrantV1)
    (offset : Z) (hashed : bytes) : Agent (bytes * bytes) :=
  match fuel with
  | O => pthrow (invalid "artifact turns used up")
  | S fuel =>
      response <- artifact_read request grant offset ;;
      data <- plift (check_chunk request grant offset response) ;;
      let chunk := mkArtifactChunk (afr_artifact_id request) offset (ad_data data) (ad_eof data)
        (ad_sha256 data) in
      send_framed (encode_chunk chunk) (fun tid => Streamed tid chunk) ;;;
      let next_offset := Z.min (offset + len (ad_data data)) u64_max in
      if ad_eof data then pret (hashed ++ ad_data data, ad_sha256 data)
      else stream_chunks fuel request grant next_offset (hashed ++ ad_data data)
  end.

(** [send.finish()?] and [send.stopped()], under its timeout: whether the peer
    stopped the stream before it had everything. *)
Definition await_stopped : Agent bool :=
  act (fun _ c w => Some (if ap_ok c then Ok (negb (ap_number c =? 0)) else Err IoFailed, w)).

Definition MAX_ARTIFACT_BYTES : Z := 64 * 1024 * 1024.

Definition handle_artifact_stream (length : Z) (authority : SessionGrantAuthority)
    (active_fence : VerifiedConnectionFenceV2) : Agent unit :=
  if (length =? 0) || (64 * 1024 <? length) then pthrow (invalid "artifact request size invalid")
  else
  b <- recv_exact length ;;
  request <- plift (ok_or (decode_fetch b) (WireFailed Decode)) ;;
  plift (if len (afr_artifact_id request) =? 16 then Ok tt else Err (invalid "artifact ID invalid")) ;;;
  grant <- plift (ok_or (afr_grant request) (invalid "artifact grant required")) ;;
  if negb (uuid_version (afr_artifact_id request) =? 7)
     || bool_decide (afr_purpose request <> str "certificate_p12")
     || (afr_max_bytes request =? 0) || (MAX_ARTIFACT_BYTES <? afr_max_bytes request)
  then pthrow (invalid "artifact request invalid")
  else
  floor <- refresh_fence_epoch_floor ;;
  now <- since_epoch ;;
  secs <- plift (unix_seconds_of now) ;;
  plift (check_fetch authority active_fence floor request grant secs (subsec_nanos now)) ;;;
  streamed <- stream_chunks (S (Z.to_nat (afr_max_bytes request))) request grant 0 [] ;;
  stopped <- await_stopped ;;
  if stopped || bool_decide (sha256 streamed.1 <> streamed.2)
  then pthrow (invalid "artifact delivery integrity failed") else pret tt.

Definition check_consume (authority : SessionGrantAuthority) (active_fence : VerifiedConnectionFenceV2)
    (floor : Z) (request : ArtifactConsumeFinalizeRequest) (grant : ArtifactGrantV1) (secs nanos : Z)
    : result AgentError unit :=
  let? _ := verify_fenced_operation (cx_command_keys cx) authority active_fence floor (cx_node_id cx)
    (cx_endpoint_id cx) (acf_connection_fence request) (acf_fence_binding request) OperationArtifact
    (ag_grant_id grant) CONNECTION_FENCING_CAPABILITY secs nanos in
  let verify := if acf_confirm_only request
                then verify_artifact_grant_for_confirmation (cx_command_keys cx)
                else verify_artifact_grant (cx_command_keys cx) in
  let? _ := map_err AuthorizationFailed
    (verify grant (cx_node_id cx) (ag_artifact_id grant) (str "certificate_p12") (acf_size request) secs) in
  Ok tt.

Definition check_consume_shape (request : ArtifactConsumeFinalizeRequest) (grant : ArtifactGrantV1)
    : result AgentError unit :=
  if negb (len (ag_artifact_id grant) =? 16) then Err (invalid "artifact ID invalid")
  else if negb (len (ag_grant_id grant) =? 16) then Err (invalid "artifact grant ID invalid")
  else if negb (uuid_version (ag_artifact_id grant) =? 7) || negb (uuid_version (ag_grant_id grant) =? 7)
     || negb (len (acf_sha256 request) =? 32) || (acf_size request =? 0)
     || negb (acf_size request =? ag_max_bytes grant)
     || bool_decide (ag_purpose grant <> str "certificate_p12")
  then Err (invalid "artifact finalize request invalid") else Ok tt.

Definition handle_artifact_consume (length : Z) (authority : SessionGrantAuthority)
    (active_fence : VerifiedConnectionFenceV2) : Agent unit :=
  if (length =? 0) || (64 * 1024 <? length) then pthrow (invalid "artifact finalize request size invalid")
  else
  b <- recv_exact length ;;
  request <- plift (ok_or (decode_consume b) (WireFailed Decode)) ;;
  grant <- plift (ok_or (acf_grant request) (invalid "artifact grant required")) ;;
  plift (check_consume_shape request grant) ;;;
  floor <- refresh_fence_epoch_floor ;;
  now <- since_epoch ;;
  secs <- plift (unix_seconds_of now) ;;
  plift (check_consume authority active_fence floor request grant secs (subsec_nanos now)) ;;;
  response <- call client (ReqArtifactConsume (mkArtifactConsumeRequest (Some grant) (acf_sha256 request)
    (acf_size request) (acf_confirm_only request) (acf_connection_fence request)
    (acf_fence_binding request))) ;;
  match pr_result response with
  | Some (ResMutation applied) =>
      if negb (acf_confirm_only request) && negb applied
      then pthrow (invalid "artifact consumption failed")
      else
      b <- pret (encode_consumed (mkArtifactConsumeFinalizeResponse (ag_artifact_id grant)
             (ag_grant_id grant) applied)) ;;
      plift (ok_or (u32_try_from (len b)) IoFailed) ;;;
      host_call
  | _ => pthrow (invalid "artifact consumption failed")
  end.

(** A stream the Controller opened: the first four bytes say what it is. *)
Definition handle_command_stream (authority : ActiveSessionAuthority) : Agent unit :=
  header <- recv_exact 4 ;;
  let framed_length := be_value header in
  let kind := Z.land framed_length ARTIFACT_FRAME_MASK in
  let length := Z.land framed_length (u32_max - ARTIFACT_FRAME_MASK) in
  if kind =? ARTIFACT_FETCH_FRAME
  then
    fenced <- plift (fenced_artifact_authority authority framed_length) ;;
    handle_artifact_stream length fenced.1 fenced.2
  else if kind =? ARTIFACT_CONSUME_FRAME
  then
    fenced <- plift (fenced_artifact_authority authority framed_length) ;;
    handle_artifact_consume length fenced.1 fenced.2
  else if negb (kind =? 0) then pthrow (invalid "command frame kind invalid")
  else handle_command authority framed_length.

End Streams.
