(* ===== verification/AgentRun.v ===== *)
(** The life of an Agent process ([rust/crates/agent/src/main.rs]): telemetry,
    one session with the Controller, the supervisor that redials, and [main]
    from the point where the configuration is read. *)

From stdpp Require Import base list gmap numbers countable strings sorting.
From Stdlib Require Import ZArith Lia Bool Strings.Byte.
From S2P Require Import Prelude Bytes Text Contracts ConfigProfile Authorization.
From S2P Require Import CommandAuthorization Sql Journal Telemetry Executor StrictWire.
From S2P Require Import EffectRecords EffectStore Attestation Concurrency Utf8 UpgradeRecords.
From S2P Require Import PrivdProtocol PrivdAuthority Privd AgentClient AgentSession.

Local Open Scope Z_scope.

(** * Observations *)

Definition MAX_TELEMETRY_BYTES : Z := 512 * 1024.

Definition text (s : String.string) : Json := JsonText (str s).

(** What the responses of a snapshot tell, each kind the last time it occurs. *)
Record Observed := mkObserved {
  ob_service : Json; ob_version : bytes; ob_fingerprint : Json; ob_sessions : list Session;
  ob_bans : list IpBan; ob_users : option (list ObservedUser); ob_groups : option (list ObservedGroup) }.

Definition nothing_observed : Observed :=
  mkObserved (JsonObject [(str "active_state", text "unknown"); (str "sub_state", text "unknown")])
    (str "unknown") (JsonObject []) [] [] None None.

Definition observe_response (o : Observed) (response : PrivdResponse) : Observed :=
  match pr_result response with
  | Some (ResServiceStatus value) =>
      mkObserved (JsonObject [(str "load_state", JsonText (sst_load_state value));
                              (str "active_state", JsonText (sst_active_state value));
                              (str "sub_state", JsonText (sst_sub_state value))])
        (ob_version o) (ob_fingerprint o) (ob_sessions o) (ob_bans o) (ob_users o) (ob_groups o)
  | Some (ResOcservVersion version) =>
      mkObserved (ob_service o) version (ob_fingerprint o) (ob_sessions o) (ob_bans o) (ob_users o)
        (ob_groups o)
  | Some (ResConfigFingerprint value) =>
      mkObserved (ob_service o) (ob_version o)
        (JsonObject [(str "config_sha256", JsonText (cfp_sha256 value));
                     (str "config_size_bytes", JsonNumber (cfp_size_bytes value))])
        (ob_sessions o) (ob_bans o) (ob_users o) (ob_groups o)
  | Some (ResSessionList sessions) =>
      mkObserved (ob_service o) (ob_version o) (ob_fingerprint o) sessions (ob_bans o) (ob_users o)
        (ob_groups o)
  | Some (ResIpBanList bans) =>
      mkObserved (ob_service o) (ob_version o) (ob_fingerprint o) (ob_sessions o) bans (ob_users o)
        (ob_groups o)
  | Some (ResUserList users) =>
      mkObserved (ob_service o) (ob_version o) (ob_fingerprint o) (ob_sessions o) (ob_bans o) (Some users)
        (ob_groups o)
  | Some (ResGroupList groups) =>
      mkObserved (ob_service o) (ob_version o) (ob_fingerprint o) (ob_sessions o) (ob_bans o) (ob_users o)
        (Some groups)
  | _ => o
  end.

Definition quoted (b : bytes) : bytes := [x22] ++ b ++ [x22].

(** [join], where the separator is a text. *)
Fixpoint join_text (separator : bytes) (l : list bytes) : bytes :=
  match l with
  | [] => []
  | [b] => b
  | b :: rest => b ++ separator ++ join_text separator rest
  end.

(** [{"name":..,"enabled":..}] and [{"name":..,"members":[..]}], written out
    byte by byte since a name needs no escape. *)
Definition canonical_user (username : bytes) (enabled : bool) : bytes :=
  str "{" ++ quoted (str "name") ++ str ":" ++ quoted username ++ str "," ++ quoted (str "enabled")
  ++ str ":" ++ (if enabled then str "true" else str "false") ++ str "}".

Definition canonical_group (group_name : bytes) (members : list bytes) : bytes :=
  str "{" ++ quoted (str "name") ++ str ":" ++ quoted group_name ++ str "," ++ quoted (str "members")
  ++ str ":[" ++ join x2c (quoted <$> members) ++ str "]}".

(** [SystemTime] as a protobuf timestamp. *)
Definition timestamp_of (now : Z) : Timestamp := mkTimestamp (as_secs now) (subsec_nanos now).

Definition group_le (a b : GroupObservation) : Prop :=
  bytes_leb (go_group_name a) (go_group_name b) = true.

#[export] Instance group_le_dec a b : Decision (group_le a b).
Proof. unfold group_le. apply _. Defined.

Definition upgrade_state (state : bytes) : AgentUpgradeOutcomeState :=
  if bool_decide (state = str "succeeded") then OutcomeSucceeded
  else if bool_decide (state = str "failed") then OutcomeFailed
  else if bool_decide (state = str "rolled_back") then OutcomeRolledBack
  else OutcomeUnspecified.

Definition upgrade_report (outcome : UpgradeOperationResult) : AgentUpgradeResultReport :=
  mkAgentUpgradeResultReport (uor_operation_id outcome) (outcome_value (upgrade_state (uor_state outcome)))
    (uor_target_version outcome) (uor_completed_unix_ms outcome) (uor_detail outcome)
    (uor_privileged_result_proof outcome).

(** The selected network path: its mode and round-trip time. *)
Definition path_of (selected : option (bool * bool * Z)) : bytes * Z :=
  match selected with
  | None => (str "unknown", 0)
  | Some (is_ip, is_relay, rtt) =>
      (if is_ip then str "direct" else if is_relay then str "relay" else str "unknown",
       Z.min rtt u64_max)
  end.

Definition selected_path : Agent (bytes * Z) := act (fun _ c w => Some (Ok (path_of (ap_path c)), w)).

Section Run.
Context {crypto : Crypto} {platform : Platform} {rtext : RecordText} {prost : Prost}.
Context {wire : ResponseWire} {codec : AgentWire}.
Variable client : PrivdClient.
Variable cx : SessionContext.
Local Open Scope prog_scope.

(** [applied_revision(..).ok().flatten().unwrap_or(0)] *)
Definition known_revision (resource_type key : bytes) : Agent Z :=
  found <- pcatch (on_journal (applied_revision resource_type key)) ;;
  pret match found with Ok (Some revision) => revision | _ => 0 end.

Fixpoint user_observations (users : list ObservedUser) : Agent (list UserObservation) :=
  match users with
  | [] => pret []
  | user :: rest =>
      revision <- known_revision (str "user") (ou_username user) ;;
      observed <- user_observations rest ;;
      pret (mkUserObservation (ou_username user) (ou_enabled user) revision
              (sha256 (canonical_user (ou_username user) (ou_enabled user))) :: observed)
  end.

Fixpoint group_observations (groups : list ObservedGroup) : Agent (list GroupObservation) :=
  match groups with
  | [] => pret []
  | group :: rest =>
      revision <- known_revision (str "group") (og_group_name group) ;;
      observed <- group_observations rest ;;
      pret (mkGroupObservation (og_group_name group) (og_members group) revision
              (sha256 (canonical_group (og_group_name group) (og_members group))) :: observed)
  end.

(** Groups that were applied but are not observed are reported empty. *)
Fixpoint add_applied_groups (groups : list GroupObservation) (applied : list (bytes * Z))
    : list GroupObservation :=
  match applied with
  | [] => groups
  | (group_name, revision) :: rest =>
      if existsb (fun g => bool_decide (go_group_name g = group_name)) groups
      then add_applied_groups groups rest
      else add_applied_groups
             (groups ++ [mkGroupObservation group_name [] revision (sha256 (canonical_group group_name []))])
             rest
  end.

Definition complete_groups (groups : list GroupObservation) : Agent (list GroupObservation) :=
  applied <- pcatch (on_journal (applied_revisions (str "group"))) ;;
  pret match applied with
       | Ok applied => merge_sort group_le (add_applied_groups groups applied)
       | Err _ => groups
       end.

Definition json_or_empty (j : Json) : bytes := default (str "{}") (json_to_vec j).

Definition build_telemetry (sequence : Z) (observations : list PrivdResponse)
    (upgrade_outcomes : list UpgradeOperationResult) (drops : list Z) : Agent TelemetryBatch :=
  now <- system_time ;;
  let o := fold_left observe_response observations nothing_observed in
  (* the code reads the revisions while it goes through the responses *)
  users <- user_observations (default [] (ob_users o)) ;;
  groups <- group_observations (default [] (ob_groups o)) ;;
  if bool_decide (ob_users o = None) || bool_decide (ob_groups o = None)
  then pthrow (invalid "privd user/group snapshot incomplete")
  else
  groups <- complete_groups groups ;;
  if (MAX_MANAGED_RESOURCES <? len users) || (MAX_MANAGED_RESOURCES * 2 <? len groups)
  then pthrow (invalid "user/group telemetry capacity exceeded")
  else
  path <- selected_path ;;
  let ocserv := JsonObject [(str "service", ob_service o); (str "configuration", ob_fingerprint o)] in
  let path := JsonObject [(str "mode", JsonText path.1); (str "rtt_ms", JsonNumber path.2)] in
  batch_id <- now_v7 ;;
  let batch :=
    mkTelemetryBatch batch_id (cx_node_id cx) sequence 2
      (mkObservedSnapshot (timestamp_of now) (cx_boot_id cx) (cx_agent_instance_id cx) release_version
         (ob_version o) (cx_os_release cx) (json_or_empty ocserv) (str "{}") (json_or_empty path)
         (mkTelemetryDropCounters (nth 0 drops 0) (nth 1 drops 0) (nth 2 drops 0) (nth 3 drops 0))
         (upgrade_report <$> upgrade_outcomes) (default [] runtime_architecture))
      ((fun s => mkSessionObservation (ses_id s) (ses_username s) (ses_remote_ip s) (timestamp_of now) 0 0)
         <$> ob_sessions o)
      [mkMetricSample (timestamp_of now) (str "session_count") (Z.min (len (ob_sessions o)) u32_max)]
      ((fun b => mkIpBanObservation (ban_ip b) (ban_seconds_remaining b)) <$> ob_bans o)
      users groups in
  if MAX_TELEMETRY_BYTES <? len (encode_batch batch)
  then pthrow (invalid "telemetry payload size invalid") else pret batch.

Definition send_telemetry (payload : bytes) : Agent unit :=
  if is_empty payload || (MAX_TELEMETRY_BYTES <? len payload)
  then pthrow (invalid "telemetry payload size invalid")
  else host_call ;;; send_framed payload (fun tid => Shipped tid payload).

Fixpoint deliver_pending (pending : list (bytes * bytes)) : Agent unit :=
  match pending with
  | [] => pret tt
  | (pending_id, payload) :: rest =>
      send_telemetry payload ;;;
      on_journal (acknowledge_telemetry pending_id) ;;;
      deliver_pending rest
  end.

Definition heartbeat (sequence : Z) : Agent unit :=
  observations <- snapshot client ;;
  upgrade_outcomes <- pcatch (upgrade_results client) ;;
  drops <- on_journal telemetry_drop_counters ;;
  batch <- build_telemetry sequence observations
    (match upgrade_outcomes with Ok outcomes => outcomes | Err _ => [] end) drops ;;
  let payload := encode_batch batch in
  plift (if len (tb_batch_id batch) =? 16 then Ok tt else Err (invalid "telemetry batch ID invalid")) ;;;
  now <- unix_seconds ;;
  expires_at <- plift (if bool_decide (in_i64 (now + OFFLINE_RECOVERY_RETENTION_SECONDS))
                       then Ok (now + OFFLINE_RECOVERY_RETENTION_SECONDS) else Err ClockUnavailable) ;;
  on_journal (enqueue_telemetry (mkTelemetryInsert (tb_batch_id batch) 2 now expires_at payload now
    (64 * 1024 * 1024))) ;;;
  pending <- on_journal (telemetry_pending 32 now) ;;
  deliver_pending pending.

(** * One session *)

(** When the session ends of itself: never for a read-only session; otherwise
    the seconds left when the session starts to wait. *)
Definition wait_for_session_expiry (session_mode : AgentSessionMode) : Agent (option Z) :=
  match expires_at_unix_seconds session_mode with
  | None => pret None
  | Some expires_at =>
      now <- unix_seconds ;;
      let lifetime := i64_saturating_sub expires_at now in
      if lifetime <? 0 then pthrow ClockUnavailable else pret (Some lifetime)
  end.

(** [tokio::select!]: an event that can happen; a session without an expiry
    does not expire. *)
Definition select (expiry : result AgentError (option Z)) : Agent SessionEvent :=
  act (fun _ c w =>
    match ap_event c, expiry with
    | SessionExpired, Ok None => None
    | event, _ => Some (Ok event, w)
    end).

Definition u64_saturating_add (a b : Z) : Z := Z.min (a + b) u64_max.

(** The loop of a session; a session may be closed after any number of turns. *)
Fixpoint session_loop (turns : nat) (session_mode : AgentSessionMode)
    (expiry : result AgentError (option Z)) (sequence : Z) : Agent unit :=
  match turns with
  | O => pret tt
  | S turns =>
      event <- select expiry ;;
      match event with
      | ConnectionClosed => pret tt
      | RelayFailed => pthrow RelayFailover
      | SessionExpired =>
          plift expiry ;;; pthrow (invalid "Controller session grant expired")
      | StreamAccepted =>
          host_call ;;;
          match session_mode with
          | ReadOnly _ => pthrow (invalid "read-only session received a command or artifact stream")
          | AuthorizedV11 authority =>
              handle_command_stream client cx authority ;;;
              session_loop turns session_mode expiry sequence
          end
      | HeartbeatTick =>
          let sequence := u64_saturating_add sequence 1 in
          heartbeat sequence ;;;
          session_loop turns session_mode expiry sequence
      end
  end.

Definition handshake_message (supported : list bytes) (now : Z) (nonce : bytes) : SessionHandshake :=
  mkSessionHandshake 1 1 release_version [] (cx_node_id cx) (cx_endpoint_id cx) supported
    (str "unknown") (cx_os_release cx) (cx_boot_id cx) (cx_agent_instance_id cx) [] (1024 * 1024)
    (Some (timestamp_of now)) nonce (cx_sealing_keys cx).

(** Sends the handshake and reads the response. *)
Definition exchange_handshake (handshake : SessionHandshake) : Agent SessionHandshakeResponse :=
  host_call ;;;
  plift (ok_or (u32_try_from (len (encode_handshake handshake))) (invalid "handshake too large")) ;;;
  host_call ;;;
  header <- recv_exact 4 ;;
  let response_length := be_value header in
  if (response_length =? 0) || (64 * 1024 <? response_length)
  then pthrow (invalid "handshake response size invalid")
  else
  response <- recv_exact response_length ;;
  plift (ok_or (decode_handshake_response response) (WireFailed Decode)).

Definition connect_once (turns : nat) : Agent unit :=
  host_call ;;;
  supported <- session_capabilities client ;;
  now <- system_time ;;
  nonce <- now_v7 ;;
  response <- exchange_handshake (handshake_message supported now nonce) ;;
  if negb (shr_result response =? HandshakeResult_value HandshakeAccepted)
  then pthrow (invalid "controller refused agent handshake")
  else
  session_mode <- negotiate_and_activate_session cx response supported ;;
  expiry <- pcatch (wait_for_session_expiry session_mode) ;;
  session_loop turns session_mode expiry 0.

(** * The supervisor *)

(** Whether the endpoint is there and open. *)
Definition endpoint_open (bound : bool) : Agent bool :=
  if negb bound then pret false else act (fun _ c w => Some (Ok (ap_ok c), w)).

Definition u32_saturating_add (a b : Z) : Z := Z.min (a + b) u32_max.

Definition next_attempt (attempt : Z) (session : result AgentError unit) : Z :=
  match session with
  | Ok _ => 0
  | Err RelayFailover => attempt
  | Err _ => u32_saturating_add attempt 1
  end.

(** The attempt the delay is computed from: a relay failover redials at once. *)
Definition delay_attempt (attempt : Z) (session : result AgentError unit) : Z :=
  match session with Err RelayFailover => 0 | _ => attempt end.

Fixpoint supervise_controller_sessions (redials turns : nat) (attempt : Z) (bound : bool) : Agent unit :=
  match redials with
  | O => pret tt
  | S redials =>
      is_open <- endpoint_open bound ;;
      ready <- (if is_open : bool then pret true
                else (created <- pcatch host_call ;; pret (is_ok created))) ;;
      if negb ready
      then
        let attempt := u32_saturating_add attempt 1 in
        delay Backoff_default attempt ;;;
        supervise_controller_sessions redials turns attempt false
      else
        session <- pcatch (connect_once turns) ;;
        let attempt := next_attempt attempt session in
        delay Backoff_default (delay_attempt attempt session) ;;;
        supervise_controller_sessions redials turns attempt true
  end.

End Run.

(** * The process *)

(** The configuration as read, with the local binding's node and Controller. *)
Record AgentConfig `{Crypto} := mkAgentConfig {
  ac_effective_uid : Z; ac_node_id : bytes; ac_endpoint_id : bytes;
  ac_binding : option (bytes * bytes); ac_command_keys : ControllerCommandKeyring;
  ac_sealing_keys : list SealingKeyDescriptorV1; ac_probe_only : bool; ac_synthetic_barrier : bool }.
Arguments mkAgentConfig {_}.

Section Process.
Context {crypto : Crypto} {platform : Platform} {rtext : RecordText} {prost : Prost}.
Context {wire : ResponseWire} {codec : AgentWire}.
Variable cfg : AgentConfig.
Local Open Scope prog_scope.

(** Why a response does not count as a successful probe. *)
Definition probe_failure (response : PrivdResponse) : option bytes :=
  match pr_result response with
  | Some (ResError error) => Some (pe_detail error)
  | None => Some (str "missing privd response result")
  | _ => None
  end.

(** The health gate: every observation of the first snapshot succeeded. *)
Definition require_healthy_snapshot (observations : list PrivdResponse)
    : result AgentError (list PrivdResponse) :=
  let failures := omap probe_failure observations in
  if negb (is_empty failures)
  then Err (Invalid (str "privd read-only snapshot failed: " ++ join_text (str "; ") failures))
  else Ok observations.

Definition run_agent (redials turns : nat) : Agent unit :=
  plift (ensure_unprivileged (ac_effective_uid cfg)) ;;;
  on_journal reject_retired_binding ;;;
  (match ac_binding cfg with
   | Some (node_id, controller) => on_journal (bind_authority node_id controller)
   | None => pret tt
   end) ;;;
  on_journal reject_retired_binding ;;;
  client <- plift (PrivdClient_new (5 * NANOS_PER_SECOND)) ;;
  observations <- snapshot client ;;
  plift (require_healthy_snapshot observations) ;;;
  if ac_probe_only cfg then pret tt
  else
  load_floor ;;;
  host_call ;;;
  boot_id <- read_boot_id ;;
  os_release <- read_os_release ;;
  agent_instance_id <- now_v7 ;;
  let cx := mkSessionContext (ac_node_id cfg) (ac_endpoint_id cfg) boot_id os_release agent_instance_id
    (ac_command_keys cfg) (ac_sealing_keys cfg) (ac_synthetic_barrier cfg) in
  supervise_controller_sessions client cx redials turns 0 false.

End Process.
