(* ===== verification/ExecutorOutcomes.v ===== *)
(** How commands get their terminal outcomes: every method of the executor
    moves the journal along [settles], where a command that becomes terminal
    is a synthetic one with its recorded effect, or stores an allowed proof;
    and every finished record a method returns is the one the journal holds. *)

From stdpp Require Import base list gmap numbers countable strings relations.
From Stdlib Require Import ZArith Lia Bool Strings.Byte.
From S2P Require Import Prelude Bytes Text Contracts ConfigProfile Authorization.
From S2P Require Import CommandAuthorization Sql Journal Telemetry JournalFacts JournalTheorems.
From S2P Require Import Executor ExecutorTheorems.

Local Open Scope Z_scope.

(** * Settling *)

Section Settles.
(** The proofs that may be stored for a key. *)
Variable allowed : bytes -> bytes -> Prop.

Definition evidenced (d : Db) (k : bytes) (r : CommandRow) : Prop :=
  is_Some (db_effects d !! k) \/ exists p, row_privileged_result_proof r = Some p /\ allowed k p.

Definition settles (d d' : Db) : Prop :=
  (forall k e, db_effects d !! k = Some e -> db_effects d' !! k = Some e)
  /\ forall k r, db_commands d' !! k = Some r -> terminal_row r ->
     db_commands d !! k = Some r \/ evidenced d' k r.

Lemma evidenced_mono d d' k r :
  (forall k e, db_effects d !! k = Some e -> db_effects d' !! k = Some e) ->
  evidenced d k r -> evidenced d' k r.
Proof. intros M [[e He]|H]; [left; eauto|by right]. Qed.

#[global] Instance settles_preorder : PreOrder settles.
Proof.
  split; [intros d; split; auto|]. intros d1 d2 d3 [M1 H1] [M2 H2]. split; [auto|].
  intros k r Hr T. destruct (H2 k r Hr T) as [H|H]; [|by right].
  destruct (H1 k r H T) as [H'|H']; [by left|right]. by eapply evidenced_mono.
Qed.

Lemma settles_same d d' :
  db_effects d' = db_effects d -> db_commands d' = db_commands d -> settles d d'.
Proof. intros E1 E2. split; [by rewrite E1|]. rewrite E2. by left. Qed.

Lemma settles_insert d k r :
  (terminal_row r -> evidenced d k r) -> settles d (set_commands (<[k := r]> (db_commands d)) d).
Proof.
  intros H. split; [done|]. intros k0 r0. simpl. rewrite lookup_insert_Some.
  intros [[<- <-]|[_ Hr]] T; [right; by apply H|by left].
Qed.

Lemma settles_update key w s d n d' :
  update_command key w s d = Ok (n, d') ->
  (forall r, w r = true -> terminal_row (s r) -> evidenced d key (s r)) -> settles d d'.
Proof.
  intros [[_ ->]|(r & Hr & Hw & _ & _ & ->)]%update_command_inv H; [reflexivity|].
  apply settles_insert. by apply H.
Qed.

Lemma open_row r s : ~ terminal s -> row_state r = as_str s -> ~ terminal_row r.
Proof. intros N E (s' & T & E'). rewrite E in E'. by apply (inj as_str) in E' as ->. Qed.

Lemma transition_settles key from set_ :
  (forall d r, terminal_row (set_ r) -> evidenced d key (set_ r)) ->
  evolves settles (transition key from set_).
Proof.
  intros H. unfold transition, command, query_command; evolve.
  apply evolves_stmt; [apply _|]. intros d n d' E. eapply settles_update; [exact E|]. auto.
Qed.

Lemma transition_command_settles key from to res code now :
  ~ terminal to -> evolves settles (transition_command key from to res code now).
Proof.
  intros N. unfold transition_command; evolve. apply transition_settles.
  intros d r T. by apply (open_row (set_outcome (as_str to) res code now r) to N eq_refl) in T.
Qed.

Lemma transition_attested_settles key from to res code proof now :
  allowed key proof -> evolves settles (transition_command_attested key from to res code proof now).
Proof.
  intros A. unfold transition_command_attested; evolve. apply transition_settles.
  intros d r _. right. by exists proof.
Qed.

Lemma upsert_revision_settles t k v now d u d' :
  upsert_revision t k v now d = Ok (u, d') -> settles d d'.
Proof.
  unfold upsert_revision. destruct (negb _); [done|].
  destruct (db_revisions d !! (t, k)) as [[stored ?]|]; [destruct (stored <=? v)|];
    intros [= _ <-]; by apply settles_same.
Qed.

Lemma complete_attested_settles key id resource res proof now :
  allowed key proof ->
  evolves settles (complete_external_with_revision_attested key id resource res proof now).
Proof.
  intros A. unfold complete_external_with_revision_attested, complete_with_revision, query_command; evolve.
  - apply evolves_stmt; [apply _|]. intros d u d' E. by eapply upsert_revision_settles.
  - apply evolves_stmt; [apply _|]. intros d n d' E. eapply settles_update; [exact E|].
    intros r _ _. right. by exists proof.
Qed.

Lemma accept_settles key id sha version now :
  evolves settles (accept_command key id sha version now).
Proof.
  unfold accept_command, query_command, query_command_by_id; evolve.
  apply evolves_stmt; [apply _|]. intros d u d' (_ & _ & ->)%insert_command_ok.
  apply settles_insert. intros T. by eapply (open_row _ Accepted) in T; [|intros [|]|].
Qed.

Lemma record_effect_ok key e c u c' :
  record_effect key e c = (Ok u, c') ->
  db_effects (conn_db c') = <[key := e]> (db_effects (conn_db c))
  /\ db_effects (conn_db c) !! key = None /\ db_commands (conn_db c') = db_commands (conn_db c).
Proof.
  unfold record_effect. intros E. invert_sql E.
  unfold insert_effect in Hrun. destruct (_ || _)%bool eqn:G in Hrun; [done|]. injection Hrun as _ E1.
  unfold count_execution in Hrun0. destruct (_ >? _) in Hrun0; [done|]. injection Hrun0 as _ E2.
  rewrite <- E2. simpl. rewrite <- E1. simpl. split_guards. split; [done|]. split; [|done].
  by apply eq_None_not_Some.
Qed.

Lemma record_effect_settles key e c u c' :
  record_effect key e c = (Ok u, c') ->
  settles (conn_db c) (conn_db c') /\ is_Some (db_effects (conn_db c') !! key).
Proof.
  intros (E1 & E2 & E3)%record_effect_ok. split; [|rewrite E1, lookup_insert_eq; eauto].
  split; [|rewrite E3; by left]. intros k e' He. rewrite E1, lookup_insert_ne; [done|]. congruence.
Qed.

Lemma execute_and_complete_settles key id sha res now :
  evolves settles (execute_and_complete_synthetic key id sha res now).
Proof.
  unfold execute_and_complete_synthetic. destruct (len res >? 1024 * 1024); [evolve|].
  apply evolves_transaction_ok; [apply _|]. intros c r c' E. unfold query_command, query_effect in E.
  invert_sql E; subst; simpl in *; rewrite Hdb1.
  - rewrite <- Hdb, <- Hdb0. eapply settles_update; [exact Hrun3|]. intros r0 _ _. left.
    rewrite Hdb0. destruct (db_effects (conn_db c0) !! key); [eauto|done].
  - match goal with H : record_effect _ _ _ = _ |- _ =>
      apply record_effect_settles in H as [Hs He]; rewrite Hdb0, Hdb in Hs end.
    etransitivity; [exact Hs|]. eapply settles_update; [eassumption|]. intros r0 _ _. by left.
Qed.

(** * Methods *)

#[local] Hint Resolve settles_preorder : ocservia.

Context `{Crypto} `{Platform}.

Lemma start_running_settles v ctx from : eevolves settles (start_running v ctx from).
Proof. unfold start_running. eevolve. apply transition_command_settles. by intros [|]. Qed.

Lemma accept_validated_settles v ctx : eevolves settles (accept_validated v ctx).
Proof. unfold accept_validated. eevolve. apply accept_settles. Qed.

Lemma recovered_record_settles v ctx : eevolves settles (recovered_record v ctx).
Proof.
  intros c. unfold recovered_record. pose proof (matching_record_same settles v c) as Hs.
  destruct (matching_record v c) as [[r|e] c1]; simpl in *; [done|].
  destruct e; simpl; try done. case_bool_decide; [|done]. simpl.
  etransitivity; [exact Hs|].
  refine (eevolves_bind settles _ _ (accept_validated_settles v ctx) _ c1). intros a. destruct a; eevolve.
Qed.

Lemma open_unknown : ~ terminal Unknown. Proof. by intros [|]. Qed.

Lemma prepare_external_settles e ctx : eevolves settles (prepare_external e ctx).
Proof.
  unfold prepare_external. eevolve; auto with ocservia;
    first [apply accept_validated_settles|apply start_running_settles
          |apply transition_command_settles, open_unknown].
Qed.

Lemma begin_attested_recovery_settles e ctx : eevolves settles (begin_attested_recovery e ctx).
Proof.
  unfold begin_attested_recovery. eevolve; [apply recovered_record_settles|apply start_running_settles].
Qed.

Lemma retry_external_settles e ctx : eevolves settles (retry_external e ctx).
Proof. unfold retry_external. eevolve; auto with ocservia. apply start_running_settles. Qed.

Lemma reconcile_external_settles e ctx o : eevolves settles (reconcile_external e ctx o).
Proof.
  unfold reconcile_external. eevolve; auto with ocservia;
    first [apply recovered_record_settles|apply transition_command_settles, open_unknown].
Qed.

Lemma mark_external_unknown_settles x code now : eevolves settles (mark_external_unknown x code now).
Proof.
  unfold mark_external_unknown. eevolve; auto with ocservia. apply transition_command_settles, open_unknown.
Qed.

Lemma complete_external_attested_settles x r proof now :
  allowed (ext_key x) proof -> eevolves settles (complete_external_attested x r proof now).
Proof.
  intros A. unfold complete_external_attested. eevolve; auto with ocservia.
  by apply transition_attested_settles.
Qed.

Lemma complete_external_applied_attested_settles x t k v r proof now :
  allowed (ext_key x) proof ->
  eevolves settles (complete_external_applied_attested x t k v r proof now).
Proof.
  intros A. unfold complete_external_applied_attested. eevolve; auto with ocservia.
  by apply complete_attested_settles.
Qed.

(** Succeeding with a recorded effect. *)
Lemma transition_with_effect key from to res code now c :
  is_Some (db_effects (conn_db c) !! key) ->
  settles (conn_db c) (conn_db (snd (transition_command key from to res code now c))).
Proof.
  set (R := fun d d' : Db => is_Some (db_effects d !! key) -> settles d d' /\ is_Some (db_effects d' !! key)).
  assert (PreOrder R) as HR.
  { split; [intros d; split; [reflexivity|done]|]. intros d1 d2 d3 H1 H2 E1.
    destruct (H1 E1) as [S1 E2], (H2 E2) as [S2 E3]. split; [by etransitivity|done]. }
  assert (evolves R (transition_command key from to res code now)) as He.
  { unfold transition_command; evolve. unfold transition, command, query_command; evolve.
    apply evolves_stmt; [apply _|]. intros d n d' E He. split; [eapply settles_update; [exact E|]; by left|].
    by apply update_command_inv in E as [[_ ->]|(? & _ & _ & _ & _ & ->)]. }
  intros E. by apply He.
Qed.

Lemma reconcile_replay_settles r v ctx b : eevolves settles (reconcile_replay r v ctx b).
Proof.
  unfold reconcile_replay. destruct (finished (rec_state r)); [eevolve|].
  intros c. unfold ebind at 1. destruct (journal (synthetic_effect (val_key v)) pre_effect_failure c)
    as [[found|e] c1] eqn:E.
  2: { pose proof (eevolves_journal settles _ pre_effect_failure
         (synthetic_effect_evolves settles (val_key v)) c) as Hs. by rewrite E in Hs. }
  apply journal_ok in E. unfold synthetic_effect, query_effect in E. apply query_ok in E as [E Ec].
  rewrite <- Ec. destruct found as [effect|].
  - destruct (bool_decide _); [simpl; reflexivity|]. revert E. rewrite <- Ec.
    destruct (db_effects (conn_db c1) !! val_key v) as [found|] eqn:He; [|done]. intros _.
    pose proof (transition_with_effect (val_key v) UNFINISHED Succeeded (Some (eff_result effect)) None
      (ctx_now_unix_seconds ctx) c1 ltac:(by rewrite He)) as Ht.
    unfold ebind, journal. by destruct (transition_command _ _ _ _ _ _ c1) as [[x|x] c2].
  - refine (eevolves_bind settles _ _ _ _ c1); [|intros a; eevolve].
    destruct (has_code r _); eevolve. apply transition_command_settles, open_unknown.
Qed.

Lemma deliver_settles e ctx : eevolves settles (deliver e ctx).
Proof.
  assert (forall e, eevolves settles (reconcile e ctx)) as Hr.
  { intros e'. unfold reconcile. eevolve; auto with ocservia. apply reconcile_replay_settles. }
  assert (forall v, eevolves settles (run_synthetic v ctx)) as Hs.
  { intros v. unfold run_synthetic. eevolve. apply execute_and_complete_settles. }
  unfold deliver. destruct (unwrap_or _ _); [eevolve|..|].
  - unfold execute. eevolve; first [apply accept_validated_settles|apply reconcile_replay_settles
      |apply start_running_settles|apply Hs].
  - apply Hr.
  - unfold retry_unknown. eevolve; auto with ocservia;
      first [apply reconcile_replay_settles|apply start_running_settles].
Qed.

End Settles.

(** * Records *)

(** The journal holds this record. *)
Definition held (d : Db) (x : CommandRecord) : Prop :=
  exists row, db_commands d !! rec_idempotency_key x = Some row /\ x = record_of row (rec_state x)
              /\ row_state row = as_str (rec_state x).

(** A finished record stays what it is. *)
Lemma held_forever d d' x : advances d d' -> finished (rec_state x) = true -> held d x -> held d' x.
Proof.
  intros Adv F (row & Hr & Ex & Es). destruct (adv_commands _ _ Adv _ _ Hr) as (row' & Hr' & _ & T).
  assert (row' = row) as ->; [|by exists row].
  apply T. exists (rec_state x). split; [|done]. unfold terminal. destruct (rec_state x); auto; done.
Qed.

Lemma held_row d key row x :
  wf_db d -> db_commands d !! key = Some row -> x = record_of row (rec_state x) ->
  row_state row = as_str (rec_state x) -> held d x.
Proof.
  intros W Hr Ex Es. exists row. split; [|done]. rewrite Ex. simpl. by rewrite (wf_key d W key row Hr).
Qed.

Lemma held_update d d1 key set_ row to :
  wf_db d -> db_commands d !! key = Some row -> (forall r, same_identity r (set_ r)) ->
  row_state (set_ row) = as_str to -> db_commands d1 = <[key := set_ row]> (db_commands d) ->
  held d1 (record_of (set_ row) to).
Proof.
  intros W Hr Hid Hs Hd. exists (set_ row). simpl. destruct (Hid row) as (Ik & _).
  by rewrite Hd, Ik, (wf_key d W key row Hr), lookup_insert_eq.
Qed.

Lemma transition_ok key from set_ to c x c' :
  (forall r, same_identity r (set_ r)) -> (forall r, row_state (set_ r) = as_str to) ->
  transition key from set_ c = (Ok x, c') ->
  exists row, db_commands (conn_db c) !! key = Some row /\ x = record_of (set_ row) to
    /\ db_commands (conn_db c') = <[key := set_ row]> (db_commands (conn_db c)).
Proof.
  intros Hid Hst. unfold transition, command, query_command. intros E.
  invert_sql E; subst; journal_facts. split_guards.
  match goal with H : update_command _ _ _ _ = Ok (_, conn_db _) |- _ => rename H into Hup end.
  unfold update_command in Hup. rewrite Hrun, bool_decide_true in Hup by done.
  destruct (command_check _); [|done]. injection Hup as _ Hset.
  rewrite <- Hset in Hrun2. simpl in Hrun2. rewrite lookup_insert_eq in Hrun2.
  injection Hrun2 as <-. rewrite Hst in Estate. apply (inj as_str to) in Estate.
  exists row0. rewrite <- Estate in Erec. split; [done|]. split; [done|]. by rewrite <- Hset.
Qed.

Lemma accept_replay_held key id sha version now c r c' :
  accept_command key id sha version now c = (Ok (OutcomeReplay r), c') -> wf_db (conn_db c) ->
  held (conn_db c') r.
Proof.
  intros E W. unfold accept_command, query_command, query_command_by_id in E.
  apply transaction_commit in E as (faults & c2 & E & ->). invert_sql E; subst; simpl in *; journal_facts.
  all: match goal with H : OutcomeReplay _ = OutcomeReplay _ |- _ => injection H as -> | _ => done end.
  by eapply held_row.
Qed.

Section Held.
Context `{Crypto} `{Platform}.

Lemma require_known_ok x c r c' : require_known x c = (Ok r, c') -> conn_db c' = conn_db c.
Proof. intros E. pose proof (require_known_same (@eq Db) x c) as Hs. by rewrite E in Hs. Qed.

Lemma require_identity_ok x r c out c' :
  require_identity x r c = (Ok out, c') -> out_record out = r /\ conn_db c' = conn_db c.
Proof. unfold require_identity. destruct (bool_decide _); [done|]. by intros [-> ->]%eret_ok. Qed.

Lemma mark_external_unknown_state x code now c out c' :
  mark_external_unknown x code now c = (Ok out, c') -> rec_state (out_record out) = Unknown.
Proof.
  unfold mark_external_unknown. intros E. apply ebind_ok in E as (r & c1 & E1%journal_ok & E).
  apply require_identity_ok in E as [-> _].
  apply transition_command_ok in E1 as (row & st & _ & _ & _ & -> & _). done.
Qed.

Lemma complete_external_attested_held x r proof now c out c' :
  complete_external_attested x r proof now c = (Ok out, c') -> wf_db (conn_db c) ->
  held (conn_db c') (out_record out).
Proof.
  unfold complete_external_attested. destruct (completion r) as [[state b] code]. intros E W.
  apply ebind_ok in E as (before & c1 & E1%require_known_ok & E).
  apply ebind_ok in E as (rec & c2 & E2%journal_ok & E). apply require_identity_ok in E as [-> ->].
  unfold transition_command_attested in E2. destruct (_ || _)%bool; [done|].
  apply (transition_ok _ _ _ state) in E2 as (row & Hr & -> & Hd); auto with ocservia.
  eapply held_update; [|exact Hr|auto with ocservia|done|done]. by rewrite E1.
Qed.

Lemma complete_external_applied_attested_held x t k v r proof now c out c' :
  complete_external_applied_attested x t k v r proof now c = (Ok out, c') -> wf_db (conn_db c) ->
  held (conn_db c') (out_record out).
Proof.
  unfold complete_external_applied_attested. intros E W.
  apply ebind_ok in E as (before & c1 & E1%require_known_ok & E).
  apply ebind_ok in E as (rec & c2 & E2%journal_ok & E). apply eret_ok in E as [-> ->].
  unfold complete_external_with_revision_attested in E2. destruct (_ || _)%bool; [done|].
  apply complete_with_revision_ok in E2; [|auto with ocservia|done].
  destruct E2 as (row & st & Hr & _ & _ & _ & -> & _ & Hd).
  eapply (held_update (conn_db c1)); [by rewrite E1|exact Hr|auto with ocservia|done|by rewrite Hd].
Qed.

Lemma reconcile_external_held e ctx o c out c' :
  reconcile_external e ctx o c = (Ok out, c') -> wf_db (conn_db c) ->
  finished (rec_state (out_record out)) = true -> held (conn_db c') (out_record out).
Proof.
  unfold reconcile_external. intros E W F.
  apply ebind_ok in E as (v & c1 & E1 & E). apply elift_ok in E1 as [_ ->].
  destruct (negb (val_external v)); [done|].
  apply ebind_ok in E as ([r b] & c2 & E2 & E).
  destruct (finished (rec_state r)) eqn:Fr.
  - apply eret_ok in E as [-> ->]. simpl. unfold recovered_record in E2.
    destruct (matching_record v c) as [[r0|err] c3] eqn:Em.
    + injection E2 as <- <- <-. apply matching_record_ok in Em as (-> & row & Hr & Er & Es & _).
      by eapply held_row.
    + assert (conn_db c3 = conn_db c) as D3.
      { pose proof (matching_record_same (@eq Db) v c) as Hs. by rewrite Em in Hs. }
      destruct err; try done. case_bool_decide; [|done].
      apply ebind_ok in E2 as (acc & c4 & E4 & E2). destruct acc as [x|x|x|x]; try done;
        apply eret_ok in E2 as [[= -> ->] ->].
      * unfold accept_validated in E4. apply journal_ok in E4.
        match type of E4 with accept_command ?k ?i ?s ?h ?n c3 = _ =>
          pose proof (accept_command_run k i s h n c3) as Hrun end.
        rewrite E4 in Hrun. destruct Hrun as (_ & _ & _ & ->). done.
      * unfold accept_validated in E4. apply journal_ok in E4.
        apply (accept_replay_held _ _ _ _ _ _ _ _ E4). by rewrite D3.
  - exfalso. apply ebind_ok in E as (fence & c3 & _ & E). apply ebind_ok in E as (o' & c4 & _ & E).
    apply ebind_ok in E as (r' & c5 & E5%journal_ok & E). apply eret_ok in E as [-> _].
    by apply transition_command_ok in E5 as (row & st & _ & _ & _ & -> & _).
Qed.

Lemma accept_validated_replay v ctx c r c' :
  accept_validated v ctx c = (Ok (OutcomeReplay r), c') -> wf_db (conn_db c) -> held (conn_db c') r.
Proof. unfold accept_validated. intros E%journal_ok. by eapply accept_replay_held. Qed.

Lemma accept_validated_wf v ctx c r c' :
  accept_validated v ctx c = (r, c') -> wf_db (conn_db c) -> wf_db (conn_db c').
Proof.
  intros E W. pose proof (accept_validated_trace v ctx c) as Ht. rewrite E in Ht.
  by eapply journal_trace_wf.
Qed.

Lemma prepare_external_held e ctx c out c' :
  prepare_external e ctx c = (Ok (PrepareReplay out), c') -> wf_db (conn_db c) ->
  finished (rec_state (out_record out)) = true -> held (conn_db c') (out_record out).
Proof.
  unfold prepare_external. intros E W F.
  apply ebind_ok in E as (v & c1 & E1 & E). apply elift_ok in E1 as [_ ->].
  destruct (negb (val_external v)); [done|].
  apply ebind_ok in E as (known & c2 & E2 & E).
  apply ebind_ok in E as (u & c3 & E3 & E).
  assert (conn_db c3 = conn_db c) as D3.
  { transitivity (conn_db c2).
    - destruct (bool_decide (known = None)).
      + pose proof (require_current_same (@eq Db) e c2) as Hs. by rewrite E3 in Hs.
      + by apply eret_ok in E3 as [_ ->].
    - apply journal_ok in E2. pose proof (command_evolves (@eq Db) (val_key v) c) as Hs. by rewrite E2 in Hs. }
  apply ebind_ok in E as (acc & c4 & E4 & E). destruct acc as [r|r|r|r]; try done.
  - by apply ebind_ok in E as (r' & c5 & _ & [E _]%eret_ok).
  - apply ebind_ok in E as (r' & c5 & E5 & [[= ->] ->]%eret_ok). simpl in *.
    destruct (finished (rec_state r) || _)%bool.
    + apply eret_ok in E5 as [-> ->]. apply (accept_validated_replay _ _ _ _ _ E4). by rewrite D3.
    + apply journal_ok in E5. by apply transition_command_ok in E5 as (row & st & _ & _ & _ & -> & _).
Qed.

Lemma reconcile_replay_held r v ctx b c out c' :
  reconcile_replay r v ctx b c = (Ok out, c') -> wf_db (conn_db c) ->
  (finished (rec_state r) = true -> held (conn_db c) r) ->
  finished (rec_state (out_record out)) = true -> held (conn_db c') (out_record out).
Proof.
  unfold reconcile_replay. intros E W Hr F. destruct (finished (rec_state r)) eqn:Fr.
  { apply eret_ok in E as [-> ->]. by apply Hr. }
  apply ebind_ok in E as (found & c1 & E1%journal_ok & E).
  pose proof (synthetic_effect_evolves (@eq Db) (val_key v) c) as Hs. rewrite E1 in Hs. simpl in Hs.
  rewrite Hs in W. destruct found as [effect|].
  - destruct (bool_decide _); [done|]. apply ebind_ok in E as (r' & c2 & E2%journal_ok & [-> ->]%eret_ok).
    apply transition_command_ok in E2 as (row & st & Hrow & _ & _ & -> & Hd).
    eapply held_update; [exact W|exact Hrow|auto with ocservia|done|by rewrite Hd].
  - apply ebind_ok in E as (r' & c2 & E2 & [-> ->]%eret_ok). simpl in *. exfalso.
    destruct (has_code r _).
    + apply eret_ok in E2 as [-> ->]. congruence.
    + apply journal_ok in E2. by apply transition_command_ok in E2 as (row & st & _ & _ & _ & -> & _).
Qed.

Lemma matching_record_held v c r c' :
  matching_record v c = (Ok r, c') -> wf_db (conn_db c) -> held (conn_db c') r /\ wf_db (conn_db c').
Proof.
  intros E W. apply matching_record_ok in E as (-> & row & Hr & Er & Es & _). split; [|done].
  by eapply held_row.
Qed.

Lemma run_synthetic_held v ctx c r c' :
  run_synthetic v ctx c = (Ok r, c') -> wf_db (conn_db c) -> held (conn_db c') r.
Proof.
  unfold run_synthetic. intros E%journal_ok W.
  pose proof (journal_op_wf _ _ (Op_execute_and_complete (val_key v) (val_command_id v)
    (val_payload_hash v) (val_result v) (ctx_now_unix_seconds ctx)) c W) as W'. rewrite E in W'. simpl in W'.
  unfold execute_and_complete_synthetic in E. destruct (len (val_result v) >? 1024 * 1024); [done|].
  apply transaction_commit in E as (faults & c2 & E & Ec). rewrite Ec in *.
  apply bind_ok in E as (found & k1 & _ & E). apply bind_ok in E as (rec & k2 & _ & E).
  destruct (_ || _)%bool; [done|].
  apply bind_ok in E as (eff & k3 & _ & E). apply bind_ok in E as (u & k4 & _ & E).
  apply bind_ok in E as (n & k5 & _ & E). destruct (negb _); [done|].
  apply bind_ok in E as (done_ & k6 & E6 & E). apply lift_ok in E as [E ->].
  unfold query_command in E6. apply query_ok in E6 as [E6 Hd]. destruct done_ as [x|]; [|done].
  injection E as ->. apply decode_opt_Some in E6 as (row & Hrow & Ex & Es). rewrite Hd in *.
  by eapply held_row.
Qed.

(** Running from a state the journal reached keeps it well formed. *)
Lemma start_running_wf v ctx from c r c' :
  Forall (fun s => ~ terminal s) from ->
  start_running v ctx from c = (Ok r, c') -> wf_db (conn_db c) -> wf_db (conn_db c').
Proof.
  intros F E W. pose proof (start_running_trace v ctx from F c) as Ht. rewrite E in Ht.
  by eapply journal_trace_wf.
Qed.

Lemma deliver_held e ctx c out c' :
  deliver e ctx c = (Ok out, c') -> wf_db (conn_db c) ->
  finished (rec_state (out_record out)) = true -> held (conn_db c') (out_record out).
Proof.
  assert (forall c, reconcile e ctx c = (Ok out, c') -> wf_db (conn_db c) ->
    finished (rec_state (out_record out)) = true -> held (conn_db c') (out_record out)) as Hrec.
  { clear c. intros c E W F. unfold reconcile in E.
    apply ebind_ok in E as (v & c1 & [_ ->]%elift_ok & E). apply ebind_ok in E as (r & c2 & E2 & E).
    apply matching_record_held in E2 as [Hh W2]; [|done]. by eapply reconcile_replay_held. }
  unfold deliver. intros E W F. destruct (unwrap_or _ _); [done|..].
  - unfold execute in E. apply ebind_ok in E as (v & c1 & [_ ->]%elift_ok & E).
    apply ebind_ok in E as (acc & c2 & E2 & E). pose proof (accept_validated_wf _ _ _ _ _ E2 W) as W2.
    destruct acc as [r|r|r|r]; try done.
    + apply ebind_ok in E as (? & c3 & [_ ->]%elift_ok & E). apply ebind_ok in E as (? & c4 & E4 & E).
      apply start_running_wf in E4; [|auto with ocservia|done].
      apply ebind_ok in E as (? & c5 & [_ ->]%elift_ok & E). apply ebind_ok in E as (rec & c6 & E6 & E).
      apply run_synthetic_held in E6; [|done].
      apply ebind_ok in E as (? & c7 & [_ ->]%elift_ok & E).
      apply ebind_ok in E as (? & c8 & [_ ->]%elift_ok & [-> ->]%eret_ok). done.
    + eapply reconcile_replay_held; [exact E|done| |done]. intros _. by eapply accept_validated_replay.
  - by eapply Hrec.
  - unfold retry_unknown in E. destruct (bool_decide _); [by eapply Hrec|].
    apply ebind_ok in E as (v & c1 & [_ ->]%elift_ok & E). apply ebind_ok in E as (r & c2 & E2 & E).
    apply matching_record_held in E2 as [Hh W2]; [|done].
    destruct (bool_decide _); [done|]. destruct (bool_decide _); [done|].
    apply ebind_ok in E as (found & c3 & E3%journal_ok & E).
    pose proof (synthetic_effect_evolves (@eq Db) (val_key v) c2) as Hs. rewrite E3 in Hs. simpl in Hs.
    rewrite Hs in Hh, W2. destruct found.
    + eapply reconcile_replay_held; [exact E|done|done|done].
    + apply ebind_ok in E as (? & c4 & E4 & E). apply start_running_wf in E4; [|auto with ocservia|done].
      apply ebind_ok in E as (rec & c5 & E5 & [-> ->]%eret_ok). by eapply run_synthetic_held.
Qed.

End Held.
