(* ===== verification/AgentLogic.v ===== *)
(** What the Agents of a node keep true together, and the logic in which each
    part of the program is shown to keep it: triples over the rely and
    guarantee of [Concurrency], whose assertions speak of the record of the
    run (which only grows) and of the process's own floor. *)

From stdpp Require Import base list gmap numbers countable strings sorting relations.
From Stdlib Require Import ZArith Lia Bool Strings.Byte.
From S2P Require Import Prelude Bytes Text Contracts ConfigProfile Authorization.
From S2P Require Import CommandAuthorization Sql Journal Telemetry JournalFacts JournalTheorems.
From S2P Require Import Executor ExecutorTheorems ExecutorOutcomes StrictWire.
From S2P Require Import EffectRecords EffectStore Attestation Concurrency Utf8 UpgradeRecords.
From S2P Require Import PrivdProtocol PrivdAuthority Privd AgentClient AgentSession AgentRun.

Local Open Scope Z_scope.

Section Invariant.
Context {crypto : Crypto} {platform : Platform} {rtext : RecordText} {prost : Prost}.
Context {wire : ResponseWire} {codec : AgentWire}.
Variable cfg : AgentConfig.

(** * The record of a run *)

(** What the Controller must have bound a request to: nothing for a read;
    otherwise the kind and identity of the operation, its capability, and the
    carriers of the term. *)
Definition operation_of (request : PrivdRequest)
  : option (FenceOperationKind * bytes * bytes * option ConnectionFenceV2 * option FenceBindingV2) :=
  match pq_authorization_command request, pq_operation request with
  | Some e, _ =>
      Some (OperationCommand, env_command_id e, env_required_capability e, env_connection_fence e,
            env_fence_binding e)
  | None, Some (ReqArtifactRead v) =>
      Some (OperationArtifact, match arr_grant v with Some g => ag_artifact_id g | None => [] end,
            CONNECTION_FENCING_CAPABILITY, arr_connection_fence v, arr_fence_binding v)
  | None, Some (ReqArtifactConsume v) =>
      Some (OperationArtifact, match acr_grant v with Some g => ag_grant_id g | None => [] end,
            CONNECTION_FENCING_CAPABILITY, acr_connection_fence v, acr_fence_binding v)
  | None, _ => None
  end.

(** The process an entry is about. *)
Definition noted_by (n : Noted) : nat :=
  match n with
  | Activated tid _ | Refreshed tid _ | Clocked tid _ | Asked tid _ | Answered tid _ _
  | Reported tid _ _ | Streamed tid _ | Shipped tid _ => tid
  end.

(** A look of process [tid] at the journal's floor. *)
Definition looks (tid : nat) (n : Noted) : Prop := exists floor, n = Refreshed tid floor.

(** Process [tid] activated a term, and has done nothing since it then looked
    at the floor. *)
Definition looking (tid : nat) (floor : Z) (active : VerifiedConnectionFenceV2) (l : list Noted) : Prop :=
  exists l1 l2, l = l1 ++ Refreshed tid floor :: l2 /\ Activated tid active ∈ l1
    /\ Forall (fun n => noted_by n <> tid) l2.

(** The last look of process [tid] at the floor, after it activated a term, and
    the reading of the clock with which it went on. *)
Definition looked (tid : nat) (floor : Z) (active : VerifiedConnectionFenceV2) (now : Z) (l : list Noted)
  : Prop :=
  exists l1 l2 l3, l = l1 ++ Refreshed tid floor :: l2 ++ Clocked tid now :: l3
    /\ Activated tid active ∈ l1 /\ Forall (fun n => noted_by n <> tid) l2
    /\ Forall (fun n => ~ looks tid n) l3.

(** The request was verified, at the instant the process read from the clock
    after its last look, under the term it had activated, which at that look
    was the newest one anybody had. *)
Definition justified (l : list Noted) (tid : nat) (request : PrivdRequest) : Prop :=
  match operation_of request with
  | None => True
  | Some (kind, id, capability, fence, binding) =>
      exists floor active grant now,
        looked tid floor active now l
        /\ verify_fenced_operation (ac_command_keys cfg) grant active floor (ac_node_id cfg)
             (ac_endpoint_id cfg) fence binding kind id capability (as_secs now) (subsec_nanos now) = Ok tt
  end.

Definition entry_ok (l : list Noted) (n : Noted) : Prop :=
  match n with
  | Activated tid f =>
      (forall tid' f', Activated tid' f' ∈ l -> vcf_owner_epoch f' <= vcf_owner_epoch f)
      /\ (forall f', Activated tid f' ∈ l -> vcf_owner_epoch f' < vcf_owner_epoch f)
  | Refreshed tid floor => forall tid' f', Activated tid' f' ∈ l -> vcf_owner_epoch f' <= floor
  | Asked tid request => justified l tid request
  | Answered tid request _ => Asked tid request ∈ l
  | _ => True
  end.

Definition log_ok (l : list Noted) : Prop := forall l1 n l2, l = l1 ++ n :: l2 -> entry_ok l1 n.

Lemma log_ok_nil : log_ok [].
Proof. intros [|x l1] n l2 E; discriminate. Qed.

Lemma log_ok_snoc l n : log_ok l -> entry_ok l n -> log_ok (l ++ [n]).
Proof.
  intros H Hn l1 m l2 E. destruct l2 as [|x l2 _] using rev_ind.
  - apply app_inj_tail in E as [-> ->]. exact Hn.
  - rewrite app_comm_cons, app_assoc in E. apply app_inj_tail in E as [-> _]. by apply (H l1 m l2).
Qed.

(** The receipts the journal may hold for a key: those of answers the daemon
    gave to a request for a command of that key. *)
Definition answered_for (l : list Noted) (key proof : bytes) : Prop :=
  exists tid request response e completed,
    Answered tid request response ∈ l /\ pq_authorization_command request = Some e
    /\ env_idempotency_key e = key /\ response_proof response = Some (proof, completed).

Definition concluded (r : CommandResult) : bool :=
  (cmr_state r =? CommandResultState_value ResultSucceeded)
  || (cmr_state r =? CommandResultState_value ResultFailed).

(** A reported outcome is the journal's. *)
Definition reported_held (d : Db) (r : CommandResult) : Prop :=
  exists x replayed, held d x /\ finished (rec_state x) = true /\ r = command_result x replayed.

Record agent_inv (w : AgentWorld) : Prop := {
  ai_wf : wf_db (aw_journal w);
  ai_floor tid f : Activated tid f ∈ aw_log w -> vcf_owner_epoch f <= floor_of (aw_journal w);
  ai_own tid f x : aw_floors w !! tid = Some x -> Activated tid f ∈ aw_log w -> vcf_owner_epoch f <= x;
  ai_log : log_ok (aw_log w);
  ai_reports tid e r :
    Reported tid e r ∈ aw_log w -> concluded r = true -> reported_held (aw_journal w) r;
  ai_evidence k r :
    db_commands (aw_journal w) !! k = Some r -> terminal_row r ->
    evidenced (answered_for (aw_log w)) (aw_journal w) k r }.

(** * Moves *)

(** What a step does to the shared state: the journal moves on, and the record
    grows by entries of this kind. *)
Definition grows (P : Noted -> Prop) (w w' : AgentWorld) : Prop :=
  journal_trace (aw_journal w) (aw_journal w')
  /\ exists k, aw_log w' = aw_log w ++ k /\ Forall P k.

#[global] Instance grows_preorder P : PreOrder (grows P).
Proof.
  split.
  - intros w. split; [done|]. exists []. by rewrite app_nil_r.
  - intros w1 w2 w3 (H1 & k1 & E1 & F1) (H2 & k2 & E2 & F2). split; [by etransitivity|].
    exists (k1 ++ k2). rewrite E2, E1, <- app_assoc. split; [done|by apply Forall_app_2].
Qed.

Lemma grows_mono (P P' : Noted -> Prop) w w' : (forall n, P n -> P' n) -> grows P w w' -> grows P' w w'.
Proof.
  intros HP (Ht & k & E & F). split; [done|]. exists k. split; [done|]. by eapply Forall_impl.
Qed.

(** The entries a process may add; while it keeps to its last look ([quiet]), no
    other look. *)
Definition mine (tid : nat) (quiet : bool) (n : Noted) : Prop :=
  noted_by n = tid /\ (quiet = true -> ~ looks tid n).

Definition agent_rely (tid : nat) (w w' : AgentWorld) : Prop :=
  grows (fun n => noted_by n <> tid) w w' /\ aw_floors w' !! tid = aw_floors w !! tid
  /\ (agent_inv w -> agent_inv w').

Definition agent_guar (quiet : bool) (tid : nat) (w w' : AgentWorld) : Prop :=
  grows (mine tid quiet) w w' /\ (forall tid', tid' <> tid -> aw_floors w' !! tid' = aw_floors w !! tid')
  /\ (agent_inv w -> agent_inv w').

(** The floor a process kept in memory goes with it. *)
Definition end_process (tid : nat) (w : AgentWorld) : AgentWorld :=
  mkAgentWorld (aw_journal w) (delete tid (aw_floors w)) (aw_log w).

Lemma agent_rely_refl tid w : agent_rely tid w w.
Proof. split; [reflexivity|done]. Qed.

Lemma agent_rely_trans tid w1 w2 w3 : agent_rely tid w1 w2 -> agent_rely tid w2 w3 -> agent_rely tid w1 w3.
Proof.
  intros (A1 & A2 & A3) (B1 & B2 & B3). split; [by etransitivity|]. split; [congruence|auto].
Qed.

Lemma agent_guar_rely tid tid' w w' :
  tid <> tid' -> agent_inv w -> agent_guar false tid w w' -> agent_rely tid' w w'.
Proof.
  intros N _ (A1 & A2 & A3). split; [|split; [by apply A2|done]].
  eapply grows_mono; [|exact A1]. intros n [<- _]. done.
Qed.

Lemma agent_guar_quiet tid w w' : agent_guar true tid w w' -> agent_guar false tid w w'.
Proof. intros (A1 & A). split; [|done]. eapply grows_mono; [|exact A1]. by intros n [H _]. Qed.

Lemma end_process_inv tid w : agent_inv w -> agent_inv (end_process tid w).
Proof.
  intros []. split; simpl; eauto. intros t f x. rewrite lookup_delete_Some. intros [_ ?]. eauto.
Qed.

Lemma end_process_rely tid tid' w : tid <> tid' -> agent_inv w -> agent_rely tid' w (end_process tid w).
Proof.
  intros N I. split; [split; [done|exists []; by rewrite app_nil_r]|]. split; [by apply lookup_delete_ne|]. intros _. by apply end_process_inv.
Qed.

(** * Triples *)

Variable tid : nat.
Variable quiet : bool.

(** A fact that any step of the others and of the process keeps. *)
Class Lasting (K : AgentWorld -> Prop) : Prop :=
  lasting w w' : grows (fun n => quiet = true -> ~ looks tid n) w w' -> K w -> K w'.

Lemma lasting_mine K w w' : Lasting K -> grows (mine tid quiet) w w' -> K w -> K w'.
Proof. intros HK G. apply HK. eapply grows_mono; [|exact G]. by intros n [_ H]. Qed.

#[global] Instance Lasting_pure (p : Prop) : Lasting (fun _ => p).
Proof. intros w w' _ Hp. exact Hp. Qed.

#[global] Instance Lasting_and K K' : Lasting K -> Lasting K' -> Lasting (fun w => K w /\ K' w).
Proof. intros H1 H2 w w' G [A B]. split; [by apply (H1 w)|by apply (H2 w)]. Qed.

#[global] Instance Lasting_noted n : Lasting (fun w => n ∈ aw_log w).
Proof. intros w w' (_ & k & -> & _) H. apply elem_of_app. by left. Qed.

#[global] Instance Lasting_imp (p : Prop) K : Lasting K -> Lasting (fun w => p -> K w).
Proof. intros H w w' G HK Hp. by apply (H w), HK. Qed.

#[global] Instance Lasting_answered key proof : Lasting (fun w => answered_for (aw_log w) key proof).
Proof.
  intros w w' (_ & k & -> & _) (t & q & r & e & c & H & H'). exists t, q, r, e, c. split; [|done].
  apply elem_of_app. by left.
Qed.

#[global] Instance Lasting_held x :
  Lasting (fun w => finished (rec_state x) = true -> held (aw_journal w) x).
Proof.
  intros w w' [Ht _] H F. eapply held_forever; [by apply journal_trace_advances|done|by apply H].
Qed.

(** From a state of the invariant in which [K] holds, with any moves of the
    others, every step of [m] is allowed, and [m] ends in a state of the
    invariant, with [Q] of its value. *)
Definition does {E A} (K : AgentWorld -> Prop) (m : AgentProg E A) (Q : A -> AgentWorld -> Prop) : Prop :=
  triple (agent_rely tid) (agent_guar quiet tid) (fun _ => True) tid
    (fun w => agent_inv w /\ K w) m
    (post (fun a w => agent_inv w /\ Q a w) agent_inv).

#[global] Instance Stable_inv : Stable (agent_rely tid) agent_inv.
Proof. intros w w' (_ & _ & H). exact H. Qed.

#[local] Instance Stable_lasting K : Lasting K -> Stable (agent_rely tid) K.
Proof.
  intros H w w' (G & _) HK. apply (H w); [|done]. eapply grows_mono; [|exact G].
  intros n N _ (floor & ->). by apply N.
Qed.

#[global] Instance Stable_floor x : Stable (agent_rely tid) (fun w => aw_floors w !! tid = x).
Proof. intros w w' (_ & H & _) E. congruence. Qed.

Lemma does_bind {E A B} K (m : AgentProg E A) M (k : A -> AgentProg E B) Q :
  does K m M -> (forall a, does (M a) (k a) Q) -> does K (pbind m k) Q.
Proof.
  intros Hm Hk. eapply triple_seq; [exact Hm|exact Hk|apply _|done].
Qed.

Lemma does_ret {E A} (K : AgentWorld -> Prop) (a : A) (Q : A -> AgentWorld -> Prop) :
  Stable (agent_rely tid) K -> (forall w, agent_inv w -> K w -> Q a w) -> does K (pret (E := E) a) Q.
Proof. intros HS H. apply triple_done; [apply _|]. intros w [I HK]. split; [done|by apply H]. Qed.

Lemma does_throw {E A} (K : AgentWorld -> Prop) (e : E) (Q : A -> AgentWorld -> Prop) :
  Stable (agent_rely tid) K -> does K (pthrow e) Q.
Proof. intros HS. apply triple_done; [apply _|]. by intros w [I HK]. Qed.

Lemma does_lift {E A} (K : AgentWorld -> Prop) (r : result E A) (Q : A -> AgentWorld -> Prop) :
  Stable (agent_rely tid) K -> (forall a w, r = Ok a -> agent_inv w -> K w -> Q a w) ->
  does K (plift r) Q.
Proof.
  intros HS H. destruct r as [a|e]; [|by apply does_throw]. apply does_ret; [done|].
  intros w I HK. by apply H.
Qed.

Lemma does_catch {E F A} K (m : AgentProg E A) M (Q : result E A -> AgentWorld -> Prop) :
  does K m M -> (forall a, Stable (agent_rely tid) (M a)) ->
  (forall a w, M a w -> Q (Ok a) w) -> (forall e w, Q (Err e) w) -> does K (pcatch (F := F) m) Q.
Proof.
  intros Hm HS HO HE. eapply triple_catch; [exact Hm| |].
  - intros r. apply Stable_post; apply _.
  - intros [a|e] w; simpl; [intros [I HM]; split; [done|by apply HO]|intros I; split; [done|apply HE]].
Qed.

Lemma does_conseq {E A} (K K' : AgentWorld -> Prop) (m : AgentProg E A) (Q Q' : A -> AgentWorld -> Prop) :
  does K' m Q' -> (forall w, K w -> K' w) -> (forall a w, Q' a w -> Q a w) -> does K m Q.
Proof.
  intros H HK HQ. apply (triple_conseq _ _ _ _ _ (fun w => agent_inv w /\ K' w) _ _ _ H).
  - intros w [I Hk]. split; [done|by apply HK].
  - intros [a|e] w; simpl; [intros [I Hq]; split; [done|by apply HQ]|done].
Qed.

(** Facts that last can be carried over any program. *)
Lemma does_frame {E A} K L (m : AgentProg E A) Q :
  does K m Q -> Lasting L -> does (fun w => K w /\ L w) m (fun a w => Q a w /\ L w).
Proof.
  intros H HL.
  eapply triple_conseq; [apply (triple_frame _ _ _ _ _ L _ _ H)|..].
  - by apply Stable_lasting.
  - intros w w' (G & _). by apply lasting_mine.
  - intros w (I & Hk & Hl). done.
  - intros [a|e] w; simpl; [|by intros [? _]]. intros ((I & Hq) & Hl). done.
Qed.

Lemma does_pure {E A} (p : Prop) K (m : AgentProg E A) Q :
  (p -> does K m Q) -> does (fun w => p /\ K w) m Q.
Proof. intros H w (I & Hp & HK). by apply H. Qed.

Lemma does_act {E B} (K : AgentWorld -> Prop) (f : Action (result E B)) (Q : B -> AgentWorld -> Prop) :
  Stable (agent_rely tid) K -> (forall b, Stable (agent_rely tid) (Q b)) ->
  (forall c w r w', agent_inv w -> K w -> f tid c w = Some (r, w') ->
    grows (mine tid quiet) w w' /\ (forall tid', tid' <> tid -> aw_floors w' !! tid' = aw_floors w !! tid')
    /\ agent_inv w' /\ (forall b, r = Ok b -> Q b w')) ->
  does K (act f) Q.
Proof.
  intros HS HQ H. apply triple_act; [apply _|intros r; apply Stable_post; apply _|].
  intros w c r w' [I HK] _ Ef. destruct (H c w r w' I HK Ef) as (G1 & G2 & I' & HQ').
  split; [done|]. destruct r as [b|e]; simpl; [|done]. split; [done|by apply HQ'].
Qed.

(** An action that leaves the world alone. *)
Lemma does_look {E B} (K : AgentWorld -> Prop) (f : Action (result E B)) :
  Stable (agent_rely tid) K -> (forall c w r w', f tid c w = Some (r, w') -> w' = w) ->
  does K (act f) (fun _ => K).
Proof.
  intros HS H. apply does_act; [done|done|]. intros c w r w' I HK Ef.
  rewrite (H _ _ _ _ Ef). split; [reflexivity|done].
Qed.

(** The invariant after an entry is added to the record, or the journal moves. *)
Lemma inv_note n w :
  agent_inv w -> entry_ok (aw_log w) n ->
  (forall t f, n = Activated t f -> vcf_owner_epoch f <= floor_of (aw_journal w)
     /\ forall x, aw_floors w !! t = Some x -> vcf_owner_epoch f <= x) ->
  (forall t e r, n = Reported t e r -> concluded r = true -> reported_held (aw_journal w) r) ->
  agent_inv (note n w).
Proof.
  intros [W F O L R V] Hn Ha Hr. split; simpl; [done|..].
  - intros t f [H|H%list_elem_of_singleton]%elem_of_app; [eauto|]. exact (proj1 (Ha t f (eq_sym H))).
  - intros t f x Hx [H|H%list_elem_of_singleton]%elem_of_app; [eauto|].
    destruct (Ha t f (eq_sym H)) as [_ H']. eauto.
  - by apply log_ok_snoc.
  - intros t e r [H|H%list_elem_of_singleton]%elem_of_app; [eauto|]. by apply (Hr t e r).
  - intros k r Hk T. destruct (V k r Hk T) as [H|(p & Hp & t & q & r' & e & c & H & H')]; [by left|].
    right. exists p. split; [done|]. exists t, q, r', e, c. split; [|done]. apply elem_of_app. by left.
Qed.

Lemma floor_trace d d' : journal_trace d d' -> wf_db d -> floor_of d <= floor_of d'.
Proof.
  induction 1 as [|d1 d2 d3 (A & m & faults & Hop & ->) _ IH]; [done|]. intros W.
  pose proof (fence_floor_monotone A m (mkConn d1 faults) Hop W) as H1.
  pose proof (journal_op_wf A m Hop (mkConn d1 faults) W) as W2. specialize (IH W2). simpl in *. lia.
Qed.

Lemma inv_journal d w :
  agent_inv w -> journal_trace (aw_journal w) d -> settles (answered_for (aw_log w)) (aw_journal w) d ->
  agent_inv (set_aw_journal d w).
Proof.
  intros [W F O L R V] Ht [M S]. split; simpl; [by eapply journal_trace_wf|..]; auto.
  - intros t f H. apply F in H. pose proof (floor_trace _ _ Ht W). lia.
  - intros t e r H C. destruct (R t e r H C) as (x & b & Hx & Fx & E). exists x, b. split; [|done].
    eapply held_forever; [by apply journal_trace_advances|done|done].
  - intros k r Hk T. destruct (S k r Hk T) as [H|H]; [|done].
    eapply evidenced_mono; [exact M|by apply V].
Qed.

Lemma grows_note P n w : P n -> grows P w (note n w).
Proof. intros Hn. split; [done|]. exists [n]. split; [done|by apply Forall_singleton]. Qed.

Lemma grows_journal P d w : journal_trace (aw_journal w) d -> grows P w (set_aw_journal d w).
Proof. intros H. split; [done|]. exists []. by rewrite app_nil_r. Qed.

End Invariant.

(** * Keeping to a look *)

Section Looks.
Context {crypto : Crypto} {platform : Platform} {rtext : RecordText} {prost : Prost}.
Context {wire : ResponseWire} {codec : AgentWire}.
Variable cfg : AgentConfig.
Variable tid : nat.

#[global] Instance Stable_looking floor active :
  Stable (agent_rely cfg tid) (fun w => looking tid floor active (aw_log w)).
Proof.
  intros w w' ((_ & k & -> & F) & _) (l1 & l2 & -> & Ha & H2). exists l1, (l2 ++ k).
  split; [by rewrite <- app_assoc|]. split; [done|by apply Forall_app_2].
Qed.

#[global] Instance Lasting_looked floor active now :
  Lasting tid true (fun w => looked tid floor active now (aw_log w)).
Proof.
  intros w w' (_ & k & -> & F) (l1 & l2 & l3 & -> & Ha & H2 & H3). exists l1, l2, (l3 ++ k).
  split; [by rewrite <- !app_assoc, app_comm_cons, <- !app_assoc|]. split; [done|]. split; [done|].
  apply Forall_app_2; [done|]. eapply Forall_impl; [exact F|]. intros n Hn. by apply Hn.
Qed.

(** A program that does not look again is a program. *)
Lemma does_quiet {E A} K (m : AgentProg E A) Q : does cfg tid true K m Q -> does cfg tid false K m Q.
Proof.
  intros H w HK. specialize (H w HK). revert H. clear HK.
  generalize (post (E := E) (fun (a : A) w => agent_inv cfg w /\ Q a w) (agent_inv cfg)). intros P. revert w.
  induction m as [r|B a k IH]; intros w; simpl; [done|]. intros H w1 R c b w2 Hc Ea.
  destruct (H w1 R c b w2 Hc Ea) as [HG Hw]. split; [by apply agent_guar_quiet|by apply IH].
Qed.

End Looks.
