(* ===== verification/AgentProofs.v ===== *)
(** Each part of the Agent's program keeps the invariant of [AgentLogic]. *)

From stdpp Require Import base list gmap numbers countable strings sorting relations.
From Stdlib Require Import ZArith Lia Bool Strings.Byte.
From S2P Require Import Prelude Bytes Text Contracts ConfigProfile Authorization.
From S2P Require Import CommandAuthorization Sql Journal Telemetry JournalFacts JournalTheorems.
From S2P Require Import Executor ExecutorTheorems StrictWire EffectRecords.
From S2P Require Import EffectStore Attestation Concurrency Utf8 UpgradeRecords.
From S2P Require Import PrivdProtocol PrivdAuthority Privd AgentClient AgentSession.
From S2P Require Import AgentRun ExecutorOutcomes AgentLogic.

Local Open Scope Z_scope.

Section Parts.
Context {crypto : Crypto} {platform : Platform} {rtext : RecordText} {prost : Prost}.
Context {wire : ResponseWire} {codec : AgentWire}.
Variable cfg : AgentConfig.
Variable tid : nat.
Variable quiet : bool.

Abbreviation Lasts := (Lasting tid quiet).
Abbreviation runs := (does cfg tid quiet).

#[local] Instance Stable_lasting_here K : Lasts K -> Stable (agent_rely cfg tid) K.
Proof. apply Stable_lasting. Qed.

(** An entry of the process which is no look at the floor. *)
Lemma entry_grows n w :
  noted_by n = tid -> (forall floor, n <> Refreshed tid floor) -> grows (mine tid quiet) w (note n w).
Proof. intros Hn N. apply grows_note. split; [done|]. intros _ (floor & E). by destruct (N floor). Qed.

(** * Looking *)

Ltac observes := intros; apply does_look; [apply _|]; intros ? ? ? ? ?;
  simplify_eq/=; repeat (case_match; simplify_eq/=); done.

Lemma host_call_ok K : Lasts K -> runs K host_call (fun _ => K).
Proof. observes. Qed.
Lemma system_time_ok K : Lasts K -> runs K system_time (fun _ => K).
Proof.
  intros HK. apply does_act; [apply _|apply _|]. intros c w r w' I Hw [= <- <-].
  pose proof (entry_grows (Clocked tid (ap_clock c)) w eq_refl ltac:(done)) as G.
  split; [done|]. split; [done|]. split; [by apply inv_note|]. intros _ _. by eapply lasting_mine.
Qed.
Lemma now_v7_ok K : Lasts K -> runs K now_v7 (fun _ => K).
Proof. observes. Qed.
Lemma recv_exact_ok K n : Lasts K -> runs K (recv_exact n) (fun _ => K).
Proof. observes. Qed.
Lemma read_file_ok {E} K : Lasts K -> runs K (read_file (E := E)) (fun _ => K).
Proof. observes. Qed.
Lemma delay_ok K b a : Lasts K -> runs K (delay b a) (fun _ => K).
Proof. observes. Qed.
Lemma select_ok K e : Lasts K -> runs K (select e) (fun _ => K).
Proof. observes. Qed.
Lemma selected_path_ok K : Lasts K -> runs K selected_path (fun _ => K).
Proof. observes. Qed.
Lemma await_stopped_ok K : Lasts K -> runs K await_stopped (fun _ => K).
Proof. observes. Qed.
Lemma await_barrier_ok K id : Lasts K -> runs K (await_barrier id) (fun _ => K).
Proof. observes. Qed.

Lemma lift_runs {E A} K (r : result E A) : Lasts K -> runs K (plift r) (fun a w => r = Ok a /\ K w).
Proof. intros HK. apply does_lift; [apply _|]. intros a w -> _ Hw. done. Qed.

Lemma seq_ok {E A B} K L (m : AgentProg E A) (k : A -> AgentProg E B) Q :
  runs K m (fun _ => L) -> (forall a, runs L (k a) Q) -> runs K (pbind m k) Q.
Proof. intros Hm Hk. by eapply does_bind. Qed.

Lemma weaken {E A} K (m : AgentProg E A) Q L :
  runs K m Q -> (forall a w, Q a w -> L w) -> runs K m (fun _ => L).
Proof. intros H HL. eapply does_conseq; [exact H|done|]. intros a w. apply HL. Qed.

Lemma drop_ok {E A} K (r : result E A) : Lasts K -> runs K (plift r) (fun _ => K).
Proof. intros HK. eapply weaken; [by apply lift_runs|]. intros a w. cbn. by intros [_ H]. Qed.

Lemma catch_ok {E F A} K (m : AgentProg E A) :
  Lasts K -> runs (fun _ => True) m (fun _ _ => True) -> runs K (pcatch (F := F) m) (fun _ => K).
Proof.
  intros HK H. apply (does_conseq cfg tid quiet K (fun w => True /\ K w) _ _ (fun _ w => True /\ K w));
    [|done|by intros a w [_ Hw]].
  apply (does_frame cfg tid quiet _ K _ (fun _ _ => True)); [|done].
  eapply does_catch; [exact H|intros a; exact (Stable_pure _ True)|done|done].
Qed.

Lemma frame_ok {E A} K (m : AgentProg E A) :
  Lasts K -> runs (fun _ => True) m (fun _ _ => True) -> runs K m (fun _ => K).
Proof.
  intros HK H. apply (does_conseq cfg tid quiet K (fun w => True /\ K w) _ _ (fun _ w => True /\ K w));
    [by apply does_frame|done|by intros a w [_ Hw]].
Qed.

Lemma pure_ok {E A} (p : Prop) K (m : AgentProg E A) Q :
  (p -> runs K m Q) -> runs (fun w => p /\ K w) m Q.
Proof. apply does_pure. Qed.

Hint Resolve host_call_ok system_time_ok now_v7_ok recv_exact_ok read_file_ok delay_ok select_ok
  selected_path_ok await_barrier_ok drop_ok : ocservia.

Lemma since_epoch_ok K : Lasts K -> runs K since_epoch (fun _ => K).
Proof.
  intros HK. eapply seq_ok; [by apply system_time_ok|]. intros now. destruct (now <? 0).
  - by apply does_throw, (Stable_lasting cfg tid quiet).
  - apply does_ret; [by apply (Stable_lasting cfg tid quiet)|done].
Qed.

Lemma unix_seconds_ok K : Lasts K -> runs K unix_seconds (fun _ => K).
Proof. intros HK. eapply seq_ok; [by apply since_epoch_ok|]. intros now. by apply drop_ok. Qed.

(** * Journal calls that leave the commands alone *)

Definition beside (d d' : Db) : Prop :=
  db_commands d' = db_commands d /\ db_effects d' = db_effects d.

#[global] Instance beside_preorder : PreOrder beside.
Proof. split; [by intros d|]. unfold beside. intros d1 d2 d3 [] []. split; congruence. Qed.

Lemma on_journal_ok {A} K (m : Sql Db A) :
  Lasts K -> evolves journal_trace m -> evolves beside m -> runs K (on_journal m) (fun _ => K).
Proof.
  intros HK Ht Hb. apply does_act; [apply _|apply _|]. intros c w r w' I Hw E.
  specialize (Ht (mkConn (aw_journal w) (ap_faults c))). specialize (Hb (mkConn (aw_journal w) (ap_faults c))).
  destruct (m _) as [r0 c']. simpl in *. injection E as <- <-.
  split; [by apply grows_journal|]. split; [done|]. destruct Hb as [E1 E2].
  split; [apply inv_journal; [done|done|by apply settles_same]|].
  intros _ _. by eapply lasting_mine; [done|apply grows_journal|].
Qed.

Ltac besides := unfold beside; intros; repeat (case_match; simplify_eq/=); try done.

Lemma record_grant_beside g : evolves beside (record_verified_session_grant g).
Proof.
  unfold record_verified_session_grant; evolve. apply evolves_stmt; [apply _|]. intros d u d'.
  unfold upsert_metadata. destruct (negb _); [done|]. by intros [= _ <-].
Qed.

Lemma bind_authority_beside n c : evolves beside (bind_authority n c).
Proof.
  unfold bind_authority; evolve. apply evolves_stmt; [apply _|]. intros d u d'.
  unfold upsert_metadata. destruct (bool_decide _); [done|]. destruct (negb _); [done|]. by intros [= _ <-].
Qed.

Lemma increment_drops_beside l : evolves beside (increment_drops l).
Proof.
  induction l as [|[p n] l IH]; simpl; evolve; [|done]. apply evolves_stmt; [apply _|].
  intros d u d'. cbv zeta. destruct (_ || _)%bool; [done|]. by intros [= _ <-].
Qed.

Lemma prune_beside now : evolves beside (prune_expired_telemetry now).
Proof.
  unfold prune_expired_telemetry; evolve; [|apply increment_drops_beside].
  apply evolves_stmt; [apply _|]. by intros d u d' [= _ <-].
Qed.

Lemma evict_beside fuel max : evolves beside (evict fuel max).
Proof.
  induction fuel as [|fuel IH]; simpl; evolve; [..|done].
  - apply evolves_stmt; [apply _|]. intros d p d'. unfold delete_first_evicted.
    destruct (first_evicted _); [|done]. by intros [= _ <-].
  - apply evolves_stmt; [apply _|]. intros d u d'. cbv zeta. destruct (_ || _)%bool; [done|]. by intros [= _ <-].
Qed.

Lemma enqueue_beside i : evolves beside (enqueue_telemetry i).
Proof.
  unfold enqueue_telemetry; evolve.
  - apply evolves_ok_of, prune_beside.
  - apply evolves_stmt; [apply _|]. intros d u d'. unfold insert_telemetry.
    destruct (telemetry_check _); simpl; [|done]. case_bool_decide; intros H'; injection H' as _ <-; done.
  - apply evolves_ok_of. intros c. apply evict_beside.
Qed.

Lemma pending_beside l n : evolves beside (telemetry_pending l n).
Proof. unfold telemetry_pending; evolve. apply evolves_ok_of, prune_beside. Qed.

Lemma acknowledge_beside id : evolves beside (acknowledge_telemetry id).
Proof. apply evolves_stmt; [apply _|]. by intros d u d' [= _ <-]. Qed.

Lemma raise_floor_beside epoch : evolves beside (raise_owner_fence_epoch_floor epoch).
Proof.
  unfold raise_owner_fence_epoch_floor; evolve. apply evolves_stmt; [apply _|]. intros d b d'.
  unfold raise_floor, upsert_metadata. destruct (negb _); [done|]. by intros [= _ <-].
Qed.

(** A query is beside everything. *)
Lemma on_query_ok {A} K (m : Sql Db A) :
  Lasts K -> (forall R `{!PreOrder R}, evolves R m) -> runs K (on_journal m) (fun _ => K).
Proof. intros HK H. apply on_journal_ok; [done|apply H; apply _|apply H; apply _]. Qed.

Lemma applied_revisions_query R `{!PreOrder R} t : evolves R (applied_revisions t).
Proof. unfold applied_revisions. evolve. Qed.
Lemma drop_counters_query R `{!PreOrder R} : evolves R telemetry_drop_counters.
Proof. unfold telemetry_drop_counters. evolve. Qed.
Lemma reject_retired_query R `{!PreOrder R} : evolves R reject_retired_binding.
Proof. unfold reject_retired_binding. evolve. Qed.
Lemma floor_query R `{!PreOrder R} : evolves R owner_fence_epoch_floor.
Proof. unfold owner_fence_epoch_floor. evolve. Qed.

(** * The privileged daemon *)

(** Every request with this operation and command may be asked. *)
Definition may_ask (operation : option Operation) (command : option CommandEnvelope) (w : AgentWorld) : Prop :=
  forall id deadline accepted mode,
    justified cfg (aw_log w) tid (mkPrivdRequest id deadline accepted command mode operation).

(** What an answer lets the journal keep. *)
Definition receipts_of (command : option CommandEnvelope) (response : PrivdResponse) (w : AgentWorld) : Prop :=
  forall e p c, command = Some e -> response_proof response = Some (p, c) ->
    answered_for (aw_log w) (env_idempotency_key e) p.

#[local] Instance Lasting_receipts command response : Lasts (receipts_of command response).
Proof.
  intros w w' G H e p c Hc Hp. by apply (Lasting_answered tid quiet (env_idempotency_key e) p w w' G), (H e p c).
Qed.

Lemma ask_ok K request :
  Lasts K -> (forall w, K w -> justified cfg (aw_log w) tid request) ->
  runs K (ask request) (fun _ w => Asked tid request ∈ aw_log w /\ K w).
Proof.
  intros HK HJ. apply does_act; [apply _|apply _|]. intros c w r w' I Hw E.
  destruct (write_frame _) in E; simplify_eq/=; [|done].
  split; [by apply entry_grows|]. split; [done|].
  split; [apply inv_note; [done|by apply HJ|done|done]|].
  intros _ _. split; [apply elem_of_app; right; by apply list_elem_of_singleton|].
  by eapply lasting_mine; [done|apply entry_grows|].
Qed.

Lemma receive_ok K request :
  Lasts K ->
  runs (fun w => Asked tid request ∈ aw_log w /\ K w) (receive request)
    (fun response w => receipts_of (pq_authorization_command request) response w /\ K w).
Proof.
  intros HK. apply does_act; [apply _|apply _|]. intros c w r w' I [Ha Hw] E.
  destruct (ap_ok c); simpl in E; [|by simplify_eq].
  destruct (read_frame _ _) as [[response rest]|]; [|by simplify_eq].
  destruct (bool_decide _); simplify_eq/=; [done|].
  split; [by apply entry_grows|]. split; [done|]. split; [by apply inv_note|].
  intros b [= <-]. split; [|by eapply lasting_mine; [done|apply entry_grows|]].
  intros e p c0 Hc Hp. exists tid, request, response, e, c0. split; [|done].
  apply elem_of_app. right. by apply list_elem_of_singleton.
Qed.

Lemma call_inner_ok K operation command mode timeout accepted :
  Lasts K -> (forall w, K w -> may_ask operation command w) ->
  runs K (call_inner operation command mode timeout accepted)
    (fun response w => receipts_of command response w /\ K w).
Proof.
  intros HK HJ. eapply seq_ok; [by apply system_time_ok|]. intros now.
  eapply seq_ok; [by apply drop_ok|]. intros deadline. eapply seq_ok; [by apply now_v7_ok|]. intros id.
  eapply seq_ok; [by apply host_call_ok|]. intros _.
  eapply does_bind; [apply ask_ok; [done|]; intros w Hw; by apply HJ|]. intros u.
  by apply (receive_ok K (mkPrivdRequest id deadline accepted command _ operation)).
Qed.

(** Reads ask for nothing the Controller must have signed. *)
Definition is_read (operation : Operation) : bool :=
  match operation with ReqArtifactRead _ | ReqArtifactConsume _ => false | _ => true end.

Lemma call_read_ok K client operation :
  Lasts K -> is_read operation = true -> runs K (call client operation) (fun _ => K).
Proof.
  intros HK R. eapply weaken; [apply call_inner_ok; [done|]|intros response w; cbn; by intros [_ Hw]].
  intros w _ id dl acc m. unfold justified, operation_of. simpl. by destruct operation.
Qed.

Lemma snapshot_ok client : runs (fun _ => True) (snapshot client) (fun _ _ => True).
Proof.
  unfold snapshot. assert (forallb is_read SNAPSHOT = true) as H by done. revert H.
  generalize SNAPSHOT. intros l. induction l as [|op l IH]; simpl; intros H.
  - by apply does_ret; [apply _|].
  - apply andb_true_iff in H as [Hop Hl].
    eapply seq_ok; [apply (call_read_ok (fun _ => True)); [apply _|done]|]. intros r.
    eapply seq_ok; [by apply IH|]. intros rs. by apply does_ret; [apply _|].
Qed.

Lemma upgrade_results_ok client : runs (fun _ => True) (upgrade_results client) (fun _ _ => True).
Proof.
  eapply seq_ok; [apply (call_read_ok (fun _ => True)); [apply _|done]|]. intros r.
  case_match; [|by apply does_throw; apply _]. case_match; try by apply does_throw; apply _.
  by apply does_ret; [apply _|].
Qed.

(** * Sending *)

Lemma send_ok K encoded n :
  Lasts K -> noted_by (n tid) = tid -> (forall floor, n tid <> Refreshed tid floor) ->
  (forall w, agent_inv cfg w -> K w -> entry_ok cfg (aw_log w) (n tid)
    /\ (forall t f, n tid <> Activated t f)
    /\ forall t e r, n tid = Reported t e r -> concluded r = true -> reported_held (aw_journal w) r) ->
  runs K (send_framed encoded n) (fun _ => K).
Proof.
  intros HK Hb Hr Hn. apply does_act; [apply _|apply _|]. intros c w r w' I Hw E.
  destruct (u32_try_from _); simplify_eq/=; [|done]. destruct (Hn w I Hw) as (H1 & H2 & H3).
  split; [by apply entry_grows|]. split; [done|]. split.
  - apply inv_note; [done|done| |done]. intros t f Ef. by destruct (H2 t f).
  - intros _ _. by eapply lasting_mine; [done|apply entry_grows|].
Qed.

#[local] Instance Lasting_reported r :
  Lasts (fun w => concluded r = true -> reported_held (aw_journal w) r).
Proof.
  intros w w' [Ht _] H C. destruct (H C) as (x & b & Hx & Fx & E). exists x, b. split; [|done].
  eapply held_forever; [by apply journal_trace_advances|done|done].
Qed.

Lemma report_result_ok envelope r :
  runs (fun w => concluded r = true -> reported_held (aw_journal w) r) (report_result envelope r)
    (fun _ _ => True).
Proof.
  eapply weaken; [apply send_ok; [apply _|done|done|]|done]. intros w I Hw. split; [done|]. split; [done|].
  by intros t e r' [= -> -> ->].
Qed.

End Parts.

(** Commands and artifact streams keep the invariant of [AgentLogic]. *)

(** * Keys *)

Section Keys.
Context `{Crypto} `{Platform}.

Lemma validate_command_key e ctx v : validate_command e ctx = Ok v -> val_key v = env_idempotency_key e.
Proof.
  unfold validate_command. intros E. invert_ok E. subst v. simpl.
  repeat match goal with
  | H : (let '(_, _) := ?p in _) = Ok _ |- _ => destruct p
  end.
  unfold fixed_command in *. repeat case_bool_decide; by simplify_eq.
Qed.

Lemma prepared_key e ctx c x c' :
  prepare_external e ctx c = (Ok (PrepareExecute x), c') -> ext_key x = env_idempotency_key e.
Proof.
  unfold prepare_external. intros E. apply ebind_ok in E as (v & c1 & [Hv ->]%elift_ok & E).
  rewrite <- (validate_command_key e ctx v Hv). destruct (negb (val_external v)); [done|].
  apply ebind_ok in E as (? & ? & _ & E). apply ebind_ok in E as (? & ? & _ & E).
  apply ebind_ok in E as (acc & ? & _ & E). destruct acc; try done;
    apply ebind_ok in E as (? & ? & _ & [E _]%eret_ok); by simplify_eq.
Qed.

Lemma recovered_key e ctx c x c' :
  begin_attested_recovery e ctx c = (Ok x, c') -> ext_key x = env_idempotency_key e.
Proof.
  unfold begin_attested_recovery. intros E. apply ebind_ok in E as (v & c1 & [Hv ->]%elift_ok & E).
  rewrite <- (validate_command_key e ctx v Hv). destruct (negb (val_external v)); [done|].
  apply ebind_ok in E as (? & ? & _ & E). destruct (bool_decide _); [done|].
  by apply ebind_ok in E as (? & ? & _ & [-> _]%eret_ok).
Qed.

Lemma retried_key e ctx c x c' :
  retry_external e ctx c = (Ok x, c') -> ext_key x = env_idempotency_key e.
Proof.
  unfold retry_external. intros E. apply ebind_ok in E as (v & c1 & [Hv ->]%elift_ok & E).
  rewrite <- (validate_command_key e ctx v Hv). destruct (negb (val_external v)); [done|].
  apply ebind_ok in E as (? & ? & _ & E). destruct (_ || _)%bool; [done|].
  apply ebind_ok in E as (? & ? & _ & E).
  by apply ebind_ok in E as (? & ? & _ & [-> _]%eret_ok).
Qed.
End Keys.

Section Commands.
Context {crypto : Crypto} {platform : Platform} {rtext : RecordText} {prost : Prost}.
Context {wire : ResponseWire} {codec : AgentWire}.
Variable cfg : AgentConfig.
Variable tid : nat.
Variable client : PrivdClient.

(** After the look at the floor, at which the command is verified. *)
Abbreviation Lasts := (Lasting tid true).
Abbreviation runs := (does cfg tid true).

#[local] Instance Stable_lasting_cmd K : Lasts K -> Stable (agent_rely cfg tid) K.
Proof. apply Stable_lasting. Qed.

(** * The executor *)

Definition outcome_held (out : CommandOutcome) (w : AgentWorld) : Prop :=
  finished (rec_state (out_record out)) = true -> held (aw_journal w) (out_record out).

#[local] Instance Lasting_outcome out : Lasts (outcome_held out).
Proof. apply Lasting_held. Qed.

Lemma on_executor_ok {A} K (m : Exec A) (Q : A -> AgentWorld -> Prop) :
  Lasts K -> (forall a, Lasts (Q a)) -> ExecutorOp A m ->
  (forall w, agent_inv cfg w -> K w -> eevolves (settles (answered_for (aw_log w))) m) ->
  (forall w c a c', agent_inv cfg w -> K w -> conn_db c = aw_journal w -> m c = (Ok a, c') ->
     Q a (set_aw_journal (conn_db c') w)) ->
  runs K (on_executor m) (fun a w => Q a w /\ K w).
Proof.
  intros HK HQ Hop Hs Hq. apply does_act; [apply _|apply _|]. intros c w r w' I Hw E.
  pose proof (executor_op_trace _ _ Hop (mkConn (aw_journal w) (ap_faults c))) as Ht.
  specialize (Hs w I Hw (mkConn (aw_journal w) (ap_faults c))).
  destruct (m _) as [r0 c'] eqn:Em. simpl in *. injection E as <- <-.
  split; [by apply grows_journal|]. split; [done|]. split; [by apply inv_journal|].
  intros a ->. split; [exact (Hq w (mkConn (aw_journal w) (ap_faults c)) a c' I Hw eq_refl Em)|]. by eapply lasting_mine; [done|apply grows_journal|].
Qed.

(** A call that only has to keep its promise about the key. *)
Lemma key_ok {A} K (m : Exec A) (f : A -> Prop) :
  Lasts K -> ExecutorOp A m -> (forall allowed, eevolves (settles allowed) m) ->
  (forall c a c', m c = (Ok a, c') -> f a) -> runs K (on_executor m) (fun a w => f a /\ K w).
Proof.
  intros HK Hop Hs Hf. apply (on_executor_ok K m (fun a _ => f a)); [done|apply _|done|auto|].
  intros w c a c' _ _ _. apply Hf.
Qed.

(** What an answer makes of a command whose key it is about. *)
Lemma conclude_external_op envelope command response now :
  exists m, (forall c, conclude_external envelope command response now c = m c) /\
    (ExecutorOp CommandOutcome m \/ exists e, m = efail e).
Proof.
  eexists. split; [reflexivity|]. unfold conclude_external.
  repeat case_match; first [right; eexists; reflexivity|left; constructor].
Qed.

Lemma conclude_external_settles envelope command response now allowed :
  (forall r p c, response = Ok r -> response_proof r = Some (p, c) -> allowed (ext_key command) p) ->
  eevolves (settles allowed) (conclude_external envelope command response now).
Proof.
  intros A. unfold conclude_external. destruct response as [response|]; [|apply mark_external_unknown_settles].
  destruct (response_proof response) as [[proof completed]|] eqn:Ep; [|apply mark_external_unknown_settles].
  specialize (A _ _ _ eq_refl Ep).
  repeat case_match;
    first [apply eevolves_fail; apply _
          |apply mark_external_unknown_settles
          |by apply complete_external_attested_settles
          |by apply complete_external_applied_attested_settles].
Qed.

Lemma conclude_external_trace envelope command response now :
  eevolves journal_trace (conclude_external envelope command response now).
Proof.
  destruct (conclude_external_op envelope command response now) as (m & E & [H|[e ->]]).
  - intros c. rewrite E. by apply executor_op_trace.
  - intros c. rewrite E. apply eevolves_fail. apply _.
Qed.

Lemma conclude_external_held envelope command response now c out c' :
  conclude_external envelope command response now c = (Ok out, c') -> wf_db (conn_db c) ->
  finished (rec_state (out_record out)) = true -> held (conn_db c') (out_record out).
Proof.
  intros E W F. unfold conclude_external in E.
  assert (forall code, mark_external_unknown command code now c = (Ok out, c') -> False) as Hm.
  { intros code Em. by rewrite (mark_external_unknown_state _ _ _ _ _ _ Em) in F. }
  repeat case_match; first [discriminate|by apply Hm in E
    |by eapply complete_external_attested_held|by eapply complete_external_applied_attested_held].
Qed.

Lemma conclude_ok K envelope command response now :
  Lasts K ->
  (forall w, K w -> forall r p c, response = Ok r -> response_proof r = Some (p, c) ->
     answered_for (aw_log w) (ext_key command) p) ->
  runs K (on_executor (conclude_external envelope command response now)) (fun out => outcome_held out).
Proof.
  intros HK HA. apply does_act; [apply _|apply _|]. intros c w r w' I Hw E.
  pose proof (conclude_external_trace envelope command response now (mkConn (aw_journal w) (ap_faults c))) as Ht.
  pose proof (conclude_external_settles envelope command response now _ (HA w Hw)
    (mkConn (aw_journal w) (ap_faults c))) as Hs.
  destruct (conclude_external _ _ _ _ _) as [r0 c'] eqn:Em. simpl in *. injection E as <- <-.
  split; [by apply grows_journal|]. split; [done|]. split; [by apply inv_journal|].
  intros out -> F. eapply conclude_external_held; [exact Em|apply I|done].
Qed.

(** * External commands *)

(** The term under which the process may ask for this command's effect. *)
Definition may_call (envelope : CommandEnvelope) (w : AgentWorld) : Prop :=
  exists floor active grant now,
    looked tid floor active now (aw_log w)
    /\ verify_fenced_operation (ac_command_keys cfg) grant active floor (ac_node_id cfg)
         (ac_endpoint_id cfg) (env_connection_fence envelope) (env_fence_binding envelope)
         OperationCommand (env_command_id envelope) (env_required_capability envelope)
         (as_secs now) (subsec_nanos now) = Ok tt.

#[local] Instance Lasting_may_call envelope : Lasts (may_call envelope).
Proof.
  intros w w' G (floor & active & grant & now & H & H'). exists floor, active, grant, now.
  split; [|done]. exact (Lasting_looked tid floor active now w w' G H).
Qed.

Lemma call_for_ok K envelope mode timeout accepted :
  Lasts K -> (forall w, K w -> may_call envelope w) ->
  runs K (call_inner None (Some envelope) mode timeout accepted)
    (fun response w => receipts_of (Some envelope) response w /\ K w).
Proof.
  intros HK HM. apply call_inner_ok; [done|]. intros w Hw id dl acc m. by apply HM.
Qed.

#[local] Instance Lasting_receipts_cmd command response : Lasts (receipts_of command response).
Proof.
  intros w w' G H e p c Hc Hp. by apply (Lasting_answered tid true (env_idempotency_key e) p w w' G), (H e p c).
Qed.

(** The receipts of a caught answer. *)
Definition caught_receipts (envelope : CommandEnvelope) (response : result AgentError PrivdResponse)
    (w : AgentWorld) : Prop :=
  forall r, response = Ok r -> receipts_of (Some envelope) r w.

#[local] Instance Lasting_caught envelope response : Lasts (caught_receipts envelope response).
Proof. intros w w' G H r E. exact (Lasting_receipts_cmd _ _ w w' G (H r E)). Qed.

Lemma caught_call_ok {E} K envelope (m : Agent PrivdResponse) :
  Lasts K -> runs K m (fun response w => receipts_of (Some envelope) response w /\ K w) ->
  runs K (pcatch (F := E) m) (fun response w => caught_receipts envelope response w /\ K w).
Proof.
  intros HK Hm. apply (does_conseq cfg tid true K (fun w => K w /\ K w) _ _
    (fun response w => caught_receipts envelope response w /\ K w)); [|by intros w Hw|done].
  apply does_frame; [|done]. eapply does_catch; [exact Hm|intros a; apply _| |].
  - intros r w [H _] r' [= <-]. exact H.
  - intros e w r E0. discriminate.
Qed.

Lemma perform_external_ok envelope command now :
  ext_key command = env_idempotency_key envelope ->
  runs (may_call envelope) (perform_external client envelope command now) (fun out => outcome_held out).
Proof.
  intros Hk. eapply does_bind.
  - apply (caught_call_ok _ envelope); [apply _|]. apply call_for_ok; [apply _|done].
  - intros response. apply conclude_ok; [apply _|]. intros w [Hr _] r p c E Hp. rewrite Hk.
    by apply (Hr r E envelope p c).
Qed.

Lemma observe_with_ok K payload m :
  Lasts K -> runs K m (fun _ _ => True) -> runs K (observe_with payload m) (fun _ _ => True).
Proof.
  intros HK Hm. eapply seq_ok with (L := fun _ => True).
  - eapply does_catch; [exact Hm|intros a; exact (Stable_pure _ True)|done|done].
  - intros r. apply does_ret; [exact (Stable_pure _ True)|done].
Qed.

Lemma observe_external_ok envelope :
  runs (may_call envelope) (observe_external_effect client envelope) (fun _ _ => True).
Proof.
  unfold observe_external_effect.
  assert (forall o : ExternalEffectObservation, runs (may_call envelope) (pret (E := CommandError) o) (fun _ _ => True)) as Hret.
  { intros o. apply does_ret; [apply _|done]. }
  destruct (env_payload envelope) as [payload|]; [|apply Hret].
  assert (runs (may_call envelope) (target_boot_current payload) (fun _ => may_call envelope)) as Hboot.
  { unfold target_boot_current.
    destruct payload; try (apply does_ret; [apply _|done]);
      (eapply seq_ok; [apply read_file_ok; apply _|]; intros f; apply does_ret; [apply _|done]). }
  assert (forall r, is_read r = true -> runs (may_call envelope) (call client r) (fun _ _ => True)) as Hread.
  { intros r Hr. eapply weaken; [apply (call_read_ok _ _ _ (may_call envelope)); [apply _|done]|done]. }
  assert (runs (may_call envelope) (call_reconcile client envelope) (fun _ _ => True)) as Hrec.
  { eapply weaken; [apply (call_for_ok (may_call envelope)); [apply _|done]|done]. }
  destruct payload; try apply Hret;
    (eapply seq_ok; [exact Hboot|]; intros current; destruct (negb current); [apply Hret|]);
    first [apply Hret | apply observe_with_ok; [apply _|]; first [by apply Hread|exact Hrec]].
Qed.

Lemma reconcile_command_ok envelope context now :
  runs (may_call envelope) (reconcile_external_command client envelope context now)
    (fun out => outcome_held out).
Proof.
  eapply does_bind.
  { apply (caught_call_ok _ envelope); [apply _|]. apply call_for_ok; [apply _|done]. }
  intros response. destruct (match response with Ok _ => _ | Err _ => _ end).
  - eapply does_bind.
    + apply (key_ok _ _ (fun command => ext_key command = env_idempotency_key envelope));
        [apply _|constructor|intros allowed; apply begin_attested_recovery_settles|].
      intros c a c'. apply recovered_key.
    + intros command. apply pure_ok. intros Hk. apply conclude_ok; [apply _|].
      intros w [Hr _] r p c E Hp. rewrite Hk. by apply (Hr r E envelope p c).
  - eapply does_bind.
    + eapply does_conseq; [apply observe_external_ok|by intros w [_ Hw]|done].
    + intros observed.
      eapply does_conseq; [apply (on_executor_ok (fun _ => True) _ (fun out => outcome_held out))| |].
      * apply _.
      * apply _.
      * constructor.
      * intros w _ _. apply reconcile_external_settles.
      * intros w c out c' I _ Hc E F. eapply reconcile_external_held; [exact E|rewrite Hc; apply I|done].
      * done.
      * by intros out w [H _].
Qed.

Lemma execute_external_ok envelope context now :
  runs (may_call envelope) (execute_external_command client envelope context now)
    (fun out => outcome_held out).
Proof.
  unfold execute_external_command. destruct (unwrap_or _ _).
  - apply does_throw. apply _.
  - eapply does_bind.
    + apply (on_executor_ok (may_call envelope) _ (fun prepared w =>
        match prepared with
        | PrepareExecute command => ext_key command = env_idempotency_key envelope
        | PrepareReplay out => outcome_held out w
        end)); [apply _|intros [?|?]; apply _|constructor|intros w _ _; apply prepare_external_settles|].
      intros w c [command|out] c' I _ Hc E; [by eapply prepared_key|].
      intros F. eapply prepare_external_held; [exact E|rewrite Hc; apply I|done].
    + intros [command|out].
      * apply pure_ok. intros Hk. by apply perform_external_ok.
      * apply does_ret; [apply _|]. by intros w _ [H _].
  - apply reconcile_command_ok.
  - eapply does_bind.
    + apply (key_ok _ _ (fun command => ext_key command = env_idempotency_key envelope));
        [apply _|constructor|intros allowed; apply retry_external_settles|].
      intros c a c'. apply retried_key.
    + intros command. apply pure_ok. intros Hk. by apply perform_external_ok.
Qed.

Lemma run_command_ok envelope context now :
  runs (may_call envelope) (run_command client envelope context now) (fun out => outcome_held out).
Proof.
  unfold run_command. destruct (is_external _); [apply execute_external_ok|].
  eapply does_conseq; [apply (on_executor_ok (may_call envelope) _ (fun out => outcome_held out))| |].
  - apply _.
  - apply _.
  - constructor.
  - intros w _ _. apply deliver_settles.
  - intros w c out c' I _ Hc E F. eapply deliver_held; [exact E|rewrite Hc; apply I|done].
  - done.
  - by intros out w [H _].
Qed.

End Commands.
