(* ===== verification/AgentRunProofs.v ===== *)
(** Sessions and the whole Agent process keep the invariant of [AgentLogic]. *)

From stdpp Require Import base list gmap numbers countable strings sorting relations.
From Stdlib Require Import ZArith Lia Bool Strings.Byte.
From S2P Require Import Prelude Bytes Text Contracts ConfigProfile Authorization.
From S2P Require Import CommandAuthorization Sql Journal Telemetry JournalFacts JournalTheorems.
From S2P Require Import Executor ExecutorTheorems ExecutorOutcomes StrictWire.
From S2P Require Import EffectRecords EffectStore Attestation Concurrency Utf8 UpgradeRecords.
From S2P Require Import PrivdProtocol PrivdAuthority Privd AgentClient AgentSession AgentRun.
From S2P Require Import AgentLogic AgentProofs.

Local Open Scope Z_scope.

(** * Reading and raising the floor *)

Lemma floor_read_ok c durable c' :
  owner_fence_epoch_floor c = (Ok durable, c') -> conn_db c' = conn_db c /\ durable = floor_of (conn_db c).
Proof.
  intros E. split.
  { pose proof (floor_query (@eq Db) c) as Hs. by rewrite E in Hs. }
  unfold owner_fence_epoch_floor in E. apply bind_ok in E as (v & c1 & E1 & E).
  apply query_ok in E1 as [[= <-] _]. unfold floor_of.
  destruct (db_metadata (conn_db c) !! _) as [b|]; [|by apply ret_ok in E as [-> _]].
  apply lift_ok in E as [E _]. unfold decode_epoch in E. by destruct (bool_decide _); simplify_eq.
Qed.

Lemma floor_raise_ok epoch c durable c' :
  raise_owner_fence_epoch_floor epoch c = (Ok durable, c') -> floor_of (conn_db c') = durable.
Proof.
  unfold raise_owner_fence_epoch_floor. intros E. apply bind_ok in E as (v & c1 & E1 & E).
  apply lift_ok in E as [E ->]. apply stmt_ok in E1. unfold raise_floor, upsert_metadata in E1.
  destruct (negb _); [done|]. injection E1 as Ev Ed. unfold floor_of. rewrite <- Ed. simpl.
  rewrite lookup_insert_eq, Ev. unfold decode_epoch in E. by destruct (bool_decide _); simplify_eq.
Qed.

Section Sessions.
Context {crypto : Crypto} {platform : Platform} {rtext : RecordText} {prost : Prost}.
Context {wire : ResponseWire} {codec : AgentWire}.
Variable cfg : AgentConfig.
Variable tid : nat.

Abbreviation runs := (does cfg tid false).

#[local] Instance Stable_lasting_run K : Lasting tid true K -> Stable (agent_rely cfg tid) K.
Proof. apply Stable_lasting. Qed.

Lemma inv_set_floor x w :
  agent_inv cfg w -> (forall f, Activated tid f ∈ aw_log w -> vcf_owner_epoch f <= x) ->
  agent_inv cfg (set_floor tid x w).
Proof.
  intros [W F O L R V] H. split; simpl; auto. intros t f y. rewrite lookup_insert_Some.
  intros [[<- <-]|[_ Hy]]; [apply H|by eapply O].
Qed.

Lemma beside_inv w d :
  agent_inv cfg w -> journal_trace (aw_journal w) d -> beside (aw_journal w) d ->
  agent_inv cfg (set_aw_journal d w).
Proof. intros I Ht [E1 E2]. apply inv_journal; [done|done|by apply settles_same]. Qed.

(** The branch of a failed journal call. *)
Ltac failed_branch :=
  split; [auto|]; split; [done|]; split; [eassumption|]; intros; discriminate.

(** Reading the floor leaves the invariant, and gives the journal's floor. *)
Lemma floor_step c w r c' :
  agent_inv cfg w -> owner_fence_epoch_floor (mkConn (aw_journal w) (ap_faults c)) = (r, c') ->
  let w1 := set_aw_journal (conn_db c') w in
  (forall P, grows P w w1) /\ agent_inv cfg w1 /\ (forall durable, r = Ok durable -> durable = floor_of (aw_journal w)).
Proof.
  intros I E w1.
  pose proof (floor_query journal_trace (mkConn (aw_journal w) (ap_faults c))) as Ht.
  pose proof (floor_query beside (mkConn (aw_journal w) (ap_faults c))) as Hb. rewrite E in Ht, Hb.
  split; [intros P; by apply grows_journal|]. split; [by apply beside_inv|]. intros durable ->.
  by apply floor_read_ok in E as [_ ->].
Qed.

Lemma load_floor_ok : runs (fun _ => True) load_floor (fun _ _ => True).
Proof.
  apply does_act; [exact (Stable_pure _ True)|intros b; exact (Stable_pure _ True)|].
  intros c w r w' I _ E. destruct (owner_fence_epoch_floor _) as [r0 c'] eqn:Ef.
  destruct (floor_step c w r0 c' I Ef) as (G & I1 & Hd).
  destruct r0 as [durable|e]; injection E as <- <-; [|failed_branch].
  split; [apply G|]. split; [intros t N; simpl; by rewrite lookup_insert_ne|]. split; [|done].
  apply inv_set_floor; [done|]. intros f Hf. rewrite (Hd _ eq_refl). by eapply ai_floor.
Qed.

Lemma refresh_step c w r w' :
  agent_inv cfg w ->
  (let '(r, c') := owner_fence_epoch_floor (mkConn (aw_journal w) (ap_faults c)) in
   let w := set_aw_journal (conn_db c') w in
   match r with
   | Err e => Some (Err (DatabaseFailed e), w)
   | Ok durable =>
       let floor := Z.max (own_floor tid w) durable in
       Some (Ok floor, note (Refreshed tid floor) (set_floor tid floor w))
   end) = Some (r, w') ->
  grows (mine tid false) w w' /\ (forall t, t <> tid -> aw_floors w' !! t = aw_floors w !! t) /\ agent_inv cfg w'
  /\ (forall floor, r = Ok floor -> aw_floors w' !! tid = Some floor
        /\ aw_log w' = aw_log w ++ [Refreshed tid floor]).
Proof.
  intros I E. destruct (owner_fence_epoch_floor _) as [r0 c'] eqn:Ef.
  destruct (floor_step c w r0 c' I Ef) as (G & I1 & Hd).
  destruct r0 as [durable|e]; injection E as <- <-; [|failed_branch].
  set (floor := Z.max _ durable).
  assert (forall t f, Activated t f ∈ aw_log w -> vcf_owner_epoch f <= floor) as Hf.
  { intros t f Hf. pose proof (ai_floor _ _ I t f Hf). rewrite <- (Hd _ eq_refl) in *. lia. }
  split; [split; [apply (G (fun _ => True))|exists [Refreshed tid floor]; split; [done|by repeat constructor]]|].
  split; [intros t N; simpl; by rewrite lookup_insert_ne|]. split.
  - apply inv_note; [|simpl; exact Hf|done|done]. apply inv_set_floor; [done|apply Hf].
  - intros x [= <-]. simpl. by rewrite lookup_insert_eq.
Qed.

Lemma refresh_floor_ok :
  runs (fun _ => True) refresh_fence_epoch_floor (fun floor w => aw_floors w !! tid = Some floor).
Proof.
  apply does_act; [exact (Stable_pure _ True)|intros b; apply Stable_floor|].
  intros c w r w' I _ E. destruct (refresh_step c w r w' I E) as (G & H & I' & Hr).
  split; [done|]. split; [done|]. split; [done|]. intros b Eb. by apply (Hr b Eb).
Qed.

(** The process holds these terms; it has just looked at the floor with them;
    and it then read the clock. *)
Definition holding (F : VerifiedConnectionFenceV2 -> Prop) (w : AgentWorld) : Prop :=
  forall f, F f -> Activated tid f ∈ aw_log w.
Definition looking_with (F : VerifiedConnectionFenceV2 -> Prop) (floor : Z) (w : AgentWorld) : Prop :=
  forall f, F f -> looking tid floor f (aw_log w).
Definition looked_with (F : VerifiedConnectionFenceV2 -> Prop) (floor now : Z) (w : AgentWorld) : Prop :=
  forall f, F f -> looked tid floor f now (aw_log w).

#[local] Instance Lasting_holding quiet F : Lasting tid quiet (holding F).
Proof. intros w w' G H f Hf. exact (Lasting_noted tid quiet _ w w' G (H f Hf)). Qed.

#[local] Instance Stable_looking_with F floor : Stable (agent_rely cfg tid) (looking_with F floor).
Proof. intros w w' R H f Hf. exact (Stable_looking cfg tid floor f w w' R (H f Hf)). Qed.

#[local] Instance Lasting_looked_with F floor now : Lasting tid true (looked_with F floor now).
Proof. intros w w' G H f Hf. exact (Lasting_looked tid floor f now w w' G (H f Hf)). Qed.

Lemma refresh_looking_ok F :
  runs (holding F) refresh_fence_epoch_floor (fun floor => looking_with F floor).
Proof.
  apply does_act; [apply _|intros b; apply _|].
  intros c w r w' I Hw E. destruct (refresh_step c w r w' I E) as (G & H & I' & Hr).
  split; [done|]. split; [done|]. split; [done|]. intros b Eb f Hf. destruct (Hr b Eb) as [_ ->].
  exists (aw_log w), []. split; [done|]. split; [by apply Hw|done].
Qed.

(** The clock is read right after the look, and the process does not look again
    before it asks. *)
Lemma since_epoch_looked_ok F floor :
  does cfg tid true (looking_with F floor) since_epoch (fun now => looked_with F floor now).
Proof.
  eapply does_bind with (M := fun now => looked_with F floor now).
  - apply does_act; [apply _|intros b; apply _|]. intros c w r w' I Hw [= <- <-].
    split; [by apply entry_grows|]. split; [done|]. split; [by apply inv_note|]. intros b [= <-] f Hf.
    destruct (Hw f Hf) as (l1 & l2 & El & Ha & H2). exists l1, l2, []. simpl. rewrite El, <- app_assoc. done.
  - intros now. destruct (now <? 0); [apply does_throw; apply _|apply does_ret; [apply _|done]].
Qed.

Lemma unix_seconds_of_ok now secs : unix_seconds_of now = Ok secs -> secs = as_secs now.
Proof. unfold unix_seconds_of. case_bool_decide; by intros [= <-]. Qed.

Lemma raise_to_term_ok verified floor :
  floor < vcf_owner_epoch verified ->
  runs (fun w => aw_floors w !! tid = Some floor) (raise_to_term verified)
    (fun _ w => Activated tid verified ∈ aw_log w).
Proof.
  intros Hlt. apply does_act; [apply Stable_floor|apply _|]. intros c w r w' I Hw E.
  destruct (raise_owner_fence_epoch_floor _ _) as [r0 c'] eqn:Er.
  pose proof (journal_op_trace _ _ (Op_raise_floor (vcf_owner_epoch verified))
    (mkConn (aw_journal w) (ap_faults c))) as Ht. rewrite Er in Ht. simpl in Ht.
  assert (beside (aw_journal w) (conn_db c')) as Hb.
  { pose proof (raise_floor_beside (vcf_owner_epoch verified) (mkConn (aw_journal w) (ap_faults c))) as Hb.
    by rewrite Er in Hb. }
  pose proof (beside_inv w _ I Ht Hb) as I1. set (w1 := set_aw_journal (conn_db c') w) in *.
  assert (forall P, grows P w (set_aw_journal (conn_db c') w)) as G by (intros P; by apply grows_journal).
  destruct r0 as [durable|e]; [|injection E as <- <-; failed_branch].
  apply floor_raise_ok in Er as Ef.
  assert (forall t f, Activated t f ∈ aw_log w -> vcf_owner_epoch f <= durable) as Hmax.
  { intros t f Hf. rewrite <- Ef. apply (ai_floor _ _ I1 t f Hf). }
  assert (agent_inv cfg (set_floor tid durable w1)) as I2 by (apply inv_set_floor; [done|intros f; apply Hmax]).
  destruct (Z.eqb_spec durable (vcf_owner_epoch verified)) as [Ed|Nd]; simpl in E; injection E as <- <-.
  - split; [split; [exact Ht|exists [Activated tid verified]; split; [done|by repeat constructor]]|]. split; [intros t N; simpl; by rewrite lookup_insert_ne|]. split.
    + apply inv_note; [done| | |done].
      * split; [intros t f Hf; rewrite <- Ed; by eapply Hmax|]. intros f Hf.
        pose proof (ai_own _ _ I tid f floor Hw Hf). lia.
      * intros t f [= <- <-]. simpl. split; [unfold w1; simpl; lia|].
        intros x. rewrite lookup_insert_eq. intros [= <-]. lia.
    + intros _ _. simpl. apply elem_of_app. right. by apply list_elem_of_singleton.
  - split; [apply (G (mine tid false))|]. split; [intros t N; simpl; by rewrite lookup_insert_ne|]. by split.
Qed.

(** * Activation *)

(** The process made the term of its session its own. *)
Definition owned (session_mode : AgentSessionMode) (w : AgentWorld) : Prop :=
  match session_mode with
  | AuthorizedV11 (FencedV11 _ f) => Activated tid f ∈ aw_log w
  | _ => True
  end.

#[local] Instance Lasting_owned quiet session_mode : Lasting tid quiet (owned session_mode).
Proof. destruct session_mode as [|[|]]; unfold owned; apply _. Qed.

Lemma activate_ok session_mode secs nanos :
  runs (fun _ => True) (activate_session_connection_fence session_mode secs nanos)
    (fun _ => owned session_mode).
Proof.
  unfold activate_session_connection_fence.
  destruct session_mode as [|[|grant verified]]; try (by apply does_ret; [apply _|]).
  destruct (lease_expired _ _ _); [by apply does_throw; apply _|].
  destruct (instant_le _ _); [by apply does_throw; apply _|].
  eapply does_bind; [apply refresh_floor_ok|]. intros floor. cbn beta.
  destruct (Z.leb_spec (vcf_owner_epoch verified) floor); [apply does_throw, Stable_floor|].
  by apply raise_to_term_ok.
Qed.

Lemma plain_bind {quiet} {E A B} (m : AgentProg E A) (k : A -> AgentProg E B) Q :
  does cfg tid quiet (fun _ => True) m (fun _ _ => True) -> (forall a, does cfg tid quiet (fun _ => True) (k a) Q) ->
  does cfg tid quiet (fun _ => True) (pbind m k) Q.
Proof. apply seq_ok. Qed.

Lemma plain_lift {quiet} {E A} (r : result E A) : does cfg tid quiet (fun _ => True) (plift r) (fun _ _ => True).
Proof. apply drop_ok. apply _. Qed.
Lemma plain_ret {quiet} {E A} (a : A) : does cfg tid quiet (fun _ => True) (pret (E := E) a) (fun _ _ => True).
Proof. by apply does_ret; [apply _|]. Qed.
Lemma plain_throw {quiet} {E A} (e : E) Q : does cfg tid quiet (fun _ => True) (pthrow (A := A) e) Q.
Proof. apply does_throw. apply _. Qed.
Lemma plain_catch {quiet} {E F A} (m : AgentProg E A) :
  does cfg tid quiet (fun _ => True) m (fun _ _ => True) -> does cfg tid quiet (fun _ => True) (pcatch (F := F) m) (fun _ _ => True).
Proof. apply catch_ok. apply _. Qed.
Lemma plain_host_call {quiet} : does cfg tid quiet (fun _ => True) host_call (fun _ _ => True).
Proof. apply host_call_ok. apply _. Qed.
Lemma plain_query {quiet} {A} (m : Sql Db A) :
  (forall R `{!PreOrder R}, evolves R m) -> does cfg tid quiet (fun _ => True) (on_journal m) (fun _ _ => True).
Proof. apply on_query_ok. apply _. Qed.
Lemma plain_journal {quiet} {A} (m : Sql Db A) :
  JournalOp A m -> evolves beside m -> does cfg tid quiet (fun _ => True) (on_journal m) (fun _ _ => True).
Proof. intros H. apply on_journal_ok; [apply _|by apply journal_op_trace]. Qed.

Lemma plain_read {quiet} client op :
  is_read op = true -> does cfg tid quiet (fun _ => True) (call client op) (fun _ _ => True).
Proof. apply (call_read_ok _ _ _ (fun _ => True)). apply _. Qed.

(** Splits a program of which nothing is to be shown beyond the invariant. *)
Ltac plain :=
  repeat first
    [ apply plain_read; done | apply snapshot_ok | apply upgrade_results_ok
    | apply system_time_ok; apply _ | apply now_v7_ok; apply _ | apply plain_host_call
    | apply recv_exact_ok; apply _ | apply read_file_ok; apply _ | apply delay_ok; apply _
    | apply select_ok; apply _ | apply await_stopped_ok; apply _ | apply selected_path_ok; apply _ | apply since_epoch_ok; apply _
    | apply unix_seconds_ok; apply _ | apply plain_lift | apply plain_ret | apply plain_throw
    | apply plain_catch | apply plain_bind; [|intros ?]
    | match goal with |- does _ _ _ _ (if ?b then _ else _) _ => destruct b end
    | match goal with |- does _ _ _ _ (match ?x with _ => _ end) _ => destruct x end ].

Lemma negotiate_and_activate_ok cx response supported :
  runs (fun _ => True) (negotiate_and_activate_session cx response supported)
    (fun session_mode => owned session_mode).
Proof.
  unfold negotiate_and_activate_session. apply plain_bind; [unfold negotiate_session_mode; plain|].
  intros session_mode. apply plain_bind; [plain|]. intros now. apply plain_bind; [plain|]. intros secs.
  eapply seq_ok; [apply activate_ok|]. intros _. eapply seq_ok.
  - apply frame_ok; [apply _|]. destruct (shr_session_grant response); [|apply plain_ret].
    apply plain_journal; [constructor|apply record_grant_beside].
  - intros _. by apply does_ret; [apply _|].
Qed.

Lemma session_capabilities_ok client : runs (fun _ => True) (session_capabilities client) (fun _ _ => True).
Proof. unfold session_capabilities. plain. Qed.

(** * Streams *)

Variable client : PrivdClient.
Variable cx : SessionContext.
Hypothesis cx_cfg :
  cx_command_keys cx = ac_command_keys cfg /\ cx_node_id cx = ac_node_id cfg
  /\ cx_endpoint_id cx = ac_endpoint_id cfg.

Lemma wait_barrier_ok quiet id : does cfg tid quiet (fun _ => True) (wait_for_synthetic_barrier cx id) (fun _ _ => True).
Proof. unfold wait_for_synthetic_barrier. plain; apply await_barrier_ok; apply _. Qed.

Lemma execution_result_ok envelope execution now r x :
  execution_result envelope execution now = Ok r ->
  (forall out, execution = Ok out -> outcome_held out x) ->
  concluded r = true -> reported_held (aw_journal x) r.
Proof.
  intros E H C. destruct execution as [out|e].
  - simpl in E. injection E as <-. exists (out_record out), (out_replayed out).
    assert (finished (rec_state (out_record out)) = true) as F.
    { unfold concluded, command_result in C. simpl in C. by destruct (rec_state (out_record out)). }
    split; [by apply (H out)|done].
  - destruct e; simpl in E; simplify_eq; discriminate C.
Qed.

(** What a command needs to be run: the term, unless it is refused as stale. *)
Definition terms_of (authority : ActiveSessionAuthority) (f : VerifiedConnectionFenceV2) : Prop :=
  exists grant, authority = FencedV11 grant f.

Lemma owned_holding authority w : owned (AuthorizedV11 authority) w -> holding (terms_of authority) w.
Proof. by intros H f [grant ->]. Qed.

Lemma authorize_command_ok authority floor envelope now w :
  authorize_command cx authority floor envelope (as_secs now) (subsec_nanos now) = Ok false ->
  looked_with (terms_of authority) floor now w -> may_call cfg tid envelope w.
Proof.
  destruct cx_cfg as (Ek & En & Ee). unfold authorize_command. rewrite Ek, En, Ee.
  destruct authority as [|grant f].
  - intros E. by invert_ok E.
  - intros E H. destruct (verify_fenced_operation _ _ _ _ _ _ _ _ _ _ _ _ _) eqn:Ev; [|done].
    exists floor, f, grant, now. destruct a. split; [apply H; by exists grant|done].
Qed.

(** The part of a stream's handler from the look at the floor to the checks:
    what they establish holds for the rest. *)
Lemma looked_stage_ok {A} F (check : Z -> Z -> Z -> result AgentError A) (k : Z -> Z -> Z -> A -> Agent unit) :
  (forall floor now a, check floor (as_secs now) (subsec_nanos now) = Ok a ->
    does cfg tid true (looked_with F floor now) (k floor (as_secs now) now a) (fun _ _ => True)) ->
  runs (holding F)
    (floor <- refresh_fence_epoch_floor ;; now <- since_epoch ;; secs <- plift (unix_seconds_of now) ;;
     a <- plift (check floor secs (subsec_nanos now)) ;; k floor secs now a)%prog (fun _ _ => True).
Proof.
  intros H. eapply does_bind; [apply refresh_looking_ok|]. intros floor. apply does_quiet.
  eapply does_bind; [apply since_epoch_looked_ok|]. intros now.
  eapply does_bind; [apply lift_runs; apply _|]. intros secs. cbn beta. apply pure_ok. intros ->%unix_seconds_of_ok.
  eapply does_bind; [apply lift_runs; apply _|]. intros a. cbn beta. apply pure_ok. apply H.
Qed.

Lemma handle_command_ok authority framed_length :
  runs (owned (AuthorizedV11 authority)) (handle_command client cx authority framed_length)
    (fun _ _ => True).
Proof.
  unfold handle_command. destruct (_ || _)%bool; [apply does_throw; apply _|].
  eapply seq_ok; [apply recv_exact_ok; apply _|]. intros b.
  eapply seq_ok; [apply drop_ok; apply _|]. intros envelope.
  eapply does_conseq; [|apply owned_holding|intros a w H; exact H].
  apply (looked_stage_ok (terms_of authority) (fun floor => authorize_command cx authority floor envelope)).
  intros floor now stale Ea. destruct stale.
  { eapply does_conseq; [apply report_result_ok|intros w _ C; discriminate C|done]. }
  apply (does_conseq cfg tid true _ (may_call cfg tid envelope) _ _ (fun _ _ => True));
    [|intros w; by apply authorize_command_ok|done].
  eapply seq_ok with (L := may_call cfg tid envelope).
  { apply frame_ok; [apply Lasting_may_call|]. destruct (is_synthetic _); [apply wait_barrier_ok|apply plain_ret]. }
  intros _. eapply does_bind with (M := fun execution w => forall out, execution = Ok out -> outcome_held out w).
  { eapply does_catch; [apply run_command_ok|intros out; apply (Stable_lasting cfg tid true), Lasting_outcome| |].
    - by intros out w H out' [= <-].
    - by intros e w out E. }
  intros execution. eapply does_bind.
  { apply lift_runs. intros w w' G H out E. exact (Lasting_outcome tid out w w' G (H out E)). }
  intros r. cbn beta. apply pure_ok. intros Er.
  eapply does_conseq; [apply report_result_ok| |done]. intros w Hw C. by eapply execution_result_ok.
Qed.

(** A verified artifact grant is for the artifact it names. *)
Lemma verified_grant_artifact ring g node artifact purpose size now c :
  verify_artifact_grant ring g node artifact purpose size now = Ok c -> ag_artifact_id g = artifact.
Proof.
  unfold verify_artifact_grant, verify_artifact_grant_inner. intros E. invert_ok E. subst. split_guards.
  match goal with E : artifact_grant_claims_v1 g = Ok _ |- _ => rename E into Ec end.
  unfold artifact_grant_claims_v1 in Ec. invert_ok Ec.
  stabilise.
  unfold fixed in *. repeat case_bool_decide; by simplify_eq/=.
Qed.

(** What an artifact stream needs for its requests. *)
Definition may_read (request : ArtifactFetchRequest) (grant : ArtifactGrantV1) (w : AgentWorld) : Prop :=
  forall offset, may_ask cfg tid (Some (ReqArtifactRead (mkArtifactReadRequest (Some grant) offset
    (afr_connection_fence request) (afr_fence_binding request)))) None w.

#[local] Instance Lasting_may_ask operation command : Lasting tid true (may_ask cfg tid operation command).
Proof.
  intros w w' G H id dl acc m. specialize (H id dl acc m). unfold justified in *.
  destruct (operation_of _) as [[[[[kind op] cap] f] b]|]; [|done].
  destruct H as (floor & active & grant & now & H & H'). exists floor, active, grant, now.
  split; [|done]. exact (Lasting_looked tid floor active now w w' G H).
Qed.

#[local] Instance Lasting_may_read request grant : Lasting tid true (may_read request grant).
Proof. intros w w' G H offset. by apply (Lasting_may_ask _ _ w w' G). Qed.

Lemma stream_chunks_ok fuel request grant offset hashed :
  does cfg tid true (may_read request grant) (stream_chunks client fuel request grant offset hashed) (fun _ _ => True).
Proof.
  revert offset hashed. induction fuel as [|fuel IH]; intros offset hashed; [by apply does_throw; apply _|].
  simpl. eapply seq_ok with (L := may_read request grant).
  { eapply weaken; [apply (call_inner_ok _ _ _ (may_read request grant)); [apply _|]|].
    - intros w Hw. apply Hw.
    - intros r w. cbn. by intros [_ H]. }
  intros response. eapply seq_ok; [apply drop_ok; apply _|]. intros data.
  eapply seq_ok; [by apply send_ok; [apply _|..]|]. intros _.
  destruct (ad_eof data); [by apply does_ret; [apply _|]|apply IH].
Qed.

Lemma check_fetch_ok authority active floor request grant now w :
  check_fetch cx authority active floor request grant (as_secs now) (subsec_nanos now) = Ok tt ->
  looked tid floor active now (aw_log w) -> may_read request grant w.
Proof.
  destruct cx_cfg as (Ek & En & Ee). unfold check_fetch. rewrite Ek, En, Ee.
  destruct (verify_fenced_operation _ _ _ _ _ _ _ _ _ _ _ _ _) as [[]|] eqn:Ev; [|done].
  destruct (verify_artifact_grant _ _ _ _ _ _ _) as [c|] eqn:Eg; [|done]. intros _ Hl offset id dl acc m.
  apply verified_grant_artifact in Eg. exists floor, active, authority, now.
  split; [exact Hl|]. simpl. by rewrite Eg.
Qed.

Lemma handle_artifact_stream_ok length authority active :
  runs (holding (eq active)) (handle_artifact_stream client cx length authority active) (fun _ _ => True).
Proof.
  unfold handle_artifact_stream. destruct (_ || _)%bool; [apply does_throw; apply _|].
  eapply seq_ok; [apply recv_exact_ok; apply _|]. intros b.
  eapply seq_ok; [apply drop_ok; apply _|]. intros request.
  eapply seq_ok; [apply drop_ok; apply _|]. intros _.
  eapply seq_ok; [apply drop_ok; apply _|]. intros grant.
  destruct (_ || _)%bool; [apply does_throw; apply _|].
  apply (looked_stage_ok (eq active) (fun floor => check_fetch cx authority active floor request grant)).
  intros floor now [] Ec. eapply does_conseq with (Q' := fun _ _ => True);
    [|intros w Hw; eapply check_fetch_ok; [exact Ec|by apply Hw]|done].
  eapply seq_ok; [apply stream_chunks_ok|]. intros streamed. plain.
Qed.

Lemma check_consume_ok authority active floor request grant now w :
  check_consume cx authority active floor request grant (as_secs now) (subsec_nanos now) = Ok tt ->
  looked tid floor active now (aw_log w) ->
  may_ask cfg tid (Some (ReqArtifactConsume (mkArtifactConsumeRequest (Some grant) (acf_sha256 request)
    (acf_size request) (acf_confirm_only request) (acf_connection_fence request)
    (acf_fence_binding request)))) None w.
Proof.
  destruct cx_cfg as (Ek & En & Ee). unfold check_consume. rewrite Ek, En, Ee.
  destruct (verify_fenced_operation _ _ _ _ _ _ _ _ _ _ _ _ _) as [[]|] eqn:Ev; [|done].
  intros _ Hl id dl acc m. exists floor, active, authority, now. by split.
Qed.

Lemma handle_artifact_consume_ok length authority active :
  runs (holding (eq active)) (handle_artifact_consume client cx length authority active) (fun _ _ => True).
Proof.
  unfold handle_artifact_consume. destruct (_ || _)%bool; [apply does_throw; apply _|].
  eapply seq_ok; [apply recv_exact_ok; apply _|]. intros b.
  eapply seq_ok; [apply drop_ok; apply _|]. intros request.
  eapply seq_ok; [apply drop_ok; apply _|]. intros grant.
  eapply seq_ok; [apply drop_ok; apply _|]. intros _.
  apply (looked_stage_ok (eq active) (fun floor => check_consume cx authority active floor request grant)).
  intros floor now [] Ec. eapply does_conseq with (Q' := fun _ _ => True);
    [|intros w Hw; eapply check_consume_ok; [exact Ec|by apply Hw]|done].
  eapply seq_ok with (L := fun _ => True).
  - eapply weaken; [apply (call_inner_ok _ _ _ (may_ask cfg tid _ _)); [apply _|done]|done].
  - intros response. plain.
Qed.

Lemma handle_command_stream_ok authority :
  runs (owned (AuthorizedV11 authority)) (handle_command_stream client cx authority) (fun _ _ => True).
Proof.
  unfold handle_command_stream. eapply seq_ok; [apply recv_exact_ok; apply _|]. intros header. cbv zeta.
  assert (forall l (k : _ -> Agent unit),
    (forall grant f, authority = FencedV11 grant f ->
       runs (holding (eq f)) (k (grant, f)) (fun _ _ => True)) ->
    runs (owned (AuthorizedV11 authority)) (pbind (plift (fenced_artifact_authority authority l)) k)
      (fun _ _ => True)) as Hf.
  { intros l k Hk. eapply does_bind; [apply lift_runs; apply _|]. intros x. cbn beta. apply pure_ok.
    intros E. unfold fenced_artifact_authority in E. destruct (_ && _)%bool; [done|].
    destruct authority as [|grant f]; [done|]. injection E as <-.
    eapply does_conseq; [by apply (Hk grant f)|by intros w Hw g <-|done]. }
  destruct (_ =? ARTIFACT_FETCH_FRAME); [apply Hf; intros grant f _; apply handle_artifact_stream_ok|].
  destruct (_ =? ARTIFACT_CONSUME_FRAME); [apply Hf; intros grant f _; apply handle_artifact_consume_ok|].
  destruct (negb _); [apply does_throw; apply _|apply handle_command_ok].
Qed.

(** * Telemetry *)

Lemma known_revision_ok t k : runs (fun _ => True) (known_revision t k) (fun _ _ => True).
Proof.
  apply plain_bind; [|intros found; apply plain_ret]. apply plain_catch, plain_query.
  intros R ?. by apply applied_revision_evolves.
Qed.

Lemma user_observations_ok users : runs (fun _ => True) (user_observations users) (fun _ _ => True).
Proof.
  induction users as [|u users IH]; [apply plain_ret|].
  apply plain_bind; [apply known_revision_ok|intros revision].
  apply plain_bind; [exact IH|intros observed; apply plain_ret].
Qed.

Lemma group_observations_ok groups : runs (fun _ => True) (group_observations groups) (fun _ _ => True).
Proof.
  induction groups as [|g groups IH]; [apply plain_ret|].
  apply plain_bind; [apply known_revision_ok|intros revision].
  apply plain_bind; [exact IH|intros observed; apply plain_ret].
Qed.

Lemma complete_groups_ok groups : runs (fun _ => True) (complete_groups groups) (fun _ _ => True).
Proof.
  apply plain_bind; [|intros applied; apply plain_ret]. apply plain_catch, plain_query.
  intros R ?. by apply applied_revisions_query.
Qed.

Lemma build_telemetry_ok n o u d : runs (fun _ => True) (build_telemetry cx n o u d) (fun _ _ => True).
Proof.
  unfold build_telemetry. apply plain_bind; [apply system_time_ok; apply _|intros now]. cbv zeta.
  apply plain_bind; [apply user_observations_ok|intros users].
  apply plain_bind; [apply group_observations_ok|intros groups].
  destruct (_ || _)%bool; [apply plain_throw|].
  apply plain_bind; [apply complete_groups_ok|intros groups'].
  destruct (_ || _)%bool; [apply plain_throw|].
  apply plain_bind; [apply selected_path_ok; apply _|intros path].
  apply plain_bind; [apply now_v7_ok; apply _|intros batch_id].
  destruct (_ <? _); [apply plain_throw|apply plain_ret].
Qed.

Lemma deliver_pending_ok pending : runs (fun _ => True) (deliver_pending pending) (fun _ _ => True).
Proof.
  induction pending as [|[id payload] rest IH]; [apply plain_ret|]. simpl. apply plain_bind.
  - unfold send_telemetry. plain. by apply (send_ok _ _ _ (fun _ => True)); [apply _|..].
  - intros _. apply plain_bind; [|intros _; exact IH].
    apply plain_journal; [constructor|apply acknowledge_beside].
Qed.

Lemma heartbeat_ok sequence : runs (fun _ => True) (heartbeat client cx sequence) (fun _ _ => True).
Proof.
  unfold heartbeat. cbv zeta.
  apply plain_bind; [apply snapshot_ok|intros obs].
  apply plain_bind; [apply plain_catch, upgrade_results_ok|intros outcomes].
  apply plain_bind; [apply plain_query; intros R ?; by apply drop_counters_query|intros drops].
  apply plain_bind; [apply build_telemetry_ok|intros batch].
  apply plain_bind; [apply plain_lift|intros _]. apply plain_bind; [apply unix_seconds_ok; apply _|intros now].
  apply plain_bind; [apply plain_lift|intros expires].
  apply plain_bind; [apply plain_journal; [constructor|apply enqueue_beside]|intros _].
  apply plain_bind; [apply plain_journal; [constructor|apply pending_beside]|intros pending].
  apply deliver_pending_ok.
Qed.

(** * Sessions *)

Lemma session_loop_ok turns session_mode expiry sequence :
  runs (owned session_mode) (session_loop client cx turns session_mode expiry sequence) (fun _ _ => True).
Proof.
  revert sequence. induction turns as [|turns IH]; intros sequence; [by apply does_ret; [apply _|]|].
  simpl. eapply seq_ok; [apply select_ok; apply _|]. intros [].
  - by apply does_ret; [apply _|].
  - apply does_throw. apply _.
  - eapply seq_ok; [apply drop_ok; apply _|]. intros _. apply does_throw. apply _.
  - eapply seq_ok; [apply host_call_ok; apply _|]. intros _.
    destruct session_mode as [|authority]; [apply does_throw; apply _|].
    eapply seq_ok with (L := owned (AuthorizedV11 authority)).
    + apply (does_conseq cfg tid false _ (fun w => owned (AuthorizedV11 authority) w /\ owned (AuthorizedV11 authority) w)
        _ _ (fun _ w => True /\ owned (AuthorizedV11 authority) w)); [|done|by intros a w [_ H]].
      apply does_frame; [apply handle_command_stream_ok|apply _].
    + intros _. apply IH.
  - eapply seq_ok; [apply frame_ok; [apply _|apply heartbeat_ok]|]. intros _. apply IH.
Qed.

Lemma connect_once_ok turns : runs (fun _ => True) (connect_once client cx turns) (fun _ _ => True).
Proof.
  unfold connect_once. apply plain_bind; [apply plain_host_call|intros _].
  apply plain_bind; [apply session_capabilities_ok|intros supported].
  apply plain_bind; [apply system_time_ok; apply _|intros now].
  apply plain_bind; [apply now_v7_ok; apply _|intros nonce].
  apply plain_bind; [unfold exchange_handshake; cbv zeta; plain|intros response].
  destruct (negb _); [apply plain_throw|].
  eapply does_bind; [apply negotiate_and_activate_ok|intros session_mode]. cbn beta.
  eapply seq_ok; [apply catch_ok; [apply _|]|intros expiry; apply session_loop_ok].
  unfold wait_for_session_expiry. cbv zeta. plain.
Qed.

Lemma supervise_ok redials turns attempt bound :
  runs (fun _ => True) (supervise_controller_sessions client cx redials turns attempt bound) (fun _ _ => True).
Proof.
  revert attempt bound. induction redials as [|redials IH]; intros attempt bound; [apply plain_ret|].
  simpl. apply plain_bind.
  { unfold endpoint_open. destruct (negb bound); [apply plain_ret|].
    apply (does_look _ _ _ (fun _ => True)); [exact (Stable_pure _ True)|]. by intros c w r w' [= _ <-]. }
  intros is_open. apply plain_bind; [plain|]. intros ready. destruct (negb ready).
  - apply plain_bind; [plain|intros _; apply IH].
  - apply plain_bind; [apply plain_catch, connect_once_ok|intros session].
    apply plain_bind; [plain|intros _; apply IH].
Qed.

End Sessions.

(** * The process *)

Lemma run_agent_ok `{Crypto} `{Platform} `{!RecordText} `{Prost} `{ResponseWire} `{AgentWire}
  cfg tid redials turns :
  does cfg tid false (fun _ => True) (run_agent cfg redials turns) (fun _ _ => True).
Proof.
  unfold run_agent. apply plain_bind; [apply plain_lift|intros _].
  apply plain_bind; [apply plain_query; intros R ?; by apply reject_retired_query|intros _].
  apply plain_bind; [destruct (ac_binding cfg) as [[node controller]|]; [|apply plain_ret];
    apply plain_journal; [constructor|apply bind_authority_beside]|intros _].
  apply plain_bind; [apply plain_query; intros R ?; by apply reject_retired_query|intros _].
  apply plain_bind; [apply plain_lift|intros client].
  apply plain_bind; [apply snapshot_ok|intros observations].
  apply plain_bind; [apply plain_lift|intros _].
  destruct (ac_probe_only cfg); [apply plain_ret|].
  apply plain_bind; [apply load_floor_ok|intros _]. apply plain_bind; [apply plain_host_call|intros _].
  apply plain_bind; [unfold read_boot_id, read_host_value; apply plain_bind; [apply read_file_ok; apply _|intros f; apply plain_lift]|intros boot].
  apply plain_bind; [unfold read_os_release; apply plain_bind; [apply read_file_ok; apply _|intros f; apply plain_lift]|intros os].
  apply plain_bind; [apply now_v7_ok; apply _|intros instance]. by apply supervise_ok.
Qed.
