(* ===== verification/AgentTheorems.v ===== *)
(** The Agents of a node under every interleaving of their steps, with every
    call failing where it can and processes ending anywhere: their owner terms
    only move forward, what they ask of the privileged daemon was authorized
    under the term they hold, and what they report is what the journal holds. *)

From stdpp Require Import base list gmap numbers countable strings sorting relations.
From Stdlib Require Import ZArith Lia Bool Strings.Byte.
From S2P Require Import Prelude Bytes Text Contracts ConfigProfile Authorization.
From S2P Require Import CommandAuthorization TranscriptFacts SignedAuthority FenceTheorems Sql Journal.
From S2P Require Import Telemetry JournalFacts JournalTheorems Executor ExecutorTheorems.
From S2P Require Import StrictWire EffectRecords EffectStore Attestation.
From S2P Require Import Concurrency Utf8 UpgradeRecords PrivdProtocol.
From S2P Require Import PrivdAuthority Privd AgentClient AgentSession AgentRun.
From S2P Require Import ExecutorOutcomes AgentLogic AgentProofs AgentRunProofs.

Local Open Scope Z_scope.

(** * Capabilities *)

Lemma capabilities_ascend previous l :
  capabilities_invalid previous l = false ->
  StronglySorted bytes_lt l /\ (forall p, previous = Some p -> Forall (bytes_lt p) l).
Proof.
  revert previous. induction l as [|c l IH]; simpl; intros previous H.
  - split; [constructor|by constructor].
  - rewrite !orb_false_iff in H. destruct H as [[_ Hp] H]. destruct (IH _ H) as [S F].
    specialize (F c eq_refl). split; [by constructor|]. intros p ->. apply bytes_leb_nlt in Hp.
    constructor; [done|]. eapply Forall_impl; [exact F|]. intros x Hx. by etransitivity.
Qed.

Lemma capabilities_nodup l : capabilities_invalid None l = false -> NoDup l.
Proof.
  intros [S _]%capabilities_ascend. induction S as [|c l _ IH F]; constructor; [|done].
  intros Hin. rewrite Forall_forall in F. by apply (irreflexivity bytes_lt c), F.
Qed.

(** The comparison by length and membership is equality of sets. *)
Lemma same_capability_set_ok l s :
  NoDup l -> same_capability_set l s = true -> forall c, c ∈ l <-> c ∈ s.
Proof.
  intros N H. unfold same_capability_set in H. split_guards.
  assert (list_to_set l ⊆ s) as Hsub.
  { intros c Hc%elem_of_list_to_set. rewrite forallb_forall in H0.
    apply list_elem_of_In in Hc. specialize (H0 c Hc). by apply bool_decide_eq_true in H0. }
  assert (list_to_set l =@{gset bytes} s) as Heq.
  { apply set_subseteq_size_eq; [done|]. rewrite size_list_to_set by done. unfold len in H. lia. }
  intros c. by rewrite <- Heq, elem_of_list_to_set.
Qed.

Lemma valid_capabilities_supported supported previous l c :
  valid_capabilities supported previous l = true -> c ∈ l -> c ∈ supported.
Proof.
  revert previous. induction l as [|x l IH]; simpl; intros previous H; [by intros ?%not_elem_of_nil|].
  destruct (_ || _)%bool eqn:G; [done|]. split_guards.
  intros [->|Hc]%elem_of_cons; [done|by eapply IH].
Qed.

Lemma read_only_elements (l : list bytes) :
  all_read_only (elements (list_to_set l : gset bytes)) = true -> all_read_only l = true.
Proof.
  unfold all_read_only. rewrite !forallb_forall. intros H c Hc. apply H, list_elem_of_In, elem_of_elements.
  by apply elem_of_list_to_set, list_elem_of_In.
Qed.

Lemma verified_fence_capabilities `{Crypto} ring f node endpoint s n vf :
  verify_connection_fence_v2_at ring f node endpoint s n = Ok vf -> NoDup (vcf_capabilities vf).
Proof.
  intros (fc & k & m & u & _ & _ & _ & _ & _ & M & _ & ->)%verify_fence_ok. apply capabilities_nodup. simpl.
  unfold canonical_connection_fence_v2 in M. destruct (_ || _)%bool in M; [done|].
  by destruct (capabilities_invalid _ _) eqn:Ec in M.
Qed.

Section Agents.
Context {crypto : Crypto} {platform : Platform} {rtext : RecordText} {prost : Prost}.
Context {wire : ResponseWire} {codec : AgentWire}.
Variable cfg : AgentConfig.

(** The node's Agent, started any number of times; how often a supervisor
    redials and how long a session lasts is not bounded. *)
Inductive agent_process : @Task AgentWorld AgentPick -> Prop :=
| start_agent redials turns : agent_process (task (run_agent cfg redials turns)).

Definition agents_reach : Pool AgentWorld AgentPick * AgentWorld -> Pool AgentWorld AgentPick * AgentWorld -> Prop :=
  pool_reach (fun _ => True) end_process agent_process.

(** A node on which no Agent has run. *)
Definition new_node : AgentWorld := mkAgentWorld empty_db ∅ [].

Lemma new_node_inv : agent_inv cfg new_node.
Proof.
  split; simpl; [apply wf_empty|..]; try (intros; by match goal with H : _ ∈ [] |- _ => apply not_elem_of_nil in H end).
  - apply log_ok_nil.
  - intros k r H. by rewrite lookup_empty in H.
Qed.

(** The conditions under which the pool is sound. *)
Ltac agent_pool :=
  first
    [ by intros tid s; apply agent_rely_refl | by intros tid s1 s2 s3; apply agent_rely_trans
    | by intros tid tid' s s'; apply agent_guar_rely | by intros tid s s' HI (_ & _ & HG); apply HG
    | by intros tid tid' s; apply end_process_rely | by intros tid s; apply end_process_inv
    | intros tid t s [redials turns] HI; unfold task_wp;
      eapply wp_mono; [|by apply (run_agent_ok cfg tid redials turns)]; done ].

Lemma agents_ok p :
  agents_reach (∅, new_node) p ->
  pool_ok (agent_rely cfg) (agent_guar cfg false) (fun _ => True) (agent_inv cfg) p.
Proof.
  intros H. eapply (pool_sound _ _ _ _ end_process agent_process); [agent_pool..|apply new_node_inv|exact H].
Qed.

Lemma agents_sound p : agents_reach (∅, new_node) p -> agent_inv cfg p.2.
Proof. intros H. by apply agents_ok. Qed.

(** From one state of a run to a later one the journal only moves on. *)
Lemma agents_advance T w T' w' :
  agents_reach (∅, new_node) (T, w) -> agents_reach (T, w) (T', w') ->
  advances (aw_journal w) (aw_journal w').
Proof.
  intros H H'. apply journal_trace_advances.
  eapply (pool_moves (agent_rely cfg) (agent_guar cfg false) (fun _ => True) (agent_inv cfg) end_process
    agent_process) with (M := fun s s' => journal_trace (aw_journal s) (aw_journal s'))
    (p := (T, w)) (p' := (T', w')); [agent_pool..| | | | |by apply agents_ok|exact H'].
  - intros s. constructor.
  - intros s1 s2 s3 H1 H2. by etransitivity.
  - by intros tid s s' _ ((Ht & _) & _).
  - intros tid s _. constructor.
Qed.

(** * Terms *)

(** C11. The owner terms of a node only move forward on the Agent's side, too: in
    every run of any number of Agent processes over one journal, whatever fails
    and wherever they die, a term activated later never has a smaller epoch than
    one activated before, one process never activates an epoch twice, and the
    journal's durable floor, which the next process starts from, is at least
    every epoch that was ever activated. *)
Theorem activated_terms_monotone T w l1 tid1 f1 l2 tid2 f2 l3 :
  agents_reach (∅, new_node) (T, w) ->
  aw_log w = l1 ++ Activated tid1 f1 :: l2 ++ Activated tid2 f2 :: l3 ->
  vcf_owner_epoch f1 <= vcf_owner_epoch f2
  /\ (tid1 = tid2 -> vcf_owner_epoch f1 < vcf_owner_epoch f2)
  /\ vcf_owner_epoch f2 <= floor_of (aw_journal w).
Proof.
  intros H E. pose proof (agents_sound _ H) as I. simpl in I.
  assert (entry_ok cfg (l1 ++ Activated tid1 f1 :: l2) (Activated tid2 f2)) as [H1 H2].
  { apply (ai_log _ _ I _ _ l3). by rewrite E, <- app_assoc. }
  split; [by apply (H1 tid1 f1); set_solver|]. split; [intros ->; by apply H2; set_solver|].
  apply (ai_floor _ _ I tid2). rewrite E. set_solver.
Qed.

(** * Requests *)

(** A signed term is the one the process activated. *)
Definition term_is (term : ConnectionFenceClaimsV2) (active : VerifiedConnectionFenceV2) : Prop :=
  cfc_fence_id term = vcf_fence_id active /\ cfc_owner_epoch term = vcf_owner_epoch active
  /\ cfc_owner_instance_id term = vcf_owner_instance_id active
  /\ cfc_owner_incarnation term = vcf_owner_incarnation active
  /\ cfc_connection_id term = vcf_connection_id active
  /\ cfc_authorization_revision term = vcf_authorization_revision active.

Lemma verified_operation_in_force signed grant active floor fence binding kind id capability secs nanos :
  unforged (ac_command_keys cfg) signed ->
  (forall f, fence = Some f -> wf_fence f) -> (forall b, binding = Some b -> wf_binding b) ->
  verify_fenced_operation (ac_command_keys cfg) grant active floor (ac_node_id cfg) (ac_endpoint_id cfg)
    fence binding kind id capability secs nanos = Ok tt ->
  floor = vcf_owner_epoch active
  /\ exists term c,
       in_force signed (ac_node_id cfg) (ac_endpoint_id cfg) secs nanos secs nanos term c
       /\ term_is term active /\ fbc_operation_kind c = FenceOperationKind_value kind
       /\ fbc_operation_id c = id /\ fbc_capability c = capability.
Proof.
  intros Hu Wf Wb V. unfold verify_fenced_operation in V. invert_ok V.
  repeat match goal with E : ok_or _ _ = Ok _ |- _ => apply ok_or_Some in E; subst end.
  repeat match goal with E : map_err _ _ = Ok _ |- _ => apply map_err_ok in E end.
  stable_guards.
  match goal with
  | F : verify_connection_fence_v2_at _ ?f _ _ _ _ = Ok ?v, B : verify_fence_binding_v2_at _ ?b _ _ _ _ = Ok ?c,
    S : same_capability_set _ _ = true, M : matches_fence _ _ = true, L : lease_expired _ _ _ = false |- _ =>
      pose proof (same_capability_set_ok _ _ (verified_fence_capabilities _ _ _ _ _ _ _ F) S) as Hc;
      destruct (verified_in_force _ signed f b _ _ _ _ _ _ v c Hu (Wf f eq_refl) (Wb b eq_refl) F B M
        ltac:(apply Hc; congruence) L) as (term & HF & [])
  end.
  unfold same_fence_term in *. split_guards. split; [lia|]. eexists term, _. split; [exact HF|].
  unfold term_is. split_and!; first [done|congruence|lia].
Qed.

(** C4. Whatever an Agent asks the privileged daemon to change was authorized
    under the term it holds, at the instant it read: in every run, each request
    with a command, and each artifact read or consumption, was sent after the
    process activated a term, then looked at the journal's floor ([Refreshed],
    its last look before the request) when no process of the node had
    activated a newer one, and next read the clock ([Clocked], nothing of its
    own in between). The Controller signed a fence of that very term for this
    node and endpoint, and a binding of this operation, its identity and its
    capability to that fence, a capability the fence grants; at the instant read
    both were unexpired and the owner's lease was running. A session without a
    term never gets to ask. *)
Theorem agent_requests_authorized signed T w l1 tid request l2 kind id capability fence binding :
  unforged (ac_command_keys cfg) signed ->
  (forall f, fence = Some f -> wf_fence f) -> (forall b, binding = Some b -> wf_binding b) ->
  agents_reach (∅, new_node) (T, w) -> aw_log w = l1 ++ Asked tid request :: l2 ->
  operation_of request = Some (kind, id, capability, fence, binding) ->
  exists active before between now after term c,
    l1 = before ++ Refreshed tid (vcf_owner_epoch active) :: between ++ Clocked tid now :: after
    /\ Activated tid active ∈ before
    /\ (forall tid' f, Activated tid' f ∈ before -> vcf_owner_epoch f <= vcf_owner_epoch active)
    /\ Forall (fun n => noted_by n <> tid) between /\ (forall floor, Refreshed tid floor ∉ after)
    /\ in_force signed (ac_node_id cfg) (ac_endpoint_id cfg) (as_secs now) (subsec_nanos now)
         (as_secs now) (subsec_nanos now) term c
    /\ term_is term active /\ fbc_operation_kind c = FenceOperationKind_value kind
    /\ fbc_operation_id c = id /\ fbc_capability c = capability.
Proof.
  intros Hu Wf Wb H E O. pose proof (agents_sound _ H) as I. simpl in I.
  pose proof (ai_log _ _ I l1 _ l2 E) as J. simpl in J. unfold justified in J. rewrite O in J.
  destruct J as (floor & active & grant & now & (before & between & after & El & Ha & Hb & Hn) & V).
  destruct (verified_operation_in_force _ _ _ _ _ _ _ _ _ _ _ Hu Wf Wb V) as (-> & term & c & R).
  exists active, before, between, now, after, term, c. split; [done|]. split; [done|]. split; [|split; [done|split; [|done]]].
  - assert (entry_ok cfg before (Refreshed tid (vcf_owner_epoch active))) as Hr; [|exact Hr].
    apply (ai_log _ _ I _ _ ((between ++ Clocked tid now :: after) ++ Asked tid request :: l2)).
    by rewrite E, El, <- app_assoc.
  - intros floor Hin. rewrite Forall_forall in Hn. apply (Hn _ Hin). by exists floor.
Qed.

(** * Reports *)

Lemma held_same d x y : held d x -> held d y -> rec_idempotency_key x = rec_idempotency_key y -> x = y.
Proof.
  intros (rx & Lx & Ex & Sx) (ry & Ly & Ey & Sy) E. rewrite E in Lx. simplify_eq.
  rewrite Sx in Sy. apply (inj as_str) in Sy. congruence.
Qed.

(** C5. The Agent never tells two stories: in every run, two results of success or
    failure that Agents of the node reported for one idempotency key name the
    same command with the same state, result, error and receipt; each is the
    result of the finished record the journal holds, now and ever after. *)
Theorem reported_outcomes_agree T w tid1 e1 r1 tid2 e2 r2 :
  agents_reach (∅, new_node) (T, w) ->
  Reported tid1 e1 r1 ∈ aw_log w -> Reported tid2 e2 r2 ∈ aw_log w ->
  concluded r1 = true -> concluded r2 = true -> cmr_idempotency_key r1 = cmr_idempotency_key r2 ->
  exists x replayed1 replayed2,
    r1 = command_result x replayed1 /\ r2 = command_result x replayed2
    /\ finished (rec_state x) = true
    /\ forall T' w', agents_reach (T, w) (T', w') -> held (aw_journal w') x.
Proof.
  intros H R1 R2 C1 C2 EK. pose proof (agents_sound _ H) as I. simpl in I.
  destruct (ai_reports _ _ I _ _ _ R1 C1) as (x & b1 & Hx & F & ->).
  destruct (ai_reports _ _ I _ _ _ R2 C2) as (y & b2 & Hy & Fy & ->).
  simpl in EK. assert (x = y) as <- by (by eapply held_same).
  exists x, b1, b2. split; [done|]. split; [done|]. split; [done|]. intros T' w' H'.
  eapply held_forever; [apply (agents_advance _ _ _ _ H H')|done|done].
Qed.

(** C10. No command is settled without evidence: in every run, a command the
    journal calls succeeded or failed is a synthetic one whose one execution is
    recorded, or stores the encoded receipt of an answer the privileged daemon
    gave to a request of an Agent that carried a command of the same key. *)
Theorem settled_commands_evidenced T w key row :
  agents_reach (∅, new_node) (T, w) -> db_commands (aw_journal w) !! key = Some row -> terminal_row row ->
  is_Some (db_effects (aw_journal w) !! key)
  \/ exists proof tid request response command completed l1 l2,
      row_privileged_result_proof row = Some proof
      /\ aw_log w = l1 ++ Answered tid request response :: l2 /\ Asked tid request ∈ l1
      /\ pq_authorization_command request = Some command
      /\ env_idempotency_key command = key
      /\ response_proof response = Some (proof, completed).
Proof.
  intros H Hr Ht. pose proof (agents_sound _ H) as I. simpl in I.
  destruct (ai_evidence _ _ I key row Hr Ht)
    as [He|(p & Hp & tid & request & response & e & c & Hl & He & Hk & Hq)]; [by left|right].
  apply list_elem_of_split in Hl as (l1 & l2 & El).
  exists p, tid, request, response, e, c, l1, l2. split; [done|]. split; [done|].
  split; [exact (ai_log _ _ I l1 _ l2 El)|done].
Qed.

End Agents.

(** What a session of the Agent may do is what the Controller signed, and an
    artifact stream delivers exactly the announced bytes. *)

(** * Negotiation *)

Section Negotiation.
Context {crypto : Crypto}.

(** The fence the Controller signed for a session. *)
Definition signed_term (signed : Statement -> Prop) (node endpoint : bytes) (revision : Z)
    (capabilities : list bytes) (vf : VerifiedConnectionFenceV2) : Prop :=
  exists fc, signed (SFence fc) /\ cfc_node_id fc = node /\ cfc_endpoint_id fc = endpoint
    /\ cfc_fence_id fc = vcf_fence_id vf /\ cfc_owner_epoch fc = vcf_owner_epoch vf
    /\ cfc_authorization_revision fc = revision
    /\ forall c, c ∈ cfc_capabilities fc <-> c ∈ capabilities.

Lemma negotiated_fence signed ring f node endpoint s n vf revision (capabilities : list bytes) :
  unforged ring signed -> wf_fence f -> verify_connection_fence_v2_at ring f node endpoint s n = Ok vf ->
  vcf_authorization_revision vf = revision ->
  same_capability_set (vcf_capabilities vf) (list_to_set capabilities) = true ->
  signed_term signed node endpoint revision capabilities vf.
Proof.
  intros Hu W V Hr Hs. pose proof (verified_fence_capabilities _ _ _ _ _ _ _ V) as N.
  pose proof (same_capability_set_ok _ _ N Hs) as Hc.
  apply verify_fence_ok in V as (fc & k & m & u & F & K & En & Ee & X & M & Sg & ->).
  exists fc. split; [exact (check_signature_signed _ _ _ _ _ _ _ (SFence fc) Hu K Sg
    (connection_fence_claims_wf _ _ W F) M)|]. simpl in *.
  split_and!; try done. intros c. by rewrite Hc, elem_of_list_to_set.
Qed.

(** C20. A session may do what the Controller signed and nothing else: when the
    Agent accepts a handshake response, every capability is one the Agent
    offered; a session of protocol 1.0 holds read-only capabilities only; any
    other session has exactly the capabilities, the revision and the expiry of
    a grant the Controller signed for this node and endpoint, unexpired now; and
    it goes beyond read-only capabilities only with an owner term the
    Controller signed for this node and endpoint with the same revision and the
    same capabilities. *)
Theorem negotiated_session_signed signed response supported node endpoint ring secs nanos mode :
  unforged ring signed ->
  (forall g, shr_session_grant response = Some g -> wf_session_grant g) ->
  (forall f, shr_connection_fence response = Some f -> wf_fence f) ->
  negotiate_session_mode_at_instant response supported node endpoint ring secs nanos = Ok mode ->
  let capabilities := shr_negotiated_capabilities response in
  (forall c, c ∈ capabilities -> c ∈ supported)
  /\ match mode with
     | ReadOnly granted => granted = list_to_set capabilities /\ all_read_only capabilities = true
     | AuthorizedV11 authority =>
         exists g, signed (SSession g) /\ sgc_node_id g = node /\ sgc_endpoint_id g = endpoint
           /\ secs < sgc_expires_at_seconds g
           /\ authority_grant authority
              = mkSessionGrantAuthority (list_to_set (sgc_negotiated_capabilities g))
                  (sgc_authorization_revision g) (sgc_expires_at_seconds g)
           /\ sgc_negotiated_capabilities g = capabilities
           /\ match authority with
              | SignedReadOnlyV11 _ => all_read_only capabilities = true
              | FencedV11 _ vf =>
                  signed_term signed node endpoint (sgc_authorization_revision g) capabilities vf
              end
     end.
Proof.
  intros Hu Wg Wf E. cbv zeta. unfold negotiate_session_mode_at_instant in E.
  destruct (_ || _)%bool in E; [done|]. destruct (valid_capabilities _ _ _) eqn:Ev in E; [|done]. simpl in E.
  split; [intros c; by apply (valid_capabilities_supported supported None)|].
  destruct (_ =? 0) in E.
  { destruct (_ || _)%bool eqn:G in E; [done|]. injection E as <-. by split_guards. }
  unfold negotiate_authorized in E. invert_ok E; subst mode;
    repeat match goal with G : ok_or _ _ = Ok _ |- _ => apply ok_or_Some in G
                         | G : map_err _ _ = Ok _ |- _ => apply map_err_ok in G end;
    stable_guards;
    match goal with Hg : shr_session_grant response = Some ?g, V : verify_session_grant _ ?g _ _ _ = Ok _ |- _ =>
      destruct (session_grant_authentic _ _ _ _ _ _ _ Hu (Wg g Hg) V)
        as (c & Sc & Nc & Ec & Xc & X' & Rc & _ & Cc & _) end.
  all: exists c; repeat (split; [first [done|simpl; congruence]|]).
  - rewrite <- Hguard0. by apply read_only_elements.
  - eapply negotiated_fence; [exact Hu|by apply Wf|eassumption|simpl in *; lia|].
    simpl in *. congruence.
Qed.

End Negotiation.

(** * Artifact streams *)

(** Programs that take the same steps. *)
Inductive same_steps {S C E A} : Prog S C E A -> Prog S C E A -> Prop :=
| same_done r : same_steps (Done r) (Done r)
| same_step B (a : Action B) k k' : (forall b, same_steps (k b) (k' b)) -> same_steps (Step a k) (Step a k').

#[global] Instance same_steps_refl {S C E A} : Reflexive (@same_steps S C E A).
Proof. intros m. induction m; by constructor. Qed.

Lemma same_then {S C E F A B} (m : Prog S C E A) (k k' : result E A -> Prog S C F B) :
  (forall r, same_steps (k r) (k' r)) -> same_steps (pthen m k) (pthen m k').
Proof. intros H. induction m; simpl; [apply H|by constructor]. Qed.

Lemma same_bind {S C E A B} (m : Prog S C E A) (k k' : A -> Prog S C E B) :
  (forall a, same_steps (k a) (k' a)) -> same_steps (pbind m k) (pbind m k').
Proof. intros H. apply same_then. intros [a|e]; [apply H|constructor]. Qed.

(** The chunks a process sent. *)
Definition chunk_by (tid : nat) (n : Noted) : option ArtifactChunk :=
  match n with Streamed t chunk => if decide (t = tid) then Some chunk else None | _ => None end.
Definition chunks_of (tid : nat) (w : AgentWorld) : list ArtifactChunk := omap (chunk_by tid) (aw_log w).

Definition chunk_bytes (chunks : list ArtifactChunk) : bytes := concat (ach_data <$> chunks).

(** Each chunk starts where the one before it ended. *)
Fixpoint contiguous (offset : Z) (chunks : list ArtifactChunk) : Prop :=
  match chunks with
  | [] => True
  | c :: rest => ach_offset c = offset /\ contiguous (offset + len (ach_data c)) rest
  end.

(** What may have been sent of an artifact at any time. *)
Record partial (id : bytes) (max_bytes : Z) (chunks : list ArtifactChunk) : Prop := {
  pa_contiguous : contiguous 0 chunks;
  pa_chunks : Forall (fun c => ach_artifact_id c = id /\ 0 < len (ach_data c) <= MAX_ARTIFACT_CHUNK) chunks;
  pa_size : len (chunk_bytes chunks) <= Z.max 0 max_bytes;
  pa_open front c : chunks = front ++ [c] -> Forall (fun x => ach_eof x = false) front }.

Lemma chunk_bytes_snoc l c : chunk_bytes (l ++ [c]) = chunk_bytes l ++ ach_data c.
Proof. unfold chunk_bytes. rewrite fmap_app, concat_app. simpl. by rewrite app_nil_r. Qed.

Lemma contiguous_snoc offset l c :
  contiguous offset l -> ach_offset c = offset + len (chunk_bytes l) -> contiguous offset (l ++ [c]).
Proof.
  revert offset. induction l as [|x l IH]; simpl; intros offset H E.
  - rewrite Z.add_0_r in E. done.
  - destruct H as [Hx H]. split; [done|]. apply IH; [done|]. rewrite E.
    change (chunk_bytes (x :: l)) with (ach_data x ++ chunk_bytes l). rewrite len_app. lia.
Qed.

Section Streaming.
Context {crypto : Crypto} {platform : Platform} {rtext : RecordText} {prost : Prost}.
Context {wire : ResponseWire} {codec : AgentWire}.
Variable client : PrivdClient.
Variable cx : SessionContext.
Variable tid : nat.

Lemma check_chunk_ok request grant offset response data :
  check_chunk request grant offset response = Ok data -> 0 <= offset -> afr_max_bytes request < u64_max ->
  0 < len (ad_data data) <= MAX_ARTIFACT_CHUNK /\ offset + len (ad_data data) <= afr_max_bytes request
  /\ (ad_eof data = true -> len (ad_sha256 data) = 32).
Proof.
  unfold check_chunk. intros E Ho Hm. destruct (pr_result response) as [[]|]; try done.
  destruct (_ || _)%bool eqn:G in E; [done|]. injection E as ->. rewrite !orb_false_iff in G.
  destruct G as ([[[[_ He] Hc] Ht] Hs] & _). apply Z.ltb_ge in Hc, Ht. split; [split; [|done]|split].
  - unfold is_empty, len in *. destruct (ad_data data); simpl in *; [done|lia].
  - lia.
  - intros Ee. rewrite Ee in Hs. simpl in Hs. apply negb_false_iff in Hs. lia.
Qed.

(** Every turn moves on, so that more turns than the stream has bytes change
    nothing. *)
Lemma stream_turns n m request grant offset hashed :
  0 <= offset -> afr_max_bytes request < u64_max ->
  (Z.to_nat (afr_max_bytes request - offset) < n)%nat -> (Z.to_nat (afr_max_bytes request - offset) < m)%nat ->
  same_steps (stream_chunks client n request grant offset hashed)
    (stream_chunks client m request grant offset hashed).
Proof.
  revert m offset hashed. induction n as [|n IH]; intros m offset hashed Ho Hm Hn Hm'; [lia|].
  destruct m as [|m]; [lia|]. simpl. apply same_bind. intros response.
  destruct (check_chunk request grant offset response) as [data|e] eqn:Ec; [|reflexivity]. cbn.
  destruct (check_chunk_ok _ _ _ _ _ Ec Ho Hm) as ([H1 _] & H2 & _).
  constructor. intros [u|e]; [|reflexivity]. destruct (ad_eof data); [reflexivity|].
  rewrite Z.min_l by lia. apply IH; lia.
Qed.

(** The other processes send nothing in this one's name. *)
Definition others (w w' : AgentWorld) : Prop := chunks_of tid w' = chunks_of tid w.

(** From a state of [P], with any moves of the others, the program ends in a
    state of [Q]. *)
Definition ends {E A} (P : AgentWorld -> Prop) (m : AgentProg E A) (Q : result E A -> AgentWorld -> Prop) : Prop :=
  triple others (fun _ _ => True) (fun _ => True) tid P m Q.

Definition sent (chunks : list ArtifactChunk) (w : AgentWorld) : Prop := chunks_of tid w = chunks.

#[local] Instance Stable_sent chunks : Stable others (sent chunks).
Proof. intros w w' H Hw. unfold sent in *. by rewrite H. Qed.

(** A program that sends no chunk. *)
Definition quiet {E A} (m : AgentProg E A) : Prop :=
  forall chunks, ends (sent chunks) m (fun _ => sent chunks).

Lemma quiet_act {E B} (f : Action (result E B)) :
  (forall c w r w', f tid c w = Some (r, w') -> chunks_of tid w' = chunks_of tid w) -> quiet (act f).
Proof.
  intros H chunks. apply triple_act; [apply _|intros r; apply _|].
  intros w c r w' Hw _ Ef. split; [done|]. unfold sent in *. by rewrite (H c w r w' Ef).
Qed.

Lemma quiet_done {E A} (r : result E A) : quiet (Done r).
Proof. intros chunks. apply triple_done; [apply _|done]. Qed.

Lemma quiet_bind {E A B} (m : AgentProg E A) (k : A -> AgentProg E B) :
  quiet m -> (forall a, quiet (k a)) -> quiet (pbind m k).
Proof.
  intros Hm Hk chunks. eapply triple_bind; [apply Hm|intros a; apply Hk|intros e; apply _|done].
Qed.

Lemma note_quiet n w : chunk_by tid n = None -> chunks_of tid (note n w) = chunks_of tid w.
Proof. intros H. unfold chunks_of, note. simpl. rewrite omap_app. simpl. rewrite H. apply app_nil_r. Qed.

Ltac quiet_step := apply quiet_act; intros ? ? ? ? ?; cbv beta zeta in *;
  simplify_eq/=; repeat (case_match; simplify_eq/=); first [done|by apply note_quiet].

Lemma quiet_host_call : quiet host_call.
Proof. quiet_step. Qed.
Lemma quiet_stopped : quiet await_stopped.
Proof. quiet_step. Qed.
Lemma quiet_system_time : quiet system_time.
Proof. quiet_step. Qed.
Lemma quiet_now_v7 : quiet now_v7.
Proof. quiet_step. Qed.
Lemma quiet_recv n : quiet (recv_exact n).
Proof. quiet_step. Qed.
Lemma quiet_ask request : quiet (ask request).
Proof. quiet_step. Qed.
Lemma quiet_receive request : quiet (receive request).
Proof. quiet_step. Qed.
Lemma quiet_refresh : quiet refresh_fence_epoch_floor.
Proof.
  apply quiet_act. intros c w r w' Hf. destruct (owner_fence_epoch_floor _) as [[durable|e] c'];
    injection Hf as _ <-; [by rewrite note_quiet|done].
Qed.
Lemma quiet_since_epoch : quiet since_epoch.
Proof.
  apply quiet_bind; [apply quiet_system_time|]. intros now. destruct (now <? 0); apply quiet_done.
Qed.

Lemma quiet_call operation : quiet (call client operation).
Proof.
  apply quiet_bind; [apply quiet_system_time|intros now].
  apply quiet_bind; [apply quiet_done|intros deadline]. apply quiet_bind; [apply quiet_now_v7|intros id].
  apply quiet_bind; [apply quiet_host_call|intros _]. apply quiet_bind; [apply quiet_ask|intros _].
  apply quiet_receive.
Qed.

(** A quiet step on the way. *)
Lemma ends_quiet {E A B} chunks (m : AgentProg E A) (k : A -> AgentProg E B) Q :
  quiet m -> (forall e w, sent chunks w -> Q (Err e) w) -> (forall a, ends (sent chunks) (k a) Q) ->
  ends (sent chunks) (pbind m k) Q.
Proof. intros Hm He Hk. eapply triple_bind; [apply Hm|exact Hk|intros e; apply _|intros e w; apply He]. Qed.

(** Sending the next chunk. *)
Lemma partial_next id max_bytes chunks c :
  partial id max_bytes chunks -> Forall (fun x => ach_eof x = false) chunks ->
  ach_offset c = len (chunk_bytes chunks) -> ach_artifact_id c = id ->
  0 < len (ach_data c) <= MAX_ARTIFACT_CHUNK -> len (chunk_bytes chunks) + len (ach_data c) <= max_bytes ->
  partial id max_bytes (chunks ++ [c]).
Proof.
  intros [P1 P2 P3 P4] Ho E1 E2 H3 H4. split.
  - apply contiguous_snoc; [done|]. lia.
  - apply Forall_app_2; [done|]. by apply Forall_singleton.
  - rewrite chunk_bytes_snoc, len_app. lia.
  - intros front x [-> _]%app_inj_tail. done.
Qed.

(** The stream ended with a chunk that says so, with this digest. *)
Definition closed_with (digest : bytes) (chunks : list ArtifactChunk) : Prop :=
  exists front c, chunks = front ++ [c] /\ ach_eof c = true /\ ach_sha256 c = digest.

(** What a stream has sent since [before], and what its result says. *)
Definition streamed (id : bytes) (max_bytes : Z) (before : list ArtifactChunk)
    (r : result AgentError (bytes * bytes)) (w : AgentWorld) : Prop :=
  exists chunks, sent (before ++ chunks) w /\ partial id max_bytes chunks
    /\ forall data digest, r = Ok (data, digest) -> data = chunk_bytes chunks /\ closed_with digest chunks.

#[local] Instance Stable_streamed id max_bytes before r : Stable others (streamed id max_bytes before r).
Proof.
  intros w w' H (chunks & Hs & P). exists chunks. split; [|done]. by apply (Stable_sent _ w).
Qed.

Lemma streamed_err id max_bytes before chunks e w :
  partial id max_bytes chunks -> sent (before ++ chunks) w -> streamed id max_bytes before (Err e) w.
Proof. intros P Hs. by exists chunks. Qed.

Lemma stream_chunks_ends n request grant before chunks :
  afr_max_bytes request < u64_max -> partial (afr_artifact_id request) (afr_max_bytes request) chunks ->
  Forall (fun x => ach_eof x = false) chunks ->
  ends (sent (before ++ chunks))
    (stream_chunks client n request grant (len (chunk_bytes chunks)) (chunk_bytes chunks))
    (streamed (afr_artifact_id request) (afr_max_bytes request) before).
Proof.
  intros Hm. revert chunks. induction n as [|n IH]; intros chunks P Ho.
  { apply triple_done; [apply _|]. intros w. by apply streamed_err. }
  apply ends_quiet; [apply quiet_call|intros e w; by apply streamed_err|]. intros response.
  destruct (check_chunk request grant _ response) as [data|e] eqn:Ec;
    [|apply triple_done; [apply _|intros w; by apply streamed_err]].
  pose proof (len_nonneg (chunk_bytes chunks)) as Hnn.
  destruct (check_chunk_ok _ _ _ _ _ Ec Hnn Hm) as (H1 & H2 & _). cbn [pbind pthen plift].
  set (chunk := mkArtifactChunk _ _ _ _ _).
  assert (partial (afr_artifact_id request) (afr_max_bytes request) (chunks ++ [chunk])) as P'
    by (by apply partial_next).
  eapply triple_bind with (M := fun r w => match r with
    | Ok _ => sent (before ++ chunks ++ [chunk]) w
    | Err e => streamed (afr_artifact_id request) (afr_max_bytes request) before (Err e) w end).
  - apply triple_act; [apply _|intros [u|e]; apply _|]. intros w c r w' Hw _ Es. split; [done|].
    destruct (u32_try_from _) in Es; simplify_eq/=; [|by apply (streamed_err _ _ _ chunks)].
    assert (sent (before ++ chunks ++ [chunk]) (note (Streamed tid chunk) w)) as Hs.
    { unfold sent, chunks_of, note in *. simpl. rewrite omap_app, Hw. simpl. rewrite decide_True by done.
      by rewrite <- app_assoc. }
    destruct (ap_ok c); [exact Hs|by apply (streamed_err _ _ _ (chunks ++ [chunk]))].
  - intros u. cbv zeta. rewrite Z.min_l by lia. destruct (ad_eof data) eqn:Ee.
    + apply triple_done; [apply _|]. intros w Hs. exists (chunks ++ [chunk]). split; [done|]. split; [done|].
      intros d g [= <- <-]. rewrite chunk_bytes_snoc. split; [done|]. by exists chunks, chunk.
    + specialize (IH (chunks ++ [chunk]) P'). rewrite chunk_bytes_snoc, len_app in IH. apply IH.
      apply Forall_app_2; [done|]. by apply Forall_singleton.
  - intros e. apply _.
  - done.
Qed.

Lemma partial_nil id max_bytes : partial id max_bytes [].
Proof. split; [done|by constructor|apply Z.le_max_l|]. by intros [|? ?] c. Qed.

(** A delivery: the chunks of one artifact, of at most the size asked for. *)
Definition delivered (before : list ArtifactChunk) (r : result AgentError unit) (w : AgentWorld) : Prop :=
  exists id max_bytes chunks, max_bytes <= MAX_ARTIFACT_BYTES /\ sent (before ++ chunks) w
    /\ partial id max_bytes chunks
    /\ (r = Ok tt -> closed_with (sha256 (chunk_bytes chunks)) chunks).

#[local] Instance Stable_delivered before r : Stable others (delivered before r).
Proof.
  intros w w' H (id & m & chunks & Hm & Hs & P). exists id, m, chunks. split; [done|]. split; [|done].
  by apply (Stable_sent _ w).
Qed.

Lemma nothing_delivered before e w : sent before w -> delivered before (Err e) w.
Proof.
  intros Hs. exists [], 0, []. split; [done|]. rewrite app_nil_r. split; [done|].
  split; [apply partial_nil|done].
Qed.

(** The check at the end of a stream. *)
Lemma stream_check_ends id max_bytes before chunks digest :
  max_bytes <= MAX_ARTIFACT_BYTES -> partial id max_bytes chunks -> closed_with digest chunks ->
  ends (sent (before ++ chunks))
    (pbind await_stopped (fun stopped => if stopped || bool_decide (sha256 (chunk_bytes chunks) <> digest)
       then pthrow (invalid "artifact delivery integrity failed") else pret tt)) (delivered before).
Proof.
  intros Hm P Hc.
  assert (forall e w, sent (before ++ chunks) w -> delivered before (Err e) w) as He.
  { intros e w Hs. by exists id, max_bytes, chunks. }
  apply (ends_quiet (before ++ chunks)); [apply quiet_stopped|exact He|].
  intros [|]; [apply triple_done; [apply _|apply He]|]. simpl. case_bool_decide as D; [apply triple_done; [apply _|apply He]|]. apply triple_done; [apply _|].
  intros w Hs. exists id, max_bytes, chunks. split; [done|]. split; [done|]. split; [done|].
  intros _. by rewrite D.
Qed.

(** C30. An artifact stream delivers exactly the announced bytes: whatever the
    Controller asks for, the privileged daemon answers, fails or the other
    processes do meanwhile, the chunks a stream sends belong to one artifact,
    start at offset 0, leave no gap and no overlap, hold 1 to 262144 bytes each
    and at most the requested number, up to 64 MiB, together, and none follows
    the one marked as the last; the stream reports success only when the last
    chunk was sent and announces the SHA-256 digest of all the bytes sent. The
    loop ends of itself: turns beyond the requested number of bytes and one more
    change nothing. *)
Theorem artifact_stream_exact length authority active before :
  ends (sent before) (handle_artifact_stream client cx length authority active) (delivered before)
  /\ forall request grant extra, 0 <= afr_max_bytes request < u64_max ->
       same_steps
         (stream_chunks client (S (Z.to_nat (afr_max_bytes request))) request grant 0 [])
         (stream_chunks client (S (Z.to_nat (afr_max_bytes request)) + extra) request grant 0 []).
Proof.
  split; [|intros request grant extra Hm; apply stream_turns; lia].
  assert (forall e, ends (sent before) (pthrow e) (delivered before)) as Hthrow.
  { intros e. apply triple_done; [apply _|]. intros w. by apply nothing_delivered. }
  assert (forall {A} (m : Agent A) k, quiet m -> (forall a, ends (sent before) (k a) (delivered before)) ->
    ends (sent before) (pbind m k) (delivered before)) as Hstep.
  { intros A m k Hq Hk. apply ends_quiet; [done|intros e w; by apply nothing_delivered|done]. }
  unfold handle_artifact_stream. destruct (_ || _)%bool; [apply Hthrow|].
  apply Hstep; [apply quiet_recv|intros b]. apply Hstep; [apply quiet_done|intros request].
  apply Hstep; [apply quiet_done|intros _]. apply Hstep; [apply quiet_done|intros grant].
  destruct (_ || _)%bool eqn:G; [apply Hthrow|]. apply orb_false_iff in G as [_ G]. apply Z.ltb_ge in G.
  apply Hstep; [apply quiet_refresh|intros floor]. apply Hstep; [apply quiet_since_epoch|intros now].
  apply Hstep; [apply quiet_done|intros secs]. apply Hstep; [apply quiet_done|intros _].
  eapply triple_bind.
  - pose proof (stream_chunks_ends (S (Z.to_nat (afr_max_bytes request))) request grant before []) as H.
    rewrite app_nil_r in H.
    apply H; [unfold MAX_ARTIFACT_BYTES, u64_max in *; lia|apply partial_nil|by constructor].
  - intros [data digest] w (chunks & Hs & P & H). destruct (H _ _ eq_refl) as [-> Hc]. revert w Hs.
    by apply (stream_check_ends (afr_artifact_id request) (afr_max_bytes request)).
  - intros e. apply _.
  - intros e w (chunks & Hs & P & _). exists (afr_artifact_id request), (afr_max_bytes request), chunks.
    by split.
Qed.

End Streaming.
