(* ===== verification/AgentWitnesses.v ===== *)
(** A concrete run of two Agent processes on one node: the first activates a
    term and has a reload executed, the second holds the next term and answers
    the redelivered command from the journal. *)

From stdpp Require Import base list gmap numbers countable strings sorting relations.
From Stdlib Require Import ZArith Lia Bool Strings.Byte.
From S2P Require Import Prelude Bytes Text Contracts ConfigProfile Authorization.
From S2P Require Import CommandAuthorization TranscriptFacts SignedAuthority FenceTheorems Sql Journal Telemetry.
From S2P Require Import JournalFacts JournalTheorems Executor ExecutorOutcomes StrictWire StrictWireTheorems.
From S2P Require Import EffectRecords EffectStore Attestation Concurrency Utf8 UpgradeRecords UpgradeWitnesses.
From S2P Require Import AttestationTheorems.
From S2P Require Import PrivdProtocol PrivdAuthority Privd PrivdWitnesses AgentClient AgentSession.
From S2P Require Import AgentRun AgentLogic AgentTheorems.

Local Open Scope Z_scope.

(** * What the Controller signed *)

Definition agent_capabilities : list bytes := [str "ocserv.fencing.v2"; str "ocserv.service.reload"].

Definition term_carrier (epoch : Z) : ConnectionFenceV2 :=
  mkConnectionFenceV2 1 (str "key") (be 16 1) (v7 3) (be 32 3) (be 16 4) 5 epoch (be 16 7) 8
    agent_capabilities (Some (mkTimestamp 1040 0)) (Some (mkTimestamp 1000 0))
    (Some (mkTimestamp 1050 0)) [].

Definition term_binding (epoch : Z) : FenceBindingV2 :=
  mkFenceBindingV2 1 (str "key") 1 (v7 1) (be 16 1) (v7 3) (be 32 3) (be 16 4) 5 epoch (be 16 7) 8
    (str "ocserv.service.reload") (Some (mkTimestamp 1000 0)) (Some (mkTimestamp 1045 0)) [].

(** The reload of [PrivdWitnesses], delivered under a term. *)
Definition term_envelope (epoch : Z) : CommandEnvelope :=
  mkCommandEnvelope (str "1.2") [] (v7 1) (v7 2) (v7 3) 0
    (Some (mkTimestamp 1000 0)) (Some (mkTimestamp 1060 0)) 8 [] (str "operator") []
    1 2 (last_bytes reload_preimage) (v7 4) (str "service.reload") (str "ocserv.service.reload") [] []
    (Some (mkCommandAuthorizationProof 1 (str "key") [])) (Some (term_carrier epoch))
    (Some (term_binding epoch)) (Some PServiceReload).

Definition grant_carrier : SessionGrantV1 :=
  mkSessionGrantV1 1 (str "key") 1 1 (v7 3) (be 32 3) 8 agent_capabilities
    (Some (mkTimestamp 1000 0)) (Some (mkTimestamp 1055 0)) [].

Definition agent_statements : list Statement :=
  match connection_fence_claims_v2 (term_carrier 6), connection_fence_claims_v2 (term_carrier 7),
        fence_binding_claims_v2 (term_binding 6), fence_binding_claims_v2 (term_binding 7),
        session_grant_claims_v1 grant_carrier with
  | Ok f6, Ok f7, Ok b6, Ok b7, Ok g =>
      [SCommand reload_claims; SFence f6; SFence f7; SBinding b6; SBinding b7; SSession g]
  | _, _, _, _, _ => []
  end.

Definition agent_messages : list bytes := message_of <$> agent_statements.

#[local] Instance agent_crypto : Crypto :=
  {| VerifyingKey := unit; Signature := bytes; key_as_bytes := fun _ => []; signature_from_slice := Some;
     verify_strict := fun _ m _ => bool_decide (m ∈ agent_messages);
     sha256 := last_bytes; hex_encode := lower_hex_string;
     sha256_length := last_bytes_length; hex_encode_inj := lower_hex_string_inj |}.
#[local] Instance agent_text : RecordText := plain_text agent_crypto eq_refl.
#[local] Instance agent_platform : Platform :=
  {| encoded_len := fun _ => 100; uuid_version := fun u => byte_val (default x00 (u !! 6%nat)) / 16;
     uuid_parses := fun _ => true; ARCH := str "aarch64" |}.

Definition agent_config : AgentConfig :=
  mkAgentConfig 1000 (v7 3) (be 32 3) None (mkKeyring {[ str "key" := tt ]}) [] false false.

Lemma agent_unforged : unforged (ac_command_keys agent_config) (fun st => st ∈ agent_statements).
Proof.
  intros id key m s K V. cbn in V. apply bool_decide_eq_true in V. unfold agent_messages in V.
  apply list_elem_of_fmap in V as (st & -> & Hst). exists st. split; [done|].
  assert (Forall (fun st => wf_statement st /\ statement_bytes st = Ok (message_of st)) agent_statements) as F.
  { repeat constructor; try (by vm_compute); try (by wf_sample).
    all: apply (claims_from_envelope_wf reload_envelope); [apply reload_envelope_wf|by vm_compute]. }
  rewrite Forall_forall in F. by apply F.
Qed.

(** * The wire *)

(** The frame [x00] answers a read, [x01] the execution. *)
Definition execution_proof : PrivilegedResultProof :=
  mkPrivilegedResultProof 1
    (Some (mkPrivdResultReceiptV1 1 (v7 3) [] (v7 1) (v7 4) (v7 2) 2 (last_bytes reload_preimage) 0 0 1 []
      [] [] 1 (Some (mkTimestamp 1005 0)) (Some (mkTimestamp 1006 0)) false None)) (replicate 64 x00).

Definition answer_frame (b : bytes) : option PrivdResponse :=
  if bool_decide (b = [x00]) then Some (mkPrivdResponse (v7 9) None (Some (ResOcservVersion (str "1.3.0"))))
  else if bool_decide (b = [x01])
  then Some (mkPrivdResponse (v7 9) (Some execution_proof) (Some (ResMutation true))) else None.

#[local] Instance agent_wire : ResponseWire :=
  {| encode_response := fun _ => []; decode_response := answer_frame; encode_result := mutation_bytes;
     representable := fun _ => False; decode_encode := fun r H => False_ind _ H |}.

(** Handshake responses and commands are told apart by their last byte, which
    is the epoch of the term. *)
Definition epoch_of (b : bytes) : Z := be_value (drop (length b - 1) b).

Definition session_response (epoch : Z) : SessionHandshakeResponse :=
  mkSessionHandshakeResponse 1 1 1 0 [] agent_capabilities (Some grant_carrier) (Some (term_carrier epoch)) [].

#[local] Instance agent_prost : Prost :=
  {| decode_key := @decode_key sample_prost; decode_length_delimiter := @decode_length_delimiter sample_prost;
     skip_field := @skip_field sample_prost; decode_envelope := fun b => Some (term_envelope (epoch_of b));
     decode_key_consumes := @decode_key_consumes sample_prost;
     decode_length_consumes := @decode_length_consumes sample_prost;
     skip_field_consumes := @skip_field_consumes sample_prost |}.

#[local] Instance agent_codec : AgentWire :=
  {| encode_request := fun _ => [x00]; encode_handshake := fun _ => [x00];
     decode_handshake_response := fun b => Some (session_response (epoch_of b));
     encode_grant := fun _ => [x01]; encode_command_event := fun _ => [x00];
     decode_fetch := fun _ => None; decode_consume := fun _ => None;
     encode_chunk := fun _ => [x00]; encode_consumed := fun _ => [x00];
     encode_proof := fun _ => [x07]; decode_proof := fun _ => Some execution_proof;
     encode_batch := fun _ => [x00]; json_to_vec := fun _ => None; release_version := str "0.1.0" |}.

(** * A run *)

Definition pick (b : bytes) : AgentPick :=
  mkAgentPick (1005 * NANOS_PER_SECOND) [] true b (v7 9) 0 StreamAccepted (FileContent (str "ID=debian")) None.
Definition plain_pick : AgentPick := pick [].
Definition closing_pick : AgentPick :=
  mkAgentPick (1005 * NANOS_PER_SECOND) [] true [] (v7 9) 0 ConnectionClosed FileMissing None.

Definition call_picks (b : byte) : list AgentPick := replicate 4 plain_pick ++ [pick (be 4 1 ++ [b])].

(** A command field with an empty name, and one of this length. *)
Definition command_frame (epoch : byte) : bytes := [x0a; x01; epoch].

Definition session_picks (epoch : byte) (work : list AgentPick) : list AgentPick :=
  replicate 2 plain_pick ++ concat (replicate 7 (call_picks x00)) ++ replicate 5 plain_pick
  ++ replicate 2 plain_pick ++ call_picks x00 ++ replicate 4 plain_pick
  ++ [pick (be 4 1); pick [epoch]] ++ replicate 6 plain_pick
  ++ replicate 2 plain_pick ++ [pick (be 4 3); pick (command_frame epoch)] ++ replicate 2 plain_pick
  ++ work ++ [plain_pick; closing_pick; plain_pick].

(** The first delivery is executed, the second replayed. *)
Definition agent_run (tid : nat) (epoch : byte) (work : list AgentPick) (w : AgentWorld)
  : option (result AgentError unit) * AgentWorld :=
  run_alone tid (run_agent agent_config 1 2) (session_picks epoch work) w.

Definition executing : list AgentPick := [plain_pick] ++ call_picks x01 ++ [plain_pick].
Definition first_node : AgentWorld := end_process 1 (snd (agent_run 1 x06 executing new_node)).
Definition node_world : AgentWorld := end_process 2 (snd (agent_run 2 x07 [plain_pick] first_node)).

(** What a run left in the record, but for the reads. *)
Definition told (n : Noted) : option (nat * Z) :=
  match n with
  | Activated tid f => Some (tid, vcf_owner_epoch f)
  | Reported tid _ r => Some (tid, 100 + cmr_state r)
  | Asked tid request => match pq_authorization_command request with Some _ => Some (tid, 200) | None => None end
  | _ => None
  end.

Lemma node_run :
  (fst (agent_run 1 x06 executing new_node), fst (agent_run 2 x07 [plain_pick] first_node),
   omap told (aw_log node_world))
  = (Some (Ok tt), Some (Ok tt), [(1%nat, 6); (1%nat, 200); (1%nat, 101); (2%nat, 7); (2%nat, 101)]).
Proof. vm_compute. reflexivity. Qed.

Lemma agent_alone tid epoch work w :
  fst (agent_run tid epoch work w) = Some (Ok tt) ->
  agents_reach agent_config (∅, w) (∅, end_process tid (snd (agent_run tid epoch work w))).
Proof.
  intros R.
  apply (run_alone_reach (fun _ => True) end_process (agent_process agent_config) (run_agent agent_config 1 2)
    ∅ tid (session_picks epoch work) w (Ok tt) (snd (agent_run tid epoch work w))
    (lookup_empty (M := gmap nat) tid)).
  - constructor.
  - by apply Forall_forall.
  - etransitivity; [apply surjective_pairing|]. apply f_equal2; [exact R|reflexivity].
Qed.

Lemma node_reach : agents_reach agent_config (∅, new_node) (∅, node_world).
Proof.
  pose proof node_run as R. rewrite !pair_eq in R. destruct R as [[R1 R2] _].
  unfold agents_reach, pool_reach. etransitivity; [exact (agent_alone 1 x06 executing new_node R1)|].
  exact (agent_alone 2 x07 [plain_pick] first_node R2).
Qed.

(** The entries of the record. *)
Definition node_entry (i : nat) : Noted := default (Shipped 0 []) (aw_log node_world !! i).

Lemma node_split i :
  bool_decide (is_Some (aw_log node_world !! i)) = true ->
  aw_log node_world = take i (aw_log node_world) ++ node_entry i :: drop (S i) (aw_log node_world).
Proof.
  intros [n E]%bool_decide_eq_true. unfold node_entry. rewrite E. symmetry. by apply take_drop_middle.
Qed.

Definition term_of (epoch : Z) : VerifiedConnectionFenceV2 :=
  mkVerifiedConnectionFenceV2 (be 16 1) (be 16 4) 5 epoch (be 16 7) 8 agent_capabilities 1040 0 1050 0.

Lemma node_entries :
  node_entry 28 = Activated 1 (term_of 6) /\ node_entry 64 = Activated 2 (term_of 7).
Proof. split; vm_compute; reflexivity. Qed.

Definition asked_request : PrivdRequest :=
  match node_entry 33 with
  | Asked _ request => request
  | _ => mkPrivdRequest [] 0 None None 0 None
  end.

Lemma asked_entry : node_entry 33 = Asked 1 asked_request
  /\ operation_of asked_request = Some (OperationCommand, v7 1, str "ocserv.service.reload",
       Some (term_carrier 6), Some (term_binding 6)).
Proof. split; vm_compute; reflexivity. Qed.

Lemma agent_requests_authorized_witness :
  exists active before between now after term c,
    take 33 (aw_log node_world)
      = before ++ Refreshed 1 (vcf_owner_epoch active) :: between ++ Clocked 1 now :: after
    /\ Activated 1 active ∈ before /\ Forall (fun n => noted_by n <> 1%nat) between
    /\ in_force (fun st => st ∈ agent_statements) (v7 3) (be 32 3) (as_secs now) (subsec_nanos now)
         (as_secs now) (subsec_nanos now) term c
    /\ term_is term active /\ fbc_operation_id c = v7 1.
Proof.
  destruct asked_entry as [E O].
  assert (aw_log node_world = take 33 (aw_log node_world) ++ Asked 1 asked_request :: drop 34 (aw_log node_world)) as S.
  { rewrite <- E. apply node_split. vm_compute. reflexivity. }
  destruct (agent_requests_authorized agent_config (fun st => st ∈ agent_statements) ∅ node_world
    (take 33 (aw_log node_world)) 1 asked_request (drop 34 (aw_log node_world)) OperationCommand (v7 1) (str "ocserv.service.reload") (Some (term_carrier 6)) (Some (term_binding 6)))
    as (active & before & between & now & after & term & c & H);
    [..|exists active, before, between, now, after, term, c; tauto].
  - exact agent_unforged.
  - intros f [= <-]. by wf_sample.
  - intros b [= <-]. by wf_sample.
  - exact node_reach.
  - exact S.
  - exact O.
Defined.

Lemma activated_terms_monotone_witness :
  vcf_owner_epoch (term_of 6) <= vcf_owner_epoch (term_of 7)
  /\ vcf_owner_epoch (term_of 7) <= floor_of (aw_journal node_world).
Proof.
  destruct (activated_terms_monotone agent_config ∅ node_world (take 28 (aw_log node_world)) 1 (term_of 6)
    (take 35 (drop 29 (aw_log node_world))) 2 (term_of 7) (drop 65 (aw_log node_world)) node_reach)
    as (H1 & _ & H2); [|exact (conj H1 H2)].
  destruct node_entries as [E1 E2]. rewrite <- E1, <- E2. vm_compute. reflexivity.
Defined.

Definition reported_result (i : nat) : CommandResult :=
  match node_entry i with
  | Reported _ _ r => r
  | _ => rejected_result (term_envelope 6) [] 0
  end.

Lemma node_reports :
  node_entry 35 = Reported 1 (term_envelope 6) (reported_result 35)
  /\ node_entry 68 = Reported 2 (term_envelope 7) (reported_result 68)
  /\ concluded (reported_result 35) = true /\ concluded (reported_result 68) = true
  /\ cmr_idempotency_key (reported_result 35) = cmr_idempotency_key (reported_result 68).
Proof. split_and!; vm_compute; reflexivity. Qed.

Lemma node_member i : bool_decide (is_Some (aw_log node_world !! i)) = true -> node_entry i ∈ aw_log node_world.
Proof. intros H. rewrite (node_split i H). apply elem_of_app. right. apply elem_of_cons. by left. Qed.

Lemma reported_outcomes_agree_witness :
  exists x replayed1 replayed2,
    reported_result 35 = command_result x replayed1 /\ reported_result 68 = command_result x replayed2
    /\ held (aw_journal node_world) x.
Proof.
  destruct node_reports as (E1 & E2 & C1 & C2 & K).
  destruct (reported_outcomes_agree agent_config ∅ node_world 1 (term_envelope 6) (reported_result 35)
    2 (term_envelope 7) (reported_result 68) node_reach) as (x & b1 & b2 & H1 & H2 & _ & H3); [..|done|done|exact K|].
  - rewrite <- E1. apply node_member. vm_compute. reflexivity.
  - rewrite <- E2. apply node_member. vm_compute. reflexivity.
  - exists x, b1, b2. split; [exact H1|]. split; [exact H2|]. apply (H3 ∅ node_world). apply rtc_refl.
Defined.

Definition no_row : CommandRow := mkCommandRow [] [] [] 0 [] None None None 0 0.

Definition node_row : CommandRow := default no_row (db_commands (aw_journal node_world) !! v7 2).

Lemma node_row_ok :
  db_commands (aw_journal node_world) !! v7 2 = Some node_row /\ row_state node_row = as_str Succeeded
  /\ db_effects (aw_journal node_world) !! v7 2 = None.
Proof. split_and!; vm_compute; reflexivity. Qed.

Lemma settled_commands_evidenced_witness :
  exists proof tid request response, row_privileged_result_proof node_row = Some proof
    /\ Answered tid request response ∈ aw_log node_world /\ Asked tid request ∈ aw_log node_world.
Proof.
  destruct node_row_ok as (E & S & N).
  destruct (settled_commands_evidenced agent_config ∅ node_world (v7 2) node_row node_reach E)
    as [[e He]|(proof & tid & request & response & command & completed & l1 & l2 & Hp & El & Ha & _)].
  - exists Succeeded. split; [|exact S]. unfold terminal. by left.
  - exfalso. rewrite N in He. discriminate He.
  - exists proof, tid, request, response. split; [exact Hp|]. rewrite El.
    split; apply elem_of_app; [right; apply elem_of_cons|]; by left.
Defined.

Lemma negotiated_session_signed_witness :
  exists g, SSession g ∈ agent_statements /\ sgc_node_id g = v7 3
    /\ signed_term (fun st => st ∈ agent_statements) (v7 3) (be 32 3) (sgc_authorization_revision g)
         agent_capabilities (term_of 6).
Proof.
  destruct (negotiated_session_signed (fun st => st ∈ agent_statements) (session_response 6)
    supported_capabilities (v7 3) (be 32 3) (ac_command_keys agent_config) 1005 0
    (AuthorizedV11 (FencedV11 (mkSessionGrantAuthority (list_to_set agent_capabilities) 8 1055) (term_of 6))))
    as (_ & g & Sg & Ng & _ & _ & _ & _ & H).
  - exact agent_unforged.
  - intros g [= <-]. by wf_sample.
  - intros f [= <-]. by wf_sample.
  - vm_compute. reflexivity.
  - exists g. split; [exact Sg|]. split; [exact Ng|exact H].
Defined.

Lemma artifact_stream_exact_witness :
  let request := mkArtifactFetchRequest (v7 1) (str "certificate_p12") 5 None None None in
  same_steps (stream_chunks (mkPrivdClient 0 0) 6 request sample_artifact_carrier 0 [])
    (stream_chunks (mkPrivdClient 0 0) 9 request sample_artifact_carrier 0 []).
Proof.
  intros request.
  destruct (artifact_stream_exact (mkPrivdClient 0 0)
    (mkSessionContext (v7 3) (be 32 3) [] [] [] (ac_command_keys agent_config) [] false) 1 5
    (mkSessionGrantAuthority ∅ 8 1055) (term_of 6) []) as [_ H].
  apply (H request sample_artifact_carrier 3%nat). unfold u64_max. simpl. lia.
Defined.
