(* ===== verification/LocalBinding.v ===== *)
(** The local authority record of a node
    ([command-authorization/src/local_binding.rs]): its text, the directories
    derived from it, and the checks under which the root-owned file that
    selects it is read. *)

From stdpp Require Import base list gmap numbers countable strings.
From Stdlib Require Import ZArith Lia Bool Strings.Byte.
From S2P Require Import Prelude Bytes Text Authorization Executor Attestation AttestationTheorems Files Utf8.
From S2P Require Import UpgradeRecords UpgradeRunner UpgradeWitnesses PrivdWitnesses AdapterTextFacts.

Local Open Scope Z_scope.

Inductive BindingError :=
| BindingInvalid
| BindingIo (kind : IoKind).

(** What [metadata] tells of an open file or directory. *)
Record Metadata := mkMetadata {
  md_is_dir : bool; md_is_file : bool; md_uid : Z; md_nlink : Z; md_mode : Z }.

(** What the system answers: an open of the names below the root, and a read of
    the file the last open gave. *)
Record BindingHost := mkBindingHost {
  bh_open : list bytes -> result IoKind Metadata; bh_read : result IoKind bytes }.

Section Binding.
Context {crypto : Crypto} {signer : Signer} {text : RecordText} {platform : Platform}.

Record LocalBinding := mkLocalBinding {
  lb_node_id : bytes; lb_controller : bytes; lb_endpoint : bytes; lb_command_key : VerifyingKey;
  lb_mutations_blocked : bool }.

(** * The record *)

Definition decode_hex (value : bytes) : result BindingError bytes :=
  if negb (len value =? 64) || negb (forallb lower_hexdigit value) then Err BindingInvalid
  else
  let? decoded := ok_or (hex_decode value) BindingInvalid in
  if len decoded =? 32 then Ok decoded else Err BindingInvalid.

Definition binding_fields (self : LocalBinding) : list bytes :=
  [str "ocservia-binding-v1"; uuid_to_string (lb_node_id self); hex_encode (lb_controller self);
   hex_encode (lb_endpoint self); hex_encode (key_as_bytes (lb_command_key self));
   if lb_mutations_blocked self then str "blocked" else str "clear"].

Definition encode (self : LocalBinding) : bytes :=
  concat ((fun field => field ++ [x0a]) <$> binding_fields self).

Definition decode (record : bytes) : result BindingError LocalBinding :=
  match lines record with
  | [version; node; controller; endpoint; key; state] =>
      if bool_decide (version <> str "ocservia-binding-v1") || (1024 <? len record) then Err BindingInvalid
      else
      let? node_id := ok_or (uuid_parse_str node) BindingInvalid in
      if negb (uuid_version node_id =? 7) || bool_decide (uuid_to_string node_id <> node)
      then Err BindingInvalid
      else
      let? controller := decode_hex controller in
      let? endpoint := decode_hex endpoint in
      let? key := decode_hex key in
      let? command_key := ok_or (verifying_key_from_bytes key) BindingInvalid in
      let? mutations_blocked :=
        if bool_decide (state = str "clear") then Ok false
        else if bool_decide (state = str "blocked") then Ok true else Err BindingInvalid in
      let binding := mkLocalBinding node_id controller endpoint command_key mutations_blocked in
      if bool_decide (encode binding <> record) then Err BindingInvalid else Ok binding
  | _ => Err BindingInvalid
  end.

(** * The directories of a binding *)

Definition agent_directory (self : LocalBinding) : path :=
  fixed_path "/var/lib/ocservia-agent/bindings" ++ [uuid_to_string (lb_node_id self)].

Definition effect_directory (self : LocalBinding) : path :=
  fixed_path "/var/lib/ocservia-privd/bindings" ++ [uuid_to_string (lb_node_id self)].

Definition upgrade_directory (self : LocalBinding) : path :=
  fixed_path "/var/lib/ocservia-upgrade/bindings" ++ [uuid_to_string (lb_node_id self); str "operations"].

(** * Reading the selector *)

Definition validate_directory (metadata : Metadata) (process_uid : Z) : result BindingError unit :=
  if negb (md_is_dir metadata)
     || (negb (md_uid metadata =? 0) && negb (md_uid metadata =? process_uid))
     || negb (Z.land (md_mode metadata) 18 =? 0)
  then Err BindingInvalid else Ok tt.

(** Opens each directory below the one at [below], which must be safe. *)
Fixpoint descend (host : BindingHost) (owner : Z) (below : list bytes) (parents : list bytes)
    (directory : Metadata) : result BindingError Metadata :=
  match parents with
  | [] => Ok directory
  | parent :: rest =>
      let? _ := validate_directory directory owner in
      let? next := map_err BindingIo (bh_open host (below ++ [parent])) in
      descend host owner (below ++ [parent]) rest next
  end.

Definition selector_file_unsafe (metadata : Metadata) (owner : Z) : bool :=
  negb (md_is_file metadata) || negb (md_uid metadata =? owner) || negb (md_nlink metadata =? 1)
  || negb (existsb (Z.eqb (Z.land (md_mode metadata) 511)) [288; 416]).

(** The names of a path without its root; other components are refused. *)
Fixpoint plain_names (l : list Component) : result BindingError (list bytes) :=
  match l with
  | [] => Ok []
  | Normal name :: rest => let? names := plain_names rest in Ok (name :: names)
  | _ => Err BindingInvalid
  end.

Definition load_names (host : BindingHost) (parents : list bytes) (name : bytes) (owner : Z)
    : result BindingError LocalBinding :=
  let? root := map_err BindingIo (bh_open host []) in
  let? directory := descend host owner [] parents root in
  let? _ := validate_directory directory owner in
  let? metadata := map_err BindingIo (bh_open host (parents ++ [name])) in
  if selector_file_unsafe metadata owner then Err BindingInvalid
  else
  let? content := map_err BindingIo (bh_read host) in
  let record := take 1025 content in
  if negb (utf8_valid record) then Err (BindingIo OtherIo) else decode record.

Definition load (host : BindingHost) (p : list Component) (owner : Z)
    : result BindingError LocalBinding :=
  match p with
  | RootDir :: rest =>
      let? names := plain_names rest in
      match rev names with
      | [] => Err BindingInvalid
      | name :: parents => load_names host (rev parents) name owner
      end
  | _ => Err BindingInvalid
  end.

Definition ACTIVE_BINDING : list Component :=
  components (str "/etc/ocservia-agent/active-binding").

Definition load_active (host : BindingHost) : result BindingError (option LocalBinding) :=
  match load host ACTIVE_BINDING 0 with
  | Ok binding => Ok (Some binding)
  | Err (BindingIo NotFound) => Ok None
  | Err e => Err e
  end.

(** * The record and its text determine each other *)

Record valid_binding (b : LocalBinding) : Prop := {
  vb_node : length (lb_node_id b) = 16%nat; vb_version : uuid_version (lb_node_id b) = 7;
  vb_controller : length (lb_controller b) = 32%nat; vb_endpoint : length (lb_endpoint b) = 32%nat;
  vb_key_length : length (key_as_bytes (lb_command_key b)) = 32%nat;
  vb_key : verifying_key_from_bytes (key_as_bytes (lb_command_key b)) = Some (lb_command_key b) }.

Lemma decode_hex_ok value b : decode_hex value = Ok b -> length b = 32%nat.
Proof.
  unfold decode_hex. intros E. invert_ok E. subst. unfold len in *. lia.
Qed.

Lemma decode_hex_encode b : length b = 32%nat -> decode_hex (hex_encode b) = Ok b.
Proof.
  intros L. unfold decode_hex. rewrite hex_encode_chars, hex_decode_encode.
  unfold len. rewrite hex_encode_length. simpl. rewrite L. reflexivity.
Qed.

Lemma decode_valid record b : decode record = Ok b -> valid_binding b /\ record = encode b.
Proof.
  unfold decode. intros E. destruct (lines record) as [|v [|n [|c [|e [|k [|st [|? ?]]]]]]]; try done.
  invert_ok E. subst b. stable_guards. apply ok_or_Some in Hstep, Hstep3. simpl.
  apply from_bytes_as_bytes in Hstep3 as Ek. split; [|done]. split; simpl.
  - by eapply uuid_parse_length.
  - lia.
  - by eapply decode_hex_ok.
  - by eapply decode_hex_ok.
  - rewrite Ek. by eapply decode_hex_ok.
  - by rewrite Ek.
Qed.

(** The fields are lines of their own. *)
Lemma forallb_line (f : byte -> bool) l :
  forallb f l = true -> f x0a = false -> f x0d = false -> (x0a ∉ l) /\ last l <> Some x0d.
Proof.
  intros H Ha Hd. rewrite forallb_forall in H. split.
  - intros Hx%list_elem_of_In. apply H in Hx. congruence.
  - intros Hl. apply last_Some_elem_of, list_elem_of_In, H in Hl. congruence.
Qed.

Lemma encode_lines b : length (lb_node_id b) = 16%nat -> lines (encode b) = binding_fields b.
Proof.
  intros L. apply lines_concat. unfold binding_fields.
  assert (forall x, (x0a ∉ hex_encode x) /\ last (hex_encode x) <> Some x0d) as Hx.
  { intros x. by eapply forallb_line; [apply hex_encode_chars|..]. }
  set (printable := fun b => 32 <=? byte_val b).
  repeat (apply Forall_cons; split); try apply Hx; [| | |by constructor].
  - by apply (forallb_line printable).
  - eapply forallb_line; [by apply uuid_string_chars|done|done].
  - by destruct (lb_mutations_blocked b); apply (forallb_line printable).
Qed.

Lemma encode_length b : valid_binding b -> len (encode b) <= 1024.
Proof.
  intros [L1 _ L2 L3 L4 _]. unfold encode, binding_fields, len. simpl.
  rewrite !length_app, !hex_encode_length, uuid_string_length, L2, L3, L4 by done.
  destruct (lb_mutations_blocked b); simpl; lia.
Qed.

Lemma same_accepted (x : bytes) : bool_decide (x <> x) = false.
Proof. apply bool_decide_eq_false. intros H. by apply H. Qed.

Lemma decode_encode_binding b : valid_binding b -> decode (encode b) = Ok b.
Proof.
  intros V. pose proof (encode_length b V) as Hlen. destruct V as [L1 V1 L2 L3 L4 K].
  unfold decode. rewrite encode_lines by done. unfold binding_fields.
  rewrite same_accepted, (proj2 (Z.ltb_ge _ _) Hlen), uuid_parse_to_string by done. cbn [orb ok_or].
  rewrite V1, Z.eqb_refl, same_accepted. cbn [orb negb].
  rewrite !decode_hex_encode by done. rewrite K. cbn [ok_or].
  destruct b as [n c e k [|]]; cbn [lb_mutations_blocked lb_node_id lb_controller lb_endpoint lb_command_key];
    [rewrite bool_decide_false by done|]; rewrite bool_decide_true by done; by rewrite same_accepted.
Qed.

Lemma decode_iff record b : decode record = Ok b <-> valid_binding b /\ record = encode b.
Proof. split; [apply decode_valid|]. intros [V ->]. by apply decode_encode_binding. Qed.

Lemma encode_utf8 b : length (lb_node_id b) = 16%nat -> utf8_valid (encode b) = true.
Proof.
  intros L. apply utf8_valid_ascii.
  assert (forall (f : byte -> bool) l, forallb f l = true -> (forall x, f x = true -> is_ascii x = true) ->
    forallb is_ascii (l ++ [x0a]) = true) as Hf.
  { intros f l Hl Hi. rewrite forallb_app. apply andb_true_iff. split; [|done].
    apply forallb_forall. intros x Hx. rewrite forallb_forall in Hl. auto. }
  assert (forall x, forallb is_ascii (hex_encode x ++ [x0a]) = true) as Hx.
  { intros x. eapply Hf; [apply hex_encode_chars|]. by intros []. }
  assert (forallb is_ascii (uuid_to_string (lb_node_id b) ++ [x0a]) = true) as Hu.
  { eapply Hf; [by apply uuid_string_chars|]. by intros []. }
  unfold encode, binding_fields. cbn [fmap list_fmap concat]. rewrite !(forallb_app _ (_ ++ [x0a])), !Hx, Hu.
  by destruct (lb_mutations_blocked b).
Qed.

(** * The selector *)

(** A directory the selector may be read through, and the file itself. *)
Definition safe_directory_md (md : Metadata) : Prop :=
  md_is_dir md = true /\ md_uid md = 0 /\ Z.land (md_mode md) 18 = 0.

Definition safe_directory (host : BindingHost) (below : list bytes) : Prop :=
  exists md, bh_open host below = Ok md /\ safe_directory_md md.

Definition safe_selector (host : BindingHost) (p : list bytes) : Prop :=
  exists md, bh_open host p = Ok md /\ md_is_file md = true /\ md_uid md = 0 /\ md_nlink md = 1
    /\ (Z.land (md_mode md) 511 = 288 \/ Z.land (md_mode md) 511 = 416).

Lemma validate_directory_ok md u :
  validate_directory md 0 = Ok u <-> safe_directory_md md.
Proof.
  unfold validate_directory, safe_directory_md. destruct u. destruct (md_is_dir md); simpl; [|by split; [|intros []]].
  destruct (Z.eqb_spec (md_uid md) 0), (Z.eqb_spec (Z.land (md_mode md) 18) 0); simpl;
    split; try done; by intros (_ & ? & ?).
Qed.

Lemma selector_file_ok md :
  selector_file_unsafe md 0 = false <-> md_is_file md = true /\ md_uid md = 0 /\ md_nlink md = 1
    /\ (Z.land (md_mode md) 511 = 288 \/ Z.land (md_mode md) 511 = 416).
Proof.
  unfold selector_file_unsafe. cbn [existsb]. rewrite !orb_false_iff, !negb_false_iff, !orb_true_iff, !Z.eqb_eq.
  intuition discriminate.
Qed.

(** The text read is the whole record. *)
Lemma decode_take content b : decode (take 1025 content) = Ok b <-> valid_binding b /\ content = encode b.
Proof.
  rewrite decode_iff. split.
  - intros [V E]. split; [done|]. pose proof (encode_length b V) as H. rewrite <- E in H |- *.
    unfold len in H. rewrite length_take in H. rewrite take_ge; [done|lia].
  - intros [V ->]. split; [done|]. pose proof (encode_length b V) as H. unfold len in H.
    rewrite take_ge; [done|lia].
Qed.

Definition selector_names : list (list bytes) := [[]; [str "etc"]; [str "etc"; str "ocservia-agent"]].
Definition selector : list bytes := [str "etc"; str "ocservia-agent"; str "active-binding"].

Lemma load_active_names host :
  load host ACTIVE_BINDING 0 = load_names host [str "etc"; str "ocservia-agent"] (str "active-binding") 0.
Proof. reflexivity. Qed.

(** What the file read through the last open has to hold. *)
Lemma content_ok (r : result IoKind bytes) b :
  (let? content := map_err BindingIo r in
   if negb (utf8_valid (take 1025 content)) then Err (BindingIo OtherIo) else decode (take 1025 content)) = Ok b
  <-> valid_binding b /\ r = Ok (encode b).
Proof.
  destruct r as [content|e]; cbn [map_err]; [|by split; [|intros [_ [=]]]]. split.
  - destruct (utf8_valid _); cbn [negb]; [|done]. intros [V ->]%decode_take. done.
  - intros [V [= ->]]. rewrite (proj2 (decode_take _ b) (conj V eq_refl)).
    rewrite take_ge by (pose proof (encode_length b V); unfold len in *; lia).
    rewrite encode_utf8 by apply V. done.
Qed.

(** Every directory below the one at [below] that the descent opens. *)
Fixpoint below_names (below : list bytes) (parents : list bytes) : list (list bytes) :=
  match parents with
  | [] => []
  | parent :: rest => (below ++ [parent]) :: below_names (below ++ [parent]) rest
  end.

Lemma descend_ok {A} host below parents root (k : result BindingError A) a :
  (let? directory := descend host 0 below parents root in let? _ := validate_directory directory 0 in k) = Ok a
  <-> safe_directory_md root /\ Forall (safe_directory host) (below_names below parents) /\ k = Ok a.
Proof.
  revert below root. induction parents as [|parent rest IH]; intros below root; cbn [descend below_names];
    pose proof (validate_directory_ok root tt) as V; destruct (validate_directory root 0) as [[]|].
  - rewrite Forall_nil. intuition.
  - split; [done|]. intros [H%V _]. done.
  - rewrite Forall_cons. unfold safe_directory at 1. destruct (bh_open host _) as [md|e]; cbn [map_err].
    + rewrite IH. split.
      * intros (S & F & E). repeat split; try done; [by apply V..|by exists md].
      * by intros (_ & [(? & [= <-] & S) F] & E).
    + split; [done|]. by intros (_ & [(? & ? & _) _] & _).
  - split; [done|]. intros [H%V _]. done.
Qed.

Lemma selector_ok {A} host p (k : result BindingError A) a :
  (let? md := map_err BindingIo (bh_open host p) in
   if selector_file_unsafe md 0 then Err BindingInvalid else k) = Ok a
  <-> safe_selector host p /\ k = Ok a.
Proof.
  unfold safe_selector. destruct (bh_open host p) as [md|e]; cbn [map_err];
    [|by split; [|intros [(? & ? & _) _]]].
  pose proof (selector_file_ok md) as V. destruct (selector_file_unsafe md 0).
  - split; [done|]. intros [(? & [= <-] & Hm) _]. by apply V in Hm.
  - split; [|by intros []]. intros H. split; [|done]. exists md. split; [done|]. by apply V.
Qed.

Lemma load_names_ok host b :
  load_names host [str "etc"; str "ocservia-agent"] (str "active-binding") 0 = Ok b
  <-> Forall (safe_directory host) selector_names /\ safe_selector host selector
      /\ valid_binding b /\ bh_read host = Ok (encode b).
Proof.
  unfold load_names, selector_names. rewrite Forall_cons. unfold safe_directory at 1.
  destruct (bh_open host []) as [root|e]; cbn [map_err]; [|by split; [|intros [[(? & ? & _) _] _]]].
  rewrite descend_ok, selector_ok, content_ok. split.
  - intros (S & F & H). split; [|done]. split; [by exists root|done].
  - by intros ([(? & [= <-] & S) F] & R).
Qed.

(** Only a name that does not exist counts as one. *)
Definition absent (host : BindingHost) (p : list bytes) : Prop := bh_open host p = Err NotFound.

Lemma descend_absent host below parents root :
  descend host 0 below parents root = Err (BindingIo NotFound) ->
  Exists (absent host) (below_names below parents).
Proof.
  revert below root. induction parents as [|parent rest IH]; intros below root; cbn [descend below_names]; [done|].
  unfold validate_directory. destruct (_ || _); [done|].
  destruct (bh_open host _) as [md|e] eqn:E; cbn [map_err].
  - intros H. right. by eapply IH.
  - intros [= ->]. by left.
Qed.

Lemma decode_hex_err value e : decode_hex value = Err e -> e = BindingInvalid.
Proof.
  unfold decode_hex, ok_or. intros H. repeat case_match; congruence.
Qed.

Lemma decode_err record e : decode record = Err e -> e = BindingInvalid.
Proof.
  unfold decode, ok_or. intros H.
  repeat (case_match; simplify_eq; try done); by eapply decode_hex_err.
Qed.

Lemma load_names_absent host :
  load_names host [str "etc"; str "ocservia-agent"] (str "active-binding") 0 = Err (BindingIo NotFound) ->
  bh_read host = Err NotFound \/ Exists (absent host) (selector_names ++ [selector]).
Proof.
  unfold load_names, selector_names. rewrite Exists_app, !Exists_cons. unfold absent at 1.
  destruct (bh_open host []) as [root|e]; cbn [map_err]; [|by intros [= ->]; auto].
  destruct (descend _ _ _ _ _) as [directory|e] eqn:D.
  2:{ intros [= ->]. apply descend_absent in D. cbn [below_names app] in D. rewrite !Exists_cons in D. intuition. }
  unfold validate_directory. destruct (_ || _); [done|].
  change ([str "etc"; str "ocservia-agent"] ++ [str "active-binding"]) with selector. unfold absent at 4.
  destruct (bh_open host selector) as [md|e] eqn:O; cbn [map_err]; [|intros [= ->]; auto].
  destruct (selector_file_unsafe _ _); [done|].
  destruct (bh_read host) as [content|e]; cbn [map_err]; [|intros [= ->]; auto].
  destruct (negb _); [done|]. by intros ?%decode_err.
Qed.

(** C39. The selector of a node's authority is read as what root wrote there and
    nothing else: the Agent and the privileged daemon take up a binding exactly
    when every directory on the way is root's and writable by no one else, the
    file is root's, regular, with one name and mode 0440 or 0640, and its
    content is the canonical text of that binding, which is a valid one; the
    text and the binding determine each other. They go on without a binding
    only when a name on the way does not exist: unsafe, malformed or unreadable
    state is an error. *)
Theorem active_binding_exact host :
  (forall b, load_active host = Ok (Some b) <->
     Forall (safe_directory host) selector_names /\ safe_selector host selector
     /\ valid_binding b /\ bh_read host = Ok (encode b))
  /\ (load_active host = Ok None ->
       bh_read host = Err NotFound \/ Exists (absent host) (selector_names ++ [selector])).
Proof.
  unfold load_active. rewrite load_active_names. split.
  - intros b. rewrite <- load_names_ok. destruct (load_names _ _ _ _) as [b'|[|[]]]; split; congruence.
  - intros H. apply load_names_absent. destruct (load_names _ _ _ _) as [b'|[|[]]]; congruence.
Qed.

End Binding.

(** * A node with a binding *)

Module BoundNode.

#[local] Instance node_crypto : Crypto :=
  {| VerifyingKey := bytes; Signature := bytes; key_as_bytes := fun k => k; signature_from_slice := Some;
     verify_strict := fun _ m s => bool_decide (m = s); sha256 := last_bytes; hex_encode := lower_hex_string;
     sha256_length := last_bytes_length; hex_encode_inj := lower_hex_string_inj |}.

Lemma node_sign_verifies (k : bytes) m :
  exists s, signature_from_slice m = Some s /\ verify_strict k m s = true.
Proof. exists m. split; [done|]. by apply bool_decide_eq_true. Qed.

Lemma node_key_bytes b k : Some b = Some k -> key_as_bytes k = b.
Proof. by intros [= ->]. Qed.

#[local] Instance node_signer : Signer :=
  {| SigningKey := bytes; verifying_key := fun k => k; sign := fun _ m => m;
     verifying_key_from_bytes := Some; sign_verifies := node_sign_verifies;
     from_bytes_as_bytes := node_key_bytes |}.
#[local] Instance node_text : RecordText := plain_text node_crypto eq_refl.
#[local] Existing Instance up_platform.

Definition node_binding : LocalBinding := mkLocalBinding (v7 3) (be 32 4) (be 32 5) (be 32 6) true.

(** Root's directories and selector. *)
Definition node_host : BindingHost :=
  mkBindingHost (fun p => if bool_decide (p = selector) then Ok (mkMetadata false true 0 1 33184)
                          else Ok (mkMetadata true false 0 2 16877))
    (Ok (encode node_binding)).

Lemma active_binding_exact_witness : load_active node_host = Ok (Some node_binding).
Proof.
  apply (active_binding_exact node_host). split; [|split; [|split]].
  - repeat constructor; by exists (mkMetadata true false 0 2 16877).
  - exists (mkMetadata false true 0 1 33184). repeat split; by auto.
  - by repeat split.
  - reflexivity.
Defined.

End BoundNode.
